(* ===== verification/_CoqProject ===== *)
-Q . S2P
Prelude.v
EffLogic.v
Text.v
Json.v
JsonSchema.v
TaskCore.v
WorkflowCore.v
LedgerCore.v
WorkflowGraph.v
WorkflowDefinition.v
Store.v
TaskStore.v
WorkflowStore.v
WorkflowLifecycle.v
StoreProgram.v
TaskService.v
WorkflowSafety.v
WorkflowReconcile.v
ReconcileMoves.v
ReconcileSafety.v
WorkflowCommands.v
WorkflowStart.v
WorkflowPublish.v
ReconcileProgress.v
ScheduleStore.v
LedgerStore.v
ScheduleDispatch.v
ScheduleLaws.v
ScheduleExecutors.v
ScheduleGates.v
ScheduleRules.v
ScheduleExample.v
RunDispatch.v
RunLaws.v
RunReaper.v
RunReconcile.v
RunExample.v
SessionCore.v
Pricing.v
GatewayCatalog.v
SessionMeta.v
SessionJournal.v
SessionStore.v
SessionContext.v
SessionBranch.v
SessionRewind.v
JournalText.v
SessionCommit.v
SessionRefines.v
SessionOpen.v
SessionResume.v
SessionFork.v
SessionExample.v
AgentContext.v
AgentContextLaws.v
TurnQueue.v
TurnLaws.v
TurnCluster.v
TurnExample.v
AgentNotes.v
AgentNotesLaws.v
AgentCore.v
Gateway.v
GatewayLaws.v
GatewayClients.v
GatewayRun.v
GatewayExample.v
AgentLoop.v
AgentRunLogic.v
AgentRunParts.v
AgentLoopSafety.v
AgentLoopHistory.v
AgentLoopLiveness.v
AgentSession.v
AgentSessionRun.v
ModelCalls.v
AgentExample.v
AgentSessionExample.v
AgentLoopLimits.v
