(* ===== verification/Prelude.v ===== *)
(** * BuildMax: a verification library

    BuildMax runs AI agents as Tasks: a Task is a conversation with an agent, a
    task run one execution of it by a worker, and a Workflow a graph of nodes,
    each of which becomes a Task or a question to a person.  This library is a
    model in Rocq of the Go code that decides what runs, in which order and
    when it is over, with the theorems that make that code correct.

    ** The program and its model

    Every Go package is a [Module] named after it, in the file of its layer;
    definitions keep the names of the Go functions, records those of the
    structs with a prefix for the type.  Read bottom up:

    - [Prelude]: record update, decidable equality, [res] (a Go result and its
      error), finite tables as lists of rows, and the tactics and hints the
      other files share.
    - [Text] (the functions of Go's package strings), [Json] with
      [Module pointer] (internal/core/workflow/pointer.go) and [JsonSchema]
      with [Module jsonschema] (internal/core/jsonschema).
    - [TaskCore], [Module coretask]: internal/core/task, statuses of a run,
      records, failure classes, admission payload, checkpoint kinds, origins.
    - [WorkflowCore], [Module coreworkflow]: internal/core/workflow/workflow.go,
      statuses of runs, nodes and requests with their transition tables, retry
      backoff and deadlines, definitions, records, inputs and keys.
    - [WorkflowGraph], [Module graph]: graph.go, Kahn's algorithm over a
      definition's needs.  [WorkflowDefinition], [Module definition]: the half of
      internal/service/workflow/service.go that parses, validates and pins a
      definition, with [Module agentdef] for the agent store's interface.
    - [Store], [Module db]: the database of internal/infra/db.  The record
      [Store] has one list of rows per table, in primary-key order, a clock and
      a counter of drawn ids; [DB A] is a program over it that returns a result
      or an error, [transaction] undoes the tables on an error, and [catch] is
      Go's handling of one.
    - [TaskStore], [Module taskdb] (task.go, task_run.go) and [WorkflowStore],
      [Module workflowdb] (workflow.go, workflow_request.go,
      workflow_admission.go): every operation that writes a task, a run, a
      workflow, a node or a request, with its WHERE as a guard on the row.
    - [TaskService], [Module taskservice]: internal/service/task, with a
      typeclass for what the workflow service uses of it.
    - [WorkflowReconcile], [Module workflow]: the reconciler of
      internal/service/workflow (service.go, drain.go, request.go): one pass
      over a run folds finished attempts and answers, dispatches ready nodes,
      retries, and drains a run that was stopped.
    - [WorkflowCommands], [Module workflowapi]: the commands of the same
      service, creating, editing, publishing and restoring a workflow, starting
      and canceling a run, answering a request, and the recovery sweep of
      internal/server/scheduler/workflow_recovery.go.
    - [SessionCore]: a conversation on a user's machine.  [Module llm] has the
      message types of internal/core/llm, [Module agent] the notes, todos and
      tool boundaries of internal/core/agent, and [Module session] the history
      of internal/core/session: records, validator, [Branch], [Reduce],
      [ForkPrefix], [RewindLanding], [Abandoned] and [Analyze].
    - [Pricing], [Module pricing]: internal/core/llm/pricing.go on 64-bit
      integers.  [SessionMeta], [Module meta]: meta.go, usage.go and stats.go of
      internal/core/session with the rows of the session index.
    - [SessionJournal], [Module journal]: the lines of a journal file and their
      reading.  [SessionStore], [Module sessionstore]: internal/infra/sessionstore,
      the file store over a record [Disk] of session directories, the index and
      the outcomes of the coming writes; [FS A] is a program over it.
    - [SessionContext], [Module agentapp]: session_context.go and
      session_manager.go of internal/agentapp.  [Ctx A] is a method of an open
      session, over the disk and the session's fields.
    - [AgentContext]: what a model call is given.  [Module context] is
      context.go of internal/core/agent (token estimates, trimming, the cut of a
      compaction, summaries), [Module queue] and [Module question] its queue.go
      and question.go.  [AgentNotes]: [Module notes] and [Module memory], the
      blocks rendered after the messages.
    - [AgentCore]: what an agent run is made of.  [Module runstats] is its
      accounting (agent.go, delegation.go), [Module llmapi] the requests of
      internal/core/llm, [Module tools] the tool contract, the permission
      layers, the grants and the loop guard, [Module hooks] the hook payloads.
    - [AgentLoop], [Module runloop]: agent.go, compaction.go and
      tool_boundary.go, from queued input to the reply.  Everything outside the
      loop is a function of a host state [S]; [Loop S A] is a program over a
      [Run S], which carries that state, the totals, the grants and a log of
      what the run did.  A tool is a program [toolProg] over the same state.
    - [AgentSession]: an open session as the history of a run, so that the two
      layers meet; [AgentSessionRun]: a run over one is a sequence of its
      methods.  [ModelCalls], [Module ollama]: the call identifiers of
      internal/infra/llm/ollama.go.
    - [ScheduleStore]: [Module coreschedule], the records of
      internal/core/schedule; [Module space] and [Module eligibility], who may
      do and run what (internal/core/space, internal/core/eligibility).
      [ScheduleStore], [Module scheduledb]: internal/infra/db/schedule.go.
      [ScheduleDispatch], [Module schedule]: the commands and rule checks of
      internal/service/schedule, with the cron library and the time zones as the
      class [Cron].  [ScheduleDispatch], [Module dispatcher]: the poll loop and
      the sweep of internal/server/scheduler/schedule_dispatcher.go, which starts
      executors through the class [Executors] and returns the [fate] of every
      schedule that was due, where the code logs it.  [Disp A] is a program over a
      [Dispatch], the store with the claims won and the start calls made.
    - [LedgerCore]: [Module coregw], [Module corequota] and [Module coreaudit],
      the records of internal/core/llmgateway, quota and audit.  [LedgerStore]:
      [Module ledgerdb] (llm_call.go, the ledger of provider calls) and [Module
      modeldb] (llm_model.go, the stored models, with the class [Cipher] for the
      sealing of a credential).
    - [GatewayCatalog], [Module llmgateway]: capabilities, catalogs, resolution
      and error classes of internal/service/llmgateway.  [Gateway], [Module
      gateway]: its router.go, service.go and server_model.go, from a request to
      the closed ledger row; [GW A] is a program over a [Gateway], the database
      with the client cache and the state of the providers.  [GatewayClients],
      [Module bootstrap]: internal/bootstrap/llmgateway.go, the catalog of a
      server and the factory that gives a client its key.
    - [RunDispatch]: the loops of internal/server/scheduler over task runs.
      [Module runscheduler] (scheduler.go) hands the oldest pending run to a
      worker, through the class [Host]; [Module reaper] (stale_runs.go) ends the
      runs nothing else will end; [Module reconciler]
      (eligibility_reconciler.go) stops the work of accounts that lost their
      authority; [Module runscan] has the scans of task_run.go they use.
    - [TurnQueue]: the turns of a conversation on a server.  [Module turnqueue]
      (internal/server/turnqueue) has every goroutine as a program counter over
      the shared registry, one [act] per critical section; [Module coordination]
      (internal/infra/coordination/lock.go) the locks as what their scripts do to
      Redis; [Module servercoord] the lock of a turn; [Module conversationdb]
      (conversation_message.go) the messages a turn appends.
    The remaining files hold theorems only: [WorkflowLifecycle], [StoreProgram]
    and [WorkflowSafety] about the stores under any program;
    [ReconcileMoves], [ReconcileSafety] and [ReconcileProgress] about the
    reconciler; [WorkflowStart] and [WorkflowPublish] about the
    commands; [EffLogic], triples about programs in general, and about
    programs that perform events; [ScheduleLaws],
    [ScheduleExecutors], [ScheduleGates] and [ScheduleRules] about schedules,
    with [ScheduleExample] for some that are due; [SessionBranch] and
    [SessionRewind] about a history; [JournalText] about its file;
    [SessionCommit], [SessionRefines], [SessionOpen], [SessionResume] and
    [SessionFork] about open sessions, with [JournalText] and [SessionExample]
    for a codec and sessions to instantiate them with; [AgentContextLaws],
    [AgentNotesLaws], [AgentLoopSafety], [AgentLoopHistory], [AgentLoopLiveness]
    and [AgentLoopLimits] about agent runs, with [AgentExample] for a run;
    [GatewayLaws] and [GatewayRun] about managed calls, with
    [GatewayExample] for some; [RunLaws], [RunReaper] and
    [RunReconcile] about task runs, with [RunExample] for some; [TurnLaws] and
    [TurnCluster] about turns, on one server and on several, with [TurnExample].

    ** How code becomes definitions

    A pure function is a function.  A store operation is a [DB] program; a
    [SELECT] reads the rows in primary-key order, an [UPDATE] maps the rows that
    satisfy its WHERE and returns how many there were.  A row is named by its
    public id, and a column that refers to another row holds that row's public
    id; an unresolved handle is the error the store returns.  Times are
    nanoseconds in [Z], Go's [int] and [int64] counters are [Z] where the code's
    own limits keep them far from the width, and a nil pointer is [None].  JSON
    columns hold parsed values; the text of a definition stays a string, read
    by a parameter [Unmarshal].  Other collaborators are arguments: agents,
    quota, titles, schemas of requests, the id generators.  An error carries
    what code can test with [errors.Is]; most message texts are left out.

    A session's disk is a record of directories; a write takes the next outcome
    of the list [D_writes] and may stop after any number of bytes.  Encoding one
    record as JSON is the class [Codec], and what the theorems use of it is
    [CodecLaws]: a record that is [exact] (its strings are valid UTF-8, its raw
    messages compact) is read back from its line, and a line has no newline.
    The order in which Go ranges over a map is a function [range] that permutes
    the entries.  A session's writer lock is a flag of its directory: sessions
    are modelled one process at a time, with the lock's refusal.

    Other processes (API requests, sweeps, other reconcilers) are a function
    [others : Store → Store] applied before every store call of a service, so a
    theorem about a service that assumes only that [others] keeps an invariant
    is about every interleaving at the granularity of a transaction.  Inside a
    transaction rows are locked as the code locks them; the two operations that
    read and write in two transactions ([AdmitTask], [UpdateWorkflow]) take the
    program that runs in between as an argument.  The gateway's [others] is of
    type [Gateway → Gateway], with a relation it has to satisfy; its fields
    [G_Calls] (the calls of the routed provider client) and [G_Owners] (which
    request opened which row) record what happened for the theorems and are never
    read, and so do [Di_Claimed] (the claims won) and [Di_Started] (the calls that
    start an executor) of the schedule dispatcher's [Dispatch].

    ** What the theorems show

    - Reconciler: [Reconcile_progress], whatever others commit, a node starts
      only after its needs succeeded and a run succeeds only if all its nodes
      did; [reconcilePass_terminates], two bodies of the pass are enough.
    - Stores under any program: [store_program_invariant] and
      [store_program_lifecycle] (the closure of the store operations that services
      call, without [UpdateTask] and [ClaimTask], which none calls and which break
      the mirroring, [ClaimTask_unmirrors], and with a node's next run admitted
      only from the statuses the callers pass, keeps the database well formed and
      moves rows only along their lifecycles);
      [StopWorkflowRun_final] and [BeginWorkflowRunDrain_first] (a stop is final
      and its first cause stays); [admitWorkflowNodeTask_atomic],
      [AdmitTask_idempotent] (admission); lemmas
      [ClaimWorkflowRunLease_exclusive], [ResolveWorkflowRequest_once],
      [TransitionTaskRun_once] (guarded writes), [UpdateWorkflow_cas],
      [CreateTaskRun_result], [RequestTaskRunCancel_first] and
      [Records_first_write_wins].
    - Definitions: [parseDefinition_valid] and [parseDefinition_complete] (the
      parser accepts exactly the canonical well-formed definitions),
      [pinDefinitionAgents_pins], [BuildGraph_accepts], [BuildGraph_order] and
      [IsPredecessor_tc] (Kahn's algorithm against acyclicity, topological
      order and the transitive closure).
    - Values: lemma [Compile_satisfiable] and [Validate_conforms] (schemas against
      their declarative meaning), [ResolvePointer_selects] and
      [ValidatePointer_exact] (pointers against the paths they write),
      [RetryBackoff_exponential], [ParseNodeOutputSource_inverse].
    - Commands: [StartWorkflowRun_expands] (the steps of a started run are the
      nodes of its validated definition), lemmas
      [CancelWorkflowRun_stops] and [UpdateWorkflow_publishes]; and, as theorems about concrete schedules,
      what two of them allow: [StartWorkflowRun_races] and [scheduleRetry_races];
      [UpdateWorkflow_edit_unpinned] is an edit that loses the pins.
    - Sessions: [session_tracks_history], after any methods
      that answer no call twice, and any failed writes, an open session shows what
      its history reduces to;
      [reopen_resumes] and [interrupted_turn_repaired], what a later open reads,
      after a clean end and after an end inside a tool;
      [torn_append_recovers], a journal after a crash in the middle of a write;
      [Rewind_lands] and [Fork_copies].  They rest on [Validate_journal] (the
      validator accepts exactly the inductive journals), [Branch_Ok] (a branch is
      the chain of parents), [ForkPrefix_spec] and [found_spec] (recovery finds
      exactly the calls of the open turn that were entered and not answered).
    - Money: lemma [ParseRate_FormatRate].
    - Agent runs: [RunLoop_permitted] (a tool is executed only when every layer
      let the call through, whatever the model, the hooks and the tools do),
      [RunLoop_loop_guard], [RunLoop_conversation] and [RunLoop_requests] (the
      history stays well formed, and every request carries the system prompt, the
      end of the history and the lines of the session's state), [RunLoop_answers] (a
      run over a cooperating host returns a reply), [RunLoop_session] (a run
      over an open session calls only methods the session admits, so what is
      shown of sessions holds after any run), lemmas
      [TrimHistory_spec], [splitForCompaction_spec], [admit_spec], [delegated_once] and
      [toolCallsFrom_fresh].  They are proved with the triples of
      [AgentRunLogic] and the per-stage lemmas of [AgentRunParts];
      [AgentLoopLimits] has the edges at which code and comments differ.
    - Schedules: [sweep_fires_once], the services are called only for claims the
      sweep won, and a due time is claimed at most once whatever interleaves,
      proved over [history], the sequences of claims and changes that bring no due
      time back; of the cron library it uses [CronLaws], that the next activation
      is later or the zero time, and a schedule that was left without a next
      activation is excepted ([unsatisfiable_rule_fires_every_sweep]);
      [fireOne_gates], what a start call needs; [failing_schedule_pauses], over the
      poll loop, a schedule that cannot start its executor uses up its due times
      and stops;
      [schedules_stay_valid], stored rules can be read; lemma
      [RecordFire_records].
      The dispatcher is proved against [ExecutorLaws], which [ScheduleExecutors]
      discharges for the task and workflow services.
    - Gateway: [managed_call_once], a provider client is called at most once per
      user and client call id and always under an open ledger row of its own;
      [managed_call_accounted], that row names the routed target with its rates
      and says what the caller is told;
      [rotated_key_used], a replaced credential reaches the next call when the clock
      has moved since the row's last revision.  They are
      proved by rely and guarantee in [GatewayLaws] and [GatewayClients]: others
      may do anything that keeps the ledger's invariant and the rows this
      request opened.  [LedgerStore] has the laws of the ledger's rows.
    - Task runs: [runs_dispatched_once], a run is handed to a worker at most
      once whatever interleaves, over [claims], the sequences of claims and of
      anything the stores may do; [pollOnce_gates], what a poll found and did, fate
      by fate;
      [Sweep_verdicts], which runs the reaper ends and as what;
      [Sweep_misses_nobody], a pass of the eligibility reconciler reaches every
      run it has to, across pages and other writers.
    - Turns: [turns_in_order] (a queue runs one goroutine, serves
      what it was given in order, each turn once), [turns_answered] (every turn
      is run, refused or dropped after boundedly many steps) and
      [drained_stays_quiet], for every interleaving of callers, queues and a
      shutdown; [fenced_turns_contiguous], over [Cluster], replicas of the
      registry that share Redis and the database.  [two_turns_overlap] is the
      schedule on which the in-process queue fails to exclude.
    ** Bounds and fuel

    [kahn] emits one node per turn and gets as much fuel as there are nodes;
    [topoSort_enough_fuel] shows that it never runs out.  Schemas and JSON
    values recurse on their structure.  [reconcilePass] calls itself through a
    fuel argument whose exhaustion is an arbitrary program [stuck]:
    [reconcilePass_terminates] shows that two turns are enough when nothing is
    committed meanwhile, and [Reconcile_progress] holds for every fuel.
    [Branch] walks the parents with the count its Go loop checks; [Branch_Ok]
    shows that the count is never reached on a journal that validates.
    [RunLoop] makes at most [MaxIter] iterations; the queued input one iteration
    drains is bounded by a [patience], and [RunLoop_answers] shows that patience
    above the input waiting is enough; [Starved] is the model's own error when
    it is not.  The safety theorems hold for every patience.
    A pass of the eligibility reconciler reads pages until one is short; its fuel
    counts pages, and [Sweep_misses_nobody] shows that one more than there are
    runs is enough.
    The steps left to a registry are bounded by [measure], a weight per program
    counter and waiting turn.
    ** Not modelled

    Input and output: HTTP handlers, the terminal and desktop front ends, model
    providers and the transport of their clients, retries included
    (internal/infra/llm), Kubernetes, object storage, sandboxes and tools.  Of the modelled
    packages: formatting and error texts, the SQL layer itself (GORM, isolation
    below a transaction, and collations: texts compare byte by byte), JSON decoding of text, hashing (an admission
    fingerprint is the payload that is hashed) and paginated list queries.  Of
    sessions: directory and permission errors, a write to a journal whose
    directory another process deleted, and the title a model writes, which is an
    argument of [Finalize].  Of agent runs: the calls of a parallel group run one
    after the other, in any order, rather than overlapping; a tool always
    returns or panics; cancellation is only what the host's [Cancelled] says
    after a failed model call; event and stream sinks are always there and only
    recorded; durations, log lines and most error texts are left out, and a
    fingerprint of the loop guard is the text that is hashed.  Of a cluster of turn
    queues: the replicas and Redis share one clock, and Redis loses its data only
    once that clock has passed every fence it issued, as the comment on fenceFloor
    in internal/infra/coordination/lock.go has it; a skew between the replicas'
    clocks is left out. *)

From stdpp Require Export base tactics option list strings relations sorting.
From Stdlib Require Export ZArith Lia.
From Stdlib Require Import Ascii.

Set Default Goal Selector "!".

(** ** Scope and hint databases of the development *)

Declare Scope buildmax_scope.
Delimit Scope buildmax_scope with bm.

Create HintDb bm.
Create HintDb bm_pres.

(** ** Record update

    [x <| f := v |>] updates one field.  A record type opts in with an
    instance of [Updatable] that eta-expands its constructor; the setter of a
    projection is then computed once, by abstracting that projection in the
    expansion. *)

Class Updatable (R : Type) := eta_expand : R → R.
#[global] Arguments eta_expand R {_} _ : assert.

Class Setter {R T : Type} (proj : R → T) := modify : (T → T) → R → R.
#[global] Arguments modify {R T} proj {_} _ _ : assert.

Ltac build_setter R proj :=
  let expand := eval cbv delta [eta_expand] in (fun r : R => eta_expand R r) in
  let g := fresh "g" in
  let r := fresh "r" in
  refine (fun g r => _);
  let body := eval cbv beta in (expand r) in
  let body := eval unfold eta_expand in body in
  let body := eval hnf in body in
  let abstracted := eval pattern (proj r) in body in
  lazymatch abstracted with
  | ?f _ => let t := eval cbv beta in (f (g (proj r))) in exact t
  end.

#[global] Hint Extern 1 (@Setter ?R ?T ?proj) =>
  unfold Setter; build_setter R proj : typeclass_instances.

Notation "x <| proj := v |>" := (modify proj (fun _ => v) x)
  (at level 12, left associativity, format "x  <| proj  :=  v |>") : buildmax_scope.
Open Scope buildmax_scope.

(** ** The effect monad of store-backed code

    Go code that returns [(T, error)] and writes to a shared store is an [Eff]:
    it returns a value or an error, and the store as the code left it, so the
    writes made before an error stay, as they do in the program. *)

Inductive res (E A : Type) : Type :=
| Ok (a : A)
| Err (e : E).
#[global] Arguments Ok {E A} a.
#[global] Arguments Err {E A} e.

#[export] Instance res_eq_dec {E A} `{EqDecision E, EqDecision A} : EqDecision (res E A).
Proof. solve_decision. Defined.

#[export] Instance res_ret {E} : MRet (res E) := @Ok E.
#[export] Instance res_bind {E} : MBind (res E) :=
  λ A B f m, match m with Ok a => f a | Err e => Err e end.

Definition is_ok {E A} (r : res E A) : bool :=
  match r with Ok _ => true | Err _ => false end.

Definition Eff (E S A : Type) : Type := S → res E A * S.

#[export] Instance eff_ret {E S} : MRet (Eff E S) := λ A a s, (Ok a, s).
#[export] Instance eff_bind {E S} : MBind (Eff E S) :=
  λ A B f m s,
    match m s with
    | (Ok a, s') => f a s'
    | (Err e, s') => (Err e, s')
    end.

Section Eff.
Context {E S : Type}.

Definition fail {A} (e : E) : Eff E S A := λ s, (Err e, s).
Definition get : Eff E S S := λ s, (Ok s, s).
Definition gets {A} (f : S → A) : Eff E S A := λ s, (Ok (f s), s).
Definition put (s : S) : Eff E S unit := λ _, (Ok tt, s).
Definition lift {A} (r : res E A) : Eff E S A := λ s, (r, s).
Definition or_fail {A} (e : E) (o : option A) : Eff E S A :=
  match o with Some a => mret a | None => fail e end.

(** [if err != nil] handled in place: what [m] wrote stays. *)
Definition catch {A} (m : Eff E S A) (h : E → Eff E S A) : Eff E S A := λ s,
  match m s with
  | (Ok a, s') => (Ok a, s')
  | (Err e, s') => h e s'
  end.

(** [steps R m]: whatever [m] returns, the store moves along [R].  With a
    preorder [R] the rules below make it compositional, so a fact proved of
    each store operation holds of every program built from them. *)
Definition steps {A} (R : relation S) (m : Eff E S A) : Prop := ∀ s, R s (m s).2.

(** [preserves I m] is the invariant form of [steps]. *)
Definition preserves {A} (I : S → Prop) (m : Eff E S A) : Prop := ∀ s, I s → I (m s).2.

Section Rules.
Context (R : relation S) `{!PreOrder R}.

Lemma steps_ret {A} (a : A) : steps R (mret a).
Proof. intros s. reflexivity. Qed.

Lemma steps_fail {A} (e : E) : steps R (@fail A e).
Proof. intros s. reflexivity. Qed.

Lemma steps_lift {A} (r : res E A) : steps R (lift r).
Proof. intros s. reflexivity. Qed.

Lemma steps_gets {A} (f : S → A) : steps R (gets f).
Proof. intros s. reflexivity. Qed.

Lemma steps_catch {A} (m : Eff E S A) h :
  steps R m → (∀ e, steps R (h e)) → steps R (catch m h).
Proof.
  intros Hm Hh s. unfold catch. specialize (Hm s).
  destruct (m s) as [[a|e] s']; [exact Hm|]. cbn in Hm. etransitivity; [exact Hm|apply Hh].
Qed.

Lemma steps_bind {A B} (m : Eff E S A) (f : A → Eff E S B) :
  steps R m → (∀ a, steps R (f a)) → steps R (m ≫= f).
Proof.
  intros Hm Hf s. unfold mbind, eff_bind. specialize (Hm s).
  destruct (m s) as [[a|e] s']; [|exact Hm]. cbn in Hm. etransitivity; [exact Hm|apply Hf].
Qed.

(** The continuation only sees what [m] can return. *)
Lemma steps_bind_ok {A B} (m : Eff E S A) (f : A → Eff E S B) :
  steps R m → (∀ s a s', m s = (Ok a, s') → steps R (f a)) → steps R (m ≫= f).
Proof.
  intros Hm Hf s. unfold mbind, eff_bind. specialize (Hm s).
  destruct (m s) as [[a|e] s'] eqn:Em; [|exact Hm]. cbn in Hm.
  etransitivity; [exact Hm|by eapply Hf].
Qed.
End Rules.

Section PreservesRules.
Context (I : S → Prop).

Lemma preserves_ret {A} (a : A) : preserves I (mret a).
Proof. intros s H. exact H. Qed.

Lemma preserves_fail {A} (e : E) : preserves I (@fail A e).
Proof. intros s H. exact H. Qed.

Lemma preserves_lift {A} (r : res E A) : preserves I (lift r).
Proof. intros s H. exact H. Qed.

Lemma preserves_gets {A} (f : S → A) : preserves I (gets f).
Proof. intros s H. exact H. Qed.

Lemma preserves_catch {A} (m : Eff E S A) h :
  preserves I m → (∀ e, preserves I (h e)) → preserves I (catch m h).
Proof.
  intros Hm Hh s H. unfold catch. specialize (Hm s H).
  destruct (m s) as [[a|e] s']; [exact Hm|]. apply Hh. exact Hm.
Qed.

Lemma preserves_bind {A B} (m : Eff E S A) (f : A → Eff E S B) :
  preserves I m → (∀ a, preserves I (f a)) → preserves I (m ≫= f).
Proof.
  intros Hm Hf s H. unfold mbind, eff_bind. specialize (Hm s H).
  destruct (m s) as [[a|e] s']; [|exact Hm]. apply Hf. exact Hm.
Qed.
End PreservesRules.
End Eff.

#[export] Hint Resolve steps_ret steps_fail steps_lift steps_gets
  preserves_ret preserves_fail preserves_lift preserves_gets : bm_pres.

(** Unfold one program into the state transformer it is. *)
Ltac eff_unfold :=
  unfold mbind, eff_bind, mret, eff_ret, get, gets, put, fail, lift, or_fail; cbn.

(** [eff_walk] splits a program along its binds and case distinctions and
    closes the leaves with the [bm_pres] facts. *)
Ltac eff_walk :=
  repeat lazymatch goal with
  | |- forall _, _ => intro
  | |- steps _ (mbind _ _) => apply steps_bind
  | |- preserves _ (mbind _ _) => apply preserves_bind
  | |- steps _ (catch _ _) => apply steps_catch
  | |- preserves _ (catch _ _) => apply preserves_catch
  | |- steps _ (match ?x with _ => _ end) => destruct x eqn:?
  | |- preserves _ (match ?x with _ => _ end) => destruct x eqn:?
  | |- steps _ _ => solve [eauto 3 with bm_pres typeclass_instances]
  | |- preserves _ _ => solve [eauto 3 with bm_pres]
  end.

(** Inverting a successful run. *)

Lemma eff_bind_ok {E S A B} (m : Eff E S A) (f : A → Eff E S B) s b s' :
  (m ≫= f) s = (Ok b, s') ↔ ∃ a s1, m s = (Ok a, s1) ∧ f a s1 = (Ok b, s').
Proof.
  unfold mbind, eff_bind. destruct (m s) as [[a|e] s1]; split.
  - eauto.
  - by intros (? & ? & [= <- <-] & ?).
  - done.
  - by intros (? & ? & ? & ?).
Qed.

Lemma gets_ok {E S A} (f : S → A) s a s' : @gets E S A f s = (Ok a, s') ↔ a = f s ∧ s' = s.
Proof. unfold gets. split; [by intros [= <- <-]|by intros [-> ->]]. Qed.

Lemma get_ok {E S} (s a s' : S) : @get E S s = (Ok a, s') ↔ a = s ∧ s' = s.
Proof. unfold get. split; [by intros [= <- <-]|by intros [-> ->]]. Qed.

Lemma put_ok {E S} (x s : S) u s' : @put E S x s = (Ok u, s') ↔ s' = x.
Proof. unfold put. destruct u. split; [by intros [= <-]|by intros ->]. Qed.

Lemma ret_ok {E S A} (x : A) (s : S) a s' : (mret x : Eff E S A) s = (Ok a, s') ↔ a = x ∧ s' = s.
Proof. unfold mret, eff_ret. split; [by intros [= <- <-]|by intros [-> ->]]. Qed.

Lemma or_fail_ok {E S A} (e : E) (o : option A) (s : S) a s' :
  or_fail e o s = (Ok a, s') ↔ o = Some a ∧ s' = s.
Proof.
  unfold or_fail. destruct o as [x|]; [rewrite ret_ok; naive_solver|]. unfold fail. naive_solver.
Qed.

Lemma fail_ok {E S A} (e : E) (s : S) (a : A) s' : fail e s = (Ok a, s') ↔ False.
Proof. unfold fail. naive_solver. Qed.

Lemma catch_ok {E S A} (m : Eff E S A) h s a s' :
  catch m h s = (Ok a, s') ↔
    m s = (Ok a, s') ∨ ∃ e s1, m s = (Err e, s1) ∧ h e s1 = (Ok a, s').
Proof. unfold catch. destruct (m s) as [[x|e] s1]; naive_solver. Qed.

(** ** Tables

    A database table is the list of its rows in primary-key (insertion) order.
    [UPDATE t SET f WHERE p] is [update_where p f t], and its affected-row count
    is [matching p t]. *)

Section Table.
Context {R : Type}.
Implicit Types (p : R → bool) (f : R → R) (t : list R).

Definition update_where p f t : list R := map (λ r, if p r then f r else r) t.
Definition matching p t : nat := length (List.filter p t).
Definition rows_where p t : list R := List.filter p t.
Definition take_where p t : option R := List.find p t.

Lemma update_where_length p f t : length (update_where p f t) = length t.
Proof. apply length_map. Qed.

Lemma elem_of_update_where p f t r :
  r ∈ update_where p f t ↔ ∃ r0, r0 ∈ t ∧ r = (if p r0 then f r0 else r0).
Proof. unfold update_where. rewrite list_elem_of_fmap. naive_solver. Qed.

Lemma take_where_Some p t r : take_where p t = Some r → r ∈ t ∧ p r = true.
Proof. intros H. apply find_some in H as [H ?]. by rewrite <- list_elem_of_In in H. Qed.

Lemma take_where_None p t : take_where p t = None → ∀ r, r ∈ t → p r = false.
Proof. intros H r Hr. apply (find_none _ _ H). by apply list_elem_of_In. Qed.

Lemma matching_zero p t : matching p t = 0 → ∀ r, r ∈ t → p r = false.
Proof.
  unfold matching. intros H%nil_length_inv r Hr.
  destruct (p r) eqn:E; [|done]. exfalso.
  assert (In r (List.filter p t)) as Hin by (apply filter_In; by rewrite <- list_elem_of_In).
  by rewrite H in Hin.
Qed.

Lemma matching_pos p t r : r ∈ t → p r = true → 0 < matching p t.
Proof.
  intros Hr Hp. destruct (decide (matching p t = 0)) as [E|]; [|lia].
  by rewrite (matching_zero _ _ E r Hr) in Hp.
Qed.

Lemma update_where_none p f t : matching p t = 0 → update_where p f t = t.
Proof.
  intros H. unfold update_where. rewrite <- (map_id t) at 2.
  apply map_ext_in. intros r Hr%list_elem_of_In. by rewrite (matching_zero _ _ H r Hr).
Qed.

Lemma update_where_map {K} (k : R → K) p f t :
  (∀ r, k (f r) = k r) → map k (update_where p f t) = map k t.
Proof.
  intros H. unfold update_where. rewrite map_map. apply map_ext. intros r.
  destruct (p r); auto.
Qed.

Lemma rows_where_keys {K} (k : R → K) p t : NoDup (map k t) → NoDup (map k (rows_where p t)).
Proof.
  unfold rows_where. induction t as [|r t IH]; cbn; [done|]. intros [Hr Ht]%NoDup_cons. destruct (p r); [|auto].
  cbn. constructor; [|auto]. intros (r' & E & [Hr' _]%list_elem_of_In%filter_In)%list_elem_of_fmap.
  apply Hr. rewrite E. apply list_elem_of_fmap_2. by apply list_elem_of_In.
Qed.

Lemma Forall_update_where (P Q : R → Prop) p f t :
  Forall P t → (∀ r, P r → p r = true → Q (f r)) → (∀ r, P r → p r = false → Q r) →
  Forall Q (update_where p f t).
Proof.
  intros H Ht Hf. unfold update_where. apply Forall_map. eapply Forall_impl; [exact H|].
  intros r Hr. cbn. destruct (p r) eqn:E; auto.
Qed.
End Table.

(** ** Shared automation *)

(** Break the [match]es of the goal or the context on their scrutinee. *)
Ltac destruct_match :=
  match goal with
  | |- context [match ?x with _ => _ end] =>
      lazymatch x with context [match _ with _ => _ end] => fail | _ => destruct x eqn:? end
  end.
Ltac destruct_match_in H :=
  match type of H with
  | context [match ?x with _ => _ end] =>
      lazymatch x with context [match _ with _ => _ end] => fail | _ => destruct x eqn:? end
  end.
(** Follow a hypothesis that says a computation returned a value. *)
Ltac run_to H := repeat (destruct_match_in H; simplify_eq/=; try done).

(** Boolean equality tests of the models are [bool_decide]s. *)
Notation "x == y" := (bool_decide (x = y)) (at level 70, no associativity) : buildmax_scope.
Notation "x != y" := (negb (bool_decide (x = y))) (at level 70, no associativity) : buildmax_scope.

(** ** Optional values and times

    A Go [*T] is an [option]; a [time.Time] is the number of nanoseconds since
    the epoch and a [time.Duration] a number of nanoseconds, both as [Z]. *)

Definition second : Z := 1000000000.
Definition minute : Z := 60 * second.

(** [earliest] of internal/service/workflow: the earlier of two optional times. *)
Definition earliest (a b : option Z) : option Z :=
  match a, b with
  | None, _ => b
  | _, None => a
  | Some x, Some y => if (x <? y)%Z then a else b
  end.
