(* ===== verification/EffLogic.v ===== *)
(** * EffLogic: rules for reasoning about effectful programs

    [triple]s give a program a precondition, a postcondition per result and one
    for the errors; [returns] says what it can return and [always] that it
    returns.  The last part is about programs that perform events. *)

From S2P Require Import Prelude.
Local Open Scope buildmax_scope.

(** ** Triples *)

Section Triples.
Context {E S : Type}.

Definition triple {A} (P : S → Prop) (m : Eff E S A) (Q : A → S → Prop) (X : E → S → Prop) : Prop :=
  ∀ s, P s → match m s with (Ok a, s') => Q a s' | (Err e, s') => X e s' end.

Lemma triple_bind {A B} P (m : Eff E S A) R (f : A → Eff E S B) Q X :
  triple P m R X → (∀ a, triple (R a) (f a) Q X) → triple P (m ≫= f) Q X.
Proof.
  intros Hm Hf s Hs. specialize (Hm s Hs). unfold mbind, eff_bind.
  destruct (m s) as [[a|e] s']; [by apply Hf|done].
Qed.

Lemma triple_ret {A} P (a : A) (Q : A → S → Prop) X : (∀ s, P s → Q a s) → triple P (mret a) Q X.
Proof. intros H s Hs. apply H, Hs. Qed.

Lemma triple_fail {A} P (e : E) (Q : A → S → Prop) (X : E → S → Prop) :
  (∀ s, P s → X e s) → triple P (fail e) Q X.
Proof. intros H s Hs. apply H, Hs. Qed.

Lemma triple_conseq {A} (P P' : S → Prop) (m : Eff E S A) (Q Q' : A → S → Prop) (X X' : E → S → Prop) :
  triple P' m Q' X' → (∀ s, P s → P' s) → (∀ a s, Q' a s → Q a s) → (∀ e s, X' e s → X e s) →
  triple P m Q X.
Proof.
  intros Hm HP HQ HX s Hs. specialize (Hm s (HP s Hs)). destruct (m s) as [[a|e] s']; auto.
Qed.

Lemma triple_pre {A} (P P' : S → Prop) (m : Eff E S A) Q X :
  triple P' m Q X → (∀ s, P s → P' s) → triple P m Q X.
Proof. intros Hm HP. eapply triple_conseq; eauto. Qed.

Lemma triple_post {A} P (m : Eff E S A) (Q Q' : A → S → Prop) X :
  triple P m Q' X → (∀ a s, Q' a s → Q a s) → triple P m Q X.
Proof. intros Hm HQ. eapply triple_conseq; eauto. Qed.

(** A program that does not fail, or fails in one way, meets any weaker error
    postcondition. *)
Lemma triple_err {A} P (m : Eff E S A) Q (X X' : E → S → Prop) :
  triple P m Q X' → (∀ e s, X' e s → X e s) → triple P m Q X.
Proof. intros Hm HX. eapply triple_conseq; eauto. Qed.

Lemma triple_safe {A} P (m : Eff E S A) Q (X : E → S → Prop) :
  triple P m Q (λ _ _, False) → triple P m Q X.
Proof. intros Hm. by eapply triple_err. Qed.

Lemma triple_gets {A} P (f : S → A) (Q : A → S → Prop) X :
  (∀ s, P s → Q (f s) s) → triple P (gets f) Q X.
Proof. intros H s Hs. apply H, Hs. Qed.

Lemma triple_and {A} P P' (m : Eff E S A) Q Q' (X X' : E → S → Prop) :
  triple P m Q X → triple P' m Q' X' →
  triple (λ s, P s ∧ P' s) m (λ a s, Q a s ∧ Q' a s) (λ e s, X e s ∧ X' e s).
Proof. intros H H' s [Hs Hs']. specialize (H s Hs). specialize (H' s Hs'). by destruct (m s) as [[a|e] s']. Qed.

(** What the precondition says apart from the state. *)
Lemma triple_pure {A} (φ : Prop) P (m : Eff E S A) Q X :
  (φ → triple P m Q X) → triple (λ s, φ ∧ P s) m Q X.
Proof. intros H s [Hφ Hs]. exact (H Hφ s Hs). Qed.

Lemma triple_exists {A B} (P : B → S → Prop) (m : Eff E S A) Q X :
  (∀ b, triple (P b) m Q X) → triple (λ s, ∃ b, P b s) m Q X.
Proof. intros H s [b Hb]. exact (H b s Hb). Qed.

(** A program whose steps are in [R] keeps what [R] keeps, on every result. *)
Lemma triple_steps {A} (R : relation S) (m : Eff E S A) P (Q : S → Prop) :
  steps R m → (∀ s s', P s → R s s' → Q s') → triple P m (λ _, Q) (λ _, Q).
Proof.
  intros Hm H s Hs. specialize (Hm s). destruct (m s) as [[a|e] s']; cbn in Hm; by eapply H.
Qed.

Lemma triple_mapM {A B} (f : A → Eff E S B) (I : list B → S → Prop) X l :
  (∀ done a, a ∈ l → triple (I done) (f a) (λ b, I (done ++ [b])) X) →
  triple (I []) (mapM f l) I X.
Proof.
  enough (∀ done, (∀ done a, a ∈ l → triple (I done) (f a) (λ b, I (done ++ [b])) X) →
    triple (I done) (mapM f l) (λ bs, I (done ++ bs)) X) as H by apply (H []).
  induction l as [|a l IH]; intros done Hf; cbn.
  - apply triple_ret. by rewrite app_nil_r.
  - eapply triple_bind; [apply Hf; by left|]. intros b. cbn.
    eapply triple_bind; [apply IH; intros; apply Hf; by right|]. intros bs.
    apply triple_ret. intros s. by rewrite <- app_assoc.
Qed.

Lemma steps_mapM {A B} (R : relation S) `{!PreOrder R} (f : A → Eff E S B) l :
  (∀ a, steps R (f a)) → steps R (mapM f l).
Proof.
  intros Hf. induction l as [|a l IH]; cbn; [apply steps_ret, _|].
  apply steps_bind; [done|apply Hf|]. intros b. apply steps_bind; [done|done|]. intros bs. apply steps_ret, _.
Qed.

Lemma steps_or_fail {A} (R : relation S) `{!PreOrder R} (e : E) (o : option A) : steps R (or_fail e o).
Proof. destruct o; [apply steps_ret, _|apply steps_fail, _]. Qed.
End Triples.

#[export] Hint Resolve steps_or_fail : bm_pres.

(** ** What a program can return *)

Section Returns.
Context {E S : Type}.

Definition returns {A} (m : Eff E S A) (P : A → Prop) : Prop := ∀ s a s', m s = (Ok a, s') → P a.

Lemma returns_bind {A B} (m : Eff E S A) (f : A → Eff E S B) P :
  (∀ a, returns (f a) P) → returns (m ≫= f) P.
Proof. intros Hf s b s' H. apply eff_bind_ok in H as (a & s1 & _ & H). by eapply Hf. Qed.

Lemma returns_bind_of {A B} (m : Eff E S A) (f : A → Eff E S B) (Q : A → Prop) P :
  returns m Q → (∀ a, Q a → returns (f a) P) → returns (m ≫= f) P.
Proof.
  intros Hm Hf s b s' H. apply eff_bind_ok in H as (a & s1 & Ha & H). eapply Hf; [by eapply Hm|done].
Qed.

Lemma returns_ret {A} (a : A) (P : A → Prop) : P a → returns (mret a : Eff E S A) P.
Proof. intros Ha s b s' [= <- _]. done. Qed.

Lemma returns_fail {A} (e : E) (P : A → Prop) : returns (fail e : Eff E S A) P.
Proof. by intros s a s' [=]. Qed.

Lemma returns_weaken {A} (m : Eff E S A) (P Q : A → Prop) : returns m P → (∀ a, P a → Q a) → returns m Q.
Proof. intros Hm H s a s' E'. eapply H, Hm, E'. Qed.

Lemma returns_mapM {A B} (R : A → B → Prop) (f : A → Eff E S B) l :
  (∀ a, a ∈ l → returns (f a) (R a)) → returns (mapM f l) (Forall2 R l).
Proof.
  induction l as [|a l IH]; intros Hf; cbn; [by apply returns_ret|].
  eapply returns_bind_of; [apply Hf; by left|]. intros b Hb.
  eapply returns_bind_of; [apply IH; intros; apply Hf; by right|]. intros bs Hbs.
  apply returns_ret. by constructor.
Qed.

(** A program that returns in every state. *)
Definition always {A} (m : Eff E S A) : Prop := ∀ s, is_ok (m s).1 = true.

Lemma always_bind {A B} (m : Eff E S A) (f : A → Eff E S B) :
  always m → (∀ a, always (f a)) → always (m ≫= f).
Proof.
  intros Hm Hf s. specialize (Hm s). unfold mbind, eff_bind.
  destruct (m s) as [[a|e] s']; [apply Hf|done].
Qed.

Lemma always_bind_of {A B} (m : Eff E S A) (f : A → Eff E S B) (Q : A → Prop) :
  always m → returns m Q → (∀ a, Q a → always (f a)) → always (m ≫= f).
Proof.
  intros Hm Hr Hf s. specialize (Hm s). unfold mbind, eff_bind.
  destruct (m s) as [[a|e] s'] eqn:Em; [|done]. apply Hf. by eapply Hr.
Qed.

Lemma always_ret {A} (a : A) : always (mret a : Eff E S A).
Proof. done. Qed.

Lemma always_gets {A} (f : S → A) : always (gets f : Eff E S A).
Proof. done. Qed.

Lemma always_mapM {A B} (f : A → Eff E S B) l : (∀ a, a ∈ l → always (f a)) → always (mapM f l).
Proof.
  induction l as [|a l IH]; intros Hf; cbn; [done|].
  apply always_bind; [apply Hf; by left|]. intros b. apply always_bind; [|done].
  apply IH. intros. apply Hf. by right.
Qed.

Lemma steps_returns_bind {A B} (R : relation S) `{!PreOrder R} (m : Eff E S A) (f : A → Eff E S B) (P : A → Prop) :
  steps R m → returns m P → (∀ a, P a → steps R (f a)) → steps R (m ≫= f).
Proof. intros Hm Hr Hf. apply steps_bind_ok; [done..|]. intros s a s' E'. eapply Hf, Hr, E'. Qed.
Lemma triple_returns_bind {A B} P (m : Eff E S A) R (φ : A → Prop) (f : A → Eff E S B) Q X :
  triple P m R X → returns m φ → (∀ a, φ a → triple (R a) (f a) Q X) → triple P (m ≫= f) Q X.
Proof.
  intros Hm Hr Hf s Hs. specialize (Hm s Hs). unfold mbind, eff_bind.
  destruct (m s) as [[a|e] s'] eqn:Em; [|done]. by apply Hf; [eapply Hr|].
Qed.
End Returns.

(** * Programs that perform events

    A history relates two states by the events that took one to the other.
    [logs] says that a program's run is a history that contains at least the
    events its result stands for, whatever else happened in between. *)

Local Open Scope buildmax_scope.

Class EventHistory {S Ev : Type} (H : S → list Ev → S → Prop) : Prop := {
  events_nil s : H s [] s;
  events_app s1 l1 s2 l2 s3 : H s1 l1 s2 → H s2 l2 s3 → H s1 (l1 ++ l2) s3
}.

Section Events.
Context {E S Ev : Type} (H : S → list Ev → S → Prop) `{!EventHistory H}.
(** What holds at the start of every program, and no history ends. *)
Context (P : S → Prop) (closed : ∀ s l s', H s l s' → P s → P s').

Definition reaches : relation S := λ s s', ∃ l, H s l s'.

#[export] Instance reaches_preorder : PreOrder reaches.
Proof.
  split; [intros s; exists []; apply events_nil|]. intros s1 s2 s3 [l1 H1] [l2 H2].
  exists (l1 ++ l2). by eapply events_app.
Qed.

Definition logs {A} (m : Eff E S A) (own : A → list Ev) : Prop := ∀ s, P s →
  ∃ l, H s l (m s).2 ∧ match (m s).1 with Ok a => own a `sublist_of` l | Err _ => True end.

Lemma logs_steps {A} (m : Eff E S A) : steps reaches m → logs m (λ _, []).
Proof.
  intros Hm s _. destruct (Hm s) as [l Hl]. exists l. split; [done|].
  destruct (m s).1; [apply sublist_nil_l|done].
Qed.

Lemma logs_ret {A} (a : A) (own : A → list Ev) : own a = [] → logs (mret a) own.
Proof. intros Ha s _. exists []. cbn. rewrite Ha. split; [apply events_nil|done]. Qed.

Lemma logs_bind {A B} (m : Eff E S A) (f : A → Eff E S B) own1 own2 :
  logs m own1 → (∀ a, logs (f a) (own2 a)) → ∀ own,
  (∀ a b, own b `sublist_of` own1 a ++ own2 a b) → logs (m ≫= f) own.
Proof using closed EventHistory0.
  intros Hm Hf own Hown s Hs. destruct (Hm s Hs) as (l1 & H1 & O1). unfold mbind, eff_bind.
  destruct (m s) as [[a|e] s1]; cbn in *; [|by exists l1].
  destruct (Hf a s1 (closed _ _ _ H1 Hs)) as (l2 & H2 & O2). exists (l1 ++ l2). split; [by eapply events_app|].
  destruct (f a s1) as [[b|e] s2]; cbn in *; [|done].
  etransitivity; [apply Hown|]. by apply sublist_app.
Qed.

Lemma logs_after {A B} (m : Eff E S A) (f : A → Eff E S B) own :
  steps reaches m → (∀ a, logs (f a) own) → logs (m ≫= f) own.
Proof using closed EventHistory0. intros Hm Hf. eapply logs_bind; [by apply logs_steps|exact Hf|]. done. Qed.

(** Events first, then a program that is a history whatever it returns. *)
Lemma logs_then {A B} (m : Eff E S A) (f : A → Eff E S B) own1 own :
  logs m own1 → (∀ a, steps reaches (f a)) → (∀ a s b s', f a s = (Ok b, s') → own b `sublist_of` own1 a) →
  logs (m ≫= f) own.
Proof using EventHistory0.
  intros Hm Hf Hown s Hs. destruct (Hm s Hs) as (l1 & H1 & O1). unfold mbind, eff_bind.
  destruct (m s) as [[a|e] s1]; cbn in *; [|by exists l1].
  destruct (Hf a s1) as [l2 H2]. exists (l1 ++ l2). split; [by eapply events_app|].
  destruct (f a s1) as [[b|e] s2] eqn:Ef; [|done]. cbn.
  etransitivity; [by eapply Hown|]. by apply sublist_inserts_r.
Qed.

Lemma logs_mapM {A B} (f : A → Eff E S B) (own : B → list Ev) l :
  (∀ a, a ∈ l → logs (f a) own) → logs (mapM f l) (λ bs, concat (map own bs)).
Proof using closed EventHistory0.
  induction l as [|a l IH]; intros Hf; [by apply logs_ret|].
  change (mapM f (a :: l)) with (b ← f a; bs ← mapM f l; mret (b :: bs)).
  intros s Hs. destruct (Hf a (list_elem_of_here _ _) s Hs) as (l1 & H1 & O1). unfold mbind, eff_bind.
  destruct (f a s) as [[b|e] s1]; cbn in *; [|by exists l1].
  destruct (IH (λ a Ha, Hf a (list_elem_of_further _ _ _ Ha)) s1 (closed _ _ _ H1 Hs)) as (l2 & H2 & O2).
  exists (l1 ++ l2). destruct (mapM f l s1) as [[bs|e] s2]; cbn in *; (split; [by eapply events_app|]); [|done].
  by apply sublist_app.
Qed.

Lemma logs_ok {A} (m : Eff E S A) own s a s' : logs m own → P s → m s = (Ok a, s') →
  ∃ l, H s l s' ∧ own a `sublist_of` l.
Proof. intros Hm Hs E'. destruct (Hm s Hs) as (l & Hl & Ho). rewrite E' in *. by exists l. Qed.
End Events.
