(* ===== verification/Text.v ===== *)
(** * Text: the strings functions of Go the models call

    A Go string is its bytes, one [ascii] each.  [TrimSpace] drops the UTF-8
    encodings of the Unicode white space characters from both ends. *)

From S2P Require Import Prelude.
From Stdlib Require Import Ascii String.

Definition byte (c : ascii) : N := N_of_ascii c.

Definition between (lo hi : N) (c : ascii) : bool := ((lo <=? byte c) && (byte c <=? hi))%N%bool.
Definition is_byte (n : N) (c : ascii) : bool := (byte c =? n)%N.

(** U+0009 to U+000D and the space. *)
Definition space1 (a : ascii) : bool := between 9 13 a || is_byte 32 a.
(** U+0085 and U+00A0. *)
Definition space2 (a b : ascii) : bool := is_byte 194 a && (is_byte 133 b || is_byte 160 b).
(** U+1680, U+2000 to U+200A, U+2028, U+2029, U+202F, U+205F and U+3000. *)
Definition space3 (a b c : ascii) : bool :=
  (is_byte 225 a && is_byte 154 b && is_byte 128 c)
  || (is_byte 226 a && is_byte 128 b
      && (between 128 138 c || is_byte 168 c || is_byte 169 c || is_byte 175 c))
  || (is_byte 226 a && is_byte 129 b && is_byte 159 c)
  || (is_byte 227 a && is_byte 128 b && is_byte 128 c).

Section Strip.
Context (p1 : ascii → bool) (p2 : ascii → ascii → bool) (p3 : ascii → ascii → ascii → bool).

Fixpoint strip (s : list ascii) : list ascii :=
  match s with
  | [] => []
  | a :: s1 =>
      if p1 a then strip s1
      else match s1 with
           | [] => s
           | b :: s2 =>
               if p2 a b then strip s2
               else match s2 with
                    | [] => s
                    | c :: s3 => if p3 a b c then strip s3 else s
                    end
           end
  end.

Definition blank_prefix (s : list ascii) : bool :=
  match s with
  | a :: s1 =>
      p1 a || match s1 with
              | b :: s2 => p2 a b || match s2 with c :: _ => p3 a b c | [] => false end
              | [] => false
              end
  | [] => false
  end.

Lemma strip_fixed s : blank_prefix s = false → strip s = s.
Proof.
  destruct s as [|a [|b [|c s]]]; cbn; try done.
  - by destruct (p1 a).
  - destruct (p1 a), (p2 a b); done.
  - destruct (p1 a), (p2 a b), (p3 a b c); done.
Qed.

Lemma strip_spec s : blank_prefix (strip s) = false ∧ ∃ l, s = l ++ strip s.
Proof.
  induction s as [s IH] using (induction_ltof1 _ (@List.length ascii)); unfold ltof in IH.
  destruct (blank_prefix s) eqn:E; [|rewrite strip_fixed by done; split; [done|by exists []]].
  destruct s as [|a s1]; [done|]. cbn in E |- *.
  destruct (p1 a).
  { destruct (IH s1) as [H [l Hl]]; [cbn; lia|]. split; [done|]. exists (a :: l). cbn. by rewrite <- Hl. }
  cbn in E. destruct s1 as [|b s2]; [done|]. destruct (p2 a b).
  { destruct (IH s2) as [H [l Hl]]; [cbn; lia|]. split; [done|]. exists (a :: b :: l). cbn. by rewrite <- Hl. }
  cbn in E. destruct s2 as [|c s3]; [done|]. rewrite E.
  destruct (IH s3) as [H [l Hl]]; [cbn; lia|]. split; [done|]. exists (a :: b :: c :: l). cbn. by rewrite <- Hl.
Qed.

Lemma blank_prefix_app s t : blank_prefix (s ++ t) = false → blank_prefix s = false.
Proof.
  destruct s as [|a [|b [|c s]]]; cbn; try done;
    repeat rewrite orb_false_iff; tauto.
Qed.
End Strip.

Definition trim_left : list ascii → list ascii := strip space1 space2 space3.
Definition trim_right (s : list ascii) : list ascii :=
  reverse (strip space1 (λ b a, space2 a b) (λ c b a, space3 a b c) (reverse s)).

(** [strings.TrimSpace] *)
Definition TrimSpace (s : string) : string :=
  string_of_list_ascii (trim_right (trim_left (list_ascii_of_string s))).

(** ** Runes

    [runes s] cuts a string where a [range] over it does: each valid UTF-8
    sequence is one rune, and each byte that starts none is the replacement
    rune.  What is returned is the encoding a conversion to [[]rune] and back
    gives. *)

Definition replacement : list ascii := list_ascii_of_string "�".

Definition continuation (c : ascii) : bool := between 128 191 c.

(** The bytes of the rune a list starts with and what follows. *)
Definition next_rune (s : list ascii) : list ascii * list ascii :=
  match s with
  | [] => ([], [])
  | a :: s1 =>
      let invalid := (replacement, s1) in
      if between 0 127 a then ([a], s1)
      else match s1 with
      | b :: s2 =>
          if between 194 223 a && continuation b then ([a; b], s2)
          else match s2 with
          | c :: s3 =>
              let second := if is_byte 224 a then between 160 191 b
                            else if is_byte 237 a then between 128 159 b
                            else between 225 239 a && continuation b in
              if second && continuation c then ([a; b; c], s3)
              else match s3 with
              | d :: s4 =>
                  let second := if is_byte 240 a then between 144 191 b
                                else if is_byte 244 a then between 128 143 b
                                else between 241 243 a && continuation b in
                  if second && continuation c && continuation d then ([a; b; c; d], s4)
                  else invalid
              | [] => invalid
              end
          | [] => invalid
          end
      | [] => invalid
      end
  end.

(** Each rune takes at least one byte, so the length is fuel enough. *)
Fixpoint runes_fuel (n : nat) (s : list ascii) : list (list ascii) :=
  match n, s with
  | O, _ | _, [] => []
  | S n, _ => (next_rune s).1 :: runes_fuel n (next_rune s).2
  end.

Definition runes (s : string) : list (list ascii) :=
  let l := list_ascii_of_string s in runes_fuel (List.length l) l.

(** [utf8.RuneCountInString] *)
Definition RuneCountInString (s : string) : Z := Z.of_nat (List.length (runes s)).

(** internal/util/helpers.go *)
Module util.

Definition ExceedsByteLimit (s : string) (maxBytes : Z) : bool := (maxBytes <? Z.of_nat (String.length s))%Z.

Definition ExceedsRuneLimit (s : string) (maxRunes : Z) : bool := (maxRunes <? RuneCountInString s)%Z.

Definition TruncateRunes (s : string) (maxRunes : Z) : string :=
  if (maxRunes <=? 0)%Z then ""
  else if (RuneCountInString s <=? maxRunes)%Z then s
  else (string_of_list_ascii (List.concat (firstn (Z.to_nat maxRunes) (runes s))) ++ "…")%string.

Definition ClipRunes (s : string) (maxRunes : Z) : string :=
  if (maxRunes <=? 0)%Z then ""
  else if (RuneCountInString s <=? maxRunes)%Z then s
  else string_of_list_ascii (List.concat (firstn (Z.to_nat maxRunes) (runes s))).

End util.

(** ** Concatenation *)

Lemma append_assoc (a b c : string) : String.append (String.append a b) c = String.append a (String.append b c).
Proof. induction a as [|x a IH]; [done|]. exact (f_equal (String x) IH). Qed.

Lemma append_nil_r (a : string) : String.append a "" = a.
Proof. induction a as [|x a IH]; [done|]. exact (f_equal (String x) IH). Qed.

Lemma trim_right_prefix s : ∃ t, s = trim_right s ++ t.
Proof.
  unfold trim_right. destruct (strip_spec space1 (λ b a, space2 a b) (λ c b a, space3 a b c) (reverse s))
    as [_ [l Hl]].
  exists (reverse l). rewrite <- reverse_app, <- Hl. by rewrite reverse_involutive.
Qed.

Lemma TrimSpace_idemp s : TrimSpace (TrimSpace s) = TrimSpace s.
Proof.
  unfold TrimSpace. rewrite list_ascii_of_string_of_list_ascii. f_equal.
  set (l := trim_left (list_ascii_of_string s)).
  assert (trim_left (trim_right l) = trim_right l) as ->.
  { apply strip_fixed. destruct (trim_right_prefix l) as [t Ht].
    apply (blank_prefix_app _ _ _ _ t). rewrite <- Ht. apply strip_spec. }
  unfold trim_right. rewrite reverse_involutive. f_equal. apply strip_fixed, strip_spec.
Qed.

Example TrimSpace_ends : TrimSpace " a b  "%string = "a b"%string.
Proof. reflexivity. Qed.

Example TruncateRunes_cuts : util.TruncateRunes "añ日本" 3 = "añ日…"%string.
Proof. reflexivity. Qed.
