(* ===== verification/Json.v ===== *)
(** * Json: JSON values and the RFC 6901 pointers of a binding

    JSON values as encoding/json decodes them, the strings functions the
    pointer code uses, and internal/core/workflow/pointer.go. *)

From S2P Require Import Prelude.
From Stdlib Require Import Ascii String.
Local Open Scope string_scope.
#[local] Arguments String.append : simpl nomatch.

(** ** JSON values

    A number keeps its literal.  An object keeps its members in document
    order, duplicates included. *)

Inductive json : Type :=
| JNull
| JBool (b : bool)
| JNum (lit : string)
| JStr (s : string)
| JArr (l : list json)
| JObj (m : list (string * json)).

Fixpoint json_rect' (P : json → Type)
    (Hnull : P JNull) (Hbool : ∀ b, P (JBool b)) (Hnum : ∀ n, P (JNum n)) (Hstr : ∀ s, P (JStr s))
    (Harr : ∀ l, (∀ i x, l !! i = Some x → P x) → P (JArr l))
    (Hobj : ∀ m, (∀ i x, m !! i = Some x → P x.2) → P (JObj m)) (j : json) : P j.
Proof.
  destruct j as [|b|n|s|l|m]; [exact Hnull|apply Hbool|apply Hnum|apply Hstr| |].
  - apply Harr. revert l. fix go 1. intros [|y l] i x Hx; [discriminate Hx|].
    destruct i as [|i].
    + injection Hx as <-. apply (json_rect' P Hnull Hbool Hnum Hstr Harr Hobj).
    + exact (go l i x Hx).
  - apply Hobj. revert m. fix go 1. intros [|y m] i x Hx; [discriminate Hx|].
    destruct i as [|i].
    + injection Hx as <-. apply (json_rect' P Hnull Hbool Hnum Hstr Harr Hobj).
    + exact (go m i x Hx).
Defined.

#[export] Instance json_eq_dec : EqDecision json.
Proof.
  intros x. induction x as [|b|n|s|l IH|m IH] using json_rect'; intros [|b'|n'|s'|l'|m'];
    try (right; discriminate).
  - by left.
  - destruct (decide (b = b')); [left|right]; congruence.
  - destruct (decide (n = n')); [left|right]; congruence.
  - destruct (decide (s = s')); [left|right]; congruence.
  - enough ({l = l'} + {l ≠ l'}) as [->| ?] by (first [by left|right; congruence]).
    revert l'. induction l as [|y l IHl]; intros [|y' l']; try (by left); try (right; discriminate).
    destruct (IH 0 y eq_refl y') as [->|]; [|right; congruence].
    destruct (IHl (λ i x Hi, IH (S i) x Hi) l') as [->|]; [by left|right; congruence].
  - enough ({m = m'} + {m ≠ m'}) as [->| ?] by (first [by left|right; congruence]).
    revert m'. induction m as [|[k y] m IHm]; intros [|[k' y'] m'];
      try (by left); try (right; discriminate).
    destruct (decide (k = k')) as [->|]; [|right; congruence].
    destruct (IH 0 (k', y) eq_refl y') as [Heq|]; cbn in *; [subst|right; congruence].
    destruct (IHm (λ i x Hi, IH (S i) x Hi) m') as [->|]; [by left|right; congruence].
Defined.

(** ** The strings and strconv functions the code calls *)

(** [strings.Split] by a one-byte separator: never empty. *)
Fixpoint Split (sep : ascii) (s : string) : list string :=
  match s with
  | EmptyString => [""]
  | String c s' =>
      if c == sep then "" :: Split sep s'
      else match Split sep s' with
           | t :: ts => String c t :: ts
           | [] => [String c ""]
           end
  end.

(** [strings.ReplaceAll s (a b) r] for a two-byte pattern and a one-byte
    replacement: left to right, without overlaps. *)
Fixpoint ReplacePair (a b r : ascii) (s : string) : string :=
  match s with
  | EmptyString => ""
  | String c s' =>
      match s' with
      | String d s'' =>
          if (c == a) && (d == b) then String r (ReplacePair a b r s'')
          else String c (ReplacePair a b r s')
      | EmptyString => String c ""
      end
  end.

Definition tilde : ascii := "~"%char.
Definition slash : ascii := "/"%char.

Definition digit_value (c : ascii) : option Z :=
  let n := Z.of_N (N_of_ascii c) in
  if ((48 <=? n) && (n <=? 57))%Z%bool then Some (n - 48)%Z else None.

Fixpoint digits_value (acc : Z) (s : string) : option Z :=
  match s with
  | EmptyString => Some acc
  | String c s' =>
      match digit_value c with
      | Some d => digits_value (acc * 10 + d)%Z s'
      | None => None
      end
  end.

Definition unsigned_value (s : string) : option Z :=
  match s with EmptyString => None | _ => digits_value 0 s end.

Definition max_int : Z := 9223372036854775807.
Definition min_int : Z := -9223372036854775808.

(** [strconv.Atoi]: an optional sign, at least one digit, and a range error
    outside a 64-bit int. *)
Definition Atoi (s : string) : option Z :=
  let value :=
    match s with
    | String c s' =>
        if c == "-"%char then Z.opp <$> unsigned_value s'
        else if c == "+"%char then unsigned_value s'
        else unsigned_value s
    | EmptyString => None
    end in
  match value with
  | Some v => if ((min_int <=? v) && (v <=? max_int))%Z%bool then Some v else None
  | None => None
  end.

(** ** Decoding into [any]

    [json.Unmarshal] into an [any] keeps an object's last member of a name in a
    map, which [json.Marshal] writes back in byte order of the names; a number
    goes through [float64].  [num64 lit] is the literal of the number [lit]
    after that rounding. *)

Definition lookup_last (k : string) (m : list (string * json)) : option json :=
  snd <$> take_where (λ kv, kv.1 == k) (rev m).

Fixpoint insert_member (kv : string * json) (m : list (string * json)) : list (string * json) :=
  match m with
  | [] => [kv]
  | kv' :: m' =>
      match String.compare kv.1 kv'.1 with
      | Lt => kv :: m
      | Eq => kv :: m'
      | Gt => kv' :: insert_member kv m'
      end
  end.

Section Decode.
Context (num64 : string → string).

Fixpoint decode_any (j : json) : json :=
  match j with
  | JNull => JNull
  | JBool b => JBool b
  | JNum lit => JNum (num64 lit)
  | JStr s => JStr s
  | JArr l => JArr (map decode_any l)
  | JObj m =>
      JObj (fold_left (λ acc kv, insert_member kv acc)
             (map (λ kv, (kv.1, decode_any kv.2)) m) [])
  end.
End Decode.

(** ** internal/core/workflow/pointer.go *)

Module pointer.

Inductive error : Type := ErrInvalidPointer | ErrPointerMiss.

#[export] Instance error_eq_dec : EqDecision error.
Proof. solve_decision. Defined.

(** [validateToken]: ["~"] only as ["~0"] or ["~1"]. *)
Fixpoint validateToken (tok : string) : bool :=
  match tok with
  | EmptyString => true
  | String c rest =>
      if c == tilde then
        match rest with
        | String d rest' => ((d == "0"%char) || (d == "1"%char)) && validateToken rest'
        | EmptyString => false
        end
      else validateToken rest
  end.

Definition ValidatePointer (pointer : string) : res error unit :=
  match pointer with
  | EmptyString => Ok tt
  | String c rest =>
      if c != slash then Err ErrInvalidPointer
      else if forallb validateToken (Split slash rest) then Ok tt
      else Err ErrInvalidPointer
  end.

Definition unescapeToken (tok : string) : string :=
  ReplacePair tilde "0"%char tilde (ReplacePair tilde "1"%char slash tok).

(** [step]: one reference token into an object or array. *)
Definition step (current : json) (ref : string) : res error json :=
  match current with
  | JObj node =>
      match lookup_last ref node with
      | Some v => Ok v
      | None => Err ErrPointerMiss
      end
  | JArr node =>
      match Atoi ref with
      | Some idx =>
          if ((idx <? 0) || (Z.of_nat (List.length node) <=? idx))%Z%bool then Err ErrPointerMiss
          else match node !! Z.to_nat idx with
               | Some v => Ok v
               | None => Err ErrPointerMiss
               end
      | None => Err ErrPointerMiss
      end
  | _ => Err ErrPointerMiss
  end.

Fixpoint walk (current : json) (toks : list string) : res error json :=
  match toks with
  | [] => Ok current
  | tok :: toks' => next ← step current (unescapeToken tok); walk next toks'
  end.

Definition ResolvePointer (num64 : string → string) (doc : json) (pointer : string) : res error json :=
  _ ← ValidatePointer pointer;
  match pointer with
  | EmptyString => Ok doc
  | String _ rest => walk (decode_any num64 doc) (Split slash rest)
  end.

End pointer.

(** ** The pointer grammar: the specification

    RFC 6901 writes a path of member names as ["/"]-prefixed tokens with ["~"]
    escaped as ["~0"] and ["/"] as ["~1"]. *)

Fixpoint escapeToken (k : string) : string :=
  match k with
  | EmptyString => ""
  | String c k' =>
      if c == tilde then String tilde (String "0"%char (escapeToken k'))
      else if c == slash then String tilde (String "1"%char (escapeToken k'))
      else String c (escapeToken k')
  end.

Fixpoint pointer_of (path : list string) : string :=
  match path with
  | [] => ""
  | k :: path' => String slash (escapeToken k ++ pointer_of path')
  end.

(** What a path selects, one member at a time. *)
Fixpoint select_path (j : json) (path : list string) : res pointer.error json :=
  match path with
  | [] => Ok j
  | k :: path' => next ← pointer.step j k; select_path next path'
  end.

Fixpoint occurs (c : ascii) (s : string) : bool :=
  match s with EmptyString => false | String d s' => (d == c) || occurs c s' end.

Lemma bool_decide_refl {A} `{EqDecision A} (x : A) : (x == x) = true.
Proof. by apply bool_decide_eq_true. Qed.

Ltac char_cases :=
  repeat match goal with
  | H : context [bool_decide (?x = ?y)] |- _ => destruct (bool_decide_reflect (x = y)); simplify_eq/=
  | |- context [bool_decide (?x = ?y)] => destruct (bool_decide_reflect (x = y)); simplify_eq/=
  end.

Lemma escape_no_slash k : occurs slash (escapeToken k) = false.
Proof. induction k as [|c k IH]; cbn; [done|]. by char_cases. Qed.

Lemma escape_valid k : pointer.validateToken (escapeToken k) = true.
Proof. induction k as [|c k IH]; cbn; [done|]. by char_cases. Qed.

(** The first pass leaves ["~0"] alone and the second restores ["~"]. *)
Lemma unescape_escape k : pointer.unescapeToken (escapeToken k) = k.
Proof.
  unfold pointer.unescapeToken.
  (* what the first pass leaves: every ["~"] of the name still escaped *)
  set (half := fix half (k : string) := match k with
    | EmptyString => ""
    | String c k' => if c == tilde then String tilde (String "0"%char (half k')) else String c (half k')
    end).
  assert (∀ k, ReplacePair tilde "1"%char slash (escapeToken k) = half k) as Hfirst.
  { clear k. induction k as [|c k IH]; [done|]. cbn [escapeToken half].
    destruct (bool_decide_reflect (c = tilde)) as [->|Hc].
    - cbn. rewrite <- IH. by destruct (escapeToken k).
    - destruct (bool_decide_reflect (c = slash)) as [->|Hs]; cbn; rewrite <- IH; [done|].
      destruct (escapeToken k); [done|]. by rewrite bool_decide_eq_false_2 by done. }
  rewrite Hfirst. clear Hfirst. induction k as [|c k IH]; [done|]. cbn [half].
  destruct (bool_decide_reflect (c = tilde)) as [->|Hc]; cbn; [by rewrite IH|].
  rewrite <- IH at 2. destruct (half k); [done|]. by rewrite bool_decide_eq_false_2 by done.
Qed.

Lemma Split_no_sep sep s : occurs sep s = false → Split sep s = [s].
Proof.
  induction s as [|c s IH]; cbn; [done|]. intros [Hc Hs]%orb_false_iff.
  rewrite Hc. by rewrite (IH Hs).
Qed.

Lemma Split_app sep s t :
  occurs sep s = false → Split sep (s ++ String sep t) = s :: Split sep t.
Proof.
  induction s as [|c s IH]; cbn; [by rewrite bool_decide_eq_true_2 by done|].
  intros [Hc Hs]%orb_false_iff. rewrite Hc. by rewrite (IH Hs).
Qed.

Lemma string_app_nil_r s : s ++ "" = s.
Proof. induction s as [|c s IH]; cbn; [done|]. by rewrite IH. Qed.

Lemma Split_pointer k path :
  Split slash (escapeToken k ++ pointer_of path) = map escapeToken (k :: path).
Proof.
  revert k. induction path as [|k' path IH]; intros k; cbn [pointer_of map].
  - rewrite string_app_nil_r. apply Split_no_sep, escape_no_slash.
  - rewrite Split_app by apply escape_no_slash. by rewrite IH.
Qed.

Lemma pointer_of_valid path : pointer.ValidatePointer (pointer_of path) = Ok tt.
Proof.
  destruct path as [|k path]; [done|]. cbn [pointer_of]. unfold pointer.ValidatePointer.
  rewrite bool_decide_refl. cbn [negb]. rewrite Split_pointer.
  by rewrite (proj2 (forallb_forall _ _))
    by (intros x (y & <- & _)%in_map_iff; apply escape_valid).
Qed.

Lemma walk_escaped j path : pointer.walk j (map escapeToken path) = select_path j path.
Proof.
  revert j. induction path as [|k path IH]; intros j; cbn; [done|].
  rewrite unescape_escape. destruct (pointer.step j k); cbn; [apply IH|done].
Qed.

(** A valid token is the escape of exactly the name it unescapes to. *)
Fixpoint unescape_spec (tok : string) : string :=
  match tok with
  | String c rest =>
      if c == tilde then
        match rest with
        | String d rest' => String (if d == "0"%char then tilde else slash) (unescape_spec rest')
        | EmptyString => ""
        end
      else String c (unescape_spec rest)
  | EmptyString => ""
  end.

Lemma string_ind2 (P : string → Prop) :
  P "" → (∀ c, P (String c "")) → (∀ c d s, P s → P (String d s) → P (String c (String d s))) →
  ∀ s, P s.
Proof.
  intros H0 H1 H2 s. enough (P s ∧ ∀ c, P (String c s)) by tauto.
  induction s as [|d s [IH1 IH2]]; split; auto.
Qed.

Lemma escape_unescape_spec tok :
  pointer.validateToken tok = true → occurs slash tok = false →
  escapeToken (unescape_spec tok) = tok.
Proof.
  induction tok as [|c|c d s IH1 IH2] using string_ind2; [done| |].
  - cbn. by char_cases.
  - intros Hv Ho. destruct (bool_decide_reflect (c = tilde)) as [->|Hc].
    + cbn in Hv, Ho. apply andb_true_iff in Hv as [Hd Hv]. apply orb_false_iff in Ho as [_ Ho].
      apply orb_true_iff in Hd as [Hd|Hd]; apply bool_decide_eq_true in Hd as ->;
        [change (String tilde (String "0"%char (escapeToken (unescape_spec s)))
                 = String tilde (String "0"%char s))
        |change (String tilde (String "1"%char (escapeToken (unescape_spec s)))
                 = String tilde (String "1"%char s))]; cbn in Hv, Ho;
        (rewrite IH1; [done|done|]); by destruct (occurs slash s).
    + cbn [pointer.validateToken] in Hv. rewrite bool_decide_eq_false_2 in Hv by done.
      change (occurs slash (String c (String d s))) with ((c == slash) || occurs slash (String d s)) in Ho.
      apply orb_false_iff in Ho as [Hs Ho].
      change (unescape_spec (String c (String d s)))
        with (if c == tilde then String (if d == "0"%char then tilde else slash) (unescape_spec s)
              else String c (unescape_spec (String d s))).
      rewrite (bool_decide_eq_false_2 (c = tilde)) by done.
      cbn [escapeToken]. rewrite (bool_decide_eq_false_2 (c = tilde)) by done. rewrite Hs.
      by rewrite IH2.
Qed.

Lemma Split_sound sep s : Forall (λ t, occurs sep t = false) (Split sep s).
Proof.
  induction s as [|c s IH]; cbn; [by constructor|].
  destruct (bool_decide_reflect (c = sep)) as [->|Hc]; [by constructor|].
  destruct (Split sep s); [constructor; [|done]|inversion IH; constructor; [|done]];
    cbn; by rewrite bool_decide_eq_false_2.
Qed.

Lemma pointer_of_cons k path s :
  pointer_of (k :: path) = String slash s ↔ escapeToken k ++ pointer_of path = s.
Proof. cbn. split; [by intros [= ->]|by intros ->]. Qed.

Lemma Split_join s :
  ∃ t ts, Split slash s = t :: ts ∧
    s = t ++ fold_right (λ x acc, String slash (x ++ acc)) "" ts.
Proof.
  induction s as [|c s (t & ts & E & IH)]; cbn; [by exists "", []|].
  destruct (bool_decide_reflect (c = slash)) as [->|Hc]; rewrite E.
  - exists "", (t :: ts). split; [done|]. cbn. by rewrite IH at 1.
  - exists (String c t), ts. split; [done|]. cbn. by rewrite IH at 1.
Qed.

Lemma pointer_of_fold path :
  pointer_of path = fold_right (λ x acc, String slash (x ++ acc)) "" (map escapeToken path).
Proof. induction path as [|k path IH]; cbn; [done|]. by rewrite IH. Qed.

(** ** Properties *)

Lemma ValidatePointer_iff (p : string) :
  pointer.ValidatePointer p = Ok tt ↔ ∃ path, p = pointer_of path.
Proof.
  split.
  - intros Hp. destruct p as [|c rest]; [by exists []|].
    unfold pointer.ValidatePointer in Hp. revert Hp.
    destruct (bool_decide_reflect (c = slash)) as [->|]; [cbn [negb]|done].
    destruct (forallb _ _) eqn:Hall; [|done]. intros _.
    exists (map unescape_spec (Split slash rest)). rewrite pointer_of_fold, map_map.
    destruct (Split_join rest) as (t & ts & E & Hrest).
    assert (map (λ x, escapeToken (unescape_spec x)) (Split slash rest) = Split slash rest) as ->.
    { rewrite <- (map_id (Split slash rest)) at 2. apply map_ext_in. intros x Hx.
      apply escape_unescape_spec.
      - by apply (proj1 (forallb_forall _ _) Hall).
      - apply list_elem_of_In in Hx. by apply (proj1 (Forall_forall _ _) (Split_sound slash rest)). }
    rewrite E. cbn. by rewrite Hrest at 1.
  - intros [path ->]. apply pointer_of_valid.
Qed.

(** [ValidatePointer] accepts exactly the RFC 6901 pointers, the strings
    that write some path of member names; everything else is [ErrInvalidPointer]. *)
Theorem ValidatePointer_exact (p : string) :
  (pointer.ValidatePointer p = Ok tt ↔ ∃ path, p = pointer_of path) ∧
  (pointer.ValidatePointer p = Ok tt ∨ pointer.ValidatePointer p = Err pointer.ErrInvalidPointer).
Proof.
  split; [apply ValidatePointer_iff|].
  unfold pointer.ValidatePointer. destruct p; [by left|]. destruct (_ != _); [by right|].
    destruct (forallb _ _); auto.
Qed.

(** Resolving the pointer that writes a path selects, in the decoded
    document, the member that path names step by step (an absent member is
    [ErrPointerMiss]); the empty pointer returns the document unchanged, and no
    other string resolves. *)
Theorem ResolvePointer_selects (num64 : string → string) (doc : json) (path : list string) :
  pointer.ResolvePointer num64 doc (pointer_of path) =
    match path with [] => Ok doc | _ => select_path (decode_any num64 doc) path end.
Proof.
  unfold pointer.ResolvePointer. rewrite pointer_of_valid. cbn [mbind res_bind].
  destruct path as [|k path]; [done|]. cbn [pointer_of].
  rewrite Split_pointer. apply walk_escaped.
Qed.
