(* ===== verification/JsonSchema.v ===== *)
(** * JsonSchema: internal/core/jsonschema

    The JSON Schema subset of structured outputs and workflow inputs: compiling
    a schema, and validating a value against the compiled schema.  Errors carry
    no more than their presence: their texts are not modelled. *)

From S2P Require Import Prelude Json.
From Stdlib Require Import Ascii String SpecFloat.
Local Open Scope string_scope.

Module jsonschema.

Definition TypeObject : string := "object".
Definition TypeArray : string := "array".
Definition TypeString : string := "string".
Definition TypeNumber : string := "number".
Definition TypeInteger : string := "integer".
Definition TypeBoolean : string := "boolean".

Inductive Schema : Type := mkSchema {
  typ : string;
  enum : option (list json);
  properties : list (string * Schema);
  required : list string;
  items : option Schema
}.

Definition allowedKeywords (key : string) : bool :=
  bool_decide (key ∈ ["type"; "description"; "enum"; "properties"; "required";
                      "additionalProperties"; "items"]).

(** ** Numbers

    [json.Number.Float64]: the decimal literal rounded to the nearest binary64,
    an error when it overflows. *)

Definition is_exponent (c : ascii) : bool := (c == "e"%char) || (c == "E"%char).

Fixpoint break (p : ascii → bool) (s : string) : string * option string :=
  match s with
  | EmptyString => (EmptyString, None)
  | String c s' =>
      if p c then (EmptyString, Some s')
      else let '(a, b) := break p s' in (String c a, b)
  end.

Definition exponent_value (s : option string) : Z :=
  match s with
  | None => 0
  | Some (String c s') =>
      if c == "-"%char then (- default 0 (digits_value 0 s'))%Z
      else if c == "+"%char then default 0%Z (digits_value 0 s')
      else default 0%Z (digits_value 0 (String c s'))
  | Some EmptyString => 0
  end.

(** The sign, digits and power of ten of a JSON number literal. *)
Definition decimal (lit : string) : bool * Z * Z :=
  let '(neg, s) := match lit with
                   | String c s' => if c == "-"%char then (true, s') else (false, lit)
                   | EmptyString => (false, lit)
                   end in
  let '(mant, ex) := break is_exponent s in
  let '(int, frac) := break (λ c, c == "."%char) mant in
  let frac := default EmptyString frac in
  (neg, default 0%Z (digits_value 0 (int ++ frac)),
   (exponent_value ex - Z.of_nat (String.length frac))%Z).

Definition Float64 (lit : string) : spec_float :=
  let '(neg, m, e) := decimal lit in
  match m with
  | Zpos p =>
      if (0 <=? e)%Z then
        binary_normalize 53 1024 ((if neg then Z.opp else id) (m * 10 ^ e)%Z) 0 neg
      else SFdiv 53 1024 (S754_finite neg p 0) (S754_finite false (Z.to_pos (10 ^ (- e))) 0)
  | _ => S754_zero neg
  end.

(** [err == nil && f == math.Trunc(f)] *)
Definition isInteger (lit : string) : bool :=
  match Float64 lit with
  | S754_zero _ => true
  | S754_finite _ m e => (0 <=? e)%Z || (Z.pos m mod 2 ^ (- e) =? 0)%Z
  | S754_infinity _ | S754_nan => false
  end.

(** ** Scalars *)

Definition checkScalarType (typ : string) (v : json) : bool :=
  if typ == TypeString then match v with JStr _ => true | _ => false end
  else if typ == TypeBoolean then match v with JBool _ => true | _ => false end
  else if typ == TypeNumber then match v with JNum _ => true | _ => false end
  else if typ == TypeInteger then match v with JNum lit => isInteger lit | _ => false end
  else true.

Definition checkEnum (enum : option (list json)) (v : json) : bool :=
  match enum with
  | None => true
  | Some vs => existsb (λ allowed, allowed == v) vs
  end.

(** [decode]: numbers keep their literal, and the last member of a name wins. *)
Definition decode (raw : json) : json := decode_any id raw.

(** ** Compile *)

(** The members of a decoded [map[string]json.RawMessage]: the last of a name. *)
Fixpoint last_members {A} (m : list (string * A)) : list (string * A) :=
  match m with
  | [] => []
  | kv :: m' =>
      if bool_decide (kv.1 ∈ map fst m') then last_members m' else kv :: last_members m'
  end.

(** [fields[key]] after decoding, passed to [f] where it is present. *)
Definition at_last {B} (f : json → B) (key : string) : list (string * json) → option B :=
  fix go m :=
    match m with
    | [] => None
    | kv :: m' =>
        match go m' with
        | Some b => Some b
        | None => if kv.1 == key then Some (f kv.2) else None
        end
    end.

Definition field (key : string) (fields : list (string * json)) : option json :=
  at_last id key fields.

Definition forbid (fields : list (string * json)) (keys : list string) : bool :=
  forallb (λ key, bool_decide (key ∉ map fst fields)) keys.

(** [json.Unmarshal] into a [string], a [bool] and a [[]string]: [null] leaves
    the zero value. *)
Definition as_string (j : json) : option string :=
  match j with JStr s => Some s | JNull => Some EmptyString | _ => None end.
Definition as_bool (j : json) : option bool :=
  match j with JBool b => Some b | JNull => Some false | _ => None end.
Definition as_strings (j : json) : option (list string) :=
  match j with JArr l => mapM as_string l | JNull => Some [] | _ => None end.

Definition compileObject (fields : list (string * json))
    (props : option (option (list (string * option Schema)))) : option Schema :=
  if negb (forbid fields ["enum"; "items"]) then None
  else
    ap ← field "additionalProperties" fields ≫= as_bool;
    if (ap : bool) then None
    else
      members ← mjoin props;
      properties ← mapM (λ kv, s ← kv.2; Some (kv.1, s)) (last_members members);
      required ← match field "required" fields with
                 | None => Some []
                 | Some reqRaw => as_strings reqRaw
                 end;
      if forallb (λ name, bool_decide (name ∈ map fst properties)) required
      then Some (mkSchema TypeObject None properties required None)
      else None.

Definition compileArray (fields : list (string * json)) (child : option (option Schema))
    : option Schema :=
  if negb (forbid fields ["properties"; "required"; "additionalProperties"; "enum"]) then None
  else
    s ← mjoin child;
    Some (mkSchema TypeArray None [] [] (Some s)).

Definition compileScalar (typ : string) (fields : list (string * json)) : option Schema :=
  if negb (forbid fields ["properties"; "required"; "additionalProperties"; "items"]) then None
  else
    match field "enum" fields with
    | None => Some (mkSchema typ None [] [] None)
    | Some (JArr (e :: es)) =>
        let vs := map decode (e :: es) in
        if forallb (checkScalarType typ) vs
        then Some (mkSchema typ (Some vs) [] [] None)
        else None
    | Some _ => None
    end.

(** A JSON [null] decodes into an empty field map, which has no type. *)
Fixpoint compileNode (raw : json) : option Schema :=
  match raw with
  | JObj fields =>
      if negb (forallb allowedKeywords (map fst fields)) then None
      else
        typ ← field "type" fields ≫= as_string;
        if typ == TypeObject then
          compileObject fields
            (at_last (λ propsRaw,
               match propsRaw with
               | JObj m => Some (map (λ kv, (kv.1, compileNode kv.2)) m)
               | JNull => Some []
               | _ => None
               end) "properties" fields)
        else if typ == TypeArray then compileArray fields (at_last compileNode "items" fields)
        else if bool_decide (typ ∈ [TypeString; TypeNumber; TypeInteger; TypeBoolean])
        then compileScalar typ fields
        else None
  | _ => None
  end.

(** A blank text is no schema at all: [None]. *)
Definition Compile (raw : option json) : option Schema := raw ≫= compileNode.

(** ** Validate *)

Definition property (s : Schema) (name : string) : option Schema :=
  snd <$> take_where (λ kv, kv.1 == name) (properties s).

(** [validateObject] and [validateArray] are its two container branches. *)
Fixpoint validateValue (v : json) (s : Schema) : bool :=
  if typ s == TypeObject then
    match v with
    | JObj obj =>
        forallb (λ name, bool_decide (name ∈ map fst obj)) (required s) &&
        forallb (λ kv, match property s kv.1 with
                       | None => false
                       | Some child => validateValue kv.2 child
                       end) obj
    | _ => false
    end
  else if typ s == TypeArray then
    match v, items s with
    | JArr arr, Some item => forallb (λ elem, validateValue elem item) arr
    | _, _ => false
    end
  else checkScalarType (typ s) v && checkEnum (enum s) v.

Definition Validate (s : Schema) (value : json) : bool := validateValue (decode value) s.

End jsonschema.

Import jsonschema.

(** ** What a decoded object holds *)

Lemma ascii_compare_N a b : Ascii.compare a b = N.compare (N_of_ascii a) (N_of_ascii b).
Proof. reflexivity. Qed.

Lemma string_compare_trans a b c :
  String.compare a b = Lt → String.compare b c = Lt → String.compare a c = Lt.
Proof.
  revert b c. induction a as [|x a IH]; intros [|y b] [|z c]; cbn; try done.
  rewrite !ascii_compare_N.
  destruct (N.compare_spec (N_of_ascii x) (N_of_ascii y)) as [E1|E1|E1]; [|intros _|done];
  destruct (N.compare_spec (N_of_ascii y) (N_of_ascii z)) as [E2|E2|E2]; try done; intros;
  destruct (N.compare_spec (N_of_ascii x) (N_of_ascii z)) as [E3|E3|E3]; try done; try lia.
  by eapply IH.
Qed.

Definition before (a b : string * json) : Prop := String.compare a.1 b.1 = Lt.

Lemma string_compare_refl a : String.compare a a = Eq.
Proof. induction a as [|c a IH]; cbn; [done|]. by rewrite ascii_compare_N, N.compare_refl. Qed.

Lemma insert_member_spec kv m :
  StronglySorted before m →
  StronglySorted before (insert_member kv m) ∧
  ∀ x, x ∈ insert_member kv m ↔ x = kv ∨ (x.1 ≠ kv.1 ∧ x ∈ m).
Proof.
  induction 1 as [|kv' m Hs [IHs IHe] Hall]; cbn.
  { split; [by repeat constructor|]. set_solver. }
  assert (∀ x, x ∈ m → before kv' x) as Hb by (by apply Forall_forall).
  destruct (String.compare kv.1 kv'.1) eqn:E.
  - apply String.compare_eq_iff in E. split.
    + constructor; [done|]. apply Forall_forall. intros x Hx. unfold before. rewrite E. by apply Hb.
    + intros x. rewrite !elem_of_cons. split; [|naive_solver congruence].
      intros [->|Hx]; [by left|right]. split; [|by right]. intros Hk. specialize (Hb x Hx).
      unfold before in Hb. by rewrite Hk, E, string_compare_refl in Hb.
  - assert (∀ x, x ∈ kv' :: m → before kv x) as Hkv.
    { intros x [->|Hx]%elem_of_cons; [done|]. eapply string_compare_trans; [exact E|by apply Hb]. }
    split; [constructor; [by constructor|by apply Forall_forall]|].
    intros x. rewrite (elem_of_cons (kv' :: m)). split; [|tauto].
    intros [->|Hx]; [by left|right]. split; [|done]. intros Hk. specialize (Hkv x Hx).
    unfold before in Hkv. by rewrite Hk, string_compare_refl in Hkv.
  - split.
    + constructor; [done|]. apply Forall_forall. intros x Hx%IHe. destruct Hx as [->|[_ Hx]].
      * unfold before. rewrite String.compare_antisym, E. done.
      * by apply Hb.
    + intros x. rewrite !elem_of_cons, IHe. split; [|tauto].
      intros [->|[->|[? ?]]]; [right|by left|right; tauto].
      split; [|by left]. intros Hk. by rewrite Hk, string_compare_refl in E.
Qed.

Lemma lookup_last_snoc k m kv :
  lookup_last k (m ++ [kv]) = if kv.1 == k then Some kv.2 else lookup_last k m.
Proof. unfold lookup_last. rewrite rev_app_distr. cbn. by destruct (_ == _). Qed.

Lemma decode_members_sorted m :
  StronglySorted before (fold_left (λ acc kv, insert_member kv acc) m []) ∧
  ∀ k v, (k, v) ∈ fold_left (λ acc kv, insert_member kv acc) m [] ↔ lookup_last k m = Some v.
Proof.
  induction m as [|kv m [IHs IHe]] using rev_ind.
  { split; [constructor|]. intros k v. split; [by intros ?%not_elem_of_nil|done]. }
  rewrite fold_left_app. cbn. destruct (insert_member_spec kv _ IHs) as [Hs He].
  split; [done|]. intros k v. rewrite He, lookup_last_snoc. cbn. rewrite IHe.
  destruct kv as [k' v']; cbn. case_bool_decide; naive_solver.
Qed.

Lemma lookup_last_map f k (m : list (string * json)) :
  lookup_last k (map (λ kv, (kv.1, f kv.2)) m) = f <$> lookup_last k m.
Proof.
  induction m as [|kv m IH] using rev_ind; [done|].
  rewrite map_app. cbn [map]. rewrite !lookup_last_snoc. cbn. by destruct (_ == _).
Qed.

Lemma lookup_last_is_Some k m : is_Some (lookup_last k m) ↔ k ∈ map fst m.
Proof.
  induction m as [|kv m IH] using rev_ind; cbn.
  { split; [by intros [? ?]|by intros ?%not_elem_of_nil]. }
  rewrite lookup_last_snoc, map_app, elem_of_app, <- IH. cbn. rewrite list_elem_of_singleton.
  case_bool_decide; split; [auto|eauto|by left|]. intros [|]; congruence.
Qed.

Lemma lookup_last_elem k m v : lookup_last k m = Some v → (k, v) ∈ m.
Proof.
  induction m as [|kv m IH] using rev_ind; [done|]. rewrite lookup_last_snoc, elem_of_app.
  destruct kv as [k' v']. case_bool_decide; [intros [= <-]; cbn in *; subst; right; by left|auto].
Qed.

(** A decoded object holds exactly the last member of each name. *)
Lemma decode_object m :
  ∃ obj, decode (JObj m) = JObj obj ∧
    (∀ k, k ∈ map fst obj ↔ k ∈ map fst m) ∧
    ∀ k v, (k, v) ∈ obj ↔ decode <$> lookup_last k m = Some v.
Proof.
  destruct (decode_members_sorted (map (λ kv, (kv.1, decode_any id kv.2)) m)) as [_ He].
  eexists. split; [reflexivity|].
  assert (∀ k v, (k, v) ∈ fold_left (λ acc kv, insert_member kv acc)
    (map (λ kv, (kv.1, decode_any id kv.2)) m) [] ↔ decode <$> lookup_last k m = Some v) as Hobj.
  { intros k v. rewrite He, lookup_last_map. done. }
  split; [|exact Hobj]. intros k. rewrite <- (lookup_last_is_Some k m).
  rewrite list_elem_of_fmap. split.
  - intros ([k' v] & -> & Hkv%Hobj). cbn. destruct (lookup_last k' m); [eauto|done].
  - intros [v Hv]. exists (k, decode v). split; [done|]. apply Hobj. by rewrite Hv.
Qed.

(** ** What a schema means: the specification *)

(** The number a literal stands for, rounded to a binary64, is a whole one. *)
Definition whole (lit : string) : Prop :=
  match Float64 lit with
  | S754_zero _ => True
  | S754_finite _ m e => ∃ n : Z, (Z.pos m * 2 ^ Z.max e 0 = n * 2 ^ Z.max (- e) 0)%Z
  | S754_infinity _ | S754_nan => False
  end.

(** The values of a scalar type.  [Compile] yields no other type, and a schema
    made without it that names one takes any value. *)
Inductive scalar : string → json → Prop :=
| scalar_string str : scalar "string" (JStr str)
| scalar_boolean b : scalar "boolean" (JBool b)
| scalar_number lit : scalar "number" (JNum lit)
| scalar_integer lit : whole lit → scalar "integer" (JNum lit)
| scalar_other t v : t ∉ ["string"; "boolean"; "number"; "integer"] → scalar t v.

(** [conforms s j]: the value [j], read as a JSON object keeps the last member
    of a name, is one the schema [s] describes. *)
Inductive conforms : Schema → json → Prop :=
| conforms_object s m :
    typ s = TypeObject →
    (∀ name, name ∈ required s → is_Some (lookup_last name m)) →
    (∀ name v, lookup_last name m = Some v → ∃ child, property s name = Some child ∧ conforms child v) →
    conforms s (JObj m)
| conforms_array s item l :
    typ s = TypeArray → items s = Some item → (∀ v, v ∈ l → conforms item v) →
    conforms s (JArr l)
| conforms_scalar s v :
    typ s ≠ TypeObject → typ s ≠ TypeArray →
    scalar (typ s) v →
    (∀ vs, enum s = Some vs → decode v ∈ vs) →
    conforms s v.

Lemma checkEnum_spec vs v :
  checkEnum vs v = true ↔ ∀ l, vs = Some l → v ∈ l.
Proof.
  destruct vs as [l|]; cbn; [|naive_solver]. rewrite existsb_exists. split.
  - intros (x & Hx & E%bool_decide_eq_true) ? [= <-]. subst. by apply list_elem_of_In.
  - intros H. exists v. rewrite bool_decide_eq_true, <- list_elem_of_In. auto.
Qed.

Lemma isInteger_whole lit : isInteger lit = true ↔ whole lit.
Proof.
  unfold isInteger, whole. destruct (Float64 lit) as [| | |? m e]; [done..|].
  rewrite orb_true_iff, Z.leb_le, Z.eqb_eq. split.
  - intros [He|He].
    + exists (Z.pos m * 2 ^ e)%Z. rewrite Z.max_l, (Z.max_r (- e)) by lia. by rewrite Z.mul_1_r.
    + destruct (Z_le_dec 0 e) as [H0|H0].
      { exists (Z.pos m * 2 ^ e)%Z. rewrite Z.max_l, (Z.max_r (- e)) by lia. by rewrite Z.mul_1_r. }
      apply Z.mod_divide in He as [n Hn]; [|lia]. exists n.
      rewrite Z.max_r, (Z.max_l (- e)) by lia. rewrite Z.mul_1_r. exact Hn.
  - intros [n Hn]. destruct (Z_le_dec 0 e) as [H0|H0]; [by left|right].
    rewrite Z.max_r, (Z.max_l (- e)) in Hn by lia. rewrite Z.mul_1_r in Hn. rewrite Hn.
    apply Z.mod_mul. lia.
Qed.

Lemma checkScalarType_scalar t v : checkScalarType t (decode v) = true ↔ scalar t v.
Proof.
  assert (∀ b, decode (JBool b) = JBool b) as Eb by done. assert (∀ l, decode (JNum l) = JNum l) as En by done.
  unfold checkScalarType, TypeString, TypeBoolean, TypeNumber, TypeInteger.
  destruct (bool_decide_reflect (t = "string")) as [->|H1].
  { split; [destruct v; try done; intros _; apply scalar_string|by inversion 1; subst; [|set_solver]]. }
  destruct (bool_decide_reflect (t = "boolean")) as [->|H2].
  { split; [destruct v; try done; intros _; apply scalar_boolean|by inversion 1; subst; [|set_solver]]. }
  destruct (bool_decide_reflect (t = "number")) as [->|H3].
  { split; [destruct v; try done; intros _; apply scalar_number|by inversion 1; subst; [|set_solver]]. }
  destruct (bool_decide_reflect (t = "integer")) as [->|H4].
  { split; [destruct v; try done; rewrite En; intros; by apply scalar_integer, isInteger_whole|].
    inversion 1; subst; [by apply isInteger_whole|set_solver]. }
  split; [|done]. intros _. apply scalar_other. set_solver.
Qed.

Lemma Validate_scalar s v :
  typ s ≠ TypeObject → typ s ≠ TypeArray →
  Validate s v = true ↔ conforms s v.
Proof.
  intros Ho Ha. unfold Validate.
  assert (validateValue (decode v) s = checkScalarType (typ s) (decode v) && checkEnum (enum s) (decode v)) as ->.
  { destruct (decode v); cbn; rewrite !bool_decide_eq_false_2 by done; done. }
  rewrite andb_true_iff, checkEnum_spec, checkScalarType_scalar. split.
  - intros [? ?]. by apply conforms_scalar.
  - inversion 1; subst; done.
Qed.

(** C40: Validate accepts a value exactly when the schema describes it: required
    members present, no undeclared member, each member (the last of its name)
    and each array element conforming, strings, booleans and numbers told apart,
    an integer a number whose binary64 value is whole, and scalars in the enum. *)
Theorem Validate_conforms (s : Schema) (value : json) :
  Validate s value = true ↔ conforms s value.
Proof.
  revert s. induction value as [|b|n|str|l IH|m IH] using json_rect'; intros s.
  all: destruct (decide (typ s = TypeObject)) as [Ho|Ho];
    [|destruct (decide (typ s = TypeArray)) as [Ha|Ha]; [|by apply Validate_scalar]].
  all: try (unfold Validate; cbn; rewrite ?Ho, ?Ha; cbn; split; [done|inversion 1; unfold TypeObject, TypeArray in *; congruence]).
  - unfold Validate. cbn. rewrite Ha.
    rewrite (bool_decide_eq_false_2 (TypeArray = TypeObject)), bool_decide_refl by done. split.
    + destruct (items s) as [item|] eqn:Ei; [|done]. rewrite forallb_forall. intros Hall.
      eapply conforms_array; [done..|]. intros v [i Hi]%list_elem_of_lookup.
      apply (IH i v Hi). apply Hall. apply in_map. apply list_elem_of_In.
      by eapply list_elem_of_lookup_2.
    + inversion 1 as [|? item ? _ Ei Hall|]; subst; [|congruence]. rewrite Ei, forallb_forall.
      intros x (v & <- & Hv)%in_map_iff. apply list_elem_of_In in Hv.
      pose proof Hv as [i Hi]%list_elem_of_lookup. apply (IH i v Hi). by apply Hall.
  - unfold Validate. destruct (decode_object m) as (obj & -> & Hnames & Hobj). cbn.
    rewrite Ho, bool_decide_refl, andb_true_iff, !forallb_forall. split.
    + intros [Hreq Hmem]. apply conforms_object; [done| |].
      * intros name Hn. apply lookup_last_is_Some, Hnames.
        specialize (Hreq name (proj1 (list_elem_of_In _ _) Hn)). by apply bool_decide_eq_true in Hreq.
      * intros name v Hv. assert ((name, decode v) ∈ obj) as Hin by (apply Hobj; by rewrite Hv).
        specialize (Hmem _ (proj1 (list_elem_of_In _ _) Hin)). cbn in Hmem.
        destruct (property s name) as [child|]; [|done]. exists child. split; [done|].
        apply lookup_last_elem, list_elem_of_lookup in Hv as [i Hi]. by apply (IH i _ Hi).
    + inversion 1 as [? ? _ Hreq Hmem|? ? ? Hbad|]; subst; [|congruence]. split.
      * intros name Hn%list_elem_of_In. apply bool_decide_eq_true, Hnames, lookup_last_is_Some.
        by apply Hreq.
      * intros [k v'] Hin%list_elem_of_In. cbn. apply Hobj in Hin.
        destruct (lookup_last k m) as [v|] eqn:Hv; [|done]. injection Hin as <-.
        destruct (Hmem k v Hv) as (child & -> & Hc).
        apply lookup_last_elem, list_elem_of_lookup in Hv as [i Hi]. by apply (IH i _ Hi).
Qed.

(** ** What Compile guarantees *)

Inductive well_formed : Schema → Prop :=
| wf_object props req :
    NoDup (map fst props) →
    (∀ name, name ∈ req → name ∈ map fst props) →
    (∀ name child, (name, child) ∈ props → well_formed child) →
    well_formed (mkSchema TypeObject None props req None)
| wf_array item : well_formed item → well_formed (mkSchema TypeArray None [] [] (Some item))
| wf_scalar typ vs :
    typ ∈ [TypeString; TypeNumber; TypeInteger; TypeBoolean] →
    (∀ l, vs = Some l → l ≠ [] ∧ ∀ v, v ∈ l → ∃ e, v = decode e ∧ checkScalarType typ v = true) →
    well_formed (mkSchema typ vs [] [] None).

Lemma at_last_lookup {B} (f : json → B) k m : at_last f k m = f <$> lookup_last k m.
Proof.
  induction m as [|kv m IH]; [done|]. cbn. rewrite IH. unfold lookup_last. cbn.
  unfold take_where. generalize (rev m). intros l. clear IH m.
  induction l as [|x l IH]; cbn; [by destruct (_ == _)|]. by destruct (x.1 == k).
Qed.

Lemma last_members_spec {A} (m : list (string * A)) :
  NoDup (map fst (last_members m)) ∧ ∀ kv, kv ∈ last_members m → kv ∈ m.
Proof.
  assert (∀ k, k ∈ map fst (last_members m) → k ∈ map fst m) as Hk.
  { induction m as [|kv m IH]; intros k; cbn; [done|].
    case_bool_decide; cbn; rewrite !elem_of_cons; naive_solver. }
  induction m as [|kv m IH]; cbn; [split; [constructor|set_solver]|].
  destruct IH as [IH1 IH2].
  { intros k Hkm. clear -Hkm. induction m as [|kv m IH]; cbn in *; [done|].
    case_bool_decide; cbn in *; rewrite ?elem_of_cons in *; naive_solver. }
  case_bool_decide as Hd; cbn; (split; [|set_solver]); [done|].
  constructor; [|done]. intros Hbad. apply Hd. clear -Hbad.
  revert Hbad. generalize (kv.1). intros k. induction m as [|kv' m IH]; cbn; [done|].
  case_bool_decide; cbn; rewrite !elem_of_cons; naive_solver.
Qed.

Lemma compileScalar_wf typ fields s :
  typ ∈ [TypeString; TypeNumber; TypeInteger; TypeBoolean] →
  compileScalar typ fields = Some s → well_formed s.
Proof.
  intros Ht. unfold compileScalar. destruct (forbid _ _); cbn; [|done].
  destruct (field _ _) as [[| | | |[|e es]|]|]; cbn; try done.
  - destruct (_ && _) eqn:Hall; [|done]. intros [= <-]. apply wf_scalar; [done|].
    intros l [= <-]. split; [done|]. intros v Hv. change (v ∈ map decode (e :: es)) in Hv.
    apply list_elem_of_fmap in Hv as (x & -> & Hx). exists x. split; [done|].
    change (forallb (checkScalarType typ) (map decode (e :: es)) = true) in Hall.
    rewrite forallb_forall in Hall. apply Hall, in_map. by apply list_elem_of_In.
  - intros [= <-]. by apply wf_scalar.
Qed.

Lemma compileObject_wf fields members s :
  (∀ name o child, (name, o) ∈ members → o = Some child → well_formed child) →
  compileObject fields (Some (Some members)) = Some s → well_formed s.
Proof.
  intros Hm. unfold compileObject. destruct (forbid _ _); cbn; [|done].
  destruct (field "additionalProperties" fields ≫= as_bool) as [[]|]; cbn; [done| |done].
  destruct (mapM _ (last_members members)) as [props|] eqn:Hp; cbn; [|done].
  destruct (match field "required" fields with None => _ | Some r => _ end) as [req|]; cbn; [|done].
  destruct (forallb _ req) eqn:Hr; [|done]. intros [= <-].
  destruct (last_members_spec members) as [Hnd Hin].
  apply mapM_Some in Hp.
  assert (map fst props = map fst (last_members members)) as Hk.
  { clear -Hp. induction Hp as [|[k o] [k' c] ? ? E ? IH]; [done|]. cbn. f_equal; [|apply IH].
    destruct o; cbn in E; [by injection E|done]. }
  apply wf_object.
  - by rewrite Hk.
  - intros name Hn. rewrite forallb_forall in Hr.
    specialize (Hr name (proj1 (list_elem_of_In _ _) Hn)). by apply bool_decide_eq_true in Hr.
  - intros name child Hc. apply list_elem_of_lookup in Hc as [i Hi].
    destruct (Forall2_lookup_r _ _ _ _ _ Hp Hi) as ([k o] & Hi' & E).
    destruct o as [c|]; simplify_option_eq.
    eapply Hm; [apply Hin; by eapply list_elem_of_lookup_2|done].
Qed.

Lemma compileObject_members fields p s :
  compileObject fields p = Some s → ∃ members, p = Some (Some members).
Proof.
  unfold compileObject. destruct (forbid _ _); cbn; [|done].
  destruct (field "additionalProperties" fields ≫= as_bool) as [[]|]; cbn; [done| |done].
  destruct p as [[members|]|]; cbn; [eauto|done|done].
Qed.

Lemma compileNode_wf raw :
  (∀ s, compileNode raw = Some s → well_formed s) ∧
  (∀ m kv s, raw = JObj m → kv ∈ m → compileNode kv.2 = Some s → well_formed s).
Proof.
  induction raw as [| | | | |fields IH] using json_rect'; try by split.
  assert (∀ kv, kv ∈ fields → ∀ s, compileNode kv.2 = Some s → well_formed s) as Hmem.
  { intros kv [i Hi]%list_elem_of_lookup. exact (proj1 (IH i kv Hi)). }
  split; [|intros ? kv s [= <-] Hkv; by apply Hmem].
  intros s. cbn. destruct (forallb _ _); cbn; [|done].
  destruct (field "type" fields ≫= as_string) as [t|]; cbn; [|done].
  case_bool_decide; [|case_bool_decide; [|case_bool_decide; [|done]]].
  - rewrite at_last_lookup. intros Hs. destruct (compileObject_members _ _ _ Hs) as [members E].
    revert Hs. rewrite E.
    destruct (lookup_last "properties" fields) as [p|] eqn:Ep; [|done]. injection E as E.
    apply lookup_last_elem, list_elem_of_lookup in Ep as [i Hi].
    pose proof (proj2 (IH i _ Hi)) as Hp. cbn in Hp.
    destruct p as [| | | | |m]; try done; injection E as <-.
    + apply compileObject_wf. by intros ? ? ? ?%not_elem_of_nil.
    + apply compileObject_wf. intros name o child Hc ->.
      apply list_elem_of_fmap in Hc as (kv & E & Hkv). injection E as _ E. symmetry in E.
      by eapply Hp.
  - rewrite at_last_lookup. unfold compileArray. destruct (forbid _ _); cbn; [|done].
    destruct (lookup_last "items" fields) as [it|] eqn:Ei; cbn; [|done].
    destruct (compileNode it) as [item|] eqn:Ec; cbn; [|done]. intros [= <-].
    apply wf_array. apply lookup_last_elem in Ei. by apply (Hmem _ Ei).
  - by apply compileScalar_wf.
Qed.

Lemma property_elem props t e r i name child :
  NoDup (map fst props) → (name, child) ∈ props → property (mkSchema t e props r i) name = Some child.
Proof.
  unfold property, take_where. cbn. induction props as [|[k c] props IH]; cbn; [set_solver|].
  intros [Hk Hnd]%NoDup_cons [E|Hin]%elem_of_cons.
  - injection E as -> ->. by rewrite bool_decide_refl.
  - rewrite bool_decide_eq_false_2; [by apply IH|]. intros ->. apply Hk.
    apply list_elem_of_fmap. by exists (name, child).
Qed.

Lemma property_domain props t e r i name child :
  property (mkSchema t e props r i) name = Some child → (name, child) ∈ props.
Proof.
  unfold property. cbn. intros ([k c] & [Hin E]%take_where_Some & ->)%fmap_Some. cbn in *.
  apply bool_decide_eq_true in E. by subst.
Qed.

Lemma scalar_not_container t :
  t ∈ [TypeString; TypeNumber; TypeInteger; TypeBoolean] → t ≠ TypeObject ∧ t ≠ TypeArray.
Proof.
  rewrite !elem_of_cons.
  intros [->|[->|[->|[->|H]]]]; [by split..|by apply not_elem_of_nil in H].
Qed.

Lemma well_formed_satisfiable s : well_formed s → ∃ v, conforms s v.
Proof.
  induction 1 as [props req Hnd Hreq _ IH|item _ _|t vs Ht Hvs].
  - assert (∃ m, Forall2 (λ kc kv, kc.1 = kv.1 ∧ conforms kc.2 kv.2) props m) as [m Hm].
    { clear Hnd Hreq. induction props as [|[k c] props IHp]; [by exists []|].
      destruct (IH k c) as [v Hv]; [by left|]. destruct IHp as [m Hm].
      { intros name child Hin. apply (IH name). by right. }
      exists ((k, v) :: m). by constructor. }
    exists (JObj m). apply conforms_object; [done| |].
    + intros name Hn. apply lookup_last_is_Some. apply Hreq in Hn. cbn in Hn.
      apply list_elem_of_fmap in Hn as ([k c] & -> & [i Hi]%list_elem_of_lookup).
      destruct (Forall2_lookup_l _ _ _ _ _ Hm Hi) as (kv & Hi' & Hk & _). cbn in *. rewrite Hk.
      apply list_elem_of_fmap_2. by eapply list_elem_of_lookup_2.
    + intros name v Hv%lookup_last_elem. apply list_elem_of_lookup in Hv as [i Hi].
      destruct (Forall2_lookup_r _ _ _ _ _ Hm Hi) as ([k c] & Hi' & Hk & Hc). cbn in *. subst.
      exists c. split; [|done]. apply (property_elem props TypeObject None req None); [done|]. by eapply list_elem_of_lookup_2.
  - exists (JArr []). eapply conforms_array; [done..|]. by intros v Hv%not_elem_of_nil.
  - destruct vs as [l|].
    + destruct (Hvs l eq_refl) as [Hne Hl]. destruct l as [|v l]; [done|].
      destruct (Hl v) as (e & -> & Hc); [by left|]. exists e.
      destruct (scalar_not_container t Ht). apply conforms_scalar; cbn; [done|done|by apply checkScalarType_scalar|].
      intros ? [= <-]. by left.
    + rewrite !elem_of_cons in Ht. destruct Ht as [->|[->|[->|[->|H]]]];
        [exists (JStr "")|exists (JNum "0")|exists (JNum "0")|exists (JBool true)|by apply not_elem_of_nil in H];
        (apply conforms_scalar; [done|done|by apply checkScalarType_scalar; vm_compute|done]).
Qed.

(** every schema Compile accepts is one a value can satisfy: objects are
    closed with their required names declared, enums are non-empty lists of
    values of the declared type, so no accepted schema is contradictory. *)
Lemma Compile_satisfiable (raw : option json) (s : Schema) :
  Compile raw = Some s → well_formed s ∧ ∃ value, Validate s value = true.
Proof.
  destruct raw as [raw|]; [|done]. intros Hc. assert (well_formed s) as Hwf.
  { exact (proj1 (compileNode_wf raw) s Hc). }
  split; [done|]. destruct (well_formed_satisfiable s Hwf) as [v Hv]. exists v.
  by apply Validate_conforms.
Qed.

(** ** Witness *)

Definition sample_schema : json :=
  JObj [("type", JStr "object"); ("additionalProperties", JBool false);
        ("properties", JObj [("n", JObj [("type", JStr "integer")]);
                             ("tags", JObj [("type", JStr "array");
                                            ("items", JObj [("type", JStr "string");
                                                            ("enum", JArr [JStr "a"; JStr "b"])])])]);
        ("required", JArr [JStr "n"])].

Definition sample_compiled : Schema :=
  Eval vm_compute in match Compile (Some sample_schema) with
                     | Some s => s
                     | None => mkSchema "" None [] [] None
                     end.

Lemma Compile_satisfiable_witness :
  Validate sample_compiled (JObj [("n", JNum "1e2"); ("tags", JArr [JStr "b"])]) = true ∧
  Validate sample_compiled (JObj [("n", JNum "1.5")]) = false ∧
  well_formed sample_compiled ∧ ∃ value, Validate sample_compiled value = true.
Proof.
  split; [vm_compute; reflexivity|]. split; [vm_compute; reflexivity|].
  apply (Compile_satisfiable (Some sample_schema)). vm_compute. reflexivity.
Defined.

(** A schema of one scalar type. *)
Definition of_type (t : string) : Schema := mkSchema t None [] [] None.

Lemma Validate_conforms_witness :
  conforms sample_compiled (JObj [("n", JNum "1e2"); ("tags", JArr [JStr "b"])])
  ∧ ¬ conforms sample_compiled (JObj [("n", JNum "1.5")])
  ∧ ¬ conforms (of_type "boolean") (JStr "true") ∧ ¬ conforms (of_type "integer") (JStr "1")
  ∧ conforms (of_type "number") (JNum "0.5").
Proof.
  repeat split; try (intros H; apply Validate_conforms in H; vm_compute in H; discriminate H);
    apply Validate_conforms; vm_compute; reflexivity.
Defined.
