(* ===== verification/TaskCore.v ===== *)
(** * TaskCore: the Task domain of internal/core/task

    The lifecycle of a task run, its failure classes, workspace checkpoint
    kinds, task origins, the Task and Run records and the admission
    fingerprint.  [Module coretask] mirrors the Go package of that import name. *)

From S2P Require Import Prelude Json.

Module coretask.

(** ** Run status: internal/core/task/task.go *)

Inductive RunStatus : Type :=
| RunStatusPending
| RunStatusScheduled
| RunStatusRunning
| RunStatusSucceeded
| RunStatusFailed
| RunStatusCanceled.

#[export] Instance RunStatus_eq_dec : EqDecision RunStatus.
Proof. solve_decision. Defined.

(** The text the [status] column holds. *)
Definition RunStatus_string (s : RunStatus) : string :=
  match s with
  | RunStatusPending => "PENDING"
  | RunStatusScheduled => "SCHEDULED"
  | RunStatusRunning => "RUNNING"
  | RunStatusSucceeded => "SUCCEEDED"
  | RunStatusFailed => "FAILED"
  | RunStatusCanceled => "CANCELED"
  end.

Definition RunStatusTerminal (status : RunStatus) : bool :=
  match status with
  | RunStatusSucceeded | RunStatusFailed | RunStatusCanceled => true
  | _ => false
  end.

Definition ValidRunStatusTransition (from to : RunStatus) : bool :=
  match from with
  | RunStatusPending => (to == RunStatusScheduled) || (to == RunStatusCanceled)
  | RunStatusScheduled =>
      (to == RunStatusRunning) || (to == RunStatusFailed) || (to == RunStatusCanceled)
  | RunStatusRunning =>
      (to == RunStatusSucceeded) || (to == RunStatusFailed) || (to == RunStatusCanceled)
  | _ => false
  end.

Definition ActiveRunStatuses : list RunStatus :=
  [RunStatusPending; RunStatusScheduled; RunStatusRunning].

(** [status IN ?] of the SQL filters over [ActiveRunStatuses]. *)
Definition is_active (s : RunStatus) : bool := bool_decide (s ∈ ActiveRunStatuses).

(** ** Provenance and cancel reasons *)

Definition RunCreatedByTypeUser : string := "user".
Definition RunCreatedByTypeWebhook : string := "webhook".
Definition RunCreatedByTypeSystem : string := "system".
Definition RunTriggerSourceWorkflowStep : string := "workflow_step".
Definition RunTriggerSourceSchedule : string := "schedule".

Definition CancelReasonUserRequested : string := "user_requested".
Definition CancelReasonWorkflowStopped : string := "workflow_stopped".
Definition CancelReasonWorkflowNodeTimeout : string := "workflow_node_timeout".
Definition CancelReasonCreatorDisabled : string := "creator_disabled".
Definition CancelReasonCreatorNotMember : string := "creator_not_member".

(** ** Failure classes *)

Inductive FailureClass : Type :=
| FailureDispatch | FailureWorkerLost | FailureAbandoned | FailureInterrupted
| FailureInfrastructure | FailureSpaceConfiguration | FailureModel | FailureRun
| FailureUnclassified.

#[export] Instance FailureClass_eq_dec : EqDecision FailureClass.
Proof. solve_decision. Defined.

Definition FailureClass_string (c : FailureClass) : string :=
  match c with
  | FailureDispatch => "dispatch"
  | FailureWorkerLost => "worker_lost"
  | FailureAbandoned => "abandoned"
  | FailureInterrupted => "interrupted"
  | FailureInfrastructure => "infrastructure"
  | FailureSpaceConfiguration => "space_configuration"
  | FailureModel => "model"
  | FailureRun => "run"
  | FailureUnclassified => "unclassified"
  end.

Definition FailureClasses : list FailureClass :=
  [FailureDispatch; FailureWorkerLost; FailureAbandoned; FailureInterrupted;
   FailureInfrastructure; FailureSpaceConfiguration; FailureModel; FailureRun;
   FailureUnclassified].

Definition NormalizeFailureClass (s : string) : FailureClass :=
  match take_where (λ c, FailureClass_string c == s) FailureClasses with
  | Some c => c
  | None => FailureUnclassified
  end.

(** ** Workspace checkpoints: internal/core/task/checkpoint.go *)

Inductive CheckpointKind : Type :=
| CheckpointKindSeed | CheckpointKindSuccessful | CheckpointKindPartial.

#[export] Instance CheckpointKind_eq_dec : EqDecision CheckpointKind.
Proof. solve_decision. Defined.

Definition CheckpointKind_string (k : CheckpointKind) : string :=
  match k with
  | CheckpointKindSeed => "seed"
  | CheckpointKindSuccessful => "successful"
  | CheckpointKindPartial => "partial"
  end.

Definition ValidCheckpointKind (k : string) : bool :=
  (k == CheckpointKind_string CheckpointKindSeed)
  || (k == CheckpointKind_string CheckpointKindSuccessful)
  || (k == CheckpointKind_string CheckpointKindPartial).

Definition AdvancesWorkspaceHead (k : CheckpointKind) : bool :=
  (k == CheckpointKindSeed) || (k == CheckpointKindSuccessful).

(** ** Origins: internal/core/task/origin.go *)

Inductive OriginKind : Type :=
| OriginWorkflow | OriginIssue | OriginConversation | OriginSchedule.

Record Origin : Type := mkOrigin {
  Origin_Kind : OriginKind;
  Origin_ID : string;
  Origin_Name : string;
  Origin_Step : Z
}.
#[export] Instance Origin_updatable : Updatable Origin := λ r,
  mkOrigin (Origin_Kind r) (Origin_ID r) (Origin_Name r) (Origin_Step r).

Record OriginRelations : Type := mkOriginRelations {
  Rel_WorkflowRunID : string;
  Rel_WorkflowName : string;
  Rel_WorkflowStep : Z;
  Rel_IssueID : string;
  Rel_IssueTitle : string;
  Rel_ConversationID : string;
  Rel_ConversationTitle : string;
  Rel_ScheduleID : string;
  Rel_ScheduleName : string
}.
#[export] Instance OriginRelations_updatable : Updatable OriginRelations := λ r,
  mkOriginRelations (Rel_WorkflowRunID r) (Rel_WorkflowName r) (Rel_WorkflowStep r) (Rel_IssueID r)
    (Rel_IssueTitle r) (Rel_ConversationID r) (Rel_ConversationTitle r) (Rel_ScheduleID r)
    (Rel_ScheduleName r).

Definition Origin_of (r : OriginRelations) : option Origin :=
  if Rel_WorkflowRunID r != "" then
    Some (mkOrigin OriginWorkflow (Rel_WorkflowRunID r) (Rel_WorkflowName r) (Rel_WorkflowStep r))
  else if Rel_IssueID r != "" then
    Some (mkOrigin OriginIssue (Rel_IssueID r) (Rel_IssueTitle r) 0)
  else if Rel_ConversationID r != "" then
    Some (mkOrigin OriginConversation (Rel_ConversationID r) (Rel_ConversationTitle r) 0)
  else if Rel_ScheduleID r != "" then
    Some (mkOrigin OriginSchedule (Rel_ScheduleID r) (Rel_ScheduleName r) 0)
  else None.

(** ** Task and Run

    The stored columns of a task and of a run.  The read-only projections a
    read joins in (Origin, FailureClass and FailureCause on a Task, SpaceID on
    a Run) are computed by the reads and are not columns.  [AdmissionKey] and
    [AdmissionFingerprint] are the columns internal/infra/db/task.go adds. *)

Record AdmissionPayload : Type := mkAdmissionPayload {
  Pay_Space : string;
  Pay_Conversation : string;
  Pay_Input : string;
  Pay_Agent : option string;
  Pay_Issue : option string;
  Pay_Schedule : option string;
  Pay_CreatedBy : string;
  Pay_RunCreatedBy : string;
  Pay_CreatedByType : string;
  Pay_TriggerSource : string;
  Pay_SourceMessage : option string;
  Pay_OutputSchema : option string
}.
#[export] Instance AdmissionPayload_updatable : Updatable AdmissionPayload := λ r,
  mkAdmissionPayload (Pay_Space r) (Pay_Conversation r) (Pay_Input r) (Pay_Agent r) (Pay_Issue r)
    (Pay_Schedule r) (Pay_CreatedBy r) (Pay_RunCreatedBy r) (Pay_CreatedByType r)
    (Pay_TriggerSource r) (Pay_SourceMessage r) (Pay_OutputSchema r).

Record Task : Type := mkTask {
  Task_ID : string;
  Task_ConversationID : option string;
  Task_SpaceID : string;
  Task_IssueID : option string;
  Task_ScheduleID : option string;
  Task_Status : RunStatus;
  Task_Input : string;
  Task_Title : string;
  Task_TitlePromptTokens : Z;
  Task_TitleCompletionTokens : Z;
  Task_Output : option string;
  Task_OutputSchema : option string;
  Task_CreatedBy : string;
  Task_RequestedBy : option string;
  Task_AssistantID : option string;
  Task_AssistantRevision : Z;
  Task_CreatedAt : Z;
  Task_StartedAt : option Z;
  Task_EndedAt : option Z;
  Task_ErrorMessage : option string;
  Task_SessionID : option string;
  Task_LastRunID : option string;
  Task_AwaitingAnswer : bool;
  Task_AgentID : option string;
  Task_WorkspaceHeadCheckpointID : option string;
  Task_PluginEnvironmentHeadID : option string;
  Task_AdmissionKey : option string;
  Task_AdmissionFingerprint : option AdmissionPayload
}.
#[export] Instance Task_updatable : Updatable Task := λ r,
  mkTask (Task_ID r) (Task_ConversationID r) (Task_SpaceID r) (Task_IssueID r)
    (Task_ScheduleID r) (Task_Status r) (Task_Input r) (Task_Title r)
    (Task_TitlePromptTokens r) (Task_TitleCompletionTokens r) (Task_Output r)
    (Task_OutputSchema r) (Task_CreatedBy r) (Task_RequestedBy r) (Task_AssistantID r)
    (Task_AssistantRevision r) (Task_CreatedAt r) (Task_StartedAt r) (Task_EndedAt r)
    (Task_ErrorMessage r) (Task_SessionID r) (Task_LastRunID r) (Task_AwaitingAnswer r)
    (Task_AgentID r) (Task_WorkspaceHeadCheckpointID r) (Task_PluginEnvironmentHeadID r)
    (Task_AdmissionKey r) (Task_AdmissionFingerprint r).

Record Run : Type := mkRun {
  Run_ID : string;
  Run_TaskID : string;
  Run_PreviousTaskRunID : option string;
  Run_Input : string;
  Run_CreatedBy : string;
  Run_CreatedByType : string;
  Run_TriggerSource : string;
  Run_Status : RunStatus;
  Run_Output : option string;
  Run_Structured : option json;
  Run_Questions : option json;
  Run_ErrorMessage : option string;
  Run_StartedAt : option Z;
  Run_EndedAt : option Z;
  Run_SessionID : option string;
  Run_WorkerType : string;
  Run_K8sJobName : option string;
  Run_K8sJobCreatedAt : option Z;
  Run_PromptTokens : option Z;
  Run_CompletionTokens : option Z;
  Run_TracePath : option string;
  Run_CancelRequestedAt : option Z;
  Run_CancelRequestedBy : option string;
  Run_CancelReason : string;
  Run_FailureClass_ : option FailureClass;
  Run_FailureCause : option string;
  Run_RetryOfTaskRunID : option string;
  Run_AgentRevision : option Z;
  Run_SpaceAgentInstructionsRevision : option Z;
  Run_PluginPins : string;
  Run_SandboxNetworkTier : option string;
  Run_SandboxFilesystemTier : option string;
  Run_SourceMessageID : option string;
  Run_LastSeenAt : option Z;
  Run_CreatedAt : Z;
  Run_IdempotencyKey : option string;
  Run_WorkspaceBaseCheckpointID : option string;
  Run_WorkspaceResultCheckpointID : option string;
  Run_WorkspacePartialCheckpointID : option string;
  Run_WorkspaceRestoreStatus : string;
  Run_WorkspaceRestoreError : option string;
  Run_WorkspaceCheckpointStatus : string;
  Run_WorkspaceCheckpointError : option string;
  Run_PluginEnvironmentBaseID : option string;
  Run_PluginEnvironmentResultID : option string;
  Run_PluginEnvironmentStatus : string;
  Run_PluginEnvironmentError : option string
}.
#[export] Instance Run_updatable : Updatable Run := λ r,
  mkRun (Run_ID r) (Run_TaskID r) (Run_PreviousTaskRunID r) (Run_Input r) (Run_CreatedBy r)
    (Run_CreatedByType r) (Run_TriggerSource r) (Run_Status r) (Run_Output r)
    (Run_Structured r) (Run_Questions r) (Run_ErrorMessage r) (Run_StartedAt r)
    (Run_EndedAt r) (Run_SessionID r) (Run_WorkerType r) (Run_K8sJobName r)
    (Run_K8sJobCreatedAt r) (Run_PromptTokens r) (Run_CompletionTokens r) (Run_TracePath r)
    (Run_CancelRequestedAt r) (Run_CancelRequestedBy r) (Run_CancelReason r)
    (Run_FailureClass_ r) (Run_FailureCause r) (Run_RetryOfTaskRunID r)
    (Run_AgentRevision r) (Run_SpaceAgentInstructionsRevision r) (Run_PluginPins r)
    (Run_SandboxNetworkTier r) (Run_SandboxFilesystemTier r) (Run_SourceMessageID r)
    (Run_LastSeenAt r) (Run_CreatedAt r) (Run_IdempotencyKey r)
    (Run_WorkspaceBaseCheckpointID r) (Run_WorkspaceResultCheckpointID r)
    (Run_WorkspacePartialCheckpointID r) (Run_WorkspaceRestoreStatus r)
    (Run_WorkspaceRestoreError r) (Run_WorkspaceCheckpointStatus r)
    (Run_WorkspaceCheckpointError r) (Run_PluginEnvironmentBaseID r)
    (Run_PluginEnvironmentResultID r) (Run_PluginEnvironmentStatus r)
    (Run_PluginEnvironmentError r).

(** ** Store inputs *)

Record CreateInput : Type := mkCreateInput {
  CI_ConversationID : string;
  CI_SpaceID : string;
  CI_Input : string;
  CI_Title : string;
  CI_CreatedBy : string;
  CI_InitialRunCreatedBy : string;
  CI_InitialRunCreatedByType : string;
  CI_InitialRunTriggerSource : string;
  CI_InitialRunSourceMessageID : option string;
  CI_TitlePromptTokens : Z;
  CI_TitleCompletionTokens : Z;
  CI_AgentID : option string;
  CI_InitialRunAgentRevision : option Z;
  CI_InitialRunSandboxNetworkTier : option string;
  CI_InitialRunSandboxFilesystemTier : option string;
  CI_IssueID : option string;
  CI_ScheduleID : option string;
  CI_AdmissionKey : string;
  CI_WorkflowNodeRunID : string;
  CI_OutputSchema : option string;
  CI_RequestedBy : string;
  CI_AssistantID : string;
  CI_AssistantRevision : Z
}.
#[export] Instance CreateInput_updatable : Updatable CreateInput := λ r,
  mkCreateInput (CI_ConversationID r) (CI_SpaceID r) (CI_Input r) (CI_Title r) (CI_CreatedBy r)
    (CI_InitialRunCreatedBy r) (CI_InitialRunCreatedByType r) (CI_InitialRunTriggerSource r)
    (CI_InitialRunSourceMessageID r) (CI_TitlePromptTokens r) (CI_TitleCompletionTokens r)
    (CI_AgentID r) (CI_InitialRunAgentRevision r) (CI_InitialRunSandboxNetworkTier r)
    (CI_InitialRunSandboxFilesystemTier r) (CI_IssueID r) (CI_ScheduleID r)
    (CI_AdmissionKey r) (CI_WorkflowNodeRunID r) (CI_OutputSchema r) (CI_RequestedBy r)
    (CI_AssistantID r) (CI_AssistantRevision r).

Record CreateRunInput : Type := mkCreateRunInput {
  CRI_TaskID : string;
  CRI_Input : string;
  CRI_CreatedBy : string;
  CRI_CreatedByType : string;
  CRI_TriggerSource : string;
  CRI_RetryOfTaskRunID : option string;
  CRI_SourceMessageID : option string;
  CRI_AgentRevision : option Z;
  CRI_SandboxNetworkTier : option string;
  CRI_SandboxFilesystemTier : option string;
  CRI_IdempotencyKey : option string;
  CRI_WorkflowNodeRunID : string;
  CRI_WorkflowNodeFrom : string;
  CRI_WorkflowAttempt : Z
}.
#[export] Instance CreateRunInput_updatable : Updatable CreateRunInput := λ r,
  mkCreateRunInput (CRI_TaskID r) (CRI_Input r) (CRI_CreatedBy r) (CRI_CreatedByType r)
    (CRI_TriggerSource r) (CRI_RetryOfTaskRunID r) (CRI_SourceMessageID r)
    (CRI_AgentRevision r) (CRI_SandboxNetworkTier r) (CRI_SandboxFilesystemTier r)
    (CRI_IdempotencyKey r) (CRI_WorkflowNodeRunID r) (CRI_WorkflowNodeFrom r)
    (CRI_WorkflowAttempt r).

Record TransitionRunInput : Type := mkTransitionRunInput {
  TRI_TaskRunID : string;
  TRI_ExpectedStatus : RunStatus;
  TRI_NewStatus : RunStatus;
  TRI_StartedAt : option Z;
  TRI_EndedAt : option Z;
  TRI_Output : option string;
  TRI_Structured : option json;
  TRI_Questions : option json;
  TRI_ErrorMessage : option string;
  TRI_SessionID : option string;
  TRI_PromptTokens : option Z;
  TRI_CompletionTokens : option Z;
  TRI_TracePath : option string;
  TRI_CancelReason : option string;
  TRI_FailureClass : string
}.
#[export] Instance TransitionRunInput_updatable : Updatable TransitionRunInput := λ r,
  mkTransitionRunInput (TRI_TaskRunID r) (TRI_ExpectedStatus r) (TRI_NewStatus r) (TRI_StartedAt r)
    (TRI_EndedAt r) (TRI_Output r) (TRI_Structured r) (TRI_Questions r) (TRI_ErrorMessage r)
    (TRI_SessionID r) (TRI_PromptTokens r) (TRI_CompletionTokens r) (TRI_TracePath r)
    (TRI_CancelReason r) (TRI_FailureClass r).

(** ** Admission fingerprint: internal/core/task/admission.go

    The digest is SHA-256 of the JSON of a struct of fixed field order.  The
    model keeps the struct itself: two fingerprints are equal exactly when the
    encoded payloads are, which is what the callers compare. *)

Definition AdmissionFingerprint (in_ : CreateInput) : AdmissionPayload := {|
  Pay_Space := CI_SpaceID in_;
  Pay_Conversation := CI_ConversationID in_;
  Pay_Input := CI_Input in_;
  Pay_Agent := CI_AgentID in_;
  Pay_Issue := CI_IssueID in_;
  Pay_Schedule := CI_ScheduleID in_;
  Pay_CreatedBy := CI_CreatedBy in_;
  Pay_RunCreatedBy := CI_InitialRunCreatedBy in_;
  Pay_CreatedByType := CI_InitialRunCreatedByType in_;
  Pay_TriggerSource := CI_InitialRunTriggerSource in_;
  Pay_SourceMessage := CI_InitialRunSourceMessageID in_;
  Pay_OutputSchema := CI_OutputSchema in_
|}.

#[export] Instance AdmissionPayload_eq_dec : EqDecision AdmissionPayload.
Proof. solve_decision. Defined.

End coretask.

(** ** Lifecycle facts shared by the store and the services *)

Lemma task_active_terminal (s : coretask.RunStatus) :
  coretask.is_active s = negb (coretask.RunStatusTerminal s).
Proof. by destruct s. Qed.

Lemma task_transition_from_active from to :
  coretask.ValidRunStatusTransition from to = true → coretask.is_active from = true.
Proof. by destruct from. Qed.

Lemma task_transition_neq from to :
  coretask.ValidRunStatusTransition from to = true → from ≠ to.
Proof. by destruct from, to. Qed.

#[export] Hint Resolve task_transition_from_active task_transition_neq : bm.
