(* ===== verification/WorkflowCore.v ===== *)
(** * WorkflowCore: the Workflow domain of internal/core/workflow/workflow.go

    Run and node-run lifecycles, retry backoff and deadlines, the definition,
    run, node-run and request records, and the keys that name a node's Task. *)

From S2P Require Import Prelude Json.
From stdpp Require Import pretty.
From Stdlib Require Import Ascii String.
Local Open Scope string_scope.
#[local] Arguments String.append : simpl nomatch.

Module coreworkflow.

(** ** Constants *)

Definition DefinitionSchemaVersion : Z := 1.
Definition MaxParallelNodesCeiling : Z := 8.
Definition MaxNodeAttemptsCeiling : Z := 5.
Definition MinTimeoutSeconds : Z := 60.
Definition MaxTimeoutSeconds : Z := 30 * 24 * 60 * 60.

Inductive Status : Type := StatusDraft | StatusPublished | StatusArchived.

#[export] Instance Status_eq_dec : EqDecision Status.
Proof. solve_decision. Defined.

Definition NodeTypeAgentTask : string := "agent_task".
Definition NodeTypeHumanInput : string := "human_input".

(** ** Lifecycles *)

Inductive RunStatus : Type :=
| RunStatusPending
| RunStatusRunning
| RunStatusFailing
| RunStatusCanceling
| RunStatusSucceeded
| RunStatusFailed
| RunStatusCanceled.

#[export] Instance RunStatus_eq_dec : EqDecision RunStatus.
Proof. solve_decision. Defined.

Inductive NodeRunStatus : Type :=
| NodeRunStatusPending
| NodeRunStatusRunning
| NodeRunStatusSucceeded
| NodeRunStatusFailed
| NodeRunStatusCanceled
| NodeRunStatusBlocked
| NodeRunStatusRetryWait
| NodeRunStatusWaiting.

#[export] Instance NodeRunStatus_eq_dec : EqDecision NodeRunStatus.
Proof. solve_decision. Defined.

Definition NodeRunStatus_string (s : NodeRunStatus) : string :=
  match s with
  | NodeRunStatusPending => "pending"
  | NodeRunStatusRunning => "running"
  | NodeRunStatusSucceeded => "succeeded"
  | NodeRunStatusFailed => "failed"
  | NodeRunStatusCanceled => "canceled"
  | NodeRunStatusBlocked => "blocked"
  | NodeRunStatusRetryWait => "retry_wait"
  | NodeRunStatusWaiting => "waiting"
  end.

Inductive ReportStatus : Type :=
| ReportNone | ReportPending | ReportSent | ReportSkipped | ReportFailed.

#[export] Instance ReportStatus_eq_dec : EqDecision ReportStatus.
Proof. solve_decision. Defined.

Definition RunStatusTerminal (s : RunStatus) : bool :=
  match s with
  | RunStatusSucceeded | RunStatusFailed | RunStatusCanceled => true
  | _ => false
  end.

Definition TerminalRunStatuses : list RunStatus :=
  [RunStatusSucceeded; RunStatusFailed; RunStatusCanceled].

Definition NodeRunStatusTerminal (s : NodeRunStatus) : bool :=
  match s with
  | NodeRunStatusSucceeded | NodeRunStatusFailed | NodeRunStatusCanceled
  | NodeRunStatusBlocked => true
  | _ => false
  end.

Definition ValidRunStatusTransition (from to : RunStatus) : bool :=
  match from with
  | RunStatusPending =>
      (to == RunStatusRunning) || (to == RunStatusFailed) || (to == RunStatusCanceled)
  | RunStatusRunning =>
      (to == RunStatusSucceeded) || (to == RunStatusFailed) || (to == RunStatusCanceled)
      || (to == RunStatusFailing) || (to == RunStatusCanceling)
  | RunStatusFailing => to == RunStatusFailed
  | RunStatusCanceling => to == RunStatusCanceled
  | _ => false
  end.

Definition ValidNodeRunTransition (from to : NodeRunStatus) : bool :=
  match from with
  | NodeRunStatusPending =>
      (to == NodeRunStatusRunning) || (to == NodeRunStatusBlocked)
      || (to == NodeRunStatusFailed) || (to == NodeRunStatusCanceled)
      || (to == NodeRunStatusWaiting)
  | NodeRunStatusRunning =>
      (to == NodeRunStatusSucceeded) || (to == NodeRunStatusFailed)
      || (to == NodeRunStatusCanceled) || (to == NodeRunStatusRetryWait)
      || (to == NodeRunStatusWaiting)
  | NodeRunStatusRetryWait =>
      (to == NodeRunStatusRunning) || (to == NodeRunStatusFailed) || (to == NodeRunStatusCanceled)
  | NodeRunStatusWaiting =>
      (to == NodeRunStatusSucceeded) || (to == NodeRunStatusRunning)
      || (to == NodeRunStatusFailed) || (to == NodeRunStatusCanceled)
  | _ => false
  end.

(** ** Failure classes *)

Inductive FailureClass : Type :=
| FailureNode | FailureOutputSchema | FailureNodeTimeout | FailureAdmission
| FailureRequestDeclined | FailureRequestExpired | FailureRunDeadline | FailureUnclassified.

#[export] Instance FailureClass_eq_dec : EqDecision FailureClass.
Proof. solve_decision. Defined.

Definition FailureClass_string (c : FailureClass) : string :=
  match c with
  | FailureNode => "node_failed"
  | FailureOutputSchema => "output_schema"
  | FailureNodeTimeout => "node_timeout"
  | FailureAdmission => "admission"
  | FailureRequestDeclined => "request_declined"
  | FailureRequestExpired => "request_expired"
  | FailureRunDeadline => "run_deadline"
  | FailureUnclassified => "unclassified"
  end.

Definition FailureClasses : list FailureClass :=
  [FailureNode; FailureOutputSchema; FailureNodeTimeout; FailureAdmission;
   FailureRequestDeclined; FailureRequestExpired; FailureRunDeadline; FailureUnclassified].

Definition NormalizeFailureClass (s : string) : FailureClass :=
  match take_where (λ c, FailureClass_string c == s) FailureClasses with
  | Some c => c
  | None => FailureUnclassified
  end.

(** ** Requests *)

Inductive RequestKind : Type := RequestKindInput | RequestKindQuestion.

#[export] Instance RequestKind_eq_dec : EqDecision RequestKind.
Proof. solve_decision. Defined.

Inductive RequestStatus : Type :=
| RequestStatusPending | RequestStatusAnswered | RequestStatusDeclined
| RequestStatusExpired | RequestStatusCanceled.

#[export] Instance RequestStatus_eq_dec : EqDecision RequestStatus.
Proof. solve_decision. Defined.

(** The stored columns of a request; the workflow and node ids a read adds are
    joined in by the store. *)
Record Request : Type := mkRequest {
  Req_ID : string;
  Req_WorkflowRunID : string;
  Req_Key : string;
  Req_NodeRunID : string;
  Req_Kind : RequestKind;
  Req_Prompt : string;
  Req_Questions : option json;
  Req_ResponseSchema : option json;
  Req_TaskRunID : option string;
  Req_Status : RequestStatus;
  Req_ExpiresAt : option Z;
  Req_Response : option json;
  Req_RespondedBy : option string;
  Req_RespondedAt : option Z;
  Req_CreatedAt : Z
}.
#[export] Instance Request_updatable : Updatable Request := λ r,
  mkRequest (Req_ID r) (Req_WorkflowRunID r) (Req_Key r) (Req_NodeRunID r) (Req_Kind r)
    (Req_Prompt r) (Req_Questions r) (Req_ResponseSchema r) (Req_TaskRunID r) (Req_Status r)
    (Req_ExpiresAt r) (Req_Response r) (Req_RespondedBy r) (Req_RespondedAt r)
    (Req_CreatedAt r).

Record OpenRequestInput : Type := mkOpenRequestInput {
  ORI_WorkflowRunID : string;
  ORI_NodeRunID : string;
  ORI_NodeExpected : NodeRunStatus;
  ORI_Key : string;
  ORI_Kind : RequestKind;
  ORI_Prompt : string;
  ORI_Questions : option json;
  ORI_ResponseSchema : option json;
  ORI_TaskRunID : option string;
  ORI_ExpiresAt : option Z;
  ORI_ResolvedInput : option string;
  ORI_Now : Z
}.
#[export] Instance OpenRequestInput_updatable : Updatable OpenRequestInput := λ r,
  mkOpenRequestInput (ORI_WorkflowRunID r) (ORI_NodeRunID r) (ORI_NodeExpected r) (ORI_Key r) (ORI_Kind r)
    (ORI_Prompt r) (ORI_Questions r) (ORI_ResponseSchema r) (ORI_TaskRunID r)
    (ORI_ExpiresAt r) (ORI_ResolvedInput r) (ORI_Now r).

Record ResolveRequestInput : Type := mkResolveRequestInput {
  RRI_RequestID : string;
  RRI_Status : RequestStatus;
  RRI_Response : option json;
  RRI_RespondedBy : option string;
  RRI_Now : Z
}.
#[export] Instance ResolveRequestInput_updatable : Updatable ResolveRequestInput := λ r,
  mkResolveRequestInput (RRI_RequestID r) (RRI_Status r) (RRI_Response r) (RRI_RespondedBy r) (RRI_Now r).

(** ** Retry backoff and deadlines *)

(** The loop [for i := 1; i < attempt && d < ceiling; i++ { d *= 2 }] of
    [RetryBackoff], with [n] iterations of the counter left. *)
Fixpoint backoff_loop (n : nat) (d ceiling : Z) : Z :=
  match n with
  | O => d
  | S n' => if (d <? ceiling)%Z then backoff_loop n' (d * 2)%Z ceiling else d
  end.

Definition RetryBackoff (attempt : Z) : Z :=
  let base := (30 * second)%Z in
  let ceiling := (10 * minute)%Z in
  Z.min (backoff_loop (Z.to_nat (attempt - 1)) base ceiling) ceiling.

Definition Deadline (start timeoutSeconds : Z) : option Z :=
  if (timeoutSeconds <=? 0)%Z then None
  else Some (start + timeoutSeconds * second)%Z.

(** ** Definitions *)

Record StepBinding : Type := mkStepBinding {
  SB_Name : string;
  SB_Source : string;
  SB_Pointer : string
}.
#[export] Instance StepBinding_updatable : Updatable StepBinding := λ r,
  mkStepBinding (SB_Name r) (SB_Source r) (SB_Pointer r).

Record DefinitionPolicy : Type := mkDefinitionPolicy {
  DP_MaxParallelNodes : Z;
  DP_TimeoutSeconds : Z
}.
#[export] Instance DefinitionPolicy_updatable : Updatable DefinitionPolicy := λ r,
  mkDefinitionPolicy (DP_MaxParallelNodes r) (DP_TimeoutSeconds r).

Record NodePolicy : Type := mkNodePolicy {
  NP_TimeoutSeconds : Z;
  NP_MaxAttempts : Z
}.
#[export] Instance NodePolicy_updatable : Updatable NodePolicy := λ r,
  mkNodePolicy (NP_TimeoutSeconds r) (NP_MaxAttempts r).

Record ResultSelector : Type := mkResultSelector {
  RS_Source : string;
  RS_Pointer : string
}.
#[export] Instance ResultSelector_updatable : Updatable ResultSelector := λ r,
  mkResultSelector (RS_Source r) (RS_Pointer r).

Record NodeAgent : Type := mkNodeAgent {
  NA_ID : string;
  NA_Revision : Z
}.
#[export] Instance NodeAgent_updatable : Updatable NodeAgent := λ r,
  mkNodeAgent (NA_ID r) (NA_Revision r).

Record NodeInput : Type := mkNodeInput {
  NI_Instruction : string;
  NI_Bindings : list StepBinding
}.
#[export] Instance NodeInput_updatable : Updatable NodeInput := λ r,
  mkNodeInput (NI_Instruction r) (NI_Bindings r).

Record DefinitionNode : Type := mkDefinitionNode {
  DN_ID : string;
  DN_Type : string;
  DN_Needs : list string;
  DN_Agent : NodeAgent;
  DN_Input : NodeInput;
  DN_IssueAccess : string;
  DN_OutputSchema : option json;
  DN_Policy : option NodePolicy
}.
#[export] Instance DefinitionNode_updatable : Updatable DefinitionNode := λ r,
  mkDefinitionNode (DN_ID r) (DN_Type r) (DN_Needs r) (DN_Agent r) (DN_Input r) (DN_IssueAccess r)
    (DN_OutputSchema r) (DN_Policy r).

Record Definition_ : Type := mkDefinition_ {
  Def_SchemaVersion : Z;
  Def_InputSchema : option json;
  Def_Policy : option DefinitionPolicy;
  Def_Nodes : list DefinitionNode;
  Def_Result : option ResultSelector
}.
#[export] Instance Definition__updatable : Updatable Definition_ := λ r,
  mkDefinition_ (Def_SchemaVersion r) (Def_InputSchema r) (Def_Policy r) (Def_Nodes r) (Def_Result r).

Definition MaxParallelNodes (d : Definition_) : Z :=
  match Def_Policy d with
  | Some p => if (0 <? DP_MaxParallelNodes p)%Z then DP_MaxParallelNodes p
              else MaxParallelNodesCeiling
  | None => MaxParallelNodesCeiling
  end.

Definition MaxAttempts (n : DefinitionNode) : Z :=
  match DN_Policy n with
  | Some p => if (0 <? NP_MaxAttempts p)%Z then NP_MaxAttempts p else 1
  | None => 1
  end.

Definition TimeoutSeconds (n : DefinitionNode) : Z :=
  match DN_Policy n with
  | Some p => NP_TimeoutSeconds p
  | None => 0
  end.

Definition IssueAccessNone : string := "none".
Definition IssueAccessIfBound : string := "if_bound".
Definition IssueAccessRequired : string := "required".

Definition ValidIssueAccess (s : string) : bool :=
  (s == IssueAccessNone) || (s == IssueAccessIfBound) || (s == IssueAccessRequired).

(** ** Sources and keys *)

Definition BindingSourceWorkflowInput : string := "workflow.input".

Definition NodeOutputSource (nodeID : string) : string := "node." ++ nodeID ++ ".output".

Definition TaskAdmissionKey (workflowRunID nodeID : string) : string :=
  "workflow/" ++ workflowRunID ++ "/node/" ++ nodeID.

Definition TaskRunAdmissionKey (workflowRunID nodeID : string) (attempt : Z) : string :=
  TaskAdmissionKey workflowRunID nodeID ++ "/attempt/" ++ pretty attempt.

(** Slicing as in [source[:n]], [source[len(source)-n:]]. *)
Definition ParseNodeOutputSource (source : string) : option string :=
  let prefix := "node." in
  let suffix := ".output" in
  let n := String.length source in
  if (n <=? String.length prefix + String.length suffix)%nat then None
  else if (substring 0 (String.length prefix) source != prefix)
          || (substring (n - String.length suffix) (String.length suffix) source != suffix)
  then None
  else Some (substring (String.length prefix)
               (n - String.length suffix - String.length prefix) source).

(** ** Runs and node runs *)

Record Workflow : Type := mkWorkflow {
  Wf_ID : string;
  Wf_SpaceID : string;
  Wf_Name : string;
  Wf_Description : string;
  Wf_Definition : string;
  Wf_Status : Status;
  Wf_Revision : Z;
  Wf_CreatedBy : string;
  Wf_CreatedAt : Z;
  Wf_UpdatedAt : Z
}.
#[export] Instance Workflow_updatable : Updatable Workflow := λ r,
  mkWorkflow (Wf_ID r) (Wf_SpaceID r) (Wf_Name r) (Wf_Description r) (Wf_Definition r) (Wf_Status r)
    (Wf_Revision r) (Wf_CreatedBy r) (Wf_CreatedAt r) (Wf_UpdatedAt r).

Record Revision : Type := mkRevision {
  Rev_WorkflowID : string;
  Rev_Revision : Z;
  Rev_Name : string;
  Rev_Description : string;
  Rev_Definition : string;
  Rev_Status : Status;
  Rev_CreatedBy : string;
  Rev_CreatedAt : Z
}.
#[export] Instance Revision_updatable : Updatable Revision := λ r,
  mkRevision (Rev_WorkflowID r) (Rev_Revision r) (Rev_Name r) (Rev_Description r) (Rev_Definition r)
    (Rev_Status r) (Rev_CreatedBy r) (Rev_CreatedAt r).

Record Run : Type := mkRun {
  Run_ID : string;
  Run_WorkflowID : string;
  Run_WorkflowRevision : Z;
  Run_IssueID : option string;
  Run_ScheduleID : option string;
  Run_ConversationID : option string;
  Run_RequestedBy : string;
  Run_AssistantID : string;
  Run_AssistantRevision : Z;
  Run_ReportStatus_ : ReportStatus;
  Run_Input : option json;
  Run_Status : RunStatus;
  Run_CreatedBy : string;
  Run_Result : option json;
  Run_CreatedAt : Z;
  Run_StartedAt : option Z;
  Run_EndedAt : option Z;
  Run_ErrorMessage : option string;
  Run_FailureClass_ : option FailureClass;
  Run_DeadlineAt : option Z;
  Run_ReconcileOwner : option string;
  Run_LeaseExpiresAt : option Z;
  Run_NextReconcileAt : option Z
}.
#[export] Instance Run_updatable : Updatable Run := λ r,
  mkRun (Run_ID r) (Run_WorkflowID r) (Run_WorkflowRevision r) (Run_IssueID r)
    (Run_ScheduleID r) (Run_ConversationID r) (Run_RequestedBy r) (Run_AssistantID r)
    (Run_AssistantRevision r) (Run_ReportStatus_ r) (Run_Input r) (Run_Status r)
    (Run_CreatedBy r) (Run_Result r) (Run_CreatedAt r) (Run_StartedAt r) (Run_EndedAt r)
    (Run_ErrorMessage r) (Run_FailureClass_ r) (Run_DeadlineAt r) (Run_ReconcileOwner r)
    (Run_LeaseExpiresAt r) (Run_NextReconcileAt r).

#[export] Instance Run_eq_dec : EqDecision Run.
Proof. solve_decision. Defined.

Record NodeRun : Type := mkNodeRun {
  NR_ID : string;
  NR_WorkflowRunID : string;
  NR_NodeID : string;
  NR_NodeIndex : Z;
  NR_NodeType : string;
  NR_Needs : list string;
  NR_IssueAccess : string;
  NR_TargetAgentID : option string;
  NR_AgentName : string;
  NR_AgentDescription : string;
  NR_AgentInstructions : string;
  NR_AgentRevision : Z;
  NR_Prompt : string;
  NR_Bindings : list StepBinding;
  NR_OutputSchema : option json;
  NR_MaxAttempts : Z;
  NR_TimeoutSeconds : Z;
  NR_Attempt : Z;
  NR_DeadlineAt : option Z;
  NR_NextAttemptAt : option Z;
  NR_Status : NodeRunStatus;
  NR_TaskID : option string;
  NR_TaskRunID : option string;
  NR_ResolvedInput : option string;
  NR_Output : option string;
  NR_Structured : option json;
  NR_ErrorMessage : option string;
  NR_CreatedAt : Z;
  NR_StartedAt : option Z;
  NR_EndedAt : option Z
}.
#[export] Instance NodeRun_updatable : Updatable NodeRun := λ r,
  mkNodeRun (NR_ID r) (NR_WorkflowRunID r) (NR_NodeID r) (NR_NodeIndex r) (NR_NodeType r)
    (NR_Needs r) (NR_IssueAccess r) (NR_TargetAgentID r) (NR_AgentName r)
    (NR_AgentDescription r) (NR_AgentInstructions r) (NR_AgentRevision r) (NR_Prompt r)
    (NR_Bindings r) (NR_OutputSchema r) (NR_MaxAttempts r) (NR_TimeoutSeconds r)
    (NR_Attempt r) (NR_DeadlineAt r) (NR_NextAttemptAt r) (NR_Status r) (NR_TaskID r)
    (NR_TaskRunID r) (NR_ResolvedInput r) (NR_Output r) (NR_Structured r)
    (NR_ErrorMessage r) (NR_CreatedAt r) (NR_StartedAt r) (NR_EndedAt r).

(** ** Store inputs *)

Record UpdateInput : Type := mkUpdateInput {
  UpI_Name : option string;
  UpI_Description : option string;
  UpI_Definition : option string;
  UpI_Status : option Status;
  UpI_ExpectedRevision : Z;
  UpI_UpdatedBy : string
}.
#[export] Instance UpdateInput_updatable : Updatable UpdateInput := λ r,
  mkUpdateInput (UpI_Name r) (UpI_Description r) (UpI_Definition r) (UpI_Status r)
    (UpI_ExpectedRevision r) (UpI_UpdatedBy r).

Record CreateNodeRunInput : Type := mkCreateNodeRunInput {
  CNI_NodeID : string;
  CNI_NodeIndex : Z;
  CNI_NodeType : string;
  CNI_Needs : list string;
  CNI_IssueAccess : string;
  CNI_TargetAgentID : option string;
  CNI_AgentName : string;
  CNI_AgentDescription : string;
  CNI_AgentInstructions : string;
  CNI_AgentRevision : Z;
  CNI_Prompt : string;
  CNI_Bindings : list StepBinding;
  CNI_OutputSchema : option json;
  CNI_MaxAttempts : Z;
  CNI_TimeoutSeconds : Z;
  CNI_Status : NodeRunStatus
}.
#[export] Instance CreateNodeRunInput_updatable : Updatable CreateNodeRunInput := λ r,
  mkCreateNodeRunInput (CNI_NodeID r) (CNI_NodeIndex r) (CNI_NodeType r) (CNI_Needs r) (CNI_IssueAccess r)
    (CNI_TargetAgentID r) (CNI_AgentName r) (CNI_AgentDescription r)
    (CNI_AgentInstructions r) (CNI_AgentRevision r) (CNI_Prompt r) (CNI_Bindings r)
    (CNI_OutputSchema r) (CNI_MaxAttempts r) (CNI_TimeoutSeconds r) (CNI_Status r).

Record CreateRunInput : Type := mkCreateRunInput {
  CRunI_WorkflowID : string;
  CRunI_WorkflowRevision : Z;
  CRunI_IssueID : option string;
  CRunI_ScheduleID : option string;
  CRunI_ConversationID : option string;
  CRunI_RequestedBy : string;
  CRunI_AssistantID : string;
  CRunI_AssistantRevision : Z;
  CRunI_ReportStatus_ : ReportStatus;
  CRunI_Input : option json;
  CRunI_Status : RunStatus;
  CRunI_CreatedBy : string;
  CRunI_StartedAt : option Z;
  CRunI_DeadlineAt : option Z
}.
#[export] Instance CreateRunInput_updatable : Updatable CreateRunInput := λ r,
  mkCreateRunInput (CRunI_WorkflowID r) (CRunI_WorkflowRevision r) (CRunI_IssueID r) (CRunI_ScheduleID r)
    (CRunI_ConversationID r) (CRunI_RequestedBy r) (CRunI_AssistantID r)
    (CRunI_AssistantRevision r) (CRunI_ReportStatus_ r) (CRunI_Input r) (CRunI_Status r)
    (CRunI_CreatedBy r) (CRunI_StartedAt r) (CRunI_DeadlineAt r).

Record TransitionRunInput : Type := mkTransitionRunInput {
  TR_WorkflowRunID : string;
  TR_ExpectedStatus : RunStatus;
  TR_NewStatus : RunStatus;
  TR_StartedAt : option Z;
  TR_EndedAt : option Z;
  TR_ErrorMessage : option string;
  TR_Result : option json
}.
#[export] Instance TransitionRunInput_updatable : Updatable TransitionRunInput := λ r,
  mkTransitionRunInput (TR_WorkflowRunID r) (TR_ExpectedStatus r) (TR_NewStatus r) (TR_StartedAt r)
    (TR_EndedAt r) (TR_ErrorMessage r) (TR_Result r).

(** [Structured] points at JSON text; [Some None] points at the empty text,
    which clears the column. *)
Record TransitionNodeRunInput : Type := mkTransitionNodeRunInput {
  TN_NodeRunID : string;
  TN_ExpectedStatus : NodeRunStatus;
  TN_NewStatus : NodeRunStatus;
  TN_TaskID : option string;
  TN_TaskRunID : option string;
  TN_ResolvedInput : option string;
  TN_Output : option string;
  TN_Structured : option (option json);
  TN_ErrorMessage : option string;
  TN_StartedAt : option Z;
  TN_EndedAt : option Z;
  TN_Attempt : option Z;
  TN_DeadlineAt : option Z;
  TN_NextAttemptAt : option Z
}.
#[export] Instance TransitionNodeRunInput_updatable : Updatable TransitionNodeRunInput := λ r,
  mkTransitionNodeRunInput (TN_NodeRunID r) (TN_ExpectedStatus r) (TN_NewStatus r) (TN_TaskID r) (TN_TaskRunID r)
    (TN_ResolvedInput r) (TN_Output r) (TN_Structured r) (TN_ErrorMessage r)
    (TN_StartedAt r) (TN_EndedAt r) (TN_Attempt r) (TN_DeadlineAt r) (TN_NextAttemptAt r).

Record StopRunInput : Type := mkStopRunInput {
  SRI_WorkflowRunID : string;
  SRI_RunExpected : RunStatus;
  SRI_RunStatus_ : RunStatus;
  SRI_ErrorMessage : option string;
  SRI_FailureClass_ : option FailureClass
}.
#[export] Instance StopRunInput_updatable : Updatable StopRunInput := λ r,
  mkStopRunInput (SRI_WorkflowRunID r) (SRI_RunExpected r) (SRI_RunStatus_ r) (SRI_ErrorMessage r)
    (SRI_FailureClass_ r).

Record BeginRunDrainInput : Type := mkBeginRunDrainInput {
  BD_WorkflowRunID : string;
  BD_NodeRunID : string;
  BD_NodeExpected : NodeRunStatus;
  BD_NodeStatus : NodeRunStatus;
  BD_RunExpected : RunStatus;
  BD_RunStatus_ : RunStatus;
  BD_TaskRunID : option string;
  BD_Output : option string;
  BD_Structured : option json;
  BD_ErrorMessage : option string;
  BD_FailureClass_ : option FailureClass;
  BD_StartedAt : option Z;
  BD_EndedAt : option Z
}.
#[export] Instance BeginRunDrainInput_updatable : Updatable BeginRunDrainInput := λ r,
  mkBeginRunDrainInput (BD_WorkflowRunID r) (BD_NodeRunID r) (BD_NodeExpected r) (BD_NodeStatus r)
    (BD_RunExpected r) (BD_RunStatus_ r) (BD_TaskRunID r) (BD_Output r) (BD_Structured r)
    (BD_ErrorMessage r) (BD_FailureClass_ r) (BD_StartedAt r) (BD_EndedAt r).

Record ClaimLeaseInput : Type := mkClaimLeaseInput {
  CL_WorkflowRunID : string;
  CL_Owner : string;
  CL_Now : Z;
  CL_LeaseExpiresAt : Z
}.
#[export] Instance ClaimLeaseInput_updatable : Updatable ClaimLeaseInput := λ r,
  mkClaimLeaseInput (CL_WorkflowRunID r) (CL_Owner r) (CL_Now r) (CL_LeaseExpiresAt r).

Record RenewLeaseInput : Type := mkRenewLeaseInput {
  RL_WorkflowRunID : string;
  RL_Owner : string;
  RL_LeaseExpiresAt : Z
}.
#[export] Instance RenewLeaseInput_updatable : Updatable RenewLeaseInput := λ r,
  mkRenewLeaseInput (RL_WorkflowRunID r) (RL_Owner r) (RL_LeaseExpiresAt r).

Record ReleaseLeaseInput : Type := mkReleaseLeaseInput {
  RelL_WorkflowRunID : string;
  RelL_Owner : string;
  RelL_NextReconcileAt : option Z
}.
#[export] Instance ReleaseLeaseInput_updatable : Updatable ReleaseLeaseInput := λ r,
  mkReleaseLeaseInput (RelL_WorkflowRunID r) (RelL_Owner r) (RelL_NextReconcileAt r).

End coreworkflow.

(** ** Lifecycle facts shared by the store and the reconciler *)

Lemma run_transition_from_live from to :
  coreworkflow.ValidRunStatusTransition from to = true →
  coreworkflow.RunStatusTerminal from = false ∧ from ≠ to.
Proof. by destruct from, to. Qed.

Lemma node_transition_from_live from to :
  coreworkflow.ValidNodeRunTransition from to = true →
  coreworkflow.NodeRunStatusTerminal from = false ∧ from ≠ to.
Proof. by destruct from, to. Qed.

#[export] Hint Resolve run_transition_from_live node_transition_from_live : bm.

(** ** Retry backoff *)

Lemma backoff_loop_closed n d c :
  (0 < d)%Z → (d <= c)%Z →
  Z.min (coreworkflow.backoff_loop n d c) c = Z.min (d * 2 ^ Z.of_nat n) c.
Proof.
  revert d. induction n as [|n IH]; intros d Hd Hc; cbn [coreworkflow.backoff_loop].
  - by rewrite Z.pow_0_r, Z.mul_1_r.
  - assert (1 <= 2 ^ Z.of_nat n)%Z by (apply (Z.pow_le_mono_r 2 0); lia).
    rewrite Nat2Z.inj_succ, Z.pow_succ_r by lia.
    destruct (Z.ltb_spec d c) as [Hlt|]; [|nia].
    destruct (Z.le_gt_cases (d * 2) c) as [Hle|Hgt]; [rewrite IH by lia; f_equal; lia|].
    destruct n as [|n]; cbn [coreworkflow.backoff_loop]; [lia|].
    rewrite (proj2 (Z.ltb_ge (d * 2) c)) by lia. nia.
Qed.

(** The wait before the next attempt is 30 s doubled for every attempt
    already made, capped at ten minutes; an attempt number below one waits the
    base 30 s.  It never shrinks as attempts grow. *)
Theorem RetryBackoff_exponential (attempt : Z) :
  coreworkflow.RetryBackoff attempt =
    Z.min (30 * second * 2 ^ Z.max 0 (attempt - 1)) (10 * minute) ∧
  (coreworkflow.RetryBackoff attempt <= coreworkflow.RetryBackoff (attempt + 1))%Z.
Proof.
  assert (∀ a, coreworkflow.RetryBackoff a =
    Z.min (30 * second * 2 ^ Z.max 0 (a - 1)) (10 * minute)) as Hclosed.
  { intros a. unfold coreworkflow.RetryBackoff.
    rewrite backoff_loop_closed by (unfold minute, second; lia).
    f_equal. f_equal. f_equal. lia. }
  split; [apply Hclosed|]. rewrite !Hclosed. apply Z.min_le_compat_r.
  apply Z.mul_le_mono_nonneg_l; [unfold second; lia|]. apply Z.pow_le_mono_r; lia.
Qed.

(** ** Binding sources *)

Lemma substring_app_l s t : substring 0 (String.length s) (s ++ t) = s.
Proof. induction s as [|c s IH]; cbn; [by destruct t|]. by rewrite IH. Qed.

Lemma substring_app_r n s t : substring (String.length s) n (s ++ t) = substring 0 n t.
Proof. induction s as [|c s IH]; cbn; [done|]. exact IH. Qed.

Lemma substring_full s : substring 0 (String.length s) s = s.
Proof. induction s as [|c s IH]; cbn; [done|]. by rewrite IH. Qed.

Lemma string_length_app s t : String.length (s ++ t) = (String.length s + String.length t)%nat.
Proof. induction s as [|c s IH]; cbn; [done|]. by rewrite IH. Qed.

Lemma substring_split m s :
  (m <= String.length s)%nat →
  s = substring 0 m s ++ substring m (String.length s - m) s.
Proof.
  revert s. induction m as [|m IH]; intros s Hm.
  - rewrite Nat.sub_0_r, substring_full. by destruct s.
  - destruct s as [|c s]; cbn in *; [lia|]. f_equal. apply IH. lia.
Qed.

Lemma substring_split3 a b s :
  (a + b <= String.length s)%nat →
  s = substring 0 a s ++ substring a (String.length s - b - a) s
        ++ substring (String.length s - b) b s.
Proof.
  intros H. rewrite (substring_split a s) at 1 by lia. f_equal.
  assert (∀ k i t, (i + k <= String.length t)%nat →
    substring i (String.length t - i) t
    = substring i k t ++ substring (i + k) (String.length t - (i + k)) t) as Hcut.
  { clear. intros k i t. revert i. induction t as [|c t IH]; intros i Ht.
    - destruct i, k; cbn in *; try lia; done.
    - destruct i as [|i].
      + cbn [Nat.add] in *. rewrite Nat.sub_0_r, substring_full.
        by apply substring_split.
      + cbn in *. apply IH. lia. }
  rewrite (Hcut (String.length s - b - a)%nat a s) by lia.
  do 2 f_equal; lia.
Qed.

Lemma ParseNodeOutputSource_iff (source id : string) :
  coreworkflow.ParseNodeOutputSource source = Some id ↔
    id ≠ "" ∧ source = coreworkflow.NodeOutputSource id.
Proof.
  unfold coreworkflow.ParseNodeOutputSource, coreworkflow.NodeOutputSource.
  change (String.length "node.") with 5%nat. change (String.length ".output") with 7%nat.
  split.
  - destruct (Nat.leb_spec (String.length source) (5 + 7)) as [|Hlen]; [done|].
    destruct (bool_decide_reflect (substring 0 5 source = "node.")) as [Hpre|]; [cbn [negb orb]|done].
    destruct (bool_decide_reflect (substring (String.length source - 7) 7 source = ".output"))
      as [Hsuf|]; [cbn [negb]|done].
    intros [= <-].
    pose proof (substring_split3 5 7 source ltac:(lia)) as Hs. rewrite Hpre, Hsuf in Hs.
    split; [|exact Hs]. intros E. rewrite E in Hs.
    apply (f_equal String.length) in Hs. cbn in Hs. lia.
  - intros [Hid ->].
    assert (String.length ("node." ++ id ++ ".output") = 5 + String.length id + 7)%nat as Hlen
      by (rewrite !string_length_app; cbn; lia).
    rewrite Hlen.
    assert (1 <= String.length id)%nat by (destruct id; cbn; [done|lia]).
    rewrite (proj2 (Nat.leb_gt _ _)) by lia.
    rewrite (substring_app_l "node.").
    replace (5 + String.length id + 7 - 7)%nat with (String.length ("node." ++ id))
      by (rewrite string_length_app; cbn; lia).
    change ("node." ++ id ++ ".output") with (("node." ++ id) ++ ".output").
    rewrite (substring_app_r 7 ("node." ++ id)).
    change (substring 0 7 ".output") with ".output".
    rewrite !bool_decide_eq_true_2 by done. cbn [negb orb].
    rewrite string_length_app. change (String.length "node.") with 5%nat.
    replace (5 + String.length id - 5)%nat with (String.length id) by lia.
    change (("node." ++ id) ++ ".output") with ("node." ++ (id ++ ".output")).
    rewrite (substring_app_r _ "node."). by rewrite substring_app_l.
Qed.

(** [ParseNodeOutputSource] and [NodeOutputSource] are inverse on non-empty
    node ids, dots in the id included, and no other source parses. *)
Theorem ParseNodeOutputSource_inverse (source id : string) :
  coreworkflow.ParseNodeOutputSource source = Some id ↔
    id ≠ "" ∧ source = coreworkflow.NodeOutputSource id.
Proof. apply ParseNodeOutputSource_iff. Qed.
