(* ===== verification/LedgerCore.v ===== *)
(** * LedgerCore: the records of managed model calls, quota tiers and audit events

    The data of internal/core/llmgateway (call.go, model.go),
    internal/core/quota and internal/core/audit, as their stores keep it.  A
    zero [time.Time] is 0. *)

From S2P Require Import Prelude.
Local Open Scope string_scope.
Local Open Scope Z_scope.

Module coregw.

(** ** Calls: call.go *)

Definition CallStatusAccepted : string := "ACCEPTED".
Definition CallStatusSucceeded : string := "SUCCEEDED".
Definition CallStatusFailed : string := "FAILED".
Definition CallStatusCanceled : string := "CANCELED".

Definition ErrorClassRunLost : string := "run_lost".

Definition UsageSourceReported : string := "reported".
Definition UsageSourceEstimated : string := "estimated".
Definition UsageSourceUnavailable : string := "unavailable".

Definition CallSurfaceServer : string := "server".
Definition CallSurfaceCLI : string := "cli".
Definition CallSurfaceDesktop : string := "desktop".
Definition CallSurfaceWorker : string := "worker".
Definition CallSurfaceConversation : string := "conversation".

Record Call : Type := mkCall {
  Cl_ID : string;
  Cl_ClientCallID : option string;
  Cl_UserID : option string;
  Cl_TaskRunID : option string;
  Cl_ConversationID : option string;
  Cl_Surface : string;
  Cl_SessionID : option string;
  Cl_TaskID : option string;
  Cl_Model : string;
  Cl_TargetID : string;
  Cl_ProviderType : string;
  Cl_UpstreamModel : string;
  Cl_Streaming : bool;
  Cl_AcceptedAt : Z;
  Cl_UpstreamStartedAt : option Z;
  Cl_FirstDeltaAt : option Z;
  Cl_CompletedAt : option Z;
  Cl_Status : string;
  Cl_ErrorClass : option string;
  Cl_Attempts : Z;
  Cl_PromptTokens : option Z;
  Cl_CompletionTokens : option Z;
  Cl_TotalTokens : option Z;
  Cl_CacheReadTokens : option Z;
  Cl_CacheWriteTokens : option Z;
  Cl_UsageSource : string;
  Cl_Currency : string;
  Cl_RateInputPerMTok : option Z;
  Cl_RateCacheReadPerMTok : option Z;
  Cl_RateCacheWritePerMTok : option Z;
  Cl_RateOutputPerMTok : option Z
}.
#[export] Instance Call_updatable : Updatable Call := λ r,
  mkCall (Cl_ID r) (Cl_ClientCallID r) (Cl_UserID r) (Cl_TaskRunID r) (Cl_ConversationID r) (Cl_Surface r)
    (Cl_SessionID r) (Cl_TaskID r) (Cl_Model r) (Cl_TargetID r) (Cl_ProviderType r) (Cl_UpstreamModel r)
    (Cl_Streaming r) (Cl_AcceptedAt r) (Cl_UpstreamStartedAt r) (Cl_FirstDeltaAt r) (Cl_CompletedAt r)
    (Cl_Status r) (Cl_ErrorClass r) (Cl_Attempts r) (Cl_PromptTokens r) (Cl_CompletionTokens r)
    (Cl_TotalTokens r) (Cl_CacheReadTokens r) (Cl_CacheWriteTokens r) (Cl_UsageSource r) (Cl_Currency r)
    (Cl_RateInputPerMTok r) (Cl_RateCacheReadPerMTok r) (Cl_RateCacheWritePerMTok r)
    (Cl_RateOutputPerMTok r).

Record CallUsage : Type := mkCallUsage {
  CU_PromptTokens : Z;
  CU_CompletionTokens : Z;
  CU_TotalTokens : Z;
  CU_CacheReadTokens : Z;
  CU_CacheWriteTokens : Z;
  CU_Source : string
}.

Record CallOutcome : Type := mkCallOutcome {
  Out_Status : string;
  Out_ErrorClass : option string;
  Out_Attempts : Z;
  Out_UpstreamStartedAt : option Z;
  Out_FirstDeltaAt : option Z;
  Out_CompletedAt : Z;
  Out_Usage : option CallUsage
}.

Record CallFilter : Type := mkCallFilter {
  Flt_UserID : string;
  Flt_Model : string;
  Flt_Status : string;
  Flt_Surface : string;
  Flt_Since : Z;
  Flt_Until : Z
}.

Record CallTotals : Type := mkCallTotals {
  Tot_Calls : Z;
  Tot_PromptTokens : Z;
  Tot_CompletionTokens : Z;
  Tot_TotalTokens : Z;
  Tot_CacheReadTokens : Z;
  Tot_CacheWriteTokens : Z;
  Tot_Currency : string;
  Tot_RateInputPerMTok : Z;
  Tot_RateCacheReadPerMTok : Z;
  Tot_RateCacheWritePerMTok : Z;
  Tot_RateOutputPerMTok : Z
}.

(** ** The model catalog: model.go *)

Record Model : Type := mkModel {
  Mod_ID : string;
  Mod_Name : string;
  Mod_ProviderType : string;
  Mod_APIURL : string;
  Mod_Model : string;
  Mod_ContextWindow : Z;
  Mod_CallTimeout : Z;
  Mod_MaxTokens : Z;
  Mod_Reasoning : string;
  Mod_CacheMode : string;
  Mod_CacheTTL : string;
  Mod_Currency : string;
  Mod_InputPerMTok : Z;
  Mod_CacheReadPerMTok : Z;
  Mod_CacheWritePerMTok : Z;
  Mod_OutputPerMTok : Z;
  Mod_Vision : bool;
  Mod_Capabilities : list string;
  Mod_Enabled : bool;
  Mod_CreatedAt : Z;
  Mod_UpdatedAt : Z
}.
#[export] Instance Model_updatable : Updatable Model := λ r,
  mkModel (Mod_ID r) (Mod_Name r) (Mod_ProviderType r) (Mod_APIURL r) (Mod_Model r) (Mod_ContextWindow r)
    (Mod_CallTimeout r) (Mod_MaxTokens r) (Mod_Reasoning r) (Mod_CacheMode r) (Mod_CacheTTL r)
    (Mod_Currency r) (Mod_InputPerMTok r) (Mod_CacheReadPerMTok r) (Mod_CacheWritePerMTok r)
    (Mod_OutputPerMTok r) (Mod_Vision r) (Mod_Capabilities r) (Mod_Enabled r) (Mod_CreatedAt r)
    (Mod_UpdatedAt r).

Record CreateModelInput : Type := mkCreateModelInput {
  CM_Name : string;
  CM_ProviderType : string;
  CM_APIURL : string;
  CM_APIKey : string;
  CM_Model : string;
  CM_ContextWindow : Z;
  CM_CallTimeout : Z;
  CM_MaxTokens : Z;
  CM_Reasoning : string;
  CM_CacheMode : string;
  CM_CacheTTL : string;
  CM_Vision : bool;
  CM_Currency : string;
  CM_InputPerMTok : Z;
  CM_CacheReadPerMTok : Z;
  CM_CacheWritePerMTok : Z;
  CM_OutputPerMTok : Z;
  CM_Capabilities : list string
}.
#[export] Instance CreateModelInput_updatable : Updatable CreateModelInput := λ r,
  mkCreateModelInput (CM_Name r) (CM_ProviderType r) (CM_APIURL r) (CM_APIKey r) (CM_Model r)
    (CM_ContextWindow r) (CM_CallTimeout r) (CM_MaxTokens r) (CM_Reasoning r) (CM_CacheMode r)
    (CM_CacheTTL r) (CM_Vision r) (CM_Currency r) (CM_InputPerMTok r) (CM_CacheReadPerMTok r)
    (CM_CacheWritePerMTok r) (CM_OutputPerMTok r) (CM_Capabilities r).

End coregw.

Module corequota.

(** ** internal/core/quota *)

Record Tier : Type := mkTier {
  Tier_TierName : string;
  Tier_MaxRunsPerPeriod : Z;
  Tier_MaxTokensPerPeriod : Z;
  Tier_MaxStorageBytes : Z;
  Tier_PeriodDays : Z
}.
#[export] Instance Tier_updatable : Updatable Tier := λ r,
  mkTier (Tier_TierName r) (Tier_MaxRunsPerPeriod r) (Tier_MaxTokensPerPeriod r) (Tier_MaxStorageBytes r)
    (Tier_PeriodDays r).

Inductive Limit : Type := LimitRuns | LimitTokens | LimitStorage.

#[export] Instance Limit_eq_dec : EqDecision Limit.
Proof. solve_decision. Defined.

(** The text of a [Limit]. *)
Definition limit_name (l : Limit) : string :=
  match l with LimitRuns => "runs" | LimitTokens => "tokens" | LimitStorage => "storage" end.

Record Refusal : Type := mkRefusal {
  Ref_Limit : Limit;
  Ref_Max : Z;
  Ref_PeriodDays : Z
}.

Definition Reason (r : Refusal) : string :=
  if Ref_Limit r == LimitRuns then "quota exceeded: run limit" else "quota exceeded: token limit".

End corequota.

Module coreaudit.

(** ** internal/core/audit *)

Definition ActorUser : string := "user".
Definition ActorWorker : string := "worker".
Definition ActorSystem : string := "system".
Definition ActorOperator : string := "buildmax-server".

Definition EventsPruned : string := "audit.pruned".
Definition QuotaThresholdReached : string := "quota.threshold_reached".
Definition QuotaExceeded : string := "quota.exceeded".
Definition SpaceQuotaTierChanged : string := "space.quota_tier_changed".

Record Event : Type := mkEvent {
  Ev_ID : string;
  Ev_SpaceID : string;
  Ev_ActorType : string;
  Ev_ActorID : string;
  Ev_Action : string;
  Ev_TargetType : string;
  Ev_TargetID : string;
  Ev_TaskRunID : string;
  Ev_Detail : string;
  Ev_CreatedAt : Z
}.
#[export] Instance Event_updatable : Updatable Event := λ r,
  mkEvent (Ev_ID r) (Ev_SpaceID r) (Ev_ActorType r) (Ev_ActorID r) (Ev_Action r) (Ev_TargetType r)
    (Ev_TargetID r) (Ev_TaskRunID r) (Ev_Detail r) (Ev_CreatedAt r).

Record Filter : Type := mkFilter {
  AF_SpaceID : string;
  AF_WithoutSpace : bool;
  AF_ActorID : string;
  AF_Action : string;
  AF_TaskRunID : string;
  AF_Since : Z;
  AF_Until : Z
}.

Record Cursor : Type := mkCursor {
  Cur_CreatedAt : Z;
  Cur_ID : string
}.

(** [Cursor.Zero] *)
Definition Zero (c : Cursor) : bool := (Cur_CreatedAt c =? 0) && (Cur_ID c == "").

End coreaudit.

Module coreconv.
Local Open Scope string_scope.
Local Open Scope Z_scope.

(** ** Messages of a conversation: internal/core/conversation/conversation.go *)

Record Message : Type := mkMessage {
  CM_ID : string;
  CM_ConversationID : string;
  CM_Role : string;
  CM_Content : string;
  CM_Channel : option string;
  CM_ToolCallID : option string;
  CM_ToolCallsJSON : option string;
  CM_ProviderStateJSON : option string;
  CM_PartsJSON : option string;
  CM_AssistantRevision : Z;
  CM_CreatedAt : Z
}.
#[export] Instance Message_updatable : Updatable Message := λ r,
  mkMessage (CM_ID r) (CM_ConversationID r) (CM_Role r) (CM_Content r) (CM_Channel r) (CM_ToolCallID r)
    (CM_ToolCallsJSON r) (CM_ProviderStateJSON r) (CM_PartsJSON r) (CM_AssistantRevision r) (CM_CreatedAt r).

Record AppendInput : Type := mkAppendInput {
  AI_ConversationID : string;
  AI_Role : string;
  AI_Content : string;
  AI_Channel : option string;
  AI_ToolCallID : option string;
  AI_ToolCallsJSON : option string;
  AI_ProviderStateJSON : option string;
  AI_PartsJSON : option string;
  AI_AssistantRevision : Z;
  AI_Fence : Z
}.
#[export] Instance AppendInput_updatable : Updatable AppendInput := λ r,
  mkAppendInput (AI_ConversationID r) (AI_Role r) (AI_Content r) (AI_Channel r) (AI_ToolCallID r)
    (AI_ToolCallsJSON r) (AI_ProviderStateJSON r) (AI_PartsJSON r) (AI_AssistantRevision r) (AI_Fence r).

End coreconv.
