(* ===== verification/WorkflowGraph.v ===== *)
(** * WorkflowGraph: internal/core/workflow/graph.go

    The dependency graph of a definition's nodes: edge validation, Kahn's
    algorithm with definition-order tie breaking, and transitive predecessors. *)

From S2P Require Import Prelude Json WorkflowCore.
From stdpp Require Import gmap.
Import coreworkflow.

Module graph.

Inductive error : Type :=
| NeedsItself (id : string)
| NeedsUnknown (id dep : string)
| NeedsTwice (id dep : string)
| Cycle
| OutOfFuel.

Record Graph : Type := mkGraph {
  Graph_order : list string;
  Graph_preds : gmap string (gset string);
}.

(** A Go map read: the zero value where the key is absent. *)
Definition needs_of (m : gmap string (list string)) (id : string) : list string := default [] (m !! id).
Definition int_of (m : gmap string Z) (id : string) : Z := default 0%Z (m !! id).
Definition preds_of (m : gmap string (gset string)) (id : string) : gset string := default ∅ (m !! id).

(** ** topoSort *)

Definition initial_indeg (needs : gmap string (list string)) (nodes : list DefinitionNode)
    : gmap string Z :=
  fold_left (λ m n, <[DN_ID n := Z.of_nat (length (needs_of needs (DN_ID n)))]> m) nodes ∅.

Definition add_dependents (id : string) (deps : list string) (m : gmap string (list string)) :=
  fold_left (λ m dep, <[dep := needs_of m dep ++ [id]]> m) deps m.

Definition initial_dependents (needs : gmap string (list string)) (nodes : list DefinitionNode)
    : gmap string (list string) :=
  fold_left (λ m n, add_dependents (DN_ID n) (needs_of needs (DN_ID n)) m) nodes ∅.

Definition positions (nodes : list DefinitionNode) : gmap string Z :=
  fold_left (λ m p, <[DN_ID p.2 := Z.of_nat p.1]> m) (imap pair nodes) ∅.

Definition initial_ready (indeg : gmap string Z) (nodes : list DefinitionNode) : list string :=
  List.filter (λ id, int_of indeg id == 0%Z) (map DN_ID nodes).

(** The index of the ready id with the least position, the first of equals. *)
Definition best_index (pos : gmap string Z) (ready : list string) : nat :=
  fold_left (λ best k,
      if (int_of pos (ready !!! k) <? int_of pos (ready !!! best))%Z then k else best)
    (seq 1 (length ready - 1)) 0.

(** Decrement the dependents of a finished node; those that reach zero become ready. *)
Definition release (deps : list string) (s : gmap string Z * list string)
    : gmap string Z * list string :=
  fold_left (λ s dep,
      let d := (int_of s.1 dep - 1)%Z in
      (<[dep := d]> s.1, if d == 0%Z then s.2 ++ [dep] else s.2))
    deps s.

Fixpoint kahn (pos : gmap string Z) (dependents : gmap string (list string)) (fuel : nat)
    (indeg : gmap string Z) (ready order : list string) : option (list string) :=
  match ready with
  | [] => Some order
  | _ :: _ =>
      match fuel with
      | O => None
      | S fuel' =>
          let best := best_index pos ready in
          let id := ready !!! best in
          let '(indeg', ready') :=
            release (needs_of dependents id) (indeg, delete best ready) in
          kahn pos dependents fuel' indeg' ready' (order ++ [id])
      end
  end.

(** The loop emits one node per turn, so as many turns as nodes are enough:
    [topoSort_enough_fuel] below. *)
Definition topoSort (nodes : list DefinitionNode) (needs : gmap string (list string))
    : res error (list string) :=
  let indeg := initial_indeg needs nodes in
  match kahn (positions nodes) (initial_dependents needs nodes) (length nodes)
          indeg (initial_ready indeg nodes) [] with
  | None => Err OutOfFuel
  | Some order => if length order != length nodes then Err Cycle else Ok order
  end.

Definition transitivePreds (order : list string) (needs : gmap string (list string))
    : gmap string (gset string) :=
  fold_left (λ preds id,
      <[id := fold_left (λ s dep, {[dep]} ∪ s ∪ preds_of preds dep) (needs_of needs id) ∅]> preds)
    order ∅.

(** ** BuildGraph *)

Fixpoint check_needs (ids : gset string) (id : string) (seen : gset string) (needs : list string)
    : res error unit :=
  match needs with
  | [] => Ok tt
  | dep :: needs' =>
      if dep == id then Err (NeedsItself id)
      else if bool_decide (dep ∉ ids) then Err (NeedsUnknown id dep)
      else if bool_decide (dep ∈ seen) then Err (NeedsTwice id dep)
      else check_needs ids id ({[dep]} ∪ seen) needs'
  end.

Fixpoint check_nodes (ids : gset string) (nodes : list DefinitionNode) : res error unit :=
  match nodes with
  | [] => Ok tt
  | n :: nodes' => _ ← check_needs ids (DN_ID n) ∅ (DN_Needs n); check_nodes ids nodes'
  end.

Definition needs_map (nodes : list DefinitionNode) : gmap string (list string) :=
  fold_left (λ m n, <[DN_ID n := DN_Needs n]> m) nodes ∅.

Definition BuildGraph (nodes : list DefinitionNode) : res error Graph :=
  let ids := list_to_set (map DN_ID nodes) : gset string in
  let needs := needs_map nodes in
  _ ← check_nodes ids nodes;
  order ← topoSort nodes needs;
  Ok (mkGraph order (transitivePreds order needs)).

Definition IsPredecessor (g : Graph) (node from : string) : bool :=
  bool_decide (from ∈ preds_of (Graph_preds g) node).

Definition Order (g : Graph) : list string := Graph_order g.

End graph.

Import graph.

(** ** Map folds *)

Section Folds.
Context {A V : Type} (k : A → string) (v : A → V).

Lemma fold_insert_notin l (m : gmap string V) i :
  i ∉ map k l → fold_left (λ m x, <[k x := v x]> m) l m !! i = m !! i.
Proof.
  revert m. induction l as [|x l IH]; intros m Hi; cbn; [done|].
  cbn in Hi. rewrite not_elem_of_cons in Hi. destruct Hi as [Hne Hi].
  rewrite IH by done. by apply lookup_insert_ne.
Qed.

Lemma fold_insert_in l (m : gmap string V) x :
  NoDup (map k l) → x ∈ l → fold_left (λ m x, <[k x := v x]> m) l m !! k x = Some (v x).
Proof.
  revert m. induction l as [|y l IH]; intros m Hnd Hx; cbn; [by apply not_elem_of_nil in Hx|].
  cbn in Hnd. apply NoDup_cons in Hnd as [Hy Hnd].
  apply elem_of_cons in Hx as [->|Hx]; [|by apply IH].
  rewrite fold_insert_notin by done. apply lookup_insert_eq.
Qed.
End Folds.

Lemma needs_of_insert m i j l :
  needs_of (<[i:=l]> m) j = if decide (i = j) then l else needs_of m j.
Proof. unfold needs_of. rewrite lookup_insert. by case_decide. Qed.

Lemma int_of_insert m i j z :
  int_of (<[i:=z]> m) j = if decide (i = j) then z else int_of m j.
Proof. unfold int_of. rewrite lookup_insert. by case_decide. Qed.

(** ** The edge relation of a definition *)

(** [edge nodes a b]: node [a] lists [b] among its needs. *)
Definition edge (nodes : list DefinitionNode) (a b : string) : Prop :=
  ∃ n, n ∈ nodes ∧ DN_ID n = a ∧ b ∈ DN_Needs n.

(** [ready_after nodes l x]: [x] is a node not in [l] all of whose needs are in [l]. *)
Definition ready_after (nodes : list DefinitionNode) (l : list string) (x : string) : Prop :=
  x ∈ map DN_ID nodes ∧ x ∉ l ∧ ∀ d, edge nodes x d → d ∈ l.

(** [canonical nodes order]: every node of [order] comes after its needs, and no
    node that could have come at that point is earlier in the definition. *)
Definition canonical (nodes : list DefinitionNode) (order : list string) : Prop :=
  ∀ l1 id l2, order = l1 ++ id :: l2 →
    ready_after nodes l1 id ∧
    ∀ x i j, ready_after nodes l1 x →
      map DN_ID nodes !! i = Some id → map DN_ID nodes !! j = Some x → i ≤ j.

(** No node depends on itself, directly or through others. *)
Definition acyclic (nodes : list DefinitionNode) : Prop := ∀ a, ¬ tc (edge nodes) a a.

(** What [BuildGraph] asks of the edges before it sorts. *)
Definition edges_ok (nodes : list DefinitionNode) : Prop :=
  ∀ n, n ∈ nodes →
    DN_ID n ∉ DN_Needs n ∧ NoDup (DN_Needs n) ∧ ∀ d, d ∈ DN_Needs n → d ∈ map DN_ID nodes.

Lemma check_needs_ok ids id seen needs :
  check_needs ids id seen needs = Ok tt ↔
    id ∉ needs ∧ NoDup needs ∧ (∀ d, d ∈ needs → d ∈ ids) ∧ (∀ d, d ∈ needs → d ∉ seen).
Proof.
  revert seen. induction needs as [|dep needs IH]; intros seen; cbn.
  { split; [|done]. intros _. split_and!; [set_solver|constructor|set_solver|set_solver]. }
  repeat case_bool_decide; simplify_eq.
  - split; [done|]. set_solver.
  - split; [done|]. set_solver.
  - split; [done|]. set_solver.
  - rewrite IH, NoDup_cons. split.
    + intros (? & ? & ? & Hs). split_and!; set_solver.
    + intros (? & [? ?] & ? & ?). split_and!; set_solver.
Qed.

Lemma check_needs_cases ids id seen needs :
  check_needs ids id seen needs = Ok tt ∨ ∃ e, check_needs ids id seen needs = Err e ∧ e ≠ OutOfFuel ∧ e ≠ Cycle.
Proof.
  revert seen. induction needs as [|dep needs IH]; intros seen; cbn; [by left|].
  repeat case_bool_decide; eauto 6.
Qed.

Lemma check_nodes_ok ids nodes :
  check_nodes ids nodes = Ok tt ↔
    ∀ n, n ∈ nodes →
      DN_ID n ∉ DN_Needs n ∧ NoDup (DN_Needs n) ∧ ∀ d, d ∈ DN_Needs n → d ∈ ids.
Proof.
  induction nodes as [|n nodes IH]; cbn; [set_solver|].
  pose proof (check_needs_ok ids (DN_ID n) ∅ (DN_Needs n)) as Hn.
  destruct (check_needs ids (DN_ID n) ∅ (DN_Needs n)) as [[]|e]; cbn.
  - rewrite IH. destruct (proj1 Hn eq_refl) as (Hn1 & Hn2 & Hn3 & _). split.
    + intros Hall m [->|Hm]%elem_of_cons; [done|by apply Hall].
    + intros Hall m Hm. apply Hall. by right.
  - split; [done|]. intros Hall. destruct (Hall n) as (Hn1 & Hn2 & Hn3); [by left|].
    apply Hn. split_and!; [done..|set_solver].
Qed.

Lemma check_nodes_error ids nodes e : check_nodes ids nodes = Err e → e ≠ OutOfFuel.
Proof.
  induction nodes as [|n nodes IH]; cbn; [done|].
  destruct (check_needs_cases ids (DN_ID n) ∅ (DN_Needs n)) as [->|(e' & -> & He & _)]; cbn; [done|].
  congruence.
Qed.

(** ** Kahn's algorithm *)

Section Kahn.
Context (nodes : list DefinitionNode).
Hypothesis Hids : NoDup (map DN_ID nodes).
Hypothesis Hedges : edges_ok nodes.

Let needs := needs_map nodes.
Let nd (id : string) := needs_of needs id.

Lemma nd_node n : n ∈ nodes → nd (DN_ID n) = DN_Needs n.
Proof. intros Hn. unfold nd, needs, needs_of, needs_map. by rewrite fold_insert_in. Qed.

Lemma nd_elim id d : d ∈ nd id → id ∈ map DN_ID nodes.
Proof.
  intros Hd. destruct (decide (id ∈ map DN_ID nodes)) as [|Hid]; [done|].
  unfold nd, needs, needs_of, needs_map in Hd. rewrite fold_insert_notin in Hd by done.
  by apply not_elem_of_nil in Hd.
Qed.

Lemma nd_wf id : id ∈ map DN_ID nodes →
  id ∉ nd id ∧ NoDup (nd id) ∧ ∀ d, d ∈ nd id → d ∈ map DN_ID nodes.
Proof. intros (n & -> & Hn)%list_elem_of_fmap. rewrite nd_node by done. by apply Hedges. Qed.

Lemma edge_nd a b : edge nodes a b ↔ b ∈ nd a.
Proof.
  split.
  - intros (n & Hn & <- & Hb). by rewrite nd_node.
  - intros Hb. pose proof (nd_elim _ _ Hb) as (n & -> & Hn)%list_elem_of_fmap.
    exists n. by rewrite <- nd_node.
Qed.

(** [initial_dependents] inverts the edges, each dependent listed once. *)
Lemma add_dependents_elem id deps m d y :
  y ∈ needs_of (add_dependents id deps m) d ↔ y ∈ needs_of m d ∨ (y = id ∧ d ∈ deps).
Proof.
  unfold add_dependents. revert m. induction deps as [|e deps IH]; intros m; cbn; [set_solver|].
  rewrite IH, needs_of_insert. case_decide; subst; set_solver.
Qed.

Lemma add_dependents_NoDup id deps m :
  NoDup deps → (∀ d, NoDup (needs_of m d)) → (∀ d, d ∈ deps → id ∉ needs_of m d) →
  ∀ d, NoDup (needs_of (add_dependents id deps m) d).
Proof.
  unfold add_dependents. revert m. induction deps as [|e deps IH]; intros m Hnd Hm Hid d; cbn; [done|].
  apply NoDup_cons in Hnd as [He Hnd]. apply IH; [done| |].
  - intros d'. rewrite needs_of_insert. case_decide; [|done]. subst.
    apply NoDup_app. split_and!; [done| |apply NoDup_singleton]. set_solver.
  - intros d' Hd'. rewrite needs_of_insert. case_decide; set_solver.
Qed.

Lemma dependents_fold l m d :
  (∀ n, n ∈ l → n ∈ nodes) → NoDup (map DN_ID l) →
  (∀ d, NoDup (needs_of m d)) → (∀ n d, n ∈ l → DN_ID n ∉ needs_of m d) →
  let m' := fold_left (λ m n, add_dependents (DN_ID n) (nd (DN_ID n)) m) l m in
  NoDup (needs_of m' d) ∧
  ∀ y, y ∈ needs_of m' d ↔ y ∈ needs_of m d ∨ (y ∈ map DN_ID l ∧ d ∈ nd y).
Proof.
  revert m. induction l as [|n l IH]; intros m Hin Hnd Hm Hfresh; cbn; [set_solver|].
  cbn in Hnd. apply NoDup_cons in Hnd as [Hn Hnd].
  destruct (nd_wf (DN_ID n)) as (_ & Hndn & _).
  { apply list_elem_of_fmap. exists n. split; [done|]. apply Hin. by left. }
  destruct (IH (add_dependents (DN_ID n) (nd (DN_ID n)) m)) as [Hnodup Helem].
  - intros x Hx. apply Hin. by right.
  - done.
  - apply add_dependents_NoDup; [done..|]. intros d' _. apply Hfresh. by left.
  - intros x d' Hx. rewrite add_dependents_elem. intros [Hbad|[E _]].
    + eapply Hfresh; [|exact Hbad]. by right.
    + apply Hn. rewrite <- E. by apply list_elem_of_fmap_2.
  - split; [exact Hnodup|]. intros y. rewrite Helem, add_dependents_elem. set_solver.
Qed.

Definition dependents_of (id : string) : list string :=
  needs_of (initial_dependents needs nodes) id.

Lemma dependents_spec id :
  NoDup (dependents_of id) ∧ ∀ y, y ∈ dependents_of id ↔ id ∈ nd y.
Proof.
  destruct (dependents_fold nodes ∅ id) as [H1 H2]; [done|done| | |].
  - intros d. apply NoDup_nil_2.
  - intros n d _. apply not_elem_of_nil.
  - split; [exact H1|]. intros y. unfold dependents_of, initial_dependents.
    etransitivity; [apply H2|]. split.
    + intros [Hbad|[_ H]]; [by apply not_elem_of_nil in Hbad|done].
    + intros H. right. split; [by eapply nd_elim|done].
Qed.

Lemma indeg_spec id : id ∈ map DN_ID nodes →
  int_of (initial_indeg needs nodes) id = Z.of_nat (length (nd id)).
Proof.
  intros (n & -> & Hn)%list_elem_of_fmap. unfold int_of, initial_indeg.
  by rewrite (fold_insert_in DN_ID (λ n, Z.of_nat (length (needs_of needs (DN_ID n))))) by done.
Qed.

(** *** release *)

Lemma release_spec deps indeg ready :
  NoDup deps →
  (∀ x, int_of (release deps (indeg, ready)).1 x
        = (int_of indeg x - if decide (x ∈ deps) then 1 else 0)%Z) ∧
  (release deps (indeg, ready)).2
    = ready ++ List.filter (λ x, (int_of indeg x - 1)%Z == 0%Z) deps.
Proof.
  unfold release. revert indeg ready.
  induction deps as [|dep deps IH]; intros indeg ready Hnd; cbn.
  { split; [|by rewrite app_nil_r]. intros x. case_decide; [set_solver|lia]. }
  apply NoDup_cons in Hnd as [Hdep Hnd].
  destruct (IH (<[dep := (int_of indeg dep - 1)%Z]> indeg)
    (if (int_of indeg dep - 1)%Z == 0%Z then ready ++ [dep] else ready) Hnd) as [IH1 IH2].
  split.
  - intros x. rewrite IH1, int_of_insert. repeat case_decide; subst; try lia; set_solver.
  - rewrite IH2.
    assert (List.filter (λ x, (int_of (<[dep := (int_of indeg dep - 1)%Z]> indeg) x - 1)%Z == 0%Z) deps
            = List.filter (λ x, (int_of indeg x - 1)%Z == 0%Z) deps) as ->.
    { apply filter_ext_in. intros x Hx%list_elem_of_In. rewrite int_of_insert.
      by rewrite decide_False by (intros ->; done). }
    destruct (_ == _); cbn; [by rewrite <- app_assoc|done].
Qed.

(** *** best_index picks a position-minimal ready node *)

Lemma best_index_fold (f : nat → Z) ks b :
  let r := fold_left (λ best k, if (f k <? f best)%Z then k else best) ks b in
  (r = b ∨ r ∈ ks) ∧ (f r <= f b)%Z ∧ ∀ k, k ∈ ks → (f r <= f k)%Z.
Proof.
  revert b. induction ks as [|k ks IH]; intros b; cbn; [set_solver by lia|].
  destruct (Z.ltb_spec (f k) (f b)) as [Hlt|Hge].
  - destruct (IH k) as ([->|Hin] & Hle & Hall); (split_and!; [set_solver|lia|]);
      intros k' [->|Hk']%elem_of_cons; auto with lia.
  - destruct (IH b) as ([->|Hin] & Hle & Hall); (split_and!; [set_solver|lia|]);
      intros k' [->|Hk']%elem_of_cons; auto with lia.
Qed.

Lemma best_index_spec pos ready :
  ready ≠ [] →
  ∃ id, ready !! best_index pos ready = Some id ∧
    ∀ x, x ∈ ready → (int_of pos id <= int_of pos x)%Z.
Proof.
  intros Hne. unfold best_index.
  destruct (best_index_fold (λ k, int_of pos (ready !!! k)) (seq 1 (length ready - 1)) 0)
    as (Hr & H0 & Hall).
  set (b := fold_left _ _ _) in *. cbn in H0, Hall.
  assert (b < length ready) as Hb.
  { assert (length ready ≠ 0) by (destruct ready; done).
    destruct Hr as [Hr|Hr]; [rewrite Hr; lia|]. apply elem_of_seq in Hr. lia. }
  destruct (lookup_lt_is_Some_2 ready b Hb) as [id Hid]. exists id. split; [done|].
  rewrite (list_lookup_total_correct _ _ _ Hid) in *.
  intros x Hx%list_elem_of_lookup. destruct Hx as [i Hx].
  rewrite <- (list_lookup_total_correct _ _ _ Hx).
  destruct i as [|i]; [exact H0|]. apply Hall. apply elem_of_seq.
  apply lookup_lt_Some in Hx. lia.
Qed.

Lemma positions_spec i id :
  map DN_ID nodes !! i = Some id → int_of (positions nodes) id = Z.of_nat i.
Proof.
  rewrite list_lookup_fmap. intros (n & Hn & ->)%fmap_Some.
  unfold int_of, positions.
  rewrite (fold_insert_in (λ p : nat * DefinitionNode, DN_ID p.2) (λ p, Z.of_nat p.1)
    (imap pair nodes) ∅ (i, n)); [done| |].
  - replace (map _ (imap pair nodes)) with (map DN_ID nodes); [done|].
    apply list_eq. intros k.
    rewrite !list_lookup_fmap, list_lookup_imap. by destruct (nodes !! k).
  - apply list_elem_of_lookup. exists i. rewrite list_lookup_imap. by rewrite Hn.
Qed.

(** *** The loop invariant *)

Definition pend (order : list string) (id : string) : list string :=
  filter (λ d, d ∉ order) (nd id).

Record kahn_inv (indeg : gmap string Z) (ready order : list string) : Prop := {
  ki_nodup : NoDup (order ++ ready);
  ki_ids : ∀ x, x ∈ order ++ ready → x ∈ map DN_ID nodes;
  ki_indeg : ∀ x, x ∈ map DN_ID nodes → int_of indeg x = Z.of_nat (length (pend order x));
  ki_ready : ∀ x, x ∈ map DN_ID nodes → pend order x = [] → x ∈ order ++ ready;
  ki_zero : ∀ x, x ∈ order ++ ready → pend order x = [];
  ki_canonical : canonical nodes order;
}.

Lemma pend_nil_iff order x : pend order x = [] ↔ ∀ d, d ∈ nd x → d ∈ order.
Proof.
  unfold pend. split.
  - intros H d Hd. destruct (decide (d ∈ order)) as [|Hn]; [done|].
    assert (d ∈ filter (λ d, d ∉ order) (nd x)) as Hbad by (by apply list_elem_of_filter).
    rewrite H in Hbad. by apply not_elem_of_nil in Hbad.
  - intros H. destruct (filter _ _) as [|d l] eqn:E; [done|].
    assert (d ∈ filter (λ d, d ∉ order) (nd x)) as [Hd Hin]%list_elem_of_filter
      by (rewrite E; left). by apply H in Hin.
Qed.

Lemma pend_snoc order id x :
  NoDup (nd x) → id ∉ order →
  length (pend order x)
    = (length (pend (order ++ [id]) x) + if decide (id ∈ nd x) then 1 else 0)%nat.
Proof.
  unfold pend. generalize (nd x). intros l Hnd Hid.
  induction l as [|d l IH]; [by rewrite decide_False by set_solver|].
  apply NoDup_cons in Hnd as [Hd Hnd]. specialize (IH Hnd).
  rewrite !filter_cons.
  destruct (decide (d = id)) as [->|Hne].
  - rewrite (decide_True (P := id ∉ order)) by done.
    rewrite (decide_False (P := id ∉ order ++ [id])) by set_solver.
    rewrite (decide_True (P := id ∈ id :: l)) by set_solver.
    rewrite (decide_False (P := id ∈ l)) in IH by done. cbn. lia.
  - destruct (decide (d ∈ order)) as [Hin|Hin].
    + rewrite (decide_False (P := d ∉ order)) by tauto.
      rewrite (decide_False (P := d ∉ order ++ [id])) by set_solver.
      rewrite IH. repeat case_decide; set_solver by lia.
    + rewrite (decide_True (P := d ∉ order)) by done.
      rewrite (decide_True (P := d ∉ order ++ [id])) by set_solver. cbn. rewrite IH.
      repeat case_decide; set_solver by lia.
Qed.

Lemma ready_after_pend l x :
  ready_after nodes l x ↔ x ∈ map DN_ID nodes ∧ x ∉ l ∧ pend l x = [].
Proof. unfold ready_after. rewrite pend_nil_iff. by setoid_rewrite edge_nd. Qed.

Lemma kahn_inv_init :
  kahn_inv (initial_indeg needs nodes) (initial_ready (initial_indeg needs nodes) nodes) [].
Proof.
  assert (∀ x, pend [] x = nd x) as Hp.
  { intros x. unfold pend. induction (nd x) as [|d l IH]; [done|].
    rewrite filter_cons, decide_True by apply not_elem_of_nil. by rewrite IH. }
  assert (∀ x, x ∈ initial_ready (initial_indeg needs nodes) nodes ↔
    x ∈ map DN_ID nodes ∧ nd x = []) as Hr.
  { intros x. unfold initial_ready. rewrite !list_elem_of_In, filter_In, <- list_elem_of_In.
    rewrite bool_decide_eq_true. split; intros [Hx H0]; (split; [done|]).
    - rewrite indeg_spec in H0 by done. apply nil_length_inv. lia.
    - rewrite indeg_spec by done. by rewrite H0. }
  split; cbn [app].
  - unfold initial_ready. by apply NoDup_ListNoDup, List.NoDup_filter, NoDup_ListNoDup.
  - intros x [Hx _]%Hr. exact Hx.
  - intros x Hx. by rewrite indeg_spec, Hp.
  - intros x Hx H. apply Hr. by rewrite <- Hp.
  - intros x [_ Hx]%Hr. by rewrite Hp.
  - intros l1 id l2 H. by destruct l1.
Qed.

Lemma canonical_snoc order id :
  canonical nodes order → ready_after nodes order id →
  (∀ x, ready_after nodes order x →
     (int_of (positions nodes) id <= int_of (positions nodes) x)%Z) →
  canonical nodes (order ++ [id]).
Proof.
  intros Hc Hid Hmin l1 y l2 E.
  destruct l2 as [|z l2] using rev_ind; [|clear IHl2].
  - apply app_inj_tail in E as [<- <-]. split; [done|].
    intros x i j Hx Hi Hj. specialize (Hmin x Hx).
    rewrite (positions_spec _ _ Hi), (positions_spec _ _ Hj) in Hmin. lia.
  - rewrite app_comm_cons, app_assoc in E. apply app_inj_tail in E as [E _]. by eapply Hc.
Qed.

(** A turn of the loop: the emitted id, and the state it leaves. *)
Lemma kahn_step indeg ready order :
  kahn_inv indeg ready order → ready ≠ [] →
  let best := best_index (positions nodes) ready in
  let id := ready !!! best in
  let s := release (dependents_of id) (indeg, delete best ready) in
  kahn_inv s.1 s.2 (order ++ [id]).
Proof.
  intros [Hnd Hids' Hin Hready Hzero Hcan] Hne best id s.
  destruct (best_index_spec (positions nodes) ready Hne) as (id' & Hid & Hmin).
  fold best in Hid. assert (id = id') as <- by (by apply list_lookup_total_correct).
  pose proof (delete_Permutation _ _ _ Hid) as Hperm.
  destruct (dependents_spec id) as [Hdnd Hdeps].
  destruct (release_spec (dependents_of id) indeg (delete best ready) Hdnd) as [Hs1 Hs2].
  fold s in Hs1, Hs2. set (rd := delete best ready) in *.
  set (fresh := List.filter _ _) in Hs2.
  assert (id ∈ ready) as Hidr by (by eapply list_elem_of_lookup_2).
  assert (id ∉ order) as Hido.
  { intros Ho. apply NoDup_app in Hnd as (_ & Hd & _). by apply (Hd id). }
  assert (∀ x, x ∈ order ++ ready ↔ x ∈ order ++ [id] ∨ x ∈ rd) as Hmem
    by (intros x; rewrite Hperm; set_solver).
  assert (∀ x, x ∈ map DN_ID nodes → NoDup (nd x)) as Hndx by (intros x Hx; by apply nd_wf).
  assert (∀ x, x ∈ map DN_ID nodes →
    int_of s.1 x = Z.of_nat (length (pend (order ++ [id]) x))) as Hin'.
  { intros x Hx. rewrite Hs1, Hin, (pend_snoc order id x) by auto.
    repeat case_decide; try lia; exfalso; set_solver. }
  assert (∀ x, x ∈ fresh ↔ id ∈ nd x ∧ pend (order ++ [id]) x = []) as Hfresh.
  { intros x. unfold fresh. rewrite list_elem_of_In, filter_In, <- list_elem_of_In, Hdeps.
    rewrite bool_decide_eq_true. split; intros [Hx Hz]; (split; [done|]);
      pose proof (nd_elim _ _ Hx) as Hxi; specialize (Hin' x Hxi); rewrite Hs1 in Hin';
      rewrite decide_True in Hin' by (by apply Hdeps).
    - apply nil_length_inv. lia.
    - rewrite Hz in Hin'. cbn in Hin'. lia. }
  rewrite Hs2. split.
  - rewrite app_assoc. apply NoDup_app. split_and!.
    + rewrite <- app_assoc. cbn. by rewrite <- Hperm.
    + intros x Hx [Hx' _]%Hfresh. assert (x ∈ order ++ ready) as Hxo.
      { apply Hmem. by apply elem_of_app in Hx. }
      specialize (Hzero x Hxo). rewrite pend_nil_iff in Hzero. by apply Hido, Hzero.
    + apply NoDup_ListNoDup, List.NoDup_filter, NoDup_ListNoDup. done.
  - intros x Hx. rewrite app_assoc in Hx. apply elem_of_app in Hx as [Hx|Hx].
    + apply Hids', Hmem. by apply elem_of_app in Hx.
    + apply Hfresh in Hx as [Hx _]. by apply nd_elim in Hx.
  - exact Hin'.
  - intros x Hx Hp. rewrite app_assoc, elem_of_app.
    destruct (decide (id ∈ nd x)) as [Hd|Hd]; [right; by apply Hfresh|]. left.
    apply elem_of_app, Hmem, Hready; [done|]. rewrite pend_nil_iff in Hp |- *. set_solver.
  - intros x Hx. rewrite app_assoc in Hx. apply elem_of_app in Hx as [Hx|Hx].
    + assert (x ∈ order ++ ready) as Hxo by (apply Hmem; by apply elem_of_app in Hx).
      specialize (Hzero x Hxo). rewrite pend_nil_iff in Hzero |- *. set_solver.
    + by apply Hfresh in Hx as [_ Hx].
  - apply canonical_snoc; [done| |].
    + apply ready_after_pend. split_and!; [set_solver|done|]. apply Hzero. set_solver.
    + intros x (Hx & Hxo & Hp)%ready_after_pend. apply Hmin.
      specialize (Hready x Hx Hp). set_solver.
Qed.

Lemma kahn_inv_length indeg ready order :
  kahn_inv indeg ready order → length order + length ready ≤ length nodes.
Proof.
  intros [Hnd Hsub _ _ _ _]. rewrite <- length_app, <- (length_map DN_ID nodes).
  apply submseteq_length, NoDup_submseteq; done.
Qed.

(** The loop ends within its fuel, with nothing ready. *)
Lemma kahn_runs fuel indeg ready order :
  kahn_inv indeg ready order → length nodes ≤ fuel + length order →
  ∃ indeg' order', kahn (positions nodes) (initial_dependents needs nodes) fuel indeg ready order
    = Some order' ∧ kahn_inv indeg' [] order'.
Proof.
  revert indeg ready order. induction fuel as [|fuel IH]; intros indeg ready order Hinv Hfuel.
  - pose proof (kahn_inv_length _ _ _ Hinv). destruct ready as [|r ready]; [|cbn in *; lia].
    by exists indeg, order.
  - destruct (decide (ready = [])) as [->|Hne]; [by exists indeg, order|].
    pose proof (kahn_step _ _ _ Hinv Hne) as Hstep. cbn zeta in Hstep.
    destruct ready as [|r0 ready0] eqn:Er; [done|]. cbn [kahn]. rewrite <- Er in *.
    unfold dependents_of in Hstep.
    destruct (release _ _) as [indeg' ready']. apply IH; [exact Hstep|].
    rewrite length_app. cbn. lia.
Qed.

(** *** Cycles *)

Lemma final_acyclic indeg order :
  kahn_inv indeg [] order → acyclic nodes → order ≡ₚ map DN_ID nodes.
Proof.
  intros [Hnd Hsub _ Hready _ _] Hac. rewrite app_nil_r in *.
  apply NoDup_Permutation; [done..|]. intros x. split; [by apply Hsub|]. intros Hx.
  assert (sn (edge nodes) x) as Hsn.
  { apply tc_finite_sn; [intros a; by apply Hac|].
    exists (map DN_ID nodes). intros y Hy.
    assert (∀ a b, edge nodes a b → b ∈ map DN_ID nodes) as He.
    { intros a b (n & Hn & _ & Hb). by apply (Hedges n Hn). }
    induction Hy; eauto. }
  induction Hsn as [x _ IH]. destruct (pend order x) as [|d l] eqn:E.
  - specialize (Hready x Hx E). by rewrite ?app_nil_r in Hready.
  - assert (d ∈ pend order x) as [Hd Hdn]%list_elem_of_filter by (rewrite E; left).
    exfalso. apply Hd. apply IH; [by apply edge_nd|]. by apply (nd_wf x).
Qed.
End Kahn.

(** A canonical order lists every transitive need of a node before it. *)
Lemma canonical_tc nodes order a b :
  canonical nodes order → tc (edge nodes) a b → ∀ l1 l2, order = l1 ++ a :: l2 → b ∈ l1.
Proof.
  intros Hc Htc. induction Htc as [a b Hab|a c b Hac _ IH]; intros l1 l2 E.
  - destruct (Hc _ _ _ E) as [(_ & _ & H) _]. by apply H.
  - destruct (Hc _ _ _ E) as [(_ & _ & H) _].
    destruct (list_elem_of_split _ _ (H _ Hac)) as (l3 & l4 & ->).
    apply elem_of_app. left. apply (IH l3 (l4 ++ a :: l2)). by rewrite E, <- app_assoc.
Qed.

Lemma canonical_acyclic nodes order :
  canonical nodes order → order ≡ₚ map DN_ID nodes → NoDup (map DN_ID nodes) → acyclic nodes.
Proof.
  intros Hc Hp Hnd a Ha.
  assert (a ∈ order) as Hin.
  { rewrite Hp. assert (∃ b, edge nodes a b) as [b (n & Hn & <- & _)] by (inversion Ha; eauto).
    by apply list_elem_of_fmap_2. }
  destruct (list_elem_of_split _ _ Hin) as (l1 & l2 & E).
  pose proof (canonical_tc _ _ _ _ Hc Ha _ _ E) as Hbad.
  rewrite <- Hp, E in Hnd. apply NoDup_app in Hnd as (_ & Hd & _). apply (Hd a Hbad). left.
Qed.

(** ** Transitive predecessors *)

Lemma fold_preds_elem preds l acc y :
  y ∈ fold_left (λ s dep, {[dep]} ∪ s ∪ preds_of preds dep) l acc ↔
  y ∈ acc ∨ ∃ d, d ∈ l ∧ (y = d ∨ y ∈ preds_of preds d).
Proof.
  revert acc. induction l as [|d l IH]; intros acc; cbn; [set_solver|].
  rewrite IH. set_solver.
Qed.

Lemma fold_insert_acc_notin {V} (v : gmap string V → string → V) l m (i : string) :
  i ∉ l → fold_left (λ m x, <[x := v m x]> m) l m !! i = m !! i.
Proof.
  revert m. induction l as [|x l IH]; intros m Hi; cbn; [done|].
  rewrite not_elem_of_cons in Hi. destruct Hi as [Hne Hi].
  rewrite IH by done. by apply lookup_insert_ne.
Qed.

Lemma canonical_prefix nodes order id : canonical nodes (order ++ [id]) → canonical nodes order.
Proof. intros Hc l1 y l2 ->. apply (Hc l1 y (l2 ++ [id])). by rewrite <- app_assoc. Qed.

Lemma transitivePreds_spec nodes order :
  NoDup (map DN_ID nodes) → edges_ok nodes → canonical nodes order →
  ∀ x y, x ∈ order → y ∈ preds_of (transitivePreds order (needs_map nodes)) x ↔ tc (edge nodes) x y.
Proof.
  intros Hnd He. induction order as [|id order IH] using rev_ind; intros Hc x y Hx; [set_solver|].
  specialize (IH (canonical_prefix _ _ _ Hc)).
  unfold transitivePreds in *. rewrite fold_left_app. cbn [fold_left].
  set (preds := fold_left _ order ∅) in *.
  destruct (Hc order id [] eq_refl) as [(_ & _ & Hneeds) _].
  unfold preds_of at 1. rewrite lookup_insert. case_decide as Ex.
  - subst x. cbn. rewrite fold_preds_elem.
    setoid_rewrite <- (edge_nd nodes Hnd).
    split.
    + intros [?%not_elem_of_empty|(d & Hd & [->|Hy])]; [done|by apply tc_once|].
      eapply tc_l; [exact Hd|]. by apply IH, Hy; apply Hneeds.
    + intros Htc. right. inversion Htc as [? ? Hd|? d ? Hd Htc']; subst; [exists y; auto|].
      exists d. split; [done|]. right. by apply IH; [apply Hneeds|].
  - apply IH. set_solver.
Qed.

(** ** BuildGraph *)

Lemma topoSort_runs nodes :
  NoDup (map DN_ID nodes) → edges_ok nodes →
  (∃ order, topoSort nodes (needs_map nodes) = Ok order ∧
     order ≡ₚ map DN_ID nodes ∧ canonical nodes order) ∨
  (topoSort nodes (needs_map nodes) = Err Cycle ∧ ¬ acyclic nodes).
Proof.
  intros Hnd He. destruct (kahn_runs nodes Hnd He (length nodes)
    (initial_indeg (needs_map nodes) nodes)
    (initial_ready (initial_indeg (needs_map nodes) nodes) nodes) [])
    as (indeg' & order & Hk & Hinv); [by apply kahn_inv_init|lia|].
  unfold topoSort. rewrite Hk. case_bool_decide as Hlen; cbn.
  - left. exists order. split; [done|]. destruct Hinv as [Ho Hsub _ _ _ Hcan].
    rewrite app_nil_r in *. split; [|done].
    apply submseteq_length_Permutation; [by apply NoDup_submseteq|by rewrite length_map, Hlen].
  - right. split; [done|]. intros Hac. apply Hlen.
    by rewrite (final_acyclic nodes Hnd He _ _ Hinv Hac), length_map.
Qed.

Lemma BuildGraph_runs nodes g :
  NoDup (map DN_ID nodes) → BuildGraph nodes = Ok g →
  edges_ok nodes ∧ Graph_order g ≡ₚ map DN_ID nodes ∧ canonical nodes (Graph_order g) ∧
  Graph_preds g = transitivePreds (Graph_order g) (needs_map nodes).
Proof.
  intros Hnd. unfold BuildGraph.
  pose proof (check_nodes_ok (list_to_set (map DN_ID nodes)) nodes) as Hchk.
  destruct (check_nodes _ nodes) as [[]|e]; cbn; [|done].
  assert (edges_ok nodes) as He.
  { intros n Hn. destruct (proj1 Hchk eq_refl n Hn) as (? & ? & Hd). split_and!; [done..|].
    intros d Hdn. by apply (elem_of_list_to_set (C := gset string)), Hd. }
  destruct (topoSort_runs nodes Hnd He) as [(order & -> & Hp & Hc)|[-> _]]; cbn; [|done].
  intros [= <-]. cbn. done.
Qed.

Lemma BuildGraph_iff nodes :
  NoDup (map DN_ID nodes) → (∃ g, BuildGraph nodes = Ok g) ↔ edges_ok nodes ∧ acyclic nodes.
Proof.
  intros Hnd. split.
  - intros [g Hg]. destruct (BuildGraph_runs nodes g Hnd Hg) as (He & Hp & Hc & _).
    split; [done|]. by eapply canonical_acyclic.
  - intros [He Hac]. unfold BuildGraph.
    replace (check_nodes _ _) with (Ok tt : res error unit).
    + destruct (topoSort_runs nodes Hnd He) as [(order & -> & _)|[_ ?]]; [|done].
      by eexists.
    + symmetry. apply check_nodes_ok. intros n Hn. destruct (He n Hn) as (? & ? & Hd).
      split_and!; [done..|]. intros d Hdn. by apply elem_of_list_to_set, Hd.
Qed.

Lemma IsPredecessor_iff nodes g a b :
  NoDup (map DN_ID nodes) → BuildGraph nodes = Ok g →
  IsPredecessor g a b = true ↔ tc (edge nodes) a b.
Proof.
  intros Hnd Hg. destruct (BuildGraph_runs nodes g Hnd Hg) as (He & Hp & Hc & Hpreds).
  unfold IsPredecessor. rewrite Hpreds, bool_decide_eq_true.
  destruct (decide (a ∈ Graph_order g)) as [Ha|Ha]; [by apply transitivePreds_spec|].
  split.
  - unfold transitivePreds, preds_of. rewrite fold_insert_acc_notin by done.
    rewrite lookup_empty. by intros ?%not_elem_of_empty.
  - intros Htc. exfalso. apply Ha. rewrite Hp.
    assert (∃ b, edge nodes a b) as [c (n & Hn & <- & _)] by (inversion Htc; eauto).
    by apply list_elem_of_fmap_2.
Qed.

(** ** The properties *)

(** C38: where the node ids are distinct, BuildGraph succeeds exactly for the
    definitions whose needs name other, existing, distinct nodes and form no
    cycle: every valid definition is accepted, every other one is refused, and
    the sort never runs out of turns. *)
Theorem BuildGraph_accepts nodes :
  NoDup (map DN_ID nodes) →
  ((∃ g, BuildGraph nodes = Ok g) ↔ edges_ok nodes ∧ acyclic nodes) ∧
  BuildGraph nodes ≠ Err OutOfFuel.
Proof.
  intros Hnd. split; [by apply BuildGraph_iff|].
  intros Hbad. unfold BuildGraph in Hbad.
  pose proof (check_nodes_ok (list_to_set (map DN_ID nodes)) nodes) as Hchk.
  pose proof (check_nodes_error (list_to_set (map DN_ID nodes)) nodes) as Herr.
  destruct (check_nodes _ nodes) as [[]|e]; cbn in Hbad.
  + destruct (topoSort_runs nodes Hnd) as [(order & E & _)|[E _]];
      [|by rewrite E in Hbad..].
    intros n Hn. destruct (proj1 Hchk eq_refl n Hn) as (? & ? & Hd). split_and!; [done..|].
    intros d Hdn. by apply (elem_of_list_to_set (C := gset string)), Hd.
  + injection Hbad as ->. by apply (Herr OutOfFuel).
Qed.

(** the order of a built graph lists every node exactly once, each after all
    of its needs, and always takes the earliest node of the definition among
    those whose needs are met: it is a function of the definition alone. *)
Lemma BuildGraph_order nodes g :
  NoDup (map DN_ID nodes) → BuildGraph nodes = Ok g →
  Order g ≡ₚ map DN_ID nodes ∧ canonical nodes (Order g).
Proof. intros Hnd Hg. by destruct (BuildGraph_runs nodes g Hnd Hg) as (_ & ? & ? & _). Qed.

(** IsPredecessor answers exactly the transitive closure of the needs. *)
Lemma IsPredecessor_tc nodes g a b :
  NoDup (map DN_ID nodes) → BuildGraph nodes = Ok g →
  IsPredecessor g a b = true ↔ tc (edge nodes) a b.
Proof. apply IsPredecessor_iff. Qed.

(** ** Witnesses *)

Definition sample_node (id : string) (needs : list string) : DefinitionNode :=
  mkDefinitionNode id NodeTypeAgentTask needs (mkNodeAgent "agt_1" 1) (mkNodeInput "do it" []) "none"
    None None.

(** A diamond, its sink declared first. *)
Definition diamond : list DefinitionNode :=
  [sample_node "d" ["c"; "b"]; sample_node "b" ["a"]; sample_node "c" ["a"]; sample_node "a" []].

Definition diamond_graph : Graph :=
  Eval vm_compute in match BuildGraph diamond with Ok g => g | Err _ => mkGraph [] ∅ end.

Lemma BuildGraph_accepts_witness :
  NoDup (map DN_ID diamond) ∧
  ((∃ g, BuildGraph diamond = Ok g) ↔ edges_ok diamond ∧ acyclic diamond) ∧
  BuildGraph diamond ≠ Err OutOfFuel.
Proof.
  assert (NoDup (map DN_ID diamond)) as Hnd by (apply (bool_decide_unpack _); vm_compute; exact I).
  split; [exact Hnd|]. exact (BuildGraph_accepts diamond Hnd).
Defined.

Lemma BuildGraph_order_witness :
  Order diamond_graph = ["a"; "b"; "c"; "d"] ∧
  Order diamond_graph ≡ₚ map DN_ID diamond ∧ canonical diamond (Order diamond_graph).
Proof.
  split; [reflexivity|]. apply (BuildGraph_order diamond diamond_graph).
  - apply (bool_decide_unpack _); vm_compute; exact I.
  - vm_compute. reflexivity.
Defined.

Lemma IsPredecessor_tc_witness :
  IsPredecessor diamond_graph "d" "a" = true ∧
  (IsPredecessor diamond_graph "d" "a" = true ↔ tc (edge diamond) "d" "a").
Proof.
  split; [vm_compute; reflexivity|]. apply (IsPredecessor_tc diamond diamond_graph).
  - apply (bool_decide_unpack _); vm_compute; exact I.
  - vm_compute. reflexivity.
Defined.
