(* ===== verification/WorkflowDefinition.v ===== *)
(** * WorkflowDefinition: publishing and admitting a workflow definition

    The definition half of internal/service/workflow/service.go: structural
    validation, agent resolution and pinning, and the run input.  A definition
    is taken as [json.Unmarshal] decoded it, [None] where the text is not one. *)

From S2P Require Import Prelude Text Json JsonSchema WorkflowCore WorkflowGraph.
From stdpp Require Import gmap.
Import coreworkflow graph.
Local Open Scope string_scope.

(** ** internal/core/agentdef *)

Module agentdef.

(** The parts of an agent that a workflow reads. *)
Record Agent : Type := mkAgent {
  Ag_ID : string;
  Ag_SpaceID : string;
  Ag_Name : string;
  Ag_Description : string;
  Ag_Instructions : string;
  Ag_Revision : Z;
  Ag_SandboxNetworkTier : string;
  Ag_SandboxFilesystemTier : string;
  Ag_DeletedAt : option Z
}.
#[export] Instance Agent_updatable : Updatable Agent := λ r,
  mkAgent (Ag_ID r) (Ag_SpaceID r) (Ag_Name r) (Ag_Description r) (Ag_Instructions r)
    (Ag_Revision r) (Ag_SandboxNetworkTier r) (Ag_SandboxFilesystemTier r) (Ag_DeletedAt r).

Record Revision_ : Type := mkRevision_ {
  AgR_AgentID : string;
  AgR_Revision : Z;
  AgR_Name : string;
  AgR_Description : string;
  AgR_Instructions : string
}.
#[export] Instance Revision__updatable : Updatable Revision_ := λ r,
  mkRevision_ (AgR_AgentID r) (AgR_Revision r) (AgR_Name r) (AgR_Description r) (AgR_Instructions r).

(** What the workflow service asks of [agentdef.Store], an interface in the
    code: a read may fail with an error of the store. *)
Class Store (E : Type) := {
  GetAgent : string → res E (option Agent);
  GetAgentIncludingDeleted : string → res E (option Agent);
  GetAgentRevision : string → Z → res E (option Revision_);
}.

End agentdef.
Import agentdef.

Module definition.

Inductive error : Type :=
| ErrInvalidDefinition
| ErrUnsupportedSchemaVersion
| ErrInvalidInputSchema
| ErrInvalidResult
| ErrInvalidRunInput
| ErrInvalidNodeType
| ErrInvalidHumanInputNode
| ErrInvalidNodeID
| ErrInvalidNeeds
| ErrInvalidPolicy
| ErrInvalidNodePolicy
| ErrInvalidIssueAccess
| ErrInvalidAgentRevision
| ErrIssueRequired
| ErrInvalidBinding
| ErrInvalidOutputSchema
| ErrInvalidTargetAgent
| ErrStore.

#[export] Instance error_eq_dec : EqDecision error.
Proof. solve_decision. Defined.

(** [if cond { return err }] *)
Definition refuse_if (cond : bool) (e : error) : res error unit := if cond then Err e else Ok tt.

Definition validTimeout (seconds : Z) : bool :=
  (seconds =? 0)%Z || ((MinTimeoutSeconds <=? seconds) && (seconds <=? MaxTimeoutSeconds))%Z.

(** A declared schema must compile; an absent one is fine. *)
Definition schemaRefused (schema : option json) : bool :=
  match schema with
  | None => false
  | Some raw => bool_decide (jsonschema.Compile (Some raw) = None)
  end.

(** *** The first pass over the nodes *)

Fixpoint parseNeeds (needs : list string) : res error (list string) :=
  match needs with
  | [] => Ok []
  | need :: needs' =>
      let need := TrimSpace need in
      _ ← refuse_if (need == "") ErrInvalidNeeds;
      rest ← parseNeeds needs';
      Ok (need :: rest)
  end.

Definition parseBinding (names : gset string) (b : StepBinding) : res error StepBinding :=
  let b := mkStepBinding (TrimSpace (SB_Name b)) (TrimSpace (SB_Source b)) (TrimSpace (SB_Pointer b)) in
  _ ← refuse_if (SB_Name b == "") ErrInvalidBinding;
  _ ← refuse_if (bool_decide (SB_Name b ∈ names)) ErrInvalidBinding;
  _ ← refuse_if ((SB_Source b != BindingSourceWorkflowInput)
                 && (ParseNodeOutputSource (SB_Source b) == None)) ErrInvalidBinding;
  _ ← refuse_if (negb (is_ok (pointer.ValidatePointer (SB_Pointer b)))) ErrInvalidBinding;
  Ok b.

Fixpoint parseBindings (names : gset string) (bs : list StepBinding) : res error (list StepBinding) :=
  match bs with
  | [] => Ok []
  | b :: bs' =>
      b ← parseBinding names b;
      rest ← parseBindings ({[SB_Name b]} ∪ names) bs';
      Ok (b :: rest)
  end.

(** The [switch] on the node type. *)
Definition checkNodeType (node : DefinitionNode) : res error unit :=
  if DN_Type node == NodeTypeAgentTask then
    refuse_if ((NA_ID (DN_Agent node) == "") || (NI_Instruction (DN_Input node) == ""))
      ErrInvalidDefinition
  else if DN_Type node == NodeTypeHumanInput then
    refuse_if ((NA_ID (DN_Agent node) != "") || (NA_Revision (DN_Agent node) != 0%Z)
               || (NI_Instruction (DN_Input node) == "")
               || ((DN_IssueAccess node != "") && (DN_IssueAccess node != IssueAccessNone))
               || match DN_Policy node with
                  | Some p => (1 <? NP_MaxAttempts p)%Z
                  | None => false
                  end) ErrInvalidHumanInputNode
  else Err ErrInvalidNodeType.

Definition parseNode (ids : gset string) (node : DefinitionNode) : res error DefinitionNode :=
  let node := node <| DN_ID := TrimSpace (DN_ID node) |>
                   <| DN_Type := TrimSpace (DN_Type node) |>
                   <| DN_Agent := mkNodeAgent (TrimSpace (NA_ID (DN_Agent node))) (NA_Revision (DN_Agent node)) |>
                   <| DN_Input := mkNodeInput (TrimSpace (NI_Instruction (DN_Input node))) (NI_Bindings (DN_Input node)) |> in
  _ ← refuse_if (DN_ID node == "") ErrInvalidNodeID;
  _ ← refuse_if (bool_decide (DN_ID node ∈ ids)) ErrInvalidNodeID;
  _ ← checkNodeType node;
  _ ← refuse_if (NA_Revision (DN_Agent node) <? 0)%Z ErrInvalidDefinition;
  let access := if DN_IssueAccess node == "" then IssueAccessNone else DN_IssueAccess node in
  _ ← refuse_if (negb (ValidIssueAccess access)) ErrInvalidIssueAccess;
  needs ← parseNeeds (DN_Needs node);
  bindings ← parseBindings ∅ (NI_Bindings (DN_Input node));
  _ ← refuse_if (schemaRefused (DN_OutputSchema node)) ErrInvalidOutputSchema;
  _ ← refuse_if match DN_Policy node with
                | Some p => (NP_MaxAttempts p <? 0)%Z || (MaxNodeAttemptsCeiling <? NP_MaxAttempts p)%Z
                            || negb (validTimeout (NP_TimeoutSeconds p))
                | None => false
                end ErrInvalidNodePolicy;
  Ok (node <| DN_IssueAccess := access |>
           <| DN_Needs := needs |>
           <| DN_Input := mkNodeInput (NI_Instruction (DN_Input node)) bindings |>).

Fixpoint parseNodes (ids : gset string) (nodes : list DefinitionNode) : res error (list DefinitionNode) :=
  match nodes with
  | [] => Ok []
  | node :: nodes' =>
      node ← parseNode ids node;
      rest ← parseNodes ({[DN_ID node]} ∪ ids) nodes';
      Ok (node :: rest)
  end.

(** *** The graph pass and the result *)

(** A binding on a node's output reads a transitive predecessor. *)
Definition bindingReaches (g : Graph) (node : DefinitionNode) (b : StepBinding) : bool :=
  match ParseNodeOutputSource (SB_Source b) with
  | None => true
  | Some from => IsPredecessor g (DN_ID node) from
  end.

Definition checkBindingSources (g : Graph) (nodes : list DefinitionNode) : res error unit :=
  refuse_if (negb (forallb (λ node, forallb (bindingReaches g node) (NI_Bindings (DN_Input node))) nodes))
    ErrInvalidBinding.

Definition parseResult (ids : list string) (r : ResultSelector) : res error ResultSelector :=
  let r := mkResultSelector (TrimSpace (RS_Source r)) (TrimSpace (RS_Pointer r)) in
  match ParseNodeOutputSource (RS_Source r) with
  | None => Err ErrInvalidResult
  | Some from =>
      _ ← refuse_if (bool_decide (from ∉ ids)) ErrInvalidResult;
      _ ← refuse_if (negb (is_ok (pointer.ValidatePointer (RS_Pointer r)))) ErrInvalidResult;
      Ok r
  end.

Definition parseDefinition (raw : option Definition_) : res error Definition_ :=
  match raw with
  | None => Err ErrInvalidDefinition
  | Some def =>
      _ ← refuse_if (Def_SchemaVersion def != DefinitionSchemaVersion) ErrUnsupportedSchemaVersion;
      _ ← refuse_if (schemaRefused (Def_InputSchema def)) ErrInvalidInputSchema;
      _ ← refuse_if match Def_Policy def with
                    | Some p => (DP_MaxParallelNodes p != 0%Z)
                                && ((DP_MaxParallelNodes p <? 1)
                                    || (MaxParallelNodesCeiling <? DP_MaxParallelNodes p))%Z
                    | None => false
                    end ErrInvalidPolicy;
      _ ← refuse_if match Def_Policy def with
                    | Some p => negb (validTimeout (DP_TimeoutSeconds p))
                    | None => false
                    end ErrInvalidPolicy;
      _ ← refuse_if (bool_decide (Def_Nodes def = [])) ErrInvalidDefinition;
      nodes ← parseNodes ∅ (Def_Nodes def);
      g ← match BuildGraph nodes with
          | Ok g => Ok g
          | Err _ => Err ErrInvalidNeeds
          end;
      _ ← checkBindingSources g nodes;
      result ← match Def_Result def with
               | None => Ok None
               | Some r => r ← parseResult (map DN_ID nodes) r; Ok (Some r)
               end;
      Ok (def <| Def_Nodes := nodes |> <| Def_Result := result |>)
  end.

(** *** Agents *)

(** The agent content a node run freezes. *)
Record nodeAgentSnapshot : Type := mknodeAgentSnapshot {
  snap_name : string;
  snap_description : string;
  snap_instructions : string;
  snap_revision : Z
}.
#[export] Instance nodeAgentSnapshot_updatable : Updatable nodeAgentSnapshot := λ r,
  mknodeAgentSnapshot (snap_name r) (snap_description r) (snap_instructions r) (snap_revision r).

Notation agentsMap := (gmap string Agent).

Section Agents.
Context {ags : agentdef.Store error}.



(** The first loop of [resolveDefinitionAgents]. *)
Fixpoint resolveTargets (spaceID : string) (agents : agentsMap) (nodes : list DefinitionNode)
    : res error agentsMap :=
  match nodes with
  | [] => Ok agents
  | node :: nodes' =>
      let agentID := NA_ID (DN_Agent node) in
      if DN_Type node == NodeTypeHumanInput then resolveTargets spaceID agents nodes'
      else if bool_decide (is_Some (agents !! agentID)) then resolveTargets spaceID agents nodes'
      else
        agent ← GetAgent agentID;
        match agent with
        | None => Err ErrInvalidTargetAgent
        | Some agent =>
            if Ag_SpaceID agent != spaceID then Err ErrInvalidTargetAgent
            else resolveTargets spaceID (<[agentID := agent]> agents) nodes'
        end
  end.

(** Its second loop: a pinned revision must exist. *)
Fixpoint checkPins (nodes : list DefinitionNode) : res error unit :=
  match nodes with
  | [] => Ok tt
  | node :: nodes' =>
      let rev := NA_Revision (DN_Agent node) in
      if (rev <=? 0)%Z || (DN_Type node == NodeTypeHumanInput) then checkPins nodes'
      else
        got ← GetAgentRevision (NA_ID (DN_Agent node)) rev;
        match got with
        | None => Err ErrInvalidAgentRevision
        | Some _ => checkPins nodes'
        end
  end.

Definition resolveDefinitionAgents (spaceID : string) (def : Definition_) : res error agentsMap :=
  agents ← resolveTargets spaceID ∅ (Def_Nodes def);
  _ ← checkPins (Def_Nodes def);
  Ok agents.

Definition parseAndValidateDefinition (spaceID : string) (raw : option Definition_)
    : res error (Definition_ * agentsMap) :=
  def ← parseDefinition raw;
  agents ← resolveDefinitionAgents spaceID def;
  Ok (def, agents).

Definition resolveNodeAgentSnapshot (node : DefinitionNode) (agents : agentsMap)
    : res error nodeAgentSnapshot :=
  if (0 <? NA_Revision (DN_Agent node))%Z then
    rev ← GetAgentRevision (NA_ID (DN_Agent node)) (NA_Revision (DN_Agent node));
    match rev with
    | None => Err ErrInvalidAgentRevision
    | Some rev => Ok (mknodeAgentSnapshot (AgR_Name rev) (AgR_Description rev)
                        (AgR_Instructions rev) (AgR_Revision rev))
    end
  else
    match agents !! NA_ID (DN_Agent node) with
    | Some a => Ok (mknodeAgentSnapshot (Ag_Name a) (Ag_Description a) (Ag_Instructions a) (Ag_Revision a))
    | None => Ok (mknodeAgentSnapshot "" "" "" 0)
    end.
End Agents.

Definition pinNode (agents : agentsMap) (node : DefinitionNode) : DefinitionNode :=
  if (NA_Revision (DN_Agent node) == 0%Z) && (DN_Type node == NodeTypeAgentTask)
  then node <| DN_Agent := mkNodeAgent (NA_ID (DN_Agent node))
                 (default 0%Z (Ag_Revision <$> agents !! NA_ID (DN_Agent node))) |>
  else node.

Definition pinDefinitionAgents (def : Definition_) (agents : agentsMap) : Definition_ :=
  def <| Def_Nodes := map (pinNode agents) (Def_Nodes def) |>.

(** *** Run input *)

Definition definitionRequiresIssue (def : Definition_) : bool :=
  existsb (λ n, DN_IssueAccess n == IssueAccessRequired) (Def_Nodes def).

(** A caller's input text after trimming: blank, or what it decodes to
    ([None] where it is not JSON). *)
Inductive RunInput : Type := InputBlank | InputText (value : option json).

Definition resolveRunInput (def : Definition_) (raw : RunInput) : res error (option json) :=
  match Def_InputSchema def, raw with
  | None, InputBlank => Ok None
  | None, InputText _ => Err ErrInvalidRunInput
  | Some _, InputBlank => Err ErrInvalidRunInput
  | Some text, InputText value =>
      match jsonschema.Compile (Some text) with
      | None => Err ErrInvalidInputSchema
      | Some schema =>
          match value with
          | None => Err ErrInvalidRunInput
          | Some v => if jsonschema.Validate schema v then Ok (Some v) else Err ErrInvalidRunInput
          end
      end
  end.

Definition CheckUnattendedRunInput (raw : option Definition_) (input : RunInput) : res error unit :=
  def ← parseDefinition raw;
  if definitionRequiresIssue def then Err ErrIssueRequired
  else _ ← resolveRunInput def input; Ok tt.

End definition.

Import definition.

(** ** A well-formed definition: the specification *)

Definition trimmed (s : string) : Prop := TrimSpace s = s.

Definition valid_schema (schema : option json) : Prop :=
  ∀ raw, schema = Some raw → is_Some (jsonschema.Compile (Some raw)).

Definition valid_timeout (seconds : Z) : Prop :=
  seconds = 0%Z ∨ (60 <= seconds <= 2592000)%Z.

Record valid_binding (b : StepBinding) : Prop := {
  vb_trimmed : trimmed (SB_Name b) ∧ trimmed (SB_Source b) ∧ trimmed (SB_Pointer b);
  vb_name : SB_Name b ≠ "";
  vb_source : SB_Source b = BindingSourceWorkflowInput ∨ ∃ id, SB_Source b = NodeOutputSource id ∧ id ≠ "";
  vb_pointer : ∃ path, SB_Pointer b = pointer_of path;
}.

(** An agent task names an agent; a human input names none, has no Issue and one
    attempt. *)
Definition valid_kind (n : DefinitionNode) : Prop :=
  (DN_Type n = NodeTypeAgentTask ∧ NA_ID (DN_Agent n) ≠ "") ∨
  (DN_Type n = NodeTypeHumanInput ∧ DN_Agent n = mkNodeAgent "" 0 ∧
   DN_IssueAccess n = IssueAccessNone ∧
   ∀ p, DN_Policy n = Some p → (NP_MaxAttempts p <= 1)%Z).

Record valid_node (n : DefinitionNode) : Prop := {
  vn_trimmed : trimmed (DN_ID n) ∧ trimmed (NA_ID (DN_Agent n)) ∧ trimmed (NI_Instruction (DN_Input n));
  vn_id : DN_ID n ≠ "";
  vn_kind : valid_kind n;
  vn_instruction : NI_Instruction (DN_Input n) ≠ "";
  vn_revision : (0 <= NA_Revision (DN_Agent n))%Z;
  vn_access : DN_IssueAccess n ∈ [IssueAccessNone; IssueAccessIfBound; IssueAccessRequired];
  vn_needs : Forall (λ d, trimmed d ∧ d ≠ "") (DN_Needs n);
  vn_bindings : Forall valid_binding (NI_Bindings (DN_Input n));
  vn_names : NoDup (map SB_Name (NI_Bindings (DN_Input n)));
  vn_schema : valid_schema (DN_OutputSchema n);
  vn_policy : ∀ p, DN_Policy n = Some p →
    (0 <= NP_MaxAttempts p <= 5)%Z ∧ valid_timeout (NP_TimeoutSeconds p);
}.

Record valid_result (ids : list string) (r : ResultSelector) : Prop := {
  vr_trimmed : trimmed (RS_Source r) ∧ trimmed (RS_Pointer r);
  vr_source : ∃ id, RS_Source r = NodeOutputSource id ∧ id ∈ ids;
  vr_pointer : ∃ path, RS_Pointer r = pointer_of path;
}.

(** Distinct nodes over a DAG of needs, every binding reading the run input or a
    node that must have run before. *)
Record valid_definition (d : Definition_) : Prop := {
  vd_version : Def_SchemaVersion d = 1%Z;
  vd_input : valid_schema (Def_InputSchema d);
  vd_policy : ∀ p, Def_Policy d = Some p →
    (0 <= DP_MaxParallelNodes p <= 8)%Z ∧ valid_timeout (DP_TimeoutSeconds p);
  vd_nonempty : Def_Nodes d ≠ [];
  vd_nodes : Forall valid_node (Def_Nodes d);
  vd_ids : NoDup (map DN_ID (Def_Nodes d));
  vd_edges : edges_ok (Def_Nodes d);
  vd_acyclic : acyclic (Def_Nodes d);
  vd_reach : ∀ n b id, n ∈ Def_Nodes d → b ∈ NI_Bindings (DN_Input n) →
    SB_Source b = NodeOutputSource id → id ≠ "" → tc (edge (Def_Nodes d)) (DN_ID n) id;
  vd_result : ∀ r, Def_Result d = Some r → valid_result (map DN_ID (Def_Nodes d)) r;
}.

(** ** The checks decide the specification *)

Lemma refuse_if_ok c e : refuse_if c e = Ok tt ↔ c = false.
Proof. destruct c; cbn; split; congruence. Qed.

Lemma refuse_bind {A} c e (m : res error A) x :
  (_ ← refuse_if c e; m) = Ok x ↔ c = false ∧ m = Ok x.
Proof. destruct c; cbn; naive_solver. Qed.

Lemma res_bind_ok {E A B} (m : res E A) (f : A → res E B) y :
  (m ≫= f) = Ok y ↔ ∃ x, m = Ok x ∧ f x = Ok y.
Proof. destruct m; cbn; naive_solver. Qed.

Lemma schemaRefused_false s : schemaRefused s = false ↔ valid_schema s.
Proof.
  unfold valid_schema. destruct s as [raw|]; cbn; [|naive_solver].
  rewrite bool_decide_eq_false. split.
  - intros H ? [= <-]. by apply not_eq_None_Some.
  - intros H. by apply not_eq_None_Some, H.
Qed.

Lemma validTimeout_true s : validTimeout s = true ↔ valid_timeout s.
Proof.
  unfold validTimeout, valid_timeout, MinTimeoutSeconds, MaxTimeoutSeconds.
  rewrite orb_true_iff, andb_true_iff, Z.eqb_eq, !Z.leb_le. lia.
Qed.

Lemma pointer_ok p : is_ok (pointer.ValidatePointer p) = true ↔ ∃ path, p = pointer_of path.
Proof.
  rewrite <- ValidatePointer_iff. destruct (pointer.ValidatePointer p) as [[]|]; cbn; naive_solver.
Qed.

Lemma parseNeeds_ok needs needs' :
  parseNeeds needs = Ok needs' ↔ needs' = map TrimSpace needs ∧ "" ∉ needs'.
Proof.
  revert needs'. induction needs as [|d needs IH]; intros needs'; cbn.
  { split; [intros [= <-]; split; [done|apply not_elem_of_nil]|naive_solver]. }
  rewrite refuse_bind, bool_decide_eq_false, res_bind_ok. setoid_rewrite IH. split.
  - intros (Hd & x & [-> Hx] & [= <-]). split; [done|]. rewrite not_elem_of_cons. done.
  - intros [-> Hn]. rewrite not_elem_of_cons in Hn. destruct Hn as [Hd Hn].
    split; [done|]. eexists. done.
Qed.

Definition trimBinding (b : StepBinding) : StepBinding :=
  mkStepBinding (TrimSpace (SB_Name b)) (TrimSpace (SB_Source b)) (TrimSpace (SB_Pointer b)).

Lemma binding_source_ok s :
  (s != BindingSourceWorkflowInput) && (ParseNodeOutputSource s == None) = false ↔
  s = BindingSourceWorkflowInput ∨ ∃ id, s = NodeOutputSource id ∧ id ≠ "".
Proof.
  rewrite andb_false_iff, negb_false_iff, bool_decide_eq_true, bool_decide_eq_false.
  apply or_iff_compat_l. split.
  - intros H. destruct (ParseNodeOutputSource s) as [id|] eqn:E; [|done].
    exists id. by apply ParseNodeOutputSource_iff in E as [? ?].
  - intros (id & Hs & Hid). by rewrite (proj2 (ParseNodeOutputSource_iff s id)).
Qed.

Lemma parseBinding_ok names b b' :
  parseBinding names b = Ok b' ↔ b' = trimBinding b ∧ SB_Name b' ∉ names ∧ valid_binding b'.
Proof.
  unfold parseBinding. rewrite !refuse_bind. fold (trimBinding b).
  rewrite !bool_decide_eq_false, binding_source_ok, negb_false_iff, pointer_ok. split.
  - intros (Hn & Hnames & Hs & Hp & [= <-]). split_and!; [done|done|].
    split; [|done..]. cbn. unfold trimmed. by rewrite !TrimSpace_idemp.
  - intros (-> & Hnames & [_ Hn Hs Hp]). done.
Qed.

Lemma parseBindings_ok names bs bs' :
  parseBindings names bs = Ok bs' ↔
    bs' = map trimBinding bs ∧ Forall valid_binding bs' ∧ NoDup (map SB_Name bs') ∧
    ∀ b, b ∈ bs' → SB_Name b ∉ names.
Proof.
  revert names bs'. induction bs as [|b bs IH]; intros names bs'; cbn.
  { split; [intros [= <-]; split_and!; [done|constructor|constructor|set_solver]|naive_solver]. }
  rewrite res_bind_ok. setoid_rewrite parseBinding_ok. setoid_rewrite res_bind_ok.
  setoid_rewrite IH. split.
  - intros (? & (-> & Hn & Hv) & ? & (-> & Hall & Hnd & Hf) & [= <-]).
    cbn. split_and!; [done|by constructor| |].
    + constructor; [|done]. intros (x & Hx & Hin)%list_elem_of_fmap. apply (Hf x Hin). set_solver.
    + intros x [->|Hx]%elem_of_cons; [done|]. specialize (Hf x Hx). set_solver.
  - intros (-> & [Hv Hall]%Forall_cons & [Hn Hnd]%NoDup_cons & Hf).
    exists (trimBinding b). split; [split_and!; [done|apply Hf; by left|done]|].
    exists (map trimBinding bs). split; [|done]. split_and!; [done|done|done|].
    intros x Hx. rewrite not_elem_of_union, not_elem_of_singleton. split.
    + intros E. apply Hn. rewrite <- E. by apply list_elem_of_fmap_2.
    + apply Hf. by right.
Qed.

(** What the first pass leaves of a node. *)
Definition canonNode (n : DefinitionNode) : DefinitionNode :=
  mkDefinitionNode (TrimSpace (DN_ID n)) (TrimSpace (DN_Type n)) (map TrimSpace (DN_Needs n))
    (mkNodeAgent (TrimSpace (NA_ID (DN_Agent n))) (NA_Revision (DN_Agent n)))
    (mkNodeInput (TrimSpace (NI_Instruction (DN_Input n))) (map trimBinding (NI_Bindings (DN_Input n))))
    (if DN_IssueAccess n == "" then IssueAccessNone else DN_IssueAccess n)
    (DN_OutputSchema n) (DN_Policy n).

Lemma ValidIssueAccess_true s :
  ValidIssueAccess s = true ↔ s ∈ [IssueAccessNone; IssueAccessIfBound; IssueAccessRequired].
Proof.
  unfold ValidIssueAccess. rewrite !orb_true_iff, !bool_decide_eq_true, !elem_of_cons.
  pose proof (not_elem_of_nil s). tauto.
Qed.

Lemma node_policy_ok (p : option NodePolicy) :
  match p with
  | Some p => (NP_MaxAttempts p <? 0)%Z || (MaxNodeAttemptsCeiling <? NP_MaxAttempts p)%Z
              || negb (validTimeout (NP_TimeoutSeconds p))
  | None => false
  end = false ↔
  ∀ q, p = Some q → (0 <= NP_MaxAttempts q <= 5)%Z ∧ valid_timeout (NP_TimeoutSeconds q).
Proof.
  destruct p as [p|]; [|naive_solver].
  rewrite !orb_false_iff, !Z.ltb_ge, negb_false_iff, validTimeout_true.
  unfold MaxNodeAttemptsCeiling. split; [intros ? ? [= <-]; tauto|]. intros H.
  destruct (H p eq_refl). tauto.
Qed.

(** The type switch, on the canonical node, is [valid_kind] and an instruction. *)
Lemma checkNodeType_ok n access :
  access = (if DN_IssueAccess n == "" then IssueAccessNone else DN_IssueAccess n) →
  checkNodeType n = Ok tt ↔
    valid_kind (n <| DN_IssueAccess := access |>) ∧ NI_Instruction (DN_Input n) ≠ "".
Proof.
  intros ->. unfold checkNodeType, valid_kind. cbn [modify DN_Type DN_Agent DN_IssueAccess DN_Policy DN_Input].
  destruct (decide (DN_Type n = NodeTypeAgentTask)) as [E|E].
  { rewrite E, bool_decide_refl, refuse_if_ok, orb_false_iff, !bool_decide_eq_false.
    unfold NodeTypeAgentTask, NodeTypeHumanInput. naive_solver. }
  rewrite bool_decide_eq_false_2 by done.
  destruct (decide (DN_Type n = NodeTypeHumanInput)) as [E'|E'];
    [|rewrite bool_decide_eq_false_2 by done; naive_solver].
  rewrite E', bool_decide_refl, refuse_if_ok, !orb_false_iff, !negb_false_iff, !bool_decide_eq_true,
    bool_decide_eq_false, andb_false_iff, !negb_false_iff, !bool_decide_eq_true.
  assert (match DN_Policy n with Some p => (1 <? NP_MaxAttempts p)%Z | None => false end = false ↔
    ∀ p, DN_Policy n = Some p → (NP_MaxAttempts p <= 1)%Z) as ->.
  { destruct (DN_Policy n) as [p|]; [|naive_solver]. rewrite Z.ltb_ge. naive_solver. }
  destruct n as [? ? ? [aid rev] ? acc ? ?]; cbn in *.
  destruct (decide (acc = "")) as [->|Ha]; [rewrite bool_decide_refl|rewrite bool_decide_eq_false_2 by done];
    naive_solver.
Qed.

Lemma parseNode_ok ids n n' :
  parseNode ids n = Ok n' ↔ n' = canonNode n ∧ DN_ID n' ∉ ids ∧ valid_node n'.
Proof.
  unfold parseNode. rewrite !refuse_bind, res_bind_ok.
  setoid_rewrite refuse_bind. setoid_rewrite refuse_bind.
  setoid_rewrite res_bind_ok. setoid_rewrite res_bind_ok.
  setoid_rewrite refuse_bind. setoid_rewrite refuse_bind.
  setoid_rewrite parseNeeds_ok. setoid_rewrite parseBindings_ok.
  rewrite !bool_decide_eq_false. setoid_rewrite negb_false_iff.
  setoid_rewrite ValidIssueAccess_true. setoid_rewrite schemaRefused_false.
  setoid_rewrite node_policy_ok. setoid_rewrite Z.ltb_ge.
  cbn [modify DN_ID DN_Type DN_Agent DN_Input DN_IssueAccess DN_Needs DN_OutputSchema DN_Policy
       NA_ID NA_Revision NI_Instruction NI_Bindings].
  split.
  - intros (Hid & Hfresh & [] & Hkind & Hrev & Hacc & needs & [-> Hneeds] & bs
      & (-> & Hbs & Hnd & _) & Hschema & Hpol & [= <-]).
    apply (checkNodeType_ok _ _ eq_refl) in Hkind as [Hkind Hinstr].
    split_and!; [done|done|]. split; cbn in *; try done.
    + unfold trimmed. by rewrite !TrimSpace_idemp.
    + apply Forall_forall. intros d Hd. split; [|by intros ->].
      apply list_elem_of_fmap in Hd as (d' & -> & _). apply TrimSpace_idemp.
  - intros (-> & Hfresh & [_ Hid Hkind Hinstr Hrev Hacc Hneeds Hbs Hnames Hschema Hpol]).
    cbn in *. split_and!; [done|done|]. exists tt. split.
    { apply (checkNodeType_ok _ _ eq_refl). done. }
    split_and!; [done|done|]. eexists. split.
    { split; [done|]. intros Hbad. rewrite Forall_forall in Hneeds. by destruct (Hneeds _ Hbad). }
    eexists. split; [split_and!; [done|done|done|set_solver]|]. done.
Qed.

Lemma parseNodes_ok ids nodes nodes' :
  parseNodes ids nodes = Ok nodes' ↔
    nodes' = map canonNode nodes ∧ Forall valid_node nodes' ∧ NoDup (map DN_ID nodes') ∧
    ∀ n, n ∈ nodes' → DN_ID n ∉ ids.
Proof.
  revert ids nodes'. induction nodes as [|n nodes IH]; intros ids nodes'; cbn.
  { split; [intros [= <-]; split_and!; [done|constructor|constructor|set_solver]|naive_solver]. }
  rewrite res_bind_ok. setoid_rewrite parseNode_ok. setoid_rewrite res_bind_ok.
  setoid_rewrite IH. split.
  - intros (? & (-> & Hn & Hv) & ? & (-> & Hall & Hnd & Hf) & [= <-]).
    cbn. split_and!; [done|by constructor| |].
    + constructor; [|done]. intros (x & Hx & Hin)%list_elem_of_fmap. apply (Hf x Hin). set_solver.
    + intros x [->|Hx]%elem_of_cons; [done|]. specialize (Hf x Hx). set_solver.
  - intros (-> & [Hv Hall]%Forall_cons & [Hn Hnd]%NoDup_cons & Hf).
    exists (canonNode n). split; [split_and!; [done|apply Hf; by left|done]|].
    exists (map canonNode nodes). split; [|done]. split_and!; [done|done|done|].
    intros x Hx. rewrite not_elem_of_union, not_elem_of_singleton. split.
    + intros E. apply Hn. rewrite <- E. by apply list_elem_of_fmap_2.
    + apply Hf. by right.
Qed.

Definition trimResult (r : ResultSelector) : ResultSelector :=
  mkResultSelector (TrimSpace (RS_Source r)) (TrimSpace (RS_Pointer r)).

Lemma parseResult_ok ids r r' :
  Forall (λ id, id ≠ "") ids →
  parseResult ids r = Ok r' ↔ r' = trimResult r ∧ valid_result ids r'.
Proof.
  intros Hids. unfold parseResult. fold (trimResult r). split.
  - destruct (ParseNodeOutputSource _) as [from|] eqn:E; [|done].
    rewrite !refuse_bind, bool_decide_eq_false, negb_false_iff, pointer_ok.
    apply ParseNodeOutputSource_iff in E as [Hne E]. intros (Hin & Hp & [= <-]).
    split; [done|]. split; [cbn; unfold trimmed; by rewrite !TrimSpace_idemp| |done].
    exists from. split; [done|]. by apply dec_stable.
  - intros (-> & [_ (id & Hs & Hid) Hp]).
    rewrite Forall_forall in Hids.
    rewrite (proj2 (ParseNodeOutputSource_iff _ id)) by (split; [by apply Hids|done]).
    rewrite !refuse_bind, bool_decide_eq_false, negb_false_iff, pointer_ok.
    split_and!; [by intros Hn|done|done].
Qed.

Lemma checkBindingSources_ok g nodes :
  NoDup (map DN_ID nodes) → BuildGraph nodes = Ok g →
  checkBindingSources g nodes = Ok tt ↔
  ∀ n b id, n ∈ nodes → b ∈ NI_Bindings (DN_Input n) →
    SB_Source b = NodeOutputSource id → id ≠ "" → tc (edge nodes) (DN_ID n) id.
Proof.
  intros Hnd Hg. unfold checkBindingSources.
  rewrite refuse_if_ok, negb_false_iff, forallb_forall. setoid_rewrite forallb_forall.
  setoid_rewrite <- list_elem_of_In. unfold bindingReaches. split.
  - intros H n b id Hn Hb Hs Hid. specialize (H n Hn b Hb).
    rewrite (proj2 (ParseNodeOutputSource_iff _ id)) in H by done.
    by eapply IsPredecessor_iff.
  - intros H n Hn b Hb. destruct (ParseNodeOutputSource _) as [id|] eqn:E; [|done].
    apply ParseNodeOutputSource_iff in E as [Hid Hs].
    apply (IsPredecessor_iff nodes g); [done|done|]. by eapply H.
Qed.

Definition canonDefinition (d : Definition_) : Definition_ :=
  mkDefinition_ (Def_SchemaVersion d) (Def_InputSchema d) (Def_Policy d)
    (map canonNode (Def_Nodes d)) (trimResult <$> Def_Result d).

Lemma definition_policy_ok (p : option DefinitionPolicy) :
  match p with
  | Some p => (DP_MaxParallelNodes p != 0%Z)
              && ((DP_MaxParallelNodes p <? 1) || (MaxParallelNodesCeiling <? DP_MaxParallelNodes p))%Z
  | None => false
  end = false ∧
  match p with Some p => negb (validTimeout (DP_TimeoutSeconds p)) | None => false end = false ↔
  ∀ q, p = Some q → (0 <= DP_MaxParallelNodes q <= 8)%Z ∧ valid_timeout (DP_TimeoutSeconds q).
Proof.
  destruct p as [p|]; [|naive_solver].
  rewrite andb_false_iff, negb_false_iff, bool_decide_eq_true, orb_false_iff, !Z.ltb_ge,
    negb_false_iff, validTimeout_true. unfold MaxParallelNodesCeiling.
  split; [intros [? ?] ? [= <-]; split; [lia|done]|].
  intros H. destruct (H p eq_refl). split; [lia|done].
Qed.

Lemma parseDefinition_ok raw d :
  parseDefinition (Some raw) = Ok d ↔ d = canonDefinition raw ∧ valid_definition d.
Proof.
  unfold parseDefinition. rewrite !refuse_bind, res_bind_ok.
  rewrite negb_false_iff, bool_decide_eq_true, schemaRefused_false, bool_decide_eq_false.
  setoid_rewrite parseNodes_ok. split.
  - intros (Hver & Hin & Hp1 & Hp2 & Hne & nodes & (-> & Hnodes & Hnd & _) & Hrest).
    destruct (BuildGraph (map canonNode (Def_Nodes raw))) as [g|] eqn:Hg; cbn in Hrest; [|done].
    apply res_bind_ok in Hrest as ([] & Hreach & Hrest).
    pose proof (proj1 (checkBindingSources_ok g _ Hnd Hg) Hreach) as Hreach'.
    apply res_bind_ok in Hrest as (result & Hres & [= <-]).
    pose proof (proj1 (BuildGraph_iff _ Hnd) (ex_intro _ g Hg)) as [He Hac].
    assert (result = trimResult <$> Def_Result raw ∧
      ∀ r, result = Some r → valid_result (map DN_ID (map canonNode (Def_Nodes raw))) r) as [-> Hvr].
    { destruct (Def_Result raw) as [r|]; [|injection Hres as <-; done].
      apply res_bind_ok in Hres as (r' & Hr & [= <-]). apply parseResult_ok in Hr as [-> Hr].
      - split; [done|]. by intros ? [= <-].
      - apply Forall_map. eapply Forall_impl; [exact Hnodes|]. intros n Hn. apply Hn. }
    split; [by destruct raw|]. split; cbn; try done.
    + by apply definition_policy_ok.
    + by destruct (Def_Nodes raw).
  - intros [-> [Hver Hin Hpol Hne Hnodes Hnd He Hac Hreach Hvr]]. cbn in *.
    apply definition_policy_ok in Hpol as [Hp1 Hp2].
    split_and!; [done|done|done|done|by intros E; rewrite E in Hne|].
    exists (map canonNode (Def_Nodes raw)). split; [split_and!; [done|done|done|set_solver]|].
    destruct (proj2 (BuildGraph_iff _ Hnd) (conj He Hac)) as [g Hg]. rewrite Hg. cbn.
    apply res_bind_ok. exists tt. split; [by apply (checkBindingSources_ok g _ Hnd Hg)|].
    apply res_bind_ok. exists (trimResult <$> Def_Result raw). split; [|by destruct raw].
    destruct (Def_Result raw) as [r|]; [|done]. cbn. apply res_bind_ok. exists (trimResult r).
    split; [|done]. apply parseResult_ok; [|split; [done|by apply Hvr]].
    apply Forall_map. eapply Forall_impl; [exact Hnodes|]. intros n Hn. apply Hn.
Qed.

Lemma trimBinding_id b : valid_binding b → trimBinding b = b.
Proof. intros [(H1 & H2 & H3) _ _ _]. unfold trimBinding. rewrite H1, H2, H3. by destruct b. Qed.

Lemma map_id_Forall {A} (f : A → A) (P : A → Prop) l :
  (∀ x, P x → f x = x) → Forall P l → map f l = l.
Proof. intros Hf. induction 1; cbn; [done|]. f_equal; auto. Qed.

Lemma valid_kind_type n : valid_kind n → TrimSpace (DN_Type n) = DN_Type n.
Proof. by intros [[-> _]|[-> _]]. Qed.

Lemma canonNode_id n : valid_node n → canonNode n = n.
Proof.
  intros [(H1 & H2 & H3) _ Hkind _ _ Hacc Hneeds Hbs _ _ _]. unfold canonNode.
  rewrite H1, H2, H3, (valid_kind_type n Hkind), (map_id_Forall _ _ _ trimBinding_id Hbs).
  rewrite (map_id_Forall TrimSpace (λ d, trimmed d ∧ d ≠ "")); [|by intros ? []|done].
  rewrite bool_decide_eq_false_2.
  - by destruct n as [? ? ? [] [] ? ? ?].
  - intros E. rewrite E in Hacc. by rewrite !elem_of_cons, elem_of_nil in Hacc; destruct Hacc as [|[|[|]]].
Qed.

Lemma canonDefinition_id d : valid_definition d → canonDefinition d = d.
Proof.
  intros [_ _ _ _ Hnodes _ _ _ _ Hres]. unfold canonDefinition.
  rewrite (map_id_Forall _ _ _ canonNode_id Hnodes).
  destruct d as [? ? ? ? [r|]]; cbn; [|done]. do 2 f_equal.
  destruct (Hres r eq_refl) as [[H1 H2] _ _]. unfold trimResult. rewrite H1, H2. by destruct r.
Qed.

(** C36: a definition parseDefinition accepts is well-formed: schema version 1,
    schemas in the supported subset, limits in bounds, distinct non-blank node
    ids of a known type over an acyclic graph of needs, every binding and the
    result reading the run input or an existing node (a binding only a
    transitive predecessor of its node) at a valid pointer. *)
Theorem parseDefinition_valid (raw d : Definition_) :
  parseDefinition (Some raw) = Ok d → valid_definition d ∧ d = canonDefinition raw.
Proof. intros H. by apply parseDefinition_ok in H as [? ?]. Qed.

(** C37: conversely every well-formed definition is accepted unchanged, so what
    publishing stores parses back to itself when a run starts. *)
Theorem parseDefinition_complete (d : Definition_) :
  valid_definition d → parseDefinition (Some d) = Ok d.
Proof. intros H. apply parseDefinition_ok. by rewrite canonDefinition_id. Qed.

(** ** Pinning *)

(** The documented behaviour of an agent store: a live agent's current revision
    is at least 1 and is recorded. *)
Definition revisions_recorded {ags : agentdef.Store error} : Prop :=
  ∀ id a, GetAgent id = Ok (Some a) →
    (1 <= Ag_Revision a)%Z ∧ ∃ r, GetAgentRevision id (Ag_Revision a) = Ok (Some r).

(** Every agent task names a recorded revision of its agent. *)
Definition pinned {ags : agentdef.Store error} (d : Definition_) : Prop :=
  ∀ n, n ∈ Def_Nodes d → DN_Type n = NodeTypeAgentTask →
    (0 < NA_Revision (DN_Agent n))%Z ∧
    ∃ r, GetAgentRevision (NA_ID (DN_Agent n)) (NA_Revision (DN_Agent n)) = Ok (Some r).

Lemma pinNode_fields agents n :
  DN_ID (pinNode agents n) = DN_ID n ∧ DN_Type (pinNode agents n) = DN_Type n ∧
  DN_Needs (pinNode agents n) = DN_Needs n ∧ NA_ID (DN_Agent (pinNode agents n)) = NA_ID (DN_Agent n) ∧
  DN_Input (pinNode agents n) = DN_Input n ∧ DN_IssueAccess (pinNode agents n) = DN_IssueAccess n ∧
  DN_OutputSchema (pinNode agents n) = DN_OutputSchema n ∧ DN_Policy (pinNode agents n) = DN_Policy n.
Proof. unfold pinNode. by destruct (_ && _). Qed.

Lemma pinNode_valid agents n :
  (∀ a, agents !! NA_ID (DN_Agent n) = Some a → (0 <= Ag_Revision a)%Z) →
  valid_node n → valid_node (pinNode agents n).
Proof.
  intros Ha [Ht Hid Hk Hi Hr Hacc Hn Hb Hnm Hs Hp].
  unfold pinNode. destruct (_ && _) eqn:E; [|done].
  apply andb_true_iff in E as [Erev%bool_decide_eq_true Etype%bool_decide_eq_true].
  split; cbn; try done.
  - left. cbn. split; [done|]. destruct Hk as [[_ ?]|(Hbad & _)]; [done|].
    rewrite Etype in Hbad. done.
  - destruct (agents !! _) as [a|] eqn:Ea; cbn; [by eapply Ha|lia].
Qed.

Lemma pin_map {B} (f : DefinitionNode → B) agents nodes :
  (∀ n, f (pinNode agents n) = f n) → map f (map (pinNode agents) nodes) = map f nodes.
Proof. intros H. rewrite map_map. by apply map_ext. Qed.

Lemma pin_fixed d agents :
  map (pinNode agents) (Def_Nodes d) = Def_Nodes d → pinDefinitionAgents d agents = d.
Proof. intros H. unfold pinDefinitionAgents. rewrite H. by destruct d. Qed.

Lemma pin_elem agents nodes n :
  n ∈ map (pinNode agents) nodes ↔ ∃ m, n = pinNode agents m ∧ m ∈ nodes.
Proof. apply list_elem_of_fmap. Qed.

Lemma pin_edge agents nodes a b : edge (map (pinNode agents) nodes) a b ↔ edge nodes a b.
Proof.
  unfold edge. split.
  - intros (n & (m & -> & Hm)%pin_elem & Ha & Hb).
    destruct (pinNode_fields agents m) as (E1 & _ & E2 & _). rewrite E1 in Ha. rewrite E2 in Hb. eauto.
  - intros (m & Hm & Ha & Hb). exists (pinNode agents m).
    destruct (pinNode_fields agents m) as (E1 & _ & E2 & _). rewrite E1, E2.
    split_and!; [apply pin_elem; eauto|done|done].
Qed.

Lemma tc_mono {A} (R S : relation A) x y : (∀ a b, R a b → S a b) → tc R x y → tc S x y.
Proof. intros H. induction 1; [by apply tc_once, H|eapply tc_l; [by apply H|done]]. Qed.

Lemma pinDefinition_valid d agents :
  (∀ n a, n ∈ Def_Nodes d → agents !! NA_ID (DN_Agent n) = Some a → (0 <= Ag_Revision a)%Z) →
  valid_definition d → valid_definition (pinDefinitionAgents d agents).
Proof.
  intros Ha [Hver Hin Hpol Hne Hnodes Hnd He Hac Hreach Hvr].
  assert (map DN_ID (map (pinNode agents) (Def_Nodes d)) = map DN_ID (Def_Nodes d)) as Hids.
  { apply pin_map. intros n. apply pinNode_fields. }
  split; cbn; try done.
  - by destruct (Def_Nodes d).
  - rewrite Forall_forall in *. intros n (m & -> & Hm)%pin_elem.
    apply pinNode_valid; [by intros a; apply Ha|by apply Hnodes].
  - by rewrite Hids.
  - intros n (m & -> & Hm)%pin_elem. destruct (pinNode_fields agents m) as (E1 & _ & E2 & _).
    rewrite E1, E2, Hids. by apply He.
  - intros a Hbad. apply (Hac a). eapply tc_mono; [|exact Hbad]. intros ? ?. apply pin_edge.
  - intros n b id (m & -> & Hm)%pin_elem Hb Hs Hid.
    destruct (pinNode_fields agents m) as (E1 & _ & _ & _ & E2 & _). rewrite E2 in Hb. rewrite E1.
    eapply tc_mono; [|by eapply Hreach]. intros ? ?. by apply pin_edge.
  - intros r Hr. rewrite Hids. by apply Hvr.
Qed.

Section Pinning.
Context {ags : agentdef.Store error}.

Lemma resolveTargets_spec spaceID m nodes agents :
  resolveTargets spaceID m nodes = Ok agents →
  (∀ id a, m !! id = Some a → agents !! id = Some a) ∧
  (∀ n, n ∈ nodes → DN_Type n ≠ NodeTypeHumanInput → is_Some (agents !! NA_ID (DN_Agent n))) ∧
  (∀ id a, agents !! id = Some a →
     m !! id = Some a ∨ (GetAgent id = Ok (Some a) ∧ Ag_SpaceID a = spaceID)).
Proof.
  revert m. induction nodes as [|n nodes IH]; intros m; cbn.
  { intros [= <-]. split_and!; [done|by intros ? ?%not_elem_of_nil|by left]. }
  destruct (bool_decide_reflect (DN_Type n = NodeTypeHumanInput)) as [Eh|Eh].
  { intros Hrun. destruct (IH _ Hrun) as (H1 & H2 & H3). split_and!; [done| |done].
    intros n' [->|Hn]%elem_of_cons; [done|by apply H2]. }
  case_bool_decide as Hin.
  { intros Hrun. destruct (IH _ Hrun) as (H1 & H2 & H3). split_and!; [done| |done].
    intros n' [->|Hn]%elem_of_cons; [|by apply H2]. intros _.
    destruct Hin as [a Ha]. eauto. }
  destruct (GetAgent _) as [[a|]|] eqn:Eg; cbn; [|done|done].
  destruct (bool_decide_reflect (Ag_SpaceID a = spaceID)) as [Es|Es]; cbn; [|done].
  intros Hrun. destruct (IH _ Hrun) as (H1 & H2 & H3).
  assert (m !! NA_ID (DN_Agent n) = None) as Hnone by (by apply eq_None_not_Some).
  split_and!.
  - intros id a' Ha'. apply H1. rewrite lookup_insert_ne; [done|]. intros <-. congruence.
  - intros n' [->|Hn]%elem_of_cons; [|by apply H2]. intros _. exists a. apply H1.
    by apply lookup_insert_eq.
  - intros id a' Ha'. destruct (H3 _ _ Ha') as [Hm|?]; [|by right].
    rewrite lookup_insert in Hm. case_decide; [|by left]. right. by simplify_eq.
Qed.

Lemma resolveTargets_pin spaceID ag m nodes :
  resolveTargets spaceID m (map (pinNode ag) nodes) = resolveTargets spaceID m nodes.
Proof.
  revert m. induction nodes as [|n nodes IH]; intros m; cbn; [done|].
  destruct (pinNode_fields ag n) as (_ & -> & _ & -> & _). rewrite !IH.
  destruct (DN_Type n == NodeTypeHumanInput); [done|]. case_bool_decide; [done|].
  destruct (GetAgent _) as [[a|]|]; cbn; [|done|done]. by rewrite IH.
Qed.

Lemma checkPins_ok nodes :
  checkPins nodes = Ok tt ↔
  ∀ n, n ∈ nodes → (0 < NA_Revision (DN_Agent n))%Z → DN_Type n ≠ NodeTypeHumanInput →
    ∃ r, GetAgentRevision (NA_ID (DN_Agent n)) (NA_Revision (DN_Agent n)) = Ok (Some r).
Proof.
  induction nodes as [|n nodes IH]; cbn; [split; [by intros _ ? ?%not_elem_of_nil|done]|].
  destruct (_ || _) eqn:E.
  - rewrite IH. setoid_rewrite elem_of_cons. apply orb_true_iff in E.
    rewrite Z.leb_le, bool_decide_eq_true in E. naive_solver lia.
  - apply orb_false_iff in E as [E1%Z.leb_gt E2%bool_decide_eq_false].
    destruct (GetAgentRevision _ _) as [[r|]|] eqn:Eg; cbn.
    + rewrite IH. setoid_rewrite elem_of_cons. naive_solver.
    + split; [done|]. intros H. destruct (H n) as [r Hr]; [by left|done|done|congruence].
    + split; [done|]. intros H. destruct (H n) as [r Hr]; [by left|done|done|congruence].
Qed.
End Pinning.

(** After pinning, every agent task of a validated definition names a recorded
    revision of an agent of the space. *)
Lemma pin_nodes {ags : agentdef.Store error} spaceID d agents :
  revisions_recorded → valid_definition d → resolveTargets spaceID ∅ (Def_Nodes d) = Ok agents →
  checkPins (Def_Nodes d) = Ok tt →
  ∀ n, n ∈ Def_Nodes (pinDefinitionAgents d agents) → DN_Type n = NodeTypeAgentTask →
    (0 < NA_Revision (DN_Agent n))%Z ∧
    (∃ r, GetAgentRevision (NA_ID (DN_Agent n)) (NA_Revision (DN_Agent n)) = Ok (Some r)) ∧
    ∃ a, GetAgent (NA_ID (DN_Agent n)) = Ok (Some a) ∧ Ag_SpaceID a = spaceID.
Proof.
  intros Hrec Hd Ht Hp n (m & -> & Hm)%pin_elem Htype.
  destruct (resolveTargets_spec _ _ _ _ Ht) as (_ & Hdom & Hag). rewrite checkPins_ok in Hp.
  destruct (pinNode_fields agents m) as (_ & E & _ & Eid & _). rewrite E in Htype. rewrite Eid.
  assert (DN_Type m ≠ NodeTypeHumanInput) as Hh by (by rewrite Htype).
  destruct (Hdom m Hm Hh) as [a Ha].
  assert (GetAgent (NA_ID (DN_Agent m)) = Ok (Some a) ∧ Ag_SpaceID a = spaceID) as [Hget Hsp].
  { destruct (Hag _ _ Ha) as [Hbad|?]; [by rewrite lookup_empty in Hbad|done]. }
  destruct (Hrec _ _ Hget) as (Hr1 & r & Hr).
  unfold pinNode. rewrite Ha, Htype, bool_decide_refl, andb_true_r. cbn.
  destruct (bool_decide_reflect (NA_Revision (DN_Agent m) = 0%Z)) as [E0|E0]; cbn.
  - split_and!; [lia|by eauto|by eauto].
  - pose proof (vd_nodes _ Hd) as Hn. rewrite Forall_forall in Hn.
    pose proof (vn_revision _ (Hn m Hm)). split_and!; [lia|apply Hp; [done|lia|done]|by eauto].
Qed.

Lemma pin_once agents d :
  (∀ n, n ∈ Def_Nodes d → DN_Type n = NodeTypeAgentTask → (0 < NA_Revision (DN_Agent n))%Z) →
  pinDefinitionAgents d agents = d.
Proof.
  intros H. apply pin_fixed.
  apply (map_id_Forall _ (λ n, DN_Type n = NodeTypeAgentTask → (0 < NA_Revision (DN_Agent n))%Z)).
  - intros n Hn. unfold pinNode. destruct (_ && _) eqn:E; [|done].
    apply andb_true_iff in E as [E1%bool_decide_eq_true E2%bool_decide_eq_true]. specialize (Hn E2). lia.
  - apply Forall_forall. by apply H.
Qed.

(** A validated definition, pinned, validates to itself. *)
Lemma pinned_plan {ags : agentdef.Store error} spaceID raw d agents :
  revisions_recorded → parseAndValidateDefinition spaceID raw = Ok (d, agents) →
  let p := pinDefinitionAgents d agents in
  pinned p ∧
  (∀ n, n ∈ Def_Nodes p → DN_Type n = NodeTypeAgentTask →
     ∃ a, GetAgent (NA_ID (DN_Agent n)) = Ok (Some a) ∧ Ag_SpaceID a = spaceID) ∧
  parseAndValidateDefinition spaceID (Some p) = Ok (p, agents) ∧
  pinDefinitionAgents p agents = p.
Proof.
  intros Hrec H. unfold parseAndValidateDefinition in H. destruct raw as [raw|]; [|done].
  apply res_bind_ok in H as (d' & Hd & H). apply parseDefinition_ok in Hd as [_ Hd].
  apply res_bind_ok in H as (agents' & H & [= <- <-]). unfold resolveDefinitionAgents in H.
  apply res_bind_ok in H as (agents'' & Ht & H). apply res_bind_ok in H as ([] & Hp & [= <-]).
  pose proof (pin_nodes _ _ _ Hrec Hd Ht Hp) as Hpin. intros p.
  destruct (resolveTargets_spec _ _ _ _ Ht) as (_ & _ & Hag).
  assert (valid_definition p) as Hv.
  { apply pinDefinition_valid; [|done]. intros n a _ Ha. destruct (Hag _ _ Ha) as [Hbad|[Hget _]].
    - by rewrite lookup_empty in Hbad.
    - destruct (Hrec _ _ Hget). lia. }
  split_and!.
  - intros n Hn Htype. by destruct (Hpin n Hn Htype) as (? & ? & _).
  - intros n Hn Htype. by destruct (Hpin n Hn Htype) as (_ & _ & a).
  - unfold parseAndValidateDefinition.
    rewrite (proj2 (parseDefinition_ok _ _) (conj (eq_sym (canonDefinition_id _ Hv)) Hv)). cbn.
    unfold resolveDefinitionAgents. subst p. cbn. rewrite resolveTargets_pin, Ht. cbn.
    rewrite (proj2 (checkPins_ok _)); [done|]. intros n Hn Hr Hh. apply (Hpin n Hn).
    pose proof (vd_nodes _ Hv) as Hnodes. rewrite Forall_forall in Hnodes.
    by destruct (vn_kind _ (Hnodes n Hn)) as [[? _]|[? _]].
  - apply pin_once. intros n Hn Htype. by destruct (Hpin n Hn Htype).
Qed.

(** publishing freezes every "latest": after [pinDefinitionAgents] each
    agent task names a recorded revision of an agent of the space, nothing else
    of the plan changes, and a run that validates the stored plan again gets
    that very plan and the same agents. *)
Lemma pinDefinitionAgents_pins {ags : agentdef.Store error} spaceID raw d agents :
  revisions_recorded →
  parseAndValidateDefinition spaceID raw = Ok (d, agents) →
  let p := pinDefinitionAgents d agents in
  pinned p ∧
  (∀ n, n ∈ Def_Nodes p → DN_Type n = NodeTypeAgentTask →
     ∃ a, GetAgent (NA_ID (DN_Agent n)) = Ok (Some a) ∧ Ag_SpaceID a = spaceID) ∧
  parseAndValidateDefinition spaceID (Some p) = Ok (p, agents) ∧
  pinDefinitionAgents p agents = p.
Proof. apply pinned_plan. Qed.

(** ** Witnesses *)

Definition sample_definition : Definition_ :=
  mkDefinition_ 1 (Some (JObj [("type", JStr "string")])) (Some (mkDefinitionPolicy 2 3600))
    [mkDefinitionNode " plan " "agent_task" [] (mkNodeAgent "agt_1" 0)
       (mkNodeInput "plan it" [mkStepBinding "topic" "workflow.input" ""]) "" None
       (Some (mkNodePolicy 120 3));
     mkDefinitionNode "review" "human_input" ["plan"] (mkNodeAgent "" 0)
       (mkNodeInput "is it good? " [mkStepBinding "plan" "node.plan.output" "/text"]) "none" None None]
    (Some (mkResultSelector "node.review.output" "/value")).

Definition sample_agent : Agent := mkAgent "agt_1" "spc_1" "Planner" "" "" 4 "" "" None.

#[local] Instance sample_store : agentdef.Store error := {
  GetAgent id := Ok (if id == "agt_1" then Some sample_agent else None);
  GetAgentIncludingDeleted id := Ok (if id == "agt_1" then Some sample_agent else None);
  GetAgentRevision id rev :=
    Ok (if (id == "agt_1") && ((1 <=? rev) && (rev <=? 4))%Z
        then Some (mkRevision_ id rev "Planner" "" "") else None)
}.

Definition sample_parsed : Definition_ :=
  Eval vm_compute in match parseDefinition (Some sample_definition) with Ok d => d | Err _ => sample_definition end.

Lemma sample_parsed_ok : parseDefinition (Some sample_definition) = Ok sample_parsed.
Proof. vm_compute. reflexivity. Qed.

Lemma parseDefinition_valid_witness :
  map DN_ID (Def_Nodes sample_parsed) = ["plan"; "review"] ∧
  valid_definition sample_parsed ∧ sample_parsed = canonDefinition sample_definition.
Proof.
  split; [reflexivity|]. exact (parseDefinition_valid sample_definition sample_parsed sample_parsed_ok).
Defined.

Lemma parseDefinition_complete_witness :
  valid_definition sample_parsed ∧ parseDefinition (Some sample_parsed) = Ok sample_parsed.
Proof.
  assert (valid_definition sample_parsed) as H
    by exact (proj2 (proj1 (parseDefinition_ok _ _) sample_parsed_ok)).
  split; [exact H|]. exact (parseDefinition_complete sample_parsed H).
Defined.

Lemma sample_store_recorded : revisions_recorded.
Proof.
  intros id a. cbn. case_bool_decide as E; [|done]. intros [= <-]. split; [cbn; lia|].
  by eexists.
Qed.

Definition sample_agents : agentsMap := {["agt_1" := sample_agent]}.

Lemma pinDefinitionAgents_pins_witness :
  let p := pinDefinitionAgents sample_parsed sample_agents in
  map (λ n, NA_Revision (DN_Agent n)) (Def_Nodes p) = [4%Z; 0%Z] ∧ pinned p ∧
  (∀ n, n ∈ Def_Nodes p → DN_Type n = NodeTypeAgentTask →
     ∃ a, GetAgent (NA_ID (DN_Agent n)) = Ok (Some a) ∧ Ag_SpaceID a = "spc_1") ∧
  parseAndValidateDefinition "spc_1" (Some p) = Ok (p, sample_agents) ∧
  pinDefinitionAgents p sample_agents = p.
Proof.
  split; [vm_compute; reflexivity|].
  apply (pinDefinitionAgents_pins "spc_1" (Some sample_definition)).
  - exact sample_store_recorded.
  - vm_compute. reflexivity.
Defined.
