(* ===== verification/Store.v ===== *)
(** * Store: the database the stores of internal/infra/db share

    Each table is the list of its rows in primary-key order; a row refers to
    another by public id.  Tables that only answer "does this handle resolve"
    are the set [st_refs] of (table, public id).  An operation is an [Eff] over
    the whole store; a SQL transaction is [transaction]. *)

From S2P Require Import Prelude Json TaskCore WorkflowCore LedgerCore.
From stdpp Require Import gmap.

Module db.
Local Open Scope string_scope.

(** The rows of internal/infra/db/schedule.go.  The executor and what the last
    firing produced are opaque handles. *)
Record scheduleRow : Type := mkScheduleRow {
  Sch_ID : string;
  Sch_SpaceID : string;
  Sch_ExecutorKind : string;
  Sch_ExecutorID : string;
  Sch_CreatedBy : string;
  Sch_Name : string;
  Sch_Input : string;
  Sch_CronExpr : string;
  Sch_Timezone : string;
  Sch_Enabled : bool;
  Sch_PauseReason : string;
  Sch_NextFireAt : Z;
  Sch_LastFireAt : option Z;
  Sch_LastFireRef : option string;
  Sch_ConsecutiveFailures : Z;
  Sch_DeliveryAssistantID : option string;
  Sch_DeliveryRequesterID : option string;
  Sch_CreatedAt : Z;
  Sch_UpdatedAt : Z
}.
#[export] Instance scheduleRow_updatable : Updatable scheduleRow := λ r,
  mkScheduleRow (Sch_ID r) (Sch_SpaceID r) (Sch_ExecutorKind r) (Sch_ExecutorID r) (Sch_CreatedBy r)
    (Sch_Name r) (Sch_Input r) (Sch_CronExpr r) (Sch_Timezone r) (Sch_Enabled r) (Sch_PauseReason r)
    (Sch_NextFireAt r) (Sch_LastFireAt r) (Sch_LastFireRef r) (Sch_ConsecutiveFailures r)
    (Sch_DeliveryAssistantID r) (Sch_DeliveryRequesterID r) (Sch_CreatedAt r) (Sch_UpdatedAt r).

Record scheduleDeliveryRow : Type := mkScheduleDeliveryRow {
  SD_ID : string;
  SD_ScheduleID : string;
  SD_FireRef : string;
  SD_Status : string;
  SD_Reason : string;
  SD_CreatedAt : Z;
  SD_SettledAt : option Z
}.
#[export] Instance scheduleDeliveryRow_updatable : Updatable scheduleDeliveryRow := λ r,
  mkScheduleDeliveryRow (SD_ID r) (SD_ScheduleID r) (SD_FireRef r) (SD_Status r) (SD_Reason r)
    (SD_CreatedAt r) (SD_SettledAt r).

(** A row of llm_model: the model, whose capabilities are kept as one text, and
    the column no general read selects, its sealed credential. *)
Record llmModelRow : Type := mkLLMModelRow {
  LM_Model : coregw.Model;
  LM_Capabilities : string;
  LM_APIKeySealed : option string
}.
#[export] Instance llmModelRow_updatable : Updatable llmModelRow := λ r,
  mkLLMModelRow (LM_Model r) (LM_Capabilities r) (LM_APIKeySealed r).

Record Store : Type := mkStore {
  st_workflows : list coreworkflow.Workflow;
  st_revisions : list coreworkflow.Revision;
  st_runs : list coreworkflow.Run;
  st_nodes : list coreworkflow.NodeRun;
  st_requests : list coreworkflow.Request;
  st_tasks : list coretask.Task;
  st_taskruns : list coretask.Run;
  st_schedules : list scheduleRow;
  st_deliveries : list scheduleDeliveryRow;
  st_conversations : list (string * string);
  st_calls : list coregw.Call;
  st_models : list llmModelRow;
  st_tiers : list corequota.Tier;
  st_audit : list coreaudit.Event;
  st_messages : list coreconv.Message;
  (** The column turn_fence of conversation, where it is not zero. *)
  st_turn_fence : gmap string Z;
  st_refs : gset (string * string);
  st_clock : Z;
  st_fresh : nat
}.
#[export] Instance Store_updatable : Updatable Store := λ r,
  mkStore (st_workflows r) (st_revisions r) (st_runs r) (st_nodes r) (st_requests r) (st_tasks r)
    (st_taskruns r) (st_schedules r) (st_deliveries r) (st_conversations r)
    (st_calls r) (st_models r) (st_tiers r) (st_audit r) (st_messages r) (st_turn_fence r) (st_refs r) (st_clock r) (st_fresh r).

Inductive error : Type :=
| ErrNotFound
| ErrRecordNotFound
| ErrPublicIDExhausted
| ErrInvalidTaskTransition
| ErrRunInProgress
| ErrTaskAdmissionConflict
| ErrAdmissionKeyRequired
| ErrConflict
| ErrInvalidRunTransition
| ErrInvalidNodeRunTransition
| ErrRevisionConflict
| ErrRequestResolution
| ErrDuplicateKey
(** A refusal of a service, by its text. *)
| ErrService (message : string).

#[export] Instance error_eq_dec : EqDecision error.
Proof. solve_decision. Defined.

Definition DB (A : Type) : Type := Eff error Store A.

(** [db.Transaction]: an error rolls every write back.  The public ids drawn
    stay drawn: they are random, not rows. *)
Definition transaction {A} (m : DB A) : DB A := λ s,
  match m s with
  | (Ok a, s') => (Ok a, s')
  | (Err e, s') => (Err e, s <| st_fresh := st_fresh s' |>)
  end.

(** A call into the store after what other processes committed since the
    caller's last one. *)
Definition after {A} (others : Store → Store) (m : DB A) : DB A := λ s, m (others s).

(** [time.Now()] *)
Definition now : DB Z := gets st_clock.

(** Whether a public id names a row of a table. *)
Definition resolves (s : Store) (table id : string) : bool :=
  if table == "task" then bool_decide (id ∈ map coretask.Task_ID (st_tasks s))
  else if table == "task_run" then bool_decide (id ∈ map coretask.Run_ID (st_taskruns s))
  else if table == "workflow" then bool_decide (id ∈ map coreworkflow.Wf_ID (st_workflows s))
  else if table == "workflow_run" then bool_decide (id ∈ map coreworkflow.Run_ID (st_runs s))
  else if table == "schedule" then bool_decide (id ∈ map Sch_ID (st_schedules s))
  else if table == "conversation" then bool_decide (id ∈ map fst (st_conversations s))
  else bool_decide ((table, id) ∈ st_refs s).

(** [lookupKey]: the row, or [ErrNotFound]. *)
Definition lookupKey (table id : string) : DB unit :=
  s ← get;
  if resolves s table id then mret tt else fail ErrNotFound.

(** A pointer that is nil or names the empty string is no reference. *)
Definition ref_of (id : option string) : option string :=
  match id with
  | Some i => if i == ""%string then None else Some i
  | None => None
  end.

(** [optionalKey]: no handle resolves to no key. *)
Definition optionalKey (table : string) (id : option string) : DB (option string) :=
  match id with
  | None => mret None
  | Some i => if i == ""%string then mret None else _ ← lookupKey table i; mret (Some i)
  end.

(** The [lookupKey] a create runs where its input names a handle. *)
Definition lookupIfSet (table : string) (id : option string) : DB (option string) := optionalKey table id.

(** [util.NewPublicID] *)
Definition newPublicID (gen : nat → string) : DB string :=
  s ← get;
  _ ← put (s <| st_fresh := S (st_fresh s) |>);
  mret (gen (st_fresh s)).

Definition publicIDAttempts : nat := 3.

(** [createWithPublicID]: draw a public id, insert, and draw again where the
    table already has it.  [gen n] is the n-th id [util.NewPublicID] returns. *)
Section PublicID.
Context (gen : nat → string).

Fixpoint draw (attempts : nat) (taken : list string) : DB string :=
  match attempts with
  | O => fail ErrPublicIDExhausted
  | S attempts' =>
      s ← get;
      let id := gen (st_fresh s) in
      _ ← put (s <| st_fresh := S (st_fresh s) |>);
      if bool_decide (id ∈ taken) then draw attempts' taken else mret id
  end.

Definition createWithPublicID (taken : Store → list string) : DB string :=
  ids ← gets taken;
  draw publicIDAttempts ids.
End PublicID.

(** [UPDATE ... WHERE], returning the matched rows. *)
Definition update_taskruns (p : coretask.Run → bool) (f : coretask.Run → coretask.Run) : DB nat :=
  s ← get;
  _ ← put (s <| st_taskruns := update_where p f (st_taskruns s) |>);
  mret (matching p (st_taskruns s)).

Definition update_tasks (p : coretask.Task → bool) (f : coretask.Task → coretask.Task) : DB nat :=
  s ← get;
  _ ← put (s <| st_tasks := update_where p f (st_tasks s) |>);
  mret (matching p (st_tasks s)).

Definition update_runs (p : coreworkflow.Run → bool) (f : coreworkflow.Run → coreworkflow.Run) : DB nat :=
  s ← get;
  _ ← put (s <| st_runs := update_where p f (st_runs s) |>);
  mret (matching p (st_runs s)).

Definition update_nodes (p : coreworkflow.NodeRun → bool)
    (f : coreworkflow.NodeRun → coreworkflow.NodeRun) : DB nat :=
  s ← get;
  _ ← put (s <| st_nodes := update_where p f (st_nodes s) |>);
  mret (matching p (st_nodes s)).

Definition update_workflows (p : coreworkflow.Workflow → bool)
    (f : coreworkflow.Workflow → coreworkflow.Workflow) : DB nat :=
  s ← get;
  _ ← put (s <| st_workflows := update_where p f (st_workflows s) |>);
  mret (matching p (st_workflows s)).

Definition update_requests (p : coreworkflow.Request → bool)
    (f : coreworkflow.Request → coreworkflow.Request) : DB nat :=
  s ← get;
  _ ← put (s <| st_requests := update_where p f (st_requests s) |>);
  mret (matching p (st_requests s)).

(** [Take]: the first row, or [gorm.ErrRecordNotFound]. *)
Definition take {R} (t : Store → list R) (p : R → bool) : DB R :=
  rows ← gets t;
  or_fail ErrRecordNotFound (take_where p rows).

Definition update_schedules (p : scheduleRow → bool) (f : scheduleRow → scheduleRow) : DB nat :=
  s ← get;
  _ ← put (s <| st_schedules := update_where p (λ sc, f sc <| Sch_UpdatedAt := st_clock s |>) (st_schedules s) |>);
  mret (matching p (st_schedules s)).

(** [foldScheduleOutcome] of schedule.go: a failure adds one to the schedule's
    counter, a success clears it; no schedule matches no row. *)
Definition foldScheduleOutcome (scheduleKey : option string) (failed : bool) : DB unit :=
  _ ← update_schedules (λ sc, bool_decide (Some (Sch_ID sc) = scheduleKey))
        (λ sc, sc <| Sch_ConsecutiveFailures := if failed then (Sch_ConsecutiveFailures sc + 1)%Z else 0%Z |>);
  mret tt.

End db.
Import db.

(** The tables kept only as a set of handles. *)
Definition handle_tables : list string :=
  ["space"; "user"; "agent"; "issue"; "assistant"; "conversation_message"]%string.

Lemma resolves_refs s table id :
  table ∈ handle_tables → resolves s table id = bool_decide ((table, id) ∈ st_refs s).
Proof.
  unfold handle_tables. rewrite !elem_of_cons. intros H.
  repeat (destruct H as [->|H]; [reflexivity|]). by apply not_elem_of_nil in H.
Qed.

Lemma resolves_handle s table id :
  table ∈ handle_tables → resolves s table id = true → (table, id) ∈ st_refs s.
Proof. intros Ht. rewrite resolves_refs by done. apply bool_decide_eq_true. Qed.

(** ** Rules of the database monad *)

Section Rules.
Context (R : relation Store) `{!PreOrder R}.
(** The bookkeeping of ids is not a change of the database. *)
Hypothesis Hfresh : ∀ s n, R s (s <| st_fresh := n |>).

Lemma steps_transaction {A} (m : DB A) : steps R m → steps R (transaction m).
Proof.
  intros Hm s. unfold transaction. specialize (Hm s). destruct (m s) as [[a|e] s']; [exact Hm|].
  cbn. apply Hfresh.
Qed.

Lemma steps_get : steps R (@get error Store).
Proof. intros s. reflexivity. Qed.

Lemma steps_lookupKey table id : steps R (lookupKey table id).
Proof.
  intros s. unfold lookupKey. eff_unfold. destruct (resolves s table id); cbn; reflexivity.
Qed.

Lemma steps_optionalKey table id : steps R (optionalKey table id).
Proof.
  destruct id as [i|]; [|apply steps_ret; typeclasses eauto].
  unfold optionalKey. case_bool_decide; [apply steps_ret; typeclasses eauto|].
  apply steps_bind; [typeclasses eauto|apply steps_lookupKey|]. intros _. apply steps_ret. typeclasses eauto.
Qed.

Lemma steps_draw gen n taken : steps R (draw gen n taken).
Proof.
  induction n as [|n IH]; intros s; cbn [draw]; eff_unfold; [reflexivity|].
  case_bool_decide; cbn; [|apply Hfresh].
  etransitivity; [apply Hfresh|apply IH].
Qed.

Lemma steps_createWithPublicID gen taken : steps R (createWithPublicID gen taken).
Proof. intros s. apply (steps_draw gen). Qed.

Lemma steps_take {T} (t : Store → list T) p : steps R (take t p).
Proof. intros s. unfold take. eff_unfold. destruct (take_where p (t s)); reflexivity. Qed.
End Rules.

(** What a drawn id is: fresh in its table. *)
Lemma draw_ok gen n taken s id s' :
  draw gen n taken s = (Ok id, s') → id ∉ taken ∧ s' = s <| st_fresh := st_fresh s' |>.
Proof.
  revert s. induction n as [|n IH]; intros s; cbn [draw]; eff_unfold; [done|].
  destruct (bool_decide_reflect (gen (st_fresh s) ∈ taken)) as [Hin|Hin]; cbn.
  - intros H. apply IH in H as [? Hs]. split; [done|]. rewrite Hs. by destruct s.
  - intros [= <- <-]. split; [done|]. by destruct s.
Qed.

Lemma draw_err gen n taken s e s' :
  draw gen n taken s = (Err e, s') → e = ErrPublicIDExhausted ∧ s' = s <| st_fresh := st_fresh s' |>.
Proof.
  revert s. induction n as [|n IH]; intros s; cbn [draw]; eff_unfold; [intros [= <- <-]; by destruct s|].
  destruct (bool_decide_reflect (gen (st_fresh s) ∈ taken)) as [Hin|Hin]; cbn; [|done].
  intros H. apply IH in H as [? Hs]. split; [done|]. rewrite Hs. by destruct s.
Qed.

(** ** Inverting a successful operation *)

Lemma transaction_ok {A} (m : DB A) s a s' : transaction m s = (Ok a, s') → m s = (Ok a, s').
Proof. unfold transaction. destruct (m s) as [[x|e] s1]; naive_solver. Qed.

Lemma transaction_err {A} (m : DB A) s e s' :
  transaction m s = (Err e, s') → ∃ n, s' = s <| st_fresh := n |>.
Proof. unfold transaction. destruct (m s) as [[x|e'] s1]; [done|]. intros [= <- <-]. eauto. Qed.

Lemma lookupKey_ok table id s u s' :
  lookupKey table id s = (Ok u, s') → resolves s table id = true ∧ s' = s.
Proof.
  unfold lookupKey. rewrite eff_bind_ok. intros (s1 & s2 & [-> ->]%get_ok & H).
  destruct (resolves s table id); [|by apply fail_ok in H]. by apply ret_ok in H as [_ ->].
Qed.

Lemma optionalKey_ok table id s k s' :
  optionalKey table id s = (Ok k, s') → s' = s ∧ k = ref_of id.
Proof.
  unfold optionalKey, ref_of. destruct id as [i|]; [|by intros [-> ->]%ret_ok].
  case_bool_decide; [by intros [-> ->]%ret_ok|]. rewrite eff_bind_ok.
  by intros (? & ? & [_ ->]%lookupKey_ok & [-> ->]%ret_ok).
Qed.

Lemma optionalKey_err table id s e s' : optionalKey table id s = (Err e, s') → s' = s.
Proof.
  unfold optionalKey, lookupKey. destruct id as [i|]; [|done].
  case_bool_decide; [done|]. eff_unfold. destruct (resolves s table i); cbn; naive_solver.
Qed.

Lemma take_ok {R} (t : Store → list R) p s r s' :
  take t p s = (Ok r, s') → s' = s ∧ take_where p (t s) = Some r.
Proof.
  unfold take. rewrite eff_bind_ok. intros (? & ? & [-> ->]%gets_ok & H).
  by apply or_fail_ok in H as [? ->].
Qed.

Lemma createWithPublicID_ok gen taken s id s' :
  createWithPublicID gen taken s = (Ok id, s') → id ∉ taken s ∧ ∃ n, s' = s <| st_fresh := n |>.
Proof.
  unfold createWithPublicID. rewrite eff_bind_ok. intros (? & ? & [-> ->]%gets_ok & H).
  apply draw_ok in H as [? ?]. eauto.
Qed.

(** Split a hypothesis [prog s = (Ok a, s')] along the program.  [inv_call]
    says how to invert the calls a component adds. *)
Ltac inv_call H := fail.

(** Substitute the variable an equation defines. *)
Ltac subst_lhs E :=
  lazymatch type of E with
  | ?x = _ => tryif is_var x then subst x else idtac
  | _ => idtac
  end.

Ltac inv_pair lem H :=
  let E1 := fresh "E" in let E2 := fresh "E" in
  apply lem in H as [E1 E2]; subst_lhs E2; subst_lhs E1.

Ltac inv_swap lem H :=
  let E1 := fresh "E" in let E2 := fresh "E" in
  apply lem in H as [E2 E1]; subst_lhs E2; subst_lhs E1.

Ltac inv_eff H :=
  lazymatch type of H with
  | mbind _ _ _ = (Ok _, _) =>
      let a := fresh "a" in let s := fresh "s" in let H1 := fresh "Hs" in
      apply eff_bind_ok in H as (a & s & H1 & H); inv_eff H1; try inv_eff H
  | gets _ _ = (Ok _, _) => inv_pair (@gets_ok error Store) H
  | get _ = (Ok _, _) => inv_pair (@get_ok error Store) H
  | put _ _ = (Ok _, _) => apply put_ok in H; subst_lhs H
  | mret _ _ = (Ok _, _) => inv_pair (@ret_ok error Store) H
  | or_fail _ _ _ = (Ok _, _) => inv_pair (@or_fail_ok error Store) H
  | fail _ _ = (Ok _, _) => apply fail_ok in H; contradiction
  | transaction _ _ = (Ok _, _) => apply transaction_ok in H; inv_eff H
  | lookupKey _ _ _ = (Ok _, _) => inv_pair lookupKey_ok H
  | optionalKey _ _ _ = (Ok _, _) => inv_swap optionalKey_ok H
  | take _ _ _ = (Ok _, _) => inv_swap @take_ok H
  | createWithPublicID _ _ _ = (Ok _, _) =>
      let n := fresh "n" in let E := fresh "E" in
      apply createWithPublicID_ok in H as (? & n & E); subst_lhs E
  | _ => try inv_call H
  end.

Lemma update_tasks_ok p f s n s' :
  update_tasks p f s = (Ok n, s') →
  n = matching p (st_tasks s) ∧ s' = s <| st_tasks := update_where p f (st_tasks s) |>.
Proof. unfold update_tasks. intros H. by inv_eff H. Qed.

Lemma update_taskruns_ok p f s n s' :
  update_taskruns p f s = (Ok n, s') →
  n = matching p (st_taskruns s) ∧ s' = s <| st_taskruns := update_where p f (st_taskruns s) |>.
Proof. unfold update_taskruns. intros H. by inv_eff H. Qed.

Lemma update_runs_ok p f s n s' :
  update_runs p f s = (Ok n, s') →
  n = matching p (st_runs s) ∧ s' = s <| st_runs := update_where p f (st_runs s) |>.
Proof. unfold update_runs. intros H. by inv_eff H. Qed.

Lemma update_nodes_ok p f s n s' :
  update_nodes p f s = (Ok n, s') →
  n = matching p (st_nodes s) ∧ s' = s <| st_nodes := update_where p f (st_nodes s) |>.
Proof. unfold update_nodes. intros H. by inv_eff H. Qed.

Lemma update_requests_ok p f s n s' :
  update_requests p f s = (Ok n, s') →
  n = matching p (st_requests s) ∧ s' = s <| st_requests := update_where p f (st_requests s) |>.
Proof. unfold update_requests. intros H. by inv_eff H. Qed.

Lemma update_workflows_ok p f s n s' :
  update_workflows p f s = (Ok n, s') →
  n = matching p (st_workflows s) ∧ s' = s <| st_workflows := update_where p f (st_workflows s) |>.
Proof. unfold update_workflows. intros H. by inv_eff H. Qed.
