(* ===== verification/TaskStore.v ===== *)
(** * TaskStore: tasks and task runs in the database

    internal/infra/db/task.go and task_run.go: creating and admitting a task,
    creating its runs, and every guarded write a run takes.  Handles are
    canonical public ids (a malformed one reads as one that names no row). *)

From S2P Require Import Prelude Json TaskCore WorkflowCore Store.
From stdpp Require Import gmap pretty.
Import db.

Module taskdb.
Import coretask.

(** ** Reads *)

Definition GetTask (taskID : string) : DB (option Task) :=
  gets (λ s, take_where (λ t, Task_ID t == taskID) (st_tasks s)).

Definition GetTaskRun (taskRunID : string) : DB (option Run) :=
  gets (λ s, take_where (λ r, Run_ID r == taskRunID) (st_taskruns s)).

Definition GetTaskRunWithTask (taskRunID : string) : DB (option Run * option Task) :=
  run ← GetTaskRun taskRunID;
  match run with
  | None => mret (None, None)
  | Some r => task ← GetTask (Run_TaskID r); mret (Some r, task)
  end.

(** [ORDER BY created_at ASC] over rows in id order: a stable sort. *)
Definition by_created {R} (created : R → Z) : list R → list R :=
  @merge_sort R (λ a b, (created a <= created b)%Z) (λ a b, Z_le_dec (created a) (created b)).

Definition ListTaskRunsByTask (taskID : string) : DB (list Run) :=
  gets (λ s, by_created Run_CreatedAt (rows_where (λ r, Run_TaskID r == taskID) (st_taskruns s))).

Definition GetNextPendingTaskRun : DB (option Run) :=
  gets (λ s, head (by_created Run_CreatedAt
                     (rows_where (λ r, Run_Status r == RunStatusPending) (st_taskruns s)))).

Definition GetActiveTaskRunByTask (taskID : string) : DB (option Run) :=
  gets (λ s, last (by_created Run_CreatedAt
                     (rows_where (λ r, (Run_TaskID r == taskID) && is_active (Run_Status r))
                        (st_taskruns s)))).

Definition limit_or (limit fallback : Z) : nat := Z.to_nat (if (limit <=? 0)%Z then fallback else limit).

Definition ListStaleTaskRuns (cutoff limit : Z) : DB (list Run) :=
  gets (λ s, firstn (limit_or limit 100)
    (by_created Run_CreatedAt
       (rows_where (λ r, bool_decide (Run_Status r ∈ [RunStatusScheduled; RunStatusRunning])
                         && (Run_CreatedAt r <=? cutoff)%Z) (st_taskruns s)))).

Definition ListLostWorkerTaskRuns (cutoff limit : Z) : DB (list Run) :=
  gets (λ s, firstn (limit_or limit 100)
    (by_created (λ r, default 0%Z (Run_LastSeenAt r))
       (rows_where (λ r, (Run_Status r == RunStatusRunning)
                         && match Run_LastSeenAt r with
                            | Some seen => (seen <=? cutoff)%Z
                            | None => false
                            end) (st_taskruns s)))).

Definition CountTaskRunsByStatus (status : RunStatus) : DB nat :=
  gets (λ s, matching (λ r, Run_Status r == status) (st_taskruns s)).

(** ** Creating a task and its first run *)

Definition defaultString (v fallback : string) : string := if v != ""%string then v else fallback.

Definition newRun (id taskID input createdBy createdByType triggerSource : string) (createdAt : Z) : Run :=
  {| Run_ID := id; Run_TaskID := taskID; Run_PreviousTaskRunID := None; Run_Input := input;
     Run_CreatedBy := createdBy; Run_CreatedByType := createdByType; Run_TriggerSource := triggerSource;
     Run_Status := RunStatusPending; Run_Output := None; Run_Structured := None; Run_Questions := None;
     Run_ErrorMessage := None; Run_StartedAt := None; Run_EndedAt := None; Run_SessionID := None;
     Run_WorkerType := ""; Run_K8sJobName := None; Run_K8sJobCreatedAt := None;
     Run_PromptTokens := None; Run_CompletionTokens := None; Run_TracePath := None;
     Run_CancelRequestedAt := None; Run_CancelRequestedBy := None; Run_CancelReason := "";
     Run_FailureClass_ := None; Run_FailureCause := None; Run_RetryOfTaskRunID := None;
     Run_AgentRevision := None; Run_SpaceAgentInstructionsRevision := None; Run_PluginPins := "";
     Run_SandboxNetworkTier := None; Run_SandboxFilesystemTier := None; Run_SourceMessageID := None;
     Run_LastSeenAt := None; Run_CreatedAt := createdAt; Run_IdempotencyKey := None;
     Run_WorkspaceBaseCheckpointID := None; Run_WorkspaceResultCheckpointID := None;
     Run_WorkspacePartialCheckpointID := None; Run_WorkspaceRestoreStatus := "";
     Run_WorkspaceRestoreError := None; Run_WorkspaceCheckpointStatus := "";
     Run_WorkspaceCheckpointError := None; Run_PluginEnvironmentBaseID := None;
     Run_PluginEnvironmentResultID := None; Run_PluginEnvironmentStatus := "";
     Run_PluginEnvironmentError := None |}.

Section Operations.
(** The n-th [util.NewPublicID] and [session.NewID]. *)
Context (gen session : nat → string).

(** [newTaskRows]: the rows before their references resolve; the ids are
    assigned by the inserts. *)
Definition newTaskRows (in_ : CreateInput) : DB (Task * Run) :=
  createdAt ← now;
  sessionID ← gets (λ s, session (st_fresh s));
  let keyed := CI_AdmissionKey in_ != ""%string in
  mret
    ({| Task_ID := ""; Task_ConversationID := None; Task_SpaceID := ""; Task_IssueID := None;
        Task_ScheduleID := None; Task_Status := RunStatusPending; Task_Input := CI_Input in_;
        Task_Title := CI_Title in_; Task_TitlePromptTokens := CI_TitlePromptTokens in_;
        Task_TitleCompletionTokens := CI_TitleCompletionTokens in_; Task_Output := None;
        Task_OutputSchema := CI_OutputSchema in_; Task_CreatedBy := ""; Task_RequestedBy := None;
        Task_AssistantID := None; Task_AssistantRevision := 0; Task_CreatedAt := createdAt;
        Task_StartedAt := None; Task_EndedAt := None; Task_ErrorMessage := None;
        Task_SessionID := Some sessionID; Task_LastRunID := None; Task_AwaitingAnswer := false;
        Task_AgentID := None; Task_WorkspaceHeadCheckpointID := None;
        Task_PluginEnvironmentHeadID := None;
        Task_AdmissionKey := if keyed then Some (CI_AdmissionKey in_) else None;
        Task_AdmissionFingerprint := if keyed then Some (AdmissionFingerprint in_) else None |},
     newRun "" "" (CI_Input in_) (defaultString (CI_InitialRunCreatedBy in_) (CI_CreatedBy in_))
       (CI_InitialRunCreatedByType in_) (CI_InitialRunTriggerSource in_) createdAt
     <| Run_AgentRevision := CI_InitialRunAgentRevision in_ |>
     <| Run_SandboxNetworkTier := CI_InitialRunSandboxNetworkTier in_ |>
     <| Run_SandboxFilesystemTier := CI_InitialRunSandboxFilesystemTier in_ |>).

(** A source message that does not resolve leaves the run unattributed. *)
Definition sourceMessage (id : option string) : DB (option string) :=
  catch (optionalKey "conversation_message" id)
    (λ e, if e == ErrNotFound then mret None else fail e).

Definition conversationInSpace (conversationID spaceID : string) : DB (option string) :=
  if conversationID == ""%string then mret None
  else
    conv ← take st_conversations (λ c, c.1 == conversationID);
    if conv.2 != spaceID then fail ErrNotFound else mret (Some conversationID).

(** The unique index (space_id, admission_key); NULL keys never collide. *)
Definition insertTask (t : Task) : DB Task :=
  id ← createWithPublicID gen (λ s, map Task_ID (st_tasks s));
  s ← get;
  if existsb (λ t', (Task_SpaceID t' == Task_SpaceID t) && (Task_AdmissionKey t' == Task_AdmissionKey t)
                    && bool_decide (is_Some (Task_AdmissionKey t'))) (st_tasks s)
  then fail ErrDuplicateKey
  else
    let t := t <| Task_ID := id |> in
    _ ← put (s <| st_tasks := st_tasks s ++ [t] |>);
    mret t.

(** The unique index (task_id, idempotency_key), likewise. *)
Definition insertTaskRun (r : Run) : DB Run :=
  id ← createWithPublicID gen (λ s, map Run_ID (st_taskruns s));
  s ← get;
  if existsb (λ r', (Run_TaskID r' == Run_TaskID r) && (Run_IdempotencyKey r' == Run_IdempotencyKey r)
                    && bool_decide (is_Some (Run_IdempotencyKey r'))) (st_taskruns s)
  then fail ErrDuplicateKey
  else
    let r := r <| Run_ID := id |> in
    _ ← put (s <| st_taskruns := st_taskruns s ++ [r] |>);
    mret r.

Definition createTaskAndRunTx (in_ : CreateInput) (taskDB : Task) (runDB : Run) : DB (Task * Run) :=
  _ ← lookupKey "space" (CI_SpaceID in_);
  conv ← conversationInSpace (CI_ConversationID in_) (CI_SpaceID in_);
  _ ← lookupKey "user" (CI_CreatedBy in_);
  _ ← (if CI_AssistantID in_ != ""%string then
         _ ← lookupKey "user" (CI_RequestedBy in_); lookupKey "assistant" (CI_AssistantID in_)
       else mret tt);
  agent ← optionalKey "agent" (CI_AgentID in_);
  issue ← optionalKey "issue" (CI_IssueID in_);
  schedule ← optionalKey "schedule" (CI_ScheduleID in_);
  source ← sourceMessage (CI_InitialRunSourceMessageID in_);
  let assisted := CI_AssistantID in_ != ""%string in
  task ← insertTask (taskDB
    <| Task_SpaceID := CI_SpaceID in_ |>
    <| Task_ConversationID := conv |>
    <| Task_CreatedBy := CI_CreatedBy in_ |>
    <| Task_RequestedBy := if assisted then Some (CI_RequestedBy in_) else None |>
    <| Task_AssistantID := if assisted then Some (CI_AssistantID in_) else None |>
    <| Task_AssistantRevision := if assisted then CI_AssistantRevision in_ else 0%Z |>
    <| Task_AgentID := agent |>
    <| Task_IssueID := issue |>
    <| Task_ScheduleID := schedule |>);
  run ← insertTaskRun (runDB
    <| Run_SourceMessageID := source |>
    <| Run_TaskID := Task_ID task |>);
  _ ← update_tasks (λ t, Task_ID t == Task_ID task)
        (λ t, t <| Task_LastRunID := Some (Run_ID run) |>);
  mret (task <| Task_LastRunID := Some (Run_ID run) |>, run).

Definition CreateTask (in_ : CreateInput) : DB Task :=
  rows ← newTaskRows in_;
  created ← transaction (createTaskAndRunTx in_ rows.1 rows.2);
  mret created.1.

(** ** Admission *)

Definition taskByAdmissionKey (spaceID key : string) : DB (option Task) :=
  gets (λ s,
    if bool_decide (("space", spaceID) ∈ st_refs s)
    then take_where (λ t, (Task_SpaceID t == spaceID) && (Task_AdmissionKey t == Some key)) (st_tasks s)
    else None).

Definition admittedTaskOrConflict (existing : Task) (fingerprint : AdmissionPayload) : DB (option Task) :=
  if Task_AdmissionFingerprint existing != Some fingerprint then fail ErrTaskAdmissionConflict
  else GetTask (Task_ID existing).

(** The read and the insert are two transactions; [between] is whatever other
    admitters commit in between.  [admitNode] is [admitWorkflowNodeTask]. *)
Definition AdmitTask (admitNode : CreateInput → DB (option Task)) (between : DB unit)
    (in_ : CreateInput) : DB (option Task) :=
  if CI_AdmissionKey in_ == ""%string then fail ErrAdmissionKeyRequired
  else if CI_WorkflowNodeRunID in_ != ""%string then admitNode in_
  else
    let fingerprint := AdmissionFingerprint in_ in
    existing ← taskByAdmissionKey (CI_SpaceID in_) (CI_AdmissionKey in_);
    match existing with
    | Some existing => admittedTaskOrConflict existing fingerprint
    | None =>
        rows ← newTaskRows in_;
        _ ← between;
        catch
          (created ← transaction (createTaskAndRunTx in_ rows.1 rows.2); mret (Some created.1))
          (λ e,
             if e == ErrDuplicateKey then
               winner ← taskByAdmissionKey (CI_SpaceID in_) (CI_AdmissionKey in_);
               match winner with
               | Some winner => admittedTaskOrConflict winner fingerprint
               | None => fail ErrDuplicateKey
               end
             else fail e)
    end.

(** ** Creating a task's next run *)

Definition createTaskRunTx (taskID : string) (in_ : CreateRunInput) : DB Run :=
  tasks ← gets st_tasks;
  taskLock ← or_fail ErrNotFound (take_where (λ t, Task_ID t == taskID) tasks);
  existing ← match ref_of (CRI_IdempotencyKey in_) with
             | None => mret None
             | Some key =>
                 gets (λ s, take_where (λ r, (Run_TaskID r == taskID)
                                             && (Run_IdempotencyKey r == Some key)) (st_taskruns s))
             end;
  match existing with
  | Some run => mret run
  | None =>
      inProgress ← gets (λ s, matching (λ r, (Run_TaskID r == taskID) && is_active (Run_Status r))
                                (st_taskruns s));
      if (0 <? inProgress)%nat then fail ErrRunInProgress
      else
        previous ← match Task_LastRunID taskLock with
                   | None => mret None
                   | Some last =>
                       r ← take st_taskruns (λ r, Run_ID r == last); mret (Some (Run_ID r))
                   end;
        createdAt ← now;
        base ← match ref_of (CRI_RetryOfTaskRunID in_) with
               | None => mret (Task_WorkspaceHeadCheckpointID taskLock)
               | Some retryOf =>
                   runs ← gets st_taskruns;
                   r ← or_fail ErrNotFound (take_where (λ r, Run_ID r == retryOf) runs);
                   mret (Run_WorkspaceBaseCheckpointID r)
               end;
        source ← sourceMessage (CRI_SourceMessageID in_);
        run ← insertTaskRun
          (newRun "" taskID (CRI_Input in_) (CRI_CreatedBy in_) (CRI_CreatedByType in_)
             (CRI_TriggerSource in_) createdAt
           <| Run_PreviousTaskRunID := Task_LastRunID taskLock |>
           <| Run_AgentRevision := CRI_AgentRevision in_ |>
           <| Run_WorkspaceBaseCheckpointID := base |>
           <| Run_SandboxNetworkTier := CRI_SandboxNetworkTier in_ |>
           <| Run_SandboxFilesystemTier := CRI_SandboxFilesystemTier in_ |>
           <| Run_IdempotencyKey := CRI_IdempotencyKey in_ |>
           <| Run_RetryOfTaskRunID := ref_of (CRI_RetryOfTaskRunID in_) |>
           <| Run_SourceMessageID := source |>);
        _ ← update_tasks (λ t, Task_ID t == taskID)
              (λ t, t <| Task_LastRunID := Some (Run_ID run) |>
                      <| Task_Status := Run_Status run |>
                      <| Task_Output := None |>
                      <| Task_StartedAt := None |>
                      <| Task_EndedAt := None |>
                      <| Task_ErrorMessage := None |>
                      <| Task_AwaitingAnswer := false |>);
        mret run
  end.

(** [admitNode] is [admitWorkflowNodeRetryRun]. *)
Definition CreateTaskRun (admitNode : string → CreateRunInput → DB Run) (in_ : CreateRunInput) : DB Run :=
  if CRI_WorkflowNodeRunID in_ != ""%string then admitNode (CRI_TaskID in_) in_
  else transaction (createTaskRunTx (CRI_TaskID in_) in_).
End Operations.

(** ** Guarded writes of a run *)

Definition set_if {R T} (v : option T) (f : T → R → R) (r : R) : R :=
  match v with Some x => f x r | None => r end.

(** The first write wins: each guard is the column being empty. *)
Definition RecordTaskRunAgentRevision (taskRunID : string) (revision : Z) : DB nat :=
  update_taskruns (λ r, (Run_ID r == taskRunID) && (Run_AgentRevision r == None))
    (λ r, r <| Run_AgentRevision := Some revision |>).

Definition RecordTaskRunSpaceAgentInstructionsRevision (taskRunID : string) (revision : Z) : DB nat :=
  update_taskruns (λ r, (Run_ID r == taskRunID) && (Run_SpaceAgentInstructionsRevision r == None))
    (λ r, r <| Run_SpaceAgentInstructionsRevision := Some revision |>).

Definition RecordTaskRunPluginPins (taskRunID encoded : string) : DB nat :=
  update_taskruns (λ r, (Run_ID r == taskRunID) && (Run_PluginPins r == ""%string))
    (λ r, r <| Run_PluginPins := encoded |>).

Definition RecordTaskRunSandboxTiers (taskRunID networkTier filesystemTier : string) : DB nat :=
  update_taskruns (λ r, (Run_ID r == taskRunID) && (Run_SandboxNetworkTier r == None))
    (λ r, r <| Run_SandboxNetworkTier := Some networkTier |>
            <| Run_SandboxFilesystemTier := Some filesystemTier |>).

Definition RecordTaskRunFailureCause (taskRunID encoded : string) : DB nat :=
  update_taskruns (λ r, (Run_ID r == taskRunID) && (Run_FailureCause r == None))
    (λ r, r <| Run_FailureCause := Some encoded |>).

Definition RequestTaskRunCancel (taskRunID requestedBy reason : string) (requestedAt : Z) : DB bool :=
  requester ← (if requestedBy != ""%string
               then _ ← lookupKey "user" requestedBy; mret (Some requestedBy)
               else mret None);
  n ← update_taskruns
        (λ r, (Run_ID r == taskRunID) && is_active (Run_Status r) && (Run_CancelRequestedAt r == None))
        (λ r, set_if requester (λ by_, λ r, r <| Run_CancelRequestedBy := Some by_ |>)
                (r <| Run_CancelRequestedAt := Some requestedAt |> <| Run_CancelReason := reason |>));
  mret (n =? 1)%nat.

Definition MarkTaskRunSeen (taskRunID : string) (seenAt : Z) : DB nat :=
  update_taskruns (λ r, (Run_ID r == taskRunID)
                        && bool_decide (Run_Status r ∈ [RunStatusScheduled; RunStatusRunning]))
    (λ r, r <| Run_LastSeenAt := Some seenAt |>).

Definition UpdateTaskRunWorkerInfo (taskRunID workerType : string) (k8sJobName : option string)
    (k8sJobCreatedAt : option Z) : DB nat :=
  update_taskruns (λ r, Run_ID r == taskRunID)
    (λ r, set_if k8sJobCreatedAt (λ t, λ r, r <| Run_K8sJobCreatedAt := Some t |>)
            (set_if k8sJobName (λ n, λ r, r <| Run_K8sJobName := Some n |>)
               (r <| Run_WorkerType := workerType |>))).

Definition ClearTaskRunTracePath (taskRunID : string) : DB nat :=
  update_taskruns (λ r, Run_ID r == taskRunID) (λ r, r <| Run_TracePath := None |>).

(** ** Transitions *)

Definition failureClassFor (in_ : TransitionRunInput) : option FailureClass :=
  if TRI_NewStatus in_ != RunStatusFailed then None
  else Some (NormalizeFailureClass (TRI_FailureClass in_)).

(** [buildTaskRunUpdates] applied to a row: a nil field leaves its column. *)
Definition buildTaskRunUpdates (in_ : TransitionRunInput) (r : Run) : Run :=
  let r := r <| Run_Status := TRI_NewStatus in_ |> in
  let r := set_if (TRI_StartedAt in_) (λ v, λ r, r <| Run_StartedAt := Some v |>) r in
  let r := set_if (TRI_EndedAt in_) (λ v, λ r, r <| Run_EndedAt := Some v |>) r in
  let r := set_if (TRI_Output in_) (λ v, λ r, r <| Run_Output := Some v |>) r in
  let r := set_if (TRI_Structured in_) (λ v, λ r, r <| Run_Structured := Some v |>) r in
  let r := set_if (TRI_Questions in_) (λ v, λ r, r <| Run_Questions := Some v |>) r in
  let r := set_if (TRI_ErrorMessage in_) (λ v, λ r, r <| Run_ErrorMessage := Some v |>) r in
  let r := set_if (TRI_SessionID in_) (λ v, λ r, r <| Run_SessionID := Some v |>) r in
  let r := set_if (TRI_TracePath in_) (λ v, λ r, r <| Run_TracePath := Some v |>) r in
  let r := set_if (TRI_PromptTokens in_) (λ v, λ r, r <| Run_PromptTokens := Some v |>) r in
  let r := set_if (TRI_CompletionTokens in_) (λ v, λ r, r <| Run_CompletionTokens := Some v |>) r in
  let r := set_if (TRI_CancelReason in_) (λ v, λ r, r <| Run_CancelReason := v |>) r in
  set_if (failureClassFor in_) (λ v, λ r, r <| Run_FailureClass_ := Some v |>) r.

(** [UpdateTask] and [ClaimTask] write a task's status directly. *)
Record UpdateInput : Type := mkUpdateInput {
  UI_TaskID : string;
  UI_Status : RunStatus;
  UI_StartedAt : option Z;
  UI_EndedAt : option Z;
  UI_Output : option string;
  UI_ErrorMessage : option string;
  UI_SessionID : option string
}.
#[export] Instance UpdateInput_updatable : Updatable UpdateInput := λ r,
  mkUpdateInput (UI_TaskID r) (UI_Status r) (UI_StartedAt r) (UI_EndedAt r) (UI_Output r)
    (UI_ErrorMessage r) (UI_SessionID r).

Definition buildTaskUpdates (in_ : UpdateInput) (t : Task) : Task :=
  let t := t <| Task_Status := UI_Status in_ |> in
  let t := set_if (UI_StartedAt in_) (λ v, λ t, t <| Task_StartedAt := Some v |>) t in
  let t := set_if (UI_EndedAt in_) (λ v, λ t, t <| Task_EndedAt := Some v |>) t in
  let t := set_if (UI_Output in_) (λ v, λ t, t <| Task_Output := Some v |>) t in
  let t := set_if (UI_ErrorMessage in_) (λ v, λ t, t <| Task_ErrorMessage := Some v |>) t in
  set_if (UI_SessionID in_) (λ v, λ t, t <| Task_SessionID := Some v |>) t.

Definition UpdateTask (in_ : UpdateInput) : DB nat :=
  update_tasks (λ t, Task_ID t == UI_TaskID in_) (buildTaskUpdates in_).

Definition ClaimTask (expected : RunStatus) (in_ : UpdateInput) : DB bool :=
  n ← update_tasks (λ t, (Task_ID t == UI_TaskID in_) && (Task_Status t == expected))
        (buildTaskUpdates in_);
  mret (n =? 1)%nat.

(** The columns a run's transition mirrors onto its task. *)
Definition projectRun (run : Run) (t : Task) : Task :=
  set_if (Run_SessionID run) (λ v, λ t, t <| Task_SessionID := Some v |>)
    (t <| Task_LastRunID := Some (Run_ID run) |>
       <| Task_Status := Run_Status run |>
       <| Task_Output := Run_Output run |>
       <| Task_StartedAt := Run_StartedAt run |>
       <| Task_EndedAt := Run_EndedAt run |>
       <| Task_ErrorMessage := Run_ErrorMessage run |>
       <| Task_AwaitingAnswer := bool_decide (is_Some (Run_Questions run)) |>).

Definition settled (s : RunStatus) : bool := (s == RunStatusSucceeded) || (s == RunStatusFailed).

Definition TransitionTaskRun (in_ : TransitionRunInput) : DB bool :=
  if negb (ValidRunStatusTransition (TRI_ExpectedStatus in_) (TRI_NewStatus in_))
  then fail ErrInvalidTaskTransition
  else
    transaction
      (n ← update_taskruns
             (λ r, (Run_ID r == TRI_TaskRunID in_) && (Run_Status r == TRI_ExpectedStatus in_))
             (buildTaskRunUpdates in_);
       if (n =? 0)%nat then mret false
       else
         run ← take st_taskruns (λ r, Run_ID r == TRI_TaskRunID in_);
         _ ← update_tasks (λ t, Task_ID t == Run_TaskID run) (projectRun run);
         _ ← (if settled (TRI_NewStatus in_) && (Run_TriggerSource run == RunTriggerSourceSchedule) then
                schedule ← gets (λ s, t ← take_where (λ t, Task_ID t == Run_TaskID run) (st_tasks s);
                                      Task_ScheduleID t);
                foldScheduleOutcome schedule (TRI_NewStatus in_ == RunStatusFailed)
              else mret tt);
         mret true).

End taskdb.
Import coretask taskdb.

Lemma sourceMessage_ok id s k s' : sourceMessage id s = (Ok k, s') → s' = s.
Proof.
  unfold sourceMessage. rewrite catch_ok. intros [[-> _]%optionalKey_ok|(e & s1 & ->%optionalKey_err & H)]; [done|].
  case_bool_decide; [by apply ret_ok in H as [_ ->]|by apply fail_ok in H].
Qed.

Ltac inv_call H ::=
  lazymatch type of H with
  | sourceMessage _ _ = (Ok _, _) => apply sourceMessage_ok in H; subst_lhs H
  end.

(** ** What a create writes *)

(** The rest of the store is as it was, ids drawn aside. *)
Definition only_tasks (s s' : Store) : Prop :=
  s' = s <| st_tasks := st_tasks s' |> <| st_taskruns := st_taskruns s' |> <| st_fresh := st_fresh s' |>.

Lemma conversationInSpace_ok c sp s k s' : conversationInSpace c sp s = (Ok k, s') → s' = s.
Proof.
  unfold conversationInSpace. case_bool_decide as E; [by intros [_ ->]%ret_ok|].
  intros Hc. inv_eff Hc. case_bool_decide as E2; cbn in Hc; by inv_eff Hc.
Qed.

Ltac inv_call H ::=
  lazymatch type of H with
  | sourceMessage _ _ = (Ok _, _) => apply sourceMessage_ok in H; subst_lhs H
  | conversationInSpace _ _ _ = (Ok _, _) => apply conversationInSpace_ok in H; subst_lhs H
  end.

Lemma update_where_snoc {R} (p : R → bool) f t x :
  (∀ r, r ∈ t → p r = false) → p x = true → update_where p f (t ++ [x]) = t ++ [f x].
Proof.
  intros Ht Hx. unfold update_where. rewrite map_app. cbn. rewrite Hx. f_equal.
  rewrite <- (map_id t) at 2. apply map_ext_in. intros r Hr%list_elem_of_In. by rewrite Ht.
Qed.

Lemma insertTask_ok gen t s t' s' :
  insertTask gen t s = (Ok t', s') →
  ∃ id n, t' = t <| Task_ID := id |> ∧ id ∉ map Task_ID (st_tasks s) ∧
    s' = s <| st_tasks := st_tasks s ++ [t'] |> <| st_fresh := n |> ∧
    ∀ t0, t0 ∈ st_tasks s → Task_SpaceID t0 = Task_SpaceID t → is_Some (Task_AdmissionKey t) →
      Task_AdmissionKey t0 ≠ Task_AdmissionKey t.
Proof.
  unfold insertTask. intros H. inv_eff H.
  destruct (existsb _ _) eqn:E; inv_eff H.
  match goal with H : ?id ∉ _ |- _ => exists id end.
  eexists. split_and!; [done|done|by destruct s|].
  intros t0 Ht0 Hsp Hk Heq. cbn in E.
  apply not_true_iff_false in E. apply E, existsb_exists. exists t0.
  split; [by apply list_elem_of_In|]. rewrite Heq, !bool_decide_eq_true_2 by done. done.
Qed.

Lemma insertTaskRun_ok gen r s r' s' :
  insertTaskRun gen r s = (Ok r', s') →
  ∃ id n, r' = r <| Run_ID := id |> ∧ id ∉ map Run_ID (st_taskruns s) ∧
    s' = s <| st_taskruns := st_taskruns s ++ [r'] |> <| st_fresh := n |>.
Proof.
  unfold insertTaskRun. intros H. inv_eff H. destruct (existsb _ _); inv_eff H.
  eexists _, _. split_and!; [done|done|by destruct s].
Qed.

(** A created task and its first run, as the tables hold them. *)
Record created (in_ : CreateInput) (task : Task) (run : Run) (s s' : Store) : Prop := {
  cr_task_id : Task_ID task ∉ map Task_ID (st_tasks s);
  cr_run_id : Run_ID run ∉ map Run_ID (st_taskruns s);
  cr_tasks : st_tasks s' = st_tasks s ++ [task];
  cr_runs : st_taskruns s' = st_taskruns s ++ [run];
  cr_frame : only_tasks s s';
  cr_last : Task_LastRunID task = Some (Run_ID run);
  cr_owner : Run_TaskID run = Task_ID task;
  cr_task : Task_Status task = RunStatusPending ∧ Task_Output task = None ∧ Task_StartedAt task = None ∧
            Task_EndedAt task = None ∧ Task_ErrorMessage task = None ∧ Task_AwaitingAnswer task = false;
  cr_run : Run_Status run = RunStatusPending ∧ Run_Output run = None ∧ Run_StartedAt run = None ∧
           Run_EndedAt run = None ∧ Run_ErrorMessage run = None ∧ Run_Questions run = None;
  cr_key : Task_SpaceID task = CI_SpaceID in_ ∧
           Task_AdmissionKey task = (if CI_AdmissionKey in_ != ""%string then Some (CI_AdmissionKey in_) else None) ∧
           Task_AdmissionFingerprint task = (if CI_AdmissionKey in_ != ""%string
                                             then Some (AdmissionFingerprint in_) else None);
  cr_space : ("space"%string, CI_SpaceID in_) ∈ st_refs s;
  cr_unique : CI_AdmissionKey in_ ≠ ""%string → ∀ t0, t0 ∈ st_tasks s →
    Task_SpaceID t0 = CI_SpaceID in_ → Task_AdmissionKey t0 ≠ Some (CI_AdmissionKey in_);
}.

Lemma createTaskAndRunTx_ok gen session in_ s0 s rows s1 task run s' :
  newTaskRows session in_ s0 = (Ok rows, s1) →
  createTaskAndRunTx gen in_ rows.1 rows.2 s = (Ok (task, run), s') →
  created in_ task run s s'.
Proof.
  intros Hrows H. unfold newTaskRows in Hrows. inv_eff Hrows. cbn in H.
  unfold createTaskAndRunTx in H. inv_eff H.
  match goal with
  | H1 : (if _ then _ else mret tt) _ = (Ok _, ?s1) |- _ =>
      assert (s1 = s) as -> by (case_bool_decide; cbn in H1; by inv_eff H1); clear H1
  end.
  match goal with H1 : insertTask _ _ _ = (Ok ?t, _), H2 : insertTaskRun _ _ _ = (Ok ?r, _) |- _ =>
    rename t into t0; rename r into r0;
    apply insertTask_ok in H1 as (tid & n1 & Ht & Htid & -> & Huniq);
    apply insertTaskRun_ok in H2 as (rid & n2 & Hr & Hrid & ->) end.
  match goal with H1 : update_tasks _ _ _ = _ |- _ => apply update_tasks_ok in H1 as [_ ->] end.
  match goal with H : (task, run) = _ |- _ => injection H as -> -> end. cbn in Hrid, Huniq.
  assert (Task_ID t0 = tid) as TE0 by (rewrite Ht; reflexivity).
  assert (Task_SpaceID t0 = CI_SpaceID in_) as TE1 by (rewrite Ht; reflexivity).
  assert (Task_AdmissionKey t0 = if CI_AdmissionKey in_ != ""%string then Some (CI_AdmissionKey in_) else None)
    as TE2 by (rewrite Ht; reflexivity).
  assert (Task_AdmissionFingerprint t0 = if CI_AdmissionKey in_ != ""%string then Some (AdmissionFingerprint in_) else None)
    as TE3 by (rewrite Ht; reflexivity).
  assert (Task_Status t0 = RunStatusPending ∧ Task_Output t0 = None ∧ Task_StartedAt t0 = None ∧
    Task_EndedAt t0 = None ∧ Task_ErrorMessage t0 = None ∧ Task_AwaitingAnswer t0 = false) as E4
    by (rewrite Ht; split_and!; reflexivity).
  assert (Run_ID r0 = rid) as F0 by (rewrite Hr; reflexivity).
  assert (Run_TaskID r0 = Task_ID t0) as F1 by (rewrite Hr; reflexivity).
  assert (Run_Status r0 = RunStatusPending ∧ Run_Output r0 = None ∧ Run_StartedAt r0 = None ∧
    Run_EndedAt r0 = None ∧ Run_ErrorMessage r0 = None ∧ Run_Questions r0 = None) as F2
    by (rewrite Hr; split_and!; reflexivity).
  clear Ht Hr. subst tid rid.
  assert (update_where (λ t, Task_ID t == Task_ID t0) (λ t, t <| Task_LastRunID := Some (Run_ID r0) |>)
    (st_tasks s ++ [t0]) = st_tasks s ++ [t0 <| Task_LastRunID := Some (Run_ID r0) |>]) as Hupd.
  { apply update_where_snoc.
    - intros r Hr. apply bool_decide_eq_false. intros Eid. apply Htid. rewrite <- Eid.
      by apply list_elem_of_fmap_2.
    - by apply bool_decide_eq_true. }
  split; try done; [apply resolves_handle; [by left|done]|].
  intros Hk t1 Ht1 Hsp Ek. rewrite (bool_decide_eq_false_2 _ Hk) in Huniq.
  by apply (Huniq t1 Ht1 Hsp).
Qed.

(** ** The task invariant

    A task mirrors its latest run, which is the only one of its runs that may
    still be active. *)

Definition mirrors (r : Run) (t : Task) : Prop :=
  Task_Status t = Run_Status r ∧ Task_Output t = Run_Output r ∧ Task_StartedAt t = Run_StartedAt r ∧
  Task_EndedAt t = Run_EndedAt r ∧ Task_ErrorMessage t = Run_ErrorMessage r ∧
  Task_AwaitingAnswer t = bool_decide (is_Some (Run_Questions r)).

Record task_ok (s : Store) : Prop := {
  ok_task_ids : NoDup (map Task_ID (st_tasks s));
  ok_run_ids : NoDup (map Run_ID (st_taskruns s));
  ok_owner : ∀ r, r ∈ st_taskruns s → Run_TaskID r ∈ map Task_ID (st_tasks s);
  ok_last : ∀ t, t ∈ st_tasks s → ∃ r, r ∈ st_taskruns s ∧
    Task_LastRunID t = Some (Run_ID r) ∧ Run_TaskID r = Task_ID t ∧ mirrors r t;
  ok_active : ∀ r t, r ∈ st_taskruns s → t ∈ st_tasks s → Run_TaskID r = Task_ID t →
    is_active (Run_Status r) = true → Task_LastRunID t = Some (Run_ID r);
}.

Lemma NoDup_key {A} (k : A → string) (l : list A) x y :
  NoDup (map k l) → x ∈ l → y ∈ l → k x = k y → x = y.
Proof.
  induction l as [|z l IH]; [by intros _ ?%not_elem_of_nil|]. cbn.
  intros [Hz Hnd]%NoDup_cons [->|Hx]%elem_of_cons [->|Hy]%elem_of_cons Hk; [done| | |by apply IH].
  - destruct Hz. rewrite Hk. by apply list_elem_of_fmap_2.
  - destruct Hz. rewrite <- Hk. by apply list_elem_of_fmap_2.
Qed.

(** At most one run of a task is active. *)
Lemma ok_one_active s r1 r2 :
  task_ok s → r1 ∈ st_taskruns s → r2 ∈ st_taskruns s → Run_TaskID r1 = Run_TaskID r2 →
  is_active (Run_Status r1) = true → is_active (Run_Status r2) = true → r1 = r2.
Proof.
  intros Hok H1 H2 E Ha1 Ha2. pose proof (ok_owner s Hok r1 H1) as (t & Et & Ht)%list_elem_of_fmap.
  pose proof (ok_active s Hok r1 t H1 Ht Et Ha1). pose proof (ok_active s Hok r2 t H2 Ht) as Hl2.
  apply (NoDup_key Run_ID (st_taskruns s)); [apply Hok|done|done|].
  rewrite Hl2 in * by congruence. congruence.
Qed.

Lemma task_ok_created in_ task run s s' : task_ok s → created in_ task run s s' → task_ok s'.
Proof.
  intros [Htid Hrid Hown Hlast Hact] [Ht Hr Et Er _ El Eo (T1 & T2 & T3 & T4 & T5 & T6) (R1 & R2 & R3 & R4 & R5 & R6) _ _ _].
  split; rewrite ?Et, ?Er.
  - rewrite map_app, NoDup_app. cbn. split_and!; [done|set_solver|by apply NoDup_singleton].
  - rewrite map_app, NoDup_app. cbn. split_and!; [done|set_solver|by apply NoDup_singleton].
  - intros r [Hin|Hnew%list_elem_of_singleton]%elem_of_app; rewrite map_app, elem_of_app; [left; by apply Hown|].
    subst r. right. rewrite Eo. cbn. by left.
  - intros t [Hin|Hnew%list_elem_of_singleton]%elem_of_app.
    + destruct (Hlast t Hin) as (r & Hrin & H). exists r. split; [by apply elem_of_app; left|done].
    + subst t. exists run. split_and!; [by apply elem_of_app; right; left|done|done|].
      unfold mirrors. rewrite T1, T2, T3, T4, T5, T6, R1, R2, R3, R4, R5, R6. done.
  - intros r t [Hin|Hnew%list_elem_of_singleton]%elem_of_app [Hin'|Hnew'%list_elem_of_singleton]%elem_of_app E Ha; subst.
    + by apply Hact.
    + destruct Ht. rewrite <- E. by apply Hown.
    + destruct Ht. rewrite <- Eo, E. by apply list_elem_of_fmap_2.
    + done.
Qed.

(** What a task's next run writes: the run, and the task reset to it. *)
Definition resetTask (run : Run) (t : Task) : Task :=
  t <| Task_LastRunID := Some (Run_ID run) |> <| Task_Status := Run_Status run |>
    <| Task_Output := None |> <| Task_StartedAt := None |> <| Task_EndedAt := None |>
    <| Task_ErrorMessage := None |> <| Task_AwaitingAnswer := false |>.

Record extended (taskID : string) (in_ : CreateRunInput) (run : Run) (s s' : Store) : Prop := {
  xr_id : Run_ID run ∉ map Run_ID (st_taskruns s);
  xr_idle : ∀ r, r ∈ st_taskruns s → Run_TaskID r = taskID → is_active (Run_Status r) = false;
  xr_runs : st_taskruns s' = st_taskruns s ++ [run];
  xr_tasks : st_tasks s' = update_where (λ t, Task_ID t == taskID) (resetTask run) (st_tasks s);
  xr_frame : only_tasks s s';
  xr_owner : Run_TaskID run = taskID;
  xr_run : Run_Status run = RunStatusPending ∧ Run_Output run = None ∧ Run_StartedAt run = None ∧
           Run_EndedAt run = None ∧ Run_ErrorMessage run = None ∧ Run_Questions run = None;
  xr_lock : ∃ t, t ∈ st_tasks s ∧ Task_ID t = taskID ∧
    Run_PreviousTaskRunID run = Task_LastRunID t ∧
    match ref_of (CRI_RetryOfTaskRunID in_) with
    | None => Run_WorkspaceBaseCheckpointID run = Task_WorkspaceHeadCheckpointID t
    | Some retryOf => ∃ r, r ∈ st_taskruns s ∧ Run_ID r = retryOf ∧
        Run_WorkspaceBaseCheckpointID run = Run_WorkspaceBaseCheckpointID r
    end;
  xr_key : Run_IdempotencyKey run = CRI_IdempotencyKey in_;
}.

Lemma elem_of_rows {R} (p : R → bool) t r : r ∈ rows_where p t ↔ r ∈ t ∧ p r = true.
Proof. unfold rows_where. by rewrite list_elem_of_In, filter_In, <- list_elem_of_In. Qed.

Lemma createTaskRunTx_ok gen taskID in_ s run s' :
  createTaskRunTx gen taskID in_ s = (Ok run, s') →
  (s' = s ∧ run ∈ st_taskruns s ∧ Run_TaskID run = taskID ∧ is_Some (ref_of (CRI_IdempotencyKey in_)) ∧
   Run_IdempotencyKey run = ref_of (CRI_IdempotencyKey in_)) ∨
  (extended taskID in_ run s s' ∧
   ∀ key r, ref_of (CRI_IdempotencyKey in_) = Some key → r ∈ st_taskruns s → Run_TaskID r = taskID →
     Run_IdempotencyKey r ≠ Some key).
Proof.
  unfold createTaskRunTx. intros H. inv_eff H.
  match goal with H1 : take_where _ (st_tasks s) = Some ?t |- _ =>
    rename t into lock; apply take_where_Some in H1 as [Hlock Elock%bool_decide_eq_true] end.
  match goal with H1 : match ref_of (CRI_IdempotencyKey in_) with _ => _ end s = (Ok ?o, ?s1) |- _ =>
    rename o into existing; rename H1 into Hex;
    assert (s1 = s ∧ existing = (key ← ref_of (CRI_IdempotencyKey in_);
      take_where (λ r, (Run_TaskID r == taskID) && (Run_IdempotencyKey r == Some key)) (st_taskruns s)))
      as [-> Eex] by (destruct (ref_of (CRI_IdempotencyKey in_)); by inv_eff Hex); clear Hex end.
  destruct existing as [r|].
  - inv_eff H. left. destruct (ref_of (CRI_IdempotencyKey in_)) as [key|] eqn:Ek; [|done]. cbn in Eex.
    symmetry in Eex. apply take_where_Some in Eex as [Hin [E1%bool_decide_eq_true E2%bool_decide_eq_true]%andb_true_iff].
    split_and!; [done|done|done|by eexists|done].
  - right. inv_eff H. destruct (Nat.ltb_spec 0 (matching (λ r, (Run_TaskID r == taskID) && is_active (Run_Status r)) (st_taskruns s)))
      as [|Hidle]; inv_eff H.
    match goal with H1 : match Task_LastRunID lock with _ => _ end s = (Ok _, ?s1) |- _ =>
      assert (s1 = s) as -> by (destruct (Task_LastRunID lock); by inv_eff H1); clear H1 end.
    match goal with H1 : now _ = _ |- _ => unfold now in H1; inv_eff H1 end.
    match goal with H1 : match ref_of (CRI_RetryOfTaskRunID in_) with _ => _ end s = (Ok ?b, ?s1) |- _ =>
      rename b into base; rename H1 into Hb;
      assert (s1 = s ∧ match ref_of (CRI_RetryOfTaskRunID in_) with
        | None => base = Task_WorkspaceHeadCheckpointID lock
        | Some retryOf => ∃ r, r ∈ st_taskruns s ∧ Run_ID r = retryOf ∧ base = Run_WorkspaceBaseCheckpointID r
        end) as [-> Hbase] end.
    { destruct (ref_of (CRI_RetryOfTaskRunID in_)); inv_eff Hb; [|done].
      match goal with H1 : take_where _ _ = Some ?r |- _ => rename r into r0;
        apply take_where_Some in H1 as [Hin Hid%bool_decide_eq_true] end.
      split; [done|]. by exists r0. }
    match goal with H1 : insertTaskRun _ _ _ = (Ok ?r, _), H2 : update_tasks _ _ _ = _ |- _ =>
      rename r into run0; apply insertTaskRun_ok in H1 as (rid & n & Hr & Hrid & ->);
      apply update_tasks_ok in H2 as [_ ->] end.
    assert (Run_ID run0 = rid ∧ Run_TaskID run0 = taskID ∧ Run_Status run0 = RunStatusPending ∧
      Run_Output run0 = None ∧ Run_StartedAt run0 = None ∧ Run_EndedAt run0 = None ∧
      Run_ErrorMessage run0 = None ∧ Run_Questions run0 = None ∧
      Run_PreviousTaskRunID run0 = Task_LastRunID lock ∧ Run_WorkspaceBaseCheckpointID run0 = base ∧
      Run_IdempotencyKey run0 = CRI_IdempotencyKey in_)
      as (F1 & F2 & F3 & F4 & F5 & F6 & F7 & F8 & F9 & F10 & F11) by (rewrite Hr; split_and!; reflexivity).
    clear Hr. subst rid.
    split.
    + split; [done| |done|done|done|done|done| |done].
      * intros r Hin Ht. assert (matching (λ r, (Run_TaskID r == taskID) && is_active (Run_Status r)) (st_taskruns s) = 0) as H0 by lia.
        apply (matching_zero _ _ H0) in Hin. by rewrite bool_decide_eq_true_2 in Hin.
      * exists lock. split_and!; [done|done|done|]. destruct (ref_of (CRI_RetryOfTaskRunID in_)).
        -- destruct Hbase as (r & ? & ? & ?). exists r. split_and!; [done|done|by rewrite F10].
        -- by rewrite F10.
    + intros key r Ek Hin Ht Hkey. rewrite Ek in Eex. cbn in Eex. symmetry in Eex.
      apply (take_where_None _ _ Eex) in Hin. by rewrite !bool_decide_eq_true_2 in Hin by done.
Qed.

Lemma task_ok_extended taskID in_ run s s' : task_ok s → extended taskID in_ run s s' → task_ok s'.
Proof.
  intros [Htid Hrid Hown Hlast Hact] [Hr Hidle Er Et _ Eo (R1 & R2 & R3 & R4 & R5 & R6) (lock & Hlock & El & _) _].
  assert (map Task_ID (st_tasks s') = map Task_ID (st_tasks s)) as Eids.
  { rewrite Et. by apply update_where_map. }
  split; rewrite ?Eids, ?Er; [done| | | |].
  - rewrite map_app, NoDup_app. cbn. split_and!; [done|set_solver|by apply NoDup_singleton].
  - intros r [Hin|Hnew%list_elem_of_singleton]%elem_of_app; [by apply Hown|]. subst r.
    rewrite Eo, <- El. by apply list_elem_of_fmap_2.
  - rewrite Et. intros t (t0 & Ht0 & ->)%elem_of_update_where. case_bool_decide as E.
    + exists run. split_and!; [by apply elem_of_app; right; left|done|by rewrite Eo|].
      unfold mirrors. rewrite R2, R3, R4, R5, R6. done.
    + destruct (Hlast t0 Ht0) as (r & Hrin & H). exists r. split; [by apply elem_of_app; left|done].
  - rewrite Et. intros r t Hrin (t0 & Ht0 & ->)%elem_of_update_where Eid Ha. case_bool_decide as E.
    + apply elem_of_app in Hrin as [Hin|Hnew%list_elem_of_singleton]; [|by subst r].
      cbn in Eid. rewrite Hidle in Ha; [done|done|by rewrite Eid].
    + apply elem_of_app in Hrin as [Hin|Hnew%list_elem_of_singleton]; [by apply Hact|].
      subst r. by rewrite Eo in Eid.
Qed.

(** ** Every operation keeps the invariant *)

(** [task_ok] reads two tables only. *)
Lemma task_ok_ext s s' :
  st_tasks s' = st_tasks s → st_taskruns s' = st_taskruns s → task_ok s → task_ok s'.
Proof. intros Et Er [H1 H2 H3 H4 H5]. split; rewrite ?Et, ?Er; done. Qed.

Lemma preserves_transaction {A} (m : DB A) :
  (∀ s a s', task_ok s → m s = (Ok a, s') → task_ok s') → preserves task_ok (transaction m).
Proof.
  intros Hm s Hs. unfold transaction. specialize (Hm s). destruct (m s) as [[a|e] s'] eqn:E.
  - by eapply Hm.
  - cbn. by apply (task_ok_ext s).
Qed.

Lemma matching_all {R} (p : R → bool) t r : take_where p t = Some r → matching p t ≠ 0.
Proof. intros [Hin Hp]%take_where_Some E. by rewrite (matching_zero _ _ E r Hin) in Hp. Qed.

(** The columns of a run that the invariant reads. *)
Definition same_face (r r' : Run) : Prop :=
  Run_ID r' = Run_ID r ∧ Run_TaskID r' = Run_TaskID r ∧ Run_Status r' = Run_Status r ∧
  Run_Output r' = Run_Output r ∧ Run_StartedAt r' = Run_StartedAt r ∧ Run_EndedAt r' = Run_EndedAt r ∧
  Run_ErrorMessage r' = Run_ErrorMessage r ∧ Run_Questions r' = Run_Questions r.

Lemma preserves_touch p f : (∀ r, same_face r (f r)) → preserves task_ok (update_taskruns p f).
Proof.
  intros Hf s [Htid Hrid Hown Hlast Hact].
  destruct (update_taskruns p f s) as [[n|e] s'] eqn:E; [|done].
  apply update_taskruns_ok in E as [_ ->].
  assert (∀ r, r ∈ update_where p f (st_taskruns s) → ∃ r0, r0 ∈ st_taskruns s ∧ same_face r0 r) as Hback.
  { intros r (r0 & Hr0 & ->)%elem_of_update_where. exists r0. split; [done|]. destruct (p r0); [done|].
    by repeat split. }
  assert (∀ r0, r0 ∈ st_taskruns s → ∃ r, r ∈ update_where p f (st_taskruns s) ∧ same_face r0 r) as Hforth.
  { intros r0 Hr0. exists (if p r0 then f r0 else r0). split; [apply elem_of_update_where; eauto|].
    destruct (p r0); [done|]. by repeat split. }
  split; cbn; [done| | | |].
  - rewrite update_where_map; [done|]. intros r. apply Hf.
  - intros r (r0 & Hr0 & F1 & F2 & _)%Hback. rewrite F2. by apply Hown.
  - intros t Ht. destruct (Hlast t Ht) as (r0 & Hr0 & L1 & L2 & M1 & M2 & M3 & M4 & M5 & M6).
    destruct (Hforth r0 Hr0) as (r & Hr & F1 & F2 & F3 & F4 & F5 & F6 & F7 & F8).
    exists r. unfold mirrors. rewrite F1, F2, F3, F4, F5, F6, F7, F8. done.
  - intros r t (r0 & Hr0 & F1 & F2 & F3 & _)%Hback Ht. rewrite F1, F2, F3. by apply Hact.
Qed.

Lemma set_if_keep {R T K} (k : R → K) (v : option T) f r :
  (∀ x r, k (f x r) = k r) → k (set_if v f r) = k r.
Proof. intros H. destruct v; [apply H|done]. Qed.

Lemma build_keeps in_ r :
  Run_ID (buildTaskRunUpdates in_ r) = Run_ID r ∧ Run_TaskID (buildTaskRunUpdates in_ r) = Run_TaskID r ∧
  Run_Status (buildTaskRunUpdates in_ r) = TRI_NewStatus in_ ∧
  Run_TriggerSource (buildTaskRunUpdates in_ r) = Run_TriggerSource r.
Proof.
  unfold buildTaskRunUpdates. cbn zeta. split_and!.
  - by rewrite !(set_if_keep Run_ID).
  - by rewrite !(set_if_keep Run_TaskID).
  - by rewrite !(set_if_keep Run_Status).
  - by rewrite !(set_if_keep Run_TriggerSource).
Qed.

Lemma projectRun_keeps run t :
  Task_ID (projectRun run t) = Task_ID t ∧ Task_LastRunID (projectRun run t) = Some (Run_ID run) ∧
  Task_ScheduleID (projectRun run t) = Task_ScheduleID t ∧
  mirrors run (projectRun run t).
Proof.
  unfold projectRun, mirrors. rewrite (set_if_keep Task_ID), (set_if_keep Task_LastRunID), (set_if_keep Task_ScheduleID),
    (set_if_keep Task_Status), (set_if_keep Task_Output), (set_if_keep Task_StartedAt),
    (set_if_keep Task_EndedAt), (set_if_keep Task_ErrorMessage), (set_if_keep Task_AwaitingAnswer) by done.
  done.
Qed.

Lemma foldScheduleOutcome_ok k b s u s' :
  foldScheduleOutcome k b s = (Ok u, s') → ∃ l, s' = s <| st_schedules := l |>.
Proof. unfold foldScheduleOutcome, update_schedules. intros H. inv_eff H. by eexists. Qed.

(** What a transition that applied wrote: the run it found at the expected
    status, and the task mirroring it. *)
Record transitioned (in_ : TransitionRunInput) (run : Run) (s s' : Store) : Prop := {
  tr_run : run ∈ st_taskruns s;
  tr_id : Run_ID run = TRI_TaskRunID in_;
  tr_status : Run_Status run = TRI_ExpectedStatus in_;
  tr_runs : st_taskruns s' = update_where (λ r, (Run_ID r == TRI_TaskRunID in_) && (Run_Status r == TRI_ExpectedStatus in_))
              (buildTaskRunUpdates in_) (st_taskruns s);
  tr_tasks : st_tasks s' = update_where (λ t, Task_ID t == Run_TaskID run)
              (projectRun (buildTaskRunUpdates in_ run)) (st_tasks s);
  tr_frame : s' = s <| st_tasks := st_tasks s' |> <| st_taskruns := st_taskruns s' |> <| st_schedules := st_schedules s' |>;
}.

Lemma TransitionTaskRun_ok in_ s b s' :
  NoDup (map Run_ID (st_taskruns s)) →
  TransitionTaskRun in_ s = (Ok b, s') →
  ValidRunStatusTransition (TRI_ExpectedStatus in_) (TRI_NewStatus in_) = true ∧
  ((b = false ∧ s' = s ∧
    ∀ r, r ∈ st_taskruns s → Run_ID r = TRI_TaskRunID in_ → Run_Status r ≠ TRI_ExpectedStatus in_) ∨
   (b = true ∧ ∃ run, transitioned in_ run s s')).
Proof.
  intros Hnd. unfold TransitionTaskRun. destruct (ValidRunStatusTransition _ _) eqn:Hv; cbn [negb]; [|done].
  intros H. split; [done|]. inv_eff H.
  match goal with H1 : update_taskruns _ _ _ = _ |- _ => apply update_taskruns_ok in H1 as [-> ->] end.
  set (p := λ r, (Run_ID r == TRI_TaskRunID in_) && (Run_Status r == TRI_ExpectedStatus in_)) in *.
  destruct (Nat.eqb_spec (matching p (st_taskruns s)) 0) as [E0|E0]; inv_eff H.
  - left. split; [done|]. split.
    + rewrite (update_where_none _ _ _ E0). by destruct s.
    + intros r Hr E1 E2. apply (matching_zero _ _ E0) in Hr. subst p. cbn in Hr.
      by rewrite !bool_decide_eq_true_2 in Hr.
  - right. split; [done|].
    match goal with H1 : take_where _ _ = Some ?r |- _ => rename r into r1;
      apply take_where_Some in H1 as [Hin Hid%bool_decide_eq_true] end.
    cbn in Hin.
    assert (∃ run, run ∈ st_taskruns s ∧ p run = true ∧ r1 = buildTaskRunUpdates in_ run) as (run & Hrun & Hp & ->).
    { apply elem_of_update_where in Hin as (r0 & Hr0 & E). destruct (p r0) eqn:Ep; [by exists r0|].
      subst r1. exfalso. apply E0. unfold matching. apply length_zero_iff_nil.
      destruct (List.filter p (st_taskruns s)) as [|r2 l] eqn:Ef; [done|].
      assert (In r2 (List.filter p (st_taskruns s))) as [H2 Hp2]%filter_In by (rewrite Ef; by left).
      apply list_elem_of_In in H2. pose proof Hp2 as Hp2'. subst p. cbn in Hp2'.
      apply andb_true_iff in Hp2' as [Hp2'%bool_decide_eq_true _].
      rewrite (NoDup_key Run_ID _ r0 r2 Hnd Hr0 H2) in Ep by congruence. congruence. }
    match goal with H1 : update_tasks _ _ _ = _ |- _ => apply update_tasks_ok in H1 as [_ ->] end.
    destruct (build_keeps in_ run) as (B1 & B2 & B3 & _). rewrite B2 in *.
    subst p. cbn in Hp. apply andb_true_iff in Hp as [P1%bool_decide_eq_true P2%bool_decide_eq_true].
    exists run.
    match goal with H1 : (if _ then _ else mret tt) ?s0 = (Ok _, ?s1) |- _ =>
      rename H1 into Hif; assert (∃ l, s1 = s0 <| st_schedules := l |>) as [l ->] end.
    { revert Hif. generalize (settled (TRI_NewStatus in_) && (Run_TriggerSource (buildTaskRunUpdates in_ run) == RunTriggerSourceSchedule)).
      intros [] Hif.
      - apply eff_bind_ok in Hif as (sch & s0 & [_ ->]%gets_ok & Hif). by eapply foldScheduleOutcome_ok.
      - apply ret_ok in Hif as [_ ->]. exists (st_schedules s). by destruct s. }
    by split.
Qed.

Lemma task_ok_transitioned in_ run s s' :
  ValidRunStatusTransition (TRI_ExpectedStatus in_) (TRI_NewStatus in_) = true →
  task_ok s → transitioned in_ run s s' → task_ok s'.
Proof.
  intros Hv [Htid Hrid Hown Hlast Hact] [Hrun Hid Hst Er Et _].
  set (p := λ r, (Run_ID r == TRI_TaskRunID in_) && (Run_Status r == TRI_ExpectedStatus in_)) in *.
  assert (∀ r, r ∈ st_taskruns s → p r = true → r = run) as Huniq.
  { intros r Hr Hp. subst p. cbn in Hp. apply andb_true_iff in Hp as [Hp%bool_decide_eq_true _].
    apply (NoDup_key Run_ID (st_taskruns s)); congruence. }
  assert (p run = true) as Hprun by (subst p; cbn; by rewrite !bool_decide_eq_true_2).
  assert (is_active (Run_Status run) = true) as Hactive by (rewrite Hst; by eapply task_transition_from_active).
  destruct (build_keeps in_ run) as (B1 & B2 & B3 & _).
  assert (map Task_ID (st_tasks s') = map Task_ID (st_tasks s)) as Eids.
  { rewrite Et. apply update_where_map. intros t. by destruct (projectRun_keeps (buildTaskRunUpdates in_ run) t). }
  split; rewrite ?Eids; [done| | | |].
  - rewrite Er, update_where_map; [done|]. intros r. by destruct (build_keeps in_ r).
  - rewrite Er. intros r (r0 & Hr0 & ->)%elem_of_update_where. destruct (p r0); [|by apply Hown].
    destruct (build_keeps in_ r0) as (_ & -> & _). by apply Hown.
  - rewrite Et, Er. intros t (t0 & Ht0 & ->)%elem_of_update_where. case_bool_decide as E.
    + exists (buildTaskRunUpdates in_ run). destruct (projectRun_keeps (buildTaskRunUpdates in_ run) t0) as (P1 & P2 & _ & P3).
      split_and!; [apply elem_of_update_where; exists run; by rewrite Hprun|done|by rewrite B2, P1|done].
    + destruct (Hlast t0 Ht0) as (r & Hr & L1 & L2 & L3). exists r. split_and!; [|done..].
      apply elem_of_update_where. exists r. split; [done|]. destruct (p r) eqn:Ep; [|done].
      apply Huniq in Ep; [|done]. subst r. by rewrite L2 in E.
  - rewrite Et, Er. intros r t (r0 & Hr0 & ->)%elem_of_update_where (t0 & Ht0 & ->)%elem_of_update_where Eid Ha.
    destruct (projectRun_keeps (buildTaskRunUpdates in_ run) t0) as (P1 & P2 & _).
    case_bool_decide as E.
    + rewrite P2. destruct (p r0) eqn:Ep; [apply Huniq in Ep; [by subst r0|done]|].
      rewrite B1. rewrite P1 in Eid. pose proof (Hact r0 t0 Hr0 Ht0 Eid Ha) as H1.
      pose proof (Hact run t0 Hrun Ht0 (eq_sym E) Hactive) as H2. congruence.
    + destruct (p r0) eqn:Ep; [|by apply Hact]. apply Huniq in Ep; [|done]. subst r0. by rewrite B2 in Eid.
Qed.

Section Preserve.
Context (gen session : nat → string).

Lemma newTaskRows_same in_ s rows s1 : newTaskRows session in_ s = (Ok rows, s1) → s1 = s.
Proof. unfold newTaskRows, now. intros H. by inv_eff H. Qed.

Lemma createTx_preserves in_ s0 rows s1 :
  newTaskRows session in_ s0 = (Ok rows, s1) →
  preserves task_ok (transaction (createTaskAndRunTx gen in_ rows.1 rows.2)).
Proof.
  intros Hrows. apply preserves_transaction. intros s [task run] s' Hok Hc.
  eapply task_ok_created; [exact Hok|]. by eapply createTaskAndRunTx_ok.
Qed.

Lemma CreateTask_preserves in_ : preserves task_ok (CreateTask gen session in_).
Proof.
  intros s Hs. unfold CreateTask, mbind, eff_bind.
  destruct (newTaskRows session in_ s) as [[rows|e] s1] eqn:Hrows; [|done].
  pose proof (newTaskRows_same _ _ _ _ Hrows) as ->.
  pose proof (createTx_preserves _ _ _ _ Hrows s Hs) as Hp.
  by destruct (transaction _ s) as [[c|e] s'].
Qed.

Lemma taskByAdmissionKey_preserves I sp k : preserves I (taskByAdmissionKey sp k).
Proof. apply preserves_gets. Qed.

Lemma admittedTaskOrConflict_preserves I t fp : preserves I (admittedTaskOrConflict t fp).
Proof. unfold admittedTaskOrConflict. case_bool_decide; [apply preserves_gets|apply preserves_fail]. Qed.

Lemma AdmitTask_preserves admitNode between in_ :
  preserves task_ok (admitNode in_) → preserves task_ok between →
  preserves task_ok (AdmitTask gen session admitNode between in_).
Proof.
  intros Hnode Hbetween. unfold AdmitTask.
  case_bool_decide; [apply preserves_fail|]. case_bool_decide; cbn [negb]; [|done].
  apply preserves_bind; [apply taskByAdmissionKey_preserves|]. intros [t|];
    [apply admittedTaskOrConflict_preserves|].
  intros s Hs. unfold mbind at 1, eff_bind at 1.
  destruct (newTaskRows session in_ s) as [[rows|e] s1] eqn:Hrows; [|done].
  pose proof (newTaskRows_same _ _ _ _ Hrows) as ->. revert s Hs Hrows. intros s Hs Hrows.
  revert Hs. apply preserves_bind; [exact Hbetween|]. intros _. apply preserves_catch.
  - apply preserves_bind; [by eapply createTx_preserves|intros; apply preserves_ret].
  - intros e. case_bool_decide; [|apply preserves_fail].
    apply preserves_bind; [apply taskByAdmissionKey_preserves|]. intros [t|];
      [apply admittedTaskOrConflict_preserves|apply preserves_fail].
Qed.

Lemma CreateTaskRun_preserves admitNode in_ :
  preserves task_ok (admitNode (CRI_TaskID in_) in_) →
  preserves task_ok (CreateTaskRun gen admitNode in_).
Proof.
  intros Hnode. unfold CreateTaskRun. case_bool_decide; cbn [negb]; [|done].
  apply preserves_transaction. intros s run s' Hok Hrun.
  apply createTaskRunTx_ok in Hrun as [(-> & _)|[Hx _]]; [done|]. by eapply task_ok_extended.
Qed.

Lemma TransitionTaskRun_preserves in_ : preserves task_ok (TransitionTaskRun in_).
Proof.
  intros s Hok. destruct (TransitionTaskRun in_ s) as [[b|e] s'] eqn:E; cbn.
  - apply TransitionTaskRun_ok in E as [Hv [(_ & -> & _)|(_ & run & Ht)]]; [done| |apply Hok].
    by eapply task_ok_transitioned.
  - revert E. unfold TransitionTaskRun. destruct (negb _); [by intros [= <- <-]|].
    intros [n ->]%transaction_err. by apply (task_ok_ext s).
Qed.

Lemma RequestTaskRunCancel_preserves id by_ reason at_ :
  preserves task_ok (RequestTaskRunCancel id by_ reason at_).
Proof.
  unfold RequestTaskRunCancel. apply preserves_bind.
  - intros s Hs. unfold lookupKey. eff_unfold. case_bool_decide; cbn; [done|].
    destruct (resolves s _ _); cbn; done.
  - intros o. apply preserves_bind; [|intros; apply preserves_ret]. apply preserves_touch.
    intros r. destruct o; by repeat split.
Qed.

Lemma Records_preserve id n a b :
  preserves task_ok (RecordTaskRunAgentRevision id n) ∧
  preserves task_ok (RecordTaskRunSpaceAgentInstructionsRevision id n) ∧
  preserves task_ok (RecordTaskRunPluginPins id a) ∧
  preserves task_ok (RecordTaskRunSandboxTiers id a b) ∧
  preserves task_ok (RecordTaskRunFailureCause id a) ∧
  preserves task_ok (MarkTaskRunSeen id n) ∧
  preserves task_ok (ClearTaskRunTracePath id).
Proof. split_and!; apply preserves_touch; intros r; by repeat split. Qed.

Lemma UpdateTaskRunWorkerInfo_preserves id w n t :
  preserves task_ok (UpdateTaskRunWorkerInfo id w n t).
Proof. apply preserves_touch. intros r. destruct n, t; by repeat split. Qed.
End Preserve.

Lemma matching_ex {R} (p : R → bool) t : 0 < matching p t → ∃ r, r ∈ t ∧ p r = true.
Proof.
  unfold matching. destruct (List.filter p t) as [|r l] eqn:Ef; cbn; [lia|]. intros _. exists r.
  assert (In r (List.filter p t)) as [H1 H2]%filter_In by (rewrite Ef; by left).
  by rewrite list_elem_of_In.
Qed.

(** A filter on a unique key matches at most one row. *)
Lemma matching_key {R} (k : R → string) v (p : R → bool) t :
  NoDup (map k t) → (∀ r, p r = true → k r = v) → matching p t = 0 ∨ matching p t = 1.
Proof.
  intros Hnd Hp. unfold matching. induction t as [|r t IH]; cbn; [by left|]. cbn in Hnd.
  apply NoDup_cons in Hnd as [Hr Hnd]. specialize (IH Hnd). destruct (p r) eqn:E; [|done]. cbn. right.
  f_equal. change (matching p t = 0). destruct (decide (matching p t = 0)) as [|Hne]; [done|].
  destruct (matching_ex p t) as (r' & Hr' & E'); [lia|]. destruct Hr.
  rewrite (Hp _ E), <- (Hp _ E'). by apply list_elem_of_fmap_2.
Qed.

Lemma modify_same_taskruns s : s = s <| st_taskruns := st_taskruns s |>.
Proof. by destruct s. Qed.

(** ** Properties *)

(** of the transitions that expect one status of a run, exactly one
    applies.  The one that applies lands on a lifecycle edge, leaves every other
    run alone, records a failure class when the run fails, and
    makes the run's task mirror it; after it, no other transition that expects
    the same status changes anything. *)
Lemma TransitionTaskRun_once (in_ again : TransitionRunInput) (s s' : Store) :
  task_ok s →
  TransitionTaskRun in_ s = (Ok true, s') →
  TRI_TaskRunID again = TRI_TaskRunID in_ → TRI_ExpectedStatus again = TRI_ExpectedStatus in_ →
  ValidRunStatusTransition (TRI_ExpectedStatus again) (TRI_NewStatus again) = true →
  TransitionTaskRun again s' = (Ok false, s') ∧
  (∀ r, r ∈ st_taskruns s' → Run_ID r ≠ TRI_TaskRunID in_ → r ∈ st_taskruns s) ∧
  ∃ r t, r ∈ st_taskruns s' ∧ t ∈ st_tasks s' ∧
    Run_ID r = TRI_TaskRunID in_ ∧ Run_Status r = TRI_NewStatus in_ ∧
    ValidRunStatusTransition (TRI_ExpectedStatus in_) (Run_Status r) = true ∧
    Run_TaskID r = Task_ID t ∧ Task_LastRunID t = Some (Run_ID r) ∧ mirrors r t ∧
    (Run_Status r = RunStatusFailed → Run_FailureClass_ r = Some (NormalizeFailureClass (TRI_FailureClass in_))).
Proof.
  intros Hok H Eid Est Hv. pose proof (ok_run_ids _ Hok) as Hnd.
  apply TransitionTaskRun_ok in H as [Hv1 [(? & _)|(_ & run & Ht)]]; [done| |done].
  pose proof (task_ok_transitioned _ _ _ _ Hv1 Hok Ht) as Hok'.
  destruct Ht as [Hrun Hid Hst Er Et Hframe].
  destruct (build_keeps in_ run) as (B1 & B2 & B3 & _).
  assert (buildTaskRunUpdates in_ run ∈ st_taskruns s') as Hin'.
  { rewrite Er. apply elem_of_update_where. exists run. split; [done|]. by rewrite !bool_decide_eq_true_2. }
  split_and!.
  - assert (matching (λ r, (Run_ID r == TRI_TaskRunID again) && (Run_Status r == TRI_ExpectedStatus again))
      (st_taskruns s') = 0) as E0.
    { unfold matching. apply length_zero_iff_nil. destruct (List.filter _ _) as [|r l] eqn:Ef; [done|].
      assert (In r (List.filter (λ r, (Run_ID r == TRI_TaskRunID again) && (Run_Status r == TRI_ExpectedStatus again))
        (st_taskruns s'))) as [Hr Hp]%filter_In by (rewrite Ef; by left).
      apply list_elem_of_In in Hr.
      apply andb_true_iff in Hp as [P1%bool_decide_eq_true P2%bool_decide_eq_true].
      assert (r = buildTaskRunUpdates in_ run) as ->.
      { apply (NoDup_key Run_ID (st_taskruns s')); [apply Hok'|done|done|congruence]. }
      rewrite B3 in P2. apply task_transition_neq in Hv1. congruence. }
    unfold TransitionTaskRun. rewrite Hv. cbn [negb]. unfold transaction, update_taskruns. eff_unfold.
    rewrite E0. cbn. by rewrite (update_where_none _ _ _ E0), <- (modify_same_taskruns s').
  - rewrite Er. intros r (r0 & Hr0 & ->)%elem_of_update_where Hne.
    destruct (_ && _) eqn:Ep; [|done]. apply andb_true_iff in Ep as [Ep%bool_decide_eq_true _].
    destruct (build_keeps in_ r0) as (Eid0 & _). congruence.
  - pose proof (ok_owner _ Hok' _ Hin') as (t & Etid & Htin)%list_elem_of_fmap.
    pose proof Htin as Htin'. rewrite Et in Htin'. apply elem_of_update_where in Htin' as (t0 & Ht0 & ->).
    destruct (projectRun_keeps (buildTaskRunUpdates in_ run) t0) as (P1 & P2 & _ & P3).
    rewrite B2 in Etid. revert Etid Htin. case_bool_decide as Ek; intros Etid Htin.
    + eexists _, _. split_and!; [exact Hin'|exact Htin|congruence|done|by rewrite B3|congruence|by rewrite P2|done|].
      intros Hf. unfold buildTaskRunUpdates, failureClassFor. rewrite B3 in Hf.
      by rewrite Hf.
    + exfalso. apply Ek. by rewrite Etid.
Qed.

(** The first cancel request wins.  A request is recorded exactly when the
    run is active and nobody asked before; it never moves the run's status, and
    no later request replaces who asked, when or why. *)
Theorem RequestTaskRunCancel_first (s : Store) (id by_ reason : string) (at_ : Z) :
  task_ok s → (by_ = ""%string ∨ ("user"%string, by_) ∈ st_refs s) →
  ∃ b s', RequestTaskRunCancel id by_ reason at_ s = (Ok b, s') ∧
    (b = true ↔ ∃ r, r ∈ st_taskruns s ∧ Run_ID r = id ∧ is_active (Run_Status r) = true ∧
                     Run_CancelRequestedAt r = None) ∧
    (b = false → s' = s) ∧
    (∀ r, r ∈ st_taskruns s' → ∃ r0, r0 ∈ st_taskruns s ∧ Run_ID r0 = Run_ID r ∧ Run_Status r0 = Run_Status r ∧
       (is_Some (Run_CancelRequestedAt r0) → r = r0) ∧
       (b = true → Run_ID r = id → Run_CancelRequestedAt r = Some at_ ∧ Run_CancelReason r = reason ∧
          Run_CancelRequestedBy r = if by_ != ""%string then Some by_ else Run_CancelRequestedBy r0)).
Proof.
  intros Hok Hby.
  set (p := λ r, (Run_ID r == id) && is_active (Run_Status r) && (Run_CancelRequestedAt r == None)).
  set (who := if by_ != ""%string then Some by_ else None).
  set (f := λ r, set_if who (λ by_, λ r, r <| Run_CancelRequestedBy := Some by_ |>)
               (r <| Run_CancelRequestedAt := Some at_ |> <| Run_CancelReason := reason |>)).
  assert (RequestTaskRunCancel id by_ reason at_ s =
    (Ok (matching p (st_taskruns s) =? 1)%nat, s <| st_taskruns := update_where p f (st_taskruns s) |>)) as ->.
  { unfold RequestTaskRunCancel, who, f, update_taskruns, lookupKey. eff_unfold.
    destruct (bool_decide_reflect (by_ = ""%string)) as [->|Eb]; cbn; [done|].
    destruct Hby as [|Hby]; [done|]. rewrite resolves_refs by (right; by left).
    by rewrite (bool_decide_eq_true_2 (("user"%string, by_) ∈ _)). }
  eexists _, _. split; [done|].
  assert (∀ r, p r = true ↔ Run_ID r = id ∧ is_active (Run_Status r) = true ∧ Run_CancelRequestedAt r = None) as Hp.
  { intros r. subst p. cbn. rewrite !andb_true_iff, !bool_decide_eq_true. tauto. }
  assert (matching p (st_taskruns s) = 0 ∨ matching p (st_taskruns s) = 1) as Hm.
  { apply matching_key with (k := Run_ID) (v := id); [apply Hok|]. intros r Hr. by apply Hp in Hr as []. }
  split_and!.
  - rewrite Nat.eqb_eq. split.
    + intros E1. destruct (matching_ex p (st_taskruns s)) as (r & Hr & Hpr); [lia|].
      exists r. split; [done|]. by apply Hp.
    + intros (r & Hr & Hr'). apply Hp in Hr'. pose proof (matching_pos _ _ _ Hr Hr'). lia.
  - intros E1%Nat.eqb_neq. rewrite update_where_none by lia. by destruct s.
  - cbn. intros r (r0 & Hr0 & ->)%elem_of_update_where.
    assert (Run_ID (f r0) = Run_ID r0 ∧ Run_Status (f r0) = Run_Status r0 ∧
      Run_CancelRequestedAt (f r0) = Some at_ ∧ Run_CancelReason (f r0) = reason ∧
      Run_CancelRequestedBy (f r0) = if by_ != ""%string then Some by_ else Run_CancelRequestedBy r0)
      as (F1 & F2 & F3 & F4 & F5) by (unfold f, who; destruct (by_ != ""%string); done).
    exists r0. split; [done|]. destruct (p r0) eqn:Ep.
    + rewrite F1, F2, F3, F4, F5. apply Hp in Ep as (_ & _ & Ep). split_and!; [done|done| |done].
      rewrite Ep. by intros [? ?].
    + split_and!; [done|done|done|]. intros E1%Nat.eqb_eq Hid. exfalso.
      destruct (matching_ex p (st_taskruns s)) as (r & Hr & Hpr); [lia|].
      assert (r = r0) as ->; [|congruence].
      apply (NoDup_key Run_ID (st_taskruns s)); [apply Hok|done|done|]. apply Hp in Hpr as []. congruence.
Qed.

(** Creating a task's next run.  A repeated idempotency key returns the run
    it made, whatever its state, and writes nothing; otherwise a task with an
    active run is refused, and an idle one gets one new pending run that follows
    its last run, starts from the retried run's own base checkpoint (or the
    task's head when it is not a retry), and becomes the task's face. *)
Theorem CreateTaskRun_result (gen : nat → string) admitNode (in_ : CreateRunInput) (s : Store) :
  task_ok s → CRI_WorkflowNodeRunID in_ = ""%string →
  match CreateTaskRun gen admitNode in_ s with
  | (Ok run, s') =>
      task_ok s' ∧ Run_TaskID run = CRI_TaskID in_ ∧
      ((s' = s ∧ run ∈ st_taskruns s ∧ is_Some (ref_of (CRI_IdempotencyKey in_)) ∧
        Run_IdempotencyKey run = ref_of (CRI_IdempotencyKey in_)) ∨
       (extended (CRI_TaskID in_) in_ run s s' ∧
        ∀ key r, ref_of (CRI_IdempotencyKey in_) = Some key → r ∈ st_taskruns s →
          Run_TaskID r = CRI_TaskID in_ → Run_IdempotencyKey r ≠ Some key))
  | (Err e, s') => st_tasks s' = st_tasks s ∧ st_taskruns s' = st_taskruns s
  end ∧
  (∀ active t, active ∈ st_taskruns s → t ∈ st_tasks s → Task_ID t = CRI_TaskID in_ →
     Run_TaskID active = CRI_TaskID in_ → is_active (Run_Status active) = true →
     (∀ key r, ref_of (CRI_IdempotencyKey in_) = Some key → r ∈ st_taskruns s →
        Run_TaskID r = CRI_TaskID in_ → Run_IdempotencyKey r ≠ Some key) →
     (CreateTaskRun gen admitNode in_ s).1 = Err ErrRunInProgress).
Proof.
  intros Hok Hnode. unfold CreateTaskRun. rewrite Hnode. cbn [negb]. split.
  - rewrite bool_decide_eq_true_2 by done. cbn [negb].
    destruct (transaction _ s) as [[run|e] s'] eqn:E.
    + apply transaction_ok in E. apply createTaskRunTx_ok in E as [(-> & Hin & Ht & Hk)|[Hx Hk]].
      * split_and!; [done|done|]. left. by destruct Hk.
      * split_and!; [by eapply task_ok_extended|apply Hx|]. by right.
    + apply transaction_err in E as [n ->]. done.
  - intros active t Ha Ht Etid Eaid Hact Hkeys. rewrite bool_decide_eq_true_2 by done. cbn [negb].
    unfold transaction, createTaskRunTx. eff_unfold.
    destruct (take_where (λ t, Task_ID t == CRI_TaskID in_) (st_tasks s)) as [lock|] eqn:El; cbn.
    2: { apply (take_where_None _ _ El) in Ht. by rewrite bool_decide_eq_true_2 in Ht. }
    assert (matching (λ r, (Run_TaskID r == CRI_TaskID in_) && is_active (Run_Status r)) (st_taskruns s) ≠ 0) as Hm.
    { intros E0. apply (matching_zero _ _ E0) in Ha. by rewrite Eaid, Hact, bool_decide_eq_true_2 in Ha. }
    destruct (ref_of (CRI_IdempotencyKey in_)) as [key|] eqn:Ek; cbn.
    + destruct (take_where _ (st_taskruns s)) as [r|] eqn:Er; cbn.
      * apply take_where_Some in Er as [Hr Hp]. apply andb_true_iff in Hp as [P1%bool_decide_eq_true P2%bool_decide_eq_true].
        by destruct (Hkeys key r).
      * destruct (matching _ (st_taskruns s)); [done|]. done.
    + destruct (matching _ (st_taskruns s)); done.
Qed.

(** An admission key names one task of its space. *)
Definition keys_unique (s : Store) : Prop :=
  ∀ t1 t2 key, t1 ∈ st_tasks s → t2 ∈ st_tasks s → Task_SpaceID t1 = Task_SpaceID t2 →
    Task_AdmissionKey t1 = Some key → Task_AdmissionKey t2 = Some key → t1 = t2.

Definition admission_ok (s : Store) : Prop := task_ok s ∧ keys_unique s.

Definition admitted (in_ : CreateInput) (t : Task) (s : Store) : Prop :=
  t ∈ st_tasks s ∧ ("space"%string, CI_SpaceID in_) ∈ st_refs s ∧ Task_SpaceID t = CI_SpaceID in_ ∧
  Task_AdmissionKey t = Some (CI_AdmissionKey in_) ∧
  Task_AdmissionFingerprint t = Some (AdmissionFingerprint in_).

Lemma GetTask_unique s t : task_ok s → t ∈ st_tasks s → GetTask (Task_ID t) s = (Ok (Some t), s).
Proof.
  intros Hok Ht. unfold GetTask, gets. destruct (take_where _ _) as [t'|] eqn:E.
  - apply take_where_Some in E as [Ht' Eid%bool_decide_eq_true].
    by rewrite (NoDup_key Task_ID (st_tasks s) t' t (ok_task_ids _ Hok) Ht' Ht Eid).
  - apply (take_where_None _ _ E) in Ht. by rewrite bool_decide_eq_true_2 in Ht.
Qed.

Lemma taskByAdmissionKey_admitted in_ t s :
  keys_unique s → admitted in_ t s →
  taskByAdmissionKey (CI_SpaceID in_) (CI_AdmissionKey in_) s = (Ok (Some t), s).
Proof.
  intros Hu (Ht & Hsp & Esp & Ekey & _). unfold taskByAdmissionKey, gets. rewrite bool_decide_eq_true_2 by done.
  destruct (take_where _ _) as [t'|] eqn:E.
  - apply take_where_Some in E as [Ht' [E1%bool_decide_eq_true E2%bool_decide_eq_true]%andb_true_iff].
    by rewrite (Hu t' t (CI_AdmissionKey in_)) by congruence.
  - apply (take_where_None _ _ E) in Ht. by rewrite !bool_decide_eq_true_2 in Ht.
Qed.

Lemma keys_unique_created in_ task run s s' : keys_unique s → created in_ task run s s' → keys_unique s'.
Proof.
  intros Hu [_ _ Et _ _ _ _ _ _ (K1 & K2 & _) _ Hun] t1 t2 key. rewrite Et.
  assert (∀ t, t ∈ st_tasks s → Task_SpaceID t = Task_SpaceID task → Task_AdmissionKey t = Some key →
    Task_AdmissionKey task = Some key → False) as Hno.
  { intros t Ht Esp Ekt Ek. rewrite K2 in Ek. case_bool_decide as Eb; cbn in Ek; [done|].
    injection Ek as <-. apply (Hun Eb t Ht); [by rewrite Esp|done]. }
  intros [H1|H1%list_elem_of_singleton]%elem_of_app [H2|H2%list_elem_of_singleton]%elem_of_app Esp K K';
    [by eapply Hu|subst t2|subst t1|by subst t1 t2].
  - by destruct (Hno t1).
  - by destruct (Hno t2).
Qed.

Lemma admittedOrConflict_ok s existing in_ o s' :
  task_ok s → existing ∈ st_tasks s →
  admittedTaskOrConflict existing (AdmissionFingerprint in_) s = (Ok o, s') →
  s' = s ∧ o = Some existing ∧ Task_AdmissionFingerprint existing = Some (AdmissionFingerprint in_).
Proof.
  intros Hok Hin. unfold admittedTaskOrConflict. case_bool_decide as E; cbn [negb]; [|done].
  rewrite GetTask_unique by done. by intros [= <- <-].
Qed.

Lemma taskByAdmissionKey_Some sp key s t :
  (taskByAdmissionKey sp key s).1 = Ok (Some t) →
  t ∈ st_tasks s ∧ ("space"%string, sp) ∈ st_refs s ∧ Task_SpaceID t = sp ∧ Task_AdmissionKey t = Some key.
Proof.
  unfold taskByAdmissionKey, gets. case_bool_decide; [|done]. cbn. intros [= E].
  apply take_where_Some in E as [Ht [E1%bool_decide_eq_true E2%bool_decide_eq_true]%andb_true_iff]. done.
Qed.

(** C39: admission is idempotent.  Whatever other admitters commit between the
    key lookup and the insert, an admission that succeeds returns the one task
    its key names, holding its own payload; admitting again returns that task
    and writes nothing, and another payload under the key is a conflict that
    writes nothing. *)
Theorem AdmitTask_idempotent gen session admitNode between (in_ : CreateInput) (s : Store) o s' :
  admission_ok s → preserves admission_ok between → CI_WorkflowNodeRunID in_ = ""%string →
  AdmitTask gen session admitNode between in_ s = (Ok o, s') →
  admission_ok s' ∧ ∃ t, o = Some t ∧ admitted in_ t s' ∧
    ∀ in2 other, CI_WorkflowNodeRunID in2 = ""%string →
      CI_SpaceID in2 = CI_SpaceID in_ → CI_AdmissionKey in2 = CI_AdmissionKey in_ →
      AdmitTask gen session admitNode other in2 s' =
        (if AdmissionFingerprint in2 == AdmissionFingerprint in_ then Ok (Some t)
         else Err ErrTaskAdmissionConflict, s').
Proof.
  intros [Hok Hu] Hbetween Hnode H.
  enough (admission_ok s' ∧ ∃ t, o = Some t ∧ admitted in_ t s') as ([Hok' Hu'] & t & -> & Hadm).
  { split; [done|]. exists t. split_and!; [done|done|]. intros in2 other Hn2 Esp Ekey.
    unfold AdmitTask. destruct (bool_decide_reflect (CI_AdmissionKey in2 = ""%string)) as [E0|_].
    { exfalso. rewrite Ekey in E0. unfold AdmitTask in H. by rewrite E0, bool_decide_eq_true_2 in H. }
    rewrite Hn2, bool_decide_eq_true_2 by done. cbn [negb]. rewrite Esp, Ekey.
    unfold mbind, eff_bind. rewrite (taskByAdmissionKey_admitted in_ t s' Hu' Hadm).
    destruct Hadm as (Ht & _ & _ & _ & Hf). unfold admittedTaskOrConflict. rewrite Hf.
    destruct (bool_decide_reflect (AdmissionFingerprint in2 = AdmissionFingerprint in_)) as [->|Hne].
    - rewrite bool_decide_eq_true_2 by done. cbn [negb]. by apply GetTask_unique.
    - rewrite bool_decide_eq_false_2; [done|]. intros E. apply (inj Some) in E. congruence. }
  unfold AdmitTask in H. destruct (bool_decide_reflect (CI_AdmissionKey in_ = ""%string)) as [|Hkey]; [done|].
  rewrite Hnode, bool_decide_eq_true_2 in H by done. cbn [negb] in H.
  apply eff_bind_ok in H as (existing & s1 & Hex & H).
  assert (s1 = s) as -> by (unfold taskByAdmissionKey in Hex; by apply gets_ok in Hex as [_ ->]).
  destruct existing as [existing|].
  { destruct (taskByAdmissionKey_Some (CI_SpaceID in_) (CI_AdmissionKey in_) s existing) as (Ht & Hsp & E1 & E2);
      [by rewrite Hex|].
    apply (admittedOrConflict_ok s existing in_) in H as (-> & -> & Hf); [|done|done].
    split; [done|]. by exists existing. }
  apply eff_bind_ok in H as (rows & s2 & Hrows & H). pose proof (newTaskRows_same _ _ _ _ _ Hrows) as ->.
  apply eff_bind_ok in H as ([] & s3 & Hbtw & H).
  assert (admission_ok s3) as [Hok3 Hu3].
  { pose proof (Hbetween s (conj Hok Hu)) as Hb. by rewrite Hbtw in Hb. }
  apply catch_ok in H as [H|(e & s4 & He & H)].
  - apply eff_bind_ok in H as ([task run] & s4 & Hc & [-> ->]%ret_ok). apply transaction_ok in Hc.
    pose proof (createTaskAndRunTx_ok _ _ _ _ _ _ _ _ _ _ Hrows Hc) as Hcr.
    split; [split; [by eapply task_ok_created|by eapply keys_unique_created]|].
    exists task. split; [done|]. destruct Hcr as [_ _ Et _ Hfr _ _ _ _ (K1 & K2 & K3) Hsp _].
    rewrite bool_decide_eq_false_2 in K2, K3 by done. unfold admitted. rewrite Et. split_and!; try done.
    + apply elem_of_app. right. by left.
    + by rewrite Hfr.
  - assert (∃ n, s4 = s3 <| st_fresh := n |>) as [n ->].
    { unfold mbind, eff_bind in He. destruct (transaction _ s3) as [[c|e'] s5] eqn:Et; [done|].
      injection He as <- <-. by eapply transaction_err. }
    assert (task_ok (s3 <| st_fresh := n |>)) as Hok4 by (by apply (task_ok_ext s3)).
    destruct (bool_decide_reflect (e = ErrDuplicateKey)) as [->|]; [|done].
    apply eff_bind_ok in H as (winner & s5 & Hw & H).
    assert (s5 = s3 <| st_fresh := n |>) as -> by (unfold taskByAdmissionKey in Hw; by apply gets_ok in Hw as [_ ->]).
    destruct winner as [winner|]; [|done].
    destruct (taskByAdmissionKey_Some (CI_SpaceID in_) (CI_AdmissionKey in_) (s3 <| st_fresh := n |>) winner)
      as (Ht & Hsp & E1 & E2); [by rewrite Hw|].
    apply (admittedOrConflict_ok _ winner in_) in H as (-> & -> & Hf); [|done|done].
    split; [by split|]. by exists winner.
Qed.

Lemma update_where_once {R} (p : R → bool) f g t :
  (∀ r, p r = true → p (f r) = false) → update_where p g (update_where p f t) = update_where p f t.
Proof.
  intros Hf. unfold update_where. rewrite map_map. apply map_ext. intros r.
  destruct (p r) eqn:E; [by rewrite Hf|by rewrite E].
Qed.

(** What a run was given is written once: the first recorded agent and
    instructions revision, plugin pins, sandbox tiers and failure cause of a
    run stay, whatever is recorded later. *)
Theorem Records_first_write_wins (s : Store) (id : string) :
  (∀ x y, let s1 := (RecordTaskRunAgentRevision id x s).2 in
     (RecordTaskRunAgentRevision id y s1).2 = s1) ∧
  (∀ x y, let s1 := (RecordTaskRunSpaceAgentInstructionsRevision id x s).2 in
     (RecordTaskRunSpaceAgentInstructionsRevision id y s1).2 = s1) ∧
  (∀ x y, x ≠ ""%string → let s1 := (RecordTaskRunPluginPins id x s).2 in
     (RecordTaskRunPluginPins id y s1).2 = s1) ∧
  (∀ x1 x2 y1 y2, let s1 := (RecordTaskRunSandboxTiers id x1 x2 s).2 in
     (RecordTaskRunSandboxTiers id y1 y2 s1).2 = s1) ∧
  (∀ x y, let s1 := (RecordTaskRunFailureCause id x s).2 in
     (RecordTaskRunFailureCause id y s1).2 = s1).
Proof.
  assert (∀ p f g, (∀ r, p r = true → p (f r) = false) →
    (update_taskruns p g (update_taskruns p f s).2).2 = (update_taskruns p f s).2) as Hw.
  { intros p f g Hf. unfold update_taskruns. eff_unfold.
    pose proof (update_where_once p f g (st_taskruns s) Hf) as E. unfold update_where in *. by rewrite E. }
  split_and!; intros; apply Hw; intros r _; cbn; try (by rewrite andb_false_r).
  rewrite (bool_decide_eq_false_2 (x = _)) by done. by rewrite andb_false_r.
Qed.

(** ** Witnesses *)

Definition sample_gen (n : nat) : string := String.append "id_" (pretty n).

Definition empty_store : Store :=
  mkStore [] [] [] [] [] [] [] [] [] [] [] [] [] [] [] ∅
    (list_to_set [("space", "spc"); ("user", "usr"); ("agent", "agt")]%string) 1000 0.

Definition sample_input (key : string) : CreateInput :=
  {| CI_ConversationID := ""; CI_SpaceID := "spc"; CI_Input := "do it"; CI_Title := "";
     CI_CreatedBy := "usr"; CI_InitialRunCreatedBy := ""; CI_InitialRunCreatedByType := "user";
     CI_InitialRunTriggerSource := "chat"; CI_InitialRunSourceMessageID := Some "gone"%string;
     CI_TitlePromptTokens := 0; CI_TitleCompletionTokens := 0; CI_AgentID := Some "agt"%string;
     CI_InitialRunAgentRevision := None; CI_InitialRunSandboxNetworkTier := None;
     CI_InitialRunSandboxFilesystemTier := None; CI_IssueID := None; CI_ScheduleID := None;
     CI_AdmissionKey := key; CI_WorkflowNodeRunID := ""; CI_OutputSchema := None;
     CI_RequestedBy := ""; CI_AssistantID := ""; CI_AssistantRevision := 0 |}.

Lemma empty_task_ok : task_ok empty_store.
Proof.
  split; cbn; try (by apply NoDup_nil_2); try (by intros ? ?%not_elem_of_nil);
    by intros ? ? ?%not_elem_of_nil.
Qed.

(** One task with a pending run, then scheduled. *)
Definition sample_store : Store := (CreateTask sample_gen sample_gen (sample_input "k") empty_store).2.

Definition sample_transition (from to : RunStatus) : TransitionRunInput :=
  mkTransitionRunInput "id_1" from to None (Some 2000%Z) None None None None None None None None None "nonsense".

Definition scheduled_store : Store :=
  (TransitionTaskRun (sample_transition RunStatusPending RunStatusScheduled) sample_store).2.

Lemma sample_store_ok : task_ok sample_store.
Proof. apply CreateTask_preserves, empty_task_ok. Qed.

Lemma scheduled_store_ok : task_ok scheduled_store.
Proof. apply TransitionTaskRun_preserves, sample_store_ok. Qed.

Definition failed_store : Store :=
  (TransitionTaskRun (sample_transition RunStatusScheduled RunStatusFailed) scheduled_store).2.

Lemma TransitionTaskRun_once_witness :
  TransitionTaskRun (sample_transition RunStatusScheduled RunStatusCanceled) failed_store
    = (Ok false, failed_store) ∧
  map Run_FailureClass_ (st_taskruns failed_store) = [Some FailureUnclassified] ∧
  map Task_Status (st_tasks failed_store) = [RunStatusFailed].
Proof.
  split; [|split; vm_compute; reflexivity].
  refine (proj1 (TransitionTaskRun_once (sample_transition RunStatusScheduled RunStatusFailed)
    (sample_transition RunStatusScheduled RunStatusCanceled) scheduled_store failed_store
    scheduled_store_ok _ _ _ _)); vm_compute; reflexivity.
Defined.

Lemma RequestTaskRunCancel_first_witness :
  ∃ b s', RequestTaskRunCancel "id_1" "usr" "user_requested" 1500 scheduled_store = (Ok b, s') ∧
    (b = true ↔ ∃ r, r ∈ st_taskruns scheduled_store ∧ Run_ID r = "id_1"%string ∧
       is_active (Run_Status r) = true ∧ Run_CancelRequestedAt r = None).
Proof.
  destruct (RequestTaskRunCancel_first scheduled_store "id_1" "usr" "user_requested" 1500 scheduled_store_ok)
    as (b & s' & H1 & H2 & _).
  - right. apply (bool_decide_unpack _). vm_compute. exact I.
  - exists b, s'. split; assumption.
Defined.

Definition sample_run_input : CreateRunInput :=
  mkCreateRunInput "id_0" "again" "usr" "user" "continue" None None None None None (Some "once"%string) "" "" 0.

Lemma CreateTaskRun_result_witness :
  (CreateTaskRun sample_gen (λ _ _, fail ErrNotFound) sample_run_input scheduled_store).1 = Err ErrRunInProgress ∧
  match CreateTaskRun sample_gen (λ _ _, fail ErrNotFound) sample_run_input failed_store with
  | (Ok run, s') => task_ok s' ∧ Run_TaskID run = "id_0"%string
  | (Err e, s') => False
  end.
Proof.
  split; [vm_compute; reflexivity|].
  assert (task_ok failed_store) as Hok by (apply TransitionTaskRun_preserves, scheduled_store_ok).
  pose proof (CreateTaskRun_result sample_gen (λ _ _, fail ErrNotFound) sample_run_input failed_store
    Hok eq_refl) as [H _].
  revert H.
  assert (is_ok (CreateTaskRun sample_gen (λ _ _, fail ErrNotFound) sample_run_input failed_store).1 = true) as E
    by (vm_compute; reflexivity).
  destruct (CreateTaskRun _ _ _ _) as [[run|e] s']; [|discriminate E].
  intros (H1 & H2 & _). split; assumption.
Defined.

Lemma AdmitTask_idempotent_witness :
  ∃ o s', AdmitTask sample_gen sample_gen (λ _, fail ErrNotFound) (mret tt) (sample_input "k2") sample_store = (Ok o, s') ∧
    admission_ok s' ∧ ∃ t, o = Some t ∧ admitted (sample_input "k2") t s'.
Proof.
  assert (admission_ok sample_store) as Hok.
  { split; [exact sample_store_ok|]. intros t1 t2 key H1 H2 _ _ _.
    assert (∃ t, st_tasks sample_store = [t]) as [t E] by (eexists; vm_compute; reflexivity).
    rewrite E in H1, H2. apply list_elem_of_singleton in H1, H2. by subst. }
  assert (is_ok (AdmitTask sample_gen sample_gen (λ _, fail ErrNotFound) (mret tt) (sample_input "k2") sample_store).1 = true)
    as Eok by (vm_compute; reflexivity).
  destruct (AdmitTask _ _ _ _ _ _) as [[o|e] s'] eqn:E; [|discriminate Eok].
  exists o, s'. split; [reflexivity|].
  destruct (AdmitTask_idempotent sample_gen sample_gen (λ _, fail ErrNotFound) (mret tt) (sample_input "k2")
    sample_store o s' Hok (preserves_ret _ tt) eq_refl E) as (H1 & t & H2 & H3 & _).
  split; [exact H1|]. exists t. split; assumption.
Defined.

Lemma Records_first_write_wins_witness :
  let s1 := (RecordTaskRunPluginPins "id_1" "[]" sample_store).2 in
  map Run_PluginPins (st_taskruns s1) = ["[]"%string] ∧ (RecordTaskRunPluginPins "id_1" "[x]" s1).2 = s1.
Proof.
  split; [vm_compute; reflexivity|].
  apply (proj1 (proj2 (proj2 (Records_first_write_wins sample_store "id_1")))). discriminate.
Defined.
