(* ===== verification/WorkflowStore.v ===== *)
(** * WorkflowStore: workflows, runs, node runs and requests in the database

    internal/infra/db/workflow.go, workflow_request.go and workflow_admission.go:
    revisions, guarded transitions, stop intent, reconciliation leases, requests,
    and the admission of a node's Task under the run's lock. *)

From S2P Require Import Prelude Json TaskCore WorkflowCore Store TaskStore.
From stdpp Require Import gmap pretty.
Import db.

Module workflowdb.
Import coretask.
Import coreworkflow.
Local Open Scope string_scope.
Local Open Scope list_scope.

(** ** Pages and revisions *)

Definition maxUnboundedPage : Z := 1000.

Definition capPage (limit offset : Z) : Z * Z :=
  (if (limit <=? 0)%Z || (maxUnboundedPage <? limit)%Z then maxUnboundedPage else limit,
   if (offset <? 0)%Z then 0%Z else offset).

(** [LIMIT limit OFFSET offset] *)
Definition page {R} (limit offset : Z) (rows : list R) : list R :=
  firstn (Z.to_nat limit) (skipn (Z.to_nat offset) rows).

Definition nextRevision (current : Z) : Z := if (current <? 1)%Z then 2 else (current + 1)%Z.

(** [ORDER BY key DESC]; equal keys keep id order. *)
Definition by_desc {R} (key : R → Z) : list R → list R :=
  @merge_sort R (λ a b, (key b <= key a)%Z) (λ a b, Z_le_dec (key b) (key a)).

(** ** Workflows and their revisions *)

Definition ListWorkflowsBySpace (spaceID : string) : DB (list Workflow) :=
  gets (λ s, taskdb.by_created Wf_CreatedAt
               (rows_where (λ w, Wf_SpaceID w == spaceID) (st_workflows s))).

Definition GetWorkflow (workflowID : string) : DB (option Workflow) :=
  gets (λ s, take_where (λ w, Wf_ID w == workflowID) (st_workflows s)).

(** The unique index is (workflow_id, revision). *)
Definition appendWorkflowRevision (createdBy : string) (w : Workflow) : DB unit :=
  createdAt ← now;
  s ← get;
  if existsb (λ r, (Rev_WorkflowID r == Wf_ID w) && (Rev_Revision r =? Wf_Revision w)%Z) (st_revisions s)
  then fail ErrDuplicateKey
  else put (s <| st_revisions := st_revisions s ++
    [{| Rev_WorkflowID := Wf_ID w; Rev_Revision := Wf_Revision w; Rev_Name := Wf_Name w;
        Rev_Description := Wf_Description w; Rev_Definition := Wf_Definition w;
        Rev_Status := Wf_Status w; Rev_CreatedBy := createdBy; Rev_CreatedAt := createdAt |}] |>).

(** The content a save asks for over the content read. *)
Definition saved (in_ : UpdateInput) (w : Workflow) : Workflow :=
  w <| Wf_Name := default (Wf_Name w) (UpI_Name in_) |>
    <| Wf_Description := default (Wf_Description w) (UpI_Description in_) |>
    <| Wf_Definition := default (Wf_Definition w) (UpI_Definition in_) |>
    <| Wf_Status := default (Wf_Status w) (UpI_Status in_) |>.

Definition same_content (a b : Workflow) : bool :=
  (Wf_Name a == Wf_Name b) && (Wf_Description a == Wf_Description b)
  && (Wf_Definition a == Wf_Definition b) && (Wf_Status a == Wf_Status b).

(** The row as the update leaves it. *)
Definition overwrite (updated w : Workflow) : Workflow :=
  w <| Wf_Name := Wf_Name updated |>
    <| Wf_Description := Wf_Description updated |>
    <| Wf_Definition := Wf_Definition updated |>
    <| Wf_Status := Wf_Status updated |>
    <| Wf_Revision := Wf_Revision updated |>
    <| Wf_UpdatedAt := Wf_UpdatedAt updated |>.

(** The guarded write and the revision it appends, one transaction. *)
Definition updateWorkflowTx (workflowID : string) (in_ : UpdateInput) (updated : Workflow) : DB bool :=
  transaction
    (_ ← lookupKey "workflow" workflowID;
     n ← update_workflows
           (λ w, (Wf_ID w == workflowID) && (Wf_Revision w =? UpI_ExpectedRevision in_)%Z)
           (overwrite updated);
     if (n =? 0)%nat then mret false
     else
       _ ← lookupKey "user" (UpI_UpdatedBy in_);
       _ ← appendWorkflowRevision (UpI_UpdatedBy in_) updated;
       mret true).

(** The read and the write are two transactions; [between] is whatever other
    writers commit in between. *)
Definition UpdateWorkflow (between : DB unit) (workflowID spaceID : string) (in_ : UpdateInput)
    : DB (option Workflow) :=
  found ← GetWorkflow workflowID;
  match found with
  | None => mret None
  | Some workflow =>
      if Wf_SpaceID workflow != spaceID then mret None
      else
        let updated := saved in_ workflow in
        if same_content updated workflow then mret (Some workflow)
        else
          updatedAt ← now;
          _ ← between;
          applied ← updateWorkflowTx workflowID in_
            (updated <| Wf_Revision := nextRevision (UpI_ExpectedRevision in_) |>
                     <| Wf_UpdatedAt := updatedAt |>);
          (if applied : bool then GetWorkflow workflowID else fail ErrRevisionConflict)
  end.

(** A handle that resolves to nothing reads as an empty answer. *)
Definition or_empty {A} (empty : A) (m : DB A) : DB A :=
  catch m (λ e, if e == ErrNotFound then mret empty else fail e).

Definition ListWorkflowRevisions (workflowID : string) (limit offset : Z) : DB (list Revision * nat) :=
  let '(limit, offset) := capPage limit offset in
  or_empty ([], 0)
    (_ ← lookupKey "workflow" workflowID;
     gets (λ s, let rows := rows_where (λ r, Rev_WorkflowID r == workflowID) (st_revisions s) in
                (page limit offset (by_desc Rev_Revision rows), length rows))).

Definition GetWorkflowRevision (workflowID : string) (revision : Z) : DB (option Revision) :=
  or_empty None
    (_ ← lookupKey "workflow" workflowID;
     gets (λ s, take_where (λ r, (Rev_WorkflowID r == workflowID) && (Rev_Revision r =? revision)%Z)
                  (st_revisions s))).

(** ** Runs: creation and reads *)

Definition GetWorkflowRun (workflowRunID : string) : DB (option Run) :=
  gets (λ s, take_where (λ r, Run_ID r == workflowRunID) (st_runs s)).

Definition ListWorkflowRunsWhere (table id : string) (owns : Run → bool) (limit offset : Z)
    : DB (list Run * nat) :=
  let '(limit, offset) := capPage limit offset in
  or_empty ([], 0)
    (_ ← lookupKey table id;
     gets (λ s, let rows := rows_where owns (st_runs s) in
                (page limit offset (by_desc Run_CreatedAt rows), length rows))).

Definition ListWorkflowRunsByWorkflow (workflowID : string) :=
  ListWorkflowRunsWhere "workflow" workflowID (λ r, Run_WorkflowID r == workflowID).
Definition ListWorkflowRunsByIssue (issueID : string) :=
  ListWorkflowRunsWhere "issue" issueID (λ r, Run_IssueID r == Some issueID).
Definition ListWorkflowRunsBySchedule (scheduleID : string) :=
  ListWorkflowRunsWhere "schedule" scheduleID (λ r, Run_ScheduleID r == Some scheduleID).

Definition ListPendingWorkflowReports (limit : Z) : DB (list Run) :=
  gets (λ s, firstn (Z.to_nat (capPage limit 0).1)
    (rows_where (λ r, (Run_ReportStatus_ r == ReportPending)
                      && bool_decide (Run_Status r ∈ TerminalRunStatuses)) (st_runs s))).

(** [ORDER BY node_index ASC, created_at ASC] *)
Definition node_order (a b : NodeRun) : Prop :=
  (NR_NodeIndex a < NR_NodeIndex b)%Z ∨
  (NR_NodeIndex a = NR_NodeIndex b ∧ (NR_CreatedAt a <= NR_CreatedAt b)%Z).

#[export] Instance node_order_dec a b : Decision (node_order a b).
Proof. unfold node_order. solve_decision. Defined.

Definition ListWorkflowNodeRuns (workflowRunID : string) : DB (list NodeRun) :=
  or_empty []
    (_ ← lookupKey "workflow_run" workflowRunID;
     gets (λ s, @merge_sort _ node_order node_order_dec
                  (rows_where (λ n, NR_WorkflowRunID n == workflowRunID) (st_nodes s)))).

Definition getWorkflowNodeRunByOwner (table : string) (col : NodeRun → option string) (id : string)
    : DB (option NodeRun) :=
  or_empty None
    (_ ← lookupKey table id;
     gets (λ s, take_where (λ n, col n == Some id) (st_nodes s))).

Definition GetWorkflowNodeRunByTaskID (taskID : string) := getWorkflowNodeRunByOwner "task" NR_TaskID taskID.
Definition GetWorkflowNodeRunByTaskRunID (taskRunID : string) :=
  getWorkflowNodeRunByOwner "task_run" NR_TaskRunID taskRunID.

Section Creates.
(** The n-th [util.NewPublicID]. *)
Context (gen : nat → string).

Definition CreateWorkflow (spaceID createdBy name description definition : string) : DB Workflow :=
  at_ ← now;
  transaction
    (_ ← lookupKey "space" spaceID;
     _ ← lookupKey "user" createdBy;
     id ← createWithPublicID gen (λ s, map Wf_ID (st_workflows s));
     let workflow := {| Wf_ID := id; Wf_SpaceID := spaceID; Wf_Name := name;
       Wf_Description := description; Wf_Definition := definition; Wf_Status := StatusDraft;
       Wf_Revision := 1; Wf_CreatedBy := createdBy; Wf_CreatedAt := at_; Wf_UpdatedAt := at_ |} in
     s ← get;
     _ ← put (s <| st_workflows := st_workflows s ++ [workflow] |>);
     _ ← appendWorkflowRevision createdBy workflow;
     mret workflow).

(** The row and the returned run differ where an input names no reference:
    the columns are NULL, the returned fields are the input's. *)
Definition CreateWorkflowRun (in_ : CreateRunInput) : DB Run :=
  createdAt ← now;
  transaction
    (_ ← lookupKey "workflow" (CRunI_WorkflowID in_);
     _ ← lookupKey "user" (CRunI_CreatedBy in_);
     issue ← lookupIfSet "issue" (CRunI_IssueID in_);
     schedule ← lookupIfSet "schedule" (CRunI_ScheduleID in_);
     conversation ← lookupIfSet "conversation" (CRunI_ConversationID in_);
     let assisted := CRunI_AssistantID in_ != ""%string in
     _ ← (if assisted then
            _ ← lookupKey "user" (CRunI_RequestedBy in_); lookupKey "assistant" (CRunI_AssistantID in_)
          else mret tt);
     id ← createWithPublicID gen (λ s, map Run_ID (st_runs s));
     let row := {| Run_ID := id; Run_WorkflowID := CRunI_WorkflowID in_;
       Run_WorkflowRevision := CRunI_WorkflowRevision in_; Run_IssueID := issue;
       Run_ScheduleID := schedule; Run_ConversationID := conversation;
       Run_RequestedBy := if assisted then CRunI_RequestedBy in_ else "";
       Run_AssistantID := if assisted then CRunI_AssistantID in_ else "";
       Run_AssistantRevision := if assisted then CRunI_AssistantRevision in_ else 0%Z;
       Run_ReportStatus_ := CRunI_ReportStatus_ in_; Run_Input := CRunI_Input in_;
       Run_Status := CRunI_Status in_; Run_CreatedBy := CRunI_CreatedBy in_; Run_Result := None;
       Run_CreatedAt := createdAt; Run_StartedAt := CRunI_StartedAt in_; Run_EndedAt := None;
       Run_ErrorMessage := None; Run_FailureClass_ := None; Run_DeadlineAt := CRunI_DeadlineAt in_;
       Run_ReconcileOwner := None; Run_LeaseExpiresAt := None; Run_NextReconcileAt := None |} in
     s ← get;
     _ ← put (s <| st_runs := st_runs s ++ [row] |>);
     mret (row <| Run_IssueID := CRunI_IssueID in_ |>
               <| Run_ScheduleID := CRunI_ScheduleID in_ |>
               <| Run_ConversationID := CRunI_ConversationID in_ |>
               <| Run_RequestedBy := CRunI_RequestedBy in_ |>
               <| Run_AssistantID := CRunI_AssistantID in_ |>
               <| Run_AssistantRevision := CRunI_AssistantRevision in_ |>)).

Definition insertNodeRun (workflowRunID : string) (createdAt : Z) (in_ : CreateNodeRunInput) : DB NodeRun :=
  agent ← lookupIfSet "agent" (CNI_TargetAgentID in_);
  id ← createWithPublicID gen (λ s, map NR_ID (st_nodes s));
  let node := {| NR_ID := id; NR_WorkflowRunID := workflowRunID; NR_NodeID := CNI_NodeID in_;
    NR_NodeIndex := CNI_NodeIndex in_; NR_NodeType := CNI_NodeType in_; NR_Needs := CNI_Needs in_;
    NR_IssueAccess := CNI_IssueAccess in_; NR_TargetAgentID := agent;
    NR_AgentName := CNI_AgentName in_; NR_AgentDescription := CNI_AgentDescription in_;
    NR_AgentInstructions := CNI_AgentInstructions in_; NR_AgentRevision := CNI_AgentRevision in_;
    NR_Prompt := CNI_Prompt in_; NR_Bindings := CNI_Bindings in_;
    NR_OutputSchema := CNI_OutputSchema in_; NR_MaxAttempts := Z.max (CNI_MaxAttempts in_) 1;
    NR_TimeoutSeconds := CNI_TimeoutSeconds in_; NR_Attempt := 0; NR_DeadlineAt := None;
    NR_NextAttemptAt := None; NR_Status := CNI_Status in_; NR_TaskID := None; NR_TaskRunID := None;
    NR_ResolvedInput := None; NR_Output := None; NR_Structured := None; NR_ErrorMessage := None;
    NR_CreatedAt := createdAt; NR_StartedAt := None; NR_EndedAt := None |} in
  s ← get;
  _ ← put (s <| st_nodes := st_nodes s ++ [node] |>);
  mret node.

Fixpoint insertNodeRuns (workflowRunID : string) (createdAt : Z) (steps : list CreateNodeRunInput)
    : DB (list NodeRun) :=
  match steps with
  | [] => mret []
  | step :: steps =>
      node ← insertNodeRun workflowRunID createdAt step;
      nodes ← insertNodeRuns workflowRunID createdAt steps;
      mret (node :: nodes)
  end.

Definition CreateWorkflowNodeRuns (workflowRunID : string) (steps : list CreateNodeRunInput)
    : DB (list NodeRun) :=
  match steps with
  | [] => mret []
  | _ =>
      createdAt ← now;
      _ ← lookupKey "workflow_run" workflowRunID;
      transaction (insertNodeRuns workflowRunID createdAt steps)
  end.
End Creates.

(** ** Run transitions *)

(** [runStatusUpdates] applied to a row. *)
Definition runStatusUpdates (status : RunStatus) (startedAt endedAt : option Z)
    (errorMessage : option string) (result : option json) (r : Run) : Run :=
  let r := r <| Run_Status := status |> in
  let r := if RunStatusTerminal status
           then r <| Run_ReconcileOwner := None |> <| Run_LeaseExpiresAt := None |>
                  <| Run_NextReconcileAt := None |>
           else r in
  let r := taskdb.set_if startedAt (λ v, λ r, r <| Run_StartedAt := Some v |>) r in
  let r := taskdb.set_if endedAt (λ v, λ r, r <| Run_EndedAt := Some v |>) r in
  let r := taskdb.set_if errorMessage (λ v, λ r, r <| Run_ErrorMessage := Some v |>) r in
  taskdb.set_if result (λ v, λ r, r <| Run_Result := Some v |>) r.

(** [NormalizeFailureClass] of a class: [None] is the empty string. *)
Definition recordedClass (class : option FailureClass) : FailureClass :=
  NormalizeFailureClass (match class with Some c => FailureClass_string c | None => "" end).

Definition stopRunUpdates (status : RunStatus) (errorMessage : option string)
    (class : option FailureClass) (r : Run) : Run :=
  let r := runStatusUpdates status None None errorMessage None r in
  if status == RunStatusFailing then r <| Run_FailureClass_ := Some (recordedClass class) |> else r.

(** What a transition writes: a failure that no stop recorded is unclassified. *)
Definition transitionRunUpdates (in_ : TransitionRunInput) (r : Run) : Run :=
  let r := runStatusUpdates (TR_NewStatus in_) (TR_StartedAt in_) (TR_EndedAt in_)
             (TR_ErrorMessage in_) (TR_Result in_) r in
  if (TR_NewStatus in_ == RunStatusFailed) && (TR_ExpectedStatus in_ != RunStatusFailing)
  then r <| Run_FailureClass_ := Some FailureUnclassified |> else r.

Definition TransitionWorkflowRun (in_ : TransitionRunInput) : DB bool :=
  if negb (ValidRunStatusTransition (TR_ExpectedStatus in_) (TR_NewStatus in_))
  then fail ErrInvalidRunTransition
  else
    transaction
      (n ← update_runs
             (λ r, (Run_ID r == TR_WorkflowRunID in_) && (Run_Status r == TR_ExpectedStatus in_))
             (transitionRunUpdates in_);
       if (n =? 0)%nat then mret false
       else
         _ ← (if (TR_NewStatus in_ == RunStatusSucceeded) || (TR_NewStatus in_ == RunStatusFailed) then
                schedule ← gets (λ s, r ← take_where (λ r, Run_ID r == TR_WorkflowRunID in_) (st_runs s);
                                      Run_ScheduleID r);
                foldScheduleOutcome schedule (TR_NewStatus in_ == RunStatusFailed)
              else mret tt);
         mret true).

(** ** Node transitions *)

(** The empty string clears a column, nil leaves it. *)
Definition orNull (v : string) : option string := if v == ""%string then None else Some v.

(** The column writes of [stepTransitionUpdates], applied to a row. *)
Definition stepUpdates (in_ : TransitionNodeRunInput) (n : NodeRun) : NodeRun :=
  let n := n <| NR_Status := TN_NewStatus in_ |> in
  let n := taskdb.set_if (TN_TaskID in_) (λ v, λ n, n <| NR_TaskID := orNull v |>) n in
  let n := taskdb.set_if (TN_TaskRunID in_) (λ v, λ n, n <| NR_TaskRunID := orNull v |>) n in
  let n := taskdb.set_if (TN_ResolvedInput in_) (λ v, λ n, n <| NR_ResolvedInput := orNull v |>) n in
  let n := taskdb.set_if (TN_Output in_) (λ v, λ n, n <| NR_Output := orNull v |>) n in
  let n := taskdb.set_if (TN_Structured in_) (λ v, λ n, n <| NR_Structured := v |>) n in
  let n := taskdb.set_if (TN_ErrorMessage in_) (λ v, λ n, n <| NR_ErrorMessage := orNull v |>) n in
  let n := taskdb.set_if (TN_StartedAt in_) (λ v, λ n, n <| NR_StartedAt := Some v |>) n in
  let n := taskdb.set_if (TN_EndedAt in_) (λ v, λ n, n <| NR_EndedAt := Some v |>) n in
  let n := taskdb.set_if (TN_Attempt in_) (λ v, λ n, n <| NR_Attempt := v |>) n in
  let n := if TN_ExpectedStatus in_ == NodeRunStatusRunning then n <| NR_DeadlineAt := None |> else n in
  let n := if TN_ExpectedStatus in_ == NodeRunStatusRetryWait then n <| NR_NextAttemptAt := None |> else n in
  let n := taskdb.set_if (TN_DeadlineAt in_) (λ v, λ n, n <| NR_DeadlineAt := Some v |>) n in
  taskdb.set_if (TN_NextAttemptAt in_) (λ v, λ n, n <| NR_NextAttemptAt := Some v |>) n.

(** The handles resolve first. *)
Definition stepTransitionUpdates (in_ : TransitionNodeRunInput) : DB (NodeRun → NodeRun) :=
  _ ← lookupIfSet "task" (TN_TaskID in_);
  _ ← lookupIfSet "task_run" (TN_TaskRunID in_);
  mret (stepUpdates in_).

Definition TransitionWorkflowNodeRun (in_ : TransitionNodeRunInput) : DB bool :=
  if negb (ValidNodeRunTransition (TN_ExpectedStatus in_) (TN_NewStatus in_))
  then fail ErrInvalidNodeRunTransition
  else
    transaction
      (updates ← stepTransitionUpdates in_;
       n ← update_nodes
             (λ n, (NR_ID n == TN_NodeRunID in_) && (NR_Status n == TN_ExpectedStatus in_)) updates;
       mret (0 <? n)%nat).

(** ** Stop intent *)

Definition stopPendingNodesTx (runID : string) : DB unit :=
  _ ← update_nodes (λ n, (NR_WorkflowRunID n == runID) && (NR_Status n == NodeRunStatusPending))
        (λ n, n <| NR_Status := NodeRunStatusBlocked |>);
  endedAt ← now;
  _ ← update_nodes (λ n, (NR_WorkflowRunID n == runID)
                         && bool_decide (NR_Status n ∈ [NodeRunStatusRetryWait; NodeRunStatusWaiting]))
        (λ n, n <| NR_Status := NodeRunStatusCanceled |> <| NR_NextAttemptAt := None |>
                <| NR_EndedAt := Some endedAt |>);
  _ ← update_requests (λ q, (Req_WorkflowRunID q == runID) && (Req_Status q == RequestStatusPending))
        (λ q, q <| Req_Status := RequestStatusCanceled |>);
  mret tt.

Definition stop_status (s : RunStatus) : bool := (s == RunStatusFailing) || (s == RunStatusCanceling).

Definition BeginWorkflowRunDrain (in_ : BeginRunDrainInput) : DB bool :=
  if negb (stop_status (BD_RunStatus_ in_)) then fail ErrInvalidRunTransition
  else if negb (ValidNodeRunTransition (BD_NodeExpected in_) (BD_NodeStatus in_))
  then fail ErrInvalidNodeRunTransition
  else if negb (ValidRunStatusTransition (BD_RunExpected in_) (BD_RunStatus_ in_))
  then fail ErrInvalidRunTransition
  else
    transaction
      (run ← take st_runs (λ r, Run_ID r == BD_WorkflowRunID in_);
       if Run_Status run != BD_RunExpected in_ then mret false
       else
         _ ← lookupIfSet "task_run" (BD_TaskRunID in_);
         n ← update_nodes
               (λ n, (NR_ID n == BD_NodeRunID in_) && (NR_WorkflowRunID n == Run_ID run)
                     && (NR_Status n == BD_NodeExpected in_))
               (λ n,
                 let n := n <| NR_Status := BD_NodeStatus in_ |> <| NR_DeadlineAt := None |>
                            <| NR_NextAttemptAt := None |> in
                 let n := taskdb.set_if (BD_Output in_) (λ v, λ n, n <| NR_Output := Some v |>) n in
                 let n := taskdb.set_if (BD_Structured in_) (λ v, λ n, n <| NR_Structured := Some v |>) n in
                 let n := taskdb.set_if (ref_of (BD_TaskRunID in_))
                            (λ v, λ n, n <| NR_TaskRunID := Some v |>) n in
                 let n := taskdb.set_if (BD_ErrorMessage in_)
                            (λ v, λ n, n <| NR_ErrorMessage := Some v |>) n in
                 let n := taskdb.set_if (BD_StartedAt in_) (λ v, λ n, n <| NR_StartedAt := Some v |>) n in
                 taskdb.set_if (BD_EndedAt in_) (λ v, λ n, n <| NR_EndedAt := Some v |>) n);
         if (n =? 0)%nat then mret false
         else
           _ ← stopPendingNodesTx (Run_ID run);
           _ ← update_runs
                 (λ r, (Run_ID r == BD_WorkflowRunID in_) && (Run_Status r == BD_RunExpected in_))
                 (stopRunUpdates (BD_RunStatus_ in_) (BD_ErrorMessage in_) (BD_FailureClass_ in_));
           mret true).

Definition StopWorkflowRun (in_ : StopRunInput) : DB bool :=
  if negb (stop_status (SRI_RunStatus_ in_)) then fail ErrInvalidRunTransition
  else if negb (ValidRunStatusTransition (SRI_RunExpected in_) (SRI_RunStatus_ in_))
  then fail ErrInvalidRunTransition
  else
    transaction
      (found ← gets (λ s, take_where (λ r, Run_ID r == SRI_WorkflowRunID in_) (st_runs s));
       match found with
       | None => mret false
       | Some run =>
           if Run_Status run != SRI_RunExpected in_ then mret false
           else
             _ ← stopPendingNodesTx (Run_ID run);
             _ ← update_runs (λ r, Run_ID r == Run_ID run)
                   (stopRunUpdates (SRI_RunStatus_ in_) (SRI_ErrorMessage in_) (SRI_FailureClass_ in_));
             mret true
       end).

(** ** Leases and the due query

    [RowsAffected] counts the rows an update changed, which for these writes
    may be fewer than it matched. *)

Definition change_runs (p : Run → bool) (f : Run → Run) : DB bool :=
  s ← get;
  _ ← update_runs p f;
  mret (matching (λ r, p r && (f r != r)) (st_runs s) =? 1)%nat.

Definition SettleWorkflowReport (workflowRunID : string) (from to : ReportStatus) : DB bool :=
  change_runs (λ r, (Run_ID r == workflowRunID) && (Run_ReportStatus_ r == from))
    (λ r, r <| Run_ReportStatus_ := to |>).

Definition defaultDueRunLimit : Z := 100.

Definition time_arrived (t : option Z) (at_ : Z) : bool :=
  match t with Some t => (t <=? at_)%Z | None => false end.

(** NULL sorts first. *)
Definition due_order (a b : Run) : Prop :=
  match Run_NextReconcileAt a, Run_NextReconcileAt b with
  | None, _ => True
  | Some _, None => False
  | Some x, Some y => (x <= y)%Z
  end.

#[export] Instance due_order_dec a b : Decision (due_order a b).
Proof. unfold due_order. destruct (Run_NextReconcileAt a), (Run_NextReconcileAt b); apply _. Defined.

Definition ListDueWorkflowRuns (at_ limit : Z) : DB (list Run) :=
  gets (λ s, firstn (taskdb.limit_or limit defaultDueRunLimit)
    (@merge_sort _ due_order due_order_dec
       (rows_where (λ r, negb (bool_decide (Run_Status r ∈ TerminalRunStatuses))
                         && (bool_decide (Run_NextReconcileAt r = None)
                             || time_arrived (Run_NextReconcileAt r) at_
                             || time_arrived (Run_LeaseExpiresAt r) at_)) (st_runs s)))).

Definition ClaimWorkflowRunLease (in_ : ClaimLeaseInput) : DB bool :=
  change_runs
    (λ r, (Run_ID r == CL_WorkflowRunID in_)
          && negb (bool_decide (Run_Status r ∈ TerminalRunStatuses))
          && (bool_decide (Run_ReconcileOwner r = None) || time_arrived (Run_LeaseExpiresAt r) (CL_Now in_)))
    (λ r, r <| Run_ReconcileOwner := Some (CL_Owner in_) |>
            <| Run_LeaseExpiresAt := Some (CL_LeaseExpiresAt in_) |>).

Definition RenewWorkflowRunLease (in_ : RenewLeaseInput) : DB bool :=
  change_runs
    (λ r, (Run_ID r == RL_WorkflowRunID in_) && (Run_ReconcileOwner r == Some (RL_Owner in_)))
    (λ r, r <| Run_LeaseExpiresAt := Some (RL_LeaseExpiresAt in_) |>).

Definition ReleaseWorkflowRunLease (in_ : ReleaseLeaseInput) : DB bool :=
  change_runs
    (λ r, (Run_ID r == RelL_WorkflowRunID in_) && (Run_ReconcileOwner r == Some (RelL_Owner in_)))
    (λ r, r <| Run_ReconcileOwner := None |> <| Run_LeaseExpiresAt := None |>
            <| Run_NextReconcileAt := RelL_NextReconcileAt in_ |>).

(** ** Requests *)

(** A request with the ids its joins add. *)
Record RequestRead : Type := mkRequestRead {
  RR_Request : Request;
  RR_WorkflowID : string;
  RR_NodeID : string
}.

Definition readRequest (s : Store) (q : Request) : option RequestRead :=
  run ← take_where (λ r, Run_ID r == Req_WorkflowRunID q) (st_runs s);
  node ← take_where (λ n, NR_ID n == Req_NodeRunID q) (st_nodes s);
  Some (mkRequestRead q (Run_WorkflowID run) (NR_NodeID node)).

Definition GetWorkflowRequest (requestID : string) : DB (option RequestRead) :=
  gets (λ s, q ← take_where (λ q, Req_ID q == requestID) (st_requests s); readRequest s q).

Definition ListWorkflowRequestsByRun (workflowRunID : string) : DB (list RequestRead) :=
  gets (λ s, omap (readRequest s) (rows_where (λ q, Req_WorkflowRunID q == workflowRunID) (st_requests s))).

(** Whether a request's run belongs to a workflow of the Space. *)
Definition requestInSpace (s : Store) (spaceID : string) (q : Request) : bool :=
  match run ← take_where (λ r, Run_ID r == Req_WorkflowRunID q) (st_runs s);
        take_where (λ w, Wf_ID w == Run_WorkflowID run) (st_workflows s) with
  | Some w => Wf_SpaceID w == spaceID
  | None => false
  end.

Definition ListPendingWorkflowRequestsBySpace (spaceID : string) (limit offset : Z)
    : DB (list RequestRead * nat) :=
  let '(limit, offset) := capPage limit offset in
  gets (λ s,
    let rows := rows_where (λ q, requestInSpace s spaceID q && (Req_Status q == RequestStatusPending))
                  (st_requests s) in
    (page limit offset (omap (readRequest s) rows), length rows)).

Definition ResolveWorkflowRequest (in_ : ResolveRequestInput) : DB bool :=
  let answer (guard : Request → bool) (f : Request → Request) : DB bool :=
    n ← update_requests (λ q, (Req_ID q == RRI_RequestID in_) && (Req_Status q == RequestStatusPending) && guard q)
          (λ q, f (q <| Req_Status := RRI_Status in_ |>));
    mret (n =? 1)%nat in
  let live q := bool_decide (Req_ExpiresAt q = None) || negb (time_arrived (Req_ExpiresAt q) (RRI_Now in_)) in
  match RRI_Status in_ with
  | RequestStatusExpired => answer (λ q, time_arrived (Req_ExpiresAt q) (RRI_Now in_)) (λ q, q)
  | RequestStatusAnswered | RequestStatusDeclined =>
      responder ← optionalKey "user" (RRI_RespondedBy in_);
      answer live (λ q,
        taskdb.set_if (RRI_Response in_) (λ v, λ q, q <| Req_Response := Some v |>)
          (q <| Req_RespondedAt := Some (RRI_Now in_) |> <| Req_RespondedBy := responder |>))
  | _ => fail ErrRequestResolution
  end.

(** [errors.Is(err, gorm.ErrRecordNotFound)] becomes [apierr.ErrNotFound]. *)
Definition asNotFound {A} (m : DB A) : DB A :=
  catch m (λ e, fail (if e == ErrRecordNotFound then ErrNotFound else e)).

Section Admission.
(** The n-th [util.NewPublicID] and [session.NewID]. *)
Context (gen session : nat → string).

(** The transaction returns the open request's id, if there is one. *)
Definition openRequestTx (in_ : OpenRequestInput) : DB (option string) :=
  run ← take st_runs (λ r, Run_ID r == ORI_WorkflowRunID in_);
  existing ← gets (λ s, take_where (λ q, (Req_WorkflowRunID q == Run_ID run)
                                         && (Req_Key q == ORI_Key in_)) (st_requests s));
  match existing with
  | Some q => mret (Some (Req_ID q))
  | None =>
      if Run_Status run != RunStatusRunning then mret None
      else
        node ← take st_nodes (λ n, (NR_ID n == ORI_NodeRunID in_) && (NR_WorkflowRunID n == Run_ID run));
        if NR_Status node != ORI_NodeExpected in_ then mret None
        else
          taskRun ← optionalKey "task_run" (ORI_TaskRunID in_);
          id ← createWithPublicID gen (λ s, map Req_ID (st_requests s));
          let q := {| Req_ID := id; Req_WorkflowRunID := Run_ID run; Req_Key := ORI_Key in_;
            Req_NodeRunID := NR_ID node; Req_Kind := ORI_Kind in_; Req_Prompt := ORI_Prompt in_;
            Req_Questions := ORI_Questions in_; Req_ResponseSchema := ORI_ResponseSchema in_;
            Req_TaskRunID := taskRun; Req_Status := RequestStatusPending;
            Req_ExpiresAt := ORI_ExpiresAt in_; Req_Response := None; Req_RespondedBy := None;
            Req_RespondedAt := None; Req_CreatedAt := ORI_Now in_ |} in
          s ← get;
          _ ← put (s <| st_requests := st_requests s ++ [q] |>);
          _ ← update_nodes (λ n, NR_ID n == NR_ID node)
                (λ n,
                  let n := n <| NR_Status := NodeRunStatusWaiting |> <| NR_DeadlineAt := None |> in
                  let n := taskdb.set_if (ORI_ResolvedInput in_)
                             (λ v, λ n, n <| NR_ResolvedInput := Some v |>) n in
                  if bool_decide (NR_StartedAt node = None)
                  then n <| NR_StartedAt := Some (ORI_Now in_) |> else n);
          mret (Some (Req_ID q))
  end.

Definition OpenWorkflowRequest (in_ : OpenRequestInput) : DB (option RequestRead * bool) :=
  if negb (ValidNodeRunTransition (ORI_NodeExpected in_) NodeRunStatusWaiting)
  then fail ErrInvalidNodeRunTransition
  else
    opened ← asNotFound (transaction (openRequestTx in_));
    match opened with
    | None => mret (None, false)
    | Some id => read ← GetWorkflowRequest id; mret (read, bool_decide (is_Some read))
    end.

(** ** Admitting a node's Task and its next runs

    Each is one transaction that holds the run's lock. *)

Definition admitNodeTaskTx (in_ : coretask.CreateInput) : DB (option coretask.Task) :=
  node ← take st_nodes (λ n, NR_ID n == coretask.CI_WorkflowNodeRunID in_);
  run ← take st_runs (λ r, Run_ID r == NR_WorkflowRunID node);
  wf ← take st_workflows (λ w, Wf_ID w == Run_WorkflowID run);
  if (coretask.CI_SpaceID in_ != Wf_SpaceID wf)
     || (coretask.CI_AdmissionKey in_ != TaskAdmissionKey (Run_ID run) (NR_NodeID node))
  then fail ErrNotFound
  else
    match NR_TaskID node with
    | Some taskID =>
        existing ← take st_tasks (λ t, coretask.Task_ID t == taskID);
        if coretask.Task_AdmissionFingerprint existing != Some (coretask.AdmissionFingerprint in_)
        then fail ErrTaskAdmissionConflict
        else taskdb.GetTask (coretask.Task_ID existing)
    | None =>
        if (Run_Status run != RunStatusRunning) || (NR_Status node != NodeRunStatusPending)
        then fail ErrConflict
        else
          rows ← taskdb.newTaskRows session in_;
          created ← taskdb.createTaskAndRunTx gen in_ rows.1 rows.2;
          at_ ← now;
          _ ← update_nodes (λ n, NR_ID n == NR_ID node)
                (λ n, n <| NR_Status := NodeRunStatusRunning |>
                        <| NR_TaskID := Some (coretask.Task_ID created.1) |>
                        <| NR_TaskRunID := Some (coretask.Run_ID created.2) |>
                        <| NR_ResolvedInput := Some (coretask.CI_Input in_) |>
                        <| NR_StartedAt := Some at_ |>
                        <| NR_Attempt := 1%Z |>
                        <| NR_DeadlineAt := Deadline at_ (NR_TimeoutSeconds node) |>);
          mret (Some created.1)
    end.

Definition admitWorkflowNodeTask (in_ : coretask.CreateInput) : DB (option coretask.Task) :=
  asNotFound (transaction (admitNodeTaskTx in_)).

Definition admitNodeRetryTx (taskID : string) (in_ : coretask.CreateRunInput) : DB coretask.Run :=
  node ← take st_nodes (λ n, NR_ID n == coretask.CRI_WorkflowNodeRunID in_);
  run ← take st_runs (λ r, Run_ID r == NR_WorkflowRunID node);
  _ ← lookupKey "task" taskID;
  match coretask.CRI_IdempotencyKey in_ with
  | Some key =>
      if (NR_TaskID node != Some taskID)
         || negb (String.prefix (TaskAdmissionKey (Run_ID run) (NR_NodeID node) +:+ "/") key)
      then fail ErrNotFound
      else
        linked ← match NR_TaskRunID node with
                 | Some runID =>
                     existing ← take st_taskruns (λ r, coretask.Run_ID r == runID);
                     mret (if coretask.Run_IdempotencyKey existing == Some key
                           then Some existing else None)
                 | None => mret None
                 end;
        match linked with
        | Some existing => mret existing
        | None =>
            let wantAttempt :=
              if coretask.CRI_WorkflowNodeFrom in_ == NodeRunStatus_string NodeRunStatusRetryWait
              then (coretask.CRI_WorkflowAttempt in_ - 1)%Z
              else coretask.CRI_WorkflowAttempt in_ in
            if (Run_Status run != RunStatusRunning)
               || (NodeRunStatus_string (NR_Status node) != coretask.CRI_WorkflowNodeFrom in_)
               || negb (NR_Attempt node =? wantAttempt)%Z
            then fail ErrConflict
            else
              created ← taskdb.createTaskRunTx gen taskID in_;
              at_ ← now;
              _ ← update_nodes (λ n, NR_ID n == NR_ID node)
                    (λ n, n <| NR_Status := NodeRunStatusRunning |>
                            <| NR_TaskRunID := Some (coretask.Run_ID created) |>
                            <| NR_Attempt := coretask.CRI_WorkflowAttempt in_ |>
                            <| NR_DeadlineAt := Deadline at_ (NR_TimeoutSeconds node) |>
                            <| NR_NextAttemptAt := None |>
                            <| NR_ErrorMessage := None |>);
              mret created
        end
  | None => fail ErrNotFound
  end.

Definition admitWorkflowNodeRetryRun (taskID : string) (in_ : coretask.CreateRunInput) : DB coretask.Run :=
  asNotFound (transaction (admitNodeRetryTx taskID in_)).

(** The Task store with its Workflow admissions. *)
Definition AdmitTask : DB unit → coretask.CreateInput → DB (option coretask.Task) :=
  taskdb.AdmitTask gen session admitWorkflowNodeTask.

Definition CreateTaskRun : coretask.CreateRunInput → DB coretask.Run :=
  taskdb.CreateTaskRun gen admitWorkflowNodeRetryRun.
End Admission.

End workflowdb.
