(* ===== verification/WorkflowLifecycle.v ===== *)
(** * WorkflowLifecycle: how the rows of a workflow may move

    The lifecycles of internal/core/workflow/workflow.go as relations between
    two states of the database, and the fact that every program built from the
    operations of the stores moves the database along them. *)

From S2P Require Import Prelude Json TaskCore WorkflowCore Store TaskStore WorkflowStore.
From stdpp Require Import gmap.
Import db taskdb workflowdb.
Import coretask.
Import coreworkflow.

(** ** Tables that only append, row by row

    [t'] holds the rows of [t] in their places, each moved along [P], and then
    new ones; the key of a row stays unique. *)

Definition table_evolves {R K} (key : R → K) (P : relation R) (t t' : list R) : Prop :=
  NoDup (map key t) → NoDup (map key t') ∧ ∃ t1 new, t' = t1 ++ new ∧ Forall2 P t t1.

#[export] Instance table_evolves_preorder {R K} (key : R → K) (P : relation R) `{!PreOrder P} :
  PreOrder (table_evolves key P).
Proof.
  split.
  - intros t Hk. split; [done|]. exists t, []. split; [by rewrite app_nil_r|reflexivity].
  - intros a b c Hab Hbc Hk. destruct (Hab Hk) as [Hkb (b1 & n1 & -> & H1)].
    destruct (Hbc Hkb) as [Hkc (c1 & n2 & -> & H2)]. split; [done|].
    apply Forall2_app_inv_l in H2 as (c11 & c12 & H21 & _ & ->).
    exists c11, (c12 ++ n2). split; [by rewrite (assoc_L (++))|]. by etransitivity.
Qed.

Section Table.
Context {R K : Type} (key : R → K) (P : relation R) `{!PreOrder P}.

Lemma table_evolves_append t r : key r ∉ map key t → table_evolves key P t (t ++ [r]).
Proof.
  intros Hr Hk. split; [|by exists t, [r]].
  rewrite map_app, NoDup_app. cbn. split_and!; [done|set_solver|by apply NoDup_singleton].
Qed.

Lemma table_evolves_update p f t :
  (∀ r, key (f r) = key r) →
  (∀ r, NoDup (map key t) → r ∈ t → p r = true → P r (f r)) → table_evolves key P t (update_where p f t).
Proof.
  intros Hkey H Hk. rewrite update_where_map by done. split; [done|].
  exists (update_where p f t), []. split; [by rewrite app_nil_r|].
  unfold update_where. apply Forall2_fmap_r, Forall2_same_length_lookup_2; [done|].
  intros i x y Hx Hy. rewrite Hx in Hy. injection Hy as <-. change (P x (if p x then f x else x)). destruct (p x) eqn:E; [|reflexivity].
  apply H; [done|by eapply list_elem_of_lookup_2|done].
Qed.

(** A row of the earlier state and what became of it. *)
Lemma table_evolves_row t t' r :
  NoDup (map key t) → table_evolves key P t t' → r ∈ t → ∃ r', r' ∈ t' ∧ P r r'.
Proof.
  intros Hk Hev [i Hi]%list_elem_of_lookup. destruct (Hev Hk) as [_ (t1 & new & -> & H)].
  destruct (Forall2_lookup_l _ _ _ _ _ H Hi) as (r' & Hi' & HP).
  exists r'. split; [|done]. apply elem_of_app. left. by eapply list_elem_of_lookup_2.
Qed.
End Table.

(** ** Rows *)

(** A projection that the steps of an update do not touch. *)
Lemma proj_set_if {R T K} (k : R → K) (v : option T) f r :
  (∀ x r, k (f x r) = k r) → k (set_if v f r) = k r.
Proof. intros H. destruct v; [apply H|done]. Qed.

Lemma proj_if {R K} (k : R → K) (b : bool) (f : R → R) r :
  (∀ r, k (f r) = k r) → k (if b then f r else r) = k r.
Proof. intros H. destruct b; [apply H|done]. Qed.

Ltac skip_updates :=
  repeat first [rewrite proj_set_if by (intros; reflexivity)
               | rewrite proj_if by (intros; reflexivity)].

Definition run_step (a b : RunStatus) : Prop := ValidRunStatusTransition a b = true.
Definition node_step (a b : NodeRunStatus) : Prop := ValidNodeRunTransition a b = true.

(** What a run is given when it is created. *)
Definition run_origin (r : Run) :=
  (Run_ID r, Run_WorkflowID r, Run_WorkflowRevision r, Run_Input r, Run_IssueID r, Run_ScheduleID r,
   Run_CreatedBy r, Run_CreatedAt r, Run_DeadlineAt r).

Definition run_stopped (s : RunStatus) : bool := stop_status s || RunStatusTerminal s.

(** A finished run holds no lease. *)
Definition lease_free (r : Run) : Prop :=
  RunStatusTerminal (Run_Status r) = true → Run_ReconcileOwner r = None ∧ Run_LeaseExpiresAt r = None.

Record run_evolves (r r' : Run) : Prop := {
  re_origin : run_origin r' = run_origin r;
  re_status : rtc run_step (Run_Status r) (Run_Status r');
  (** The first cause of a stop is the recorded one. *)
  re_class : run_stopped (Run_Status r) = true → Run_FailureClass_ r' = Run_FailureClass_ r;
  (** A finished run is frozen but for its report. *)
  re_free : lease_free r → lease_free r' ∧
    (RunStatusTerminal (Run_Status r) = true → r' = r <| Run_ReportStatus_ := Run_ReportStatus_ r' |>);
}.

Lemma run_stopped_step a b : run_step a b → run_stopped a = true → run_stopped b = true.
Proof. unfold run_step. by destruct a, b. Qed.

Lemma run_stopped_rtc a b : rtc run_step a b → run_stopped a = true → run_stopped b = true.
Proof. induction 1; eauto using run_stopped_step. Qed.

Lemma run_terminal_rtc a b : rtc run_step a b → RunStatusTerminal a = true → b = a.
Proof. intros [|x y z Hxy] Ht; [done|]. unfold run_step in Hxy. by destruct x, y. Qed.

#[export] Instance run_evolves_preorder : PreOrder run_evolves.
Proof.
  split.
  - intros r. split; [done|done|done|]. intros Hf. split; [done|]. intros _. by destruct r.
  - intros a b c [O1 S1 C1 F1] [O2 S2 C2 F2]. split.
    + by rewrite O2.
    + by etransitivity.
    + intros Ha. rewrite C2, C1; [done|done|by eapply run_stopped_rtc].
    + intros Hf. destruct (F1 Hf) as [Hfb E1]. destruct (F2 Hfb) as [Hfc E2].
      split; [done|]. intros Ht. specialize (E1 Ht).
      assert (RunStatusTerminal (Run_Status b) = true) as Htb by (by rewrite (run_terminal_rtc _ _ S1 Ht)).
      rewrite (E2 Htb), E1. by destruct a.
Qed.

Definition node_origin (n : NodeRun) :=
  (NR_ID n, NR_WorkflowRunID n, NR_NodeID n, NR_NodeIndex n, NR_NodeType n, NR_Needs n, NR_IssueAccess n,
   (NR_TargetAgentID n, NR_AgentName n, NR_AgentDescription n, NR_AgentInstructions n, NR_AgentRevision n),
   NR_Prompt n, NR_Bindings n, NR_OutputSchema n, NR_MaxAttempts n, NR_TimeoutSeconds n, NR_CreatedAt n).

Record node_evolves (n n' : NodeRun) : Prop := {
  ne_origin : node_origin n' = node_origin n;
  ne_status : rtc node_step (NR_Status n) (NR_Status n');
  ne_frozen : NodeRunStatusTerminal (NR_Status n) = true → n' = n;
}.

Lemma node_terminal_rtc a b : rtc node_step a b → NodeRunStatusTerminal a = true → b = a.
Proof. intros [|x y z Hxy] Ht; [done|]. unfold node_step in Hxy. by destruct x, y. Qed.

#[export] Instance node_evolves_preorder : PreOrder node_evolves.
Proof.
  split; [by intros n|]. intros a b c [O1 S1 F1] [O2 S2 F2]. split.
  - by rewrite O2.
  - by etransitivity.
  - intros Ht. specialize (F1 Ht). subst b. by apply F2.
Qed.

Definition request_origin (q : Request) :=
  (Req_ID q, Req_WorkflowRunID q, Req_Key q, Req_NodeRunID q, Req_Kind q, Req_Prompt q,
   Req_Questions q, Req_ResponseSchema q, Req_TaskRunID q, Req_ExpiresAt q, Req_CreatedAt q).

(** A request is resolved once. *)
Record request_evolves (q q' : Request) : Prop := {
  qe_origin : request_origin q' = request_origin q;
  qe_frozen : Req_Status q ≠ RequestStatusPending → q' = q;
}.

#[export] Instance request_evolves_preorder : PreOrder request_evolves.
Proof.
  split; [by intros q|]. intros a b c [O1 F1] [O2 F2]. split.
  - by rewrite O2.
  - intros Ht. specialize (F1 Ht). subst b. by apply F2.
Qed.

Record workflow_evolves (w w' : Workflow) : Prop := {
  we_origin : (Wf_ID w', Wf_SpaceID w', Wf_CreatedBy w', Wf_CreatedAt w') =
              (Wf_ID w, Wf_SpaceID w, Wf_CreatedBy w, Wf_CreatedAt w);
  we_revision : (Wf_Revision w <= Wf_Revision w')%Z;
}.

#[export] Instance workflow_evolves_preorder : PreOrder workflow_evolves.
Proof.
  split; [by intros w|]. intros a b c [O1 R1] [O2 R2]. split; [by rewrite O2|lia].
Qed.

Definition taskrun_step (a b : coretask.RunStatus) : Prop := coretask.ValidRunStatusTransition a b = true.

Record taskrun_evolves (r r' : coretask.Run) : Prop := {
  te_origin : (coretask.Run_ID r', coretask.Run_TaskID r', coretask.Run_Input r', coretask.Run_CreatedAt r') =
              (coretask.Run_ID r, coretask.Run_TaskID r, coretask.Run_Input r, coretask.Run_CreatedAt r);
  te_status : rtc taskrun_step (coretask.Run_Status r) (coretask.Run_Status r');
}.

#[export] Instance taskrun_evolves_preorder : PreOrder taskrun_evolves.
Proof.
  split; [by intros w|]. intros a b c [O1 R1] [O2 R2]. split; [by rewrite O2|by etransitivity].
Qed.

(** ** Histories

    A workflow's revisions are numbered one to its current revision, in order,
    and the last holds its content. *)

Definition records (r : Revision) (w : Workflow) : Prop :=
  (Rev_Revision r, Rev_Name r, Rev_Description r, Rev_Definition r, Rev_Status r) =
  (Wf_Revision w, Wf_Name w, Wf_Description w, Wf_Definition w, Wf_Status w).

Definition revisions_of (id : string) (rs : list Revision) : list Revision :=
  rows_where (λ r, Rev_WorkflowID r == id) rs.

Record history_of (w : Workflow) (rs : list Revision) : Prop := {
  hi_numbers : map Rev_Revision (revisions_of (Wf_ID w) rs) = seqZ 1 (Wf_Revision w);
  hi_current : ∃ r, last (revisions_of (Wf_ID w) rs) = Some r ∧ records r w;
}.

Definition history_ok (ws : list Workflow) (rs : list Revision) : Prop :=
  (∀ r, r ∈ rs → Rev_WorkflowID r ∈ map Wf_ID ws) ∧ ∀ w, w ∈ ws → history_of w rs.

Lemma revisions_of_app id rs r :
  revisions_of id (rs ++ [r]) = revisions_of id rs ++ (if Rev_WorkflowID r == id then [r] else []).
Proof. unfold revisions_of, rows_where. rewrite List.filter_app. cbn. by destruct (_ == _). Qed.

(** A revision of another workflow leaves a history alone. *)
Lemma history_of_other w rs r : Rev_WorkflowID r ≠ Wf_ID w → history_of w rs → history_of w (rs ++ [r]).
Proof.
  intros Hne [H1 H2]. split; rewrite revisions_of_app, bool_decide_eq_false_2, app_nil_r by done; done.
Qed.

Lemma history_revision_pos w rs : history_of w rs → (1 <= Wf_Revision w)%Z.
Proof.
  intros [Hn (r & Hl & _)]. destruct (decide (1 <= Wf_Revision w)%Z) as [|Hlt]; [done|].
  rewrite seqZ_nil in Hn by lia. apply map_eq_nil in Hn. by rewrite Hn in Hl.
Qed.

(** The next revision extends it. *)
Lemma history_of_next w w' rs r :
  history_of w rs → Wf_ID w' = Wf_ID w → Wf_Revision w' = (Wf_Revision w + 1)%Z →
  Rev_WorkflowID r = Wf_ID w → records r w' → history_of w' (rs ++ [r]).
Proof.
  intros Hh Hid Hrev Hr Hrec. pose proof (history_revision_pos _ _ Hh) as Hpos. destruct Hh as [Hn Hl].
  split; rewrite revisions_of_app, bool_decide_eq_true_2 by congruence; rewrite Hid.
  - rewrite map_app, Hn, Hrev. cbn. injection Hrec as -> _ _ _ _. rewrite Hrev.
    rewrite (seqZ_app 1 (Wf_Revision w) 1) by lia. f_equal. rewrite Z.add_comm. done.
  - exists r. split; [apply last_snoc|done].
Qed.

Lemma history_create ws rs w r :
  history_ok ws rs → Wf_ID w ∉ map Wf_ID ws → Wf_Revision w = 1%Z → Rev_WorkflowID r = Wf_ID w → records r w →
  history_ok (ws ++ [w]) (rs ++ [r]).
Proof.
  intros [Hown Hall] Hid Hrev Hr Hrec. split.
  - intros r' [Hin|Heq%list_elem_of_singleton]%elem_of_app; rewrite map_app, elem_of_app.
    + left. by apply Hown.
    + subst r'. right. rewrite Hr. by left.
  - intros w' [Hin|Heq%list_elem_of_singleton]%elem_of_app.
    + apply history_of_other; [|by apply Hall]. intros E. apply Hid. rewrite <- Hr, E. by apply list_elem_of_fmap_2.
    + subst w'. assert (revisions_of (Wf_ID w) rs = []) as Hnone.
      { unfold revisions_of, rows_where. destruct (List.filter _ rs) as [|r' l] eqn:E; [done|]. exfalso. apply Hid.
        assert (r' ∈ rs ∧ (Rev_WorkflowID r' == Wf_ID w) = true) as [Hin Hr'%bool_decide_eq_true]
          by (apply (proj1 (elem_of_rows (λ r, Rev_WorkflowID r == Wf_ID w) rs r')); unfold rows_where; rewrite E; by left).
        rewrite <- Hr'. by apply Hown. }
      split; rewrite revisions_of_app, bool_decide_eq_true_2, Hnone by done.
      * rewrite Hrev. cbn. injection Hrec as -> _ _ _ _. by rewrite Hrev.
      * by exists r.
Qed.

(** ** The database *)

Record evolves (s s' : Store) : Prop := {
  ev_workflows : table_evolves Wf_ID workflow_evolves (st_workflows s) (st_workflows s');
  ev_revisions : table_evolves (λ r, (Rev_WorkflowID r, Rev_Revision r)) eq (st_revisions s) (st_revisions s');
  ev_runs : table_evolves Run_ID run_evolves (st_runs s) (st_runs s');
  ev_nodes : table_evolves NR_ID node_evolves (st_nodes s) (st_nodes s');
  ev_requests : table_evolves Req_ID request_evolves (st_requests s) (st_requests s');
  ev_taskruns : table_evolves coretask.Run_ID taskrun_evolves (st_taskruns s) (st_taskruns s');
  ev_history : NoDup (map Wf_ID (st_workflows s)) → history_ok (st_workflows s) (st_revisions s) →
    history_ok (st_workflows s') (st_revisions s');
  ev_leases : NoDup (map Run_ID (st_runs s)) → Forall lease_free (st_runs s) → Forall lease_free (st_runs s');
}.

(** The unique indexes the relation relies on. *)
Record keys_ok (s : Store) : Prop := {
  key_workflows : NoDup (map Wf_ID (st_workflows s));
  key_revisions : NoDup (map (λ r, (Rev_WorkflowID r, Rev_Revision r)) (st_revisions s));
  key_runs : NoDup (map Run_ID (st_runs s));
  key_nodes : NoDup (map NR_ID (st_nodes s));
  key_requests : NoDup (map Req_ID (st_requests s));
  key_taskruns : NoDup (map coretask.Run_ID (st_taskruns s));
}.

Lemma keys_ok_evolves s s' : evolves s s' → keys_ok s → keys_ok s'.
Proof. intros [V1 V2 V3 V4 V5 V6 _ _] [K1 K2 K3 K4 K5 K6]. split; [by apply V1|by apply V2|by apply V3|by apply V4|by apply V5|by apply V6]. Qed.

#[export] Instance evolves_preorder : PreOrder evolves.
Proof.
  split; [intros s; by split|].
  intros a b c [V1 V2 V3 V4 V5 V6 V7 V8] [U1 U2 U3 U4 U5 U6 U7 U8]. split; try (etransitivity; eassumption).
  - intros Hk Hh. apply U7; [by apply V1|by apply V7].
  - intros Hk Hl. apply U8; [by apply V3|by apply V8].
Qed.

(** A step that leaves the tables of [evolves] alone. *)
Ltac by_frame := split; cbn; first [reflexivity|done].

Lemma evolves_fresh s n : evolves s (s <| st_fresh := n |>).
Proof. by_frame. Qed.

(** A program is a step when each way it can end is; a rolled-back transaction
    always is. *)
Lemma steps_transaction_ok {A} (R : relation Store) (m : DB A) :
  (∀ s n, R s (s <| st_fresh := n |>)) → (∀ s a s', m s = (Ok a, s') → R s s') → steps R (transaction m).
Proof.
  intros Hfresh Hok s. unfold transaction. destruct (m s) as [[a|e] s'] eqn:E; [by eapply Hok|apply Hfresh].
Qed.

Section Updates.
Lemma steps_modify (f : Store → Store) {A} (k : Store → DB A) :
  (∀ s, evolves s (f s)) → (∀ s, steps evolves (k s)) → steps evolves (s ← get; _ ← put (f s); k s).
Proof. intros Hf Hk s. eff_unfold. etransitivity; [apply Hf|apply Hk]. Qed.

Local Ltac by_update := intros;
  apply steps_modify; [|intros; apply steps_ret; typeclasses eauto];
  intros; split; cbn; try reflexivity; try done; try (apply table_evolves_update; [typeclasses eauto|done|by eauto]).

Lemma steps_update_nodes p f :
  (∀ n, NR_ID (f n) = NR_ID n) → (∀ n, p n = true → node_evolves n (f n)) → steps evolves (update_nodes p f).
Proof. by_update. Qed.

Lemma steps_update_runs p f :
  (∀ r, Run_ID (f r) = Run_ID r) → (∀ r, p r = true → run_evolves r (f r)) → steps evolves (update_runs p f).
Proof.
  by_update. intros _ Hl. eapply Forall_update_where; [exact Hl| |done].
  intros r Hr Hp. by apply (re_free r (f r)); [eauto|].
Qed.

Lemma steps_update_requests p f :
  (∀ q, Req_ID (f q) = Req_ID q) → (∀ q, p q = true → request_evolves q (f q)) →
  steps evolves (update_requests p f).
Proof. by_update. Qed.

Lemma steps_update_taskruns p f :
  (∀ r, coretask.Run_ID (f r) = coretask.Run_ID r) → (∀ r, p r = true → taskrun_evolves r (f r)) →
  steps evolves (update_taskruns p f).
Proof. by_update. Qed.

Lemma steps_update_tasks p f : steps evolves (update_tasks p f).
Proof. apply steps_modify; [intros s; by_frame|intros; apply steps_ret; typeclasses eauto]. Qed.
End Updates.

Create HintDb bm_ev.
#[export] Hint Extern 1 (PreOrder _) => typeclasses eauto : bm_ev.
#[export] Hint Extern 1 (evolves ?s ?s) => reflexivity : bm_ev.
#[export] Hint Resolve steps_ret steps_fail steps_gets evolves_fresh steps_lookupKey
  steps_optionalKey steps_createWithPublicID steps_take steps_update_tasks : bm_ev.

(** Split a program along its binds; what is left are its own updates. *)
Ltac ev_walk :=
  repeat lazymatch goal with
  | |- forall _, _ => intro
  | |- steps _ (mbind _ _) => apply steps_bind
  | |- steps _ (catch _ _) => apply steps_catch
  | |- steps _ (transaction _) => apply steps_transaction
  | |- steps _ (let _ := _ in _) => cbv zeta
  | |- steps _ (match ?x with _ => _ end) => destruct x eqn:?
  | |- steps _ _ => solve [eauto 3 with bm_ev]
  | |- PreOrder _ => typeclasses eauto
  | |- evolves _ _ => solve [eauto 2 with bm_ev]
  end.

(** ** The operations move the database along the lifecycles *)

Lemma steps_or_empty {A} (R : relation Store) `{!PreOrder R} (empty : A) m :
  steps R m → steps R (or_empty empty m).
Proof.
  intros Hm. unfold or_empty. apply steps_catch; [done|done|]. intros e.
  case_bool_decide; [apply steps_ret|apply steps_fail]; done.
Qed.

Lemma steps_asNotFound {A} (R : relation Store) `{!PreOrder R} (m : DB A) :
  steps R m → steps R (asNotFound m).
Proof. intros Hm. apply steps_catch; [done|done|]. intros e. by apply steps_fail. Qed.

Section Ops.
Context (gen session : nat → string).

Lemma steps_now : steps evolves now.
Proof. apply steps_gets. typeclasses eauto. Qed.
Hint Resolve steps_now : bm_ev.

Lemma appendWorkflowRevision_ok by_ w s u s' :
  appendWorkflowRevision by_ w s = (Ok u, s') →
  ∃ r, s' = s <| st_revisions := st_revisions s ++ [r] |> ∧
    (Rev_WorkflowID r, Rev_Revision r) = (Wf_ID w, Wf_Revision w) ∧
    (Rev_Name r, Rev_Description r, Rev_Definition r, Rev_Status r) =
      (Wf_Name w, Wf_Description w, Wf_Definition w, Wf_Status w) ∧ Rev_CreatedBy r = by_ ∧
    (Wf_ID w, Wf_Revision w) ∉ map (λ r, (Rev_WorkflowID r, Rev_Revision r)) (st_revisions s).
Proof.
  unfold appendWorkflowRevision, now. intros H. inv_eff H. destruct (existsb _ _) eqn:E; inv_eff H.
  eexists. split_and!; [reflexivity|done|done|done|].
  intros (r & Er & Hr)%list_elem_of_fmap. injection Er as E1 E2.
  apply not_true_iff_false in E. apply E, existsb_exists. exists r.
  split; [by apply list_elem_of_In|]. by rewrite bool_decide_eq_true_2, E2, Z.eqb_refl.
Qed.

Lemma CreateWorkflow_ok sp by_ name desc def s w s' :
  CreateWorkflow gen sp by_ name desc def s = (Ok w, s') →
  ∃ r n, s' = s <| st_workflows := st_workflows s ++ [w] |> <| st_revisions := st_revisions s ++ [r] |>
                 <| st_fresh := n |> ∧
    Wf_ID w ∉ map Wf_ID (st_workflows s) ∧
    (Rev_WorkflowID r, Rev_Revision r) = (Wf_ID w, Wf_Revision w) ∧
    (Rev_Name r, Rev_Description r, Rev_Definition r, Rev_Status r) = (name, desc, def, StatusDraft) ∧
    (Wf_Revision w, Wf_SpaceID w, Wf_CreatedBy w, Wf_Status w) = (1%Z, sp, by_, StatusDraft) ∧
    (Wf_Name w, Wf_Description w, Wf_Definition w) = (name, desc, def) ∧
    (Wf_ID w, Wf_Revision w) ∉ map (λ r, (Rev_WorkflowID r, Rev_Revision r)) (st_revisions s).
Proof.
  unfold CreateWorkflow, now. intros H. inv_eff H.
  match goal with H1 : appendWorkflowRevision _ _ _ = _ |- _ =>
    apply appendWorkflowRevision_ok in H1 as (r & -> & E1 & E2 & _ & Hfresh) end.
  eexists r, _. split_and!; [by destruct s|done|done|done|done|done|done].
Qed.

Lemma steps_CreateWorkflow a b c d e : steps evolves (CreateWorkflow gen a b c d e).
Proof.
  intros s. destruct (CreateWorkflow gen a b c d e s) as [[w|err] s'] eqn:E.
  - apply CreateWorkflow_ok in E as (r & n & -> & Hid & Er & Erow & Ew & Econtent & Hf).
    split; cbn; try reflexivity; try done.
    + by apply table_evolves_append; [typeclasses eauto|].
    + apply table_evolves_append; [typeclasses eauto|by rewrite Er].
    + intros _ Hh. injection Er as Er1 Er2. injection Erow as F1 F2 F3 F4. injection Ew as G1 G2 G3 G4.
      injection Econtent as I1 I2 I3.
      apply history_create; [done|done|done|done|]. unfold records. congruence.
  - unfold CreateWorkflow, now in E. cbn in E. apply transaction_err in E as [n ->]. apply evolves_fresh.
Qed.

(** What the guarded write of an update leaves. *)
Lemma updateWorkflowTx_ok id in_ updated s b s' :
  updateWorkflowTx id in_ updated s = (Ok b, s') →
  let p w := (Wf_ID w == id) && (Wf_Revision w =? UpI_ExpectedRevision in_)%Z in
  (b = false ∧ s' = s ∧ matching p (st_workflows s) = 0) ∨
  (b = true ∧ matching p (st_workflows s) ≠ 0 ∧ ∃ r,
     s' = s <| st_workflows := update_where p (overwrite updated) (st_workflows s) |>
            <| st_revisions := st_revisions s ++ [r] |> ∧
     (Rev_WorkflowID r, Rev_Revision r) = (Wf_ID updated, Wf_Revision updated) ∧
     (Rev_Name r, Rev_Description r, Rev_Definition r, Rev_Status r) =
       (Wf_Name updated, Wf_Description updated, Wf_Definition updated, Wf_Status updated) ∧
     Rev_CreatedBy r = UpI_UpdatedBy in_ ∧
     (Wf_ID updated, Wf_Revision updated) ∉ map (λ r, (Rev_WorkflowID r, Rev_Revision r)) (st_revisions s)).
Proof.
  intros H p. unfold updateWorkflowTx in H. fold p in H. inv_eff H.
  match goal with H1 : update_workflows _ _ _ = _ |- _ => apply update_workflows_ok in H1 as [-> ->] end.
  destruct (Nat.eqb_spec (matching p (st_workflows s)) 0) as [Em|Em].
  - inv_eff H. left. split_and!; [done| |done]. rewrite update_where_none by done. by destruct s.
  - right. inv_eff H.
    match goal with H1 : appendWorkflowRevision _ _ _ = _ |- _ =>
      apply appendWorkflowRevision_ok in H1 as (r & -> & E1 & E2 & E3 & Hfresh) end.
    split_and!; [done|done|]. exists r. done.
Qed.

Lemma updateWorkflowTx_err id in_ updated s e s' :
  updateWorkflowTx id in_ updated s = (Err e, s') → ∃ n, s' = s <| st_fresh := n |>.
Proof. apply transaction_err. Qed.

Lemma steps_updateWorkflowTx id in_ updated :
  Wf_ID updated = id → Wf_Revision updated = nextRevision (UpI_ExpectedRevision in_) →
  steps evolves (updateWorkflowTx id in_ updated).
Proof.
  intros Hid Hrev s. destruct (updateWorkflowTx id in_ updated s) as [[b|e] s'] eqn:E.
  - apply updateWorkflowTx_ok in E as [(_ & -> & _)|(_ & Hm & r & -> & E1 & E2 & _ & Hf)]; [reflexivity|].
    split; cbn; try reflexivity; try done.
    + apply table_evolves_update; [typeclasses eauto|done|].
      intros w _ _ [_ E%Z.eqb_eq]%andb_true_iff. split; [done|]. cbn. rewrite Hrev.
      unfold nextRevision. destruct (Z.ltb_spec (UpI_ExpectedRevision in_) 1); lia.
    + apply table_evolves_append; [typeclasses eauto|by rewrite E1].
    + intros Hnd [Hown Hall]. injection E1 as Er1 Er2. injection E2 as F1 F2 F3 F4. split.
      * intros r' [Hin|Heq%list_elem_of_singleton]%elem_of_app; rewrite update_where_map by done; [by apply Hown|].
        subst r'. destruct (matching_ex _ _ (proj1 (Nat.neq_0_lt_0 _) Hm)) as (w & Hw & [Ew%bool_decide_eq_true _]%andb_true_iff).
        rewrite Er1, Hid, <- Ew. by apply list_elem_of_fmap_2.
      * intros w' (w & Hw & ->)%elem_of_update_where. specialize (Hall w Hw).
        destruct (bool_decide_reflect (Wf_ID w = id)) as [Ew|Ew]; cbn [andb].
        -- destruct (Z.eqb_spec (Wf_Revision w) (UpI_ExpectedRevision in_)) as [Ev|Ev].
           ++ pose proof (history_revision_pos _ _ Hall) as Hpos.
              apply (history_of_next w); [done|done| |congruence|unfold records; cbn; congruence].
              cbn. rewrite Hrev. unfold nextRevision. destruct (Z.ltb_spec (UpI_ExpectedRevision in_) 1); lia.
           ++ destruct (matching_ex _ _ (proj1 (Nat.neq_0_lt_0 _) Hm))
                as (w0 & Hw0 & [Ew0%bool_decide_eq_true Ev0%Z.eqb_eq]%andb_true_iff).
              assert (w0 = w) as -> by (apply (NoDup_key Wf_ID (st_workflows s)); [done..|congruence]). done.
        -- apply history_of_other; [congruence|done].
  - apply updateWorkflowTx_err in E as [n ->]. apply evolves_fresh.
Qed.

Lemma steps_UpdateWorkflow between id sp in_ :
  steps evolves between → steps evolves (UpdateWorkflow between id sp in_).
Proof.
  intros Hb. unfold UpdateWorkflow, GetWorkflow. apply steps_bind_ok; [typeclasses eauto|apply steps_gets; typeclasses eauto|].
  intros s o s' [-> ->]%gets_ok. destruct (take_where _ _) as [w|] eqn:Et; [|ev_walk].
  apply take_where_Some in Et as [_ Eid%bool_decide_eq_true].
  ev_walk. by apply steps_updateWorkflowTx.
Qed.

Lemma steps_CreateWorkflowRun in_ : steps evolves (CreateWorkflowRun gen in_).
Proof.
  unfold CreateWorkflowRun, lookupIfSet. apply steps_bind; [typeclasses eauto|apply steps_now|intros at_].
  apply steps_transaction_ok; [exact evolves_fresh|]. intros s r s' H. inv_eff H.
  match goal with H1 : (if _ then _ else mret tt) _ = (Ok _, ?s1) |- _ =>
    assert (s1 = s) as -> by (destruct (CRunI_AssistantID in_ != ""%string); by inv_eff H1); clear H1 end.
  split; cbn; try reflexivity; try done.
  - by apply table_evolves_append; [typeclasses eauto|].
  - intros _ Hl. apply Forall_app. split; [done|]. by apply Forall_singleton.
Qed.

Lemma steps_insertNodeRun id at_ i : steps evolves (insertNodeRun gen id at_ i).
Proof.
  intros s. destruct (insertNodeRun gen id at_ i s) as [[n|e] s'] eqn:E; cbn; unfold insertNodeRun, lookupIfSet in E.
  - inv_eff E. split; cbn; try reflexivity; try done. by apply table_evolves_append; [typeclasses eauto|].
  - revert E. eff_unfold. destruct (optionalKey _ _ s) as [[k|e1] s1] eqn:E1;
      [apply optionalKey_ok in E1 as [-> _]|by apply optionalKey_err in E1 as ->; intros [= _ <-]].
    destruct (createWithPublicID _ _ s) as [[x|e2] s2] eqn:E2; [done|]. intros [= _ <-].
    pose proof (steps_createWithPublicID evolves evolves_fresh gen (λ s, map NR_ID (st_nodes s)) s) as Hs.
    by rewrite E2 in Hs.
Qed.

Lemma steps_insertNodeRuns id at_ l : steps evolves (insertNodeRuns gen id at_ l).
Proof.
  induction l as [|i l IH]; cbn [insertNodeRuns]; [ev_walk|].
  apply steps_bind; [typeclasses eauto|apply steps_insertNodeRun|]. ev_walk.
Qed.
Hint Resolve steps_insertNodeRuns : bm_ev.

Lemma steps_CreateWorkflowNodeRuns id l : steps evolves (CreateWorkflowNodeRuns gen id l).
Proof. unfold CreateWorkflowNodeRuns. ev_walk. Qed.

Lemma runStatusUpdates_keeps st a b e r run :
  let run' := runStatusUpdates st a b e r run in
  run_origin run' = run_origin run ∧ Run_Status run' = st ∧ Run_FailureClass_ run' = Run_FailureClass_ run ∧
  (RunStatusTerminal st = true → Run_ReconcileOwner run' = None ∧ Run_LeaseExpiresAt run' = None).
Proof. unfold runStatusUpdates. destruct (RunStatusTerminal st), a, b, e, r; cbn; done. Qed.

Lemma runStatusUpdates_id st a b e r run : Run_ID (runStatusUpdates st a b e r run) = Run_ID run.
Proof. destruct (runStatusUpdates_keeps st a b e r run) as (E & _). by injection E. Qed.

Lemma stopRunUpdates_id st e c run : Run_ID (stopRunUpdates st e c run) = Run_ID run.
Proof. unfold stopRunUpdates. case_match; apply runStatusUpdates_id. Qed.

(** A guarded transition from a live status. *)
Lemma run_evolves_transition st a b e r c run run' :
  ValidRunStatusTransition (Run_Status run) st = true →
  run' = runStatusUpdates st a b e r run ∨
    run_stopped (Run_Status run) = false ∧ run' = runStatusUpdates st a b e r run <| Run_FailureClass_ := c |> →
  run_evolves run run'.
Proof.
  intros Hv Hr. destruct (runStatusUpdates_keeps st a b e r run) as (E1 & E2 & E3 & E4).
  destruct (run_transition_from_live _ _ Hv) as [Hlive _].
  assert (run_origin run' = run_origin run) as H1 by (destruct Hr as [->|[_ ->]]; exact E1).
  assert (Run_Status run' = st) as H2 by (destruct Hr as [->|[_ ->]]; exact E2).
  split; [done| | |].
  - apply rtc_once. by rewrite H2.
  - intros Hs. destruct Hr as [->|[Hns _]]; [done|congruence].
  - intros _. split; [|by rewrite Hlive]. unfold lease_free. rewrite H2.
    destruct Hr as [->|[_ ->]]; exact E4.
Qed.

Lemma steps_foldScheduleOutcome k b : steps evolves (foldScheduleOutcome k b).
Proof. intros s. by_frame. Qed.
Hint Resolve steps_foldScheduleOutcome : bm_ev.

Lemma transitionRunUpdates_keeps in_ r :
  Run_ID (transitionRunUpdates in_ r) = Run_ID r ∧ Run_Status (transitionRunUpdates in_ r) = TR_NewStatus in_.
Proof.
  unfold transitionRunUpdates. destruct (runStatusUpdates_keeps (TR_NewStatus in_) (TR_StartedAt in_)
    (TR_EndedAt in_) (TR_ErrorMessage in_) (TR_Result in_) r) as (Ho & Hs & _). injection Ho as Hid _. by case_match.
Qed.

Lemma steps_transition_runs in_ :
  ValidRunStatusTransition (TR_ExpectedStatus in_) (TR_NewStatus in_) = true →
  steps evolves (update_runs
    (λ r, (Run_ID r == TR_WorkflowRunID in_) && (Run_Status r == TR_ExpectedStatus in_)) (transitionRunUpdates in_)).
Proof.
  intros Hv. apply steps_update_runs; [apply transitionRunUpdates_keeps|].
  intros r [_ E%bool_decide_eq_true]%andb_true_iff. unfold transitionRunUpdates.
  rewrite <- E in Hv. eapply run_evolves_transition; [exact Hv|]. rewrite E in Hv |- *.
  destruct (bool_decide_reflect (TR_NewStatus in_ = RunStatusFailed)) as [Ef|]; [|by left].
  destruct (bool_decide_reflect (TR_ExpectedStatus in_ = RunStatusFailing)) as [|Ne]; [by left|].
  right. split; [|done]. rewrite Ef in Hv. by destruct (TR_ExpectedStatus in_).
Qed.

Lemma steps_TransitionWorkflowRun in_ : steps evolves (TransitionWorkflowRun in_).
Proof.
  unfold TransitionWorkflowRun. destruct (ValidRunStatusTransition _ _) eqn:Hv; cbn [negb]; ev_walk.
  by apply steps_transition_runs.
Qed.

Lemma run_evolves_stop st e c run :
  ValidRunStatusTransition (Run_Status run) st = true → stop_status st = true →
  run_evolves run (stopRunUpdates st e c run).
Proof.
  intros Hv Hs. eapply run_evolves_transition; [exact Hv|]. unfold stopRunUpdates.
  case_bool_decide as E; [|by left]. right. split; [|done]. subst st. by destruct (Run_Status run).
Qed.

Lemma steps_stopPendingNodesTx id : steps evolves (stopPendingNodesTx id).
Proof.
  unfold stopPendingNodesTx. ev_walk.
  - apply steps_update_nodes; [done|]. intros n [_ E%bool_decide_eq_true]%andb_true_iff.
    split; [done|apply rtc_once; by rewrite E|by rewrite E].
  - apply steps_update_nodes; [done|]. intros n [_ E%bool_decide_eq_true]%andb_true_iff.
    rewrite !elem_of_cons, elem_of_nil in E.
    split; [done|apply rtc_once|]; destruct E as [E|[E|[]]]; by rewrite E.
  - apply steps_update_requests; [done|]. intros q [_ E%bool_decide_eq_true]%andb_true_iff. by split.
Qed.
Hint Resolve steps_stopPendingNodesTx : bm_ev.

(** A guarded node transition: what it writes is not what the node was given. *)
Lemma node_evolves_transition n n' :
  node_origin n' = node_origin n → ValidNodeRunTransition (NR_Status n) (NR_Status n') = true →
  node_evolves n n'.
Proof.
  intros Ho Hv. destruct (node_transition_from_live _ _ Hv) as [Hl _].
  split; [done|by apply rtc_once|by rewrite Hl].
Qed.

Lemma stepTransitionUpdates_ok in_ s f s' :
  stepTransitionUpdates in_ s = (Ok f, s') → s' = s ∧ f = stepUpdates in_.
Proof. unfold stepTransitionUpdates, lookupIfSet. intros H. by inv_eff H. Qed.

Lemma steps_stepTransitionUpdates in_ : steps evolves (stepTransitionUpdates in_).
Proof. unfold stepTransitionUpdates, lookupIfSet. ev_walk. Qed.

Lemma stepUpdates_keeps in_ n :
  node_origin (stepUpdates in_ n) = node_origin n ∧ NR_Status (stepUpdates in_ n) = TN_NewStatus in_.
Proof. unfold stepUpdates. split; by skip_updates. Qed.

Lemma steps_TransitionWorkflowNodeRun in_ : steps evolves (TransitionWorkflowNodeRun in_).
Proof.
  unfold TransitionWorkflowNodeRun.
  destruct (ValidNodeRunTransition _ _) eqn:Hv; cbn [negb]; [|ev_walk].
  apply steps_transaction; [exact evolves_fresh|]. apply steps_bind_ok; [typeclasses eauto| |].
  { apply steps_stepTransitionUpdates. }
  intros s f s' [_ ->]%stepTransitionUpdates_ok. ev_walk.
  apply steps_update_nodes; [intros n; destruct (stepUpdates_keeps in_ n) as [H _]; by injection H|].
  intros n [_ E%bool_decide_eq_true]%andb_true_iff.
  destruct (stepUpdates_keeps in_ n) as [H1 H2].
  apply node_evolves_transition; [done|]. by rewrite H2, E.
Qed.

Lemma steps_BeginWorkflowRunDrain in_ : steps evolves (BeginWorkflowRunDrain in_).
Proof.
  unfold BeginWorkflowRunDrain, lookupIfSet. ev_walk.
  all: repeat match goal with H : negb (_ : bool) = false |- _ => apply negb_false_iff in H end.
  - apply steps_update_nodes; [intros n; by skip_updates|]. intros n [[_ _]%andb_true_iff E%bool_decide_eq_true]%andb_true_iff.
    apply node_evolves_transition; skip_updates; [done|]. by rewrite E.
  - apply steps_update_runs; [apply stopRunUpdates_id|]. intros r [_ E%bool_decide_eq_true]%andb_true_iff.
    apply run_evolves_stop; [by rewrite E|done].
Qed.

(** What stop intent does to a run's nodes and requests. *)
Definition stop_rows (id : string) (s : Store) : Store :=
  s <| st_nodes :=
      update_where (λ n, (NR_WorkflowRunID n == id)
                         && bool_decide (NR_Status n ∈ [NodeRunStatusRetryWait; NodeRunStatusWaiting]))
        (λ n, n <| NR_Status := NodeRunStatusCanceled |> <| NR_NextAttemptAt := None |>
                <| NR_EndedAt := Some (st_clock s) |>)
        (update_where (λ n, (NR_WorkflowRunID n == id) && (NR_Status n == NodeRunStatusPending))
           (λ n, n <| NR_Status := NodeRunStatusBlocked |>) (st_nodes s)) |>
    <| st_requests :=
      update_where (λ q, (Req_WorkflowRunID q == id) && (Req_Status q == RequestStatusPending))
        (λ q, q <| Req_Status := RequestStatusCanceled |>) (st_requests s) |>.

Lemma stopPendingNodesTx_eq id s : stopPendingNodesTx id s = (Ok tt, stop_rows id s).
Proof. by destruct s. Qed.

(** What a run-level stop leaves. *)
Definition stop_run (in_ : StopRunInput) (s : Store) : Store :=
  let s' := stop_rows (SRI_WorkflowRunID in_) s in
  s' <| st_runs := update_where (λ r, Run_ID r == SRI_WorkflowRunID in_)
          (stopRunUpdates (SRI_RunStatus_ in_) (SRI_ErrorMessage in_) (SRI_FailureClass_ in_)) (st_runs s) |>.

Lemma StopWorkflowRun_eq in_ s :
  stop_status (SRI_RunStatus_ in_) = true →
  ValidRunStatusTransition (SRI_RunExpected in_) (SRI_RunStatus_ in_) = true →
  StopWorkflowRun in_ s =
    match take_where (λ r, Run_ID r == SRI_WorkflowRunID in_) (st_runs s) with
    | Some run => if Run_Status run == SRI_RunExpected in_ then (Ok true, stop_run in_ s) else (Ok false, s)
    | None => (Ok false, s)
    end.
Proof.
  intros Hs Hv. unfold StopWorkflowRun. rewrite Hs, Hv. cbn [negb].
  unfold transaction, mbind at 1, eff_bind at 1, gets at 1.
  destruct (take_where _ _) as [run|] eqn:Et; [|done].
  destruct (bool_decide_reflect (Run_Status run = SRI_RunExpected in_)) as [E|]; cbn [negb]; [|done].
  unfold mbind at 1, eff_bind at 1. rewrite stopPendingNodesTx_eq.
  apply take_where_Some in Et as [_ Eid%bool_decide_eq_true]. rewrite Eid. done.
Qed.

Lemma steps_StopWorkflowRun in_ : steps evolves (StopWorkflowRun in_).
Proof.
  destruct (stop_status (SRI_RunStatus_ in_)) eqn:Hs; [|unfold StopWorkflowRun; rewrite Hs; cbn [negb]; ev_walk].
  destruct (ValidRunStatusTransition (SRI_RunExpected in_) (SRI_RunStatus_ in_)) eqn:Hv;
    [|unfold StopWorkflowRun; rewrite Hs, Hv; cbn [negb]; ev_walk].
  intros s. rewrite StopWorkflowRun_eq by done.
  destruct (take_where _ _) as [run|] eqn:Et; [|reflexivity].
  destruct (bool_decide_reflect (Run_Status run = SRI_RunExpected in_)) as [E|]; [|reflexivity].
  pose proof (steps_stopPendingNodesTx (SRI_WorkflowRunID in_) s) as H. rewrite stopPendingNodesTx_eq in H.
  cbn in H |- *. etransitivity; [exact H|]. unfold stop_run.
  apply take_where_Some in Et as [Hrun Erun%bool_decide_eq_true].
  assert (∀ r, NoDup (map Run_ID (st_runs s)) → r ∈ st_runs s → (Run_ID r == SRI_WorkflowRunID in_) = true →
    run_evolves r (stopRunUpdates (SRI_RunStatus_ in_) (SRI_ErrorMessage in_) (SRI_FailureClass_ in_) r)) as Hev.
  { intros r Hnd Hr Eid%bool_decide_eq_true.
    assert (r = run) as -> by (apply (NoDup_key Run_ID (st_runs s)); [done..|congruence]).
    apply run_evolves_stop; [by rewrite E|done]. }
  split; cbn; try reflexivity; try done.
  - apply table_evolves_update; [typeclasses eauto|apply stopRunUpdates_id|exact Hev].
  - intros Hnd Hl. rewrite Forall_forall in Hl |- *.
    intros r' (r & Hr & ->)%elem_of_update_where. destruct (_ == _) eqn:Eb; [|by apply Hl].
    by apply (re_free r); [apply Hev|apply Hl].
Qed.

(** A write that keeps status, class and what the run was given. *)
Lemma run_evolves_touch r r' :
  run_origin r' = run_origin r → Run_Status r' = Run_Status r → Run_FailureClass_ r' = Run_FailureClass_ r →
  (lease_free r → lease_free r' ∧
    (RunStatusTerminal (Run_Status r) = true → r' = r <| Run_ReportStatus_ := Run_ReportStatus_ r' |>)) →
  run_evolves r r'.
Proof. intros H1 H2 H3 H4. split; [done|by rewrite H2|done|done]. Qed.

Lemma run_live s : bool_decide (s ∈ TerminalRunStatuses) = RunStatusTerminal s.
Proof. by destruct s. Qed.

Lemma steps_SettleWorkflowReport id a b : steps evolves (SettleWorkflowReport id a b).
Proof.
  unfold SettleWorkflowReport, change_runs. ev_walk. apply steps_update_runs; [done|].
  intros r _. by apply run_evolves_touch.
Qed.

Lemma steps_ClaimWorkflowRunLease in_ : steps evolves (ClaimWorkflowRunLease in_).
Proof.
  unfold ClaimWorkflowRunLease, change_runs. ev_walk. apply steps_update_runs; [done|].
  intros r [[_ Hl]%andb_true_iff _]%andb_true_iff. rewrite run_live, negb_true_iff in Hl.
  apply run_evolves_touch; try done. unfold lease_free. cbn. by rewrite Hl.
Qed.

(** A held lease is the lease of a live run. *)
Lemma run_evolves_owned r r' o :
  run_origin r' = run_origin r → Run_Status r' = Run_Status r → Run_FailureClass_ r' = Run_FailureClass_ r →
  Run_ReconcileOwner r = Some o → run_evolves r r'.
Proof.
  intros H1 H2 H3 Ho. apply run_evolves_touch; try done. unfold lease_free. rewrite H2.
  destruct (RunStatusTerminal (Run_Status r)); [|done]. rewrite Ho. intros Hf. by destruct (Hf eq_refl).
Qed.

Lemma steps_RenewWorkflowRunLease in_ : steps evolves (RenewWorkflowRunLease in_).
Proof.
  unfold RenewWorkflowRunLease, change_runs. ev_walk. apply steps_update_runs; [done|].
  intros r [_ Ho%bool_decide_eq_true]%andb_true_iff. by eapply run_evolves_owned.
Qed.

Lemma steps_ReleaseWorkflowRunLease in_ : steps evolves (ReleaseWorkflowRunLease in_).
Proof.
  unfold ReleaseWorkflowRunLease, change_runs. ev_walk. apply steps_update_runs; [done|].
  intros r [_ Ho%bool_decide_eq_true]%andb_true_iff. by eapply run_evolves_owned.
Qed.

Lemma steps_ResolveWorkflowRequest in_ : steps evolves (ResolveWorkflowRequest in_).
Proof.
  unfold ResolveWorkflowRequest. cbv zeta. destruct (RRI_Status in_) eqn:Est; ev_walk.
  all: apply steps_update_requests; [intros q; by skip_updates|].
  all: intros q [[_ E%bool_decide_eq_true]%andb_true_iff _]%andb_true_iff.
  all: split; [by skip_updates|by rewrite E].
Qed.
(** One node moved along its lifecycle. *)
Lemma evolves_node t node f :
  node ∈ t → (∀ n, node_origin (f n) = node_origin n) →
  (∀ n, ValidNodeRunTransition (NR_Status node) (NR_Status (f n)) = true) →
  table_evolves NR_ID node_evolves t (update_where (λ n, NR_ID n == NR_ID node) f t).
Proof.
  intros Hin Ho Hv. apply table_evolves_update; [typeclasses eauto| |].
  - intros n. specialize (Ho n). by injection Ho.
  - intros n Hnd Hn E%bool_decide_eq_true.
    assert (n = node) as -> by (by apply (NoDup_key NR_ID t)).
    by apply node_evolves_transition.
Qed.

Lemma asNotFound_ok {A} (m : DB A) s a s' : asNotFound m s = (Ok a, s') → m s = (Ok a, s').
Proof. unfold asNotFound. rewrite catch_ok. intros [H|(e & s1 & _ & H)]; [done|by apply fail_ok in H]. Qed.

(** An opened request and its node, as the tables hold them. *)
Record opened (in_ : OpenRequestInput) (q : Request) (s s' : Store) : Prop := {
  op_run : ∃ r, r ∈ st_runs s ∧ Run_ID r = ORI_WorkflowRunID in_ ∧ Run_Status r = RunStatusRunning;
  op_node : ∃ n f, n ∈ st_nodes s ∧ NR_ID n = ORI_NodeRunID in_ ∧ NR_WorkflowRunID n = ORI_WorkflowRunID in_ ∧
    NR_Status n = ORI_NodeExpected in_ ∧
    (∀ m, node_origin (f m) = node_origin m ∧ NR_Status (f m) = NodeRunStatusWaiting) ∧
    s' = s <| st_requests := st_requests s ++ [q] |>
           <| st_nodes := update_where (λ m, NR_ID m == NR_ID n) f (st_nodes s) |>
           <| st_fresh := st_fresh s' |>;
  op_id : Req_ID q ∉ map Req_ID (st_requests s);
  op_new : ∀ q0, q0 ∈ st_requests s → Req_WorkflowRunID q0 = ORI_WorkflowRunID in_ → Req_Key q0 ≠ ORI_Key in_;
  op_request : (Req_WorkflowRunID q, Req_Key q, Req_NodeRunID q, Req_Status q, Req_ExpiresAt q, Req_Kind q) =
    (ORI_WorkflowRunID in_, ORI_Key in_, ORI_NodeRunID in_, RequestStatusPending, ORI_ExpiresAt in_, ORI_Kind in_);
}.
Lemma openRequestTx_ok in_ s o s' :
  openRequestTx gen in_ s = (Ok o, s') →
  (∃ q, o = Some (Req_ID q) ∧ s' = s ∧ q ∈ st_requests s ∧
     Req_WorkflowRunID q = ORI_WorkflowRunID in_ ∧ Req_Key q = ORI_Key in_) ∨
  (o = None ∧ s' = s ∧
     ((∃ r, r ∈ st_runs s ∧ Run_ID r = ORI_WorkflowRunID in_ ∧ Run_Status r ≠ RunStatusRunning) ∨
      (∃ n, n ∈ st_nodes s ∧ NR_ID n = ORI_NodeRunID in_ ∧ NR_Status n ≠ ORI_NodeExpected in_))) ∨
  (∃ q, o = Some (Req_ID q) ∧ opened in_ q s s').
Proof.
  unfold openRequestTx. intros H. inv_eff H.
  match goal with H1 : take_where _ (st_runs s) = Some ?r |- _ =>
    rename r into run; apply take_where_Some in H1 as [Hrun Erun%bool_decide_eq_true] end.
  destruct (take_where _ (st_requests s)) as [q|] eqn:Eq.
  { inv_eff H. left. exists q. apply take_where_Some in Eq as [Hq [E1%bool_decide_eq_true E2%bool_decide_eq_true]%andb_true_iff].
    split_and!; [done..|congruence|done]. }
  destruct (bool_decide_reflect (Run_Status run = RunStatusRunning)) as [Est|Est]; cbn [negb] in H.
  2: { inv_eff H. right; left. split_and!; [done|done|left; by exists run]. }
  inv_eff H.
  match goal with H1 : take_where _ (st_nodes s) = Some ?r |- _ =>
    rename r into node;
    apply take_where_Some in H1 as [Hnode [En1%bool_decide_eq_true En2%bool_decide_eq_true]%andb_true_iff] end.
  destruct (bool_decide_reflect (NR_Status node = ORI_NodeExpected in_)) as [Ens|Ens]; cbn [negb] in H.
  2: { inv_eff H. right; left. split_and!; [done|done|right; by exists node]. }
  inv_eff H.
  match goal with H1 : update_nodes _ _ _ = _ |- _ => apply update_nodes_ok in H1 as [-> ->] end.
  right; right. eexists. split; [reflexivity|]. split.
  - exists run. split_and!; [done|done|done].
  - exists node. eexists. split_and!; [done|done|congruence|done| |by destruct s].
    intros m. split; by skip_updates.
  - done.
  - intros q0 Hq0 E1 E2. apply (take_where_None _ _ Eq) in Hq0.
    by rewrite !bool_decide_eq_true_2 in Hq0 by congruence.
  - cbn. congruence.
Qed.

Lemma steps_OpenWorkflowRequest in_ : steps evolves (OpenWorkflowRequest gen in_).
Proof.
  unfold OpenWorkflowRequest, GetWorkflowRequest.
  destruct (ValidNodeRunTransition _ _) eqn:Hv; cbn [negb]; ev_walk.
  apply steps_asNotFound; [typeclasses eauto|].
  apply steps_transaction_ok; [exact evolves_fresh|]. intros s o s' H.
  apply openRequestTx_ok in H as [(q & _ & -> & _)|[(_ & -> & _)|(q & _ & Ho)]]; [reflexivity..|].
  destruct Ho as [_ (n & f & Hn & _ & _ & Est & Hf & ->) Hid _ _].
  split; cbn; try reflexivity; try done.
  - apply evolves_node; [done|intros m; apply Hf|]. intros m. rewrite Est. destruct (Hf m) as [_ ->]. done.
  - by apply table_evolves_append; [typeclasses eauto|].
Qed.

(** ** Admissions *)

Lemma created_evolves in_ task run s s' : created in_ task run s s' → evolves s s'.
Proof.
  intros [_ Hid _ Er Hframe _ _ _ _ _ _ _]. rewrite Hframe. split; cbn; try reflexivity; try done.
  rewrite Er. by apply table_evolves_append; [typeclasses eauto|].
Qed.

Lemma created_nodes in_ task run s s' : created in_ task run s s' → st_nodes s' = st_nodes s.
Proof. intros [_ _ _ _ Hframe _ _ _ _ _ _ _]. by rewrite Hframe. Qed.

Lemma extended_nodes id in_ run s s' : extended id in_ run s s' → st_nodes s' = st_nodes s.
Proof. intros [_ _ _ _ Hframe _ _ _ _]. by rewrite Hframe. Qed.

Lemma extended_evolves id in_ run s s' : extended id in_ run s s' → evolves s s'.
Proof.
  intros [Hid _ Er _ Hframe _ _ _ _]. rewrite Hframe. split; cbn; try reflexivity; try done.
  rewrite Er. by apply table_evolves_append; [typeclasses eauto|].
Qed.

(** A node's first Task, admitted: the run was running, the node pending, and
    task, run and link land together. *)
Record node_admitted (in_ : coretask.CreateInput) (node : NodeRun) (task : coretask.Task)
    (s s' : Store) : Prop := {
  na_run : ∃ r wf, r ∈ st_runs s ∧ Run_ID r = NR_WorkflowRunID node ∧ Run_Status r = RunStatusRunning ∧
    wf ∈ st_workflows s ∧ Wf_ID wf = Run_WorkflowID r ∧ coretask.CI_SpaceID in_ = Wf_SpaceID wf;
  na_node : node ∈ st_nodes s ∧ NR_ID node = coretask.CI_WorkflowNodeRunID in_ ∧
    NR_Status node = NodeRunStatusPending ∧ NR_TaskID node = None;
  na_key : coretask.CI_AdmissionKey in_ = TaskAdmissionKey (NR_WorkflowRunID node) (NR_NodeID node);
  na_link : ∃ trun s1 f, created in_ task trun s s1 ∧
    s' = s1 <| st_nodes := update_where (λ n, NR_ID n == NR_ID node) f (st_nodes s) |> ∧
    ∀ n, node_origin (f n) = node_origin n ∧ NR_Status (f n) = NodeRunStatusRunning ∧
         NR_TaskID (f n) = Some (coretask.Task_ID task) ∧ NR_TaskRunID (f n) = Some (coretask.Run_ID trun) ∧
         NR_Attempt (f n) = 1%Z ∧ NR_ResolvedInput (f n) = Some (coretask.CI_Input in_);
}.

Lemma created_tables in_ task run s s' :
  created in_ task run s s' →
  st_nodes s' = st_nodes s ∧ st_runs s' = st_runs s ∧ st_workflows s' = st_workflows s.
Proof. intros [_ _ _ _ Hframe _ _ _ _ _ _ _]. by rewrite Hframe. Qed.

Lemma admitNodeTaskTx_ok in_ s o s' :
  admitNodeTaskTx gen session in_ s = (Ok o, s') →
  (s' = s ∧ ∃ node t, node ∈ st_nodes s ∧ NR_ID node = coretask.CI_WorkflowNodeRunID in_ ∧
     NR_TaskID node = Some (coretask.Task_ID t) ∧ t ∈ st_tasks s ∧
     coretask.Task_AdmissionFingerprint t = Some (coretask.AdmissionFingerprint in_)) ∨
  ∃ node task, o = Some task ∧ node_admitted in_ node task s s'.
Proof.
  unfold admitNodeTaskTx. intros H. inv_eff H.
  match goal with H1 : take_where _ (st_nodes s) = Some ?r, H2 : take_where _ (st_runs s) = Some ?r2,
      H3 : take_where _ (st_workflows s) = Some ?r3 |- _ =>
    rename r into node; rename r2 into run; rename r3 into wf;
    apply take_where_Some in H1 as [Hnode En%bool_decide_eq_true];
    apply take_where_Some in H2 as [Hrun Er%bool_decide_eq_true];
    apply take_where_Some in H3 as [Hwf Ewf%bool_decide_eq_true] end.
  destruct (bool_decide_reflect (coretask.CI_SpaceID in_ = Wf_SpaceID wf)) as [Esp|]; cbn [negb orb] in H;
    [|by inv_eff H].
  destruct (bool_decide_reflect (coretask.CI_AdmissionKey in_ = TaskAdmissionKey (Run_ID run) (NR_NodeID node)))
    as [Ekey|]; cbn [negb] in H; [|by inv_eff H].
  destruct (NR_TaskID node) as [taskID|] eqn:Et.
  - inv_eff H.
    match goal with H1 : take_where _ (st_tasks s) = Some ?r |- _ =>
      rename r into t; apply take_where_Some in H1 as [Ht Eid%bool_decide_eq_true] end.
    destruct (bool_decide_reflect (coretask.Task_AdmissionFingerprint t = Some (coretask.AdmissionFingerprint in_)))
      as [Ef|]; cbn [negb] in H; [|by inv_eff H].
    unfold GetTask in H. inv_eff H. left. split; [done|]. exists node, t. by rewrite Et, Eid.
  - right. destruct (bool_decide_reflect (Run_Status run = RunStatusRunning)) as [Est|]; cbn [negb orb] in H;
      [|by inv_eff H].
    destruct (bool_decide_reflect (NR_Status node = NodeRunStatusPending)) as [Ens|]; cbn [negb] in H;
      [|by inv_eff H].
    inv_eff H.
    match goal with H1 : newTaskRows _ _ _ = _, H2 : createTaskAndRunTx _ _ _ _ _ = (Ok ?c, _),
        H3 : now _ = _, H4 : update_nodes _ _ _ = _ |- _ =>
      destruct c as [task trun]; pose proof (newTaskRows_same _ _ _ _ _ H1) as ->;
      pose proof (createTaskAndRunTx_ok _ _ _ _ _ _ _ _ _ _ H1 H2) as Hcr;
      unfold now in H3; inv_eff H3; apply update_nodes_ok in H4 as [-> ->] end.
    exists node, task. split; [done|]. split.
    + by exists run, wf.
    + done.
    + by rewrite <- Er.
    + eexists trun, _, _. split; [exact Hcr|]. split.
      * by rewrite <- (created_nodes _ _ _ _ _ Hcr).
      * intros n. split_and!; reflexivity.
Qed.

Lemma node_admitted_evolves in_ node task s s' : node_admitted in_ node task s s' → evolves s s'.
Proof.
  intros [_ (Hn & _ & Est & _) _ (trun & s1 & f & Hcr & -> & Hf)].
  etransitivity; [by eapply created_evolves|].
  split; cbn; try reflexivity; try done. rewrite (created_nodes _ _ _ _ _ Hcr). apply evolves_node; [done|intros n; apply Hf|].
  intros n. rewrite Est. destruct (Hf n) as (_ & -> & _). done.
Qed.

Lemma steps_admitWorkflowNodeTask in_ : steps evolves (admitWorkflowNodeTask gen session in_).
Proof.
  apply steps_asNotFound; [typeclasses eauto|].
  apply steps_transaction_ok; [exact evolves_fresh|]. intros s o s' H.
  apply admitNodeTaskTx_ok in H as [(-> & _)|(node & task & _ & Hna)]; [reflexivity|].
  by eapply node_admitted_evolves.
Qed.
Lemma NodeRunStatus_string_inj a b : NodeRunStatus_string a = NodeRunStatus_string b → a = b.
Proof. by destruct a, b. Qed.

(** A node's next run, admitted on its Task: a retry or a continuation. *)
Record node_readmitted (taskID : string) (in_ : coretask.CreateRunInput) (node : NodeRun)
    (trun : coretask.Run) (s s' : Store) : Prop := {
  nr_run : ∃ r, r ∈ st_runs s ∧ Run_ID r = NR_WorkflowRunID node ∧ Run_Status r = RunStatusRunning;
  nr_node : node ∈ st_nodes s ∧ NR_ID node = coretask.CRI_WorkflowNodeRunID in_ ∧
    NodeRunStatus_string (NR_Status node) = coretask.CRI_WorkflowNodeFrom in_ ∧ NR_TaskID node = Some taskID;
  nr_link : ∃ s1 f, (s1 = s ∧ trun ∈ st_taskruns s ∧ coretask.Run_TaskID trun = taskID ∨ extended taskID in_ trun s s1) ∧
    s' = s1 <| st_nodes := update_where (λ n, NR_ID n == NR_ID node) f (st_nodes s) |> ∧
    ∀ n, node_origin (f n) = node_origin n ∧ NR_Status (f n) = NodeRunStatusRunning ∧
         NR_TaskID (f n) = NR_TaskID n ∧ NR_TaskRunID (f n) = Some (coretask.Run_ID trun) ∧
         NR_Attempt (f n) = coretask.CRI_WorkflowAttempt in_ ∧ NR_NextAttemptAt (f n) = None;
}.

Lemma admitNodeRetryTx_ok taskID in_ s trun s' :
  admitNodeRetryTx gen taskID in_ s = (Ok trun, s') →
  (s' = s ∧ ∃ node, node ∈ st_nodes s ∧ NR_ID node = coretask.CRI_WorkflowNodeRunID in_ ∧
     trun ∈ st_taskruns s ∧ NR_TaskRunID node = Some (coretask.Run_ID trun) ∧
     coretask.Run_IdempotencyKey trun = coretask.CRI_IdempotencyKey in_) ∨
  ∃ node, node_readmitted taskID in_ node trun s s'.
Proof.
  unfold admitNodeRetryTx. intros H. inv_eff H.
  match goal with H1 : take_where _ (st_nodes s) = Some ?r, H2 : take_where _ (st_runs s) = Some ?r2 |- _ =>
    rename r into node; rename r2 into run;
    apply take_where_Some in H1 as [Hnode En%bool_decide_eq_true];
    apply take_where_Some in H2 as [Hrun Er%bool_decide_eq_true] end.
  destruct (coretask.CRI_IdempotencyKey in_) as [key|] eqn:Ekey; [|by inv_eff H].
  destruct (bool_decide_reflect (NR_TaskID node = Some taskID)) as [Et|]; cbn [negb orb] in H; [|by inv_eff H].
  destruct (negb (String.prefix _ _)); [by inv_eff H|]. inv_eff H.
  match goal with H1 : match NR_TaskRunID node with _ => _ end _ = (Ok ?l, ?s1) |- _ =>
    rename l into linked;
    assert (s1 = s ∧ match linked with
      | Some r => r ∈ st_taskruns s ∧ NR_TaskRunID node = Some (coretask.Run_ID r) ∧
                  coretask.Run_IdempotencyKey r = Some key
      | None => True end) as [-> Hlinked]; [|clear H1] end.
  { destruct (NR_TaskRunID node) as [rid|]; [|by match goal with H1 : _ = (Ok linked, _) |- _ => inv_eff H1 end].
    match goal with H1 : _ = (Ok linked, _) |- _ => inv_eff H1 end. split; [done|].
    match goal with H1 : take_where _ _ = Some _ |- _ => apply take_where_Some in H1 as [Hr Eid%bool_decide_eq_true] end.
    case_bool_decide as Ek; [|done]. by rewrite Eid. }
  destruct linked as [existing|].
  { inv_eff H. left. split; [done|]. exists node. by destruct Hlinked as (? & ? & ?). }
  right. cbv zeta in H.
  destruct (bool_decide_reflect (Run_Status run = RunStatusRunning)) as [Est|]; cbn [negb orb] in H; [|by inv_eff H].
  destruct (bool_decide_reflect (NodeRunStatus_string (NR_Status node) = coretask.CRI_WorkflowNodeFrom in_))
    as [Ens|]; cbn [negb orb] in H; [|by inv_eff H].
  match type of H with (if negb ?b then _ else _) _ = _ => destruct b; cbn [negb] in H; [|by inv_eff H] end.
  inv_eff H.
  match goal with H2 : createTaskRunTx _ _ _ _ = (Ok ?c, _), H3 : now _ = _, H4 : update_nodes _ _ _ = _ |- _ =>
    rename c into trun0; apply createTaskRunTx_ok in H2; rename H2 into Hc;
    unfold now in H3; inv_eff H3; apply update_nodes_ok in H4 as [-> ->] end.
  exists node. split; [by exists run|done|].
  destruct Hc as [(-> & Hin & Ht & _)|[Hx _]]; eexists _, _; (split; [by eauto|]); split.
  - done.
  - intros n. split_and!; reflexivity.
  - by rewrite <- (extended_nodes _ _ _ _ _ Hx).
  - intros n. split_and!; reflexivity.
Qed.

(** The nodes the two callers readmit from. *)
Definition readmits (in_ : coretask.CreateRunInput) : Prop :=
  coretask.CRI_WorkflowNodeRunID in_ ≠ ""%string →
  coretask.CRI_WorkflowNodeFrom in_ ∈ [NodeRunStatus_string NodeRunStatusRetryWait;
                                       NodeRunStatus_string NodeRunStatusWaiting].

Lemma node_readmitted_evolves taskID in_ node trun s s' :
  readmits in_ → coretask.CRI_WorkflowNodeRunID in_ ≠ ""%string →
  node_readmitted taskID in_ node trun s s' → evolves s s'.
Proof.
  intros Hre Hne [_ (Hn & _ & Est & _) (s1 & f & Hs1 & -> & Hf)].
  assert (NR_Status node = NodeRunStatusRetryWait ∨ NR_Status node = NodeRunStatusWaiting) as Hfrom.
  { specialize (Hre Hne). rewrite !elem_of_cons, elem_of_nil, <- Est in Hre.
    destruct Hre as [E|[E|[]]]; apply NodeRunStatus_string_inj in E; auto. }
  assert (evolves s s1 ∧ st_nodes s1 = st_nodes s) as [Hev Enodes].
  { destruct Hs1 as [(-> & _)|Hx]; [done|]. split; [by eapply extended_evolves|by eapply extended_nodes]. }
  etransitivity; [exact Hev|]. split; cbn; try reflexivity; try done. rewrite Enodes.
  apply evolves_node; [done|intros n; apply Hf|]. intros n. destruct (Hf n) as (_ & -> & _).
  by destruct Hfrom as [-> | ->].
Qed.

Lemma steps_CreateTaskRun in_ : readmits in_ → steps evolves (CreateTaskRun gen in_).
Proof.
  intros Hre. unfold CreateTaskRun, taskdb.CreateTaskRun. case_bool_decide as Hne; cbn [negb].
  - apply steps_transaction_ok; [exact evolves_fresh|]. intros s r s' H.
    apply createTaskRunTx_ok in H as [(-> & _)|[Hx _]]; [reflexivity|by eapply extended_evolves].
  - apply steps_asNotFound; [typeclasses eauto|].
    apply steps_transaction_ok; [exact evolves_fresh|]. intros s r s' H.
    apply admitNodeRetryTx_ok in H as [(-> & _)|(node & Hna)]; [reflexivity|].
    by eapply node_readmitted_evolves.
Qed.

Lemma steps_createTaskTx in_ s0 rows s1 :
  newTaskRows session in_ s0 = (Ok rows, s1) →
  steps evolves (transaction (createTaskAndRunTx gen in_ rows.1 rows.2)).
Proof.
  intros Hrows. apply steps_transaction_ok; [exact evolves_fresh|]. intros s [task run] s' H.
  eapply created_evolves. by eapply createTaskAndRunTx_ok.
Qed.

Lemma steps_newTaskRows in_ : steps evolves (newTaskRows session in_).
Proof. unfold newTaskRows, now. ev_walk. Qed.

Lemma steps_CreateTask in_ : steps evolves (CreateTask gen session in_).
Proof.
  unfold CreateTask. apply steps_bind_ok; [typeclasses eauto|apply steps_newTaskRows|].
  intros s rows s' Hrows.
  apply steps_bind; [typeclasses eauto|by eapply steps_createTaskTx|ev_walk].
Qed.

Lemma steps_AdmitTask between in_ :
  steps evolves between → steps evolves (AdmitTask gen session between in_).
Proof.
  intros Hb. unfold AdmitTask, taskdb.AdmitTask. case_bool_decide; [ev_walk|].
  case_bool_decide; cbn [negb]; [|apply steps_admitWorkflowNodeTask].
  apply steps_bind; [typeclasses eauto|apply steps_gets; typeclasses eauto|].
  assert (∀ t fp, steps evolves (admittedTaskOrConflict t fp)) as Hadm.
  { intros t fp. unfold admittedTaskOrConflict, GetTask. ev_walk. }
  intros [t|]; [apply Hadm|].
  apply steps_bind_ok; [typeclasses eauto|apply steps_newTaskRows|]. intros s rows s' Hrows.
  apply steps_bind; [typeclasses eauto|done|]. intros _.
  apply steps_catch; [typeclasses eauto| |].
  - apply steps_bind; [typeclasses eauto|by eapply steps_createTaskTx|ev_walk].
  - intros e. unfold taskByAdmissionKey. ev_walk.
Qed.
End Ops.
