(* ===== verification/StoreProgram.v ===== *)
(** * StoreProgram: what every program over the stores keeps

    The services of internal/service reach the database only through the store
    operations.  [store_program] is the closure of those they call under
    sequencing, error handling and reads; an interleaving of requests, sweeps
    and workers is one such program.  The theorems hold of every one of them.

    The task store also offers [UpdateTask] and [ClaimTask], which no service
    calls: they write a task's status apart from its run's and are left out of
    the closure, for a program with them does not keep the two in step
    ([ClaimTask_unmirrors] of WorkflowSafety).  And a run is added to a node's
    task only from the states the callers readmit from, [readmits]; the store
    itself takes whatever status it is told to expect. *)

From S2P Require Import Prelude Json TaskCore WorkflowCore Store TaskStore WorkflowStore WorkflowLifecycle.
From stdpp Require Import gmap.
Import db taskdb workflowdb.
Import coretask.
Import coreworkflow.

(** ** Task runs *)

Section TaskOps.
Lemma steps_touch_taskruns p f : (∀ r, same_face r (f r) ∧ coretask.Run_Input (f r) = coretask.Run_Input r ∧
    coretask.Run_CreatedAt (f r) = coretask.Run_CreatedAt r) → steps evolves (update_taskruns p f).
Proof.
  intros H. apply steps_update_taskruns; intros r; destruct (H r) as [(E1 & E2 & E3 & _) [E4 E5]]; [done|].
  intros _. split; [by rewrite E1, E2, E4, E5|by rewrite E3].
Qed.

Lemma steps_RequestTaskRunCancel id by_ reason at_ : steps evolves (RequestTaskRunCancel id by_ reason at_).
Proof.
  unfold RequestTaskRunCancel. apply steps_bind; [typeclasses eauto| |].
  { case_bool_decide; cbn [negb]; ev_walk. }
  intros o. ev_walk. apply steps_touch_taskruns. intros r. destruct o; by repeat split.
Qed.

Lemma steps_UpdateTaskRunWorkerInfo id w n t : steps evolves (UpdateTaskRunWorkerInfo id w n t).
Proof. apply steps_touch_taskruns. intros r. destruct n, t; by repeat split. Qed.

Lemma steps_TransitionTaskRun in_ : steps evolves (TransitionTaskRun in_).
Proof.
  unfold TransitionTaskRun. destruct (coretask.ValidRunStatusTransition _ _) eqn:Hv; cbn [negb]; ev_walk.
  - apply steps_update_taskruns.
    + intros r. by apply build_keeps.
    + intros r [_ E%bool_decide_eq_true]%andb_true_iff.
      assert (coretask.Run_Input (buildTaskRunUpdates in_ r) = coretask.Run_Input r ∧
        coretask.Run_CreatedAt (buildTaskRunUpdates in_ r) = coretask.Run_CreatedAt r) as [E4 E5]
        by (unfold buildTaskRunUpdates; split; by skip_updates).
      destruct (build_keeps in_ r) as (E1 & E2 & E3 & _).
      split; [by rewrite E1, E2, E4, E5|]. apply rtc_once. unfold taskrun_step. by rewrite E3, E.
  - apply steps_foldScheduleOutcome.
Qed.
End TaskOps.

(** ** The tables of tasks *)

Definition same_tasks (s s' : Store) : Prop := st_tasks s' = st_tasks s ∧ st_taskruns s' = st_taskruns s.

#[export] Instance same_tasks_preorder : PreOrder same_tasks.
Proof. split; [by intros s|]. intros a b c [E1 E2] [E3 E4]. split; congruence. Qed.

Lemma steps_modify_at {A} (R : relation Store) `{!PreOrder R} (f : Store → Store) (k : Store → DB A) :
  (∀ s, R s (f s)) → (∀ s, steps R (k s)) → steps R (s ← get; _ ← put (f s); k s).
Proof. intros Hf Hk s. eff_unfold. etransitivity; [apply Hf|apply Hk]. Qed.

(** Writes to the other tables. *)
Ltac tasks_walk :=
  repeat lazymatch goal with
  | |- forall _, _ => intro
  | |- steps _ (mbind (fun s => mbind _ (put _)) get) => apply steps_modify_at
  | |- steps _ (mbind _ _) => apply steps_bind
  | |- steps _ (catch _ _) => apply steps_catch
  | |- steps _ (asNotFound _) => apply steps_asNotFound
  | |- steps _ (transaction _) => apply steps_transaction
  | |- steps _ (let _ := _ in _) => cbv zeta
  | |- steps _ (match ?x with _ => _ end) => destruct x
  | |- steps _ _ => solve [eauto 3 with bm_tasks]
  | |- PreOrder _ => typeclasses eauto
  | |- same_tasks _ _ => solve [split; reflexivity]
  end.

Section SameTasks.
Context (gen : nat → string).

Lemma same_tasks_fresh s n : same_tasks s (s <| st_fresh := n |>).
Proof. by split. Qed.

Lemma same_tasks_nodes p f : steps same_tasks (update_nodes p f).
Proof. intros s. by split. Qed.

Lemma same_tasks_runs p f : steps same_tasks (update_runs p f).
Proof. intros s. by split. Qed.

Lemma same_tasks_requests p f : steps same_tasks (update_requests p f).
Proof. intros s. by split. Qed.

Lemma same_tasks_workflows p f : steps same_tasks (update_workflows p f).
Proof. intros s. by split. Qed.

Lemma same_tasks_appendRevision by_ w : steps same_tasks (appendWorkflowRevision by_ w).
Proof.
  intros s. unfold appendWorkflowRevision, now. eff_unfold. destruct (existsb _ _); by split.
Qed.

Lemma same_tasks_fold k b : steps same_tasks (foldScheduleOutcome k b).
Proof. intros s. by split. Qed.
End SameTasks.

Create HintDb bm_tasks.
#[export] Hint Extern 1 (PreOrder _) => typeclasses eauto : bm_tasks.
#[export] Hint Resolve steps_ret steps_fail steps_gets steps_get same_tasks_fresh steps_lookupKey steps_optionalKey
  steps_createWithPublicID steps_take same_tasks_appendRevision same_tasks_fold
  same_tasks_nodes same_tasks_runs same_tasks_requests same_tasks_workflows : bm_tasks.

Section WorkflowOps.
Context (gen : nat → string).

Lemma same_tasks_CreateWorkflow a b c d e : steps same_tasks (CreateWorkflow gen a b c d e).
Proof. unfold CreateWorkflow, now. tasks_walk. Qed.

Lemma same_tasks_updateWorkflowTx id in_ w : steps same_tasks (updateWorkflowTx id in_ w).
Proof. unfold updateWorkflowTx. tasks_walk. Qed.

Lemma same_tasks_CreateWorkflowRun in_ : steps same_tasks (CreateWorkflowRun gen in_).
Proof. unfold CreateWorkflowRun, now, lookupIfSet. tasks_walk. Qed.

Lemma same_tasks_CreateWorkflowNodeRuns id l : steps same_tasks (CreateWorkflowNodeRuns gen id l).
Proof.
  assert (∀ at_, steps same_tasks (insertNodeRuns gen id at_ l)) as H.
  { intros at_. induction l as [|i l IH]; cbn [insertNodeRuns]; unfold insertNodeRun, lookupIfSet; tasks_walk. }
  unfold CreateWorkflowNodeRuns, now. destruct l; tasks_walk.
Qed.

Lemma same_tasks_TransitionWorkflowRun in_ : steps same_tasks (TransitionWorkflowRun in_).
Proof. unfold TransitionWorkflowRun. tasks_walk. Qed.

Lemma same_tasks_TransitionWorkflowNodeRun in_ : steps same_tasks (TransitionWorkflowNodeRun in_).
Proof. unfold TransitionWorkflowNodeRun, stepTransitionUpdates, lookupIfSet. tasks_walk. Qed.

Lemma same_tasks_BeginWorkflowRunDrain in_ : steps same_tasks (BeginWorkflowRunDrain in_).
Proof. unfold BeginWorkflowRunDrain, stopPendingNodesTx, lookupIfSet, now. tasks_walk. Qed.

Lemma same_tasks_StopWorkflowRun in_ : steps same_tasks (StopWorkflowRun in_).
Proof. unfold StopWorkflowRun, stopPendingNodesTx, now. tasks_walk. Qed.

Lemma same_tasks_ResolveWorkflowRequest in_ : steps same_tasks (ResolveWorkflowRequest in_).
Proof. unfold ResolveWorkflowRequest. tasks_walk. Qed.

Lemma same_tasks_OpenWorkflowRequest in_ : steps same_tasks (OpenWorkflowRequest gen in_).
Proof. unfold OpenWorkflowRequest, openRequestTx, GetWorkflowRequest. tasks_walk. Qed.
End WorkflowOps.

(** ** Tasks stay well formed *)

Section Tasks.
Context (gen session : nat → string).

Lemma admission_ok_ext s s' : same_tasks s s' → admission_ok s → admission_ok s'.
Proof.
  intros [Et Er] [H1 H2]. split; [by apply (task_ok_ext s)|]. intros t1 t2 k. rewrite Et. apply H2.
Qed.

Lemma admission_of_same {A} (m : DB A) : steps same_tasks m → preserves admission_ok m.
Proof. intros Hm s. apply admission_ok_ext, Hm. Qed.

Lemma keys_unique_update s s' p f :
  (∀ t, Task_SpaceID (f t) = Task_SpaceID t ∧ Task_AdmissionKey (f t) = Task_AdmissionKey t) →
  st_tasks s' = update_where p f (st_tasks s) → keys_unique s → keys_unique s'.
Proof.
  intros Hf Et Hu t1 t2 k. rewrite Et.
  intros (t1' & H1 & ->)%elem_of_update_where (t2' & H2 & ->)%elem_of_update_where Esp E1 E2.
  assert (t1' = t2') as ->; [|done].
  assert (∀ t, Task_SpaceID (if p t then f t else t) = Task_SpaceID t ∧
    Task_AdmissionKey (if p t then f t else t) = Task_AdmissionKey t) as Hk by (intros t; destruct (p t); auto).
  apply (Hu t1' t2' k); [done|done| | |];
    [rewrite <- (proj1 (Hk t1')), <- (proj1 (Hk t2')); done|rewrite <- (proj2 (Hk t1')); done|
     rewrite <- (proj2 (Hk t2')); done].
Qed.

Lemma admission_created in_ task run s s' : created in_ task run s s' → admission_ok s → admission_ok s'.
Proof. intros Hc [H1 H2]. split; [by eapply task_ok_created|by eapply keys_unique_created]. Qed.

Lemma admission_extended id in_ run s s' : extended id in_ run s s' → admission_ok s → admission_ok s'.
Proof.
  intros Hx [H1 H2]. split; [by eapply task_ok_extended|].
  eapply keys_unique_update; [|by apply (xr_tasks _ _ _ _ _ Hx)|done]. intros t. done.
Qed.

Lemma preserves_transaction_ok {A} (m : DB A) :
  (∀ s a s', admission_ok s → m s = (Ok a, s') → admission_ok s') → preserves admission_ok (transaction m).
Proof.
  intros Hm s Hs. unfold transaction. destruct (m s) as [[a|e] s'] eqn:E; [by eapply Hm|].
  by apply (admission_ok_ext s).
Qed.

Lemma preserves_asNotFound {A} (I : Store → Prop) (m : DB A) : preserves I m → preserves I (asNotFound m).
Proof. intros Hm. apply preserves_catch; [done|]. intros e. apply preserves_fail. Qed.

Lemma preserves_createTx in_ s0 rows s1 :
  newTaskRows session in_ s0 = (Ok rows, s1) →
  preserves admission_ok (transaction (createTaskAndRunTx gen in_ rows.1 rows.2)).
Proof.
  intros Hrows. apply preserves_transaction_ok. intros s [task run] s' Hok Hc.
  eapply admission_created; [|exact Hok]. by eapply createTaskAndRunTx_ok.
Qed.

Lemma preserves_newTaskRows_then {A} in_ (k : Task * coretask.Run → DB A) :
  (∀ s0 rows s1, newTaskRows session in_ s0 = (Ok rows, s1) → preserves admission_ok (k rows)) →
  preserves admission_ok (rows ← newTaskRows session in_; k rows).
Proof.
  intros Hk s Hs. unfold mbind, eff_bind.
  destruct (newTaskRows session in_ s) as [[rows|e] s1] eqn:Hrows; [|done].
  pose proof (newTaskRows_same _ _ _ _ _ Hrows) as ->. by apply (Hk _ _ _ Hrows s).
Qed.

Lemma preserves_CreateTask in_ : preserves admission_ok (CreateTask gen session in_).
Proof.
  apply preserves_newTaskRows_then. intros s0 rows s1 Hrows.
  apply preserves_bind; [by eapply preserves_createTx|]. intros; apply preserves_ret.
Qed.

Lemma preserves_admitWorkflowNodeTask in_ : preserves admission_ok (admitWorkflowNodeTask gen session in_).
Proof.
  apply preserves_asNotFound, preserves_transaction_ok. intros s o s' Hok H.
  apply admitNodeTaskTx_ok in H as [(-> & _)|(node & task & _ & Hna)]; [done|].
  destruct Hna as [_ _ _ (trun & s1 & f & Hcr & -> & _)].
  apply (admission_ok_ext s1); [done|by eapply admission_created].
Qed.

Lemma preserves_AdmitTask between in_ :
  preserves admission_ok between → preserves admission_ok (AdmitTask gen session between in_).
Proof.
  intros Hb. unfold AdmitTask, taskdb.AdmitTask. case_bool_decide; [apply preserves_fail|].
  case_bool_decide; cbn [negb]; [|apply preserves_admitWorkflowNodeTask].
  apply preserves_bind; [apply preserves_gets|].
  assert (∀ t fp, preserves admission_ok (admittedTaskOrConflict t fp)) as Hadm by (intros; apply admittedTaskOrConflict_preserves).
  intros [t|]; [apply Hadm|]. apply preserves_newTaskRows_then. intros s0 rows s1 Hrows.
  apply preserves_bind; [exact Hb|]. intros _. apply preserves_catch.
  - apply preserves_bind; [by eapply preserves_createTx|]. intros; apply preserves_ret.
  - intros e. case_bool_decide; [|apply preserves_fail].
    apply preserves_bind; [apply preserves_gets|]. intros [t|]; [apply Hadm|apply preserves_fail].
Qed.

Lemma preserves_CreateTaskRun in_ : preserves admission_ok (CreateTaskRun gen in_).
Proof.
  unfold CreateTaskRun, taskdb.CreateTaskRun. case_bool_decide; cbn [negb].
  - apply preserves_transaction_ok. intros s r s' Hok Hr.
    apply createTaskRunTx_ok in Hr as [(-> & _)|[Hx _]]; [done|by eapply admission_extended].
  - apply preserves_asNotFound, preserves_transaction_ok. intros s r s' Hok Hr.
    apply admitNodeRetryTx_ok in Hr as [(-> & _)|(node & Hna)]; [done|].
    destruct Hna as [_ _ (s1 & f & [(-> & _)|Hx] & -> & _)]; [by apply (admission_ok_ext s)|].
    apply (admission_ok_ext s1); [done|by eapply admission_extended].
Qed.

Lemma preserves_TransitionTaskRun in_ : preserves admission_ok (TransitionTaskRun in_).
Proof.
  intros s [Hok Hu]. split; [by apply TransitionTaskRun_preserves|].
  destruct (TransitionTaskRun in_ s) as [[b|e] s'] eqn:E; cbn.
  - apply TransitionTaskRun_ok in E as [_ [(_ & -> & _)|(_ & run & Ht)]]; [done| |apply Hok].
    eapply keys_unique_update; [|by apply (tr_tasks _ _ _ _ Ht)|done].
    intros t. unfold projectRun. destruct (coretask.Run_SessionID _); done.
  - revert E. unfold TransitionTaskRun. destruct (negb _); [by intros [= <- <-]|].
    by intros [n ->]%transaction_err.
Qed.

(** Writes to runs that leave what the task mirrors. *)
Lemma preserves_touch_runs p f : (∀ r, same_face r (f r)) → preserves admission_ok (update_taskruns p f).
Proof. intros Hf s [Hok Hu]. split; [by apply preserves_touch|done]. Qed.

Lemma preserves_RequestTaskRunCancel id by_ reason at_ :
  preserves admission_ok (RequestTaskRunCancel id by_ reason at_).
Proof.
  intros s [Hok Hu]. split; [by apply RequestTaskRunCancel_preserves|].
  unfold RequestTaskRunCancel, lookupKey. eff_unfold. case_bool_decide; cbn; [done|].
  destruct (resolves s _ _); cbn; done.
Qed.
End Tasks.

(** ** Programs *)

Section Programs.
(** The n-th [util.NewPublicID] and [session.NewID]. *)
Context (gen session : nat → string).

Inductive store_program : ∀ {A : Type}, DB A → Prop :=
(** control *)
| sp_ret {A} (a : A) : store_program (mret a)
| sp_fail {A} (e : error) : store_program (@fail error Store A e)
| sp_read {A} (m : DB A) : (∀ s, (m s).2 = s) → store_program m
| sp_bind {A B} (m : DB A) (k : A → DB B) :
    store_program m → (∀ a, store_program (k a)) → store_program (m ≫= k)
| sp_catch {A} (m : DB A) (h : error → DB A) :
    store_program m → (∀ e, store_program (h e)) → store_program (catch m h)
(** the clock, and the tables other stores own *)
| sp_tick t : store_program (λ s, (Ok tt, s <| st_clock := t |>))
| sp_draw n : store_program (λ s, (Ok tt, s <| st_fresh := n |>))
| sp_others schedules deliveries conversations refs :
    store_program (λ s, (Ok tt, s <| st_schedules := schedules |> <| st_deliveries := deliveries |>
                                  <| st_conversations := conversations |> <| st_refs := refs |>))
| sp_ledger calls models tiers audit :
    store_program (λ s, (Ok tt, s <| st_calls := calls |> <| st_models := models |>
                                  <| st_tiers := tiers |> <| st_audit := audit |>))
(** internal/infra/db/task.go, task_run.go *)
| sp_CreateTask in_ : store_program (CreateTask gen session in_)
| sp_AdmitTask between in_ : store_program between → store_program (AdmitTask gen session between in_)
| sp_CreateTaskRun in_ : readmits in_ → store_program (CreateTaskRun gen in_)
| sp_TransitionTaskRun in_ : store_program (TransitionTaskRun in_)
| sp_RequestTaskRunCancel id by_ reason at_ : store_program (RequestTaskRunCancel id by_ reason at_)
| sp_RecordTaskRunAgentRevision id n : store_program (RecordTaskRunAgentRevision id n)
| sp_RecordTaskRunSpaceAgentInstructionsRevision id n :
    store_program (RecordTaskRunSpaceAgentInstructionsRevision id n)
| sp_RecordTaskRunPluginPins id a : store_program (RecordTaskRunPluginPins id a)
| sp_RecordTaskRunSandboxTiers id a b : store_program (RecordTaskRunSandboxTiers id a b)
| sp_RecordTaskRunFailureCause id a : store_program (RecordTaskRunFailureCause id a)
| sp_MarkTaskRunSeen id n : store_program (MarkTaskRunSeen id n)
| sp_ClearTaskRunTracePath id : store_program (ClearTaskRunTracePath id)
| sp_UpdateTaskRunWorkerInfo id w n t : store_program (UpdateTaskRunWorkerInfo id w n t)
(** internal/infra/db/workflow.go, workflow_request.go *)
| sp_CreateWorkflow a b c d e : store_program (CreateWorkflow gen a b c d e)
| sp_UpdateWorkflow between id sp in_ :
    store_program between → store_program (UpdateWorkflow between id sp in_)
| sp_CreateWorkflowRun in_ : store_program (CreateWorkflowRun gen in_)
| sp_CreateWorkflowNodeRuns id l : store_program (CreateWorkflowNodeRuns gen id l)
| sp_TransitionWorkflowRun in_ : store_program (TransitionWorkflowRun in_)
| sp_TransitionWorkflowNodeRun in_ : store_program (TransitionWorkflowNodeRun in_)
| sp_BeginWorkflowRunDrain in_ : store_program (BeginWorkflowRunDrain in_)
| sp_StopWorkflowRun in_ : store_program (StopWorkflowRun in_)
| sp_ClaimWorkflowRunLease in_ : store_program (ClaimWorkflowRunLease in_)
| sp_RenewWorkflowRunLease in_ : store_program (RenewWorkflowRunLease in_)
| sp_ReleaseWorkflowRunLease in_ : store_program (ReleaseWorkflowRunLease in_)
| sp_SettleWorkflowReport id a b : store_program (SettleWorkflowReport id a b)
| sp_OpenWorkflowRequest in_ : store_program (OpenWorkflowRequest gen in_)
| sp_ResolveWorkflowRequest in_ : store_program (ResolveWorkflowRequest in_).

(** Of the two left out: they touch no row whose lifecycle [evolves] follows. *)
Lemma steps_UpdateTask in_ : steps evolves (UpdateTask in_).
Proof. intros s. by_frame. Qed.

Lemma steps_ClaimTask expected in_ : steps evolves (ClaimTask expected in_).
Proof. intros s. by_frame. Qed.

Lemma store_program_evolves {A} (m : DB A) : store_program m → steps evolves m.
Proof.
  induction 1; try (intros s; by_frame);
    eauto using steps_bind, steps_catch, steps_CreateTask, steps_AdmitTask, steps_CreateTaskRun,
      steps_TransitionTaskRun, steps_RequestTaskRunCancel, steps_UpdateTaskRunWorkerInfo,
      steps_CreateWorkflow, steps_UpdateWorkflow, steps_CreateWorkflowRun, steps_CreateWorkflowNodeRuns,
      steps_TransitionWorkflowRun, steps_TransitionWorkflowNodeRun, steps_BeginWorkflowRunDrain,
      steps_StopWorkflowRun, steps_ClaimWorkflowRunLease, steps_RenewWorkflowRunLease,
      steps_ReleaseWorkflowRunLease, steps_SettleWorkflowReport, steps_OpenWorkflowRequest,
      steps_ResolveWorkflowRequest with typeclass_instances.
  all: try (apply steps_touch_taskruns; intros r; by repeat split).
  intros s. by rewrite H.
Qed.

Lemma store_program_admission {A} (m : DB A) : store_program m → preserves admission_ok m.
Proof.
  induction 1; try (intros s [H1 H2]; split; [by apply (task_ok_ext s)|done]);
    eauto using preserves_ret, preserves_fail, preserves_bind, preserves_catch, preserves_CreateTask,
      preserves_AdmitTask, preserves_CreateTaskRun, preserves_TransitionTaskRun,
      preserves_RequestTaskRunCancel.
  all: try (apply preserves_touch_runs; intros r; by repeat split).
  all: try (apply admission_of_same;
    first [apply same_tasks_CreateWorkflow | apply same_tasks_CreateWorkflowRun
          | apply same_tasks_CreateWorkflowNodeRuns | apply same_tasks_TransitionWorkflowRun
          | apply same_tasks_TransitionWorkflowNodeRun | apply same_tasks_BeginWorkflowRunDrain
          | apply same_tasks_StopWorkflowRun | apply same_tasks_OpenWorkflowRequest
          | apply same_tasks_ResolveWorkflowRequest
          | unfold ClaimWorkflowRunLease, RenewWorkflowRunLease, ReleaseWorkflowRunLease,
              SettleWorkflowReport, change_runs; solve [tasks_walk]]).
  - intros s. by rewrite H.
  - apply preserves_touch_runs. intros r. destruct n, t; by repeat split.
  - unfold UpdateWorkflow. apply preserves_bind; [apply preserves_gets|]. intros [w|]; [|apply preserves_ret].
    case_bool_decide; cbn [negb]; [|apply preserves_ret]. destruct (same_content _ _); [apply preserves_ret|].
    cbv zeta. apply preserves_bind; [apply preserves_gets|]. intros t. apply preserves_bind; [done|]. intros _.
    apply preserves_bind; [apply admission_of_same, same_tasks_updateWorkflowTx|].
    intros []; [apply preserves_gets|apply preserves_fail].
Qed.
End Programs.
