(* ===== verification/TaskService.v ===== *)
(** * TaskService: creating, continuing, retrying and canceling Tasks

    internal/service/task/service.go and cancel.go over the stores, and the
    part of the service the workflow reconciler calls, as an interface. *)

From S2P Require Import Prelude Text Json TaskCore WorkflowCore WorkflowDefinition Store TaskStore.
From S2P Require Import WorkflowStore.
From stdpp Require Import gmap.
Import db.

Module taskservice.
Import coretask.
Import agentdef.
Local Open Scope string_scope.

(** ** Commands *)

Record CreateTaskCmd : Type := mkCreateTaskCmd {
  CTC_ConversationID : string;
  CTC_UserID : string;
  CTC_SpaceID : string;
  CTC_Input : string;
  CTC_AgentID : option string;
  CTC_IssueID : option string;
  CTC_ScheduleID : option string;
  CTC_CreatedByType : string;
  CTC_TriggerSource : string;
  CTC_SourceMessageID : option string;
  CTC_AdmissionKey : string;
  CTC_WorkflowNodeRunID : string;
  CTC_OutputSchema : option string;
  CTC_RequestedBy : string;
  CTC_AssistantID : string;
  CTC_AssistantRevision : Z
}.
#[export] Instance CreateTaskCmd_updatable : Updatable CreateTaskCmd := λ r,
  mkCreateTaskCmd (CTC_ConversationID r) (CTC_UserID r) (CTC_SpaceID r) (CTC_Input r) (CTC_AgentID r)
    (CTC_IssueID r) (CTC_ScheduleID r) (CTC_CreatedByType r) (CTC_TriggerSource r)
    (CTC_SourceMessageID r) (CTC_AdmissionKey r) (CTC_WorkflowNodeRunID r)
    (CTC_OutputSchema r) (CTC_RequestedBy r) (CTC_AssistantID r) (CTC_AssistantRevision r).

Record CreateRunCmd : Type := mkCreateRunCmd {
  CRC_UserID : string;
  CRC_TaskID : string;
  CRC_Input : string;
  CRC_CreatedByType : string;
  CRC_TriggerSource : string;
  CRC_RetryOfTaskRunID : option string;
  CRC_SourceMessageID : option string;
  CRC_IdempotencyKey : option string
}.
#[export] Instance CreateRunCmd_updatable : Updatable CreateRunCmd := λ r,
  mkCreateRunCmd (CRC_UserID r) (CRC_TaskID r) (CRC_Input r) (CRC_CreatedByType r) (CRC_TriggerSource r)
    (CRC_RetryOfTaskRunID r) (CRC_SourceMessageID r) (CRC_IdempotencyKey r).

Record RetryRunCmd : Type := mkRetryRunCmd {
  RRC_UserID : string;
  RRC_TaskID : string
}.
#[export] Instance RetryRunCmd_updatable : Updatable RetryRunCmd := λ r,
  mkRetryRunCmd (RRC_UserID r) (RRC_TaskID r).

Record WorkflowRetryCmd : Type := mkWorkflowRetryCmd {
  WRC_UserID : string;
  WRC_WorkflowRunID : string;
  WRC_WorkflowNodeRunID : string;
  WRC_NodeID : string;
  WRC_Attempt : Z;
  WRC_Previous : Run
}.
#[export] Instance WorkflowRetryCmd_updatable : Updatable WorkflowRetryCmd := λ r,
  mkWorkflowRetryCmd (WRC_UserID r) (WRC_WorkflowRunID r) (WRC_WorkflowNodeRunID r) (WRC_NodeID r)
    (WRC_Attempt r) (WRC_Previous r).

Record WorkflowAnswerCmd : Type := mkWorkflowAnswerCmd {
  WAC_UserID : string;
  WAC_WorkflowRunID : string;
  WAC_WorkflowNodeRunID : string;
  WAC_NodeID : string;
  WAC_RequestID : string;
  WAC_Attempt : Z;
  WAC_Asked : Run;
  WAC_Answer : string
}.
#[export] Instance WorkflowAnswerCmd_updatable : Updatable WorkflowAnswerCmd := λ r,
  mkWorkflowAnswerCmd (WAC_UserID r) (WAC_WorkflowRunID r) (WAC_WorkflowNodeRunID r) (WAC_NodeID r)
    (WAC_RequestID r) (WAC_Attempt r) (WAC_Asked r) (WAC_Answer r).

(** ** Refusals *)

Definition ErrInputRequired := ErrService "input required".
Definition ErrInputTooLong := ErrService "input is too long".
Definition ErrAgentNotFound := ErrService "agent not found".
Definition ErrTaskNotFound := ErrService "task not found".
Definition ErrNoRunToRetry := ErrService "this task has no finished run to retry".
Definition ErrRetryOfWorkflowStep :=
  ErrService "this run belongs to a workflow step and cannot be retried on its own".
Definition ErrContinueOfWorkflowStep :=
  ErrService "this task belongs to a workflow step: answer or follow up from its workflow run".
(** A nil pointer dereferenced. *)
Definition panic := ErrService "nil pointer".

(** ** Pure helpers *)

Definition defaultTitleRunes : Z := 50.
Definition maxTaskInputBytes : Z := 65535.
Definition RunTriggerSourceTaskCreate : string := "task_create".
Definition RunTriggerSourceTaskRerun : string := "task_rerun".
Definition RunTriggerSourceTaskRetry : string := "task_retry".

Definition newline : string := String (Ascii.ascii_of_nat 10) EmptyString.

Definition blankInput (input : string) : bool := TrimSpace input == "".

Definition buildTaskInputFromAgent (agent : Agent) (userInput : string) : string :=
  let out := "Agent: " +:+ Ag_Name agent +:+ newline +:+ "Description: " +:+ Ag_Description agent
             +:+ newline +:+ "Instructions:" +:+ newline +:+ Ag_Instructions agent in
  if userInput != "" then out +:+ newline +:+ newline +:+ userInput else out.

Definition truncateTaskTitle (input : string) (maxRunes : Z) : string := util.TruncateRunes input maxRunes.

Definition normalizeCreateTaskProvenance (createdByType triggerSource : string) : string * string :=
  (if createdByType == "" then RunCreatedByTypeUser else createdByType,
   if triggerSource == "" then RunTriggerSourceTaskCreate else triggerSource).

Definition normalizeCreateRunProvenance (createdByType triggerSource : string) : string * string :=
  (if createdByType == "" then RunCreatedByTypeUser else createdByType,
   if triggerSource == "" then RunTriggerSourceTaskRerun else triggerSource).

Section Service.
(** The ids the stores draw, what other processes commit between two calls,
    and the collaborators of [Service]: the agent store as the database
    stands, an optional quota checker (its answer the refusal's reason) and an
    optional title generator. *)
Context (gen session : nat → string) (others : db.Store → db.Store).
Context (agents : db.Store → agentdef.Store error).
Context (QuotaChecker : option (db.Store → string → Z → Z → res error (option string))).
Context (TitleGenerator : option (string → res error (string * Z * Z))).
(** Whether the service can ask which tasks are workflow steps. *)
Context (WorkflowSteps : bool).

Local Notation call := (after others).

Definition readAgent (agentID : string) : DB (option Agent) :=
  call (λ s, (@GetAgent _ (agents s) agentID, s)).

Definition resolveInput (spaceID input : string) (agentID : option string)
    : DB (string * option string * option Agent) :=
  if util.ExceedsByteLimit input maxTaskInputBytes then fail ErrInputTooLong
  else
    match ref_of agentID with
    | None => if blankInput input then fail ErrInputRequired else mret (input, None, None)
    | Some id =>
        found ← readAgent id;
        match found with
        | None => fail ErrAgentNotFound
        | Some agent =>
            if Ag_SpaceID agent != spaceID then fail ErrAgentNotFound
            else if negb (blankInput input) then mret (input, agentID, Some agent)
            else mret (buildTaskInputFromAgent agent "", agentID, Some agent)
        end
    end.

Definition resolveTitle (input fallback : string) : string * Z * Z :=
  let title := truncateTaskTitle fallback defaultTitleRunes in
  match TitleGenerator with
  | None => (title, 0%Z, 0%Z)
  | Some GenerateTitle =>
      match GenerateTitle input with
      | Ok (genTitle, promptTokens, completionTokens) =>
          if genTitle == "" then (title, 0%Z, 0%Z) else (genTitle, promptTokens, completionTokens)
      | Err _ => (title, 0%Z, 0%Z)
      end
  end.

Definition checkQuota (spaceID : string) (tokens : Z) : DB unit :=
  match QuotaChecker with
  | None => mret tt
  | Some Check =>
      if spaceID == "" then mret tt
      else
        refusal ← call (λ s, (Check s spaceID 1%Z tokens, s));
        match refusal with
        | None => mret tt
        | Some reason => fail (ErrService reason)
        end
  end.

Definition Admits (spaceID : string) : DB unit := checkQuota spaceID 0.

Definition buildCreateInput (cmd : CreateTaskCmd) : DB CreateInput :=
  resolved ← resolveInput (CTC_SpaceID cmd) (CTC_Input cmd) (CTC_AgentID cmd);
  let '(input, agentID, selectedAgent) := resolved in
  _ ← checkQuota (CTC_SpaceID cmd) 0;
  let '(createdByType, triggerSource) :=
    normalizeCreateTaskProvenance (CTC_CreatedByType cmd) (CTC_TriggerSource cmd) in
  let fallbackTitle := match selectedAgent with
                       | Some agent => if blankInput (CTC_Input cmd) then Ag_Name agent else input
                       | None => input
                       end in
  let '(title, promptTokens, completionTokens) := resolveTitle input fallbackTitle in
  mret {|
    CI_ConversationID := CTC_ConversationID cmd;
    CI_SpaceID := CTC_SpaceID cmd;
    CI_Input := input;
    CI_Title := title;
    CI_CreatedBy := CTC_UserID cmd;
    CI_InitialRunCreatedBy := CTC_UserID cmd;
    CI_InitialRunCreatedByType := createdByType;
    CI_InitialRunTriggerSource := triggerSource;
    CI_InitialRunSourceMessageID := CTC_SourceMessageID cmd;
    CI_TitlePromptTokens := promptTokens;
    CI_TitleCompletionTokens := completionTokens;
    CI_AgentID := agentID;
    CI_InitialRunAgentRevision := Ag_Revision <$> selectedAgent;
    CI_InitialRunSandboxNetworkTier := Ag_SandboxNetworkTier <$> selectedAgent;
    CI_InitialRunSandboxFilesystemTier := Ag_SandboxFilesystemTier <$> selectedAgent;
    CI_IssueID := CTC_IssueID cmd;
    CI_ScheduleID := CTC_ScheduleID cmd;
    CI_AdmissionKey := CTC_AdmissionKey cmd;
    CI_WorkflowNodeRunID := CTC_WorkflowNodeRunID cmd;
    CI_OutputSchema := CTC_OutputSchema cmd;
    CI_RequestedBy := CTC_RequestedBy cmd;
    CI_AssistantID := CTC_AssistantID cmd;
    CI_AssistantRevision := CTC_AssistantRevision cmd |}.

Definition CreateTask (cmd : CreateTaskCmd) : DB Task :=
  create ← buildCreateInput cmd;
  call (taskdb.CreateTask gen session create).

Definition AdmitWorkflowTask (cmd : CreateTaskCmd) : DB (option Task) :=
  if CTC_AdmissionKey cmd == "" then fail ErrAdmissionKeyRequired
  else
    create ← buildCreateInput cmd;
    call (workflowdb.AdmitTask gen session (λ s, (Ok tt, others s)) create).

Definition GetTaskInConversation (conversationID taskID : string) : DB Task :=
  t ← call (taskdb.GetTask taskID);
  match t with
  | Some t =>
      if default "" (Task_ConversationID t) == conversationID then mret t
      else fail (ErrService "task not found or not in this conversation")
  | None => fail (ErrService "task not found or not in this conversation")
  end.

Definition refuseWorkflowStep (taskID : string) (refusal : error) : DB unit :=
  if negb WorkflowSteps then mret tt
  else
    step ← call (workflowdb.GetWorkflowNodeRunByTaskID taskID);
    match step with
    | Some _ => fail refusal
    | None => mret tt
    end.

Definition CreateRun (cmd : CreateRunCmd) : DB Run :=
  if blankInput (CRC_Input cmd) then fail ErrInputRequired
  else if util.ExceedsByteLimit (CRC_Input cmd) maxTaskInputBytes then fail ErrInputTooLong
  else
    found ← call (taskdb.GetTask (CRC_TaskID cmd));
    match found with
    | None => fail ErrTaskNotFound
    | Some target =>
        _ ← refuseWorkflowStep (CRC_TaskID cmd) ErrContinueOfWorkflowStep;
        _ ← checkQuota (Task_SpaceID target) 0;
        pinned ← match ref_of (Task_AgentID target) with
                 | None => mret None
                 | Some id =>
                     agent ← readAgent id;
                     match agent with
                     | None => fail ErrAgentNotFound
                     | Some agent =>
                         if Ag_SpaceID agent != Task_SpaceID target then fail ErrAgentNotFound
                         else mret (Some agent)
                     end
                 end;
        let '(createdByType, triggerSource) :=
          normalizeCreateRunProvenance (CRC_CreatedByType cmd) (CRC_TriggerSource cmd) in
        call (workflowdb.CreateTaskRun gen {|
          CRI_TaskID := CRC_TaskID cmd;
          CRI_Input := CRC_Input cmd;
          CRI_CreatedBy := CRC_UserID cmd;
          CRI_CreatedByType := createdByType;
          CRI_TriggerSource := triggerSource;
          CRI_RetryOfTaskRunID := CRC_RetryOfTaskRunID cmd;
          CRI_SourceMessageID := CRC_SourceMessageID cmd;
          CRI_AgentRevision := Ag_Revision <$> pinned;
          CRI_SandboxNetworkTier := Ag_SandboxNetworkTier <$> pinned;
          CRI_SandboxFilesystemTier := Ag_SandboxFilesystemTier <$> pinned;
          CRI_IdempotencyKey := CRC_IdempotencyKey cmd;
          CRI_WorkflowNodeRunID := "";
          CRI_WorkflowNodeFrom := "";
          CRI_WorkflowAttempt := 0 |})
    end.

(** The new run and the one it repeats. *)
Definition RetryRun (cmd : RetryRunCmd) : DB (Run * Run) :=
  found ← call (taskdb.GetTask (RRC_TaskID cmd));
  match found with
  | None => fail ErrTaskNotFound
  | Some target =>
      _ ← refuseWorkflowStep (RRC_TaskID cmd) ErrRetryOfWorkflowStep;
      active ← call (taskdb.GetActiveTaskRunByTask (RRC_TaskID cmd));
      match active with
      | Some _ => fail ErrRunInProgress
      | None =>
          match Task_LastRunID target with
          | None => fail ErrNoRunToRetry
          | Some lastRunID =>
              previous ← call (taskdb.GetTaskRun lastRunID);
              match previous with
              | None => fail ErrNoRunToRetry
              | Some previous =>
                  if negb (RunStatusTerminal (Run_Status previous)) then fail ErrNoRunToRetry
                  else
                    run ← CreateRun {|
                      CRC_UserID := RRC_UserID cmd;
                      CRC_TaskID := RRC_TaskID cmd;
                      CRC_Input := Run_Input previous;
                      CRC_CreatedByType := RunCreatedByTypeUser;
                      CRC_TriggerSource := RunTriggerSourceTaskRetry;
                      CRC_RetryOfTaskRunID := Some (Run_ID previous);
                      CRC_SourceMessageID := None;
                      CRC_IdempotencyKey := None |};
                    mret (run, previous)
              end
          end
      end
  end.

(** A Workflow node's next run on the Task [previous] ran on, with its pins. *)
Definition admitWorkflowNodeRun (userID : string) (previous : Run) (in_ : CreateRunInput) : DB Run :=
  found ← call (taskdb.GetTask (Run_TaskID previous));
  match found with
  | None => fail ErrTaskNotFound
  | Some target =>
      _ ← checkQuota (Task_SpaceID target) 0;
      call (workflowdb.CreateTaskRun gen
        (in_ <| CRI_TaskID := Run_TaskID previous |>
             <| CRI_CreatedBy := userID |>
             <| CRI_CreatedByType := RunCreatedByTypeUser |>
             <| CRI_TriggerSource := RunTriggerSourceWorkflowStep |>
             <| CRI_AgentRevision := Run_AgentRevision previous |>
             <| CRI_SandboxNetworkTier := Run_SandboxNetworkTier previous |>
             <| CRI_SandboxFilesystemTier := Run_SandboxFilesystemTier previous |>))
  end.

(** What the two callers of [admitWorkflowNodeRun] set; the rest is zero. *)
Definition nodeRunInput (input : string) (retryOf : option string) (key nodeRunID : string)
    (from : coreworkflow.NodeRunStatus) (attempt : Z) : CreateRunInput := {|
  CRI_TaskID := ""; CRI_Input := input; CRI_CreatedBy := ""; CRI_CreatedByType := "";
  CRI_TriggerSource := ""; CRI_RetryOfTaskRunID := retryOf; CRI_SourceMessageID := None;
  CRI_AgentRevision := None; CRI_SandboxNetworkTier := None; CRI_SandboxFilesystemTier := None;
  CRI_IdempotencyKey := Some key; CRI_WorkflowNodeRunID := nodeRunID;
  CRI_WorkflowNodeFrom := coreworkflow.NodeRunStatus_string from; CRI_WorkflowAttempt := attempt |}.

Definition AdmitWorkflowRetryRun (cmd : WorkflowRetryCmd) : DB Run :=
  admitWorkflowNodeRun (WRC_UserID cmd) (WRC_Previous cmd)
    (nodeRunInput (Run_Input (WRC_Previous cmd)) (Some (Run_ID (WRC_Previous cmd)))
       (coreworkflow.TaskRunAdmissionKey (WRC_WorkflowRunID cmd) (WRC_NodeID cmd) (WRC_Attempt cmd))
       (WRC_WorkflowNodeRunID cmd) coreworkflow.NodeRunStatusRetryWait (WRC_Attempt cmd)).

Definition AdmitWorkflowAnswerRun (cmd : WorkflowAnswerCmd) : DB Run :=
  admitWorkflowNodeRun (WAC_UserID cmd) (WAC_Asked cmd)
    (nodeRunInput (WAC_Answer cmd) None
       (coreworkflow.TaskAdmissionKey (WAC_WorkflowRunID cmd) (WAC_NodeID cmd)
          +:+ "/request/" +:+ WAC_RequestID cmd)
       (WAC_WorkflowNodeRunID cmd) coreworkflow.NodeRunStatusWaiting (WAC_Attempt cmd)).

(** The task and run ids of a new background task. *)
Definition StartBackgroundTask (cmd : CreateTaskCmd) : DB (string * string) :=
  task ← CreateTask cmd;
  mret (Task_ID task, default "" (Task_LastRunID task)).

(** internal/service/task/cancel.go *)
Definition RequestRunCancel (runID userID reason : string) (at_ : Z) : DB bool :=
  _ ← call (taskdb.RequestTaskRunCancel runID userID reason at_);
  call (taskdb.TransitionTaskRun {|
    TRI_TaskRunID := runID; TRI_ExpectedStatus := RunStatusPending; TRI_NewStatus := RunStatusCanceled;
    TRI_StartedAt := None; TRI_EndedAt := Some at_; TRI_Output := None; TRI_Structured := None;
    TRI_Questions := None; TRI_ErrorMessage := Some "this run was canceled before it started";
    TRI_SessionID := None; TRI_PromptTokens := None; TRI_CompletionTokens := None;
    TRI_TracePath := None; TRI_CancelReason := None; TRI_FailureClass := "" |}).
End Service.

(** ** What the workflow reconciler asks of the service *)

Class TaskService := {
  ts_AdmitWorkflowTask : CreateTaskCmd → DB (option Task);
  ts_AdmitWorkflowRetryRun : WorkflowRetryCmd → DB Run;
  ts_AdmitWorkflowAnswerRun : WorkflowAnswerCmd → DB Run;
  ts_RequestRunCancel : string → string → string → Z → DB bool;
}.

(** The service itself, over the collaborators of its section. *)
Definition service (gen session : nat → string) (others : db.Store → db.Store)
    (agents : db.Store → agentdef.Store error)
    (QuotaChecker : option (db.Store → string → Z → Z → res error (option string)))
    (TitleGenerator : option (string → res error (string * Z * Z))) : TaskService := {|
  ts_AdmitWorkflowTask := AdmitWorkflowTask gen session others agents QuotaChecker TitleGenerator;
  ts_AdmitWorkflowRetryRun := AdmitWorkflowRetryRun gen others QuotaChecker;
  ts_AdmitWorkflowAnswerRun := AdmitWorkflowAnswerRun gen others QuotaChecker;
  ts_RequestRunCancel := RequestRunCancel others |}.

End taskservice.
