(* ===== verification/WorkflowSafety.v ===== *)
(** * WorkflowSafety: what the workflow store promises its callers

    The invariant of the database and the evolution of its rows under any
    program, the finality of a stop, the atomicity of a node's admission, the
    exclusion of a lease, the compare-and-set of an edit and the single
    resolution of a request. *)

From S2P Require Import Prelude Json TaskCore WorkflowCore Store TaskStore WorkflowStore WorkflowLifecycle.
From S2P Require Import StoreProgram.
From stdpp Require Import gmap.
Import db taskdb workflowdb.
Import coretask.
Import coreworkflow.

(** ** The invariant *)

(** Unique keys; a task mirrors its latest run, the only one that may be active,
    and an admission key names one task of its Space; a workflow's history is
    complete; a finished run holds no lease. *)
Record store_ok (s : Store) : Prop := {
  so_keys : keys_ok s;
  so_tasks : admission_ok s;
  so_history : history_ok (st_workflows s) (st_revisions s);
  so_leases : Forall lease_free (st_runs s);
}.

Lemma store_ok_program gen session {A} (m : DB A) s :
  store_program gen session m → store_ok s → store_ok (m s).2.
Proof.
  intros Hm [K T H L]. pose proof (store_program_evolves _ _ m Hm s) as Hev. split.
  - by eapply keys_ok_evolves.
  - by apply (store_program_admission gen session m Hm).
  - apply Hev; [apply K|done].
  - apply Hev; [apply K|done].
Qed.

(** C2: every program made of the store operations that services call keeps the
    database well formed: unique keys, each task mirroring its one possibly
    active run, admission keys that name one task, complete workflow histories,
    no lease on a finished run.  The programs leave out [UpdateTask] and
    [ClaimTask], which only the store's interface and its tests name and which
    break the mirroring ([ClaimTask_unmirrors]); and they add a run to a node's
    task only from retry_wait or waiting, as the callers do. *)
Theorem store_program_invariant (gen session : nat → string) A (m : DB A) (s : Store) :
  store_program gen session m → store_ok s → store_ok (m s).2.
Proof. apply store_ok_program. Qed.

(** C3: rows only move along their lifecycles.  Under any program of the store
    operations that services call a run keeps what it was created with, its
    status follows the transition table, its first failure class stays, and once
    finished nothing but its report changes; a node run and a request likewise,
    frozen once terminal or resolved; recorded revisions never change; a task
    run's status follows its own table.  The programs admit a node's next run
    only from retry_wait or waiting, the two statuses the callers pass: the store
    takes any status it is given and finds, so this is up to them. *)
Theorem store_program_lifecycle (gen session : nat → string) A (m : DB A) (s : Store) :
  store_program gen session m → store_ok s →
  (∀ r, r ∈ st_runs s → ∃ r', r' ∈ st_runs (m s).2 ∧ run_origin r' = run_origin r ∧
     rtc run_step (Run_Status r) (Run_Status r') ∧
     (run_stopped (Run_Status r) = true → Run_FailureClass_ r' = Run_FailureClass_ r) ∧
     (RunStatusTerminal (Run_Status r) = true → r' = r <| Run_ReportStatus_ := Run_ReportStatus_ r' |>)) ∧
  (∀ n, n ∈ st_nodes s → ∃ n', n' ∈ st_nodes (m s).2 ∧ node_origin n' = node_origin n ∧
     rtc node_step (NR_Status n) (NR_Status n') ∧
     (NodeRunStatusTerminal (NR_Status n) = true → n' = n)) ∧
  (∀ q, q ∈ st_requests s → ∃ q', q' ∈ st_requests (m s).2 ∧ request_origin q' = request_origin q ∧
     (Req_Status q ≠ RequestStatusPending → q' = q)) ∧
  (∃ new, st_revisions (m s).2 = st_revisions s ++ new) ∧
  (∀ r, r ∈ st_taskruns s → ∃ r', r' ∈ st_taskruns (m s).2 ∧ coretask.Run_ID r' = coretask.Run_ID r ∧
     coretask.Run_TaskID r' = coretask.Run_TaskID r ∧
     rtc taskrun_step (coretask.Run_Status r) (coretask.Run_Status r')).
Proof.
  intros Hm [K _ _ L]. destruct (store_program_evolves _ _ m Hm s) as [_ V2 V3 V4 V5 V6 _ _].
  destruct K as [_ K2 K3 K4 K5 K6]. rewrite Forall_forall in L. split_and!.
  - intros r Hr. destruct (table_evolves_row _ _ _ _ r K3 V3 Hr) as (r' & Hr' & [E1 E2 E3 E4]).
    exists r'. split_and!; [done..|]. by apply E4, L.
  - intros n Hn. destruct (table_evolves_row _ _ _ _ n K4 V4 Hn) as (n' & Hn' & [E1 E2 E3]). by exists n'.
  - intros q Hq. destruct (table_evolves_row _ _ _ _ q K5 V5 Hq) as (q' & Hq' & [E1 E2]). by exists q'.
  - destruct (V2 K2) as [_ (t1 & new & -> & H)]. exists new. f_equal. symmetry.
    by apply list_eq_Forall2.
  - intros r Hr. destruct (table_evolves_row _ _ _ _ r K6 V6 Hr) as (r' & Hr' & [E1 E2]).
    injection E1 as F1 F2 F3 F4. by exists r'.
Qed.

(** ** Stopping *)

(** Nothing of the run may start or be answered any more. *)
Definition quiet (id : string) (s : Store) : Prop :=
  (∀ n, n ∈ st_nodes s → NR_WorkflowRunID n = id →
     NR_Status n = NodeRunStatusRunning ∨ NodeRunStatusTerminal (NR_Status n) = true) ∧
  (∀ q, q ∈ st_requests s → Req_WorkflowRunID q = id → Req_Status q ≠ RequestStatusPending).

Lemma stop_rows_quiet id s : quiet id (stop_rows id s).
Proof.
  unfold stop_rows. split; cbn.
  - intros n (n1 & (n0 & Hn0 & ->)%elem_of_update_where & ->)%elem_of_update_where.
    destruct (bool_decide_reflect (NR_WorkflowRunID n0 = id)) as [E|E]; cbn [andb].
    + destruct (bool_decide_reflect (NR_Status n0 = NodeRunStatusPending)) as [Ep|Ep]; cbn.
      * rewrite (bool_decide_eq_true_2 (NR_WorkflowRunID n0 = id)) by done. cbn. auto.
      * rewrite (bool_decide_eq_true_2 (NR_WorkflowRunID n0 = id)) by done.
        case_bool_decide as Ew; cbn; [auto|]. intros _.
        rewrite !elem_of_cons, elem_of_nil in Ew. destruct (NR_Status n0); cbn; naive_solver.
    + rewrite (bool_decide_eq_false_2 (NR_WorkflowRunID n0 = id)) by done. done.
  - intros q (q0 & Hq0 & ->)%elem_of_update_where.
    destruct (bool_decide_reflect (Req_WorkflowRunID q0 = id)) as [E|E]; cbn [andb]; [|done].
    case_bool_decide; cbn; naive_solver.
Qed.

(** A stopped run never runs again. *)
Lemma stopped_stays s s' r r' :
  keys_ok s → evolves s s' → r ∈ st_runs s → run_stopped (Run_Status r) = true →
  r' ∈ st_runs s' → Run_ID r' = Run_ID r → run_stopped (Run_Status r') = true.
Proof.
  intros K Hev Hr Hs Hr' Eid.
  destruct (table_evolves_row _ _ _ _ r (key_runs _ K) (ev_runs _ _ Hev) Hr) as (r1 & Hr1 & [E1 E2 _ _]).
  injection E1 as F1 _ _ _ _ _ _ _ _.
  assert (r1 = r') as -> by (apply (NoDup_key Run_ID (st_runs s')); [apply (keys_ok_evolves _ _ Hev K)|done..|congruence]).
  by eapply run_stopped_rtc.
Qed.

Lemma stopped_not_running st : run_stopped st = true → st ≠ RunStatusRunning.
Proof. by destruct st. Qed.

Lemma stop_run_stopped in_ s r :
  stop_status (SRI_RunStatus_ in_) = true → r ∈ st_runs (stop_run in_ s) → Run_ID r = SRI_WorkflowRunID in_ →
  Run_Status r = SRI_RunStatus_ in_ ∧ run_stopped (Run_Status r) = true.
Proof.
  intros Hs. cbn. intros (r0 & Hr0 & ->)%elem_of_update_where. destruct (bool_decide_reflect (Run_ID r0 = SRI_WorkflowRunID in_)).
  - intros _. assert (Run_Status (stopRunUpdates (SRI_RunStatus_ in_) (SRI_ErrorMessage in_) (SRI_FailureClass_ in_) r0)
      = SRI_RunStatus_ in_) as E.
    { unfold stopRunUpdates. destruct (runStatusUpdates_keeps (SRI_RunStatus_ in_) None None (SRI_ErrorMessage in_) None r0)
        as (_ & E & _). by case_match. }
    split; [done|]. rewrite E. unfold run_stopped. by rewrite Hs.
  - done.
Qed.

(** C27: a stop is final.  Once [StopWorkflowRun] applies, no node of the run is
    left that could start and no request that could be answered; and whatever
    any program does afterwards, admitting a node's Task or next run, or opening
    a request, writes nothing: it fails, or returns what is already linked. *)
Theorem StopWorkflowRun_final (gen session : nat → string) A (m : DB A) (in_ : StopRunInput) (s s1 : Store) :
  store_program gen session m → keys_ok s → StopWorkflowRun in_ s = (Ok true, s1) →
  quiet (SRI_WorkflowRunID in_) s1 ∧
  let s2 := (m s1).2 in
  (∀ tin o s3, (∀ n, n ∈ st_nodes s2 → NR_ID n = coretask.CI_WorkflowNodeRunID tin →
       NR_WorkflowRunID n = SRI_WorkflowRunID in_) →
     admitWorkflowNodeTask gen session tin s2 = (Ok o, s3) → s3 = s2) ∧
  (∀ id rin o s3, (∀ n, n ∈ st_nodes s2 → NR_ID n = coretask.CRI_WorkflowNodeRunID rin →
       NR_WorkflowRunID n = SRI_WorkflowRunID in_) →
     admitWorkflowNodeRetryRun gen id rin s2 = (Ok o, s3) → s3 = s2) ∧
  (∀ oin o s3, ORI_WorkflowRunID oin = SRI_WorkflowRunID in_ →
     OpenWorkflowRequest gen oin s2 = (Ok o, s3) → s3 = s2).
Proof.
  intros Hm K Hstop.
  assert (stop_status (SRI_RunStatus_ in_) = true) as Hst.
  { unfold StopWorkflowRun in Hstop. by destruct (stop_status _). }
  assert (ValidRunStatusTransition (SRI_RunExpected in_) (SRI_RunStatus_ in_) = true) as Hv.
  { unfold StopWorkflowRun in Hstop. rewrite Hst in Hstop. cbn in Hstop. by destruct (ValidRunStatusTransition _ _). }
  pose proof (steps_StopWorkflowRun in_ s) as Hev1. rewrite Hstop in Hev1. cbn in Hev1.
  rewrite StopWorkflowRun_eq in Hstop by done.
  destruct (take_where _ _) as [run|] eqn:Et; [|done]. destruct (_ == _); [|done].
  injection Hstop as <-. apply take_where_Some in Et as [Hrun Erun%bool_decide_eq_true].
  pose proof (keys_ok_evolves _ _ Hev1 K) as K1.
  pose proof (store_program_evolves _ _ m Hm (stop_run in_ s)) as Hev2.
  assert (∃ r, r ∈ st_runs (stop_run in_ s) ∧ Run_ID r = SRI_WorkflowRunID in_) as (r1 & Hr1 & Er1).
  { destruct (table_evolves_row _ _ _ _ run (key_runs _ K) (ev_runs _ _ Hev1) Hrun) as (r1 & Hr1 & [E1 _ _ _]).
    injection E1 as F1 _ _ _ _ _ _ _ _. exists r1. split; [done|congruence]. }
  destruct (stop_run_stopped in_ s r1 Hst Hr1 Er1) as [_ Hs1].
  assert (∀ r, r ∈ st_runs (m (stop_run in_ s)).2 → Run_ID r = SRI_WorkflowRunID in_ → Run_Status r ≠ RunStatusRunning) as Hno.
  { intros r Hr Eid. apply stopped_not_running. eapply stopped_stays; [exact K1|exact Hev2|exact Hr1|done|done|congruence]. }
  split; [apply stop_rows_quiet|]. cbv zeta. split_and!.
  - intros tin o s3 Hnode H. apply asNotFound_ok in H. apply transaction_ok in H.
    apply admitNodeTaskTx_ok in H as [(-> & _)|(node & task & _ & [(r & wf & Hr & Eid & Est & _) (Hn & En & _) _ _])]; [done|].
    destruct (Hno r Hr); [|done]. rewrite Eid. by apply Hnode.
  - intros id rin o s3 Hnode H. apply asNotFound_ok in H. apply transaction_ok in H.
    apply admitNodeRetryTx_ok in H as [(-> & _)|(node & [(r & Hr & Eid & Est) (Hn & En & _) _])]; [done|].
    destruct (Hno r Hr); [|done]. rewrite Eid. by apply Hnode.
  - intros oin o s3 Eo H. unfold OpenWorkflowRequest, GetWorkflowRequest in H.
    destruct (negb _); [done|]. apply eff_bind_ok in H as (op & s4 & H4 & H).
    apply asNotFound_ok in H4. apply transaction_ok in H4.
    assert (s4 = (m (stop_run in_ s)).2) as ->.
    { apply openRequestTx_ok in H4 as [(q & _ & -> & _)|[(_ & -> & _)|(q & _ & Ho)]]; [done..|].
      destruct (op_run _ _ _ _ Ho) as (r & Hr & Eid & Est). destruct (Hno r Hr); [congruence|done]. }
    destruct op; [|by inv_eff H]. inv_eff H. done.
Qed.

(** ** Admission *)

Lemma take_where_key {R} (k : R → string) (t : list R) r :
  NoDup (map k t) → r ∈ t → take_where (λ x, k x == k r) t = Some r.
Proof.
  intros Hnd Hr. destruct (take_where _ t) as [r'|] eqn:E.
  - apply take_where_Some in E as [Hr' Ek%bool_decide_eq_true]. f_equal. by apply (NoDup_key k t).
  - apply (take_where_None _ _ E) in Hr. by rewrite bool_decide_eq_true_2 in Hr.
Qed.

Lemma take_key {R} (t : Store → list R) (k : R → string) v s r :
  NoDup (map k (t s)) → r ∈ t s → k r = v → take t (λ x, k x == v) s = (Ok r, s).
Proof. intros Hnd Hr <-. unfold take. eff_unfold. by rewrite take_where_key. Qed.

Lemma transaction_Ok {A} (m : DB A) s a s' : m s = (Ok a, s') → transaction m s = (Ok a, s').
Proof. intros H. unfold transaction. by rewrite H. Qed.

Lemma asNotFound_Ok {A} (m : DB A) s a s' : m s = (Ok a, s') → asNotFound m s = (Ok a, s').
Proof. intros H. unfold asNotFound, catch. by rewrite H. Qed.

Lemma asNotFound_transaction_err {A} (m : DB A) s e s' :
  asNotFound (transaction m) s = (Err e, s') → ∃ n, s' = s <| st_fresh := n |>.
Proof.
  unfold asNotFound, catch. destruct (transaction m s) as [[a|e1] s1] eqn:E; [done|].
  intros [= _ <-]. by eapply transaction_err.
Qed.

Lemma elem_of_update_where_key {R} (k : R → string) (f : R → R) t r :
  r ∈ t → f r ∈ update_where (λ x, k x == k r) f t.
Proof. intros Hr. apply elem_of_update_where. exists r. by rewrite bool_decide_eq_true_2. Qed.

Lemma TaskAdmissionKey_nonempty r n : TaskAdmissionKey r n ≠ ""%string.
Proof. done. Qed.

(** An admission to a node already linked returns its Task. *)
Lemma admitNodeTaskTx_linked gen session in_ s node run wf task :
  keys_ok s → task_ok s → node ∈ st_nodes s → NR_ID node = coretask.CI_WorkflowNodeRunID in_ →
  run ∈ st_runs s → Run_ID run = NR_WorkflowRunID node →
  wf ∈ st_workflows s → Wf_ID wf = Run_WorkflowID run →
  coretask.CI_SpaceID in_ = Wf_SpaceID wf →
  coretask.CI_AdmissionKey in_ = TaskAdmissionKey (NR_WorkflowRunID node) (NR_NodeID node) →
  task ∈ st_tasks s → NR_TaskID node = Some (coretask.Task_ID task) →
  coretask.Task_AdmissionFingerprint task = Some (coretask.AdmissionFingerprint in_) →
  admitNodeTaskTx gen session in_ s = (Ok (Some task), s).
Proof.
  intros K T Hn En Hr Er Hw Ew Esp Ekey Ht Et Ef. unfold admitNodeTaskTx, mbind, eff_bind.
  rewrite (take_key st_nodes NR_ID _ s node) by (done || apply K).
  rewrite (take_key st_runs Run_ID _ s run) by (done || apply K).
  rewrite (take_key st_workflows Wf_ID _ s wf) by (done || apply K).
  rewrite Esp, Ekey, Er, !bool_decide_eq_true_2 by done. cbn [negb orb]. rewrite Et.
  rewrite (take_key st_tasks coretask.Task_ID _ s task) by (done || apply T).
  rewrite bool_decide_eq_true_2 by done. cbn [negb]. by apply GetTask_unique.
Qed.

(** C28: admitting a node's Task is atomic and idempotent.  A failure leaves the
    tables as they were.  A success either returns the Task the node is already
    linked to, writing nothing, or found the run running and the node pending
    and leaves the node running, linked to a new Task and its new pending run.
    Admitting the same payload again returns the same Task and writes nothing. *)
Theorem admitWorkflowNodeTask_atomic (gen session : nat → string) (in_ : coretask.CreateInput) (s s' : Store) r :
  store_ok s → admitWorkflowNodeTask gen session in_ s = (r, s') →
  match r with
  | Err _ => ∃ n, s' = s <| st_fresh := n |>
  | Ok o =>
      admitWorkflowNodeTask gen session in_ s' = (Ok o, s') ∧
      ((s' = s ∧ ∃ node t, o = Some t ∧ node ∈ st_nodes s ∧ NR_ID node = coretask.CI_WorkflowNodeRunID in_ ∧
          NR_TaskID node = Some (coretask.Task_ID t)) ∨
       ∃ node node' task trun, o = Some task ∧
         node ∈ st_nodes s ∧ NR_ID node = coretask.CI_WorkflowNodeRunID in_ ∧ NR_Status node = NodeRunStatusPending ∧
         (∃ run, run ∈ st_runs s ∧ Run_ID run = NR_WorkflowRunID node ∧ Run_Status run = RunStatusRunning) ∧
         node' ∈ st_nodes s' ∧ node_origin node' = node_origin node ∧ NR_Status node' = NodeRunStatusRunning ∧
         NR_TaskID node' = Some (coretask.Task_ID task) ∧ NR_TaskRunID node' = Some (coretask.Run_ID trun) ∧
         st_tasks s' = st_tasks s ++ [task] ∧ st_taskruns s' = st_taskruns s ++ [trun] ∧
         coretask.Run_TaskID trun = coretask.Task_ID task ∧ coretask.Run_Status trun = coretask.RunStatusPending)
  end.
Proof.
  intros Hok H. destruct r as [o|e]; [|by eapply asNotFound_transaction_err].
  assert (store_ok s') as Hok'.
  { assert (s' = (admitWorkflowNodeTask gen session in_ s).2) as -> by (by rewrite H).
    destruct Hok as [K T Hh L]. pose proof (steps_admitWorkflowNodeTask gen session in_ s) as Hev. split.
    - by eapply keys_ok_evolves.
    - by apply preserves_admitWorkflowNodeTask.
    - apply Hev; [apply K|done].
    - apply Hev; [apply K|done]. }
  pose proof H as Hrun. unfold admitWorkflowNodeTask in Hrun.
  apply asNotFound_ok, transaction_ok in Hrun. pose proof Hrun as Hrun0.
  apply admitNodeTaskTx_ok in Hrun as [(-> & node & t & Hn & En & Et & Ht & Ef)|(node & task & -> & Hna)].
  - split; [done|]. left. split; [done|].
    assert (o = Some t) as ->; [|by exists node, t].
    unfold admitNodeTaskTx in Hrun0. apply eff_bind_ok in Hrun0 as (n0 & s1 & H1 & Hrun0).
    rewrite (take_key st_nodes NR_ID _ s node) in H1 by (done || apply Hok). injection H1 as <- <-.
    inv_eff Hrun0. destruct (_ || _) in Hrun0; [by inv_eff Hrun0|]. rewrite Et in Hrun0.
    apply eff_bind_ok in Hrun0 as (t0 & s1 & H1 & Hrun0).
    rewrite (take_key st_tasks coretask.Task_ID _ s t) in H1 by (done || apply Hok). injection H1 as <- <-.
    destruct (negb _); [by inv_eff Hrun0|]. rewrite GetTask_unique in Hrun0 by (done || apply Hok). by injection Hrun0.
  - destruct Hna as [(run & wf & Hr & Er & Est & Hw & Ew & Esp) (Hn & En & Ens & _) Ekey
      (trun & s1 & f & Hcr & -> & Hf)].
    destruct (created_tables _ _ _ _ _ Hcr) as (N1 & N2 & N3).
    destruct (Hf node) as (F1 & F2 & F3 & F4 & _).
    injection F1 as O1 O2 O3 _ _ _ _ _ _ _ _ _ _ _ _ _ _ _.
    pose proof (elem_of_update_where_key NR_ID f (st_nodes s) node Hn) as Hn'.
    destruct Hcr as [_ _ Et Etr _ _ Eo _ (Ers & _) (_ & _ & Efp) _ _].
    split.
    + apply asNotFound_Ok, transaction_Ok.
      apply (admitNodeTaskTx_linked _ _ _ _ (f node) run wf); cbn; try done; try congruence; try apply Hok'.
      * rewrite Et. apply elem_of_app. right. by left.
      * by rewrite Efp, Ekey.
    + right. exists node, (f node), task, trun. split_and!; try done; [by exists run|apply Hf].
Qed.

(** ** Leases *)

Lemma change_runs_ok (p : Run → bool) f id s b s' :
  NoDup (map Run_ID (st_runs s)) → (∀ r, p r = true → Run_ID r = id) →
  change_runs p f s = (Ok b, s') →
  if b then ∃ r, r ∈ st_runs s ∧ p r = true ∧ f r ≠ r ∧ s' = s <| st_runs := update_where p f (st_runs s) |>
  else s' = s.
Proof.
  intros Hnd Hp H. unfold change_runs in H. inv_eff H.
  match goal with H1 : update_runs _ _ _ = _ |- _ => apply update_runs_ok in H1 as [_ ->] end.
  set (q := λ r, p r && (f r != r)) in *.
  assert (matching q (st_runs s) = 0 ∨ matching q (st_runs s) = 1) as [E|E].
  { apply (matching_key Run_ID id); [done|]. intros r [Hr _]%andb_true_iff. by apply Hp. }
  - rewrite E. cbn. assert (update_where p f (st_runs s) = st_runs s) as ->; [|by destruct s].
    unfold update_where. rewrite <- (map_id (st_runs s)) at 2. apply map_ext_in.
    intros r Hr%list_elem_of_In. pose proof (matching_zero _ _ E r Hr) as Hq. subst q. cbn in Hq.
    destruct (p r); [|done]. cbn in Hq. by apply negb_false_iff, bool_decide_eq_true in Hq.
  - rewrite E. cbn. destruct (matching_ex q (st_runs s)) as (r & Hr & [Hpr Hne]%andb_true_iff); [lia|].
    exists r. split_and!; [done|done| |done]. by apply negb_true_iff, bool_decide_eq_false in Hne.
Qed.

(** No row matches: the update is refused and writes nothing. *)
Lemma change_runs_none p f s :
  (∀ r, r ∈ st_runs s → p r = false) → change_runs p f s = (Ok false, s).
Proof.
  intros Hp. assert (∀ q, (∀ r, q r = true → p r = true) → matching q (st_runs s) = 0) as Hm.
  { intros q Hq. destruct (decide (matching q (st_runs s) = 0)) as [|Hne]; [done|].
    destruct (matching_ex q (st_runs s)) as (r & Hr & Hqr); [lia|]. apply Hq in Hqr. by rewrite Hp in Hqr. }
  unfold change_runs, update_runs. eff_unfold.
  rewrite (Hm (λ r, p r && (f r != r))) by (by intros r [? _]%andb_true_iff).
  rewrite update_where_none by (by apply Hm). by destruct s.
Qed.

(** A run may be claimed: it is live and unowned, or its lease has expired. *)
Definition claimable (now_ : Z) (r : Run) : Prop :=
  RunStatusTerminal (Run_Status r) = false ∧
  (Run_ReconcileOwner r = None ∨ time_arrived (Run_LeaseExpiresAt r) now_ = true).

(** A reconciliation lease excludes.  A claim that succeeds found the run
    live and unowned or expired and writes only its owner and expiry; one that
    fails writes nothing.  Until that expiry no other claim succeeds, whoever
    asks, and any other owner's renewal or release is refused without a write. *)
Lemma ClaimWorkflowRunLease_exclusive (in_ : ClaimLeaseInput) (s s' : Store) b :
  keys_ok s → ClaimWorkflowRunLease in_ s = (Ok b, s') →
  if b then
    (∃ r, r ∈ st_runs s ∧ Run_ID r = CL_WorkflowRunID in_ ∧ claimable (CL_Now in_) r ∧
       r <| Run_ReconcileOwner := Some (CL_Owner in_) |> <| Run_LeaseExpiresAt := Some (CL_LeaseExpiresAt in_) |>
         ∈ st_runs s') ∧
    (∀ r, r ∈ st_runs s → Run_ID r ≠ CL_WorkflowRunID in_ → r ∈ st_runs s') ∧
    (∀ other, CL_WorkflowRunID other = CL_WorkflowRunID in_ → (CL_Now other < CL_LeaseExpiresAt in_)%Z →
       ClaimWorkflowRunLease other s' = (Ok false, s')) ∧
    (∀ owner at_, owner ≠ CL_Owner in_ →
       RenewWorkflowRunLease (mkRenewLeaseInput (CL_WorkflowRunID in_) owner at_) s' = (Ok false, s')) ∧
    (∀ owner next, owner ≠ CL_Owner in_ →
       ReleaseWorkflowRunLease (mkReleaseLeaseInput (CL_WorkflowRunID in_) owner next) s' = (Ok false, s'))
  else s' = s.
Proof.
  intros K H. unfold ClaimWorkflowRunLease in H.
  eapply change_runs_ok in H; [|apply K|by intros r [[E%bool_decide_eq_true _]%andb_true_iff _]%andb_true_iff].
  destruct b; [|done]. destruct H as (r & Hr & Hp & Hne & ->).
  pose proof Hp as [[Eid%bool_decide_eq_true Hl]%andb_true_iff Ho]%andb_true_iff.
  rewrite run_live, negb_true_iff in Hl. apply orb_true_iff in Ho.
  assert (∀ r', r' ∈ update_where
      (λ r, (Run_ID r == CL_WorkflowRunID in_) && negb (bool_decide (Run_Status r ∈ TerminalRunStatuses))
            && (bool_decide (Run_ReconcileOwner r = None) || time_arrived (Run_LeaseExpiresAt r) (CL_Now in_)))
      (λ r, r <| Run_ReconcileOwner := Some (CL_Owner in_) |> <| Run_LeaseExpiresAt := Some (CL_LeaseExpiresAt in_) |>)
      (st_runs s) → Run_ID r' = CL_WorkflowRunID in_ →
    Run_ReconcileOwner r' = Some (CL_Owner in_) ∧ Run_LeaseExpiresAt r' = Some (CL_LeaseExpiresAt in_)) as Hall.
  { intros r' (r0 & Hr0 & ->)%elem_of_update_where E.
    assert (r0 = r) as -> by (apply (NoDup_key Run_ID (st_runs s)); [apply K|done..|];
      destruct (_ && _) in E; cbn in E; congruence).
    by rewrite Hp in *. }
  split_and!.
  - exists r. split_and!; [done|done| |].
    + split; [done|]. destruct Ho as [Ho|Ho]; [left; by apply bool_decide_eq_true in Ho|by right].
    + cbn. apply elem_of_update_where. exists r. by rewrite Hp.
  - cbn. intros r0 Hr0 E. apply elem_of_update_where. exists r0. by rewrite (bool_decide_eq_false_2 (Run_ID r0 = _)).
  - intros other E Hlt. apply change_runs_none. cbn. intros r' Hr'. rewrite E.
    destruct (bool_decide_reflect (Run_ID r' = CL_WorkflowRunID in_)) as [Er|]; [|done].
    destruct (Hall r' Hr' Er) as [-> ->]. cbn. rewrite (proj2 (Z.leb_gt _ _)) by done. by rewrite andb_false_r.
  - intros owner at_ Hne'. apply change_runs_none. cbn. intros r' Hr'.
    destruct (bool_decide_reflect (Run_ID r' = CL_WorkflowRunID in_)) as [Er|]; [|done].
    destruct (Hall r' Hr' Er) as [-> _]. rewrite bool_decide_eq_false_2; [done|congruence].
  - intros owner next Hne'. apply change_runs_none. cbn. intros r' Hr'.
    destruct (bool_decide_reflect (Run_ID r' = CL_WorkflowRunID in_)) as [Er|]; [|done].
    destruct (Hall r' Hr' Er) as [-> _]. rewrite bool_decide_eq_false_2; [done|congruence].
Qed.

(** ** Requests *)

(** Who may resolve a request, and when. *)
Definition resolvable (in_ : ResolveRequestInput) (q : Request) : Prop :=
  Req_Status q = RequestStatusPending ∧
  match RRI_Status in_ with
  | RequestStatusExpired => time_arrived (Req_ExpiresAt q) (RRI_Now in_) = true
  | RequestStatusAnswered | RequestStatusDeclined => time_arrived (Req_ExpiresAt q) (RRI_Now in_) = false
  | _ => False
  end.

Lemma ResolveWorkflowRequest_ok in_ s b s' :
  keys_ok s → ResolveWorkflowRequest in_ s = (Ok b, s') →
  if b then ∃ q f, q ∈ st_requests s ∧ Req_ID q = RRI_RequestID in_ ∧ resolvable in_ q ∧
         f q ∈ st_requests s' ∧ request_origin (f q) = request_origin q ∧ Req_Status (f q) = RRI_Status in_ ∧
         (RRI_Status in_ ≠ RequestStatusExpired → Req_RespondedAt (f q) = Some (RRI_Now in_))
  else s' = s ∧ ∀ q, q ∈ st_requests s → Req_ID q = RRI_RequestID in_ → ¬ resolvable in_ q.
Proof.
  intros K H.
  assert (∃ g f, s' = s <| st_requests := update_where g f (st_requests s) |> ∧
    b = (matching g (st_requests s) =? 1)%nat ∧
    (∀ q, g q = true ↔ Req_ID q = RRI_RequestID in_ ∧ resolvable in_ q) ∧
    (∀ q, request_origin (f q) = request_origin q ∧ Req_Status (f q) = RRI_Status in_ ∧
       (RRI_Status in_ ≠ RequestStatusExpired → Req_RespondedAt (f q) = Some (RRI_Now in_))))
    as (g & f & -> & -> & Hg & Hf).
  { unfold ResolveWorkflowRequest, resolvable in *. cbv zeta in H. destruct (RRI_Status in_) eqn:Est; inv_eff H; try done.
    all: match goal with H1 : update_requests _ _ _ = _ |- _ => apply update_requests_ok in H1 as [-> ->] end.
    all: eexists _, _; split_and!; [reflexivity|reflexivity| |].
    all: try (intros q; rewrite !andb_true_iff, !bool_decide_eq_true; try tauto).
    all: try (intros q; split_and!; by skip_updates).
    all: rewrite orb_true_iff, negb_true_iff, bool_decide_eq_true.
    all: unfold time_arrived; destruct (Req_ExpiresAt q); naive_solver. }
  assert (matching g (st_requests s) = 0 ∨ matching g (st_requests s) = 1) as [E|E].
  { apply (matching_key Req_ID (RRI_RequestID in_)); [apply K|]. intros q Hq. by apply Hg in Hq as []. }
  - rewrite E. cbn. rewrite update_where_none by done. split; [by destruct s|].
    intros q Hq Eid Hres. pose proof (matching_zero _ _ E q Hq) as Hfalse.
    rewrite (proj2 (Hg q)) in Hfalse by done. done.
  - rewrite E. cbn. destruct (matching_ex g (st_requests s)) as (q & Hq & Hgq); [lia|].
    pose proof (proj1 (Hg q) Hgq) as [Eid Hres]. destruct (Hf q) as (F1 & F2 & F3).
    exists q, f. split_and!; try done. apply elem_of_update_where. exists q. by rewrite Hgq.
Qed.

(** a request is resolved once.  A resolution applies exactly when the
    request is pending and in time (answers and declines before its expiry,
    expiry after it); from then on the request keeps that resolution under any
    program, and every later resolution is refused and writes nothing. *)
Lemma ResolveWorkflowRequest_once (gen session : nat → string) A (m : DB A) (in_ : ResolveRequestInput)
    (s s1 : Store) b :
  store_program gen session m → keys_ok s → ResolveWorkflowRequest in_ s = (Ok b, s1) →
  if b then
    ∃ q q', q ∈ st_requests s ∧ Req_ID q = RRI_RequestID in_ ∧ resolvable in_ q ∧
      Req_Status q' = RRI_Status in_ ∧ request_origin q' = request_origin q ∧
      q' ∈ st_requests s1 ∧ q' ∈ st_requests (m s1).2 ∧
      (∀ again r s3, RRI_RequestID again = RRI_RequestID in_ →
         ResolveWorkflowRequest again (m s1).2 = (Ok r, s3) → r = false ∧ s3 = (m s1).2)
  else s1 = s ∧ ∀ q, q ∈ st_requests s → Req_ID q = RRI_RequestID in_ → ¬ resolvable in_ q.
Proof.
  intros Hm K H. pose proof (steps_ResolveWorkflowRequest in_ s) as Hev. rewrite H in Hev. cbn in Hev.
  pose proof (ResolveWorkflowRequest_ok _ _ _ _ K H) as Hr. destruct b; [|done].
  destruct Hr as (q & f & Hq & Eid & Hres & Hq1 & Eo & Est & _).
  pose proof (keys_ok_evolves _ _ Hev K) as K1.
  pose proof (store_program_evolves _ _ m Hm s1) as Hev2.
  assert (Req_Status (f q) ≠ RequestStatusPending) as Hnp.
  { rewrite Est. destruct Hres as [_ Hres]. by destruct (RRI_Status in_). }
  destruct (table_evolves_row _ _ _ _ (f q) (key_requests _ K1) (ev_requests _ _ Hev2) Hq1) as (q2 & Hq2 & [_ E2]).
  rewrite (E2 Hnp) in Hq2.
  exists q, (f q). split_and!; try done. intros again r s3 Ea Hagain.
  pose proof (keys_ok_evolves _ _ Hev2 K1) as K2.
  pose proof (ResolveWorkflowRequest_ok _ _ _ _ K2 Hagain) as Hr. destruct r; [|by destruct Hr].
  exfalso. destruct Hr as (q3 & f3 & Hq3 & Eid3 & [Hp3 _] & _).
  injection Eo as F1 _ _ _ _ _ _ _ _ _ _.
  assert (q3 = f q) as -> by (apply (NoDup_key Req_ID (st_requests (m s1).2)); [apply K2|done..|congruence]). done.
Qed.

(** ** Edits *)

Lemma updateWorkflowTx_not_conflict id in_ up s e s' :
  updateWorkflowTx id in_ up s = (Err e, s') → e ≠ ErrRevisionConflict.
Proof.
  unfold updateWorkflowTx, transaction, lookupKey, update_workflows, appendWorkflowRevision, now. eff_unfold.
  destruct (resolves s "workflow" id); cbn; [|by intros [= <- _]].
  destruct (matching _ _ =? 0)%nat; cbn; [done|].
  destruct (resolves _ "user" _); cbn; [|by intros [= <- _]].
  destruct (existsb _ _); cbn; [by intros [= <- _]|done].
Qed.

(** The row an applied write leaves, as the read that follows returns it. *)
Lemma updated_row id in_ up s s' :
  NoDup (map Wf_ID (st_workflows s)) → updateWorkflowTx id in_ up s = (Ok true, s') →
  ∃ w, w ∈ st_workflows s ∧ Wf_ID w = id ∧ Wf_Revision w = UpI_ExpectedRevision in_ ∧
    overwrite up w ∈ st_workflows s' ∧ GetWorkflow id s' = (Ok (Some (overwrite up w)), s').
Proof.
  intros Hnd H. apply updateWorkflowTx_ok in H as [(? & _)|(_ & Hm & rev & -> & _)]; [done|].
  destruct (matching_ex _ _ (proj1 (Nat.neq_0_lt_0 _) Hm))
    as (w & Hw & [Ew%bool_decide_eq_true Ev%Z.eqb_eq]%andb_true_iff).
  assert (overwrite up w ∈ update_where
    (λ w, (Wf_ID w == id) && (Wf_Revision w =? UpI_ExpectedRevision in_)%Z) (overwrite up) (st_workflows s)) as Hin.
  { apply elem_of_update_where. exists w. by rewrite bool_decide_eq_true_2, Ev, Z.eqb_refl. }
  exists w. split_and!; [done..|].
  assert (NoDup (map Wf_ID (update_where
    (λ w, (Wf_ID w == id) && (Wf_Revision w =? UpI_ExpectedRevision in_)%Z) (overwrite up) (st_workflows s)))) as Hnd'
    by (by rewrite update_where_map).
  pose proof (take_where_key Wf_ID _ _ Hnd' Hin) as Ht.
  change (Wf_ID (overwrite up w)) with (Wf_ID w) in Ht. rewrite Ew in Ht.
  unfold GetWorkflow, gets. do 2 f_equal. exact Ht.
Qed.

(** What an edit answers with holds the content it asked for. *)
Lemma UpdateWorkflow_content between id sp in_ s s1 w' s' :
  NoDup (map Wf_ID (st_workflows s1)) → between s = (Ok tt, s1) →
  UpdateWorkflow between id sp in_ s = (Ok (Some w'), s') →
  Wf_ID w' = id ∧ ∃ w, w ∈ st_workflows s ∧ Wf_ID w = id ∧ Wf_SpaceID w = sp ∧ same_content w' (saved in_ w) = true.
Proof.
  intros Hnd Hb H. unfold UpdateWorkflow in H. apply eff_bind_ok in H as (o & s0 & [-> ->]%gets_ok & H).
  destruct (take_where _ (st_workflows s)) as [w|] eqn:Et; [|by inv_eff H].
  apply take_where_Some in Et as [Hw Eid%bool_decide_eq_true].
  destruct (bool_decide_reflect (Wf_SpaceID w = sp)) as [Esp|Esp]; cbn [negb] in H; [|by inv_eff H].
  destruct (same_content (saved in_ w) w) eqn:Esame.
  - apply ret_ok in H as [[= ->] ->]. split; [done|]. exists w. split_and!; [done..|].
    revert Esame. unfold same_content. rewrite !andb_true_iff, !bool_decide_eq_true. naive_solver.
  - cbv zeta in H. apply eff_bind_ok in H as (at_ & s0 & [-> ->]%gets_ok & H).
    apply eff_bind_ok in H as ([] & s0 & H1 & H). rewrite Hb in H1. injection H1 as <-.
    apply eff_bind_ok in H as (b & s2 & Htx & H). destruct b; [|by apply fail_ok in H].
    destruct (updated_row _ _ _ _ _ Hnd Htx) as (w1 & _ & E1 & _ & _ & Hget). rewrite Hget in H.
    injection H as <- <-. split; [done|]. exists w. split_and!; [done..|].
    unfold same_content. cbn. by rewrite !bool_decide_eq_true_2.
Qed.

(** an edit is a compare-and-set on the revision it started from.  It
    commits exactly when, at the write, the workflow is still at the expected
    revision: then the row holds the new content at the next revision and the
    history gained that revision, recorded by the editor.  Otherwise it is a
    conflict and writes nothing.  An edit that changes nothing appends no
    revision. *)
Lemma UpdateWorkflow_cas (gen session : nat → string) (between : DB unit) (id sp : string)
    (in_ : UpdateInput) (s s1 s' : Store) r :
  store_program gen session between → store_ok s → between s = (Ok tt, s1) →
  UpdateWorkflow between id sp in_ s = (r, s') →
  match r with
  | Ok None => s' = s ∧ ∀ w, w ∈ st_workflows s → Wf_ID w = id → Wf_SpaceID w ≠ sp
  | Ok (Some w') =>
      (s' = s ∧ w' ∈ st_workflows s ∧ Wf_ID w' = id ∧ same_content (saved in_ w') w' = true) ∨
      ∃ w w1 rev, w ∈ st_workflows s ∧ Wf_ID w = id ∧ w1 ∈ st_workflows s1 ∧ Wf_ID w1 = id ∧
        Wf_Revision w1 = UpI_ExpectedRevision in_ ∧
        w' ∈ st_workflows s' ∧ Wf_ID w' = id ∧ Wf_Revision w' = (UpI_ExpectedRevision in_ + 1)%Z ∧
        same_content w' (saved in_ w) = true ∧
        st_revisions s' = st_revisions s1 ++ [rev] ∧ Rev_WorkflowID rev = id ∧ records rev w' ∧
        Rev_CreatedBy rev = UpI_UpdatedBy in_
  | Err ErrRevisionConflict =>
      s' = s1 ∧ ∀ w, w ∈ st_workflows s1 → Wf_ID w = id → Wf_Revision w ≠ UpI_ExpectedRevision in_
  | Err _ => ∃ n, s' = s1 <| st_fresh := n |>
  end.
Proof.
  intros Hb Hok Hb1 H.
  assert (store_ok s1) as Hok1.
  { pose proof (store_ok_program gen session between s Hb Hok) as H1. by rewrite Hb1 in H1. }
  unfold UpdateWorkflow in H. unfold mbind at 1, eff_bind at 1, GetWorkflow, gets at 1 in H.
  destruct (take_where (λ w, Wf_ID w == id) (st_workflows s)) as [w|] eqn:Et.
  2: { injection H as <- <-. split; [done|]. intros w Hw Eid. apply (take_where_None _ _ Et) in Hw.
       by rewrite bool_decide_eq_true_2 in Hw. }
  apply take_where_Some in Et as [Hw Eid%bool_decide_eq_true].
  destruct (bool_decide_reflect (Wf_SpaceID w = sp)) as [Esp|Esp]; cbn [negb] in H.
  2: { injection H as <- <-. split; [done|]. intros w2 Hw2 Eid2.
       assert (w2 = w) as -> by (apply (NoDup_key Wf_ID (st_workflows s)); [apply Hok|done..|congruence]). done. }
  destruct (same_content (saved in_ w) w) eqn:Esame.
  { injection H as <- <-. left. done. }
  cbv zeta in H. unfold mbind at 1, eff_bind at 1, now, gets at 1 in H.
  unfold mbind at 1, eff_bind at 1 in H. rewrite Hb1 in H.
  set (up := saved in_ w <| Wf_Revision := nextRevision (UpI_ExpectedRevision in_) |>
                         <| Wf_UpdatedAt := st_clock s |>) in *.
  unfold mbind at 1, eff_bind at 1 in H.
  destruct (updateWorkflowTx id in_ up s1) as [[b|e] s2] eqn:Etx.
  2: { injection H as <- <-. pose proof (updateWorkflowTx_err _ _ _ _ _ _ Etx) as [n ->].
       assert (e ≠ ErrRevisionConflict) as Hne; [|by destruct e; eauto].
       intros ->. apply updateWorkflowTx_not_conflict in Etx. done. }
  pose proof (updateWorkflowTx_ok _ _ _ _ _ _ Etx) as [(-> & -> & Hm)|(-> & Hm & rev & Es2 & E1 & E2 & E3 & _)].
  - injection H as <- <-. split; [done|]. intros w2 Hw2 Eid2 Erev.
    apply (matching_zero _ _ Hm) in Hw2. by rewrite bool_decide_eq_true_2, Erev, Z.eqb_refl in Hw2.
  - destruct (updated_row _ _ _ _ _ (key_workflows _ (so_keys _ Hok1)) Etx) as (w1 & Hw1 & Ew1 & Ev1 & Hin & Hget).
    change (GetWorkflow id s2 = (r, s')) in H. rewrite Hget in H. injection H as <- <-. right. exists w, w1, rev.
    assert (1 <= UpI_ExpectedRevision in_)%Z as Hpos.
    { rewrite <- Ev1. eapply history_revision_pos. by apply Hok1. }
    assert (nextRevision (UpI_ExpectedRevision in_) = (UpI_ExpectedRevision in_ + 1)%Z) as Hnext.
    { unfold nextRevision. destruct (Z.ltb_spec (UpI_ExpectedRevision in_) 1); lia. }
    injection E1 as F1 F2. injection E2 as G1 G2 G3 G4.
    split_and!; try done.
    + unfold same_content. cbn. by rewrite !bool_decide_eq_true_2.
    + by rewrite Es2.
    + by rewrite F1.
    + unfold records. cbn. congruence.
Qed.

(** ** Draining *)

Lemma stop_from_running from to :
  stop_status to = true → ValidRunStatusTransition from to = true → from = RunStatusRunning.
Proof. by destruct from, to. Qed.

Lemma stopRunUpdates_keeps st e c run :
  let run' := stopRunUpdates st e c run in
  Run_Status run' = st ∧ Run_ErrorMessage run' = (match e with Some m => Some m | None => Run_ErrorMessage run end) ∧
  Run_FailureClass_ run' = (if st == RunStatusFailing then Some (recordedClass c) else Run_FailureClass_ run).
Proof.
  unfold stopRunUpdates, runStatusUpdates. case_bool_decide; destruct (RunStatusTerminal st), e; done.
Qed.

(** What a node-level stop leaves. *)
Lemma BeginWorkflowRunDrain_ok in_ s b s' :
  keys_ok s → BeginWorkflowRunDrain in_ s = (Ok b, s') →
  stop_status (BD_RunStatus_ in_) = true ∧ BD_RunExpected in_ = RunStatusRunning ∧
  if b then
    ∃ run node f, run ∈ st_runs s ∧ Run_ID run = BD_WorkflowRunID in_ ∧ Run_Status run = RunStatusRunning ∧
      node ∈ st_nodes s ∧ NR_ID node = BD_NodeRunID in_ ∧ NR_WorkflowRunID node = BD_WorkflowRunID in_ ∧
      NR_Status node = BD_NodeExpected in_ ∧
      (∀ n, node_origin (f n) = node_origin n ∧ NR_Status (f n) = BD_NodeStatus in_) ∧
      s' = (let s1 := stop_rows (BD_WorkflowRunID in_)
                (s <| st_nodes := update_where (λ n, (NR_ID n == BD_NodeRunID in_)
                        && (NR_WorkflowRunID n == BD_WorkflowRunID in_) && (NR_Status n == BD_NodeExpected in_))
                      f (st_nodes s) |>) in
            s1 <| st_runs := update_where (λ r, (Run_ID r == BD_WorkflowRunID in_) && (Run_Status r == BD_RunExpected in_))
                    (stopRunUpdates (BD_RunStatus_ in_) (BD_ErrorMessage in_) (BD_FailureClass_ in_)) (st_runs s) |>)
  else s' = s ∧
    ((∃ run, run ∈ st_runs s ∧ Run_ID run = BD_WorkflowRunID in_ ∧ Run_Status run ≠ RunStatusRunning) ∨
     (∀ n, n ∈ st_nodes s → NR_ID n = BD_NodeRunID in_ → NR_WorkflowRunID n = BD_WorkflowRunID in_ →
        NR_Status n ≠ BD_NodeExpected in_)).
Proof.
  intros K H. unfold BeginWorkflowRunDrain, lookupIfSet in H.
  destruct (stop_status _) eqn:Hst; cbn [negb] in H; [|done].
  destruct (ValidNodeRunTransition _ _) eqn:Hnv; cbn [negb] in H; [|done].
  destruct (ValidRunStatusTransition _ _) eqn:Hrv; cbn [negb] in H; [|done].
  pose proof (stop_from_running _ _ Hst Hrv) as Hexp.
  split; [done|]. split; [done|]. inv_eff H.
  match goal with H1 : take_where _ (st_runs s) = Some ?r |- _ =>
    rename r into run; apply take_where_Some in H1 as [Hrun Erun%bool_decide_eq_true] end.
  destruct (bool_decide_reflect (Run_Status run = BD_RunExpected in_)) as [Est|Est]; cbn [negb] in H.
  2: { inv_eff H. split; [done|]. left. exists run. by rewrite <- Hexp. }
  rewrite Erun in H. inv_eff H.
  match goal with H1 : update_nodes ?p ?g s = (Ok ?n, _) |- _ =>
    apply update_nodes_ok in H1 as [-> ->]; set (p0 := p) in *; set (f := g) in * end.
  destruct (Nat.eqb_spec (matching p0 (st_nodes s)) 0) as [E|E].
  - inv_eff H. split; [rewrite update_where_none by done; by destruct s|]. right.
    intros n Hn E1 E2 E3. apply (matching_zero _ _ E) in Hn. subst p0. cbn in Hn.
    by rewrite !bool_decide_eq_true_2 in Hn.
  - inv_eff H.
    match goal with H1 : stopPendingNodesTx _ _ = _, H2 : update_runs _ _ _ = _ |- _ =>
      rewrite stopPendingNodesTx_eq in H1; injection H1 as _ <-; apply update_runs_ok in H2 as [_ ->] end.
    destruct (matching_ex p0 (st_nodes s)) as (node & Hn & Hp); [lia|]. subst p0. cbn in Hp.
    apply andb_true_iff in Hp as [[E1%bool_decide_eq_true E2%bool_decide_eq_true]%andb_true_iff E3%bool_decide_eq_true].
    exists run, node, f. split_and!; try done; [by rewrite <- Hexp|].
    intros n. subst f. cbn beta. split; by skip_updates.
Qed.

(** C26: a node's failure stops its run in one step, and the first cause wins.
    [BeginWorkflowRunDrain] applies only to a node at the expected status of a
    running run; it then moves the node and the run, records the cause and
    leaves nothing of the run that could start.  Otherwise nothing is written.
    Once it applied, under any program no later stop of the run applies and its
    recorded class stays. *)
Theorem BeginWorkflowRunDrain_first (gen session : nat → string) A (m : DB A) (in_ : BeginRunDrainInput)
    (s s1 : Store) r :
  store_program gen session m → store_ok s → BeginWorkflowRunDrain in_ s = (r, s1) →
  match r with
  | Err _ => ∃ n, s1 = s <| st_fresh := n |>
  | Ok false => s1 = s
  | Ok true =>
      quiet (BD_WorkflowRunID in_) s1 ∧
      (∃ node', node' ∈ st_nodes s1 ∧ NR_ID node' = BD_NodeRunID in_ ∧
         (NodeRunStatusTerminal (BD_NodeStatus in_) = true → NR_Status node' = BD_NodeStatus in_)) ∧
      ∃ run run1 run2, run ∈ st_runs s ∧ Run_ID run = BD_WorkflowRunID in_ ∧ Run_Status run = RunStatusRunning ∧
        run1 ∈ st_runs s1 ∧ Run_ID run1 = BD_WorkflowRunID in_ ∧ Run_Status run1 = BD_RunStatus_ in_ ∧
        (BD_RunStatus_ in_ = RunStatusFailing → Run_FailureClass_ run1 = Some (recordedClass (BD_FailureClass_ in_))) ∧
        run2 ∈ st_runs (m s1).2 ∧ Run_ID run2 = BD_WorkflowRunID in_ ∧
        Run_FailureClass_ run2 = Run_FailureClass_ run1 ∧
        (∀ again b s3, BD_WorkflowRunID again = BD_WorkflowRunID in_ →
           BeginWorkflowRunDrain again (m s1).2 = (Ok b, s3) → b = false ∧ s3 = (m s1).2) ∧
        (∀ stop b s3, SRI_WorkflowRunID stop = BD_WorkflowRunID in_ →
           StopWorkflowRun stop (m s1).2 = (Ok b, s3) → b = false ∧ s3 = (m s1).2)
  end.
Proof.
  intros Hm Hok H. pose proof (so_keys _ Hok) as K.
  pose proof (steps_BeginWorkflowRunDrain in_ s) as Hev. rewrite H in Hev. cbn in Hev.
  destruct r as [b|e].
  2: { unfold BeginWorkflowRunDrain in H. repeat (destruct (negb _); [injection H as _ <-; by exists (st_fresh s); destruct s|]).
       by eapply transaction_err. }
  destruct (BeginWorkflowRunDrain_ok _ _ _ _ K H) as (Hst & Hexp & Hb). destruct b; [|by destruct Hb].
  destruct Hb as (run & node & f & Hrun & Erun & Est & Hn & En & Enr & Ens & Hf & Es1).
  pose proof (keys_ok_evolves _ _ Hev K) as K1.
  pose proof (store_program_evolves _ _ m Hm s1) as Hev2. pose proof (keys_ok_evolves _ _ Hev2 K1) as K2.
  assert (stopRunUpdates (BD_RunStatus_ in_) (BD_ErrorMessage in_) (BD_FailureClass_ in_) run ∈ st_runs s1) as Hrun1.
  { rewrite Es1. cbn. apply elem_of_update_where. exists run. by rewrite Hexp, !bool_decide_eq_true_2. }
  destruct (stopRunUpdates_keeps (BD_RunStatus_ in_) (BD_ErrorMessage in_) (BD_FailureClass_ in_) run) as (G1 & _ & G3).
  pose proof (stopRunUpdates_id (BD_RunStatus_ in_) (BD_ErrorMessage in_) (BD_FailureClass_ in_) run) as G4.
  set (run1 := stopRunUpdates _ _ _ run) in *.
  assert (run_stopped (Run_Status run1) = true) as Hs1 by (rewrite G1; unfold run_stopped; by rewrite Hst).
  destruct (table_evolves_row _ _ _ _ run1 (key_runs _ K1) (ev_runs _ _ Hev2) Hrun1) as (run2 & Hrun2 & [O2 _ C2 _]).
  injection O2 as O2 _ _ _ _ _ _ _ _.
  assert (∀ r, r ∈ st_runs (m s1).2 → Run_ID r = BD_WorkflowRunID in_ → Run_Status r ≠ RunStatusRunning) as Hno.
  { intros r Hr Eid. apply stopped_not_running. eapply stopped_stays; [exact K1|exact Hev2|exact Hrun1|done|done|congruence]. }
  split_and!.
  - destruct (stop_rows_quiet (BD_WorkflowRunID in_) (s <| st_nodes := update_where (λ n, (NR_ID n == BD_NodeRunID in_)
      && (NR_WorkflowRunID n == BD_WorkflowRunID in_) && (NR_Status n == BD_NodeExpected in_)) f (st_nodes s) |>)) as [Q1 Q2].
    rewrite Es1. by split.
  - destruct (table_evolves_row _ _ _ _ node (key_nodes _ K) (ev_nodes _ _ Hev) Hn) as (node' & Hn' & [O1 _ _]).
    destruct (Hf node) as [Of Sf]. injection O1 as O1 _ _ _ _ _ _ _ _ _ _ _ _ _ _ _ _ _.
    injection Of as Of1 Of2 _ _ _ _ _ _ _ _ _ _ _ _ _ _ _ _.
    destruct (decide (NodeRunStatusTerminal (BD_NodeStatus in_) = true)) as [Ht|Ht].
    2: { exists node'. split_and!; [done|congruence|done]. }
    exists (f node). split_and!; [|congruence|done]. rewrite Es1. cbn.
    assert (f node ∈ update_where (λ n, (NR_ID n == BD_NodeRunID in_)
      && (NR_WorkflowRunID n == BD_WorkflowRunID in_) && (NR_Status n == BD_NodeExpected in_)) f (st_nodes s)) as Hin.
    { apply elem_of_update_where. exists node. by rewrite !bool_decide_eq_true_2. }
    apply elem_of_update_where. exists (f node). rewrite Sf. split.
    + apply elem_of_update_where. exists (f node). rewrite Sf. split; [done|].
      rewrite (bool_decide_eq_false_2 (BD_NodeStatus in_ = NodeRunStatusPending)); [by rewrite andb_false_r|].
      intros E. by rewrite E in Ht.
    + rewrite (bool_decide_eq_false_2 (BD_NodeStatus in_ ∈ _)); [by rewrite andb_false_r|].
      rewrite !elem_of_cons, elem_of_nil. intros [E|[E|[]]]; by rewrite E in Ht.
  - exists run, run1, run2. split_and!; try done; try congruence.
    + intros E. by rewrite G3, bool_decide_eq_true_2.
    + by apply C2.
    + intros again b s3 Ea Hagain. destruct (BeginWorkflowRunDrain_ok _ _ _ _ K2 Hagain) as (_ & _ & Hb).
      destruct b; [|by destruct Hb]. destruct Hb as (r & _ & _ & Hr & Er & Esr & _). by destruct (Hno r Hr); [congruence|].
    + intros stop b s3 Ea Hstop.
      destruct (stop_status (SRI_RunStatus_ stop)) eqn:Hst2; [|by unfold StopWorkflowRun in Hstop; rewrite Hst2 in Hstop].
      destruct (ValidRunStatusTransition (SRI_RunExpected stop) (SRI_RunStatus_ stop)) eqn:Hv2;
        [|by unfold StopWorkflowRun in Hstop; rewrite Hst2, Hv2 in Hstop].
      rewrite StopWorkflowRun_eq in Hstop by done. destruct (take_where _ _) as [r|] eqn:Et; [|by injection Hstop].
      apply take_where_Some in Et as [Hr Er%bool_decide_eq_true].
      destruct (bool_decide_reflect (Run_Status r = SRI_RunExpected stop)) as [Esr|]; [|by injection Hstop].
      rewrite (stop_from_running _ _ Hst2 Hv2) in Esr. by destruct (Hno r Hr); [congruence|].
Qed.

(** ** Witnesses *)

Lemma empty_store_ok : store_ok empty_store.
Proof.
  split.
  - split; by apply NoDup_nil_2.
  - split; [exact empty_task_ok|]. by intros t1 t2 k ?%not_elem_of_nil.
  - split; [by intros r ?%not_elem_of_nil|by intros w ?%not_elem_of_nil].
  - by apply Forall_nil_2.
Qed.

(** A program with [ClaimTask] leaves the task behind its run: the task is
    scheduled and its run still pending. *)
Lemma ClaimTask_unmirrors : let s := (ClaimTask coretask.RunStatusPending
    (taskdb.mkUpdateInput "id_0"%string coretask.RunStatusScheduled None None None None None) sample_store).2 in
  task_ok sample_store ∧ ¬ store_ok s.
Proof.
  split; [exact sample_store_ok|]. intros [_ [Hok _] _ _]. set (s := (ClaimTask _ _ _).2) in Hok.
  assert (map Task_Status (st_tasks s) = [coretask.RunStatusScheduled]) as Et by (vm_compute; reflexivity).
  assert (map coretask.Run_Status (st_taskruns s) = [coretask.RunStatusPending]) as Er by (vm_compute; reflexivity).
  destruct (st_tasks s) as [|t l] eqn:El; [done|]. injection Et as Et _.
  destruct (ok_last s Hok t) as (r & Hr & _ & _ & [Em _]); [rewrite El; by left|].
  apply (list_elem_of_fmap_2 coretask.Run_Status) in Hr. unfold fmap in Hr. change (list_fmap _ _ ?f ?l) with (map f l) in Hr.
  rewrite Er in Hr. apply list_elem_of_singleton in Hr. rewrite Et, Hr in Em. discriminate Em.
Qed.

Definition sample_node_input (id : string) : CreateNodeRunInput :=
  mkCreateNodeRunInput id 0 NodeTypeAgentTask [] "none" (Some "agt"%string) "Agent" "" "do it" 1 "go" [] None 2 60
    NodeRunStatusPending.

(** A published workflow's run with one pending node: rows id_0, id_1, id_2. *)
Definition sample_workflow : DB unit :=
  _ ← CreateWorkflow sample_gen "spc" "usr" "wf" "" "{}";
  _ ← CreateWorkflowRun sample_gen (mkCreateRunInput "id_0" 1 None None None "" "" 0 ReportNone None
        RunStatusRunning "usr" (Some 1000%Z) None);
  _ ← CreateWorkflowNodeRuns sample_gen "id_1" [sample_node_input "a"];
  mret tt.

Lemma sample_workflow_program : store_program sample_gen sample_gen sample_workflow.
Proof.
  apply sp_bind; [apply sp_CreateWorkflow|]. intros _. apply sp_bind; [apply sp_CreateWorkflowRun|].
  intros _. apply sp_bind; [apply sp_CreateWorkflowNodeRuns|]. intros _. apply sp_ret.
Qed.

Definition workflow_store : Store := (sample_workflow empty_store).2.

Lemma workflow_store_ok : store_ok workflow_store.
Proof. exact (store_ok_program _ _ _ _ sample_workflow_program empty_store_ok). Qed.

Lemma store_program_invariant_witness :
  store_ok (sample_workflow empty_store).2 ∧ map Wf_ID (st_workflows workflow_store) = ["id_0"%string] ∧
  map Rev_Revision (st_revisions workflow_store) = [1%Z] ∧ map NR_ID (st_nodes workflow_store) = ["id_2"%string].
Proof.
  split; [|vm_compute; auto].
  exact (store_program_invariant sample_gen sample_gen unit sample_workflow empty_store
    sample_workflow_program empty_store_ok).
Defined.

Definition sample_stop : StopRunInput :=
  mkStopRunInput "id_1" RunStatusRunning RunStatusCanceling (Some "stopped"%string) None.

Lemma store_program_lifecycle_witness :
  ∃ n n', n ∈ st_nodes workflow_store ∧ NR_Status n = NodeRunStatusPending ∧
    n' ∈ st_nodes (StopWorkflowRun sample_stop workflow_store).2 ∧ NR_Status n' = NodeRunStatusBlocked ∧
    node_origin n' = node_origin n ∧ rtc node_step (NR_Status n) (NR_Status n').
Proof.
  assert (∃ n, st_nodes workflow_store = [n] ∧ NR_Status n = NodeRunStatusPending) as (n & E & Es)
    by (eexists; split; vm_compute; reflexivity).
  assert (map NR_Status (st_nodes (StopWorkflowRun sample_stop workflow_store).2) = [NodeRunStatusBlocked]) as Eb
    by (vm_compute; reflexivity).
  destruct (store_program_lifecycle sample_gen sample_gen bool (StopWorkflowRun sample_stop) workflow_store
    (sp_StopWorkflowRun _ _ sample_stop) workflow_store_ok) as (_ & H & _).
  destruct (H n ltac:(rewrite E; apply list_elem_of_here)) as (n' & H1 & H2 & H3 & _). exists n, n'.
  pose proof (list_elem_of_fmap_2 NR_Status _ _ H1) as H4.
  change (NR_Status n' ∈ map NR_Status (st_nodes (StopWorkflowRun sample_stop workflow_store).2)) in H4.
  rewrite Eb in H4. apply list_elem_of_singleton in H4. rewrite E.
  split; [apply list_elem_of_here|]. split; [exact Es|]. split; [exact H1|]. split; [exact H4|].
  split; [exact H2|exact H3].
Defined.

Definition stopped_store : Store := (StopWorkflowRun sample_stop workflow_store).2.

Lemma StopWorkflowRun_final_witness :
  map NR_Status (st_nodes stopped_store) = [NodeRunStatusBlocked] ∧ quiet "id_1" stopped_store.
Proof.
  split; [vm_compute; reflexivity|].
  assert (StopWorkflowRun sample_stop workflow_store = (Ok true, stopped_store)) as E by (vm_compute; reflexivity).
  exact (proj1 (StopWorkflowRun_final sample_gen sample_gen unit (mret tt) sample_stop workflow_store stopped_store
    (sp_ret _ _ tt) (so_keys _ workflow_store_ok) E)).
Defined.

Definition sample_admission : coretask.CreateInput :=
  sample_input "workflow/id_1/node/a" <| coretask.CI_WorkflowNodeRunID := "id_2"%string |>.

Definition admitted_store : Store := (admitWorkflowNodeTask sample_gen sample_gen sample_admission workflow_store).2.

Lemma admitWorkflowNodeTask_atomic_witness :
  map NR_Status (st_nodes admitted_store) = [NodeRunStatusRunning] ∧
  map NR_TaskID (st_nodes admitted_store) = [Some "id_3"%string] ∧
  ∃ o, admitWorkflowNodeTask sample_gen sample_gen sample_admission admitted_store = (Ok o, admitted_store).
Proof.
  split; [vm_compute; reflexivity|]. split; [vm_compute; reflexivity|].
  pose proof (λ r, admitWorkflowNodeTask_atomic sample_gen sample_gen sample_admission workflow_store admitted_store r
    workflow_store_ok) as H.
  assert (is_ok (admitWorkflowNodeTask sample_gen sample_gen sample_admission workflow_store).1 = true) as Eok
    by (vm_compute; reflexivity).
  unfold admitted_store in *.
  destruct (admitWorkflowNodeTask sample_gen sample_gen sample_admission workflow_store) as [[o|e] s'];
    [|discriminate Eok].
  exists o. exact (proj1 (H (Ok o) eq_refl)).
Defined.

Definition sample_claim : ClaimLeaseInput := mkClaimLeaseInput "id_1" "me" 1000 2000.
Definition claimed_store : Store := (ClaimWorkflowRunLease sample_claim workflow_store).2.

Lemma ClaimWorkflowRunLease_exclusive_witness :
  ClaimWorkflowRunLease (mkClaimLeaseInput "id_1" "you" 1500 9000) claimed_store = (Ok false, claimed_store) ∧
  (ClaimWorkflowRunLease (mkClaimLeaseInput "id_1" "you" 2000 9000) claimed_store).1 = Ok true.
Proof.
  split; [|vm_compute; reflexivity].
  assert (ClaimWorkflowRunLease sample_claim workflow_store = (Ok true, claimed_store)) as E
    by (vm_compute; reflexivity).
  destruct (ClaimWorkflowRunLease_exclusive sample_claim workflow_store claimed_store true
    (so_keys _ workflow_store_ok) E) as (_ & _ & H & _).
  apply H; [reflexivity|]. vm_compute. reflexivity.
Defined.

Definition asked_store : Store :=
  (OpenWorkflowRequest sample_gen (mkOpenRequestInput "id_1" "id_2" NodeRunStatusPending "input/a" RequestKindInput
     "which?" None None None (Some 5000%Z) None 1200) workflow_store).2.

Lemma asked_store_ok : store_ok asked_store.
Proof. exact (store_ok_program _ _ _ _ (sp_OpenWorkflowRequest sample_gen sample_gen _) workflow_store_ok). Qed.

Definition sample_answer : ResolveRequestInput := mkResolveRequestInput "id_3" RequestStatusAnswered None None 1300.

Lemma ResolveWorkflowRequest_once_witness :
  let s1 := (ResolveWorkflowRequest sample_answer asked_store).2 in
  map Req_Status (st_requests s1) = [RequestStatusAnswered] ∧
  ∃ q', q' ∈ st_requests (StopWorkflowRun sample_stop s1).2 ∧ Req_Status q' = RequestStatusAnswered.
Proof.
  split; [vm_compute; reflexivity|].
  assert (ResolveWorkflowRequest sample_answer asked_store
    = (Ok true, (ResolveWorkflowRequest sample_answer asked_store).2)) as E by (vm_compute; reflexivity).
  destruct (ResolveWorkflowRequest_once sample_gen sample_gen bool (StopWorkflowRun sample_stop) sample_answer asked_store
    _ true (sp_StopWorkflowRun _ _ sample_stop) (so_keys _ asked_store_ok) E) as (q & q' & _ & _ & _ & H1 & _ & _ & H2 & _).
  exists q'. split; [exact H2|exact H1].
Defined.

Definition sample_edit : UpdateInput := mkUpdateInput (Some "new name"%string) None None None 1 "usr".

Lemma UpdateWorkflow_cas_witness :
  ∃ w s', UpdateWorkflow (mret tt) "id_0" "spc" sample_edit workflow_store = (Ok (Some w), s') ∧
    Wf_Revision w = 2%Z ∧
    (UpdateWorkflow (mret tt) "id_0" "spc" (sample_edit <| UpI_Name := Some "third"%string |>) s').1 = Err ErrRevisionConflict.
Proof.
  pose proof (λ s' r, UpdateWorkflow_cas sample_gen sample_gen (mret tt) "id_0" "spc" sample_edit workflow_store
    workflow_store s' r (sp_ret _ _ tt) workflow_store_ok eq_refl) as H.
  assert (∃ w s', UpdateWorkflow (mret tt) "id_0" "spc" sample_edit workflow_store = (Ok (Some w), s') ∧
    same_content (saved sample_edit w) w = true ∧ Wf_Name w = "new name"%string ∧
    (UpdateWorkflow (mret tt) "id_0" "spc" (sample_edit <| UpI_Name := Some "third"%string |>) s').1
      = Err ErrRevisionConflict) as (w & s' & E & _ & Ename & Econf) by (eexists _, _; vm_compute; auto).
  exists w, s'. split; [exact E|]. split; [|exact Econf].
  destruct (H s' (Ok (Some w)) E) as [(-> & Hw & _)|(w0 & w1 & rev & _ & _ & _ & _ & _ & _ & _ & Erev & _)];
    [|exact Erev].
  exfalso. assert (Wf_Name <$> st_workflows workflow_store = ["wf"%string]) as Enames by (vm_compute; reflexivity).
  apply (list_elem_of_fmap_2 Wf_Name) in Hw. rewrite Enames, Ename in Hw.
  apply list_elem_of_singleton in Hw. discriminate Hw.
Defined.

Definition sample_drain : BeginRunDrainInput :=
  mkBeginRunDrainInput "id_1" "id_2" NodeRunStatusPending NodeRunStatusFailed RunStatusRunning RunStatusFailing
    None None None (Some "boom"%string) (Some FailureAdmission) None None.

Lemma BeginWorkflowRunDrain_first_witness :
  let s1 := (BeginWorkflowRunDrain sample_drain workflow_store).2 in
  quiet "id_1" s1 ∧ ∃ run, run ∈ st_runs (StopWorkflowRun sample_stop s1).2 ∧ Run_ID run = "id_1"%string ∧
    Run_FailureClass_ run = Some FailureAdmission.
Proof.
  intros s1. assert (BeginWorkflowRunDrain sample_drain workflow_store = (Ok true, s1)) as E by (vm_compute; reflexivity).
  destruct (BeginWorkflowRunDrain_first sample_gen sample_gen bool (StopWorkflowRun sample_stop) sample_drain workflow_store
    s1 (Ok true) (sp_StopWorkflowRun _ _ sample_stop) workflow_store_ok E)
    as (Hq & _ & run & run1 & run2 & _ & _ & _ & _ & _ & _ & Hc & Hr2 & Hi2 & Hc2 & _).
  split; [exact Hq|]. exists run2. split; [exact Hr2|]. split; [exact Hi2|].
  rewrite Hc2, (Hc eq_refl). vm_compute. reflexivity.
Defined.
