(* ===== verification/ReconcileMoves.v ===== *)
(** * ReconcileMoves: what each store operation may do to the nodes of a run

    [moves C P F D] bounds an operation: outside a stopped run, the nodes whose
    status it may change are in [C] and those it may fail in [F]; the nodes it
    may start are in [P], and the runs it may mark succeeded are in [D].  The reconciler's safety is proved from these
    bounds alone. *)

From S2P Require Import Prelude Json TaskCore WorkflowCore Store TaskStore WorkflowStore WorkflowLifecycle.
From S2P Require Import StoreProgram WorkflowSafety.
From stdpp Require Import gmap.
Import db taskdb workflowdb.
Import coretask.
Import coreworkflow.

(** ** Statuses *)

(** A node that has left [pending] other than by its run's stop. *)
Definition started (s : NodeRunStatus) : bool :=
  (s != NodeRunStatusPending) && (s != NodeRunStatusBlocked).

Definition unsuccessful (s : NodeRunStatus) : bool :=
  (s == NodeRunStatusFailed) || (s == NodeRunStatusCanceled) || (s == NodeRunStatusBlocked).

(** A run that will not succeed. *)
Definition halted (s : RunStatus) : bool :=
  stop_status s || (s == RunStatusFailed) || (s == RunStatusCanceled).

Definition halted_run (s : Store) (id : string) : Prop :=
  ∃ r, r ∈ st_runs s ∧ Run_ID r = id ∧ halted (Run_Status r) = true.

Lemma started_step a b : node_step a b → started a = true → started b = true.
Proof. unfold node_step. by destruct a, b. Qed.

Lemma started_rtc a b : rtc node_step a b → started a = true → started b = true.
Proof. induction 1; eauto using started_step. Qed.

Lemma halted_step a b : run_step a b → halted a = true → halted b = true.
Proof. unfold run_step. by destruct a, b. Qed.

Lemma halted_rtc a b : rtc run_step a b → halted a = true → halted b = true.
Proof. induction 1; eauto using halted_step. Qed.

(** ** Following rows *)

Section Follow.
Context (s s' : Store) (K : keys_ok s) (Hev : evolves s s').

Lemma follow_run r : r ∈ st_runs s → ∃ r', r' ∈ st_runs s' ∧ run_evolves r r' ∧ Run_ID r' = Run_ID r.
Proof.
  intros Hr. destruct (table_evolves_row _ _ _ _ r (key_runs _ K) (ev_runs _ _ Hev) Hr) as (r' & Hr' & H).
  exists r'. split_and!; [done|done|]. destruct H as [E _ _ _]. by injection E.
Qed.

Lemma follow_node n : n ∈ st_nodes s → ∃ n', n' ∈ st_nodes s' ∧ node_evolves n n' ∧ NR_ID n' = NR_ID n.
Proof.
  intros Hn. destruct (table_evolves_row _ _ _ _ n (key_nodes _ K) (ev_nodes _ _ Hev) Hn) as (n' & Hn' & H).
  exists n'. split_and!; [done|done|]. destruct H as [E _ _]. by injection E.
Qed.

(** Rows of one id are one row, before and after. *)
Lemma run_of_id r r' : r ∈ st_runs s → r' ∈ st_runs s' → Run_ID r' = Run_ID r → run_evolves r r'.
Proof.
  intros Hr Hr' E. destruct (follow_run r Hr) as (r1 & Hr1 & H1 & E1).
  assert (r1 = r') as -> by (apply (NoDup_key Run_ID (st_runs s')); [apply (keys_ok_evolves _ _ Hev K)|done..|congruence]).
  done.
Qed.

Lemma node_of_id n n' : n ∈ st_nodes s → n' ∈ st_nodes s' → NR_ID n' = NR_ID n → node_evolves n n'.
Proof.
  intros Hn Hn' E. destruct (follow_node n Hn) as (n1 & Hn1 & H1 & E1).
  assert (n1 = n') as -> by (apply (NoDup_key NR_ID (st_nodes s')); [apply (keys_ok_evolves _ _ Hev K)|done..|congruence]).
  done.
Qed.

Lemma halted_run_evolves id : halted_run s id → halted_run s' id.
Proof.
  intros (r & Hr & E & Hh). destruct (follow_run r Hr) as (r' & Hr' & [_ H2 _ _] & E').
  exists r'. split_and!; [done|congruence|by eapply halted_rtc].
Qed.
End Follow.

(** ** The bound *)

Record moved (C P F D : string → Prop) (s s' : Store) : Prop := {
  mv_evolves : evolves s s';
  mv_nodes : ∀ n', n' ∈ st_nodes s' → ∃ n, n ∈ st_nodes s ∧ NR_ID n = NR_ID n' ∧
    (started (NR_Status n') = true → started (NR_Status n) = true ∨ P (NR_ID n')) ∧
    (unsuccessful (NR_Status n') = true →
       unsuccessful (NR_Status n) = true ∨ F (NR_ID n') ∨ halted_run s' (NR_WorkflowRunID n')) ∧
    (NR_Status n' = NR_Status n ∨ C (NR_ID n') ∨ halted_run s' (NR_WorkflowRunID n'));
  mv_runs : ∀ r', r' ∈ st_runs s' → Run_Status r' = RunStatusSucceeded →
    D (Run_ID r') ∨ ∃ r, r ∈ st_runs s ∧ Run_ID r = Run_ID r' ∧ Run_Status r = RunStatusSucceeded;
}.

Definition moves (C P F D : string → Prop) (s s' : Store) : Prop := keys_ok s → moved C P F D s s'.

Definition none : string → Prop := λ _, False.
Definition any : string → Prop := λ _, True.

Lemma moved_frame C P F D s s' :
  evolves s s' → st_nodes s' = st_nodes s → st_runs s' = st_runs s → moved C P F D s s'.
Proof.
  intros Hev En Er. split; [done| |].
  - rewrite En. intros n Hn. exists n. auto 10.
  - rewrite Er. intros r Hr Hs. right. by exists r.
Qed.

#[export] Instance moves_preorder C P F D : PreOrder (moves C P F D).
Proof.
  split; [intros s K; by apply moved_frame|].
  intros a b c Hab Hbc K. destruct (Hab K) as [V1 N1 R1].
  pose proof (keys_ok_evolves _ _ V1 K) as Kb. destruct (Hbc Kb) as [V2 N2 R2]. split.
  - by etransitivity.
  - intros n3 H3. destruct (N2 n3 H3) as (n2 & H2 & E2 & S2 & U2 & T2).
    destruct (N1 n2 H2) as (n1 & H1 & E1 & S1 & U1 & T1).
    pose proof (node_of_id b c Kb V2 n2 n3 H2 H3 (eq_sym E2)) as [O _ _]. injection O as _ Orun _ _ _ _ _ _ _ _ _ _ _ _ _ _ _ _.
    exists n1. split_and!; [done|congruence| | |].
    + intros Hs. destruct (S2 Hs) as [Hs2|]; [|by right]. destruct (S1 Hs2) as [|Hp]; [by left|].
      right. by rewrite <- E2.
    + intros Hu. destruct (U2 Hu) as [Hu2|[|]]; [|by right; left|by right; right].
      destruct (U1 Hu2) as [|[Hf|Hh]]; [by left|right; left; by rewrite <- E2|].
      right; right. rewrite Orun. by apply (halted_run_evolves b c Kb V2).
    + destruct T2 as [T2|[|]]; [|by right; left|by right; right].
      destruct T1 as [T1|[Hc|Hh]]; [left; congruence|right; left; by rewrite <- E2|].
      right; right. rewrite Orun. by apply (halted_run_evolves b c Kb V2).
  - intros r3 H3 Hs. destruct (R2 r3 H3 Hs) as [|(r2 & H2 & E2 & Hs2)]; [by left|].
    destruct (R1 r2 H2 Hs2) as [Hd|(r1 & H1 & E1 & Hs1)]; [left; by rewrite <- E2|].
    right. exists r1. split_and!; [done|congruence|done].
Qed.

Lemma moves_fresh C P F D s n : moves C P F D s (s <| st_fresh := n |>).
Proof. intros _. apply moved_frame; [apply evolves_fresh|done..]. Qed.

(** Fewer permissions are a stronger bound. *)
Lemma moves_weaken (C P F D C' P' F' D' : string → Prop) s s' :
  (∀ i, C i → C' i) → (∀ i, P i → P' i) → (∀ i, F i → F' i) → (∀ i, D i → D' i) →
  moves C P F D s s' → moves C' P' F' D' s s'.
Proof.
  intros HC HP HF HD Hm K. destruct (Hm K) as [V N R]. split; [done| |].
  - intros n' Hn'. destruct (N n' Hn') as (n & H1 & H2 & H3 & H4 & H5). exists n. naive_solver.
  - intros r' Hr' Hs. destruct (R r' Hr' Hs); naive_solver.
Qed.

Lemma steps_weaken {A} (C P F D C' P' F' D' : string → Prop) (m : DB A) :
  (∀ i, C i → C' i) → (∀ i, P i → P' i) → (∀ i, F i → F' i) → (∀ i, D i → D' i) →
  steps (moves C P F D) m → steps (moves C' P' F' D') m.
Proof. intros HC HP HF HD Hm s. by eapply moves_weaken, Hm. Qed.

(** ** Operations on tasks leave the workflow tables *)

Definition same_flow (s s' : Store) : Prop := st_nodes s' = st_nodes s ∧ st_runs s' = st_runs s.

#[export] Instance same_flow_preorder : PreOrder same_flow.
Proof. split; [by intros s|]. intros a b c [E1 E2] [E3 E4]. split; congruence. Qed.

Create HintDb bm_flow.
#[export] Hint Extern 1 (PreOrder _) => typeclasses eauto : bm_flow.
#[export] Hint Resolve steps_ret steps_fail steps_gets steps_get steps_lookupKey steps_optionalKey
  steps_createWithPublicID steps_take : bm_flow.
#[export] Hint Extern 1 (same_flow _ _) => (split; reflexivity) : bm_flow.
#[export] Hint Extern 1 (steps same_flow (update_tasks _ _)) => (intros ?; split; reflexivity) : bm_flow.
#[export] Hint Extern 1 (steps same_flow (update_taskruns _ _)) => (intros ?; split; reflexivity) : bm_flow.
#[export] Hint Extern 1 (steps same_flow (update_requests _ _)) => (intros ?; split; reflexivity) : bm_flow.
#[export] Hint Extern 1 (steps same_flow (foldScheduleOutcome _ _)) => (intros ?; split; reflexivity) : bm_flow.
#[export] Hint Extern 2 (∀ s n, same_flow s _) => (intros; split; reflexivity) : bm_flow.

(** A write behind a test of what was read. *)
Lemma steps_guarded_modify {A} (R : relation Store) `{!PreOrder R} (b : Store → bool) (f : Store → Store) e (k : Store → DB A) :
  (∀ s, R s (f s)) → (∀ s, steps R (k s)) → steps R (s ← get; if b s then fail e else _ ← put (f s); k s).
Proof. intros Hf Hk s. eff_unfold. destruct (b s); [reflexivity|]. etransitivity; [apply Hf|apply Hk]. Qed.

Ltac flow_walk :=
  repeat lazymatch goal with
  | |- forall _, _ => intro
  | |- steps _ (mbind (fun s => mbind _ (put _)) get) => apply steps_modify_at
  | |- steps _ (mbind (fun s => if _ then fail _ else mbind _ (put _)) get) => apply steps_guarded_modify
  | |- steps _ (mbind _ _) => apply steps_bind
  | |- steps _ (catch _ _) => apply steps_catch
  | |- steps _ (asNotFound _) => apply steps_asNotFound
  | |- steps _ (transaction _) => apply steps_transaction
  | |- steps _ (let _ := _ in _) => cbv zeta
  | |- steps _ (match ?x with _ => _ end) => destruct x
  | |- steps _ (or_fail _ ?x) => destruct x; cbn [or_fail]
  | |- steps _ _ => solve [eauto 3 with bm_flow]
  | |- PreOrder _ => typeclasses eauto
  | |- same_flow _ _ => solve [split; reflexivity]
  end.

Lemma steps_moved_frame {A} C P F D (m : DB A) :
  steps evolves m → steps same_flow m → steps (moves C P F D) m.
Proof. intros Hev Hs s _. destruct (Hs s). by apply moved_frame. Qed.

Section TaskMoves.
Context (C P F D : string → Prop) (gen session : nat → string).

Lemma same_flow_RequestTaskRunCancel id by_ reason at_ : steps same_flow (RequestTaskRunCancel id by_ reason at_).
Proof. unfold RequestTaskRunCancel. flow_walk. Qed.

Lemma same_flow_TransitionTaskRun in_ : steps same_flow (TransitionTaskRun in_).
Proof. unfold TransitionTaskRun, now. flow_walk. Qed.

Lemma same_flow_newTaskRows in_ : steps same_flow (newTaskRows session in_).
Proof. unfold newTaskRows, now. flow_walk. Qed.

Lemma same_flow_createTaskAndRunTx in_ t r : steps same_flow (createTaskAndRunTx gen in_ t r).
Proof. unfold createTaskAndRunTx, conversationInSpace, sourceMessage, insertTask, insertTaskRun. cbv zeta. flow_walk. Qed.

Lemma same_flow_createTaskRunTx id in_ : steps same_flow (createTaskRunTx gen id in_).
Proof. unfold createTaskRunTx, sourceMessage, insertTaskRun, now. cbv zeta. flow_walk. Qed.
End TaskMoves.
#[export] Hint Resolve same_flow_RequestTaskRunCancel same_flow_TransitionTaskRun same_flow_newTaskRows
  same_flow_createTaskAndRunTx same_flow_createTaskRunTx : bm_flow.

(** ** Bounds of the workflow operations *)

Section FlowMoves.
Context (C P F D : string → Prop).

Lemma moved_update_nodes p f s s' :
  evolves s s' → st_nodes s' = update_where p f (st_nodes s) → st_runs s' = st_runs s →
  (∀ n, p n = true → NR_ID (f n) = NR_ID n ∧
     (started (NR_Status (f n)) = true → started (NR_Status n) = true ∨ P (NR_ID n)) ∧
     (unsuccessful (NR_Status (f n)) = true → unsuccessful (NR_Status n) = true ∨ F (NR_ID n)) ∧
     C (NR_ID n)) →
  moved C P F D s s'.
Proof.
  intros Hev En Er Hf. split; [done| |].
  - rewrite En. intros n' (n & Hn & ->)%elem_of_update_where. exists n. split; [done|].
    destruct (p n) eqn:Ep; [|auto]. destruct (Hf n Ep) as (E & H1 & H2 & H3). rewrite E.
    split_and!; [done|done| |auto]. intros Hu. destruct (H2 Hu); auto.
  - rewrite Er. intros r Hr Hs. right. by exists r.
Qed.

(** A write of runs that marks none succeeded. *)
Lemma steps_update_runs_moves p f :
  steps evolves (update_runs p f) →
  (∀ r, Run_ID (f r) = Run_ID r) →
  (∀ r, p r = true → Run_Status (f r) = RunStatusSucceeded → D (Run_ID r) ∨ Run_Status r = RunStatusSucceeded) →
  steps (moves C P F D) (update_runs p f).
Proof.
  intros Hev Hid Hf s _. split; [apply Hev| |]; cbn.
  - intros n Hn. exists n. auto 10.
  - intros r' (r & Hr & ->)%elem_of_update_where. destruct (p r) eqn:Ep; intros Hs.
    + rewrite Hid. destruct (Hf r Ep Hs); [by left|right; by exists r].
    + right. by exists r.
Qed.

Lemma steps_frame_moves {A} (m : DB A) : steps evolves m → steps same_flow m → steps (moves C P F D) m.
Proof. apply steps_moved_frame. Qed.

Lemma steps_TransitionWorkflowNodeRun_moves in_ :
  C (TN_NodeRunID in_) →
  (started (TN_NewStatus in_) = true → started (TN_ExpectedStatus in_) = true ∨ P (TN_NodeRunID in_)) →
  (unsuccessful (TN_NewStatus in_) = true → unsuccessful (TN_ExpectedStatus in_) = true ∨ F (TN_NodeRunID in_)) →
  steps (moves C P F D) (TransitionWorkflowNodeRun in_).
Proof.
  intros HC HP HF s _. pose proof (steps_TransitionWorkflowNodeRun in_ s) as Hev. revert Hev.
  destruct (TransitionWorkflowNodeRun in_ s) as [[b|e] s'] eqn:E; cbn; intros Hev.
  - unfold TransitionWorkflowNodeRun in E. destruct (negb _); [by inv_eff E|]. apply transaction_ok in E.
    apply eff_bind_ok in E as (g & s1 & [-> ->]%stepTransitionUpdates_ok & E).
    apply eff_bind_ok in E as (n & s2 & [_ ->]%update_nodes_ok & [_ ->]%ret_ok).
    eapply moved_update_nodes; [done|reflexivity|done|].
    intros n0 [E1%bool_decide_eq_true E2%bool_decide_eq_true]%andb_true_iff.
    destruct (stepUpdates_keeps in_ n0) as [Ho Hs]. rewrite Hs, E1, E2. injection Ho as -> _. by rewrite E1.
  - unfold TransitionWorkflowNodeRun in E. destruct (negb _).
    + injection E as _ <-. by apply moved_frame.
    + apply transaction_err in E as [n ->]. by apply moved_frame.
Qed.

Lemma steps_TransitionWorkflowRun_moves in_ :
  (TR_NewStatus in_ = RunStatusSucceeded → D (TR_WorkflowRunID in_)) →
  steps (moves C P F D) (TransitionWorkflowRun in_).
Proof.
  intros HD. unfold TransitionWorkflowRun.
  destruct (ValidRunStatusTransition _ _) eqn:Hv; cbn [negb]; [|apply steps_fail; typeclasses eauto].
  apply steps_transaction; [apply moves_fresh|]. apply steps_bind; [typeclasses eauto| |].
  - apply steps_update_runs_moves; [by apply steps_transition_runs|apply transitionRunUpdates_keeps|].
    intros r [E%bool_decide_eq_true _]%andb_true_iff. destruct (transitionRunUpdates_keeps in_ r) as [_ ->].
    rewrite E. auto.
  - intros n. apply steps_frame_moves; [ev_walk; apply steps_foldScheduleOutcome|flow_walk].
Qed.

End FlowMoves.

Section StopMoves.
Context (C P F D : string → Prop).

Lemma elem_of_stop_rows id s n' :
  n' ∈ st_nodes (stop_rows id s) → ∃ n, n ∈ st_nodes s ∧ node_origin n' = node_origin n ∧
    (started (NR_Status n') = true → started (NR_Status n) = true) ∧ (n' = n ∨ NR_WorkflowRunID n' = id).
Proof.
  cbn. intros (n1 & (n & Hn & ->)%elem_of_update_where & ->)%elem_of_update_where. exists n. split; [done|].
  destruct (bool_decide_reflect (NR_WorkflowRunID n = id)) as [E|E]; cbn [andb].
  - destruct (bool_decide_reflect (NR_Status n = NodeRunStatusPending)) as [Ep|Ep]; cbn [andb].
    + rewrite bool_decide_eq_true_2 by done. cbn [andb]. case_bool_decide as Ew.
      { cbn in Ew. rewrite !elem_of_cons, elem_of_nil in Ew. naive_solver. }
      split_and!; [done|done|by right].
    + rewrite bool_decide_eq_true_2 by done. cbn [andb]. case_bool_decide as Ew; [|auto].
      split_and!; [done| |by right]. intros _. rewrite !elem_of_cons, elem_of_nil in Ew.
      by destruct Ew as [-> |[-> |[]]].
  - rewrite bool_decide_eq_false_2 by done. cbn [andb]. auto.
Qed.

Lemma moved_stop id s s' p f :
  evolves s s' →
  st_nodes s' = st_nodes (stop_rows id (s <| st_nodes := update_where p f (st_nodes s) |>)) →
  (∀ n, p n = true → node_origin (f n) = node_origin n ∧ NR_WorkflowRunID n = id ∧
     (started (NR_Status (f n)) = true → started (NR_Status n) = true ∨ P (NR_ID n))) →
  halted_run s' id →
  (∀ r', r' ∈ st_runs s' → Run_Status r' = RunStatusSucceeded → r' ∈ st_runs s) →
  moved C P F D s s'.
Proof.
  intros Hev En Hf Hh Hr. split; [done| |].
  - rewrite En. intros n' (n1 & Hn1 & O1 & S1 & U1)%elem_of_stop_rows. cbn in Hn1.
    apply elem_of_update_where in Hn1 as (n & Hn & ->). exists n. split; [done|].
    injection O1 as O1 _. destruct (p n) eqn:Ep.
    + destruct (Hf n Ep) as (O & E & S). injection O as O2 O3 _.
      assert (halted_run s' (NR_WorkflowRunID n')) as Hh' by (destruct U1 as [-> |E']; [by rewrite O3, E|by rewrite E']).
      split_and!; [congruence| |auto..].
      intros Hs. rewrite O1, O2. by apply S, S1.
    + assert (n' = n ∨ halted_run s' (NR_WorkflowRunID n')) as [-> |Hh'] by (destruct U1 as [-> |E']; [by left|right; by rewrite E']);
        split_and!; auto.
  - intros r' Hr' Hs. right. exists r'. auto.
Qed.

Lemma stop_status_halted st : stop_status st = true → halted st = true.
Proof. unfold halted. by intros ->. Qed.

(** Stopped rows are not succeeded ones. *)
Lemma stopped_runs p st e c (t : list Run) r' :
  stop_status st = true → r' ∈ update_where p (stopRunUpdates st e c) t →
  Run_Status r' = RunStatusSucceeded → r' ∈ t.
Proof.
  intros Hst (r & Hr & ->)%elem_of_update_where. destruct (p r); [|done].
  destruct (stopRunUpdates_keeps st e c r) as [-> _]. by intros ->.
Qed.

Lemma steps_StopWorkflowRun_moves in_ : steps (moves C P F D) (StopWorkflowRun in_).
Proof.
  intros s K. pose proof (steps_StopWorkflowRun in_ s) as Hev. revert Hev.
  destruct (stop_status (SRI_RunStatus_ in_)) eqn:Hs;
    [|unfold StopWorkflowRun; rewrite Hs; cbn; intros; by apply moved_frame].
  destruct (ValidRunStatusTransition (SRI_RunExpected in_) (SRI_RunStatus_ in_)) eqn:Hv;
    [|unfold StopWorkflowRun; rewrite Hs, Hv; cbn; intros; by apply moved_frame].
  rewrite StopWorkflowRun_eq by done. destruct (take_where _ _) as [run|] eqn:Et; [|intros; by apply moved_frame].
  destruct (_ == _); [|intros; by apply moved_frame]. cbn [snd]. intros Hev.
  apply take_where_Some in Et as [Hrun Erun%bool_decide_eq_true].
  eapply (moved_stop (SRI_WorkflowRunID in_) _ _ (λ _, false) id); [done| |done| |].
  - rewrite update_where_none; [by destruct s|]. unfold matching. by induction (st_nodes s).
  - exists (stopRunUpdates (SRI_RunStatus_ in_) (SRI_ErrorMessage in_) (SRI_FailureClass_ in_) run).
    split_and!.
    + cbn. apply elem_of_update_where. exists run. by rewrite bool_decide_eq_true_2.
    + by rewrite stopRunUpdates_id.
    + destruct (stopRunUpdates_keeps (SRI_RunStatus_ in_) (SRI_ErrorMessage in_) (SRI_FailureClass_ in_) run) as [-> _].
      by apply stop_status_halted.
  - intros r'. by apply stopped_runs.
Qed.

Lemma steps_BeginWorkflowRunDrain_moves in_ :
  (started (BD_NodeExpected in_) = false → P (BD_NodeRunID in_)) →
  steps (moves C P F D) (BeginWorkflowRunDrain in_).
Proof.
  intros HP s K. pose proof (steps_BeginWorkflowRunDrain in_ s) as Hev. revert Hev.
  destruct (BeginWorkflowRunDrain in_ s) as [[b|e] s'] eqn:E; cbn [snd]; intros Hev.
  2: { unfold BeginWorkflowRunDrain in E.
       repeat (destruct (negb _); [injection E as _ <-; by apply moved_frame|]).
       apply transaction_err in E as [n ->]. by apply moved_frame. }
  destruct (BeginWorkflowRunDrain_ok _ _ _ _ K E) as (Hst & Hexp & Hb).
  destruct b; [|destruct Hb as [-> _]; by apply moved_frame].
  destruct Hb as (run & node & f & Hrun & Erun & Est & _ & _ & _ & _ & Hf & ->).
  eapply (moved_stop (BD_WorkflowRunID in_)); [done|reflexivity| | |].
  - intros n [[E1%bool_decide_eq_true E2%bool_decide_eq_true]%andb_true_iff E3%bool_decide_eq_true]%andb_true_iff.
    split_and!; [apply Hf|done|]. intros _. rewrite E1, E3. destruct (started _) eqn:Es; auto.
  - exists (stopRunUpdates (BD_RunStatus_ in_) (BD_ErrorMessage in_) (BD_FailureClass_ in_) run). split_and!.
    + cbn. apply elem_of_update_where. exists run. by rewrite Hexp, !bool_decide_eq_true_2.
    + by rewrite stopRunUpdates_id.
    + destruct (stopRunUpdates_keeps (BD_RunStatus_ in_) (BD_ErrorMessage in_) (BD_FailureClass_ in_) run) as [-> _].
      by apply stop_status_halted.
  - intros r'. by apply stopped_runs.
Qed.
End StopMoves.

Section OtherMoves.
Context (C P F D : string → Prop) (gen session : nat → string).

(** One node of a running run moved to a live status. *)
Lemma moved_node node f s s' :
  keys_ok s → evolves s s' → node ∈ st_nodes s →
  st_nodes s' = update_where (λ n, NR_ID n == NR_ID node) f (st_nodes s) → st_runs s' = st_runs s →
  (∀ n, node_origin (f n) = node_origin n ∧ unsuccessful (NR_Status (f n)) = false) →
  C (NR_ID node) → (started (NR_Status node) = false → P (NR_ID node)) → moved C P F D s s'.
Proof.
  intros K Hev Hn En Er Hf HC HP. split; [done| |].
  - rewrite En. intros n' (n & Hn' & ->)%elem_of_update_where. exists n. split; [done|].
    destruct (bool_decide_reflect (NR_ID n = NR_ID node)) as [E|E]; [|auto].
    assert (n = node) as -> by (apply (NoDup_key NR_ID (st_nodes s)); [apply K|done..]).
    destruct (Hf node) as [O U]. injection O as O _. rewrite O, U. split_and!; [done| |done|auto].
    intros _. destruct (started (NR_Status node)) eqn:Es; auto.
  - rewrite Er. intros r Hr Hs. right. by exists r.
Qed.

Lemma steps_OpenWorkflowRequest_moves in_ :
  C (ORI_NodeRunID in_) →
  (started (ORI_NodeExpected in_) = false → P (ORI_NodeRunID in_)) →
  steps (moves C P F D) (OpenWorkflowRequest gen in_).
Proof.
  intros HC HP s K. pose proof (steps_OpenWorkflowRequest gen in_ s) as Hev. revert Hev.
  unfold OpenWorkflowRequest. destruct (negb _); [intros Hev; by apply moved_frame|].
  unfold mbind, eff_bind. destruct (asNotFound _ s) as [[o|e] s'] eqn:E.
  2: { intros Hev. apply asNotFound_transaction_err in E as [n ->]. by apply moved_frame. }
  intros Hev. assert (evolves s s') as Hev' by (destruct o; exact Hev). clear Hev.
  assert (moved C P F D s s') as Hm; [|destruct o; exact Hm].
  apply asNotFound_ok, transaction_ok in E.
  apply openRequestTx_ok in E as [(q & _ & -> & _)|[(_ & -> & _)|(q & _ & Ho)]];
    [by apply moved_frame|by apply moved_frame|].
  pose proof Ho as [_ (n & f & Hn & En & _ & Est & Hf & Es) Hid _ _].
  eapply (moved_node n f); [done|done|done|by rewrite Es|by rewrite Es| |by rewrite En|].
  - intros m. destruct (Hf m) as [? ->]. done.
  - rewrite Est, En. done.
Qed.

Lemma steps_ResolveWorkflowRequest_moves in_ : steps (moves C P F D) (ResolveWorkflowRequest in_).
Proof.
  apply steps_frame_moves; [apply steps_ResolveWorkflowRequest|]. unfold ResolveWorkflowRequest. flow_walk.
Qed.

(** Leases do not touch a status. *)
Lemma steps_change_runs_moves p f :
  steps evolves (change_runs p f) → (∀ r, Run_ID (f r) = Run_ID r ∧ Run_Status (f r) = Run_Status r) →
  steps (moves C P F D) (change_runs p f).
Proof.
  intros Hev Hf s _. split; [apply Hev| |]; cbn.
  - intros n Hn. exists n. auto 10.
  - intros r' (r & Hr & ->)%elem_of_update_where Hs. right. exists r. destruct (Hf r) as [E1 E2].
    by destruct (p r); rewrite ?E1, ?E2 in *.
Qed.

Lemma steps_ClaimWorkflowRunLease_moves in_ : steps (moves C P F D) (ClaimWorkflowRunLease in_).
Proof. apply steps_change_runs_moves; [apply steps_ClaimWorkflowRunLease|done]. Qed.

Lemma steps_ReleaseWorkflowRunLease_moves in_ : steps (moves C P F D) (ReleaseWorkflowRunLease in_).
Proof. apply steps_change_runs_moves; [apply steps_ReleaseWorkflowRunLease|done]. Qed.

Lemma steps_admitWorkflowNodeTask_moves in_ :
  C (coretask.CI_WorkflowNodeRunID in_) → P (coretask.CI_WorkflowNodeRunID in_) →
  steps (moves C P F D) (admitWorkflowNodeTask gen session in_).
Proof.
  intros HC HP s K. pose proof (steps_admitWorkflowNodeTask gen session in_ s) as Hev. revert Hev.
  destruct (admitWorkflowNodeTask gen session in_ s) as [[o|e] s'] eqn:E; cbn [snd]; intros Hev.
  2: { apply asNotFound_transaction_err in E as [n ->]. by apply moved_frame. }
  apply asNotFound_ok, transaction_ok, admitNodeTaskTx_ok in E as [(-> & _)|(node & task & _ & Hna)];
    [by apply moved_frame|].
  destruct Hna as [_ (Hn & En & _) _ (trun & s1 & f & Hcr & -> & Hf)].
  destruct (created_tables _ _ _ _ _ Hcr) as (_ & Er & _).
  eapply (moved_node node f); [done|done|done|done|done| |by rewrite En|].
  - intros n. destruct (Hf n) as (O & -> & _). done.
  - intros _. by rewrite En.
Qed.

Lemma steps_CreateTaskRun_moves in_ :
  readmits in_ → C (coretask.CRI_WorkflowNodeRunID in_) → steps (moves C P F D) (CreateTaskRun gen in_).
Proof.
  intros Hre HC. pose proof (steps_CreateTaskRun gen in_ Hre) as Hev.
  intros s K. specialize (Hev s). revert Hev. unfold CreateTaskRun, taskdb.CreateTaskRun.
  case_bool_decide as Hne; cbn [negb]; intros Hev.
  - assert (steps same_flow (transaction (createTaskRunTx gen (coretask.CRI_TaskID in_) in_))) as Hs by flow_walk.
    destruct (Hs s). by apply moved_frame.
  - destruct (admitWorkflowNodeRetryRun gen _ in_ s) as [[o|e] s'] eqn:E; cbn [snd] in *.
    2: { apply asNotFound_transaction_err in E as [n ->]. by apply moved_frame. }
    apply asNotFound_ok, transaction_ok, admitNodeRetryTx_ok in E as [(-> & _)|(node & Hna)];
      [by apply moved_frame|].
    destruct Hna as [_ (Hn & En & Est & _) (s1 & f & Hs1 & -> & Hf)].
    assert (st_runs s1 = st_runs s) as Er.
    { destruct Hs1 as [(-> & _)|Hx]; [done|]. destruct Hx as [_ _ _ _ Hframe _ _ _ _]. by rewrite Hframe. }
    eapply (moved_node node f); [done|done|done|done|done| |by rewrite En|].
    + intros n. destruct (Hf n) as (O & -> & _). done.
    + specialize (Hre Hne). rewrite <- Est, !elem_of_cons, elem_of_nil in Hre.
      destruct Hre as [Eq|[Eq|[]]]; apply NodeRunStatus_string_inj in Eq; by rewrite Eq.
Qed.
End OtherMoves.
