(* ===== verification/ReconcileSafety.v ===== *)
(** * ReconcileSafety: what the reconciler keeps true of every run

    The invariant [progress]: a node has started only where its needs have
    succeeded, a run that may still succeed has no unsuccessful node, and a
    succeeded run has only succeeded nodes.  It holds whatever other processes
    commit between two calls, as long as they keep it too. *)

From S2P Require Import Prelude Text Json TaskCore WorkflowCore WorkflowDefinition Store TaskStore.
From S2P Require Import WorkflowStore WorkflowLifecycle StoreProgram TaskService WorkflowSafety.
From S2P Require Import WorkflowReconcile ReconcileMoves.
From stdpp Require Import gmap.
Import db taskdb workflowdb taskservice workflow.
Import coretask.
Import coreworkflow.

(** ** The invariant *)

(** Every need of a node has succeeded in its run. *)
Definition needs_met (s : Store) (n : NodeRun) : Prop :=
  ∀ need, need ∈ NR_Needs n → ∃ m, m ∈ st_nodes s ∧ NR_WorkflowRunID m = NR_WorkflowRunID n ∧
    NR_NodeID m = need ∧ NR_Status m = NodeRunStatusSucceeded.

Record progress (s : Store) : Prop := {
  pg_keys : keys_ok s;
  pg_owned : ∀ n, n ∈ st_nodes s → NR_WorkflowRunID n ∈ map Run_ID (st_runs s);
  pg_needs : ∀ n, n ∈ st_nodes s → started (NR_Status n) = true → needs_met s n;
  pg_live : ∀ r n, r ∈ st_runs s → n ∈ st_nodes s → NR_WorkflowRunID n = Run_ID r →
    halted (Run_Status r) = false → unsuccessful (NR_Status n) = false;
  pg_done : ∀ r n, r ∈ st_runs s → n ∈ st_nodes s → NR_WorkflowRunID n = Run_ID r →
    Run_Status r = RunStatusSucceeded → NR_Status n = NodeRunStatusSucceeded;
}.

(** What one commit may do: keep the invariant, move rows along their
    lifecycles, and add nodes only to a run it creates. *)
Record advances (s s' : Store) : Prop := {
  ad_progress : progress s';
  ad_evolves : evolves s s';
  ad_nodes : ∀ n', n' ∈ st_nodes s' → (∃ n, n ∈ st_nodes s ∧ NR_ID n = NR_ID n') ∨
    NR_WorkflowRunID n' ∉ map Run_ID (st_runs s);
}.

Lemma advances_refl s : progress s → advances s s.
Proof. intros H. split; [done|done|]. intros n Hn. left. by exists n. Qed.

Lemma run_ids_evolve s s' : keys_ok s → evolves s s' → ∀ id, id ∈ map Run_ID (st_runs s) → id ∈ map Run_ID (st_runs s').
Proof.
  intros K Hev id (r & -> & Hr)%list_elem_of_fmap. destruct (follow_run s s' K Hev r Hr) as (r' & Hr' & _ & <-).
  by apply list_elem_of_fmap_2.
Qed.

Lemma advances_trans a b c : progress a → advances a b → advances b c → advances a c.
Proof.
  intros Ha [P1 V1 N1] [P2 V2 N2]. split; [done|by etransitivity|].
  intros n3 H3. destruct (N2 n3 H3) as [(n2 & H2 & E2)|Hnew].
  - destruct (N1 n2 H2) as [(n1 & H1 & E1)|Hnew]; [left; exists n1; split; [done|congruence]|].
    right. pose proof (node_of_id b c (pg_keys _ P1) V2 n2 n3 H2 H3 (eq_sym E2)) as [O _ _].
    injection O as _ O _. by rewrite O.
  - right. intros Hin. apply Hnew. by apply (run_ids_evolve a b (pg_keys _ Ha)).
Qed.

(** ** Knowledge that no commit invalidates *)

Definition stable (K : Store → Prop) : Prop := ∀ s s', progress s → K s → advances s s' → K s'.

(** A node that may start. *)
Definition ready (id : string) (s : Store) : Prop :=
  ∃ n, n ∈ st_nodes s ∧ NR_ID n = id ∧ needs_met s n.

(** All a run's nodes are terminal. *)
Definition finished (id : string) (s : Store) : Prop :=
  id ∈ map Run_ID (st_runs s) ∧
  ∀ n, n ∈ st_nodes s → NR_WorkflowRunID n = id → NodeRunStatusTerminal (NR_Status n) = true.

(** A node of a run that will not succeed. *)
Definition of_halted (id : string) (s : Store) : Prop :=
  ∃ n, n ∈ st_nodes s ∧ NR_ID n = id ∧ halted_run s (NR_WorkflowRunID n).

Lemma needs_met_evolves s s' n n' :
  keys_ok s → evolves s s' → NR_WorkflowRunID n' = NR_WorkflowRunID n → NR_Needs n' = NR_Needs n →
  needs_met s n → needs_met s' n'.
Proof.
  intros K Hev E1 E2 Hn need. rewrite E1, E2. intros (m & Hm & Em1 & Em2 & Em3)%Hn.
  destruct (follow_node s s' K Hev m Hm) as (m' & Hm' & [_ _ F] & _). rewrite (F ltac:(by rewrite Em3)) in Hm'.
  by exists m.
Qed.

(** A bounded move keeps the invariant when what it may start is ready, what it
    may fail is of a halted run, and what it may finish is finished. *)
Lemma moved_advances C P F D s s' :
  progress s → moved C P F D s s' → (∀ i, P i → ready i s) → (∀ i, F i → of_halted i s) →
  (∀ i, D i → finished i s) → advances s s'.
Proof.
  intros [K Ow Ne Li Do] [V N R] HP HF HD.
  pose proof (keys_ok_evolves _ _ V K) as K'.
  assert (∀ n', n' ∈ st_nodes s' → ∃ n, n ∈ st_nodes s ∧ NR_ID n = NR_ID n' ∧ node_evolves n n') as Hback.
  { intros n' Hn'. destruct (N n' Hn') as (n & Hn & E & _). exists n. split_and!; [done|done|].
    by apply (node_of_id s s'). }
  assert (∀ r', r' ∈ st_runs s' → Run_ID r' ∈ map Run_ID (st_runs s) →
    ∃ r, r ∈ st_runs s ∧ Run_ID r = Run_ID r' ∧ run_evolves r r') as Hrun.
  { intros r' Hr' (r & E & Hr)%list_elem_of_fmap. exists r. split_and!; [done|done|]. by apply (run_of_id s s'). }
  split; [|done|intros n' Hn'; left; destruct (Hback n' Hn') as (n & ? & ? & _); eauto].
  split; [done| | | |].
  - intros n' Hn'. destruct (Hback n' Hn') as (n & Hn & _ & [O _ _]). injection O as _ O _. rewrite O.
    by apply (run_ids_evolve s s' K V), Ow.
  - intros n' Hn' Hs. destruct (N n' Hn') as (n & Hn & E & S & _ & _).
    destruct (node_of_id s s' K V n n' Hn Hn' (eq_sym E)) as [O _ _]. injection O as _ O1 _ _ _ O2 _.
    apply (needs_met_evolves s s' n n' K V O1 O2).
    destruct (S Hs) as [Hs0|Hp]; [by apply Ne|]. destruct (HP _ Hp) as (n0 & Hn0 & En0 & Hmet0).
    assert (n0 = n) as -> by (apply (NoDup_key NR_ID (st_nodes s)); [apply K|done..|congruence]). done.
  - intros r' n' Hr' Hn' E Hh. destruct (N n' Hn') as (n & Hn & Eid & _ & U & _).
    destruct (node_of_id s s' K V n n' Hn Hn' (eq_sym Eid)) as [O _ _]. injection O as _ O1 _.
    assert (∀ id, halted_run s' id → id = Run_ID r' → False) as Hno.
    { intros id (r2 & Hr2 & E2 & Hh2) ->.
      assert (r2 = r') as -> by (by apply (NoDup_key Run_ID (st_runs s')); [apply K'|..]). congruence. }
    apply not_true_is_false. intros Hu.
    destruct (Hrun r' Hr') as (r & Hr & Er & [_ S _ _]); [rewrite <- E, O1; by apply Ow|].
    destruct (U Hu) as [Hu0|[Hf|Hf]].
    + destruct (halted (Run_Status r)) eqn:Hhr; [by rewrite (halted_rtc _ _ S Hhr) in Hh|].
      rewrite (Li r n Hr Hn) in Hu0; [done|congruence|done].
    + apply (Hno (NR_WorkflowRunID n)); [|congruence]. apply (halted_run_evolves s s' K V).
      destruct (HF _ Hf) as (n0 & Hn0 & En0 & Hmet0).
      assert (n0 = n) as -> by (apply (NoDup_key NR_ID (st_nodes s)); [apply K|done..|congruence]). done.
    + by apply (Hno _ Hf).
  - intros r' n' Hr' Hn' E Hs. destruct (Hback n' Hn') as (n & Hn & Eid & [O _ Fz]). injection O as _ O1 _.
    destruct (Hrun r' Hr') as (r & Hr & Er & [_ S _ _]); [rewrite <- E, O1; by apply Ow|].
    destruct (R r' Hr' Hs) as [Hd|(r0 & Hr0 & E0 & Hs0)].
    + destruct (HD _ Hd) as [_ Hfin]. assert (NodeRunStatusTerminal (NR_Status n) = true) as Ht by (apply Hfin; congruence).
      rewrite (Fz Ht).
      assert (unsuccessful (NR_Status n) = false) as Hu.
      { apply (Li r n Hr Hn); [congruence|]. destruct (halted (Run_Status r)) eqn:Hhr; [|done].
        pose proof (halted_rtc _ _ S Hhr) as Hh. by rewrite Hs in Hh. }
      by destruct (NR_Status n).
    + assert (NR_Status n = NodeRunStatusSucceeded) as Hsn by (apply (Do r0 n); [done|done|congruence|done]).
      rewrite (Fz ltac:(by rewrite Hsn)). done.
Qed.

Lemma stable_and K1 K2 : stable K1 → stable K2 → stable (λ s, K1 s ∧ K2 s).
Proof. intros H1 H2 s s' Hp [? ?] Ha. split; eauto. Qed.

Lemma stable_pure (φ : Prop) : stable (λ _, φ).
Proof. by intros s s' _ H _. Qed.

Lemma stable_ready id : stable (ready id).
Proof.
  intros s s' Hp (n & Hn & E & Hm) Ha.
  destruct (follow_node s s' (pg_keys _ Hp) (ad_evolves _ _ Ha) n Hn) as (n' & Hn' & [O _ _] & E').
  injection O as _ O1 _ _ _ O2 _. exists n'. split_and!; [done|congruence|].
  eapply needs_met_evolves; [apply Hp|apply Ha|done|done|done].
Qed.

Lemma stable_of_halted id : stable (of_halted id).
Proof.
  intros s s' Hp (n & Hn & E & Hm) Ha.
  destruct (follow_node s s' (pg_keys _ Hp) (ad_evolves _ _ Ha) n Hn) as (n' & Hn' & [O _ _] & E').
  injection O as _ O1 _. exists n'. split_and!; [done|congruence|]. rewrite O1.
  eapply halted_run_evolves; [apply Hp|apply Ha|done].
Qed.

Lemma stable_halted_run id : stable (λ s, halted_run s id).
Proof. intros s s' Hp Hh Ha. eapply halted_run_evolves; [apply Hp|apply Ha|done]. Qed.

Lemma stable_finished id : stable (finished id).
Proof.
  intros s s' Hp [Hin Hf] Ha. split; [eapply run_ids_evolve; [apply Hp|apply Ha|done]|].
  intros n' Hn' E. destruct (ad_nodes _ _ Ha n' Hn') as [(n & Hn & En)|Hnew]; [|congruence].
  destruct (node_of_id s s' (pg_keys _ Hp) (ad_evolves _ _ Ha) n n' Hn Hn' (eq_sym En)) as [O _ F].
  injection O as _ O1 _. assert (NodeRunStatusTerminal (NR_Status n) = true) as Ht by (apply Hf; congruence).
  by rewrite (F Ht).
Qed.

(** What was read of a run: its nodes, all of them, which only move on. *)
Record seen (id : string) (steps : list NodeRun) (s : Store) : Prop := {
  se_run : id ∈ map Run_ID (st_runs s);
  se_nodes : ∀ n, n ∈ steps → NR_WorkflowRunID n = id ∧ ∃ n', n' ∈ st_nodes s ∧ node_evolves n n';
  se_all : ∀ n', n' ∈ st_nodes s → NR_WorkflowRunID n' = id → ∃ n, n ∈ steps ∧ NR_ID n = NR_ID n';
}.

Lemma stable_seen id steps : stable (seen id steps).
Proof.
  intros s s' Hp [Hr Hn Hall] Ha. split.
  - eapply run_ids_evolve; [apply Hp|apply Ha|done].
  - intros n Hin. destruct (Hn n Hin) as [E (n1 & H1 & V1)]. split; [done|].
    destruct (follow_node s s' (pg_keys _ Hp) (ad_evolves _ _ Ha) n1 H1) as (n2 & H2 & V2 & _).
    exists n2. split; [done|by etransitivity].
  - intros n' Hn' E. destruct (ad_nodes _ _ Ha n' Hn') as [(n & H1 & En)|Hnew]; [|congruence].
    destruct (node_of_id s s' (pg_keys _ Hp) (ad_evolves _ _ Ha) n n' H1 Hn' (eq_sym En)) as [O _ _].
    injection O as _ O1 _. destruct (Hall n H1) as (n0 & Hn0 & E0); [congruence|]. exists n0. split; [done|congruence].
Qed.

(** ** Safe programs *)

Section Safe.
(** What the caller knows while the program runs. *)
Context (K : Store → Prop).

Definition safe {A} (m : DB A) : Prop := ∀ s, progress s → K s → advances s (m s).2.

Lemma safe_quiet {A} (m : DB A) : (∀ s, (m s).2 = s) → safe m.
Proof. intros Hm s Hp _. rewrite Hm. by apply advances_refl. Qed.

Lemma safe_ret {A} (a : A) : safe (mret a).
Proof. by apply safe_quiet. Qed.

Lemma safe_fail {A} e : safe (@fail error Store A e).
Proof. by apply safe_quiet. Qed.

Lemma safe_gets {A} (f : Store → A) : safe (gets f).
Proof. by apply safe_quiet. Qed.

(** A bounded operation under what is known. *)
Lemma safe_moves {A} (P F D : string → Prop) (m : DB A) :
  steps (moves any P F D) m → (∀ s i, K s → P i → ready i s) → (∀ s i, K s → F i → of_halted i s) →
  (∀ s i, keys_ok s → K s → D i → finished i s) → safe m.
Proof.
  intros Hm HP HF HD s Hp Hk. eapply moved_advances; [done|apply Hm, Hp|..]; intros i Hi; eauto using pg_keys.
Qed.

Lemma safe_none {A} (m : DB A) : steps (moves any none none none) m → safe m.
Proof. intros Hm. by eapply safe_moves; [exact Hm|..]. Qed.

Context (HK : stable K).

Lemma safe_catch {A} (m : DB A) h : safe m → (∀ e, safe (h e)) → safe (catch m h).
Proof.
  intros Hm Hh s Hp Hk. unfold catch. specialize (Hm s Hp Hk).
  destruct (m s) as [[a|e] s']; [done|]. cbn in Hm.
  eapply advances_trans; [done|exact Hm|]. apply Hh; [apply Hm|by eapply HK].
Qed.

Lemma safe_bind {A B} (m : DB A) (f : A → DB B) : safe m → (∀ a, safe (f a)) → safe (m ≫= f).
Proof.
  intros Hm Hf s Hp Hk. unfold mbind, eff_bind. specialize (Hm s Hp Hk).
  destruct (m s) as [[a|e] s']; [|done]. cbn in Hm.
  eapply advances_trans; [done|exact Hm|]. apply Hf; [apply Hm|by eapply HK].
Qed.
End Safe.

Lemma safe_strengthen (K K' : Store → Prop) {A} (m : DB A) :
  (∀ s, K' s → K s) → safe K m → safe K' m.
Proof. intros H Hm s Hp Hk. by apply Hm, H. Qed.

(** The continuation also knows what [m] established. *)
Lemma safe_bind_know (K : Store → Prop) {A B} (Q : A → Store → Prop) (m : DB A) (f : A → DB B) :
  stable K → safe K m → (∀ s a s', progress s → K s → m s = (Ok a, s') → Q a s') →
  (∀ a, safe (λ s, K s ∧ Q a s) (f a)) → safe K (m ≫= f).
Proof.
  intros HK Hm HQ Hf s Hp Hk. unfold mbind, eff_bind. pose proof (Hm s Hp Hk) as Ha.
  destruct (m s) as [[a|e] s'] eqn:E; [|done]. cbn in Ha.
  eapply advances_trans; [done|exact Ha|]. apply Hf; [apply Ha|]. split; [by eapply HK|by eapply HQ].
Qed.

Create HintDb bm_safe.
#[export] Hint Resolve safe_ret safe_fail safe_gets stable_and stable_pure stable_ready stable_of_halted
  stable_halted_run stable_finished stable_seen : bm_safe.

(** Split a program along its structure; the leaves are the component's facts. *)
Ltac safe_walk :=
  repeat lazymatch goal with
  | |- forall _, _ => intro
  | |- safe _ (mbind _ _) => apply safe_bind
  | |- safe _ (catch _ _) => apply safe_catch
  | |- safe _ (let _ := _ in _) => cbv zeta
  | |- safe _ (match ?x with _ => _ end) => destruct x eqn:?
  | |- safe _ _ => solve [eauto 4 with bm_safe]
  | |- stable _ => solve [eauto 4 with bm_safe]
  end.

(** ** What the reconciler needs of its Task service *)

Class TaskServiceSafe (ts : TaskService) : Prop := {
  (** Admitting a node's Task starts no other node. *)
  tss_AdmitWorkflowTask : ∀ cmd, safe (ready (CTC_WorkflowNodeRunID cmd)) (ts_AdmitWorkflowTask cmd);
  (** The next run of a node starts none. *)
  tss_AdmitWorkflowRetryRun : ∀ cmd, safe (λ _, True) (ts_AdmitWorkflowRetryRun cmd);
  tss_AdmitWorkflowAnswerRun : ∀ cmd, safe (λ _, True) (ts_AdmitWorkflowAnswerRun cmd);
  tss_RequestRunCancel : ∀ id by_ reason at_, safe (λ _, True) (ts_RequestRunCancel id by_ reason at_);
}.

Section Reconciler.
Context {env : Env} {ts : TaskService} {Hts : TaskServiceSafe ts}.
(** Between two calls other processes keep the invariant. *)
Context (Hothers : ∀ s, progress s → advances s (others s)).

Lemma safe_call (K : Store → Prop) {A} (m : DB A) : stable K → safe K m → safe K (call m).
Proof.
  intros HK Hm s Hp Hk. unfold call, after. pose proof (Hothers s Hp) as Ha.
  eapply advances_trans; [done|exact Ha|]. apply Hm; [apply Ha|by eapply HK].
Qed.

Section Known.
Context (K : Store → Prop) (HK : stable K).

Lemma safe_read {A} (f : Store → A) : safe K (call (λ s, (Ok (f s), s))).
Proof. apply safe_call; [done|]. by apply safe_quiet. Qed.

Lemma safe_ask {A} (f : Store → res error A) : safe K (call (λ s, (f s, s))).
Proof. apply safe_call; [done|]. by apply safe_quiet. Qed.

Lemma safe_or_empty {A} (e : A) table id (f : Store → A) :
  safe K (call (or_empty e (_ ← lookupKey table id; gets f))).
Proof.
  apply safe_call; [done|]. apply safe_quiet. intros s. unfold or_empty, catch, lookupKey. eff_unfold.
  by destruct (resolves s table id).
Qed.

Lemma safe_GetTaskRun id : safe K (call (GetTaskRun id)).
Proof. apply safe_read. Qed.
Lemma safe_GetTask id : safe K (call (GetTask id)).
Proof. apply safe_read. Qed.
Lemma safe_GetWorkflow id : safe K (call (GetWorkflow id)).
Proof. apply safe_read. Qed.
Lemma safe_GetWorkflowRun id : safe K (call (GetWorkflowRun id)).
Proof. apply safe_read. Qed.
Lemma safe_GetWorkflowRequest id : safe K (call (GetWorkflowRequest id)).
Proof. apply safe_read. Qed.
Lemma safe_ListWorkflowRequestsByRun id : safe K (call (ListWorkflowRequestsByRun id)).
Proof. apply safe_read. Qed.
Lemma safe_ListWorkflowNodeRuns id : safe K (call (ListWorkflowNodeRuns id)).
Proof. apply safe_or_empty. Qed.
Lemma safe_GetWorkflowRevision id n : safe K (call (GetWorkflowRevision id n)).
Proof. apply safe_or_empty. Qed.
Lemma safe_GetWorkflowNodeRunByTaskRunID id : safe K (call (GetWorkflowNodeRunByTaskRunID id)).
Proof. apply safe_or_empty. Qed.
Lemma safe_GetWorkflowNodeRunByTaskID id : safe K (call (GetWorkflowNodeRunByTaskID id)).
Proof. apply safe_or_empty. Qed.
Lemma safe_now : safe K now.
Proof. apply safe_gets. Qed.

Lemma safe_retry cmd : safe K (ts_AdmitWorkflowRetryRun cmd).
Proof. eapply safe_strengthen; [|apply tss_AdmitWorkflowRetryRun]. done. Qed.
Lemma safe_answer cmd : safe K (ts_AdmitWorkflowAnswerRun cmd).
Proof. eapply safe_strengthen; [|apply tss_AdmitWorkflowAnswerRun]. done. Qed.
Lemma safe_cancel id by_ reason at_ : safe K (ts_RequestRunCancel id by_ reason at_).
Proof. eapply safe_strengthen; [|apply tss_RequestRunCancel]. done. Qed.

(** Writes that start and fail nothing. *)
Lemma safe_transition in_ :
  (started (TN_NewStatus in_) = true → started (TN_ExpectedStatus in_) = true) →
  unsuccessful (TN_NewStatus in_) = false → safe K (call (TransitionWorkflowNodeRun in_)).
Proof.
  intros H1 H2. apply safe_call; [done|]. apply safe_none, steps_TransitionWorkflowNodeRun_moves; [done|auto|].
  by rewrite H2.
Qed.

Lemma safe_drain in_ : started (BD_NodeExpected in_) = true → safe K (call (BeginWorkflowRunDrain in_)).
Proof.
  intros H. apply safe_call; [done|]. apply safe_none, steps_BeginWorkflowRunDrain_moves. by rewrite H.
Qed.

Lemma safe_stop in_ : safe K (call (StopWorkflowRun in_)).
Proof. apply safe_call; [done|]. apply safe_none, steps_StopWorkflowRun_moves. Qed.

Lemma safe_resolve in_ : safe K (call (ResolveWorkflowRequest in_)).
Proof. apply safe_call; [done|]. apply safe_none, steps_ResolveWorkflowRequest_moves. Qed.

Lemma safe_question in_ : started (ORI_NodeExpected in_) = true → safe K (call (OpenWorkflowRequest gen in_)).
Proof.
  intros H. apply safe_call; [done|]. apply safe_none, steps_OpenWorkflowRequest_moves; [done|]. by rewrite H.
Qed.

Lemma safe_claim in_ : safe K (call (ClaimWorkflowRunLease in_)).
Proof. apply safe_call; [done|]. apply safe_none, steps_ClaimWorkflowRunLease_moves. Qed.

Lemma safe_release in_ : safe K (call (ReleaseWorkflowRunLease in_)).
Proof. apply safe_call; [done|]. apply safe_none, steps_ReleaseWorkflowRunLease_moves. Qed.
End Known.
Hint Resolve safe_read safe_ask safe_GetTaskRun safe_GetTask safe_GetWorkflow safe_GetWorkflowRun
  safe_GetWorkflowRequest safe_ListWorkflowRequestsByRun safe_ListWorkflowNodeRuns safe_GetWorkflowRevision
  safe_GetWorkflowNodeRunByTaskRunID safe_GetWorkflowNodeRunByTaskID safe_now safe_retry safe_answer
  safe_cancel safe_stop safe_resolve safe_claim safe_release : bm_safe.
Hint Extern 2 (safe _ (call (TransitionWorkflowNodeRun _))) => (apply safe_transition; done) : bm_safe.
Hint Extern 2 (safe _ (call (BeginWorkflowRunDrain _))) => (apply safe_drain; done) : bm_safe.
Hint Extern 2 (safe _ (call (OpenWorkflowRequest _ _))) => (apply safe_question; done) : bm_safe.

(** *** Folding *)

Section Folding.
Context (K : Store → Prop) (HK : stable K).

Lemma safe_stepTaskRun step : safe K (stepTaskRun step).
Proof. unfold stepTaskRun. safe_walk. Qed.

Lemma safe_nodeOutputEnvelope n : safe K (nodeOutputEnvelope n).
Proof. unfold nodeOutputEnvelope, nodeArtifacts. safe_walk. Qed.
Hint Resolve safe_nodeOutputEnvelope : bm_safe.

Lemma safe_bindingSourceDocument run src l : safe K (bindingSourceDocument run src l).
Proof. unfold bindingSourceDocument. safe_walk. Qed.

Lemma safe_selectPointer e doc p : safe K (selectPointer e doc p).
Proof. unfold selectPointer. safe_walk. Qed.
Hint Resolve safe_bindingSourceDocument safe_selectPointer : bm_safe.

Lemma safe_resolveBindings run l bs : safe K (resolveBindings run l bs).
Proof. induction bs as [|b bs IH]; cbn [resolveBindings]; safe_walk. Qed.

Lemma safe_runDefinition run : safe K (runDefinition run).
Proof. unfold runDefinition. safe_walk. Qed.
Hint Resolve safe_runDefinition : bm_safe.

Lemma safe_resolveRunResult run l : safe K (resolveRunResult run l).
Proof. unfold resolveRunResult. safe_walk. Qed.

Lemma safe_failAdmission run node from message st at_ {A} e :
  started from = true → safe K (@failAdmission _ run node from message st at_ A e).
Proof. intros H. unfold failAdmission. safe_walk. Qed.

Lemma safe_applyAnswer run node req at_ : safe K (applyAnswer run node req at_).
Proof. unfold applyAnswer. safe_walk. by apply safe_failAdmission. Qed.
Hint Resolve safe_stepTaskRun safe_applyAnswer : bm_safe.

Lemma safe_foldWaiting run latest at_ wake steps : safe K (foldWaiting run latest at_ wake steps).
Proof. revert wake. induction steps as [|n steps IH]; intros wake; cbn [foldWaiting]; safe_walk. Qed.
Hint Resolve safe_foldWaiting : bm_safe.

Lemma safe_foldWaitingNodes run steps at_ : safe K (foldWaitingNodes run steps at_).
Proof. unfold foldWaitingNodes. safe_walk. Qed.

Lemma safe_foldRunning run at_ active steps : safe K (foldRunning run at_ active steps).
Proof.
  revert active. induction steps as [|n steps IH]; intros active; cbn [foldRunning]; [safe_walk|].
  unfold cancelTimedOutAttempt, openQuestionRequest, applyNodeSuccess, scheduleRetry, finalizeFailedFromNode.
  safe_walk.
Qed.

Lemma safe_dispatchRetry userID run node : safe K (dispatchRetry userID run node).
Proof. unfold dispatchRetry. safe_walk. by apply safe_failAdmission. Qed.
End Folding.
Hint Resolve safe_stepTaskRun safe_resolveBindings safe_runDefinition safe_resolveRunResult
  safe_foldWaitingNodes safe_foldRunning safe_dispatchRetry : bm_safe.

(** *** Dispatching what was read *)

Section Dispatching.
Context (run : Run) (steps : list NodeRun).
Local Notation K := (seen (Run_ID run) steps).

Lemma byNID_Some l id n : byNID l id = Some n → n ∈ l ∧ NR_NodeID n = id.
Proof.
  intros [H E%bool_decide_eq_true]%take_where_Some. split; [|done].
  apply list_elem_of_In, in_rev, list_elem_of_In. done.
Qed.

(** A node of the snapshot whose needs had succeeded is ready ever after. *)
Lemma seen_ready s step :
  K s → step ∈ steps → nodeReady step (λ id, NR_Status <$> byNID steps id) = true → ready (NR_ID step) s.
Proof.
  intros [_ Hn _] Hin Hready. destruct (Hn step Hin) as [E (n' & Hn' & [O _ _])].
  injection O as O1 O2 _ _ _ O3 _. exists n'. split_and!; [done|done|].
  intros need. rewrite O3. intros Hneed. unfold nodeReady in Hready. rewrite forallb_forall in Hready.
  apply list_elem_of_In, Hready, bool_decide_eq_true in Hneed.
  destruct (byNID steps need) as [m|] eqn:Em; [|done]. cbn in Hneed. injection Hneed as Hs.
  apply byNID_Some in Em as [Hm Eid]. destruct (Hn m Hm) as [Er (m' & Hm' & [_ _ F])].
  rewrite (F ltac:(by rewrite Hs)) in Hm'. exists m. split_and!; [done|congruence|done|done].
Qed.

Lemma safe_pending_drain (Q : Store → Prop) in_ :
  stable Q → (∀ s, Q s → ready (BD_NodeRunID in_) s) → safe Q (call (BeginWorkflowRunDrain in_)).
Proof.
  intros HQ Hr. apply safe_call; [done|].
  eapply (safe_moves _ (λ i, i = BD_NodeRunID in_) none none); [by apply steps_BeginWorkflowRunDrain_moves| | |done].
  - intros s i Hs ->. by apply Hr.
  - done.
Qed.

Section Node.
Context (step : NodeRun).
Local Notation KR := (λ s, K s ∧ ready (NR_ID step) s).

Lemma stable_KR : stable KR.
Proof. safe_walk. Qed.

Lemma safe_failAdmission_pending from message st at_ {A} e :
  safe KR (@failAdmission _ run step from message st at_ A e).
Proof.
  pose proof stable_KR as HS. unfold failAdmission. apply safe_bind; [done| |intros; apply safe_fail].
  apply safe_pending_drain; [done|]. by intros s [_ H].
Qed.

Lemma safe_openInputRequest at_ : safe KR (openInputRequest run step steps at_).
Proof.
  pose proof stable_KR as HS. unfold openInputRequest, resolveStepBindings. safe_walk.
  - apply safe_failAdmission_pending.
  - apply safe_call; [done|].
    eapply (safe_moves _ (λ i, i = NR_ID step) none none);
      [by apply steps_OpenWorkflowRequest_moves| |done|done].
    by intros s i [_ H] ->.
Qed.

Lemma safe_createStepTask spaceID userID : safe KR (createStepTask spaceID userID run step steps).
Proof.
  pose proof stable_KR as HS. unfold createStepTask, stepAgent, resolveStepBindings. safe_walk.
  eapply safe_strengthen; [|apply tss_AdmitWorkflowTask]. by intros s [_ H].
Qed.

Lemma safe_start in_ :
  TN_NodeRunID in_ = NR_ID step → unsuccessful (TN_NewStatus in_) = false →
  safe KR (call (TransitionWorkflowNodeRun in_)).
Proof.
  intros E U. pose proof stable_KR as HS. apply safe_call; [done|].
  eapply (safe_moves _ (λ i, i = NR_ID step) none none);
    [apply steps_TransitionWorkflowNodeRun_moves; [done|by auto|by rewrite U]| |done|done].
  by intros s i [_ H] ->.
Qed.

Lemma safe_dispatchNode userID spaceID : safe KR (dispatchNode userID run steps spaceID step).
Proof.
  pose proof stable_KR as HS. unfold dispatchNode. safe_walk.
  - apply safe_createStepTask.
  - apply safe_failAdmission_pending.
  - by apply safe_start.
Qed.
End Node.

Lemma safe_ready {A} (step : NodeRun) (m : DB A) :
  step ∈ steps → nodeReady step (λ id, NR_Status <$> byNID steps id) = true →
  safe (λ s, K s ∧ ready (NR_ID step) s) m → safe K m.
Proof. intros Hin Hr Hm. eapply safe_strengthen; [|exact Hm]. intros s Hs. split; [done|by apply seen_ready]. Qed.

Lemma safe_dispatchLoop userID limit at_ d rest :
  (∀ n, n ∈ rest → n ∈ steps) → safe K (dispatchLoop userID run steps limit at_ d rest).
Proof.
  pose proof (stable_seen (Run_ID run) steps) as HS. revert d.
  induction rest as [|step rest IH]; intros d Hsub; cbn [dispatchLoop]; [safe_walk|].
  assert (step ∈ steps) as Hstep by (apply Hsub; by left).
  assert (∀ d, safe K (dispatchLoop userID run steps limit at_ d rest)) as Hrec
    by (intros d'; apply IH; intros n Hn; apply Hsub; by right).
  cbv zeta. destruct (NR_Status step); try apply Hrec.
  - destruct (nodeReady step _) eqn:Hready; cbn [negb]; [|apply Hrec].
    destruct (_ == _).
    + apply safe_bind; [done|by apply (safe_ready step), safe_openInputRequest|intros; apply Hrec].
    + destruct (_ <=? _)%Z; [safe_walk|].
      apply safe_bind; [done|by apply (safe_ready step), safe_dispatchNode|intros; apply Hrec].
  - destruct (_ && _); [apply Hrec|]. destruct (_ <=? _)%Z; [safe_walk|].
    apply safe_bind; [done|by apply safe_dispatchRetry|intros; apply Hrec].
Qed.

(** What a loop that ends without leaving work behind saw. *)
Lemma dispatchLoop_ok userID limit at_ d rest s d' s' :
  dispatchLoop userID run steps limit at_ d rest s = (Ok d', s') →
  (ds_running d <= ds_running d')%Z ∧
  (ds_pendingRemains d' = false → ds_pendingRemains d = false ∧
     ∀ n, n ∈ rest → NodeRunStatusTerminal (NR_Status n) = true ∨ NR_Status n = NodeRunStatusRunning).
Proof.
  revert d s. induction rest as [|step rest IH]; intros d s; cbn [dispatchLoop]; cbv zeta.
  { intros [-> _]%ret_ok. split; [done|]. intros H. split; [done|]. by intros n ?%not_elem_of_nil. }
  assert (∀ d1 s1, (ds_running d <= ds_running d1)%Z →
    dispatchLoop userID run steps limit at_ d1 rest s1 = (Ok d', s') →
    (ds_running d <= ds_running d')%Z ∧ (ds_pendingRemains d' = false → ds_pendingRemains d1 = false ∧
      ∀ n, n ∈ rest → NodeRunStatusTerminal (NR_Status n) = true ∨ NR_Status n = NodeRunStatusRunning)) as Hrec.
  { intros d1 s1 Hle H. destruct (IH d1 s1 H) as [H1 H2]. split; [lia|done]. }
  assert (∀ d1 s1, (ds_running d <= ds_running d1)%Z → ds_pendingRemains d1 = true →
    dispatchLoop userID run steps limit at_ d1 rest s1 = (Ok d', s') →
    (ds_running d <= ds_running d')%Z ∧ (ds_pendingRemains d' = false → ds_pendingRemains d = false ∧
      ∀ n, n ∈ step :: rest → NodeRunStatusTerminal (NR_Status n) = true ∨ NR_Status n = NodeRunStatusRunning)) as Hpend.
  { intros d1 s1 Hle Hp H. destruct (Hrec d1 s1 Hle H) as [H1 H2]. split; [done|]. intros Hf.
    destruct (H2 Hf). congruence. }
  assert (∀ s1, NodeRunStatusTerminal (NR_Status step) = true ∨ NR_Status step = NodeRunStatusRunning →
    dispatchLoop userID run steps limit at_ d rest s1 = (Ok d', s') →
    (ds_running d <= ds_running d')%Z ∧ (ds_pendingRemains d' = false → ds_pendingRemains d = false ∧
      ∀ n, n ∈ step :: rest → NodeRunStatusTerminal (NR_Status n) = true ∨ NR_Status n = NodeRunStatusRunning)) as Hskip.
  { intros s1 Ht H. destruct (Hrec d s1 ltac:(lia) H) as [H1 H2]. split; [done|]. intros Hf.
    destruct (H2 Hf) as [H3 H4]. split; [done|]. intros n [-> |Hn]%elem_of_cons; [done|by apply H4]. }
  destruct (NR_Status step) eqn:Est; try (apply Hskip; by auto).
  - destruct (negb _); [by apply Hpend|]. destruct (_ == _).
    { intros (u & s1 & _ & H)%eff_bind_ok. by eapply Hpend in H. }
    destruct (_ <=? _)%Z; [by intros [-> _]%ret_ok|].
    intros (sp & s1 & _ & H)%eff_bind_ok. eapply Hpend in H; [done|cbn; lia|done].
  - destruct (_ && _); [by apply Hpend|]. destruct (_ <=? _)%Z; [by intros [-> _]%ret_ok|].
    intros (sp & s1 & _ & H)%eff_bind_ok. eapply Hpend in H; [done|cbn; lia|done].
  - by apply Hpend.
Qed.

Lemma seen_finished s :
  (∀ n, n ∈ steps → NodeRunStatusTerminal (NR_Status n) = true) → keys_ok s → K s → finished (Run_ID run) s.
Proof.
  intros Hall Hk [Hr Hn Hc]. split; [done|]. intros n' Hn' E.
  destruct (Hc n' Hn' E) as (n & Hin & Eid). destruct (Hn n Hin) as [_ (n1 & H1 & V)].
  assert (n1 = n) as -> by (apply V, Hall, Hin).
  assert (n = n') as <-; [|by apply Hall].
  by apply (NoDup_key NR_ID (st_nodes s)); [apply Hk|..].
Qed.

Lemma safe_dispatchReadyNodes spaceID userID limit at_ :
  safe K (dispatchReadyNodes spaceID userID run steps limit at_).
Proof.
  pose proof (stable_seen (Run_ID run) steps) as HS. unfold dispatchReadyNodes. cbv zeta.
  eapply (safe_bind_know _ (λ d _, ds_pendingRemains d = false → (ds_running d <= 0)%Z →
    ∀ n, n ∈ steps → NodeRunStatusTerminal (NR_Status n) = true));
    [done|by apply safe_dispatchLoop| |].
  { intros s d s' _ _ H Hp Hr. apply dispatchLoop_ok in H as [Hle H]. destruct (H Hp) as [_ Hall]. cbn in Hle.
    intros n Hn. destruct (Hall n Hn) as [|Erun]; [done|]. exfalso.
    assert (0 < matching (λ n, NR_Status n == NodeRunStatusRunning) steps) as Hpos; [|lia].
    apply (matching_pos _ _ n Hn). by apply bool_decide_eq_true. }
  intros d. pose proof (stable_pure (ds_pendingRemains d = false → (ds_running d <= 0)%Z →
    ∀ n, n ∈ steps → NodeRunStatusTerminal (NR_Status n) = true)) as HP.
  pose proof (stable_and _ _ HS HP) as HQ. cbv beta in HQ.
  destruct (ds_pendingRemains d) eqn:Ep; cbn [orb]; [apply safe_ret|].
  destruct (Z.ltb_spec 0 (ds_running d)) as [|Er]; [apply safe_ret|].
  safe_walk. apply safe_call; [done|].
  eapply (safe_moves _ none none (λ i, i = Run_ID run));
    [by apply steps_TransitionWorkflowRun_moves|done|done|].
  intros s i Hk [Hs Hall] ->. apply seen_finished; [by apply Hall|done|done].
Qed.

(** *** Draining *)

Local Notation KH := (λ s, K s ∧ halted_run s (Run_ID run)).

Lemma seen_of_halted s n : KH s → n ∈ steps → of_halted (NR_ID n) s.
Proof.
  intros [[_ Hn _] Hh] Hin. destruct (Hn n Hin) as [E (n' & Hn' & [O _ _])]. injection O as O1 O2 _.
  exists n'. split_and!; [done|done|]. by rewrite O2, E.
Qed.

Lemma safe_drainNodes at_ active rest :
  (∀ n, n ∈ rest → n ∈ steps) → safe KH (drainNodes at_ active rest).
Proof.
  assert (stable KH) as HS by safe_walk. revert active.
  induction rest as [|n rest IH]; intros active Hsub; cbn [drainNodes]; [safe_walk|].
  assert (∀ b, safe KH (drainNodes at_ b rest)) as Hrec by (intros b; apply IH; intros m Hm; apply Hsub; by right).
  safe_walk. apply safe_call; [done|].
  eapply (safe_moves _ none (λ i, i = NR_ID n) none);
    [apply steps_TransitionWorkflowNodeRun_moves; [done|by left|by right]|done| |done].
  intros s1 i Hk ->. apply seen_of_halted; [done|apply Hsub; by left].
Qed.

Lemma safe_drainRun at_ : safe KH (drainRun run steps at_).
Proof.
  assert (stable KH) as HS by safe_walk. unfold drainRun.
  apply safe_bind; [done|by apply safe_drainNodes|]. intros []; safe_walk.
  all: apply safe_call; [done|]; apply safe_none, steps_TransitionWorkflowRun_moves; by case_bool_decide.
Qed.
End Dispatching.

(** *** The pass *)

Lemma ListWorkflowNodeRuns_seen id s l s' :
  id ∈ map Run_ID (st_runs s) → ListWorkflowNodeRuns id s = (Ok l, s') → s' = s ∧ seen id l s.
Proof.
  intros Hid. unfold ListWorkflowNodeRuns, or_empty. rewrite catch_ok. intros [H|(e & s1 & H & _)].
  - inv_eff H. split; [done|]. split; [done| |].
    + intros n. rewrite merge_sort_Permutation. intros [Hn Er%bool_decide_eq_true]%elem_of_rows.
      split; [done|]. by exists n.
    + intros n Hn Er. exists n. split; [|done]. rewrite merge_sort_Permutation. apply elem_of_rows.
      by rewrite bool_decide_eq_true_2.
  - exfalso. unfold lookupKey in H. revert H. eff_unfold.
    assert (resolves s "workflow_run" id = true) as ->; [by apply bool_decide_eq_true_2|done].
Qed.

Lemma GetWorkflowRun_found id s r s' :
  GetWorkflowRun id s = (Ok (Some r), s') → s' = s ∧ r ∈ st_runs s ∧ Run_ID r = id.
Proof.
  intros [E ->]%gets_ok. symmetry in E. by apply take_where_Some in E as [H E%bool_decide_eq_true].
Qed.

Definition run_known (id : string) (s : Store) : Prop := id ∈ map Run_ID (st_runs s).

Lemma stable_run_known id : stable (run_known id).
Proof. intros s s' Hp H Ha. eapply run_ids_evolve; [apply Hp|apply Ha|done]. Qed.
Hint Resolve stable_run_known : bm_safe.

(** Knowledge established by a call holds at the state the call left. *)
Lemma safe_call_know (K : Store → Prop) {A B} (Q : A → Store → Prop) (m : DB A) (f : A → DB B) :
  stable K → safe K (call m) → (∀ s a s', K s → m s = (Ok a, s') → Q a s') →
  (∀ a, safe (λ s, K s ∧ Q a s) (f a)) → safe K (call m ≫= f).
Proof.
  intros HK Hm HQ Hf. eapply safe_bind_know; [done|done| |exact Hf].
  intros s a s' Hp Hk E. unfold call, after in E. eapply HQ; [|exact E].
  by apply (HK s); [..|apply Hothers].
Qed.

(** The nodes listed of a known run are seen. *)
Lemma safe_list_know (K : Store → Prop) {B} id (f : list NodeRun → DB B) :
  stable K → (∀ s, K s → run_known id s) → (∀ l, safe (λ s, K s ∧ seen id l s) (f l)) →
  safe K (call (ListWorkflowNodeRuns id) ≫= f).
Proof.
  intros HK Hr Hf. eapply safe_call_know; [done|safe_walk| |exact Hf].
  intros s l s' Hk E. by destruct (ListWorkflowNodeRuns_seen id s l s' (Hr s Hk) E) as [-> H].
Qed.

Lemma safe_reconcilePass fuel id at_ : safe (λ _, True) (reconcilePass fuel id at_).
Proof.
  induction fuel as [|fuel IH]; cbn [reconcilePass]; [safe_walk|]. unfold passStep.
  eapply (safe_call_know _ (λ o s, ∀ r, o = Some r → Run_ID r = id ∧ run_known id s ∧
    (halted (Run_Status r) = true → halted_run s id))); [safe_walk|safe_walk| |].
  { intros s o s' _ E r ->. apply GetWorkflowRun_found in E as (-> & Hr & E).
    split_and!; [done|by rewrite <- E; apply list_elem_of_fmap_2|by exists r]. }
  intros [run|]; [|safe_walk].
  destruct (RunStatusTerminal _) eqn:Ht; [apply safe_ret|].
  eapply (safe_strengthen (λ s, (Run_ID run = id ∧ run_known id s) ∧
    (halted (Run_Status run) = true → halted_run s id))).
  { intros s [_ H]. destruct (H run eq_refl) as (? & ? & ?). auto. }
  assert (stable (λ s, halted (Run_Status run) = true → halted_run s id)) as H1.
  { intros s s' Hp H Ha Hh. eapply stable_halted_run; eauto. }
  assert (∀ φ, stable φ → stable (λ s, φ s ∧ (halted (Run_Status run) = true → halted_run s id))) as H2
    by (intros φ Hφ; by apply stable_and).
  assert (stable (λ s, Run_ID run = id ∧ run_known id s)) as H3 by safe_walk.
  apply safe_list_know; [by apply H2|by intros s [[_ ?] _]|]. intros steps.
  pose proof (stable_and _ _ (H2 _ H3) (stable_seen id steps)) as H4. cbv beta in H4.
  assert (∀ (K : Store → Prop), safe K (reconcilePass fuel id at_)) as Hrec
    by (intros K; eapply safe_strengthen; [|exact IH]; done).
  destruct (_ || _) eqn:Edrain.
  { eapply safe_strengthen; [|apply safe_drainRun]. intros s [[[<- _] Hh] Hs]. split; [done|]. apply Hh.
    unfold halted, stop_status. by rewrite Edrain. }
  destruct (time_arrived _ _); [safe_walk|].
  apply safe_bind; [done|by apply safe_foldRunning|]. intros folded. destruct folded.2; [done|].
  apply safe_bind; [done|by apply safe_foldWaitingNodes|]. intros waited. destruct waited.2; [done|].
  apply safe_list_know; [done|by intros s [[[_ ?] _] _]|]. intros steps2.
  pose proof (stable_and _ _ H4 (stable_seen id steps2)) as H5. cbv beta in H5.
  safe_walk. eapply safe_strengthen; [|apply safe_dispatchReadyNodes].
  by intros s [[[[<- _] _] _] Hs].
Qed.

Lemma safe_newPublicID (K : Store → Prop) g : safe K (newPublicID g).
Proof. apply safe_none. intros s. apply moves_fresh. Qed.
Hint Resolve safe_newPublicID safe_reconcilePass : bm_safe.

Lemma safe_Reconcile fuel id : safe (λ _, True) (Reconcile fuel id).
Proof. unfold Reconcile. safe_walk. Qed.

Lemma safe_HandleTaskRunTerminal fuel a b : safe (λ _, True) (HandleTaskRunTerminal fuel a b).
Proof. pose proof safe_Reconcile. unfold HandleTaskRunTerminal. safe_walk. Qed.
End Reconciler.

(** ** The Task service keeps its side *)

Section Service.
Context (tgen session : nat → string) (rest : Store → Store) (ags : Store → agentdef.Store error).
Context (quota : option (Store → string → Z → Z → res error (option string))).
Context (titles : option (string → res error (string * Z * Z))).
Context (Hrest : ∀ s, progress s → advances s (rest s)).

Lemma safe_after (K : Store → Prop) {A} (m : DB A) : stable K → safe K m → safe K (after rest m).
Proof.
  intros HK Hm s Hp Hk. unfold after. pose proof (Hrest s Hp) as Ha.
  eapply advances_trans; [done|exact Ha|]. apply Hm; [apply Ha|by eapply HK].
Qed.

Lemma safe_after_read (K : Store → Prop) {A} (m : DB A) :
  stable K → (∀ s, (m s).2 = s) → safe K (after rest m).
Proof. intros HK Hm. apply safe_after; [done|]. by apply safe_quiet. Qed.

Lemma safe_after_frame (K : Store → Prop) {A} (m : DB A) :
  stable K → steps evolves m → steps same_flow m → safe K (after rest m).
Proof. intros HK Hev Hf. apply safe_after; [done|]. apply safe_none. by apply steps_moved_frame. Qed.

Lemma safe_checkQuota (K : Store → Prop) sp n : stable K → safe K (checkQuota rest quota sp n).
Proof. intros HK. unfold checkQuota. safe_walk. by apply safe_after_read. Qed.

Lemma safe_buildCreateInput (K : Store → Prop) cmd :
  stable K → safe K (buildCreateInput rest ags quota titles cmd).
Proof.
  intros HK. unfold buildCreateInput, resolveInput, readAgent. safe_walk.
  - by apply safe_after_read.
  - by apply safe_checkQuota.
Qed.

Lemma steps_AdmitTask_moves in_ :
  coretask.CI_WorkflowNodeRunID in_ ≠ ""%string →
  steps (moves any (λ i, i = coretask.CI_WorkflowNodeRunID in_) none none)
    (AdmitTask tgen session (λ s, (Ok tt, rest s)) in_).
Proof.
  intros Hne. unfold AdmitTask, taskdb.AdmitTask. case_bool_decide; [by apply steps_fail, moves_preorder|].
  rewrite bool_decide_eq_false_2 by done. cbn [negb]. by apply steps_admitWorkflowNodeTask_moves.
Qed.

(** The plain path of [AdmitTask] commits between its own steps. *)
Lemma safe_AdmitTask_plain in_ :
  coretask.CI_WorkflowNodeRunID in_ = ""%string →
  safe (λ _, True) (AdmitTask tgen session (λ s, (Ok tt, rest s)) in_).
Proof.
  intros E. unfold AdmitTask, taskdb.AdmitTask. case_bool_decide; [apply safe_fail|].
  rewrite E, bool_decide_eq_true_2 by done. cbn [negb]. cbv zeta.
  assert (∀ t fp, safe (λ _, True) (admittedTaskOrConflict t fp)) as Hadm.
  { intros t fp. unfold admittedTaskOrConflict, GetTask. safe_walk. }
  apply safe_bind; [safe_walk|unfold taskByAdmissionKey; apply safe_gets|]. intros [t|]; [apply Hadm|].
  intros s Hp _. unfold mbind at 1, eff_bind at 1.
  destruct (newTaskRows session in_ s) as [[rows|e] s1] eqn:Hrows.
  2: { pose proof (same_flow_newTaskRows session in_ s) as H1. pose proof (steps_newTaskRows session in_ s) as H2.
       rewrite Hrows in H1, H2. cbn in *. destruct H1.
       eapply (moved_advances any none none none); [done|by apply moved_frame|done..]. }
  pose proof (newTaskRows_same _ _ _ _ _ Hrows) as ->. cbn [snd].
  match goal with |- advances _ ((?m ≫= ?k) ?s).2 => assert (safe (λ _, True) (m ≫= k)) as Hs; [|by apply Hs] end.
  apply safe_bind; [safe_walk|intros s1 Hp1 _; by apply Hrest|]. intros _.
  apply safe_catch; [safe_walk| |].
  - apply safe_bind; [safe_walk| |intros; apply safe_ret]. apply safe_none, steps_moved_frame.
    + by eapply steps_createTaskTx.
    + flow_walk.
  - intros e. unfold taskByAdmissionKey. safe_walk.
Qed.

Lemma safe_admitWorkflowNodeRun userID previous in_ :
  readmits in_ → safe (λ _, True) (admitWorkflowNodeRun tgen rest quota userID previous in_).
Proof.
  intros Hre. unfold admitWorkflowNodeRun. safe_walk.
  - by apply safe_after_read; [safe_walk|].
  - by apply safe_checkQuota, stable_pure.
  - apply safe_after; [safe_walk|]. by apply safe_none, steps_CreateTaskRun_moves.
Qed.

#[export] Instance service_safe : TaskServiceSafe (service tgen session rest ags quota titles).
Proof.
  split; cbn.
  - intros cmd. unfold AdmitWorkflowTask. destruct (_ == _); [apply safe_fail|].
    eapply safe_bind_know; [safe_walk|by apply safe_buildCreateInput, stable_ready| |].
    { intros s a s' _ _ H. instantiate (1 := λ a _, coretask.CI_WorkflowNodeRunID a = CTC_WorkflowNodeRunID cmd).
      revert H. unfold buildCreateInput. rewrite eff_bind_ok. intros (((x & y) & z) & s1 & _ & H).
      apply eff_bind_ok in H as (u & s2 & _ & H). destruct (normalizeCreateTaskProvenance _ _).
      destruct (resolveTitle _ _ _) as [[? ?] ?]. by apply ret_ok in H as [-> _]. }
    intros create. destruct (decide (coretask.CI_WorkflowNodeRunID create = ""%string)) as [E|E].
    + apply safe_after; [safe_walk|]. eapply safe_strengthen; [|by apply safe_AdmitTask_plain]. done.
    + apply safe_after; [safe_walk|]. eapply safe_moves; [by apply steps_AdmitTask_moves| |done|done].
      intros s i [Hr E2] ->. by rewrite E2.
  - intros cmd. apply safe_admitWorkflowNodeRun. intros _. cbn. set_solver.
  - intros cmd. apply safe_admitWorkflowNodeRun. intros _. cbn. set_solver.
  - intros id by_ reason at_. unfold RequestRunCancel. safe_walk.
    + apply safe_after_frame; [safe_walk|apply steps_RequestTaskRunCancel|apply same_flow_RequestTaskRunCancel].
    + apply safe_after_frame; [safe_walk|apply steps_TransitionTaskRun|apply same_flow_TransitionTaskRun].
Qed.
End Service.

(** ** The theorem, and an executable check of the invariant *)

(** C1: reconciling a run, however its calls interleave with what other
    processes commit, keeps the dependency order and the outcome of every run.
    Whatever [others] does between two calls, as long as it advances the store,
    [Reconcile] advances it: a started node's needs have succeeded in its run, a
    run that may still succeed has no failed or canceled node, a succeeded run
    has only succeeded nodes, rows move only along their lifecycles and no node
    is added to a run. *)
Theorem Reconcile_progress {env : Env} session quota titles fuel workflowRunID (s : Store) :
  (∀ s, progress s → advances s (others s)) → progress s →
  advances s (@Reconcile env (service gen session others agents quota titles) fuel workflowRunID s).2.
Proof.
  intros Ho Hs. pose proof (service_safe gen session others agents quota titles Ho) as Hts.
  by apply safe_Reconcile.
Qed.

Definition progress_check (s : Store) : bool :=
  let met n need := existsb (λ m, (NR_WorkflowRunID m == NR_WorkflowRunID n) && (NR_NodeID m == need)
                                  && (NR_Status m == NodeRunStatusSucceeded)) (st_nodes s) in
  forallb (λ n, bool_decide (NR_WorkflowRunID n ∈ map Run_ID (st_runs s))
                && (negb (started (NR_Status n)) || forallb (met n) (NR_Needs n))) (st_nodes s)
  && forallb (λ r, forallb (λ n, (NR_WorkflowRunID n != Run_ID r)
       || ((halted (Run_Status r) || negb (unsuccessful (NR_Status n)))
           && ((Run_Status r != RunStatusSucceeded) || (NR_Status n == NodeRunStatusSucceeded)))) (st_nodes s))
       (st_runs s).

Lemma progress_check_ok s : keys_ok s → progress_check s = true → progress s.
Proof.
  intros K [Hn Hr]%andb_true_iff. rewrite forallb_forall in Hn, Hr.
  assert (∀ r n, r ∈ st_runs s → n ∈ st_nodes s → NR_WorkflowRunID n = Run_ID r →
    (halted (Run_Status r) || negb (unsuccessful (NR_Status n)))
    && ((Run_Status r != RunStatusSucceeded) || (NR_Status n == NodeRunStatusSucceeded)) = true) as H.
  { intros r n Hir Hin E. specialize (Hr r ltac:(by apply list_elem_of_In)). rewrite forallb_forall in Hr.
    specialize (Hr n ltac:(by apply list_elem_of_In)). by rewrite bool_decide_eq_true_2 in Hr. }
  split; [done| | | |].
  - intros n Hin%list_elem_of_In. by apply Hn, andb_true_iff in Hin as [?%bool_decide_eq_true _].
  - intros n Hin%list_elem_of_In Hst need Hneed%list_elem_of_In. apply Hn, andb_true_iff in Hin as [_ Hin].
    rewrite Hst in Hin. cbn [negb orb] in Hin. rewrite forallb_forall in Hin. specialize (Hin need Hneed).
    apply existsb_exists in Hin as (m & Hm%list_elem_of_In & Hin). exists m.
    apply andb_true_iff in Hin as [[?%bool_decide_eq_true ?%bool_decide_eq_true]%andb_true_iff ?%bool_decide_eq_true].
    done.
  - intros r n Hir Hin E Hh. specialize (H r n Hir Hin E). rewrite Hh in H. cbn [orb] in H.
    by apply andb_true_iff in H as [?%negb_true_iff _].
  - intros r n Hir Hin E Hs. specialize (H r n Hir Hin E). rewrite Hs in H.
    by apply andb_true_iff in H as [_ ?%bool_decide_eq_true].
Qed.

(** ** A witness: a worker that finishes an attempt while the reconciler runs *)

Definition sample_finish (from to : coretask.RunStatus) : coretask.TransitionRunInput :=
  coretask.mkTransitionRunInput "id_5" from to None None (Some "done"%string) None None None None None None None None "".

(** It is given the TaskRun [id_5], takes it up and succeeds, in three commits. *)
Definition sample_worker (s : Store) : Store :=
  let s1 := (TransitionTaskRun (sample_finish coretask.RunStatusPending coretask.RunStatusScheduled) s).2 in
  let s2 := (TransitionTaskRun (sample_finish coretask.RunStatusScheduled coretask.RunStatusRunning) s1).2 in
  (TransitionTaskRun (sample_finish coretask.RunStatusRunning coretask.RunStatusSucceeded) s2).2.

Lemma advances_TransitionTaskRun in_ s : progress s → advances s (TransitionTaskRun in_ s).2.
Proof.
  intros Hp. assert (safe (λ _, True) (TransitionTaskRun in_)) as H; [|by apply H].
  apply safe_none, steps_moved_frame; [apply steps_TransitionTaskRun|apply same_flow_TransitionTaskRun].
Qed.

Lemma sample_worker_advances s : progress s → advances s (sample_worker s).
Proof.
  intros Hp. unfold sample_worker. cbv zeta.
  repeat match goal with |- context [(TransitionTaskRun ?i s).2] =>
    pose proof (advances_TransitionTaskRun i s Hp) as H1; revert H1; generalize (TransitionTaskRun i s).2 end.
  intros s1 H1. eapply advances_trans; [exact Hp|exact H1|].
  eapply advances_trans; [apply H1|by apply advances_TransitionTaskRun, H1|]. apply advances_TransitionTaskRun.
  eapply ad_progress, advances_TransitionTaskRun, H1.
Qed.

Definition sample_node : DefinitionNode :=
  mkDefinitionNode "a" NodeTypeAgentTask [] (mkNodeAgent "agt" 1) (mkNodeInput "go" []) "none" None None.

#[local] Instance sample_agent_store : agentdef.Store error := {|
  agentdef.GetAgent id := Ok (Some (agentdef.mkAgent id "spc" "Agent" "" "do it" 1 "" "" None));
  agentdef.GetAgentIncludingDeleted id := Ok (Some (agentdef.mkAgent id "spc" "Agent" "" "do it" 1 "" "" None));
  agentdef.GetAgentRevision id n := Ok None |}.

Definition sample_env (others : Store → Store) : Env := {|
  gen := sample_gen; others := others; agents := λ _, sample_agent_store; Artifacts := None;
  Unmarshal := λ _, Some (mkDefinition_ 1 None None [sample_node] None);
  render := λ _, ""%string; num64 := λ n, n; quote := λ n, n; formatTime := λ _, ""%string;
  Error := λ _, "failed"%string |}.

Definition sample_reconcile (others : Store → Store) (s : Store) : Store :=
  (@Reconcile (sample_env others) (service sample_gen sample_gen others (λ _, sample_agent_store) None None)
    2 "id_1" s).2.

(** The first pass admits the node's task; once the worker finished it, the
    second succeeds the node and the run. *)
Lemma Reconcile_progress_witness :
  let s1 := sample_reconcile sample_worker workflow_store in
  let s2 := sample_reconcile sample_worker s1 in
  progress s1 ∧ map NR_Status (st_nodes s1) = [NodeRunStatusRunning] ∧
  map Run_Status (st_runs s2) = [RunStatusSucceeded] ∧ map NR_Status (st_nodes s2) = [NodeRunStatusSucceeded].
Proof.
  split.
  - exact (ad_progress _ _ (@Reconcile_progress (sample_env sample_worker) sample_gen None None 2 "id_1"%string
      workflow_store sample_worker_advances (progress_check_ok workflow_store (so_keys _ workflow_store_ok)
        ltac:(vm_compute; reflexivity)))).
  - vm_compute. auto.
Defined.
