(* ===== verification/WorkflowCommands.v ===== *)
(** * WorkflowCommands: what a person or a schedule may ask of workflows

    The command half of internal/service/workflow/service.go and request.go:
    editing, publishing and restoring workflows, starting and canceling a run,
    answering a request, and the recovery sweep of
    internal/server/scheduler/workflow_recovery.go.  Audit events are written
    best effort to a table nothing here reads, and are left out. *)

From S2P Require Import Prelude Text Json JsonSchema TaskCore WorkflowCore WorkflowGraph WorkflowDefinition Store.
From S2P Require Import TaskStore WorkflowStore WorkflowLifecycle StoreProgram TaskService WorkflowSafety.
From S2P Require Import WorkflowReconcile ReconcileMoves ReconcileSafety.
From stdpp Require Import gmap.
Import db.

Module workflowapi.
Import coreworkflow.
Import taskservice.
Import workflow.
Import definition.
Local Open Scope string_scope.

(** ** Commands *)

Record CreateWorkflowCmd : Type := mkCreateWorkflowCmd {
  CWC_SpaceID : string;
  CWC_UserID : string;
  CWC_Name : string;
  CWC_Description : string;
  CWC_Definition : string
}.
#[export] Instance CreateWorkflowCmd_updatable : Updatable CreateWorkflowCmd := λ r,
  mkCreateWorkflowCmd (CWC_SpaceID r) (CWC_UserID r) (CWC_Name r) (CWC_Description r) (CWC_Definition r).

Record UpdateWorkflowCmd : Type := mkUpdateWorkflowCmd {
  UWC_SpaceID : string;
  UWC_UserID : string;
  UWC_WorkflowID : string;
  UWC_Name : option string;
  UWC_Description : option string;
  UWC_Definition : option string;
  UWC_Status : option string;
  UWC_ExpectedRevision : option Z
}.
#[export] Instance UpdateWorkflowCmd_updatable : Updatable UpdateWorkflowCmd := λ r,
  mkUpdateWorkflowCmd (UWC_SpaceID r) (UWC_UserID r) (UWC_WorkflowID r) (UWC_Name r) (UWC_Description r)
    (UWC_Definition r) (UWC_Status r) (UWC_ExpectedRevision r).

Record RestoreWorkflowRevisionCmd : Type := mkRestoreWorkflowRevisionCmd {
  RWC_SpaceID : string;
  RWC_UserID : string;
  RWC_WorkflowID : string;
  RWC_Revision : Z
}.
#[export] Instance RestoreWorkflowRevisionCmd_updatable : Updatable RestoreWorkflowRevisionCmd := λ r,
  mkRestoreWorkflowRevisionCmd (RWC_SpaceID r) (RWC_UserID r) (RWC_WorkflowID r) (RWC_Revision r).

Record StartWorkflowRunCmd : Type := mkStartWorkflowRunCmd {
  SWC_SpaceID : string;
  SWC_UserID : string;
  SWC_WorkflowID : string;
  SWC_IssueID : option string;
  SWC_ScheduleID : option string;
  SWC_ConversationID : option string;
  SWC_RequestedBy : string;
  SWC_AssistantID : string;
  SWC_AssistantRevision : Z;
  SWC_Input : string
}.
#[export] Instance StartWorkflowRunCmd_updatable : Updatable StartWorkflowRunCmd := λ r,
  mkStartWorkflowRunCmd (SWC_SpaceID r) (SWC_UserID r) (SWC_WorkflowID r) (SWC_IssueID r) (SWC_ScheduleID r)
    (SWC_ConversationID r) (SWC_RequestedBy r) (SWC_AssistantID r) (SWC_AssistantRevision r)
    (SWC_Input r).

(** The response is the raw JSON of the answer. *)
Record RespondToRequestCmd : Type := mkRespondToRequestCmd {
  RRC_SpaceID : string;
  RRC_UserID : string;
  RRC_RequestID : string;
  RRC_Action : string;
  RRC_Response : string;
  RRC_Reason : string
}.
#[export] Instance RespondToRequestCmd_updatable : Updatable RespondToRequestCmd := λ r,
  mkRespondToRequestCmd (RRC_SpaceID r) (RRC_UserID r) (RRC_RequestID r) (RRC_Action r) (RRC_Response r)
    (RRC_Reason r).

(** The parts of a coreissue.Issue an admission reads. *)
Record Issue : Type := mkIssue {
  Iss_ID : string;
  Iss_SpaceID : string;
  Iss_ExecutorKind : option string;
  Iss_ExecutorID : option string
}.
#[export] Instance Issue_updatable : Updatable Issue := λ r,
  mkIssue (Iss_ID r) (Iss_SpaceID r) (Iss_ExecutorKind r) (Iss_ExecutorID r).

(** ** Refusals *)

Definition ErrIssuesNotConfigured := ErrService "issues not configured".
Definition ErrWorkflowNameRequired := ErrService "workflow name required".
Definition ErrWorkflowDefinitionRequired := ErrService "workflow definition required".
Definition ErrWorkflowNameTooLong := ErrService "workflow name is too long".
Definition ErrWorkflowDescriptionTooLong := ErrService "workflow description is too long".
Definition ErrWorkflowRunNotFound := ErrService "workflow run not found".
Definition ErrWorkflowRevisionNotFound := ErrService "workflow revision not found".
Definition ErrIssueNotFound := ErrService "issue not found".
Definition ErrIssueWorkflowMismatch := ErrService "issue not assigned to workflow".
Definition ErrInvalidWorkflowStatus := ErrService "invalid workflow status".
Definition ErrWorkflowNotPublished := ErrService "workflow not published".
Definition ErrWorkflowArchived := ErrService "workflow archived".
Definition ErrWorkflowRequestNotFound := ErrService "workflow request not found".
Definition ErrWorkflowRequestResolved :=
  ErrService "this request was already answered, declined, expired, or canceled".
Definition ErrInvalidRequestResponse := ErrService "invalid response".
Definition ErrInvalidRequestAction := ErrService "invalid action: must be answer or decline".
Definition ErrWorkflowRunFinished := ErrService "this workflow run has already finished".
Definition ErrWorkflowRunStoppingFailed := ErrService "this workflow run is already stopping after a failure".

(** A refusal of the definition half, as the caller sees it. *)
Definition definitionError (e : definition.error) : db.error :=
  match e with
  | definition.ErrInvalidDefinition => workflow.ErrInvalidDefinition
  | ErrUnsupportedSchemaVersion => ErrService "unsupported workflow schema_version"
  | ErrInvalidInputSchema => ErrService "invalid workflow input_schema"
  | definition.ErrInvalidResult => ErrService "invalid workflow result"
  | ErrInvalidRunInput => ErrService "invalid workflow run input"
  | ErrInvalidNodeType => ErrService "invalid workflow node type"
  | ErrInvalidHumanInputNode => ErrService "invalid human_input node"
  | ErrInvalidNodeID => ErrService "invalid workflow node id"
  | ErrInvalidNeeds => ErrService "invalid workflow node needs"
  | ErrInvalidPolicy => ErrService "invalid workflow policy"
  | ErrInvalidNodePolicy => ErrService "invalid workflow node policy"
  | ErrInvalidIssueAccess => ErrService "invalid workflow node issue_access"
  | ErrInvalidAgentRevision => ErrService "invalid workflow node agent revision"
  | ErrIssueRequired => ErrService "workflow run requires an issue"
  | definition.ErrInvalidBinding => ErrService "invalid workflow node binding"
  | ErrInvalidOutputSchema => ErrService "invalid workflow node output_schema"
  | definition.ErrInvalidTargetAgent => workflow.ErrInvalidTargetAgent
  | ErrStore => ErrService "agent store"
  end.

(** The agent store as the definition half sees it: which of its errors a read
    returned does not matter there. *)
Definition definitionAgents (ags : agentdef.Store db.error) : agentdef.Store definition.error := {|
  agentdef.GetAgent id := match @agentdef.GetAgent _ ags id with Ok a => Ok a | Err _ => Err ErrStore end;
  agentdef.GetAgentIncludingDeleted id :=
    match @agentdef.GetAgentIncludingDeleted _ ags id with Ok a => Ok a | Err _ => Err ErrStore end;
  agentdef.GetAgentRevision id rev :=
    match @agentdef.GetAgentRevision _ ags id rev with Ok a => Ok a | Err _ => Err ErrStore end |}.

Definition maxWorkflowNameRunes : Z := 255.
Definition maxWorkflowDescriptionBytes : Z := 65535.

Definition isValidWorkflowStatus (status : string) : option Status :=
  if status == "draft" then Some StatusDraft
  else if status == "published" then Some StatusPublished
  else if status == "archived" then Some StatusArchived
  else None.

Definition outputSchemaSnapshot (schema : option json) : option json := schema.

Definition reportStatusFor (cmd : StartWorkflowRunCmd) : ReportStatus :=
  if (SWC_AssistantID cmd == "") || bool_decide (ref_of (SWC_ConversationID cmd) = None)
  then ReportNone else ReportPending.

(** The map from node id to its place in the order; a missing key reads 0. *)
Definition topoIndex (order : list string) (id : string) : Z :=
  default 0%Z (foldl (λ m '(idx, id), <[id := Z.of_nat idx]> m)
                 (∅ : gmap string Z) (imap pair order) !! id).

Section Commands.
Context {env : Env} {ts : TaskService}.
(** [json.Marshal] of a definition, and what a JSON text decodes to. *)
Context (Marshal : Definition_ → string) (Decode : string → option json).
(** The issue store, where one is wired. *)
Context (Issues : option (db.Store → string → res db.error (option Issue))).

Definition or_fail {A} (e : db.error) (o : option A) : DB A :=
  match o with Some a => mret a | None => fail e end.

(** A computation of the definition half over the agents of one moment. *)
Definition with_agents {A} (f : agentdef.Store definition.error → res definition.error A) : DB A :=
  call (λ s, (match f (definitionAgents (agents s)) with
              | Ok a => Ok a
              | Err e => Err (definitionError e)
              end, s)).

Definition parseAndValidate (spaceID raw : string) : DB (Definition_ * gmap string agentdef.Agent) :=
  with_agents (λ ags, @parseAndValidateDefinition ags spaceID (Unmarshal raw)).

(** ** Workflows *)

Definition ListWorkflows (spaceID : string) : DB (list Workflow) :=
  call (workflowdb.ListWorkflowsBySpace spaceID).

Definition CreateWorkflow (cmd : CreateWorkflowCmd) : DB Workflow :=
  let name := TrimSpace (CWC_Name cmd) in
  if name == "" then fail ErrWorkflowNameRequired
  else if util.ExceedsRuneLimit name maxWorkflowNameRunes then fail ErrWorkflowNameTooLong
  else if util.ExceedsByteLimit (TrimSpace (CWC_Description cmd)) maxWorkflowDescriptionBytes
  then fail ErrWorkflowDescriptionTooLong
  else if TrimSpace (CWC_Definition cmd) == "" then fail ErrWorkflowDefinitionRequired
  else
    _ ← parseAndValidate (CWC_SpaceID cmd) (CWC_Definition cmd);
    call (workflowdb.CreateWorkflow gen (CWC_SpaceID cmd) (CWC_UserID cmd)
            (TrimSpace (CWC_Name cmd)) (TrimSpace (CWC_Description cmd)) (CWC_Definition cmd)).

Definition GetWorkflow (spaceID workflowID : string) : DB Workflow :=
  workflow ← call (workflowdb.GetWorkflow workflowID);
  match workflow with
  | None => fail ErrWorkflowNotFound
  | Some workflow => if Wf_SpaceID workflow != spaceID then fail ErrWorkflowNotFound else mret workflow
  end.

(** The definition text an update stores: publishing pins and canonicalizes,
    any other update only validates what it was given. *)
Definition updatedDefinition (cmd : UpdateWorkflowCmd) (status : option Status) : DB (option string) :=
  if status == Some StatusPublished then
    raw ← match UWC_Definition cmd with
          | Some raw => mret raw
          | None =>
              current ← GetWorkflow (UWC_SpaceID cmd) (UWC_WorkflowID cmd);
              mret (Wf_Definition current)
          end;
    parsed ← parseAndValidate (UWC_SpaceID cmd) raw;
    mret (Some (Marshal (pinDefinitionAgents parsed.1 parsed.2)))
  else
    match UWC_Definition cmd with
    | Some raw => _ ← parseAndValidate (UWC_SpaceID cmd) raw; mret (Some raw)
    | None => mret None
    end.

Definition UpdateWorkflow (cmd : UpdateWorkflowCmd) : DB Workflow :=
  if match UWC_Definition cmd with Some raw => TrimSpace raw == "" | None => false end
  then fail ErrWorkflowDefinitionRequired
  else if match UWC_Name cmd with
          | Some name => util.ExceedsRuneLimit (TrimSpace name) maxWorkflowNameRunes
          | None => false
          end
  then fail ErrWorkflowNameTooLong
  else if match UWC_Description cmd with
          | Some text => util.ExceedsByteLimit text maxWorkflowDescriptionBytes
          | None => false
          end
  then fail ErrWorkflowDescriptionTooLong
  else
    status ← match UWC_Status cmd with
             | None => mret None
             | Some status => status ← or_fail ErrInvalidWorkflowStatus (isValidWorkflowStatus status);
                              mret (Some status)
             end;
    definition ← updatedDefinition cmd status;
    expected ← match UWC_ExpectedRevision cmd with
               | Some revision => mret revision
               | None =>
                   current ← GetWorkflow (UWC_SpaceID cmd) (UWC_WorkflowID cmd);
                   mret (Wf_Revision current)
               end;
    updated ← call (workflowdb.UpdateWorkflow (λ s, (Ok tt, others s)) (UWC_WorkflowID cmd) (UWC_SpaceID cmd) {|
      UpI_Name := UWC_Name cmd; UpI_Description := UWC_Description cmd; UpI_Definition := definition;
      UpI_Status := status; UpI_ExpectedRevision := expected; UpI_UpdatedBy := UWC_UserID cmd |});
    or_fail ErrWorkflowNotFound updated.

Definition ListWorkflowRevisions (spaceID workflowID : string) (limit offset : Z) : DB (list Revision * nat) :=
  workflow ← GetWorkflow spaceID workflowID;
  call (workflowdb.ListWorkflowRevisions (Wf_ID workflow) limit offset).

Definition RestoreWorkflowRevision (cmd : RestoreWorkflowRevisionCmd) : DB Workflow :=
  workflow ← GetWorkflow (RWC_SpaceID cmd) (RWC_WorkflowID cmd);
  revision ← call (workflowdb.GetWorkflowRevision (Wf_ID workflow) (RWC_Revision cmd));
  match revision with
  | None => fail ErrWorkflowRevisionNotFound
  | Some revision =>
      UpdateWorkflow {|
        UWC_SpaceID := RWC_SpaceID cmd; UWC_UserID := RWC_UserID cmd; UWC_WorkflowID := Wf_ID workflow;
        UWC_Name := Some (Rev_Name revision); UWC_Description := Some (Rev_Description revision);
        UWC_Definition := Some (Rev_Definition revision); UWC_Status := None;
        UWC_ExpectedRevision := Some (Wf_Revision workflow) |}
  end.

Definition usesAgent (agentID : string) (w : Workflow) : bool :=
  (Wf_Status w == StatusPublished)
  && match parseDefinition (Unmarshal (Wf_Definition w)) with
     | Ok def => existsb (λ n, NA_ID (DN_Agent n) == agentID) (Def_Nodes def)
     | Err _ => false
     end.

Definition PublishedWorkflowsUsingAgent (spaceID agentID : string) : DB (list Workflow) :=
  workflows ← call (workflowdb.ListWorkflowsBySpace spaceID);
  mret (List.filter (usesAgent agentID) workflows).

Definition ListWorkflowRuns (spaceID workflowID : string) (limit offset : Z) : DB (list Run * nat) :=
  workflow ← GetWorkflow spaceID workflowID;
  call (workflowdb.ListWorkflowRunsByWorkflow (Wf_ID workflow) limit offset).

(** ** Runs *)

(** A run whose workflow belongs to the Space. *)
Definition runInSpace (spaceID workflowRunID : string) : DB (Run * Workflow) :=
  run ← call (workflowdb.GetWorkflowRun workflowRunID);
  match run with
  | None => fail ErrWorkflowRunNotFound
  | Some run => wf ← GetWorkflow spaceID (Run_WorkflowID run); mret (run, wf)
  end.

Definition GetWorkflowRunDetail (spaceID workflowRunID : string) : DB (Run * list NodeRun) :=
  run ← call (workflowdb.GetWorkflowRun workflowRunID);
  match run with
  | None => fail ErrWorkflowRunNotFound
  | Some run =>
      _ ← GetWorkflow spaceID (Run_WorkflowID run);
      steps ← call (workflowdb.ListWorkflowNodeRuns workflowRunID);
      mret (run, steps)
  end.

Definition validateIssueForRun (spaceID workflowID : string) (issueID : option string) : DB unit :=
  match ref_of issueID with
  | None => mret tt
  | Some id =>
      issues ← or_fail ErrIssuesNotConfigured Issues;
      issue ← call (λ s, (issues s id, s));
      match issue with
      | None => fail ErrIssueNotFound
      | Some issue =>
          if Iss_SpaceID issue != spaceID then fail ErrIssueNotFound
          else if (Iss_ExecutorKind issue == Some "workflow") && (Iss_ExecutorID issue == Some workflowID)
          then mret tt else fail ErrIssueWorkflowMismatch
      end
  end.

Definition runInputOf (input : string) : RunInput :=
  let raw := TrimSpace input in if raw == "" then InputBlank else InputText (Decode raw).

(** The rows a definition expands to, one per node in definition order. *)
Definition nodeRunInput (order : list string) (target : option string) (snap : nodeAgentSnapshot)
    (maxAttempts : Z) (node : DefinitionNode) : CreateNodeRunInput := {|
  CNI_NodeID := DN_ID node; CNI_NodeIndex := topoIndex order (DN_ID node); CNI_NodeType := DN_Type node;
  CNI_Needs := DN_Needs node; CNI_IssueAccess := DN_IssueAccess node; CNI_TargetAgentID := target;
  CNI_AgentName := snap_name snap; CNI_AgentDescription := snap_description snap;
  CNI_AgentInstructions := snap_instructions snap; CNI_AgentRevision := snap_revision snap;
  CNI_Prompt := NI_Instruction (DN_Input node); CNI_Bindings := NI_Bindings (DN_Input node);
  CNI_OutputSchema := outputSchemaSnapshot (DN_OutputSchema node); CNI_MaxAttempts := maxAttempts;
  CNI_TimeoutSeconds := TimeoutSeconds node; CNI_Status := NodeRunStatusPending |}.

Definition expandNode (order : list string) (resolved : gmap string agentdef.Agent) (node : DefinitionNode)
    : DB CreateNodeRunInput :=
  if DN_Type node == NodeTypeHumanInput
  then mret (nodeRunInput order None (mknodeAgentSnapshot "" "" "" 0) 1 node)
  else
    snap ← with_agents (λ ags, @resolveNodeAgentSnapshot ags node resolved);
    mret (nodeRunInput order (Some (NA_ID (DN_Agent node))) snap (MaxAttempts node) node).

Fixpoint nodeRunInputs (order : list string) (resolved : gmap string agentdef.Agent)
    (nodes : list DefinitionNode) : DB (list CreateNodeRunInput) :=
  match nodes with
  | [] => mret []
  | node :: nodes =>
      step ← expandNode order resolved node;
      steps ← nodeRunInputs order resolved nodes;
      mret (step :: steps)
  end.

(** The run an admitted command creates. *)
Definition runInput (cmd : StartWorkflowRunCmd) (workflow : Workflow) (def : Definition_) (input : option json)
    (at_ : Z) : CreateRunInput := {|
  CRunI_WorkflowID := Wf_ID workflow; CRunI_WorkflowRevision := Wf_Revision workflow;
  CRunI_IssueID := SWC_IssueID cmd; CRunI_ScheduleID := SWC_ScheduleID cmd;
  CRunI_ConversationID := SWC_ConversationID cmd; CRunI_RequestedBy := SWC_RequestedBy cmd;
  CRunI_AssistantID := SWC_AssistantID cmd; CRunI_AssistantRevision := SWC_AssistantRevision cmd;
  CRunI_ReportStatus_ := reportStatusFor cmd; CRunI_Input := input; CRunI_Status := RunStatusRunning;
  CRunI_CreatedBy := SWC_UserID cmd; CRunI_StartedAt := Some at_;
  CRunI_DeadlineAt := Deadline at_ match Def_Policy def with
                                   | Some p => DP_TimeoutSeconds p
                                   | None => 0%Z
                                   end |}.

(** Everything [StartWorkflowRun] checks before it writes. *)
Definition admitRun (cmd : StartWorkflowRunCmd)
    : DB (Workflow * Definition_ * gmap string agentdef.Agent * option json) :=
  workflow ← GetWorkflow (SWC_SpaceID cmd) (SWC_WorkflowID cmd);
  if Wf_Status workflow == StatusArchived then fail ErrWorkflowArchived
  else if Wf_Status workflow != StatusPublished then fail ErrWorkflowNotPublished
  else
    parsed ← parseAndValidate (SWC_SpaceID cmd) (Wf_Definition workflow);
    let '(def, resolved) := parsed in
    _ ← validateIssueForRun (SWC_SpaceID cmd) (Wf_ID workflow) (SWC_IssueID cmd);
    if bool_decide (ref_of (SWC_IssueID cmd) = None) && definitionRequiresIssue def
    then fail (definitionError ErrIssueRequired)
    else
      match resolveRunInput def (runInputOf (SWC_Input cmd)) with
      | Err e => fail (definitionError e)
      | Ok input => mret (workflow, def, resolved, input)
      end.

(** The run and its node runs: two transactions, with reads between them. *)
Definition expandRun (cmd : StartWorkflowRunCmd) (workflow : Workflow) (def : Definition_)
    (resolved : gmap string agentdef.Agent) (input : option json) : DB Run :=
  at_ ← now;
  run ← call (workflowdb.CreateWorkflowRun gen (runInput cmd workflow def input at_));
  match graph.BuildGraph (Def_Nodes def) with
  | Err _ => fail (ErrService "invalid workflow graph")
  | Ok g =>
      steps ← nodeRunInputs (graph.Order g) resolved (Def_Nodes def);
      _ ← call (workflowdb.CreateWorkflowNodeRuns gen (Run_ID run) steps);
      mret run
  end.

Definition StartWorkflowRun (fuel : nat) (cmd : StartWorkflowRunCmd) : DB (option Run * list NodeRun) :=
  admitted ← admitRun cmd;
  let '(workflow, def, resolved, input) := admitted in
  run ← expandRun cmd workflow def resolved input;
  _ ← Reconcile fuel (Run_ID run);
  stepRuns ← call (workflowdb.ListWorkflowNodeRuns (Run_ID run));
  run ← call (workflowdb.GetWorkflowRun (Run_ID run));
  mret (run, stepRuns).

Definition ListDueWorkflowRuns (at_ limit : Z) : DB (list Run) :=
  call (workflowdb.ListDueWorkflowRuns at_ limit).

(** internal/server/scheduler/workflow_recovery.go: a failed pass is logged. *)
Fixpoint sweepRuns (fuel : nat) (due : list Run) : DB unit :=
  match due with
  | [] => mret tt
  | run :: due => _ ← catch (Reconcile fuel (Run_ID run)) (λ _, mret tt); sweepRuns fuel due
  end.

Definition sweep (fuel : nat) (batch : Z) : DB unit :=
  at_ ← now;
  due ← catch (ListDueWorkflowRuns at_ batch) (λ _, mret []);
  sweepRuns fuel due.

(** ** Canceling and answering *)

Definition CancelWorkflowRun (fuel : nat) (spaceID userID workflowRunID : string) : DB (option Run) :=
  found ← runInSpace spaceID workflowRunID;
  let '(run, wf) := found in
  if Run_Status run == RunStatusCanceling then mret (Some run)
  else if Run_Status run == RunStatusFailing then fail ErrWorkflowRunStoppingFailed
  else if RunStatusTerminal (Run_Status run) then fail ErrWorkflowRunFinished
  else
    stopped ← call (workflowdb.StopWorkflowRun {|
      SRI_WorkflowRunID := Run_ID run; SRI_RunExpected := Run_Status run;
      SRI_RunStatus_ := RunStatusCanceling; SRI_ErrorMessage := Some "the run was canceled";
      SRI_FailureClass_ := None |});
    if negb stopped then
      current ← call (workflowdb.GetWorkflowRun (Run_ID run));
      match current with
      | None => fail panic
      | Some current =>
          if Run_Status current != RunStatusCanceling then fail ErrWorkflowRunFinished else mret (Some current)
      end
    else
      _ ← Reconcile fuel (Run_ID run);
      call (workflowdb.GetWorkflowRun (Run_ID run)).

Definition ListWorkflowRunRequests (spaceID workflowRunID : string) : DB (list workflowdb.RequestRead) :=
  _ ← runInSpace spaceID workflowRunID;
  call (workflowdb.ListWorkflowRequestsByRun workflowRunID).

Definition ListPendingRequests (spaceID : string) (limit offset : Z) : DB (list workflowdb.RequestRead * nat) :=
  call (workflowdb.ListPendingWorkflowRequestsBySpace spaceID limit offset).

(** An answer satisfies the request's schema, or is a non-blank JSON string. *)
Definition validateResponse (req : Request) (raw : string) : DB json :=
  let trimmed := TrimSpace raw in
  if trimmed == "" then fail ErrInvalidRequestResponse
  else
    match Req_ResponseSchema req with
    | Some text =>
        match jsonschema.Compile (Some text) with
        | None => fail (definitionError ErrInvalidOutputSchema)
        | Some schema =>
            value ← or_fail ErrInvalidRequestResponse (Decode trimmed);
            if jsonschema.Validate schema value then mret value else fail ErrInvalidRequestResponse
        end
    | None =>
        match Decode trimmed with
        | Some (JStr text) => if TrimSpace text == "" then fail ErrInvalidRequestResponse else mret (JStr text)
        | _ => fail ErrInvalidRequestResponse
        end
    end.

(** [apierr.KindOf] is [KindNotFound]. *)
Definition isNotFound (e : db.error) : bool :=
  bool_decide (e ∈ [ErrNotFound; ErrWorkflowRunNotFound; ErrWorkflowNotFound]).

(** The status and response an action resolves its request with. *)
Definition requestAnswer (cmd : RespondToRequestCmd) (req : Request) : DB (RequestStatus * json) :=
  if RRC_Action cmd == "answer" then
    response ← validateResponse req (RRC_Response cmd); mret (RequestStatusAnswered, response)
  else if RRC_Action cmd == "decline" then mret (RequestStatusDeclined, JStr (TrimSpace (RRC_Reason cmd)))
  else fail ErrInvalidRequestAction.

Definition RespondToRequest (fuel : nat) (cmd : RespondToRequestCmd) : DB (option workflowdb.RequestRead) :=
  found ← call (workflowdb.GetWorkflowRequest (RRC_RequestID cmd));
  match found with
  | None => fail ErrWorkflowRequestNotFound
  | Some found =>
      let req := workflowdb.RR_Request found in
      owner ← catch (runInSpace (RRC_SpaceID cmd) (Req_WorkflowRunID req))
                (λ e, fail (if isNotFound e then ErrWorkflowRequestNotFound else e));
      if Req_Status req != RequestStatusPending then fail ErrWorkflowRequestResolved
      else
        answer ← requestAnswer cmd req;
        at_ ← now;
        resolved ← call (workflowdb.ResolveWorkflowRequest {|
          RRI_RequestID := Req_ID req; RRI_Status := answer.1; RRI_Response := Some answer.2;
          RRI_RespondedBy := Some (RRC_UserID cmd); RRI_Now := at_ |});
        if negb resolved then fail ErrWorkflowRequestResolved
        else
          _ ← Reconcile fuel (Run_ID owner.1);
          call (workflowdb.GetWorkflowRequest (Req_ID req))
  end.
End Commands.

End workflowapi.
