(* ===== verification/WorkflowStart.v ===== *)
(** * WorkflowStart: what starting a run does

    [StartWorkflowRun] writes the run and its node runs in two transactions.
    Where the processes in between leave a run without nodes alone, the run it
    starts is the expansion of the published definition, and the reconciler's
    invariant is kept.  Canceling a run is final whatever runs beside it. *)

From S2P Require Import Prelude Text Json TaskCore WorkflowCore WorkflowGraph WorkflowDefinition Store.
From S2P Require Import TaskStore WorkflowStore WorkflowLifecycle StoreProgram TaskService WorkflowSafety.
From S2P Require Import WorkflowReconcile ReconcileMoves ReconcileSafety WorkflowCommands.
From stdpp Require Import gmap.
Import db taskdb workflowdb taskservice workflow definition graph.
Import coretask.
Import coreworkflow.
Import workflowapi.

(** ** A run that has no nodes yet *)

Definition unexpanded (r : Run) (s : Store) : Prop :=
  r ∈ st_runs s ∧ ∀ n, n ∈ st_nodes s → NR_WorkflowRunID n ≠ Run_ID r.

(** What other processes may do: advance the store, but not touch such a run. *)
Definition spares (s s' : Store) : Prop :=
  advances s s' ∧ ∀ r, unexpanded r s → unexpanded r s'.

Lemma spares_refl s : progress s → spares s s.
Proof. intros H. split; [by apply advances_refl|done]. Qed.

Lemma spares_trans a b c : progress a → spares a b → spares b c → spares a c.
Proof. intros Ha [A1 U1] [A2 U2]. split; [by eapply advances_trans|auto]. Qed.

Lemma spares_progress s s' : spares s s' → progress s'.
Proof. intros [H _]. apply H. Qed.

(** Touching neither runs nor nodes spares every run. *)
Lemma spares_frame s s' :
  advances s s' → st_runs s' = st_runs s → st_nodes s' = st_nodes s → spares s s'.
Proof. intros Ha E1 E2. split; [done|]. intros r. unfold unexpanded. by rewrite E1, E2. Qed.

(** ** The rows a start writes *)

Lemma CreateWorkflowRun_ok g in_ s run s' :
  CreateWorkflowRun g in_ s = (Ok run, s') →
  ∃ row n, s' = s <| st_runs := st_runs s ++ [row] |> <| st_fresh := n |> ∧
    Run_ID run = Run_ID row ∧ Run_ID row ∉ map Run_ID (st_runs s) ∧
    Run_Status row = CRunI_Status in_ ∧ Run_WorkflowID row = CRunI_WorkflowID in_ ∧
    Run_WorkflowRevision row = CRunI_WorkflowRevision in_ ∧ Run_Input row = CRunI_Input in_.
Proof.
  unfold CreateWorkflowRun, lookupIfSet, now. intros H. inv_eff H.
  match goal with H1 : (if _ then _ else mret tt) _ = (Ok _, ?s1) |- _ =>
    assert (s1 = s) as -> by (destruct (CRunI_AssistantID in_ != ""%string); by inv_eff H1); clear H1 end.
  eexists _, _. split_and!; [by destruct s|done..].
Qed.

Lemma CreateWorkflowRun_err g in_ s e s' :
  CreateWorkflowRun g in_ s = (Err e, s') → ∃ n, s' = s <| st_fresh := n |>.
Proof. unfold CreateWorkflowRun, now. intros H. cbn in H. by apply transaction_err in H. Qed.

(** What the input of a node run fixes for good. *)
Definition frozen (id : string) (in_ : CreateNodeRunInput) (n : NodeRun) : Prop :=
  NR_WorkflowRunID n = id ∧ NR_NodeID n = CNI_NodeID in_ ∧ NR_NodeIndex n = CNI_NodeIndex in_ ∧
  NR_NodeType n = CNI_NodeType in_ ∧ NR_Needs n = CNI_Needs in_ ∧ NR_IssueAccess n = CNI_IssueAccess in_ ∧
  NR_TargetAgentID n = ref_of (CNI_TargetAgentID in_) ∧
  (NR_AgentName n, NR_AgentDescription n, NR_AgentInstructions n, NR_AgentRevision n) =
    (CNI_AgentName in_, CNI_AgentDescription in_, CNI_AgentInstructions in_, CNI_AgentRevision in_) ∧
  NR_Prompt n = CNI_Prompt in_ ∧ NR_Bindings n = CNI_Bindings in_ ∧ NR_OutputSchema n = CNI_OutputSchema in_ ∧
  NR_MaxAttempts n = Z.max (CNI_MaxAttempts in_) 1 ∧ NR_TimeoutSeconds n = CNI_TimeoutSeconds in_.

(** The node run an input becomes. *)
Definition inserted (id : string) (in_ : CreateNodeRunInput) (n : NodeRun) : Prop :=
  frozen id in_ n ∧ NR_Status n = CNI_Status in_.

Lemma frozen_evolves id in_ n n' : node_evolves n n' → frozen id in_ n → frozen id in_ n'.
Proof. intros [O _ _]. unfold frozen. by injection O as _ -> -> -> -> -> -> -> -> -> -> -> -> -> -> -> -> _. Qed.

Lemma insertNodeRun_ok g id at_ in_ s n s' :
  insertNodeRun g id at_ in_ s = (Ok n, s') →
  inserted id in_ n ∧ ∃ k, s' = s <| st_nodes := st_nodes s ++ [n] |> <| st_fresh := k |>.
Proof.
  unfold insertNodeRun, lookupIfSet. intros H. inv_eff H. split; [by repeat split|]. eexists. by destruct s.
Qed.

Lemma insertNodeRuns_ok g id at_ l s ns s' :
  insertNodeRuns g id at_ l s = (Ok ns, s') →
  Forall2 (inserted id) l ns ∧ ∃ k, s' = s <| st_nodes := st_nodes s ++ ns |> <| st_fresh := k |>.
Proof.
  revert s ns s'. induction l as [|i l IH]; intros s ns s' H; cbn [insertNodeRuns] in H.
  - apply ret_ok in H as [-> ->]. split; [done|]. exists (st_fresh s). rewrite app_nil_r. by destruct s.
  - apply eff_bind_ok in H as (n & s1 & H1 & H). apply eff_bind_ok in H as (ns1 & s2 & H2 & H).
    apply ret_ok in H as [-> ->]. apply insertNodeRun_ok in H1 as (Hn & k & ->).
    apply IH in H2 as (Hns & k2 & ->). split; [by constructor|]. exists k2. cbn.
    rewrite <- (assoc_L (++)). by destruct s.
Qed.

Lemma CreateWorkflowNodeRuns_ok g id l s ns s' :
  CreateWorkflowNodeRuns g id l s = (Ok ns, s') →
  Forall2 (inserted id) l ns ∧ ∃ k, s' = s <| st_nodes := st_nodes s ++ ns |> <| st_fresh := k |>.
Proof.
  unfold CreateWorkflowNodeRuns. destruct l as [|i l].
  - intros [-> ->]%ret_ok. split; [done|]. exists (st_fresh s). rewrite app_nil_r. by destruct s.
  - unfold now. intros H. apply eff_bind_ok in H as (at_ & s1 & [-> ->]%gets_ok & H).
    apply eff_bind_ok in H as ([] & s2 & H1 & H). apply lookupKey_ok in H1 as [_ ->].
    apply transaction_ok in H. by eapply insertNodeRuns_ok.
Qed.

Lemma CreateWorkflowNodeRuns_err g id l s e s' :
  CreateWorkflowNodeRuns g id l s = (Err e, s') → ∃ n, s' = s <| st_fresh := n |>.
Proof.
  assert (s = s <| st_fresh := st_fresh s |>) as Es by (by destruct s).
  unfold CreateWorkflowNodeRuns. destruct l as [|i l]; [done|]. unfold now, lookupKey. eff_unfold.
  destruct (resolves s _ _); [by intros ?%transaction_err|]. intros [= <- <-]. by exists (st_fresh s).
Qed.

(** ** Expanding under interference *)

Lemma advances_fresh s n : progress s → advances s (s <| st_fresh := n |>).
Proof.
  intros Hp. refine (safe_none (λ _, True) (λ s, (Ok tt, s <| st_fresh := n |>)) _ s Hp I).
  intros t. apply moves_fresh.
Qed.

Lemma spares_fresh s n : progress s → spares s (s <| st_fresh := n |>).
Proof. intros Hp. by apply spares_frame; [apply advances_fresh|..]. Qed.

(** A run of a fresh id has no nodes. *)
Lemma create_run_advances s row n :
  progress s → evolves s (s <| st_runs := st_runs s ++ [row] |> <| st_fresh := n |>) →
  Run_ID row ∉ map Run_ID (st_runs s) →
  let s' := s <| st_runs := st_runs s ++ [row] |> <| st_fresh := n |> in
  advances s s' ∧ unexpanded row s'.
Proof.
  intros [K Ow Ne Li Do] Hev Hid s'.
  assert (∀ m, m ∈ st_nodes s → NR_WorkflowRunID m ≠ Run_ID row) as Hnew
    by (intros m Hm E; apply Hid; rewrite <- E; by apply Ow).
  assert (∀ r, r ∈ st_runs s' → r ∈ st_runs s ∨ r = row) as Hin.
  { intros r. subst s'. cbn. rewrite elem_of_app, list_elem_of_singleton. done. }
  split; [split; [|done|intros m Hm; left; by exists m]; split|].
  - by eapply keys_ok_evolves.
  - intros m Hm. subst s'. cbn. rewrite map_app, elem_of_app. left. by apply Ow.
  - intros m Hm Hs. by apply Ne.
  - intros r m Hr Hm E Hh. destruct (Hin r Hr) as [ | -> ]; [by eapply Li|]. by destruct (Hnew m Hm).
  - intros r m Hr Hm E Hs. destruct (Hin r Hr) as [ | -> ]; [by eapply Do|]. by destruct (Hnew m Hm).
  - split; [|done]. subst s'. cbn. apply elem_of_app. right. by apply list_elem_of_singleton.
Qed.

(** Pending nodes may be added to a running run that has none. *)
Lemma insert_nodes_progress s row ns n :
  progress s → unexpanded row s → Run_Status row = RunStatusRunning →
  (∀ m, m ∈ ns → NR_WorkflowRunID m = Run_ID row ∧ NR_Status m = NodeRunStatusPending) →
  evolves s (s <| st_nodes := st_nodes s ++ ns |> <| st_fresh := n |>) →
  progress (s <| st_nodes := st_nodes s ++ ns |> <| st_fresh := n |>).
Proof.
  intros [K Ow Ne Li Do] [Hrow Hno] Hst Hns Hev. pose proof (keys_ok_evolves _ _ Hev K) as K'.
  assert (∀ r m, r ∈ st_runs s → m ∈ ns → NR_WorkflowRunID m = Run_ID r → r = row) as Hr.
  { intros r m Hr [E _]%Hns E2. apply (NoDup_key Run_ID (st_runs s)); [apply K|done..|congruence]. }
  split; [done| | | |]; cbn; intros *.
  - intros [Hm|Hm]%elem_of_app; [by apply Ow|]. apply Hns in Hm as [-> _]. by apply list_elem_of_fmap_2.
  - intros [Hm|Hm]%elem_of_app Hs; [|by apply Hns in Hm as [_ E]; rewrite E in Hs].
    intros need (m' & Hm' & H)%(Ne _ Hm Hs). exists m'. split; [|done]. apply elem_of_app. by left.
  - intros Hir [Hm|Hm]%elem_of_app E Hh; [by eapply Li|]. by apply Hns in Hm as [_ ->].
  - intros Hir [Hm|Hm]%elem_of_app E Hs; [by eapply Do|]. rewrite (Hr _ _ Hir Hm E) in Hs. congruence.
Qed.

Section Expand.
Context {env : Env} {ts : TaskService} {Hts : TaskServiceSafe ts}.
Context (Hothers : ∀ s, progress s → spares s (others s)).

Lemma others_advances s : progress s → advances s (others s).
Proof. intros H. by apply Hothers. Qed.

(** What a node of the definition gives its input: a question names no agent, a
    task the content of its agent as some moment of the start had it. *)
Definition expanded_input (g : Graph) (resolved : gmap string agentdef.Agent) (node : DefinitionNode)
    (in_ : CreateNodeRunInput) : Prop :=
  (DN_Type node = NodeTypeHumanInput ∧
     in_ = nodeRunInput (Order g) None (mknodeAgentSnapshot "" "" "" 0) 1 node) ∨
  (DN_Type node ≠ NodeTypeHumanInput ∧ ∃ s snap,
     @resolveNodeAgentSnapshot (definitionAgents (agents s)) node resolved = Ok snap ∧
     in_ = nodeRunInput (Order g) (Some (NA_ID (DN_Agent node))) snap (MaxAttempts node) node).

Lemma expandNode_ok g resolved node s r s' :
  progress s → expandNode (Order g) resolved node s = (r, s') →
  spares s s' ∧ match r with Ok i => expanded_input g resolved node i | Err _ => True end.
Proof.
  intros Hp. unfold expandNode. destruct (bool_decide_reflect (DN_Type node = NodeTypeHumanInput)) as [Eh|Eh].
  - intros [= <- <-]. split; [by apply spares_refl|by left].
  - unfold with_agents, call, after. eff_unfold.
    destruct (resolveNodeAgentSnapshot node resolved) as [snap|e] eqn:Es; intros [= <- <-].
    + split; [by apply Hothers|]. right. eauto.
    + by split; [apply Hothers|].
Qed.

Lemma nodeRunInputs_ok g resolved nodes s r s' :
  progress s → nodeRunInputs (Order g) resolved nodes s = (r, s') →
  spares s s' ∧ match r with Ok l => Forall2 (expanded_input g resolved) nodes l | Err _ => True end.
Proof.
  revert s r s'. induction nodes as [|node nodes IH]; intros s r s' Hp; cbn [nodeRunInputs].
  { intros [= <- <-]. by split; [apply spares_refl|]. }
  unfold mbind, eff_bind. destruct (expandNode (Order g) resolved node s) as [x s1] eqn:Hx.
  apply expandNode_ok in Hx as [H1 H2]; [|done].
  destruct x as [i|e]; [|by intros [= <- <-]].
  destruct (nodeRunInputs (Order g) resolved nodes s1) as [y s2] eqn:Hy.
  apply IH in Hy as [H3 H4]; [|by eapply spares_progress].
  assert (spares s s2) as H5 by (by eapply spares_trans).
  destruct y as [l|e]; intros [= <- <-]; split; [done|by constructor|done|done].
Qed.
(** The rows a start leaves of its run [id]. *)
Record started_run (w : Workflow) (def : Definition_) (resolved : gmap string agentdef.Agent)
    (input : option json) (g : Graph) (id : string) (ns : list NodeRun) (s : Store) : Prop := {
  sr_run : ∃ row, row ∈ st_runs s ∧ Run_ID row = id ∧ Run_WorkflowID row = Wf_ID w ∧
    Run_WorkflowRevision row = Wf_Revision w ∧ Run_Input row = input;
  sr_graph : BuildGraph (Def_Nodes def) = Ok g;
  sr_rows : ∃ l, Forall2 (expanded_input g resolved) (Def_Nodes def) l ∧ Forall2 (inserted id) l ns;
  sr_nodes : ∀ n, n ∈ ns → n ∈ st_nodes s;
  sr_all : ∀ n, n ∈ st_nodes s → NR_WorkflowRunID n = id → n ∈ ns;
}.

Lemma inserted_of g resolved nodes l id ns :
  Forall2 (expanded_input g resolved) nodes l → Forall2 (inserted id) l ns →
  ∀ m, m ∈ ns → ∃ node i, node ∈ nodes ∧ expanded_input g resolved node i ∧ inserted id i m.
Proof.
  intros H1. revert ns. induction H1 as [|node i nodes l H H1 IH]; intros ns H2.
  - apply Forall2_nil_inv_l in H2 as ->. by intros m ?%not_elem_of_nil.
  - apply Forall2_cons_inv_l in H2 as (m0 & ns' & H0 & H2 & ->). intros m [->|Hm]%elem_of_cons.
    + exists node, i. split_and!; [by left|done|done].
    + destruct (IH ns' H2 m Hm) as (node' & i' & ? & ? & ?). exists node', i'. split_and!; [by right|done|done].
Qed.

Lemma expanded_pending g resolved node i : expanded_input g resolved node i → CNI_Status i = NodeRunStatusPending.
Proof. by intros [[_ ->]|(_ & s & snap & _ & ->)]. Qed.

Lemma insert_expanded s row l ns g resolved nodes n :
  progress s → unexpanded row s → Run_Status row = RunStatusRunning →
  Forall2 (expanded_input g resolved) nodes l → Forall2 (inserted (Run_ID row)) l ns →
  evolves s (s <| st_nodes := st_nodes s ++ ns |> <| st_fresh := n |>) →
  let s' := s <| st_nodes := st_nodes s ++ ns |> <| st_fresh := n |> in
  progress s' ∧ ∀ m, m ∈ st_nodes s' → NR_WorkflowRunID m = Run_ID row → m ∈ ns.
Proof.
  intros Hp Hun Hst Hexp Hins Hev s'. split.
  - eapply insert_nodes_progress; [done|done|done| |done].
    intros m (node & i & _ & He & Hi)%(inserted_of _ _ _ _ _ _ Hexp Hins). destruct Hi as [[E _] ->].
    split; [done|by eapply expanded_pending].
  - subst s'. cbn. intros m [Hm|Hm]%elem_of_app E; [|done]. by destruct (proj2 Hun m Hm).
Qed.

Lemma expandRun_ok cmd w def resolved input s r s' :
  progress s → expandRun cmd w def resolved input s = (r, s') →
  advances s s' ∧ match r with
                  | Ok run => ∃ g ns, started_run w def resolved input g (Run_ID run) ns s'
                  | Err _ => True
                  end.
Proof.
  intros Hp H. unfold expandRun in H. unfold mbind at 1, eff_bind at 1, now, gets in H.
  unfold mbind at 1, eff_bind at 1, call, after in H.
  pose proof (others_advances s Hp) as A1. set (s1 := others s) in *.
  pose proof (ad_progress _ _ A1) as Hp1.
  pose proof (steps_CreateWorkflowRun gen (runInput cmd w def input (st_clock s)) s1) as Hev1.
  destruct (CreateWorkflowRun _ _ s1) as [[run|e] s2] eqn:Hrun; cbn in Hev1.
  2: { apply CreateWorkflowRun_err in Hrun as [n ->]. injection H as <- <-.
       split; [|done]. eapply advances_trans; [done|exact A1|by apply advances_fresh]. }
  apply CreateWorkflowRun_ok in Hrun as (row & n & -> & Erun & Hid & Est & Ewf & Erev & Einput).
  destruct (create_run_advances s1 row n Hp1 Hev1 Hid) as [A2 Hun]. set (s2 := s1 <| st_runs := _ |> <| st_fresh := n |>) in *.
  assert (advances s s2) as A12 by (by eapply advances_trans). pose proof (ad_progress _ _ A12) as Hp2.
  destruct (BuildGraph (Def_Nodes def)) as [g|e] eqn:Hg; [|by injection H as <- <-].
  unfold mbind at 1, eff_bind at 1 in H.
  destruct (nodeRunInputs (Order g) resolved (Def_Nodes def) s2) as [x s3] eqn:Hx.
  apply nodeRunInputs_ok in Hx as [[A3 U3] Hx]; [|done].
  destruct x as [l|e]; [|injection H as <- <-; split; [by eapply advances_trans|done]].
  destruct (Hothers s3 (ad_progress _ _ A3)) as [A4 U4].
  unfold mbind, eff_bind in H. set (s4 := others s3) in *.
  assert (advances s s4) as A by (eapply advances_trans; [done|exact A12|]; by eapply advances_trans).
  pose proof (ad_progress _ _ A) as Hp4. specialize (U4 _ (U3 _ Hun)).
  pose proof (steps_CreateWorkflowNodeRuns gen (Run_ID run) l s4) as Hev4.
  destruct (CreateWorkflowNodeRuns _ _ _ s4) as [[ns|e] s5] eqn:Hns; injection H as <- <-; cbn in Hev4.
  2: { apply CreateWorkflowNodeRuns_err in Hns as [k ->]. split; [|done].
       eapply advances_trans; [done|exact A|by apply advances_fresh]. }
  apply CreateWorkflowNodeRuns_ok in Hns as [Hins [k ->]]. rewrite Erun in Hins.
  assert (Run_Status row = RunStatusRunning) as Hst by done.
  destruct (insert_expanded s4 row l ns g resolved (Def_Nodes def) k Hp4 U4 Hst Hx Hins Hev4) as [Hp5 Hall].
  split.
  - split; [done|etransitivity; [apply A|done]|]. intros m [Hm|Hm]%elem_of_app; [by apply (ad_nodes _ _ A)|].
    right. destruct (inserted_of _ _ _ _ _ _ Hx Hins m Hm) as (_ & _ & _ & _ & [-> _] & _).
    intros Hin. apply Hid. by apply (run_ids_evolve s s1 (pg_keys _ Hp) (ad_evolves _ _ A1)).
  - exists g, ns. rewrite Erun. split; [|done|by exists l| |done].
    + exists row. split_and!; [apply U4|done..].
    + intros m Hm. cbn. apply elem_of_app. by right.
Qed.

(** ** The nodes of a started run, as they are listed *)

Lemma topoIndex_at order i id : NoDup order → order !! i = Some id → topoIndex order id = Z.of_nat i.
Proof.
  intros Hnd Hi. unfold topoIndex.
  enough (foldl (λ m '(idx, id), <[id := Z.of_nat idx]> m) ∅ (imap pair order) !! id = Some (Z.of_nat i)) as ->; [done|].
  revert i Hi. induction order as [|x order IH] using rev_ind; intros i Hi; [done|].
  apply NoDup_app in Hnd as (Hnd & Hx & _). rewrite imap_app, foldl_app. cbn.
  apply lookup_app_Some in Hi as [Hi|[Hle Hi]].
  - rewrite lookup_insert_ne; [by apply IH|]. intros <-. apply (Hx x); [by eapply list_elem_of_lookup_2|by left].
  - apply list_lookup_singleton_Some in Hi as [Hi ->]. rewrite lookup_insert_eq. f_equal. lia.
Qed.

Definition topo_le (order : list string) (a b : string) : Prop := (topoIndex order a <= topoIndex order b)%Z.

Lemma StronglySorted_index {A} (R : relation A) (l : list A) :
  (∀ i j a b, l !! i = Some a → l !! j = Some b → i < j → R a b) → StronglySorted R l.
Proof.
  induction l as [|x l IH]; intros H; constructor.
  - apply IH. intros i j a b Hi Hj Hij. apply (H (S i) (S j)); [done|done|lia].
  - apply Forall_forall. intros y [j Hj]%list_elem_of_lookup. apply (H 0 (S j)); [done|done|lia].
Qed.

Lemma topo_sorted order : NoDup order → StronglySorted (topo_le order) order.
Proof.
  intros Hnd. apply StronglySorted_index. intros i j a b Hi Hj Hij. unfold topo_le.
  rewrite (topoIndex_at order i a), (topoIndex_at order j b) by done. lia.
Qed.

(** A permutation of the order sorted by its index is the order. *)
Lemma topo_unique order l : NoDup order → l ≡ₚ order → StronglySorted (topo_le order) l → l = order.
Proof.
  intros Hnd Hp Hs. apply (StronglySorted_unique_strong (topo_le order)); [|done|by apply topo_sorted|done].
  intros a b Ha Hb H1 H2. rewrite Hp in Ha.
  apply list_elem_of_lookup in Ha as [i Hi], Hb as [j Hj]. unfold topo_le in *.
  rewrite (topoIndex_at order i a), (topoIndex_at order j b) in H1, H2 by done.
  assert (i = j) as -> by lia. congruence.
Qed.

Lemma inserted_node g resolved node i id n :
  expanded_input g resolved node i → inserted id i n →
  NR_NodeID n = DN_ID node ∧ NR_NodeIndex n = topoIndex (Order g) (DN_ID node) ∧ NR_WorkflowRunID n = id.
Proof.
  intros He [(E1 & E2 & E3 & _) _]. rewrite E1, E2, E3. by destruct He as [[_ ->]|(_ & s & snap & _ & ->)].
Qed.

Lemma inserted_ids g resolved nodes l id ns :
  Forall2 (expanded_input g resolved) nodes l → Forall2 (inserted id) l ns → map NR_NodeID ns = map DN_ID nodes.
Proof.
  intros H1. revert ns. induction H1 as [|node i nodes l H H1 IH]; intros ns H2.
  - by apply Forall2_nil_inv_l in H2 as ->.
  - apply Forall2_cons_inv_l in H2 as (m0 & ns' & H0 & H2 & ->). cbn. f_equal; [|by apply IH].
    by destruct (inserted_node _ _ _ _ _ _ H H0).
Qed.

Lemma StronglySorted_map_in {A B} (R : relation A) (R' : relation B) (f : A → B) (l : list A) :
  (∀ a b, a ∈ l → b ∈ l → R a b → R' (f a) (f b)) → StronglySorted R l → StronglySorted R' (map f l).
Proof.
  intros H Hs. induction Hs as [|a l Hs IH Ha]; [constructor|]. cbn. constructor.
  - apply IH. intros x y Hx Hy. apply H; by right.
  - apply Forall_map. rewrite Forall_forall in Ha |- *. intros b Hb. apply H; [by left|by right|by apply Ha].
Qed.

#[local] Instance node_order_trans : Transitive node_order.
Proof. intros a b c. unfold node_order. lia. Qed.

#[local] Instance node_order_total : Total node_order.
Proof. intros a b. unfold node_order. lia. Qed.

Lemma listed_sorted id s l s' : ListWorkflowNodeRuns id s = (Ok l, s') → StronglySorted node_order l.
Proof.
  unfold ListWorkflowNodeRuns, or_empty. rewrite catch_ok. intros [H|(e & s1 & _ & H)].
  - inv_eff H. apply StronglySorted_merge_sort; typeclasses eauto.
  - destruct (e == ErrNotFound); inv_eff H. constructor.
Qed.

Lemma ListWorkflowNodeRuns_rows id s l s' :
  id ∈ map Run_ID (st_runs s) → ListWorkflowNodeRuns id s = (Ok l, s') →
  s' = s ∧ l ≡ₚ rows_where (λ n, NR_WorkflowRunID n == id) (st_nodes s).
Proof.
  intros Hid. unfold ListWorkflowNodeRuns, or_empty. rewrite catch_ok. intros [H|(e & s3 & H & _)].
  - inv_eff H. split; [done|apply merge_sort_Permutation].
  - exfalso. revert H. unfold lookupKey. eff_unfold.
    by assert (resolves s "workflow_run" id = true) as -> by (by apply bool_decide_eq_true_2).
Qed.

Section Listed.
Context (w : Workflow) (def : Definition_) (resolved : gmap string agentdef.Agent) (input : option json).
Context (g : Graph) (id : string) (ns : list NodeRun) (s s1 s2 : Store) (l : list NodeRun).
Context (Hp : progress s) (Hsr : started_run w def resolved input g id ns s) (Ha : advances s s1).
Context (Hids : NoDup (map DN_ID (Def_Nodes def))) (Hl : ListWorkflowNodeRuns id s1 = (Ok l, s2)).

Lemma started_known : id ∈ map Run_ID (st_runs s).
Proof using Hsr. clear Hl. destruct (sr_run _ _ _ _ _ _ _ _ Hsr) as (row & Hr & <- & _). by apply list_elem_of_fmap_2. Qed.

Lemma listed_rows : l ≡ₚ rows_where (λ n, NR_WorkflowRunID n == id) (st_nodes s1).
Proof.
  eapply ListWorkflowNodeRuns_rows; [|exact Hl]. eapply run_ids_evolve; [apply Hp|apply Ha|apply started_known].
Qed.

Lemma listed_in n : n ∈ l ↔ n ∈ st_nodes s1 ∧ NR_WorkflowRunID n = id.
Proof.
  rewrite listed_rows. unfold rows_where.
  by rewrite list_elem_of_In, filter_In, <- list_elem_of_In, bool_decide_eq_true.
Qed.

Lemma listed_from n : n ∈ l → ∃ m, m ∈ ns ∧ node_evolves m n.
Proof.
  intros [Hn Er]%listed_in. destruct (ad_nodes _ _ Ha n Hn) as [(m & Hm & Em)|Hnew].
  - exists m. pose proof (node_of_id s s1 (pg_keys _ Hp) (ad_evolves _ _ Ha) m n Hm Hn (eq_sym Em)) as Hev.
    split; [|done]. destruct Hev as [O _ _]. injection O as _ O _. apply (sr_all _ _ _ _ _ _ _ _ Hsr); congruence.
  - rewrite Er in Hnew. by destruct (Hnew started_known).
Qed.

Lemma listed_ids : map NR_NodeID l = Order g.
Proof.
  destruct (sr_rows _ _ _ _ _ _ _ _ Hsr) as (ins & H1 & H2).
  pose proof (inserted_ids _ _ _ _ _ _ H1 H2) as Hns.
  destruct (BuildGraph_runs _ _ Hids (sr_graph _ _ _ _ _ _ _ _ Hsr)) as (_ & Hperm & _).
  assert (NoDup (Order g)) as Hnd by (unfold Order; by rewrite Hperm).
  assert (∀ n, n ∈ l → NR_NodeIndex n = topoIndex (Order g) (NR_NodeID n)) as Hidx.
  { intros n (m & Hm & [O _ _])%listed_from. injection O as _ _ -> -> _.
    destruct (inserted_of _ _ _ _ _ _ H1 H2 m Hm) as (node & i & _ & He & Hi).
    by destruct (inserted_node _ _ _ _ _ _ He Hi) as (-> & -> & _). }
  apply topo_unique; [done| |].
  - unfold Order. rewrite Hperm, <- Hns. apply NoDup_Permutation; [|by rewrite Hns|].
    + apply NoDup_fmap_2_strong; [|].
      * intros n1 n2 Hn1 Hn2 E. destruct (listed_from n1 Hn1) as (m1 & Hm1 & [O1 _ _]).
        destruct (listed_from n2 Hn2) as (m2 & Hm2 & [O2 _ _]).
        assert (m1 = m2) as ->.
        { apply (NoDup_key NR_NodeID ns); [by rewrite Hns|done..|]. injection O1. injection O2. congruence. }
        apply (NoDup_key NR_ID (st_nodes s1)); [apply Ha|by apply listed_in|by apply listed_in|].
        injection O1. injection O2. congruence.
      * apply (NoDup_fmap_1 NR_ID). change (NoDup (map NR_ID l)). rewrite listed_rows. apply rows_where_keys, Ha.
    + intros x. split; intros (n & -> & Hn)%list_elem_of_fmap.
      * destruct (listed_from n Hn) as (m & Hm & [O _ _]). injection O as _ _ -> _. by apply list_elem_of_fmap_2.
      * destruct (follow_node s s1 (pg_keys _ Hp) (ad_evolves _ _ Ha) n) as (n' & Hn' & [O _ _] & _);
          [by apply (sr_nodes _ _ _ _ _ _ _ _ Hsr)|].
        injection O as _ O1 O2 _. rewrite <- O2. apply list_elem_of_fmap_2, listed_in. split; [done|]. rewrite O1.
        destruct (inserted_of _ _ _ _ _ _ H1 H2 n Hn) as (node & i & _ & _ & [[E _] _]). done.
  - apply (StronglySorted_map_in node_order); [|by eapply listed_sorted].
    intros a b Hina Hinb [H|[H _]]; unfold topo_le; rewrite <- (Hidx a), <- (Hidx b) by done; lia.
Qed.
End Listed.

(** ** Admission *)

Section Admit.
Context (Decode : string → option json) (Issues : option (db.Store → string → res db.error (option Issue))).

(** What the start of a run was checked against. *)
Record admissible (cmd : StartWorkflowRunCmd) (w : Workflow) (def : Definition_)
    (resolved : gmap string agentdef.Agent) (input : option json) : Prop := {
  am_id : Wf_ID w = SWC_WorkflowID cmd;
  am_space : Wf_SpaceID w = SWC_SpaceID cmd;
  am_status : Wf_Status w = StatusPublished;
  am_definition : ∃ s, @parseAndValidateDefinition (definitionAgents (agents s)) (SWC_SpaceID cmd)
    (Unmarshal (Wf_Definition w)) = Ok (def, resolved);
  am_input : resolveRunInput def (runInputOf Decode (SWC_Input cmd)) = Ok input;
  am_issue : definitionRequiresIssue def = true → is_Some (ref_of (SWC_IssueID cmd));
}.

Lemma safe_others_read (K : Store → Prop) {A} (m : DB A) : (∀ s, (m s).2 = s) → safe K (call m).
Proof. intros Hm s Hp _. unfold call, after. rewrite Hm. by apply others_advances. Qed.

Lemma GetWorkflow_ok sp id s w s' :
  workflowapi.GetWorkflow sp id s = (Ok w, s') → Wf_ID w = id ∧ Wf_SpaceID w = sp.
Proof.
  unfold workflowapi.GetWorkflow, call, after. intros H. apply eff_bind_ok in H as (o & s1 & [-> ->]%gets_ok & H).
  destruct (take_where _ _) as [w0|] eqn:E; [|by inv_eff H].
  apply take_where_Some in E as [_ E%bool_decide_eq_true].
  destruct (bool_decide_reflect (Wf_SpaceID w0 = sp)); cbn [negb] in H; by inv_eff H.
Qed.

Lemma with_agents_ok {A} (f : agentdef.Store definition.error → res definition.error A) s a s' :
  with_agents f s = (Ok a, s') → ∃ s1, f (definitionAgents (agents s1)) = Ok a.
Proof.
  unfold with_agents, call, after. intros H. exists (others s).
  destruct (f _) as [x|e]; [by injection H as -> _|done].
Qed.

Lemma safe_GetWorkflow_api sp id : safe (λ _, True) (workflowapi.GetWorkflow sp id).
Proof.
  unfold workflowapi.GetWorkflow. apply safe_bind; [safe_walk|by apply safe_others_read|]. intros o. safe_walk.
Qed.

Lemma safe_parseAndValidate sp raw : safe (λ _, True) (parseAndValidate sp raw).
Proof. unfold parseAndValidate, with_agents. by apply safe_others_read. Qed.

Lemma safe_admitRun cmd : safe (λ _, True) (admitRun Decode Issues cmd).
Proof.
  unfold admitRun, validateIssueForRun, or_fail.
  pose proof safe_GetWorkflow_api. pose proof safe_parseAndValidate.
  repeat first [assumption | apply safe_bind; [safe_walk| |intros] | apply safe_ret | apply safe_fail
               | apply safe_others_read; done | progress safe_walk | eauto].
Qed.

Lemma admitRun_ok cmd s w def resolved input s' :
  admitRun Decode Issues cmd s = (Ok (w, def, resolved, input), s') → admissible cmd w def resolved input.
Proof.
  unfold admitRun. intros H. apply eff_bind_ok in H as (w0 & s1 & Hw & H). apply GetWorkflow_ok in Hw as [E1 E2].
  destruct (Wf_Status w0 == StatusArchived); [by inv_eff H|].
  destruct (bool_decide_reflect (Wf_Status w0 = StatusPublished)) as [E3|E3]; cbn [negb] in H; [|by inv_eff H].
  apply eff_bind_ok in H as ([def0 resolved0] & s2 & Hpar & H). apply with_agents_ok in Hpar.
  apply eff_bind_ok in H as ([] & s3 & _ & H).
  destruct (_ && _) eqn:Ei; [by inv_eff H|].
  destruct (resolveRunInput _ _) as [input0|e] eqn:Er; [|by inv_eff H].
  apply ret_ok in H as [H ->]. injection H as -> -> -> ->. split; [done..|].
  intros Hd. rewrite Hd, andb_true_r in Ei. apply bool_decide_eq_false in Ei. by apply not_eq_None_Some.
Qed.

(** What a published node makes of its node run, apart from the code that
    builds one.  An agent's content, as some moment of the start had it: the
    revision the node pins, or the agent of the Space as it stands. *)
Definition content_of (spaceID : string) (node : DefinitionNode) (name description instructions : string)
    (revision : Z) : Prop :=
  let agentID := NA_ID (DN_Agent node) in
  let pinned := NA_Revision (DN_Agent node) in
  ∃ s, if (0 <? pinned)%Z
       then ∃ rev, @agentdef.GetAgentRevision _ (agents s) agentID pinned = Ok (Some rev)
          ∧ name = agentdef.AgR_Name rev ∧ description = agentdef.AgR_Description rev
          ∧ instructions = agentdef.AgR_Instructions rev ∧ revision = agentdef.AgR_Revision rev
       else ∃ a, @agentdef.GetAgent _ (agents s) agentID = Ok (Some a) ∧ agentdef.Ag_SpaceID a = spaceID
          ∧ name = agentdef.Ag_Name a ∧ description = agentdef.Ag_Description a
          ∧ instructions = agentdef.Ag_Instructions a ∧ revision = agentdef.Ag_Revision a.

Record row_of_node (spaceID : string) (order : list string) (node : DefinitionNode) (n : NodeRun) : Prop := {
  rn_id : NR_NodeID n = DN_ID node;
  rn_index : ∃ i, order !! i = Some (DN_ID node) ∧ NR_NodeIndex n = Z.of_nat i;
  rn_type : NR_NodeType n = DN_Type node;
  rn_needs : NR_Needs n = DN_Needs node;
  rn_issue : NR_IssueAccess n = DN_IssueAccess node;
  rn_prompt : NR_Prompt n = NI_Instruction (DN_Input node);
  rn_bindings : NR_Bindings n = NI_Bindings (DN_Input node);
  rn_schema : NR_OutputSchema n = DN_OutputSchema node;
  rn_timeout : NR_TimeoutSeconds n = match DN_Policy node with Some p => NP_TimeoutSeconds p | None => 0%Z end;
  rn_question : DN_Type node = NodeTypeHumanInput →
    NR_TargetAgentID n = None ∧ NR_AgentName n = ""%string ∧ NR_AgentDescription n = ""%string ∧ NR_AgentInstructions n = ""%string
    ∧ NR_AgentRevision n = 0%Z ∧ NR_MaxAttempts n = 1%Z;
  rn_task : DN_Type node ≠ NodeTypeHumanInput →
    default ""%string (NR_TargetAgentID n) = NA_ID (DN_Agent node)
    ∧ content_of spaceID node (NR_AgentName n) (NR_AgentDescription n) (NR_AgentInstructions n) (NR_AgentRevision n)
    ∧ NR_MaxAttempts n = match DN_Policy node with Some p => Z.max 1 (NP_MaxAttempts p) | None => 1%Z end
}.

Lemma snapshot_content cmd w def resolved input node s snap :
  admissible cmd w def resolved input → node ∈ Def_Nodes def → DN_Type node ≠ NodeTypeHumanInput →
  @resolveNodeAgentSnapshot (definitionAgents (agents s)) node resolved = Ok snap →
  content_of (SWC_SpaceID cmd) node (snap_name snap) (snap_description snap) (snap_instructions snap) (snap_revision snap).
Proof.
  intros [_ _ _ (s0 & H) _ _] Hin Ht Hs. unfold content_of. unfold resolveNodeAgentSnapshot in Hs.
  destruct (0 <? NA_Revision (DN_Agent node))%Z.
  - exists s. apply res_bind_ok in Hs as (o & Ho & Hs). cbn in Ho.
    destruct (@agentdef.GetAgentRevision _ _ _ _) as [rev|] eqn:E in Ho; [|done]. injection Ho as <-.
    destruct rev as [rev|]; [|done]. injection Hs as <-. by exists rev.
  - exists s0. unfold parseAndValidateDefinition in H.
    apply res_bind_ok in H as (d & _ & H). apply res_bind_ok in H as (m & H & [= -> ->]).
    unfold resolveDefinitionAgents in H. apply res_bind_ok in H as (m & H & H'). apply res_bind_ok in H' as (? & _ & [= ->]).
    destruct (resolveTargets_spec _ _ _ _ H) as (_ & Hdom & Hag). destruct (Hdom node Hin Ht) as [a Ha].
    rewrite Ha in Hs. injection Hs as <-. exists a. destruct (Hag _ _ Ha) as [Hno|[Hget Hsp]]; [by rewrite lookup_empty in Hno|].
    cbn in Hget. destruct (@agentdef.GetAgent _ _ _) as [o|] eqn:E in Hget; [|done]. injection Hget as ->. by rewrite E.
Qed.

Lemma expanded_row cmd w def resolved input g node i id n :
  admissible cmd w def resolved input → node ∈ Def_Nodes def → NoDup (Order g) → DN_ID node ∈ Order g →
  expanded_input g resolved node i → frozen id i n → row_of_node (SWC_SpaceID cmd) (Order g) node n.
Proof.
  intros Had Hin Hnd Ho He (_ & E1 & E2 & E3 & E4 & E5 & E6 & E7 & E8 & E9 & E10 & E11 & E12).
  apply list_elem_of_lookup in Ho as [j Hj]. pose proof (topoIndex_at _ _ _ Hnd Hj) as Hidx.
  injection E7 as E7a E7b E7c E7d.
  split; destruct He as [[Et ->]|(Et & s & snap & Hs & ->)]; cbn in *; try done; try (by exists j; rewrite E2).
  - intros _. split_and!.
    + rewrite E6. unfold ref_of. by case_bool_decide as En; [rewrite En|].
    + rewrite E7a, E7b, E7c, E7d. by eapply snapshot_content.
    + rewrite E11. unfold MaxAttempts. destruct (DN_Policy node) as [p|]; [|done].
      destruct (Z.ltb_spec 0 (NP_MaxAttempts p)); lia.
Qed.

Lemma admissible_ids cmd w def resolved input :
  admissible cmd w def resolved input → NoDup (map DN_ID (Def_Nodes def)).
Proof.
  intros [_ _ _ (s & H) _ _]. unfold parseAndValidateDefinition in H.
  apply res_bind_ok in H as (d & Hd & H). apply res_bind_ok in H as (x & _ & [= -> _]).
  destruct (Unmarshal _) as [raw|]; [|done]. apply parseDefinition_ok in Hd as [_ Hd]. apply Hd.
Qed.
End Admit.

(** ** The run that was started *)

Section Started.
Context (Decode : string → option json) (Issues : option (db.Store → string → res db.error (option Issue))).

(** The run and the steps a start returns are the expansion of [def]. *)
Record expansion (cmd : StartWorkflowRunCmd) (w : Workflow) (def : Definition_)
    (resolved : gmap string agentdef.Agent) (input : option json) (run : option Run) (steps : list NodeRun) : Prop := {
  ex_admissible : admissible Decode cmd w def resolved input;
  ex_run : ∃ r, run = Some r ∧ Run_WorkflowID r = SWC_WorkflowID cmd ∧ Run_WorkflowRevision r = Wf_Revision w ∧
    Run_Input r = input ∧ ∀ n, n ∈ steps → NR_WorkflowRunID n = Run_ID r;
  ex_order : ∃ g, BuildGraph (Def_Nodes def) = Ok g ∧ map NR_NodeID steps = Order g ∧
    ∀ n, n ∈ steps → ∃ node, node ∈ Def_Nodes def ∧ row_of_node (SWC_SpaceID cmd) (Order g) node n;
}.

Lemma started_returns cmd w def resolved input g id ns s s1 s2 l s3 o s4 :
  progress s → admissible Decode cmd w def resolved input → started_run w def resolved input g id ns s →
  advances s s1 → ListWorkflowNodeRuns id s1 = (Ok l, s2) → advances s2 s3 →
  GetWorkflowRun id s3 = (Ok o, s4) → expansion cmd w def resolved input o l.
Proof.
  intros Hp Had Hsr A1 Hl A2 Ho.
  pose proof (admissible_ids _ _ _ _ _ _ Had) as Hids.
  pose proof (started_known _ _ _ _ _ _ _ _ Hsr) as Hk.
  destruct (ListWorkflowNodeRuns_rows id s1 l s2) as [-> _]; [|exact Hl|].
  { eapply run_ids_evolve; [apply Hp|apply A1|done]. }
  assert (advances s s3) as A by (by eapply advances_trans).
  destruct (sr_run _ _ _ _ _ _ _ _ Hsr) as (row & Hrow & Eid & E1 & E2 & E3).
  destruct (follow_run s s3 (pg_keys _ Hp) (ad_evolves _ _ A) row Hrow) as (row' & Hrow' & [O _ _ _] & Eid').
  apply gets_ok in Ho as [-> ->].
  assert (take_where (λ r, Run_ID r == id) (st_runs s3) = Some row') as ->.
  { rewrite <- Eid, <- Eid'. apply (take_where_key Run_ID); [apply A|done]. }
  split; [done| |].
  - exists row'. unfold run_origin in O. injection O as _ F1 F2 F3 _ _ _ _ _. split_and!; [done| | | |].
    + rewrite F1, E1. by apply (am_id _ _ _ _ _ _ Had).
    + congruence.
    + congruence.
    + intros n Hn. rewrite Eid', Eid. by apply (listed_in w def resolved input g id ns s s1 s1 l Hp Hsr A1 Hl) in Hn as [_ ?].
  - exists g. split_and!; [apply Hsr|by apply (listed_ids w def resolved input g id ns s s1 s1 l Hp Hsr A1 Hids Hl)|].
    intros n Hn. destruct (listed_from w def resolved input g id ns s s1 s1 l Hp Hsr A1 Hl n Hn) as (m & Hm & Hev).
    destruct (sr_rows _ _ _ _ _ _ _ _ Hsr) as (ins & H1 & H2).
    destruct (inserted_of _ _ _ _ _ _ H1 H2 m Hm) as (node & i & Hnode & He & [Hf _]).
    exists node. split; [done|]. assert (frozen id i n) as Hfn by by eapply frozen_evolves.
    destruct (BuildGraph_runs _ _ Hids (sr_graph _ _ _ _ _ _ _ _ Hsr)) as (_ & Hperm & _).
    eapply expanded_row; [done|done| | |done|done]; unfold Order; rewrite Hperm; [done|].
    by apply list_elem_of_fmap_2.
Qed.

Lemma StartWorkflowRun_ok fuel cmd s r s' :
  progress s → StartWorkflowRun Decode Issues fuel cmd s = (r, s') →
  advances s s' ∧ match r with
                  | Ok (run, steps) => ∃ w def resolved input, expansion cmd w def resolved input run steps
                  | Err _ => True
                  end.
Proof.
  intros Hp H. unfold StartWorkflowRun in H. unfold mbind at 1, eff_bind at 1 in H.
  pose proof (safe_admitRun Decode Issues cmd s Hp I) as A0.
  destruct (admitRun _ _ cmd s) as [[[[[w def] resolved] input]|e] s1] eqn:Had; [|by injection H as <- <-].
  apply admitRun_ok in Had. cbn in A0. pose proof (ad_progress _ _ A0) as Hp1.
  unfold mbind at 1, eff_bind at 1 in H.
  destruct (expandRun cmd w def resolved input s1) as [x s2] eqn:Hx. apply expandRun_ok in Hx as [A1 Hx]; [|done].
  pose proof (advances_trans _ _ _ Hp A0 A1) as A2.
  destruct x as [run|e]; [destruct Hx as (g & ns & Hsr)|by injection H as <- <-].
  pose proof (ad_progress _ _ A2) as Hp2. unfold mbind at 1, eff_bind at 1 in H.
  pose proof (safe_Reconcile others_advances fuel (Run_ID run) s2 Hp2 I) as A3.
  destruct (Reconcile fuel (Run_ID run) s2) as [[[]|e] s3] eqn:Hr; cbn in A3.
  2: { injection H as <- <-. split; [by eapply advances_trans|done]. }
  unfold mbind, eff_bind, call, after in H.
  pose proof (advances_trans _ _ _ Hp2 A3 (others_advances _ (ad_progress _ _ A3))) as A4. set (s4 := others s3) in *.
  assert (Run_ID run ∈ map Run_ID (st_runs s4)) as Hk.
  { eapply run_ids_evolve; [apply Hp2|apply A4|by eapply started_known]. }
  destruct (ListWorkflowNodeRuns (Run_ID run) s4) as [[l|e] s5] eqn:Hl.
  2: { exfalso. revert Hl. unfold ListWorkflowNodeRuns, or_empty, catch, lookupKey. eff_unfold.
       by assert (resolves s4 "workflow_run" (Run_ID run) = true) as -> by (by apply bool_decide_eq_true_2). }
  destruct (ListWorkflowNodeRuns_rows _ _ _ _ Hk Hl) as [-> _].
  pose proof (others_advances _ (ad_progress _ _ A4)) as A5.
  cbn in H. injection H as <- <-. split.
  - eapply advances_trans; [done|exact A2|]. by eapply advances_trans.
  - exists w, def, resolved, input. by eapply started_returns.
Qed.
End Started.

(** ** The recovery sweep *)

Lemma safe_sweepRuns fuel due : safe (λ _, True) (sweepRuns fuel due).
Proof.
  induction due as [|run due IH]; cbn [sweepRuns]; [apply safe_ret|].
  apply safe_bind; [safe_walk| |done]. apply safe_catch; [safe_walk| |intros; apply safe_ret].
  apply safe_Reconcile, others_advances.
Qed.

Lemma safe_sweep fuel batch : safe (λ _, True) (sweep fuel batch).
Proof.
  unfold sweep. apply safe_bind; [safe_walk|apply safe_gets|]. intros at_.
  apply safe_bind; [safe_walk| |intros; apply safe_sweepRuns].
  apply safe_catch; [safe_walk|by apply safe_others_read|intros; apply safe_ret].
Qed.
End Expand.

(** ** The properties *)

(** C29: starting a run.  Where other processes advance the store and leave a
    run without nodes alone, [StartWorkflowRun] advances the store whether it
    succeeds or not; and when it succeeds, the workflow was published in the
    Space, its definition and the input passed validation, the returned run is
    at the revision read, and the returned steps are the nodes of that very
    definition in the graph's order, each frozen with its node's needs, prompt,
    bindings, schema and limits and its agent's content. *)
Theorem StartWorkflowRun_expands {env : Env} session quota titles Decode Issues fuel cmd (s : Store) r s' :
  (∀ s, progress s → spares s (others s)) → progress s →
  @StartWorkflowRun env (service gen session others agents quota titles) Decode Issues fuel cmd s = (r, s') →
  advances s s' ∧
  match r with
  | Ok (run, steps) => ∃ w def resolved input, expansion Decode cmd w def resolved input run steps
  | Err _ => True
  end.
Proof.
  intros Ho Hp H.
  pose proof (service_safe gen session others agents quota titles (others_advances Ho)) as Hts.
  by apply (StartWorkflowRun_ok Ho _ _ _ _ _ _ _ Hp H).
Qed.

(** ** A start *)

Definition start_node (id : string) (needs : list string) : DefinitionNode :=
  mkDefinitionNode id NodeTypeAgentTask needs (mkNodeAgent "agt" 0) (mkNodeInput "go" []) "none" None None.

(** [b] needs [a] but is written first. *)
Definition start_definition : Definition_ :=
  mkDefinition_ 1 None None [start_node "b" ["a"]; start_node "a" []] None.

#[local] Instance start_agents : agentdef.Store db.error := {|
  agentdef.GetAgent id := Ok (Some (agentdef.mkAgent id "spc" "Agent" "" "do it" 3 "" "" None));
  agentdef.GetAgentIncludingDeleted id := Ok (Some (agentdef.mkAgent id "spc" "Agent" "" "do it" 3 "" "" None));
  agentdef.GetAgentRevision id n := Ok None |}.

Definition start_env (others : Store → Store) : Env := {|
  gen := sample_gen; others := others; agents := λ _, start_agents; Artifacts := None;
  Unmarshal := λ _, Some start_definition; render := λ _, ""%string; num64 := λ n, n; quote := λ n, n;
  formatTime := λ _, ""%string; Error := λ _, "failed"%string |}.

Definition start_service (others : Store → Store) : TaskService :=
  service sample_gen sample_gen others (λ _, start_agents) None None.

(** The workflow [id_0], published. *)
Definition published_store : Store :=
  (workflowdb.UpdateWorkflow (λ s, (Ok tt, s)) "id_0" "spc"
     (mkUpdateInput None None None (Some StatusPublished) 1 "usr") workflow_store).2.

Definition start_cmd : StartWorkflowRunCmd :=
  mkStartWorkflowRunCmd "spc" "usr" "id_0" None None None "" "" 0 "".

Definition start_under (others : Store → Store) : res db.error (option Run * list NodeRun) * Store :=
  @StartWorkflowRun (start_env others) (start_service others) (λ _, None) None 2 start_cmd published_store.

Lemma published_progress : progress published_store.
Proof.
  apply progress_check_ok; [|vm_compute; reflexivity].
  eapply keys_ok_evolves; [|apply so_keys, workflow_store_ok].
  apply (steps_UpdateWorkflow (λ s, (Ok tt, s))). intros s. reflexivity.
Qed.

Lemma same_flow_sample_worker s : same_flow s (sample_worker s).
Proof. unfold sample_worker. cbv zeta. by repeat (etransitivity; [|apply same_flow_TransitionTaskRun]). Qed.

Lemma spares_sample_worker s : progress s → spares s (sample_worker s).
Proof.
  intros Hp. destruct (same_flow_sample_worker s) as [E1 E2].
  apply spares_frame; [by apply sample_worker_advances|done|done].
Qed.

Lemma StartWorkflowRun_expands_witness :
  ∃ run steps s', start_under sample_worker = (Ok (run, steps), s') ∧
    map NR_NodeID steps = ["a"; "b"]%string ∧ map NR_AgentRevision steps = [3%Z; 3%Z] ∧
    progress s' ∧ ∃ w def resolved input,
      @expansion (start_env sample_worker) (λ _, None) start_cmd w def resolved input run steps.
Proof.
  pose proof (@StartWorkflowRun_expands (start_env sample_worker) sample_gen None None (λ _, None) None 2 start_cmd
    published_store) as H.
  destruct (start_under sample_worker) as [[[run steps]|e] s'] eqn:E.
  2: { exfalso. revert E. vm_compute. discriminate. }
  destruct (H (Ok (run, steps)) s' spares_sample_worker published_progress E) as [Ha Hx].
  exists run, steps, s'. split; [reflexivity|].
  assert (match (start_under sample_worker).1 with
          | Ok (_, steps) => map NR_NodeID steps = ["a"; "b"]%string ∧ map NR_AgentRevision steps = [3%Z; 3%Z]
          | Err _ => False end) as Hc by (vm_compute; auto).
  rewrite E in Hc. destruct Hc as [H1 H2].
  split; [exact H1|]. split; [exact H2|]. split; [exact (ad_progress _ _ Ha)|exact Hx].
Defined.

Lemma stable_status id s s' run run' :
  progress s → advances s s' → run ∈ st_runs s → Run_ID run = id →
  run' ∈ st_runs s' → Run_ID run' = id → rtc run_step (Run_Status run) (Run_Status run').
Proof.
  intros Hp Ha Hr E Hr' E'.
  by destruct (run_of_id s s' (pg_keys _ Hp) (ad_evolves _ _ Ha) run run' Hr Hr' ltac:(congruence)).
Qed.

(** ** Canceling *)

Section Cancel.
Context {env : Env} {ts : TaskService} {Hts : TaskServiceSafe ts}.
Context (Hothers : ∀ s, progress s → advances s (others s)).

Definition canceling (status : RunStatus) : Prop :=
  status = RunStatusCanceling ∨ status = RunStatusCanceled.

(** The run a cancellation answers with, and its row then. *)
Definition cancels (id : string) (o : option Run) (s : Store) : Prop :=
  ∃ run row, o = Some run ∧ Run_ID run = id ∧ canceling (Run_Status run) ∧
    row ∈ st_runs s ∧ Run_ID row = id ∧ canceling (Run_Status row).

Lemma canceling_rtc a b :
  rtc run_step a b → canceling a → canceling b.
Proof.
  induction 1 as [|x y z Hxy _ IH]; [done|]. intros Hx. apply IH. unfold run_step in Hxy.
  unfold canceling. destruct Hx as [-> | ->]; destruct y; naive_solver.
Qed.

Lemma read_run_cancels id s s1 o s2 r :
  progress s → r ∈ st_runs s → Run_ID r = id → canceling (Run_Status r) →
  advances s s1 → GetWorkflowRun id s1 = (Ok o, s2) → cancels id o s2.
Proof.
  intros Hp Hr E Hs Ha Ho. destruct (follow_run s s1 (pg_keys _ Hp) (ad_evolves _ _ Ha) r Hr) as (r1 & Hr1 & [_ Hst _ _] & E1).
  apply gets_ok in Ho as [-> ->]. assert (canceling (Run_Status r1)) by (by eapply canceling_rtc).
  exists r1, r1. split_and!; [|congruence|done|done|congruence|done].
  rewrite <- E, <- E1. apply (take_where_key Run_ID); [apply Ha|done].
Qed.

Lemma safe_GetWorkflow_any sp id : safe (λ _, True) (workflowapi.GetWorkflow sp id).
Proof.
  unfold workflowapi.GetWorkflow. apply safe_bind; [safe_walk|by apply safe_GetWorkflow|]. intros o. safe_walk.
Qed.

Lemma runInSpace_ok sp id s x s' :
  progress s → runInSpace sp id s = (x, s') →
  advances s s' ∧ match x with
                  | Ok (run, wf) => Run_ID run = id ∧ Wf_ID wf = Run_WorkflowID run ∧ Wf_SpaceID wf = sp ∧
                      ∃ run', run' ∈ st_runs s' ∧ run_evolves run run' ∧ Run_ID run' = id
                  | Err _ => True
                  end.
Proof.
  intros Hp. unfold runInSpace. unfold mbind at 1, eff_bind at 1, call at 1, after, workflowdb.GetWorkflowRun, gets.
  pose proof (Hothers s Hp) as A. destruct (take_where _ _) as [run|] eqn:Er; [|by intros [= <- <-]].
  apply take_where_Some in Er as [Hr E%bool_decide_eq_true].
  unfold mbind, eff_bind. pose proof (safe_GetWorkflow_any sp (Run_WorkflowID run) _ (ad_progress _ _ A) I) as A1.
  destruct (workflowapi.GetWorkflow sp (Run_WorkflowID run) (others s)) as [[wf|e] s1] eqn:Ew; intros [= <- <-]; cbn in A1.
  - split; [by eapply advances_trans|]. apply GetWorkflow_ok in Ew as [? ?]. split_and!; [done..|].
    destruct (follow_run _ _ (pg_keys _ (ad_progress _ _ A)) (ad_evolves _ _ A1) run Hr) as (run' & ? & ? & ?).
    exists run'. split_and!; [done|done|congruence].
  - split; [by eapply advances_trans|done].
Qed.

Lemma stop_cancels in_ s b s' :
  SRI_RunStatus_ in_ = RunStatusCanceling → StopWorkflowRun in_ s = (Ok b, s') →
  if b then ∃ row, row ∈ st_runs s' ∧ Run_ID row = SRI_WorkflowRunID in_ ∧ canceling (Run_Status row) else s' = s.
Proof.
  intros Est H. assert (stop_status (SRI_RunStatus_ in_) = true) as Hst by (by rewrite Est).
  destruct (ValidRunStatusTransition (SRI_RunExpected in_) (SRI_RunStatus_ in_)) eqn:Hv.
  2: { unfold StopWorkflowRun in H. by rewrite Hst, Hv in H. }
  rewrite StopWorkflowRun_eq in H by done. destruct (take_where _ _) as [r|] eqn:Et; [|by injection H as <- <-].
  destruct (bool_decide_reflect (Run_Status r = SRI_RunExpected in_)); [|by injection H as <- <-].
  injection H as <- <-. apply take_where_Some in Et as [Hr Er%bool_decide_eq_true].
  set (row := stopRunUpdates (SRI_RunStatus_ in_) (SRI_ErrorMessage in_) (SRI_FailureClass_ in_) r).
  assert (row ∈ st_runs (stop_run in_ s)) as Hrow.
  { apply elem_of_update_where. exists r. by rewrite bool_decide_eq_true_2. }
  assert (Run_ID row = SRI_WorkflowRunID in_) as Eid by (subst row; by rewrite stopRunUpdates_id).
  exists row. split_and!; [done|done|]. left. rewrite <- Est. by destruct (stop_run_stopped in_ s row Hst Hrow Eid).
Qed.

(** The stop applied at [s]: the pass that follows and the read. *)
Lemma after_stop_cancels fuel id s row x s' :
  progress s → row ∈ st_runs s → Run_ID row = id → canceling (Run_Status row) →
  (_ ← Reconcile fuel id; call (workflowdb.GetWorkflowRun id)) s = (x, s') →
  advances s s' ∧ match x with Ok o => cancels id o s' | Err _ => True end.
Proof.
  intros Hp Hrow Erow Hc. unfold mbind, eff_bind. pose proof (safe_Reconcile Hothers fuel id s Hp I) as A1.
  destruct (Reconcile fuel id s) as [[[]|e] s1]; cbn in A1; [|by intros [= <- <-]].
  unfold call, after. pose proof (Hothers s1 (ad_progress _ _ A1)) as A2.
  assert (advances s (others s1)) as A by (by eapply advances_trans).
  destruct (workflowdb.GetWorkflowRun id (others s1)) as [[o|e] s2] eqn:Ho; [|done]. intros [= <- <-].
  pose proof (read_run_cancels id s (others s1) o s2 row Hp Hrow Erow Hc A Ho).
  by apply gets_ok in Ho as [_ ->].
Qed.

(** Another outcome was first: only a cancellation is an answer. *)
Lemma other_outcome_cancels id s x s' :
  progress s →
  (current ← call (workflowdb.GetWorkflowRun id);
   match current with
   | None => fail panic
   | Some current =>
       if Run_Status current != RunStatusCanceling then fail ErrWorkflowRunFinished else mret (Some current)
   end) s = (x, s') →
  advances s s' ∧ match x with Ok o => cancels id o s' | Err _ => True end.
Proof.
  intros Hp. pose proof (Hothers s Hp) as A.
  unfold mbind, eff_bind, call, after, workflowdb.GetWorkflowRun, gets.
  destruct (take_where _ _) as [current|] eqn:Et; [|by intros [= <- <-]].
  apply take_where_Some in Et as [Hr Er%bool_decide_eq_true].
  destruct (bool_decide_reflect (Run_Status current = RunStatusCanceling)) as [E|E]; intros [= <- <-]; [|done].
  split; [done|]. assert (canceling (Run_Status current)) by (by left). by exists current, current.
Qed.

Lemma CancelWorkflowRun_ok fuel sp usr id s x s' :
  progress s → CancelWorkflowRun fuel sp usr id s = (x, s') →
  advances s s' ∧ match x with Ok o => cancels id o s' | Err _ => True end.
Proof.
  intros Hp H. unfold CancelWorkflowRun in H. unfold mbind at 1, eff_bind at 1 in H.
  destruct (runInSpace sp id s) as [y s1] eqn:Hy. apply runInSpace_ok in Hy as [A1 Hy]; [|done].
  destruct y as [[run wf]|e]; [destruct Hy as (Eid & _ & _ & run' & Hr' & [_ Hst _ _] & Eid')|by injection H as <- <-].
  pose proof (ad_progress _ _ A1) as Hp1. rewrite Eid in H.
  destruct (bool_decide_reflect (Run_Status run = RunStatusCanceling)) as [Ec|Ec].
  { injection H as <- <-. split; [done|]. exists run, run'.
    assert (canceling (Run_Status run)) by (by left). split_and!; try done. by eapply canceling_rtc. }
  destruct (Run_Status run == RunStatusFailing); [by injection H as <- <-|].
  destruct (RunStatusTerminal (Run_Status run)); [by injection H as <- <-|].
  unfold mbind at 1, eff_bind at 1 in H.
  match type of H with context [call (StopWorkflowRun ?i)] =>
    pose proof (safe_stop Hothers (λ _, True) (stable_pure True) i s1 Hp1 I) as A2;
    destruct (call (StopWorkflowRun i) s1) as [[b|e] s2] eqn:Hstop end; cbn in A2.
  2: { injection H as <- <-. split; [by eapply advances_trans|done]. }
  pose proof (ad_progress _ _ A2) as Hp2. pose proof (advances_trans _ _ _ Hp A1 A2) as A.
  apply stop_cancels in Hstop; [|done]. destruct b; cbn [negb] in H.
  - destruct Hstop as (row & Hrow & Erow & Hc).
    destruct (after_stop_cancels fuel id s2 row x s' Hp2 Hrow Erow Hc H) as [A3 ?].
    split; [by eapply advances_trans|done].
  - destruct (other_outcome_cancels id s2 x s' Hp2 H) as [A3 ?]. split; [by eapply advances_trans|done].
Qed.
End Cancel.

(** Canceling a run.  Whatever other processes commit, as long as they
    advance the store, [CancelWorkflowRun] advances it; and it answers with a
    run only when that run is canceling or canceled, as its row then is, so
    nothing later can make the run succeed or fail. *)
Lemma CancelWorkflowRun_stops {env : Env} session quota titles fuel spaceID userID id (s : Store) x s' :
  (∀ s, progress s → advances s (others s)) → progress s →
  @CancelWorkflowRun env (service gen session others agents quota titles) fuel spaceID userID id s = (x, s') →
  advances s s' ∧
  match x with
  | Ok o => cancels id o s' ∧
      ∀ s'' row, advances s' s'' → row ∈ st_runs s'' → Run_ID row = id → canceling (Run_Status row)
  | Err _ => True
  end.
Proof.
  intros Ho Hp H. pose proof (service_safe gen session others agents quota titles Ho) as Hts.
  destruct (CancelWorkflowRun_ok Ho _ _ _ _ _ _ _ Hp H) as [Ha Hx]. split; [done|].
  destruct x as [o|e]; [|done]. split; [done|]. intros s'' row Ha2 Hrow Erow.
  destruct Hx as (_ & row' & _ & _ & _ & Hrow' & Erow' & Hc).
  eapply canceling_rtc; [|exact Hc].
  eapply (stable_status id s' s''); [apply Ha|done..].
Qed.

(** A person cancels the run of [workflow_store] while its worker finishes. *)
Lemma CancelWorkflowRun_stops_witness :
  ∃ o s', @CancelWorkflowRun (start_env sample_worker) (start_service sample_worker) 2 "spc" "usr" "id_1"
      workflow_store = (Ok o, s') ∧
    cancels "id_1" o s' ∧ map NR_Status (st_nodes s') = [NodeRunStatusBlocked].
Proof.
  pose proof (@CancelWorkflowRun_stops (start_env sample_worker) sample_gen None None 2 "spc" "usr" "id_1"
    workflow_store) as H.
  assert (match @CancelWorkflowRun (start_env sample_worker) (start_service sample_worker) 2 "spc" "usr" "id_1"
            workflow_store with
          | (Ok _, s') => map NR_Status (st_nodes s') = [NodeRunStatusBlocked]
          | (Err _, _) => False end) as Hc by (vm_compute; reflexivity).
  change (service gen sample_gen others agents None None) with (start_service sample_worker) in H.
  destruct (@CancelWorkflowRun (start_env sample_worker) (start_service sample_worker) 2 "spc" "usr" "id_1"
    workflow_store) as [[o|e] s']; [|destruct Hc].
  destruct (H (Ok o) s' sample_worker_advances
    (progress_check_ok workflow_store (so_keys _ workflow_store_ok) ltac:(vm_compute; reflexivity)) eq_refl)
    as (_ & Hx & _).
  exists o, s'. split; [reflexivity|]. split; [exact Hx|exact Hc].
Defined.
