(* ===== verification/WorkflowPublish.v ===== *)
(** * WorkflowPublish: what publishing a workflow stores, and what it does not

    Publishing through [workflowapi.UpdateWorkflow] stores a definition whose
    agent tasks name recorded revisions.  An edit or a restore of a published
    workflow does not go through that step.  Two interleavings that strand a run
    follow. *)

From S2P Require Import Prelude Text Json TaskCore WorkflowCore WorkflowGraph WorkflowDefinition Store.
From S2P Require Import TaskStore WorkflowStore WorkflowLifecycle StoreProgram TaskService WorkflowSafety.
From S2P Require Import WorkflowReconcile ReconcileMoves ReconcileSafety WorkflowCommands WorkflowStart.
From stdpp Require Import gmap.
Import db taskdb workflowdb taskservice workflow definition graph.
Import coretask.
Import coreworkflow.
Import workflowapi.

Section Publish.
Context {env : Env} (Marshal : Definition_ → string).
Context (Hothers : ∀ s, keys_ok s → keys_ok (others s)).

Lemma preserves_read {A} (f : Store → res db.error A) : preserves keys_ok (call (λ s, (f s, s))).
Proof. intros s. apply Hothers. Qed.

Lemma preserves_GetWorkflow sp id : preserves keys_ok (workflowapi.GetWorkflow sp id).
Proof.
  unfold workflowapi.GetWorkflow, workflowdb.GetWorkflow, gets. apply preserves_bind; [apply preserves_read|].
  intros o. eff_walk.
Qed.

Lemma preserves_updatedDefinition cmd status : preserves keys_ok (updatedDefinition Marshal cmd status).
Proof.
  pose proof preserves_GetWorkflow. unfold updatedDefinition, parseAndValidate, with_agents.
  destruct (_ == _); [apply preserves_bind; [destruct (UWC_Definition cmd); [apply preserves_ret|]|intros raw]|].
  - apply preserves_bind; [done|]. intros w. apply preserves_ret.
  - apply preserves_bind; [apply preserves_read|]. intros x. apply preserves_ret.
  - destruct (UWC_Definition cmd); [|apply preserves_ret].
    apply preserves_bind; [apply preserves_read|]. intros x. apply preserves_ret.
Qed.

Lemma preserves_ok {A} (I : Store → Prop) (m : DB A) s a s' : preserves I m → I s → m s = (Ok a, s') → I s'.
Proof. intros Hm Hs H. specialize (Hm s Hs). by rewrite H in Hm. Qed.

(** What a publish stores is pinned against the agents of one moment. *)
Lemma updatedDefinition_publish cmd s d s' :
  updatedDefinition Marshal cmd (Some StatusPublished) s = (Ok d, s') →
  ∃ s1 raw def agents0, @parseAndValidateDefinition (definitionAgents (agents s1)) (UWC_SpaceID cmd)
      (Unmarshal raw) = Ok (def, agents0) ∧
    d = Some (Marshal (pinDefinitionAgents def agents0)).
Proof.
  unfold updatedDefinition. rewrite bool_decide_eq_true_2 by done. intros H.
  apply eff_bind_ok in H as (raw & s1 & _ & H). apply eff_bind_ok in H as ([def ag] & s2 & Hp & H).
  apply ret_ok in H as [-> _]. apply with_agents_ok in Hp as [s3 Hp]. by exists s3, raw, def, ag.
Qed.

Lemma UpdateWorkflow_publish_ok cmd s w s' :
  keys_ok s → UWC_Status cmd = Some "published"%string →
  workflowapi.UpdateWorkflow Marshal cmd s = (Ok w, s') →
  Wf_ID w = UWC_WorkflowID cmd ∧ Wf_Status w = StatusPublished ∧
  ∃ s1 raw def agents0, @parseAndValidateDefinition (definitionAgents (agents s1)) (UWC_SpaceID cmd)
      (Unmarshal raw) = Ok (def, agents0) ∧
    Wf_Definition w = Marshal (pinDefinitionAgents def agents0).
Proof.
  intros K Hst H. unfold workflowapi.UpdateWorkflow in H. rewrite Hst in H.
  destruct (match UWC_Definition cmd with Some raw => _ | None => false end); [by inv_eff H|].
  destruct (match UWC_Name cmd with Some name => _ | None => false end); [by inv_eff H|].
  destruct (match UWC_Description cmd with Some text => _ | None => false end); [by inv_eff H|].
  apply eff_bind_ok in H as (status & s0 & Hs & H). cbn in Hs. unfold mret, eff_ret in Hs. injection Hs as <- <-.
  apply eff_bind_ok in H as (d & s1 & Hd & H). pose proof (preserves_ok _ _ _ _ _ (preserves_updatedDefinition _ _) K Hd) as K1.
  apply updatedDefinition_publish in Hd as (s2 & raw & def & ag & Hpar & ->).
  apply eff_bind_ok in H as (expected & s3 & He & H).
  assert (keys_ok s3) as K3.
  { destruct (UWC_ExpectedRevision cmd); [by apply ret_ok in He as [_ ->]|].
    apply eff_bind_ok in He as (cur & s4 & Hc & He). apply ret_ok in He as [_ ->].
    exact (preserves_ok _ _ _ _ _ (preserves_GetWorkflow _ _) K1 Hc). }
  apply eff_bind_ok in H as (o & s4 & Hu & H). apply or_fail_ok in H as [-> ->].
  unfold call, after in Hu. apply (UpdateWorkflow_content _ _ _ _ _ (others (others s3))) in Hu;
    [|by apply key_workflows, Hothers, Hothers|done].
  destruct Hu as (Eid & w0 & _ & _ & _ & Hc). unfold same_content in Hc. cbn in Hc.
  apply andb_true_iff in Hc as [[_ Ed%bool_decide_eq_true]%andb_true_iff Es%bool_decide_eq_true].
  split_and!; [done|done|]. by exists s2, raw, def, ag.
Qed.
End Publish.

(** Publishing.  Whatever other processes commit, a publish that succeeds
    leaves the workflow published with a definition that parses, is pinned (each
    agent task names a recorded revision of an agent of the Space), and is its own
    canonical form: validating and pinning it again gives it back, so a run
    started from it never resolves a latest revision.  JSON reads back the plan a
    publish writes. *)
Lemma UpdateWorkflow_publishes {env : Env} Marshal (cmd : UpdateWorkflowCmd) (s : Store) w s' :
  (∀ s, @revisions_recorded (definitionAgents (agents s))) →
  (∀ s raw def resolved, @parseAndValidateDefinition (definitionAgents (agents s)) (UWC_SpaceID cmd) (Unmarshal raw)
     = Ok (def, resolved) →
     Unmarshal (Marshal (pinDefinitionAgents def resolved)) = Some (pinDefinitionAgents def resolved)) →
  (∀ s, keys_ok s → keys_ok (others s)) → keys_ok s →
  UWC_Status cmd = Some "published"%string → workflowapi.UpdateWorkflow Marshal cmd s = (Ok w, s') →
  Wf_ID w = UWC_WorkflowID cmd ∧ Wf_Status w = StatusPublished ∧
  ∃ s1 p resolved, Unmarshal (Wf_Definition w) = Some p ∧ @pinned (definitionAgents (agents s1)) p ∧
    @parseAndValidateDefinition (definitionAgents (agents s1)) (UWC_SpaceID cmd) (Unmarshal (Wf_Definition w))
      = Ok (p, resolved) ∧
    pinDefinitionAgents p resolved = p.
Proof.
  intros Hrec Hround Ho K Hst H.
  destruct (UpdateWorkflow_publish_ok Marshal Ho cmd s w s' K Hst H) as (Eid & Es & s1 & raw & def & ag & Hpar & Ed).
  split_and!; [done|done|]. destruct (pinned_plan _ _ _ _ (Hrec s1) Hpar) as (Hp & _ & Hagain & Honce).
  exists s1, (pinDefinitionAgents def ag), ag. by rewrite Ed, (Hround s1 raw def ag Hpar).
Qed.

(** ** A publish, and an edit of what was published *)

(** Two texts: the draft, and what publishing writes. *)
Definition publish_env (others : Store → Store) : Env := {|
  gen := sample_gen; others := others;
  agents := λ _, {| agentdef.GetAgent id := Ok (if id == "agt_1" then Some sample_agent else None);
                    agentdef.GetAgentIncludingDeleted id := Ok (if id == "agt_1" then Some sample_agent else None);
                    agentdef.GetAgentRevision id rev :=
                      Ok (if (id == "agt_1") && ((1 <=? rev) && (rev <=? 4))%Z
                          then Some (agentdef.mkRevision_ id rev "Planner" "" "") else None) |};
  Artifacts := None;
  Unmarshal := λ text, if text == "pinned" then Some (pinDefinitionAgents sample_parsed sample_agents)
                       else Some sample_definition;
  render := λ _, ""%string; num64 := λ n, n; quote := λ n, n; formatTime := λ _, ""%string;
  Error := λ _, "failed"%string |}.

Definition publish_cmd : UpdateWorkflowCmd :=
  mkUpdateWorkflowCmd "spc_1" "usr" "id_0" None None None (Some "published"%string) None.

(** The draft [id_0] of [workflow_store], in the Space of [sample_agent]. *)
Definition draft_store : Store :=
  workflow_store <| st_workflows := map (λ w, w <| Wf_SpaceID := "spc_1" |>) (st_workflows workflow_store) |>
    <| st_refs := {[("agent", "agt_1"); ("space", "spc_1")]} ∪ st_refs workflow_store |>.

Lemma keys_ok_map_workflows (f : Workflow → Workflow) refs s :
  (∀ w, Wf_ID (f w) = Wf_ID w) → keys_ok s → keys_ok (s <| st_workflows := map f (st_workflows s) |> <| st_refs := refs |>).
Proof.
  intros Hf [K1 K2 K3 K4 K5 K6]. split; [|exact K2|exact K3|exact K4|exact K5|exact K6]. cbn.
  rewrite map_map. by rewrite (map_ext _ _ Hf).
Qed.

Lemma draft_keys : keys_ok draft_store.
Proof. unfold draft_store. apply keys_ok_map_workflows; [reflexivity|apply so_keys, workflow_store_ok]. Qed.

Lemma publish_recorded others s : @revisions_recorded (definitionAgents (@agents (publish_env others) s)).
Proof. intros id a. cbn. case_bool_decide as E; [|done]. intros [= <-]. split; [cbn; lia|]. by eexists. Qed.

Lemma publish_round others s raw def resolved :
  @parseAndValidateDefinition (definitionAgents (@agents (publish_env others) s)) "spc_1"
    (@Unmarshal (publish_env others) raw) = Ok (def, resolved) →
  pinDefinitionAgents def resolved = pinDefinitionAgents sample_parsed sample_agents.
Proof.
  cbn [Unmarshal publish_env]. destruct (raw == "pinned"); intros H.
  - assert (@parseAndValidateDefinition (definitionAgents (@agents (publish_env others) s)) "spc_1"
      (Some (pinDefinitionAgents sample_parsed sample_agents))
      = Ok (pinDefinitionAgents sample_parsed sample_agents, sample_agents)) as E by (vm_compute; reflexivity).
    rewrite E in H. injection H as <- <-. vm_compute. reflexivity.
  - assert (@parseAndValidateDefinition (definitionAgents (@agents (publish_env others) s)) "spc_1"
      (Some sample_definition) = Ok (sample_parsed, sample_agents)) as E by (vm_compute; reflexivity).
    rewrite E in H. injection H as <- <-. reflexivity.
Qed.

Definition publish_draft : res db.error Workflow * Store :=
  @workflowapi.UpdateWorkflow (publish_env (λ s, s)) (λ _, "pinned"%string) publish_cmd draft_store.

Lemma UpdateWorkflow_publishes_witness :
  ∃ w s', publish_draft = (Ok w, s') ∧ Wf_Status w = StatusPublished ∧ Wf_Revision w = 2%Z ∧
    ∃ p, @Unmarshal (publish_env (λ s, s)) (Wf_Definition w) = Some p ∧
      map (λ n, NA_Revision (DN_Agent n)) (Def_Nodes p) = [4%Z; 0%Z].
Proof.
  pose proof (@UpdateWorkflow_publishes (publish_env (λ s, s)) (λ _, "pinned"%string) publish_cmd draft_store) as H.
  assert (match publish_draft with
          | (Ok w, _) => Wf_Revision w = 2%Z ∧ Wf_Definition w = "pinned"%string | _ => False end) as Hc
    by (vm_compute; auto).
  fold publish_draft in H. destruct publish_draft as [[w|e] s']; [|destruct Hc]. destruct Hc as [H1 H2].
  destruct (H w s' (publish_recorded _)
    ltac:(intros s raw def resolved E; rewrite (publish_round _ _ _ _ _ E); reflexivity)
    (λ s K, K) draft_keys eq_refl eq_refl) as (_ & H3 & s1 & p & resolved & H4 & _).
  exists w, s'. split; [reflexivity|]. split; [exact H3|]. split; [exact H1|]. exists p. split; [exact H4|].
  rewrite H2 in H4. cbn in H4. injection H4 as <-. vm_compute. reflexivity.
Defined.

(** The published workflow, its definition replaced by the draft text. *)
Definition edit_cmd : UpdateWorkflowCmd :=
  mkUpdateWorkflowCmd "spc_1" "usr" "id_0" None None (Some "draft"%string) None None.

(** An edit of a published workflow validates its definition but does not
    pin it, and leaves the workflow published: what a run then starts from names
    no agent revision, so the start resolves the latest one. *)
Theorem UpdateWorkflow_edit_unpinned :
  ∃ w0 s0 w s1 p run step s2,
    publish_draft = (Ok w0, s0) ∧ Wf_Status w0 = StatusPublished ∧
    @workflowapi.UpdateWorkflow (publish_env (λ s, s)) (λ _, "pinned"%string) edit_cmd s0 = (Ok w, s1) ∧
    Wf_Status w = StatusPublished ∧
    parseDefinition (@Unmarshal (publish_env (λ s, s)) (Wf_Definition w)) = Ok p ∧
    (∃ n, n ∈ Def_Nodes p ∧ DN_Type n = NodeTypeAgentTask ∧ NA_Revision (DN_Agent n) = 0%Z) ∧
    @workflowapi.StartWorkflowRun (publish_env (λ s, s))
      (service sample_gen sample_gen (λ s, s) (@agents (publish_env (λ s, s))) None None) (λ _, Some (JStr "x")) None 2
      (mkStartWorkflowRunCmd "spc_1" "usr" "id_0" None None None "" "" 0 "x") s1 = (Ok (Some run, step), s2) ∧
    map NR_AgentRevision step = [4%Z; 0%Z].
Proof.
  assert (match publish_draft with
          | (Ok w0, s0) => Wf_Status w0 = StatusPublished ∧
              match @workflowapi.UpdateWorkflow (publish_env (λ s, s)) (λ _, "pinned"%string) edit_cmd s0 with
              | (Ok w, s1) => Wf_Status w = StatusPublished ∧ Wf_Definition w = "draft"%string ∧
                  match @workflowapi.StartWorkflowRun (publish_env (λ s, s))
                    (service sample_gen sample_gen (λ s, s) (@agents (publish_env (λ s, s))) None None)
                    (λ _, Some (JStr "x")) None 2
                    (mkStartWorkflowRunCmd "spc_1" "usr" "id_0" None None None "" "" 0 "x") s1 with
                  | (Ok (Some _, step), _) => map NR_AgentRevision step = [4%Z; 0%Z]
                  | _ => False
                  end
              | _ => False
              end
          | _ => False
          end) as Hc by (vm_compute; auto).
  destruct publish_draft as [[w0|] s0]; [|destruct Hc]. destruct Hc as [H1 Hc]. exists w0, s0.
  destruct (workflowapi.UpdateWorkflow _ _ s0) as [[w|] s1]; [|destruct Hc]. destruct Hc as (H2 & H3 & Hc). exists w, s1.
  destruct (workflowapi.StartWorkflowRun _ _ _ _ s1) as [[[[run|] step]|] s2]; [|destruct Hc..].
  exists sample_parsed, run, step, s2. rewrite H3.
  split_and!; [reflexivity|exact H1|reflexivity|exact H2|exact sample_parsed_ok| |reflexivity|exact Hc].
  eexists. split; [left|]. vm_compute. done.
Qed.

(** * Interleavings that strand a run

    Two executions of the modelled operations in which another process commits
    between two transactions of one command: a recovery sweep inside the start of
    a run, and a cancellation inside the pass that schedules a retry. *)

Import db taskdb workflowdb taskservice workflow definition graph.
Import coretask.
Import coreworkflow.
Import workflowapi.

(** ** A sweep inside a start *)

(** A recovery sweep of every due run. *)
Definition start_sweep (s : Store) : Store :=
  (@sweep (start_env (λ s, s)) (start_service (λ s, s)) 2 100 s).2.

Lemma start_sweep_advances s : progress s → advances s (start_sweep s).
Proof.
  intros Hp. pose proof (λ s Hp, spares_refl s Hp) as Ho.
  pose proof (service_safe sample_gen sample_gen (λ s, s) (λ _, start_agents) None None advances_refl) as Hts.
  by apply (@safe_sweep (start_env (λ s, s)) (start_service (λ s, s)) Hts Ho).
Qed.

(** Where a recovery sweep runs between the two transactions of a start,
    the run it just created has no nodes yet and counts as finished: the start
    returns a succeeded run whose steps are all pending and will never run. *)
Theorem StartWorkflowRun_races :
  ∃ run steps s',
    progress published_store ∧ (∀ s, progress s → advances s (start_sweep s)) ∧
    @workflowapi.StartWorkflowRun (start_env start_sweep) (start_service start_sweep) (λ _, None) None 2 start_cmd
      published_store = (Ok (Some run, steps), s') ∧
    Run_Status run = RunStatusSucceeded ∧ map NR_Status steps = [NodeRunStatusPending; NodeRunStatusPending] ∧
    (∃ r n, r ∈ st_runs s' ∧ Run_ID r = Run_ID run ∧ Run_Status r = RunStatusSucceeded ∧
       n ∈ st_nodes s' ∧ NR_WorkflowRunID n = Run_ID run ∧ NR_Status n = NodeRunStatusPending) ∧
    ¬ progress s'.
Proof.
  fold (start_under start_sweep).
  assert (match start_under start_sweep with
          | (Ok (Some run, steps), s') =>
              (Run_Status run == RunStatusSucceeded)
              && bool_decide (map NR_Status steps = [NodeRunStatusPending; NodeRunStatusPending])
              && existsb (λ r, (Run_ID r == Run_ID run) && (Run_Status r == RunStatusSucceeded)) (st_runs s')
              && existsb (λ n, (NR_WorkflowRunID n == Run_ID run) && (NR_Status n == NodeRunStatusPending)) (st_nodes s')
          | _ => false
          end = true) as Hc by (vm_compute; reflexivity).
  destruct (start_under start_sweep) as [[[[run|] steps]|e] s']; [|done..].
  exists run, steps, s'.
  apply andb_true_iff in Hc as [[[H1%bool_decide_eq_true H2%bool_decide_eq_true]%andb_true_iff H3]%andb_true_iff H4].
  apply existsb_exists in H3 as (r & Hr%list_elem_of_In & [Er%bool_decide_eq_true Hs%bool_decide_eq_true]%andb_true_iff).
  apply existsb_exists in H4 as (n & Hn%list_elem_of_In & [En%bool_decide_eq_true Ht%bool_decide_eq_true]%andb_true_iff).
  split_and!; [exact published_progress|exact start_sweep_advances|done|done|done|by exists r, n|].
  intros Hp. pose proof (pg_done _ Hp r n Hr Hn ltac:(congruence) Hs). congruence.
Qed.

(** ** A cancellation inside a retry *)

(** It is given the TaskRun [id_5], takes it up and fails. *)
Definition fail_worker (s : Store) : Store :=
  let s1 := (TransitionTaskRun (sample_finish coretask.RunStatusPending coretask.RunStatusScheduled) s).2 in
  let s2 := (TransitionTaskRun (sample_finish coretask.RunStatusScheduled coretask.RunStatusRunning) s1).2 in
  (TransitionTaskRun (sample_finish coretask.RunStatusRunning coretask.RunStatusFailed) s2).2.

(** The run of [workflow_store] with its first attempt failed and one left. *)
Definition attempted : Store := sample_reconcile fail_worker workflow_store.

(** Time passes before every call, and the run is canceled when it reaches [k]. *)
Definition cancel_at (k : Z) (s : Store) : Store :=
  let s := s <| st_clock := (st_clock s + 1)%Z |> in
  if (st_clock s =? k)%Z then (StopWorkflowRun sample_stop s).2 else s.

(** A cancellation that commits after a pass read a failed attempt and
    before it schedules the retry: the retry is scheduled all the same, the node
    transition being guarded by the node's status alone, and the drain then ends
    the run canceled with the node waiting for a retry that never comes. *)
Theorem scheduleRetry_races :
  let canceling := sample_reconcile (cancel_at 1003) attempted in
  let drained := sample_reconcile (λ s, s) canceling in
  map Run_Status (st_runs attempted) = [RunStatusRunning] ∧
  map NR_Status (st_nodes attempted) = [NodeRunStatusRunning] ∧
  map Run_Status (st_runs canceling) = [RunStatusCanceling] ∧
  map NR_Status (st_nodes canceling) = [NodeRunStatusRetryWait] ∧
  map Run_Status (st_runs drained) = [RunStatusCanceled] ∧
  map NR_Status (st_nodes drained) = [NodeRunStatusRetryWait] ∧
  workflowdb.ClaimWorkflowRunLease (mkClaimLeaseInput "id_1" "other" (st_clock drained) (st_clock drained + 1)) drained
    = (Ok false, drained).
Proof. vm_compute. repeat split. Qed.
