(* ===== verification/ReconcileProgress.v ===== *)
(** * ReconcileProgress: a pass ends

    [reconcilePass] calls itself only after it stopped the run.  Alone, the
    stop applies, and the second body drains: two bodies are always enough for
    a run that has started. *)

From S2P Require Import Prelude Text Json TaskCore WorkflowCore WorkflowDefinition Store TaskStore.
From S2P Require Import WorkflowStore WorkflowLifecycle StoreProgram TaskService WorkflowSafety.
From S2P Require Import WorkflowReconcile ReconcileMoves ReconcileSafety.
From stdpp Require Import gmap.
Import db taskdb workflowdb taskservice workflow.
Import coretask.
Import coreworkflow.

(** ** Where a run stands *)

(** The run has started; and it is no longer running. *)
Definition started_run (s : Store) (id : string) : Prop :=
  ∃ r, r ∈ st_runs s ∧ Run_ID r = id ∧ Run_Status r ≠ RunStatusPending.

Definition ended_run (s : Store) (id : string) : Prop :=
  ∃ r, r ∈ st_runs s ∧ Run_ID r = id ∧ Run_Status r ≠ RunStatusPending ∧ Run_Status r ≠ RunStatusRunning.

Lemma not_pending_rtc a b : rtc run_step a b → a ≠ RunStatusPending → b ≠ RunStatusPending.
Proof. induction 1 as [|x y z H _ IH]; [done|]. intros Hx. apply IH. revert H. unfold run_step. by destruct x, y. Qed.

Lemma left_running_rtc a b :
  rtc run_step a b → a ≠ RunStatusPending ∧ a ≠ RunStatusRunning → b ≠ RunStatusPending ∧ b ≠ RunStatusRunning.
Proof. induction 1 as [|x y z H _ IH]; [done|]. intros Hx. apply IH. revert H. unfold run_step. destruct x, y; naive_solver. Qed.

Lemma started_run_evolves s s' id : keys_ok s → evolves s s' → started_run s id → started_run s' id.
Proof.
  intros K Hev (r & Hr & E & Hs). destruct (follow_run s s' K Hev r Hr) as (r' & Hr' & [_ H _ _] & E').
  exists r'. split_and!; [done|congruence|by eapply not_pending_rtc].
Qed.

Lemma halted_ended s id : halted_run s id → ended_run s id.
Proof. intros (r & Hr & E & Hh). exists r. split_and!; [done|done|..]; intros F; by rewrite F in Hh. Qed.

(** ** Programs that leave the other nodes alone *)

(** The status of a node outside [C] changes only by its run's stop. *)
Definition leaves (C : string → Prop) : relation Store := moves C any any any.

Lemma leaves_none C s s' : leaves none s s' → leaves C s s'.
Proof. apply moves_weaken; [by intros i []|done..]. Qed.

(** A snapshot node whose row still has the status read, unless the run stopped. *)
Definition still (id : string) (status : NodeRunStatus) (s : Store) (n : NodeRun) : Prop :=
  NR_Status n = status →
  halted_run s id ∨ ∃ n', n' ∈ st_nodes s ∧ NR_ID n' = NR_ID n ∧ NR_WorkflowRunID n' = id ∧ NR_Status n' = status.

Lemma still_leaves id status C s s' n :
  keys_ok s → leaves C s s' → ¬ C (NR_ID n) → still id status s n → still id status s' n.
Proof.
  intros K Hl HC Hs E. destruct (Hl K) as [V N _]. destruct (Hs E) as [Hh|(n1 & H1 & E1 & E2 & E3)].
  { left. by eapply halted_run_evolves. }
  destruct (follow_node s s' K V n1 H1) as (n2 & H2 & [O _ _] & E4). injection O as _ O _.
  destruct (N n2 H2) as (n0 & Hn0 & E0 & _ & _ & T).
  assert (n0 = n1) as -> by (apply (NoDup_key NR_ID (st_nodes s)); [apply K|done..|congruence]).
  destruct T as [T|[T|T]].
  - right. exists n2. split_and!; congruence.
  - destruct HC. by rewrite <- E1, <- E4.
  - left. by rewrite <- E2, <- O.
Qed.

(** What the Task service may change of a node's status. *)
Class TaskServiceLocal (ts : TaskService) : Prop := {
  tsl_AdmitWorkflowAnswerRun : ∀ cmd,
    steps (leaves (λ i, i = WAC_WorkflowNodeRunID cmd)) (ts_AdmitWorkflowAnswerRun cmd);
  tsl_RequestRunCancel : ∀ id by_ reason at_, steps (leaves none) (ts_RequestRunCancel id by_ reason at_);
}.

Section Alone.
Context {env : Env} {ts : TaskService} {Hts : TaskServiceLocal ts}.
(** Nothing else commits between two calls. *)
Context (Halone : ∀ s, others s = s).

Lemma call_alone {A} (m : DB A) s : call m s = m s.
Proof. unfold call, after. by rewrite Halone. Qed.

Lemma steps_call {A} (R : relation Store) (m : DB A) : steps R m → steps R (call m).
Proof. intros Hm s. rewrite call_alone. apply Hm. Qed.

Section Leaves.
Context (C : string → Prop).

Lemma leaves_quiet {A} (m : DB A) : (∀ s, (m s).2 = s) → steps (leaves C) (call m).
Proof. intros Hm s. rewrite call_alone, Hm. reflexivity. Qed.

Lemma leaves_stepTaskRun n : steps (leaves C) (stepTaskRun n).
Proof. unfold stepTaskRun. destruct (ref_of _); [by apply leaves_quiet|by apply steps_ret, moves_preorder]. Qed.

Lemma leaves_transition in_ : C (TN_NodeRunID in_) → steps (leaves C) (call (TransitionWorkflowNodeRun in_)).
Proof. intros HC. apply steps_call, steps_TransitionWorkflowNodeRun_moves; [done|by right|by right]. Qed.

Lemma leaves_drain in_ : steps (leaves C) (call (BeginWorkflowRunDrain in_)).
Proof. by apply steps_call, steps_BeginWorkflowRunDrain_moves. Qed.

Lemma leaves_open in_ : C (ORI_NodeRunID in_) → steps (leaves C) (call (OpenWorkflowRequest gen in_)).
Proof. intros HC. by apply steps_call, steps_OpenWorkflowRequest_moves. Qed.

Lemma leaves_resolve in_ : steps (leaves C) (call (ResolveWorkflowRequest in_)).
Proof. apply steps_call, steps_ResolveWorkflowRequest_moves. Qed.

Lemma leaves_cancel id by_ reason at_ : steps (leaves C) (ts_RequestRunCancel id by_ reason at_).
Proof. intros s. apply leaves_none, tsl_RequestRunCancel. Qed.
End Leaves.
Hint Resolve leaves_stepTaskRun leaves_drain leaves_resolve leaves_cancel : bm_leaves.
Hint Extern 2 (steps (leaves _) (call (TransitionWorkflowNodeRun _))) => (apply leaves_transition; done) : bm_leaves.
Hint Extern 2 (steps (leaves _) (call (OpenWorkflowRequest _ _))) => (apply leaves_open; done) : bm_leaves.
Hint Extern 3 (steps (leaves _) (call _)) => (apply leaves_quiet; done) : bm_leaves.
Hint Resolve steps_ret steps_fail steps_gets : bm_leaves.
Hint Extern 1 (PreOrder _) => apply moves_preorder : bm_leaves.

Ltac leaves_walk :=
  repeat lazymatch goal with
  | |- forall _, _ => intro
  | |- steps _ (mbind _ _) => apply steps_bind
  | |- steps _ (catch _ _) => apply steps_catch
  | |- steps _ (match ?x with _ => _ end) => destruct x eqn:?
  | |- PreOrder _ => apply moves_preorder
  | |- steps _ _ => solve [eauto 3 with bm_leaves]
  end.

Lemma leaves_failAdmission C run node from message st at_ {A} e :
  steps (leaves C) (@failAdmission _ run node from message st at_ A e).
Proof. unfold failAdmission. leaves_walk. Qed.

Lemma leaves_applyAnswer run node req at_ :
  steps (leaves (λ i, i = NR_ID node)) (applyAnswer run node req at_).
Proof.
  unfold applyAnswer. leaves_walk.
  - match goal with |- steps _ (_ ?cmd) => exact (tsl_AdmitWorkflowAnswerRun cmd) end.
  - apply leaves_failAdmission.
Qed.

(** *** A drain that is asked for ends the run *)

Lemma drain_ends in_ s b s' :
  keys_ok s → started_run s (BD_WorkflowRunID in_) →
  (halted_run s (BD_WorkflowRunID in_) ∨ ∃ n, n ∈ st_nodes s ∧ NR_ID n = BD_NodeRunID in_ ∧
     NR_WorkflowRunID n = BD_WorkflowRunID in_ ∧ NR_Status n = BD_NodeExpected in_) →
  BeginWorkflowRunDrain in_ s = (Ok b, s') → ended_run s' (BD_WorkflowRunID in_).
Proof.
  intros K (r & Hr & Er & Hp) Hn H. destruct (BeginWorkflowRunDrain_ok _ _ _ _ K H) as (Hst & Hexp & Hb).
  destruct b.
  - destruct Hb as (run & node & f & Hrun & Erun & Est & _ & _ & _ & _ & _ & ->). apply halted_ended.
    exists (stopRunUpdates (BD_RunStatus_ in_) (BD_ErrorMessage in_) (BD_FailureClass_ in_) run). split_and!.
    + cbn. apply elem_of_update_where. exists run. by rewrite Hexp, !bool_decide_eq_true_2.
    + by rewrite stopRunUpdates_id.
    + destruct (stopRunUpdates_keeps (BD_RunStatus_ in_) (BD_ErrorMessage in_) (BD_FailureClass_ in_) run) as [-> _].
      by apply stop_status_halted.
  - destruct Hb as [-> [(run & Hrun & Erun & Hne)|Hno]].
    + assert (run = r) as -> by (apply (NoDup_key Run_ID (st_runs s)); [apply K|done..|congruence]). by exists r.
    + destruct Hn as [Hh|(n & Hn & E1 & E2 & E3)]; [by apply halted_ended|]. by destruct (Hno n Hn E1 E2).
Qed.

(** The hypotheses a fold carries: its nodes are as they were read. *)
Record folding (run : Run) (status : NodeRunStatus) (rest : list NodeRun) (s : Store) : Prop := {
  fo_keys : keys_ok s;
  fo_started : started_run s (Run_ID run);
  fo_ids : NoDup (map NR_ID rest);
  fo_still : ∀ n, n ∈ rest → still (Run_ID run) status s n;
}.

Lemma folding_next run status step rest s s' :
  folding run status (step :: rest) s → leaves (λ i, i = NR_ID step) s s' → folding run status rest s'.
Proof.
  intros [K St Nd Sl] Hl. destruct (Hl K) as [V _ _]. cbn in Nd. apply NoDup_cons in Nd as [Hnot Nd]. split.
  - by eapply keys_ok_evolves.
  - by eapply started_run_evolves.
  - done.
  - intros n Hn. eapply still_leaves; [done|exact Hl| |by apply Sl; right].
    intros E. apply Hnot. rewrite <- E. by apply list_elem_of_fmap_2.
Qed.

Lemma folding_same run status rest s s' : folding run status rest s → leaves none s s' → folding run status rest s'.
Proof.
  intros [K St Nd Sl] Hl. destruct (Hl K) as [V _ _]. split.
  - by eapply keys_ok_evolves.
  - by eapply started_run_evolves.
  - done.
  - intros n Hn. eapply still_leaves; [done|exact Hl|by intros []|by apply Sl].
Qed.

(** The state a successful call leaves. *)
Lemma leaves_ok {A} C (m : DB A) s a s' : steps (leaves C) m → m s = (Ok a, s') → leaves C s s'.
Proof. intros Hm E. specialize (Hm s). by rewrite E in Hm. Qed.

Lemma folding_drain run status step rest s in_ b s' :
  folding run status (step :: rest) s → NR_Status step = status →
  BD_WorkflowRunID in_ = Run_ID run → BD_NodeRunID in_ = NR_ID step → BD_NodeExpected in_ = status →
  call (BeginWorkflowRunDrain in_) s = (Ok b, s') → ended_run s' (Run_ID run).
Proof.
  intros [K St _ Sl] Es E1 E2 E3 H. rewrite call_alone in H. rewrite <- E1 in *.
  eapply drain_ends; [done|done| |exact H]. rewrite E2, E3. apply Sl; [by left|done].
Qed.

Lemma foldRunning_ends run at_ act rest s a s' :
  folding run NodeRunStatusRunning rest s → foldRunning run at_ act rest s = (Ok (a, true), s') →
  ended_run s' (Run_ID run).
Proof.
  revert act s. induction rest as [|step rest IH]; intros act s Hf; cbn [foldRunning]; [by intros [[=] _]%ret_ok|].
  assert (∀ act s1, leaves (λ i, i = NR_ID step) s s1 →
    foldRunning run at_ act rest s1 = (Ok (a, true), s') → ended_run s' (Run_ID run)) as Hcont.
  { intros act1 s1 Hl. apply IH. by eapply folding_next. }
  destruct (bool_decide_reflect (NR_Status step = NodeRunStatusRunning)) as [Es|Es]; cbn [negb];
    [|by apply Hcont].
  intros (read & s1 & H1 & H)%eff_bind_ok. apply eff_bind_ok in H as (tr & s2 & H2 & H).
  assert (leaves none s s2) as Hl.
  { etransitivity; [eapply leaves_ok; [|exact H1]; apply leaves_stepTaskRun|].
    eapply leaves_ok; [|exact H2]. unfold cancelTimedOutAttempt. leaves_walk. }
  assert (∀ C, leaves C s s2) as HlC by (intros C; by apply leaves_none).
  assert (∀ {A} (m : DB A) act x s3, steps (leaves (λ i, i = NR_ID step)) m → m s2 = (Ok x, s3) →
    foldRunning run at_ act rest s3 = (Ok (a, true), s') → ended_run s' (Run_ID run)) as Hstep.
  { intros A m act1 x s3 Hm Hx. apply Hcont. etransitivity; [apply HlC|by eapply leaves_ok]. }
  destruct tr as [tr|]; [|by eapply Hcont, H]. destruct (negb _); [by eapply Hcont, H|]. cbv zeta in H.
  destruct (ao_asked _).
  { apply eff_bind_ok in H as (u & s3 & H3 & H). eapply Hstep; [|exact H3|exact H]. unfold openQuestionRequest. leaves_walk. }
  destruct (ao_succeeded _).
  { apply eff_bind_ok in H as (u & s3 & H3 & H). eapply Hstep; [|exact H3|exact H]. unfold applyNodeSuccess. leaves_walk. }
  destruct (_ && _).
  { apply eff_bind_ok in H as (u & s3 & H3 & H). eapply Hstep; [|exact H3|exact H]. unfold scheduleRetry. leaves_walk. }
  apply eff_bind_ok in H as (u & s3 & H3 & [_ ->]%ret_ok). unfold finalizeFailedFromNode in H3.
  eapply (folding_drain run); [by eapply folding_same|exact Es|..|exact H3]; done.
Qed.

Lemma foldWaiting_ends run latest at_ wake rest s a s' :
  folding run NodeRunStatusWaiting rest s → foldWaiting run latest at_ wake rest s = (Ok (a, true), s') →
  ended_run s' (Run_ID run).
Proof.
  revert wake s. induction rest as [|step rest IH]; intros wake s Hf; cbn [foldWaiting]; [by intros [[=] _]%ret_ok|].
  assert (∀ wake s1, leaves (λ i, i = NR_ID step) s s1 →
    foldWaiting run latest at_ wake rest s1 = (Ok (a, true), s') → ended_run s' (Run_ID run)) as Hcont.
  { intros wake1 s1 Hl. apply IH. by eapply folding_next. }
  destruct (bool_decide_reflect (NR_Status step = NodeRunStatusWaiting)) as [Es|Es]; cbn [negb];
    [|by apply Hcont].
  destruct (latest _) as [req|]; [|by intros ?%fail_ok]. intros (fresh & s1 & H1 & H)%eff_bind_ok.
  assert (leaves none s s1) as Hl by (eapply leaves_ok; [|exact H1]; leaves_walk).
  assert (∀ C, leaves C s s1) as HlC by (intros C; by apply leaves_none).
  destruct fresh as [req1|]; [|by apply ret_ok in H as [[=] _]].
  destruct (Req_Status req1).
  - by eapply Hcont, H.
  - apply eff_bind_ok in H as (u & s2 & H2 & H). eapply Hcont; [|exact H].
    etransitivity; [apply HlC|eapply leaves_ok; [|exact H2]; apply leaves_applyAnswer].
  - destruct (requestFailure req1) as [class message]. apply eff_bind_ok in H as (u & s2 & H2 & [_ ->]%ret_ok).
    eapply (folding_drain run); [by eapply folding_same|exact Es|..|exact H2]; done.
  - destruct (requestFailure req1) as [class message]. apply eff_bind_ok in H as (u & s2 & H2 & [_ ->]%ret_ok).
    eapply (folding_drain run); [by eapply folding_same|exact Es|..|exact H2]; done.
  - by eapply Hcont, H.
Qed.

(** *** The body calls itself only on an ended run *)

Lemma leaves_foldRunning run at_ act rest :
  steps (leaves (λ i, ∃ n, n ∈ rest ∧ NR_ID n = i ∧ NR_Status n = NodeRunStatusRunning)) (foldRunning run at_ act rest).
Proof.
  revert act. induction rest as [|step rest IH]; intros act; cbn [foldRunning]; [leaves_walk|].
  assert (∀ act, steps (leaves (λ i, ∃ n, n ∈ step :: rest ∧ NR_ID n = i ∧ NR_Status n = NodeRunStatusRunning))
    (foldRunning run at_ act rest)) as Hrec.
  { intros act1. eapply steps_weaken; [| | | |apply IH]; try done.
    intros i (n & Hn & ?). exists n. split; [by right|done]. }
  destruct (bool_decide_reflect (NR_Status step = NodeRunStatusRunning)) as [Es|Es]; cbn [negb]; [|apply Hrec].
  unfold cancelTimedOutAttempt, openQuestionRequest, applyNodeSuccess, scheduleRetry, finalizeFailedFromNode.
  leaves_walk.
  all: first [apply leaves_open|apply leaves_transition]; exists step; split_and!; [by left|done|done].
Qed.

Lemma leaves_foldWaiting run latest at_ wake rest : steps (leaves any) (foldWaiting run latest at_ wake rest).
Proof.
  revert wake. induction rest as [|step rest IH]; intros wake; cbn [foldWaiting]; leaves_walk.
  eapply steps_weaken; [| | | |apply leaves_applyAnswer]; done.
Qed.

Lemma ListWorkflowNodeRuns_folding run status s l s' :
  keys_ok s → started_run s (Run_ID run) → ListWorkflowNodeRuns (Run_ID run) s = (Ok l, s') →
  s' = s ∧ folding run status l s.
Proof.
  intros K St. destruct St as (r & Hr & Er & Hne). unfold ListWorkflowNodeRuns, or_empty. rewrite catch_ok.
  intros [H|(e & s1 & H & _)].
  - inv_eff H. split; [done|].
    assert (∀ rows, rows ≡ₚ rows_where (λ n, NR_WorkflowRunID n == Run_ID run) (st_nodes s) →
      folding run status rows s) as Hf; [|apply Hf, merge_sort_Permutation].
    intros rows Hp. split; [done|by exists r| |].
    + rewrite Hp. by apply rows_where_keys, K.
    + intros n. rewrite Hp. intros [Hn Erow%bool_decide_eq_true]%elem_of_rows Es. right. by exists n.
  - exfalso. unfold lookupKey in H. revert H. eff_unfold.
    assert (resolves s "workflow_run" (Run_ID run) = true) as ->; [|done].
    apply bool_decide_eq_true_2. rewrite <- Er. by apply list_elem_of_fmap_2.
Qed.

Lemma eff_bind_ext {A B} (m : DB A) (f g : A → DB B) s :
  (∀ a s', m s = (Ok a, s') → f a s' = g a s') → (m ≫= f) s = (m ≫= g) s.
Proof. intros H. unfold mbind, eff_bind. destruct (m s) as [[a|e] s'] eqn:E; [by apply H|done]. Qed.

Lemma GetWorkflowRun_row id s o s' :
  keys_ok s → call (GetWorkflowRun id) s = (Ok o, s') →
  s' = s ∧ match o with
           | Some r => r ∈ st_runs s ∧ Run_ID r = id ∧ ∀ r', r' ∈ st_runs s → Run_ID r' = id → r' = r
           | None => ∀ r', r' ∈ st_runs s → Run_ID r' ≠ id
           end.
Proof.
  rewrite call_alone. intros K [-> ->]%gets_ok. split; [done|]. destruct (take_where _ _) as [r|] eqn:E.
  - apply take_where_Some in E as [Hr E%bool_decide_eq_true]. split_and!; [done|done|].
    intros r' Hr' E'. apply (NoDup_key Run_ID (st_runs s)); [apply K|done..|congruence].
  - intros r' Hr' E'. apply (take_where_None _ _ E) in Hr'. by rewrite bool_decide_eq_true_2 in Hr'.
Qed.

Lemma passStep_ended k1 k2 id at_ s :
  keys_ok s → ended_run s id → passStep k1 id at_ s = passStep k2 id at_ s.
Proof.
  intros K (r & Hr & Er & H1 & H2). unfold passStep. apply eff_bind_ext. intros o s' H.
  destruct (GetWorkflowRun_row _ _ _ _ K H) as [-> Ho]. destruct o as [run|]; [|done].
  destruct Ho as (_ & _ & Hu). rewrite <- (Hu r Hr Er). destruct (Run_Status r); try done; by apply eff_bind_ext.
Qed.

Lemma passStep_ext k1 k2 id at_ s :
  keys_ok s → (∀ r, r ∈ st_runs s → Run_ID r = id → Run_Status r ≠ RunStatusPending) →
  (∀ s', keys_ok s' → ended_run s' id → k1 s' = k2 s') → passStep k1 id at_ s = passStep k2 id at_ s.
Proof.
  intros K Hp Hk. unfold passStep. apply eff_bind_ext. intros o s' H.
  destruct (GetWorkflowRun_row _ _ _ _ K H) as [-> Ho]. destruct o as [run|]; [|done].
  destruct Ho as (Hr & Er & Hu). pose proof (Hp run Hr Er) as Hne. destruct (RunStatusTerminal _) eqn:Ht; [done|].
  apply eff_bind_ext. intros steps s1 H1. rewrite call_alone, <- Er in H1.
  destruct (_ || _) eqn:Ed; [done|].
  assert (Run_Status run = RunStatusRunning) as Est by (by destruct (Run_Status run)).
  assert (started_run s (Run_ID run)) as St by (by exists run).
  destruct (ListWorkflowNodeRuns_folding run NodeRunStatusRunning _ _ _ K St H1) as [-> Hf].
  destruct (ListWorkflowNodeRuns_folding run NodeRunStatusWaiting _ _ _ K St H1) as [_ Hw].
  destruct (time_arrived _ _).
  { apply eff_bind_ext. intros b s2 H2. rewrite call_alone in H2.
    rewrite StopWorkflowRun_eq in H2 by (cbn; by rewrite ?Est). cbn in H2.
    rewrite (take_where_key Run_ID _ run) in H2 by (done || apply K).
    rewrite bool_decide_eq_true_2 in H2 by done. injection H2 as _ <-.
    pose proof (steps_StopWorkflowRun (mkStopRunInput (Run_ID run) (Run_Status run) RunStatusFailing
      (Some ("workflow run exceeded its timeout (deadline " +:+ formatTime (default 0%Z (Run_DeadlineAt run)) +:+ ")"))
      (Some FailureRunDeadline)) s) as Hev.
    rewrite StopWorkflowRun_eq in Hev by (cbn; by rewrite ?Est). cbn in Hev.
    rewrite (take_where_key Run_ID _ run) in Hev by (done || apply K).
    rewrite bool_decide_eq_true_2 in Hev by done. cbn [snd] in Hev.
    apply Hk; [by eapply keys_ok_evolves|]. rewrite <- Er. apply halted_ended.
    eexists. split_and!; [cbn; apply elem_of_update_where; exists run; by rewrite bool_decide_eq_true_2|
      by rewrite stopRunUpdates_id|].
    match goal with |- halted (Run_Status (stopRunUpdates ?a ?b ?c run)) = true =>
      destruct (stopRunUpdates_keeps a b c run) as [-> _] end. done. }
  apply eff_bind_ext. intros folded s2 H2.
  pose proof (leaves_ok _ _ _ _ _ (leaves_foldRunning run at_ false steps) H2) as Hl2.
  assert (keys_ok s2) as K2 by (eapply keys_ok_evolves; [apply Hl2, K|done]).
  assert (started_run s2 (Run_ID run)) as St2 by (eapply started_run_evolves; [exact K|apply Hl2, K|done]).
  destruct folded as [act []]; cbn [fst snd].
  { apply Hk; [done|]. rewrite <- Er. eapply foldRunning_ends; [exact Hf|exact H2]. }
  apply eff_bind_ext. intros waited s3 H3.
  unfold foldWaitingNodes in H3. destruct (negb _); [by apply ret_ok in H3 as [-> _]|].
  apply eff_bind_ok in H3 as (reqs & s4 & H4 & H3). rewrite call_alone in H4. apply gets_ok in H4 as [_ ->].
  destruct waited as [wake []]; cbn [fst snd]; [|done].
  assert (folding run NodeRunStatusWaiting steps s2) as Hw2.
  { destruct Hw as [_ _ Nd Sl]. split; [done|done|done|]. intros n Hn Es.
    eapply (still_leaves _ _ _ s s2); [done|exact Hl2| |by apply Sl|done].
    intros (m & Hm & Em & Esm). assert (m = n) as -> by (by apply (NoDup_key NR_ID steps)). congruence. }
  apply Hk; [|rewrite <- Er; by eapply foldWaiting_ends].
  pose proof (leaves_ok _ _ _ _ _ (leaves_foldWaiting run (latestRequest reqs) at_ None steps) H3) as Hl3.
  eapply keys_ok_evolves; [apply Hl3, K2|done].
Qed.
End Alone.

(** ** The Task service leaves the other nodes alone *)

Section Service.
Context (tgen session : nat → string) (rest : Store → Store) (ags : Store → agentdef.Store error).
Context (quota : option (Store → string → Z → Z → res error (option string))).
Context (titles : option (string → res error (string * Z * Z))).
Context (Hrest : ∀ s, rest s = s).

Lemma after_alone {A} (R : relation Store) (m : DB A) : steps R m → steps R (after rest m).
Proof. intros Hm s. unfold after. rewrite Hrest. apply Hm. Qed.

Lemma service_local : TaskServiceLocal (service tgen session rest ags quota titles).
Proof.
  split; cbn.
  - intros cmd. unfold AdmitWorkflowAnswerRun, admitWorkflowNodeRun, checkQuota.
    repeat first [apply steps_bind; [apply moves_preorder| |intros]|apply steps_fail, moves_preorder|
      apply steps_ret, moves_preorder|case_match].
    1, 2: apply after_alone; intros s; reflexivity.
    all: apply after_alone, steps_CreateTaskRun_moves; [intros _; cbn; set_solver|done].
  - intros id by_ reason at_. unfold RequestRunCancel. apply steps_bind; [apply moves_preorder| |intros _].
    + apply after_alone, steps_moved_frame; [apply steps_RequestTaskRunCancel|apply same_flow_RequestTaskRunCancel].
    + apply after_alone, steps_moved_frame; [apply steps_TransitionTaskRun|apply same_flow_TransitionTaskRun].
Qed.
End Service.

(** C4: a pass terminates.  With nothing committed meanwhile, [reconcilePass]
    on a run that is not pending calls itself at most once: only after it
    stopped the run, and the body it then runs drains.  Two bodies compute the
    pass, whatever a third would do. *)
Theorem reconcilePass_terminates {env : Env} session quota titles (stuck : DB (option Z)) fuel
    workflowRunID at_ (s : Store) :
  (∀ s, others s = s) → keys_ok s →
  (∀ r, r ∈ st_runs s → Run_ID r = workflowRunID → Run_Status r ≠ RunStatusPending) →
  let ts : TaskService := service gen session others agents quota titles in
  @reconcilePass env ts (2 + fuel) workflowRunID at_ s
  = @passStep env ts (@passStep env ts stuck workflowRunID at_) workflowRunID at_ s.
Proof.
  intros Ho K Hp ts. pose proof (service_local gen session others agents quota titles Ho) as Hts.
  cbn [Nat.add reconcilePass]. apply passStep_ext; [done|done|done|].
  intros s' K' He. by apply passStep_ended.
Qed.

(** The run [id_1] with a deadline of 1000. *)
Definition late_store : Store :=
  workflow_store <| st_runs := map (λ r, r <| Run_DeadlineAt := Some 1000%Z |>) (st_runs workflow_store) |>.

Lemma keys_ok_map_runs s f :
  (∀ r, Run_ID (f r) = Run_ID r) → keys_ok s → keys_ok (s <| st_runs := map f (st_runs s) |>).
Proof.
  intros Hf []; split; try assumption. cbn. rewrite map_map. erewrite map_ext; [eassumption|done].
Qed.

Lemma late_store_keys : keys_ok late_store.
Proof. unfold late_store. apply keys_ok_map_runs; [done|]. apply so_keys, workflow_store_ok. Qed.

Lemma late_store_started r :
  r ∈ st_runs late_store → Run_ID r = "id_1"%string → Run_Status r ≠ RunStatusPending.
Proof.
  assert (map Run_Status (st_runs late_store) = [RunStatusRunning]) as E by (vm_compute; reflexivity).
  revert E. generalize late_store. intros s E Hin%(list_elem_of_fmap_2 Run_Status) _.
  change (Run_Status r ∈ map Run_Status (st_runs s)) in Hin.
  rewrite E in Hin. apply list_elem_of_singleton in Hin. congruence.
Qed.

Lemma reconcilePass_terminates_witness :
  let ts := service sample_gen sample_gen (λ s, s) (λ _, sample_agent_store) None None in
  let pass k := @reconcilePass (sample_env (λ s, s)) ts k "id_1" 5000 late_store in
  (∀ fuel, pass (2 + fuel)%nat = pass 2%nat) ∧ (pass 1%nat).1 = Err ErrFuel ∧ (pass 2%nat).1 = Ok None ∧
  map Run_Status (st_runs (pass 2%nat).2) = [RunStatusFailed].
Proof.
  intros ts pass. split; [|vm_compute; auto]. intros fuel.
  pose proof (λ k, @reconcilePass_terminates (sample_env (λ s, s)) sample_gen None None (fail ErrFuel) k
    "id_1"%string 5000%Z late_store (λ s, eq_refl)) as H.
  pose proof late_store_keys as K.
  pose proof late_store_started as Hr.
  exact (eq_trans (H fuel K Hr) (eq_sym (H 0%nat K Hr))).
Defined.
