(* ===== verification/ScheduleStore.v ===== *)
(** * ScheduleStore: recurring schedules, who may run work, and the store

    internal/core/schedule/schedule.go, with the fields that identify a firing;
    the role rules of internal/core/space and the eligibility question of
    internal/core/eligibility that unattended work asks; and the schedule store
    of internal/infra/db. *)

From S2P Require Import Prelude.

Module coreschedule.
Local Open Scope string_scope.

Definition ExecutorAgent : string := "agent".
Definition ExecutorWorkflow : string := "workflow".

Definition PauseReasonManual : string := "manual".
Definition PauseReasonCreatorDisabled : string := "creator_disabled".
Definition PauseReasonCreatorNotMember : string := "creator_not_member".
Definition PauseReasonConsecutiveFailures : string := "consecutive_failures".
Definition PauseReasonInvalidCron : string := "invalid_cron".

Record Delivery : Type := mkDelivery {
  Del_AssistantID : string;
  Del_RequesterID : string
}.

Record Schedule : Type := mkSchedule {
  Sc_ID : string;
  Sc_SpaceID : string;
  Sc_ExecutorKind : string;
  Sc_ExecutorID : string;
  Sc_CreatedBy : string;
  Sc_Name : string;
  Sc_Input : string;
  Sc_CronExpr : string;
  Sc_Timezone : string;
  Sc_Enabled : bool;
  Sc_PauseReason : string;
  Sc_NextFireAt : Z;
  Sc_LastFireAt : option Z;
  Sc_LastFireRef : option string;
  Sc_ConsecutiveFailures : Z;
  Sc_Delivery : option Delivery;
  Sc_CreatedAt : Z;
  Sc_UpdatedAt : Z
}.
#[export] Instance Schedule_updatable : Updatable Schedule := λ r,
  mkSchedule (Sc_ID r) (Sc_SpaceID r) (Sc_ExecutorKind r) (Sc_ExecutorID r) (Sc_CreatedBy r)
    (Sc_Name r) (Sc_Input r) (Sc_CronExpr r) (Sc_Timezone r) (Sc_Enabled r)
    (Sc_PauseReason r) (Sc_NextFireAt r) (Sc_LastFireAt r) (Sc_LastFireRef r)
    (Sc_ConsecutiveFailures r) (Sc_Delivery r) (Sc_CreatedAt r) (Sc_UpdatedAt r).

Definition DeliveryPending : string := "pending".
Definition DeliveryDelivered : string := "delivered".
Definition DeliverySkipped : string := "skipped".
Definition DeliveryFailed : string := "failed".

Definition SkipNoTarget : string := "no_target".
Definition SkipRunNotSucceeded : string := "run_not_succeeded".
Definition SkipAssistantGone : string := "assistant_unavailable".
Definition SkipNoBot : string := "no_bot".
Definition SkipNotInAudience : string := "requester_not_in_audience".
Definition SkipLinkInactive : string := "link_inactive".
Definition SkipNoConversation : string := "no_conversation".
Definition SkipNotOnRoster : string := "not_on_roster".
Definition SkipNothingReleasable : string := "nothing_releasable".

Record FireDelivery : Type := mkFireDelivery {
  FD_ID : string;
  FD_ScheduleID : string;
  FD_FireRef : string;
  FD_Status : string;
  FD_Reason : string;
  FD_CreatedAt : Z;
  FD_SettledAt : option Z
}.

Record SettleDeliveryInput : Type := mkSettleDeliveryInput {
  SDI_DeliveryID : string;
  SDI_From : string;
  SDI_Status : string;
  SDI_Reason : string;
  SDI_SettledAt : Z
}.

Record CreateInput : Type := mkCreateInput {
  SCI_SpaceID : string;
  SCI_ExecutorKind : string;
  SCI_ExecutorID : string;
  SCI_CreatedBy : string;
  SCI_Name : string;
  SCI_Input : string;
  SCI_CronExpr : string;
  SCI_Timezone : string;
  SCI_Enabled : bool;
  SCI_NextFireAt : Z;
  SCI_Delivery : option Delivery
}.

Record UpdateInput : Type := mkUpdateInput {
  SUI_ScheduleID : string;
  SUI_Name : option string;
  SUI_Input : option string;
  SUI_CronExpr : option string;
  SUI_Timezone : option string;
  SUI_Enabled : option bool;
  SUI_NextFireAt : option Z;
  SUI_PauseReason : option string;
  SUI_Delivery : option Delivery
}.
#[export] Instance UpdateInput_updatable : Updatable UpdateInput := λ r,
  mkUpdateInput (SUI_ScheduleID r) (SUI_Name r) (SUI_Input r) (SUI_CronExpr r) (SUI_Timezone r)
    (SUI_Enabled r) (SUI_NextFireAt r) (SUI_PauseReason r) (SUI_Delivery r).

Record ClaimInput : Type := mkClaimInput {
  Cl_ScheduleID : string;
  Cl_ExpectedNextFireAt : Z;
  Cl_NewNextFireAt : Z
}.

Record RecordFireInput : Type := mkRecordFireInput {
  RF_ScheduleID : string;
  RF_FiredAt : Z;
  RF_FireRef : option string;
  RF_Failed : bool
}.

End coreschedule.

(** ** Roles in a space: internal/core/space *)

Module space.
Local Open Scope string_scope.

Definition RoleOwner : string := "owner".
Definition RoleAdmin : string := "admin".
Definition RoleMember : string := "member".

Record Member : Type := mkMember {
  Mem_SpaceID : string;
  Mem_UserID : string;
  Mem_Role : string;
  Mem_CreatedAt : Z
}.

(** An action is its name; one that is not listed is an unknown string. *)
Inductive Action : Type :=
| ActionManageSpaceMembers | ActionInviteSpaceMember | ActionChangeMemberRole
| ActionManageAgents | ActionManageWorkflows | ActionAssignIssueWorkflow | ActionRunWorkflow
| ActionReadAuditTrail | ActionCommentIssue | ActionModerateIssueComments
| ActionManageSecrets | ActionReadSecrets | ActionManageSchedules
| ActionManageServiceAccounts | ActionManageAssistants
| ActionUnknown (name : string).

#[export] Instance Action_eq_dec : EqDecision Action.
Proof. solve_decision. Defined.

Definition Actions : list Action :=
  [ActionManageSpaceMembers; ActionInviteSpaceMember; ActionChangeMemberRole; ActionManageAgents;
   ActionManageWorkflows; ActionAssignIssueWorkflow; ActionRunWorkflow; ActionReadAuditTrail;
   ActionCommentIssue; ActionModerateIssueComments; ActionManageSecrets; ActionReadSecrets;
   ActionManageSchedules; ActionManageServiceAccounts; ActionManageAssistants].

Definition EffectiveRole (role : string) : string :=
  if role == "" then RoleMember else role.

(** "" says that the user is no member. *)
Fixpoint EffectiveRoleOf (members : list Member) (userID : string) : string :=
  match members with
  | [] => ""
  | m :: members =>
      if Mem_UserID m == userID then EffectiveRole (Mem_Role m) else EffectiveRoleOf members userID
  end.

Definition Allows (role : string) (action : Action) : bool :=
  match action with
  | ActionManageSpaceMembers | ActionChangeMemberRole | ActionReadAuditTrail
  | ActionModerateIssueComments | ActionManageSecrets => role == RoleOwner
  | ActionManageAgents | ActionManageWorkflows | ActionAssignIssueWorkflow | ActionInviteSpaceMember
  | ActionReadSecrets | ActionManageServiceAccounts | ActionManageAssistants =>
      (role == RoleOwner) || (role == RoleAdmin)
  | ActionRunWorkflow | ActionCommentIssue | ActionManageSchedules =>
      (role == RoleOwner) || (role == RoleAdmin) || (role == RoleMember)
  | ActionUnknown _ => false
  end.

End space.

(** ** Eligibility: internal/core/eligibility *)

Module eligibility.
Import space.

Inductive error : Type := ErrAccountDisabled | ErrNotSpaceMember | ErrUnavailable.

#[export] Instance error_eq_dec : EqDecision error.
Proof. solve_decision. Defined.

(** An account, as far as the question reads it. *)
Record User : Type := mkUser { User_ID : string; User_DisabledAt : option Z }.

Definition Disabled (u : User) : bool := match User_DisabledAt u with Some _ => true | None => false end.

(** The account and the membership stores, reading a state [S]. *)
Section Check.
Context {S E : Type}.
Context (GetUser : S → string → res E (option User)).
Context (ListSpaceMembers : S → string → res E (list Member)).

Definition Check (s : S) (userID spaceID : string) : res error unit :=
  match GetUser s userID with
  | Err _ => Err ErrUnavailable
  | Ok None => Err ErrAccountDisabled
  | Ok (Some user) =>
      if Disabled user then Err ErrAccountDisabled
      else match ListSpaceMembers s spaceID with
           | Err _ => Err ErrUnavailable
           | Ok members => if EffectiveRoleOf members userID == ""%string then Err ErrNotSpaceMember else Ok tt
           end
  end.
End Check.

End eligibility.

(** * Schedules and their deliveries in the database

    internal/infra/db/schedule.go over the tables of [Store]: the reads with
    their joins, the conditional update that claims a due time, the record of a
    firing, and the settling of a delivery.  A malformed public id reads as one
    that names no row. *)

From S2P Require Import Json TaskCore WorkflowCore Store WorkflowStore.
From stdpp Require Import gmap.
Import db.

Module scheduledb.
Import coreschedule.
Local Open Scope string_scope.
Local Open Scope list_scope.

(** ** Pages: page.go *)

Definition defaultPageSize : Z := 50.
Definition maxPageSize : Z := 200.

Definition clampPage (limit offset : Z) : Z * Z :=
  let limit := if (limit <=? 0)%Z then defaultPageSize else limit in
  (if (maxPageSize <? limit)%Z then maxPageSize else limit, if (offset <? 0)%Z then 0%Z else offset).

(** ** Reading schedules *)

(** The inner joins: a schedule whose space or creator is gone is not read. *)
Definition scheduleSelect (s : Store) : list scheduleRow :=
  rows_where (λ r, resolves s "space" (Sch_SpaceID r) && resolves s "user" (Sch_CreatedBy r)) (st_schedules s).

(** A reference of a left join: empty when the row it names is gone. *)
Definition joined (s : Store) (table : string) (key : option string) : string :=
  match key with
  | Some id => if resolves s table id then id else ""
  | None => ""
  end.

Definition toSchedule (s : Store) (r : scheduleRow) : Schedule := {|
  Sc_ID := Sch_ID r;
  Sc_SpaceID := Sch_SpaceID r;
  Sc_ExecutorKind := Sch_ExecutorKind r;
  Sc_ExecutorID := Sch_ExecutorID r;
  Sc_CreatedBy := Sch_CreatedBy r;
  Sc_Name := Sch_Name r;
  Sc_Input := Sch_Input r;
  Sc_CronExpr := Sch_CronExpr r;
  Sc_Timezone := Sch_Timezone r;
  Sc_Enabled := Sch_Enabled r;
  Sc_PauseReason := Sch_PauseReason r;
  Sc_NextFireAt := Sch_NextFireAt r;
  Sc_LastFireAt := Sch_LastFireAt r;
  Sc_LastFireRef := Sch_LastFireRef r;
  Sc_ConsecutiveFailures := Sch_ConsecutiveFailures r;
  Sc_Delivery := match Sch_DeliveryAssistantID r with
                 | None => None
                 | Some _ => Some (mkDelivery (joined s "assistant" (Sch_DeliveryAssistantID r))
                                     (joined s "user" (Sch_DeliveryRequesterID r)))
                 end;
  Sc_CreatedAt := Sch_CreatedAt r;
  Sc_UpdatedAt := Sch_UpdatedAt r |}.

Definition toSchedules (s : Store) (rows : list scheduleRow) : list Schedule := map (toSchedule s) rows.

Definition GetSchedule (scheduleID : string) : DB (option Schedule) :=
  gets (λ s, toSchedule s <$> take_where (λ r, Sch_ID r == scheduleID) (scheduleSelect s)).

(** [ORDER BY next_fire_at ASC]; equal times keep id order. *)
Definition by_due : list scheduleRow → list scheduleRow :=
  @merge_sort scheduleRow (λ a b, (Sch_NextFireAt a <= Sch_NextFireAt b)%Z)
    (λ a b, Z_le_dec (Sch_NextFireAt a) (Sch_NextFireAt b)).

Definition ListSchedulesBySpace (spaceID : string) (limit offset : Z) : DB (list Schedule * Z) :=
  gets (λ s,
    let '(limit, offset) := workflowdb.capPage limit offset in
    if resolves s "space" spaceID then
      let mine := λ r, Sch_SpaceID r == spaceID in
      (toSchedules s (workflowdb.page limit offset (workflowdb.by_desc Sch_CreatedAt (rows_where mine (scheduleSelect s)))),
       Z.of_nat (matching mine (st_schedules s)))
    else ([], 0%Z)).

Definition due (now_ : Z) (r : scheduleRow) : bool := Sch_Enabled r && (Sch_NextFireAt r <=? now_)%Z.

Definition DueSchedules (now_ limit : Z) : DB (list Schedule) :=
  gets (λ s,
    let limit := if (limit <=? 0)%Z then 100%Z else limit in
    toSchedules s (workflowdb.page limit 0 (by_due (rows_where (due now_) (scheduleSelect s))))).

Definition ListEnabledSchedulesByCreator (createdBy : string) : DB (list Schedule) :=
  gets (λ s, toSchedules s (rows_where (λ r, (Sch_CreatedBy r == createdBy) && Sch_Enabled r) (scheduleSelect s))).

(** ** Writing schedules *)

(** [between] is what other writers commit between two statements that share no
    transaction. *)
Section Writes.
Context (gen : nat → string) (between : DB unit).

Definition deliveryKeys (d : Delivery) : DB (option string * option string) :=
  if Del_AssistantID d == "" then mret (None, None)
  else
    _ ← lookupKey "assistant" (Del_AssistantID d);
    _ ← lookupKey "user" (Del_RequesterID d);
    mret (Some (Del_AssistantID d), Some (Del_RequesterID d)).

Definition scheduleIDs (s : Store) : list string := map Sch_ID (st_schedules s).

Definition CreateSchedule (in_ : option CreateInput) : DB (option Schedule) :=
  match in_ with
  | None => fail (ErrService "coreschedule.CreateInput is required")
  | Some in_ =>
      id ← transaction
        (keys ← (match SCI_Delivery in_ with Some d => deliveryKeys d | None => mret (None, None) end);
         _ ← lookupKey "space" (SCI_SpaceID in_);
         _ ← lookupKey "user" (SCI_CreatedBy in_);
         id ← createWithPublicID gen scheduleIDs;
         at_ ← now;
         s ← get;
         _ ← put (s <| st_schedules := st_schedules s ++
               [{| Sch_ID := id; Sch_SpaceID := SCI_SpaceID in_; Sch_ExecutorKind := SCI_ExecutorKind in_;
                   Sch_ExecutorID := SCI_ExecutorID in_; Sch_CreatedBy := SCI_CreatedBy in_;
                   Sch_Name := SCI_Name in_; Sch_Input := SCI_Input in_; Sch_CronExpr := SCI_CronExpr in_;
                   Sch_Timezone := SCI_Timezone in_; Sch_Enabled := SCI_Enabled in_; Sch_PauseReason := "";
                   Sch_NextFireAt := SCI_NextFireAt in_; Sch_LastFireAt := None; Sch_LastFireRef := None;
                   Sch_ConsecutiveFailures := 0%Z; Sch_DeliveryAssistantID := keys.1;
                   Sch_DeliveryRequesterID := keys.2; Sch_CreatedAt := at_; Sch_UpdatedAt := at_ |}] |>);
         mret id);
      _ ← between;
      GetSchedule id
  end.

(** The columns an edit writes, on a row. *)
Definition edited (in_ : UpdateInput) (keys : option (option string * option string)) (r : scheduleRow) : scheduleRow :=
  let r := r <| Sch_Name := default (Sch_Name r) (SUI_Name in_) |>
             <| Sch_Input := default (Sch_Input r) (SUI_Input in_) |>
             <| Sch_CronExpr := default (Sch_CronExpr r) (SUI_CronExpr in_) |>
             <| Sch_Timezone := default (Sch_Timezone r) (SUI_Timezone in_) |> in
  let r := match SUI_Enabled in_ with
           | Some true => r <| Sch_Enabled := true |> <| Sch_PauseReason := "" |> <| Sch_ConsecutiveFailures := 0%Z |>
           | Some false => r <| Sch_Enabled := false |>
                             <| Sch_PauseReason := default (Sch_PauseReason r) (SUI_PauseReason in_) |>
           | None => r
           end in
  let r := r <| Sch_NextFireAt := default (Sch_NextFireAt r) (SUI_NextFireAt in_) |> in
  match keys with
  | Some (assistant, requester) =>
      r <| Sch_DeliveryAssistantID := assistant |> <| Sch_DeliveryRequesterID := requester |>
  | None => r
  end.

Definition given {A} (o : option A) : bool := match o with Some _ => true | None => false end.

(** [len(updates) > 0] *)
Definition writesSome (in_ : UpdateInput) : bool :=
  given (SUI_Name in_) || given (SUI_Input in_) || given (SUI_CronExpr in_) || given (SUI_Timezone in_)
  || given (SUI_Enabled in_) || given (SUI_NextFireAt in_) || given (SUI_Delivery in_).

Definition UpdateSchedule (in_ : UpdateInput) : DB Schedule :=
  keys ← (match SUI_Delivery in_ with
          | Some d => keys ← deliveryKeys d; mret (Some keys)
          | None => mret None
          end);
  _ ← between;
  _ ← (if writesSome in_
       then _ ← update_schedules (λ r, Sch_ID r == SUI_ScheduleID in_) (edited in_ keys); mret tt
       else mret tt);
  _ ← between;
  found ← GetSchedule (SUI_ScheduleID in_);
  or_fail ErrNotFound found.

Definition DeleteSchedule (scheduleID : string) : DB unit :=
  transaction
    (s ← get;
     match take_where (λ r, Sch_ID r == scheduleID) (st_schedules s) with
     | None => fail ErrNotFound
     | Some row =>
         put (s <| st_deliveries := rows_where (λ d, SD_ScheduleID d != Sch_ID row) (st_deliveries s) |>
                <| st_schedules := rows_where (λ r, Sch_ID r != Sch_ID row) (st_schedules s) |>)
     end).

Definition ClaimSchedule (in_ : ClaimInput) : DB bool :=
  n ← update_schedules
        (λ r, (Sch_ID r == Cl_ScheduleID in_) && Sch_Enabled r && (Sch_NextFireAt r =? Cl_ExpectedNextFireAt in_)%Z)
        (λ r, r <| Sch_NextFireAt := Cl_NewNextFireAt in_ |>);
  mret (n =? 1)%nat.

Definition deliveryIDs (s : Store) : list string := map SD_ID (st_deliveries s).

Definition fired (in_ : RecordFireInput) (r : scheduleRow) : scheduleRow :=
  let r := r <| Sch_LastFireAt := Some (RF_FiredAt in_) |> in
  let r := if RF_Failed in_ then r <| Sch_ConsecutiveFailures := (Sch_ConsecutiveFailures r + 1)%Z |> else r in
  match RF_FireRef in_ with Some ref => r <| Sch_LastFireRef := Some ref |> | None => r end.

Definition RecordFire (in_ : RecordFireInput) : DB unit :=
  transaction
    (n ← update_schedules (λ r, Sch_ID r == RF_ScheduleID in_) (fired in_);
     if (n =? 0)%nat then fail ErrNotFound
     else match RF_Failed in_, RF_FireRef in_ with
     | false, Some ref =>
         row ← take st_schedules (λ r, Sch_ID r == RF_ScheduleID in_);
         match Sch_DeliveryAssistantID row with
         | None => mret tt
         | Some _ =>
             id ← createWithPublicID gen deliveryIDs;
             at_ ← now;
             s ← get;
             put (s <| st_deliveries := st_deliveries s ++
                    [{| SD_ID := id; SD_ScheduleID := Sch_ID row; SD_FireRef := ref; SD_Status := DeliveryPending;
                        SD_Reason := ""; SD_CreatedAt := at_; SD_SettledAt := None |}] |>)
         end
     | _, _ => mret tt
     end).
End Writes.

(** ** Deliveries *)

(** The inner join: a delivery whose schedule is gone is not read. *)
Definition scheduleDeliverySelect (s : Store) : list scheduleDeliveryRow :=
  rows_where (λ d, bool_decide (SD_ScheduleID d ∈ scheduleIDs s)) (st_deliveries s).

Definition toFireDelivery (d : scheduleDeliveryRow) : FireDelivery :=
  mkFireDelivery (SD_ID d) (SD_ScheduleID d) (SD_FireRef d) (SD_Status d) (SD_Reason d) (SD_CreatedAt d)
    (SD_SettledAt d).

Definition ListPendingDeliveries (limit : Z) : DB (list FireDelivery) :=
  gets (λ s, map toFireDelivery (workflowdb.page (workflowdb.capPage limit 0).1 0
               (rows_where (λ d, SD_Status d == DeliveryPending) (scheduleDeliverySelect s)))).

(** The status a settlement starts from. *)
Definition settlesFrom (in_ : SettleDeliveryInput) : string :=
  if SDI_From in_ == "" then DeliveryPending else SDI_From in_.

Definition SettleDelivery (in_ : SettleDeliveryInput) : DB bool :=
  s ← get;
  let p := λ d, (SD_ID d == SDI_DeliveryID in_) && (SD_Status d == settlesFrom in_) in
  _ ← put (s <| st_deliveries := update_where p
        (λ d, d <| SD_Status := SDI_Status in_ |> <| SD_Reason := SDI_Reason in_ |>
                <| SD_SettledAt := Some (SDI_SettledAt in_) |>) (st_deliveries s) |>);
  mret (matching p (st_deliveries s) =? 1)%nat.

Definition ListDeliveriesBySchedule (scheduleID : string) (limit offset : Z) : DB (list FireDelivery * Z) :=
  gets (λ s,
    let '(limit, offset) := clampPage limit offset in
    let rows := rows_where (λ d, SD_ScheduleID d == scheduleID) (scheduleDeliverySelect s) in
    (map toFireDelivery (workflowdb.page limit offset (rev rows)), Z.of_nat (length rows))).

End scheduledb.
