(* ===== verification/LedgerStore.v ===== *)
(** * LedgerStore: the call ledger and the model catalog in the database

    internal/infra/db/llm_call.go and llm_model.go over the tables of [Store].
    A malformed public id reads as one that names no row.  The unique index on
    (user, client call id) is checked where the row is inserted; NULLs never
    collide.  The laws of the ledger's rows follow the definitions. *)

From Stdlib Require Import Ascii String.
From S2P Require Import Prelude Text Json TaskCore WorkflowCore LedgerCore Store TaskStore WorkflowStore ScheduleStore.
From stdpp Require Import gmap.
Import Prelude.
Import db.
Local Open Scope Z_scope.
Local Open Scope buildmax_scope.

Module ledgerdb.
Import coregw.
Local Open Scope string_scope.
Local Open Scope list_scope.
Local Open Scope Z_scope.

(** ** Rows *)

(** The left joins of [llmCallSelect]: a reference whose row is gone reads as
    the empty handle. *)
Definition toLLMCall (s : Store) (row : Call) : Call :=
  let joined table key := match key with Some _ => Some (scheduledb.joined s table key) | None => None end in
  row <| Cl_UserID := joined "user" (Cl_UserID row) |>
      <| Cl_TaskID := joined "task" (Cl_TaskID row) |>
      <| Cl_TaskRunID := joined "task_run" (Cl_TaskRunID row) |>
      <| Cl_ConversationID := joined "conversation" (Cl_ConversationID row) |>.

(** [toLLMCallRow]: the references resolve or the write is refused. *)
Definition toLLMCallRow (call : Call) : DB Call :=
  user ← optionalKey "user" (Cl_UserID call);
  task ← optionalKey "task" (Cl_TaskID call);
  run ← optionalKey "task_run" (Cl_TaskRunID call);
  conversation ← optionalKey "conversation" (Cl_ConversationID call);
  mret (call <| Cl_UserID := user |> <| Cl_TaskID := task |> <| Cl_TaskRunID := run |>
             <| Cl_ConversationID := conversation |>).

Definition ErrDuplicateCall : error := ErrService "llm call already exists for this client call id".

(** Two rows the index [idx_llm_call_client] refuses together. *)
Definition same_client (a b : Call) : bool :=
  match Cl_UserID a, Cl_ClientCallID a with
  | Some _, Some _ => (Cl_UserID a == Cl_UserID b) && (Cl_ClientCallID a == Cl_ClientCallID b)
  | _, _ => false
  end.

Section Writes.
Context (gen : nat → string).

(** The defaults of a row an opener left unset. *)
Definition opened (at_ : Z) (call : Call) : Call :=
  let call := if Cl_AcceptedAt call =? 0 then call <| Cl_AcceptedAt := at_ |> else call in
  let call := if Cl_Status call == "" then call <| Cl_Status := CallStatusAccepted |> else call in
  if Cl_UsageSource call == "" then call <| Cl_UsageSource := UsageSourceUnavailable |> else call.

Definition OpenLLMCall (call : option Call) : DB Call :=
  match call with
  | None => fail (ErrService "llm call is required")
  | Some call =>
      at_ ← now;
      row ← toLLMCallRow (opened at_ call);
      id ← createWithPublicID gen (λ s, map Cl_ID (st_calls s));
      s ← get;
      if existsb (same_client row) (st_calls s) then fail ErrDuplicateCall
      else
        let row := row <| Cl_ID := id |> in
        _ ← put (s <| st_calls := st_calls s ++ [row] |>);
        mret row
  end.
End Writes.

Definition update_calls (p : Call → bool) (f : Call → Call) : DB nat :=
  s ← get;
  _ ← put (s <| st_calls := update_where p f (st_calls s) |>);
  mret (matching p (st_calls s)).

(** The columns of the update [CompleteLLMCall] builds. *)
Definition completed (outcome : CallOutcome) (r : Call) : Call :=
  let r := r <| Cl_Status := Out_Status outcome |> <| Cl_ErrorClass := Out_ErrorClass outcome |>
             <| Cl_Attempts := Out_Attempts outcome |> <| Cl_CompletedAt := Some (Out_CompletedAt outcome) |> in
  let r := match Out_UpstreamStartedAt outcome with
           | Some t => r <| Cl_UpstreamStartedAt := Some t |>
           | None => r
           end in
  let r := match Out_FirstDeltaAt outcome with Some t => r <| Cl_FirstDeltaAt := Some t |> | None => r end in
  match Out_Usage outcome with
  | None => r
  | Some usage =>
      r <| Cl_PromptTokens := Some (CU_PromptTokens usage) |>
        <| Cl_CompletionTokens := Some (CU_CompletionTokens usage) |>
        <| Cl_TotalTokens := Some (CU_TotalTokens usage) |>
        <| Cl_CacheReadTokens := Some (CU_CacheReadTokens usage) |>
        <| Cl_CacheWriteTokens := Some (CU_CacheWriteTokens usage) |>
        <| Cl_UsageSource := if CU_Source usage == "" then UsageSourceReported else CU_Source usage |>
  end.

(** The WHERE names the row alone, whatever its status. *)
Definition CompleteLLMCall (llmCallID : string) (outcome : CallOutcome) : DB unit :=
  _ ← update_calls (λ r, Cl_ID r == llmCallID) (completed outcome);
  mret tt.

Definition orphaned (taskRunID : string) (r : Call) : bool :=
  (Cl_TaskRunID r == Some taskRunID) && (Cl_Status r == CallStatusAccepted).

Definition run_lost (completedAt : Z) (r : Call) : Call :=
  r <| Cl_Status := CallStatusFailed |> <| Cl_ErrorClass := Some ErrorClassRunLost |>
    <| Cl_CompletedAt := Some completedAt |>.

Definition SettleOrphanedLLMCallsForRun (taskRunID : string) (completedAt : Z) : DB nat :=
  s ← get;
  if resolves s "task_run" taskRunID then update_calls (orphaned taskRunID) (run_lost completedAt)
  else mret O.

(** ** Reads *)

Definition GetLLMCall (llmCallID : string) : DB (option Call) :=
  gets (λ s, toLLMCall s <$> take_where (λ r, Cl_ID r == llmCallID) (st_calls s)).

Definition GetLLMCallByClientID (userID clientCallID : string) : DB (option Call) :=
  gets (λ s,
    if (userID == "") || (clientCallID == "") then None
    else if resolves s "user" userID then
      toLLMCall s <$> take_where (λ r, (Cl_UserID r == Some userID) && (Cl_ClientCallID r == Some clientCallID))
                        (st_calls s)
    else None).

Definition ListLLMCallsByTaskRun (taskRunID : string) : DB (list Call) :=
  gets (λ s,
    if resolves s "task_run" taskRunID then
      map (toLLMCall s) (taskdb.by_created Cl_AcceptedAt
        (rows_where (λ r, Cl_TaskRunID r == Some taskRunID) (st_calls s)))
    else []).

(** [applyLLMCallFilter]; the user is matched on the joined handle. *)
Definition applyLLMCallFilter (s : Store) (filter : CallFilter) (r : Call) : bool :=
  ((Flt_UserID filter == "")
   || ((Cl_UserID r == Some (Flt_UserID filter)) && resolves s "user" (Flt_UserID filter)))
  && ((Flt_Model filter == "") || (Cl_Model r == Flt_Model filter))
  && ((Flt_Status filter == "") || (Cl_Status r == Flt_Status filter))
  && ((Flt_Surface filter == "") || (Cl_Surface r == Flt_Surface filter))
  && ((Flt_Since filter =? 0) || (Flt_Since filter <=? Cl_AcceptedAt r))
  && ((Flt_Until filter =? 0) || (Cl_AcceptedAt r <=? Flt_Until filter)).

Definition SearchLLMCalls (filter : CallFilter) (limit offset : Z) : DB (list Call * Z) :=
  gets (λ s,
    let '(limit, offset) := scheduledb.clampPage limit offset in
    let matches := applyLLMCallFilter s filter in
    (map (toLLMCall s) (workflowdb.page limit offset
       (workflowdb.by_desc Cl_AcceptedAt (rows_where matches (st_calls s)))),
     Z.of_nat (matching matches (st_calls s)))).

(** ** Totals *)

Definition rateKey : Type := string * option Z * option Z * option Z * option Z.

(** The columns of the GROUP BY. *)
Definition rate_key (r : Call) : rateKey :=
  (Cl_Currency r, Cl_RateInputPerMTok r, Cl_RateCacheReadPerMTok r, Cl_RateCacheWritePerMTok r,
   Cl_RateOutputPerMTok r).

(** [COALESCE(SUM(column), 0)] *)
Definition sum (column : Call → option Z) (rows : list Call) : Z :=
  foldr (λ r n, default 0 (column r) + n) 0 rows.

Definition derefRate (v : option Z) : Z := default 0 v.

Definition totals (rows : list Call) (key : rateKey) : CallTotals :=
  let group := rows_where (λ r, rate_key r == key) rows in
  let '(currency, input, cacheRead, cacheWrite, output) := key in
  mkCallTotals (Z.of_nat (List.length group)) (sum Cl_PromptTokens group) (sum Cl_CompletionTokens group)
    (sum Cl_TotalTokens group) (sum Cl_CacheReadTokens group) (sum Cl_CacheWriteTokens group)
    currency (derefRate input) (derefRate cacheRead) (derefRate cacheWrite) (derefRate output).

(** The calls of one user outside any run or conversation. *)
Definition foreground (s : Store) (userID : string) (since : Z) (r : Call) : bool :=
  (Cl_UserID r == Some userID) && resolves s "user" userID
  && (Cl_TaskRunID r == None) && (Cl_ConversationID r == None) && (since <=? Cl_AcceptedAt r).

(** One row per rate snapshot.  SQL leaves their order open; here a group comes
    where its last row is. *)
Definition SummarizeForegroundLLMCalls (userID : string) (since : Z) : DB (list CallTotals) :=
  gets (λ s,
    let rows := rows_where (foreground s userID since) (st_calls s) in
    map (totals rows) (remove_dups (map rate_key rows))).

End ledgerdb.

(** ** The model catalog: llm_model.go *)

Module modeldb.
Import coregw.
Local Open Scope string_scope.
Local Open Scope list_scope.
Local Open Scope Z_scope.

Definition words (l : list string) : list string := List.filter (λ w, w != "") (map TrimSpace l).

Definition splitCapabilities (s : string) : list string :=
  if TrimSpace s == "" then []
  else words (Split ","%char s).

Definition joinCapabilities (l : list string) : string := String.concat "," (words l).

Definition toLLMModel (row : llmModelRow) : Model :=
  LM_Model row <| Mod_Capabilities := splitCapabilities (LM_Capabilities row) |>.

(** The cipher of internal/infra/secret, if a key is configured: [SealValue]
    may fail, and draws randomness the model leaves to the caller's [n]. *)
Class Cipher : Type := {
  SealValue : nat → string → res string string;
  OpenValue : string → res string string
}.

Definition ErrModelNameTaken : error := ErrService "a model with this name already exists".
Definition ErrCredentialEncryptionUnavailable : error :=
  ErrService "no deployment encryption key is configured; a model credential cannot be stored".

Section Models.
Context (gen : nat → string) (credentialCipher : option Cipher).

(** An empty credential seals to nothing; none is stored in the clear. *)
Definition sealCredential (plaintext : string) : DB (option string) :=
  if plaintext == "" then mret None
  else
    match credentialCipher with
    | None => fail ErrCredentialEncryptionUnavailable
    | Some cipher =>
        s ← get;
        _ ← put (s <| st_fresh := S (st_fresh s) |>);
        match @SealValue cipher (st_fresh s) plaintext with
        | Ok blob => mret (Some blob)
        | Err e => fail (ErrService e)
        end
    end.

Definition CreateLLMModel (in_ : CreateModelInput) : DB Model :=
  sealed ← sealCredential (CM_APIKey in_);
  at_ ← now;
  id ← createWithPublicID gen (λ s, map (λ r, Mod_ID (LM_Model r)) (st_models s));
  s ← get;
  if existsb (λ r, Mod_Name (LM_Model r) == CM_Name in_) (st_models s) then fail ErrModelNameTaken
  else
    let row := mkLLMModelRow
      {| Mod_ID := id; Mod_Name := CM_Name in_; Mod_ProviderType := CM_ProviderType in_;
         Mod_APIURL := CM_APIURL in_; Mod_Model := CM_Model in_; Mod_ContextWindow := CM_ContextWindow in_;
         Mod_CallTimeout := CM_CallTimeout in_; Mod_MaxTokens := CM_MaxTokens in_;
         Mod_Reasoning := CM_Reasoning in_; Mod_CacheMode := CM_CacheMode in_; Mod_CacheTTL := CM_CacheTTL in_;
         Mod_Currency := CM_Currency in_; Mod_InputPerMTok := CM_InputPerMTok in_;
         Mod_CacheReadPerMTok := CM_CacheReadPerMTok in_; Mod_CacheWritePerMTok := CM_CacheWritePerMTok in_;
         Mod_OutputPerMTok := CM_OutputPerMTok in_; Mod_Vision := CM_Vision in_; Mod_Capabilities := [];
         Mod_Enabled := true; Mod_CreatedAt := at_; Mod_UpdatedAt := at_ |}
      (joinCapabilities (CM_Capabilities in_)) sealed in
    _ ← put (s <| st_models := st_models s ++ [row] |>);
    mret (toLLMModel row).

Definition find_model (p : Model → bool) : DB (option Model) :=
  gets (λ s, toLLMModel <$> take_where (λ r, p (LM_Model r)) (st_models s)).

Definition GetLLMModel (llmModelID : string) : DB (option Model) :=
  if llmModelID == "" then mret None else find_model (λ m, Mod_ID m == llmModelID).

Definition GetLLMModelByName (name : string) : DB (option Model) :=
  if name == "" then mret None else find_model (λ m, Mod_Name m == name).

Definition ListLLMModels : DB (list Model) :=
  gets (λ s, map toLLMModel (taskdb.by_created (λ r, Mod_CreatedAt (LM_Model r)) (st_models s))).

Definition update_models (llmModelID : string) (f : llmModelRow → llmModelRow) : DB unit :=
  s ← get;
  let p := λ r, Mod_ID (LM_Model r) == llmModelID in
  _ ← put (s <| st_models := update_where p f (st_models s) |>);
  if (matching p (st_models s) =? 0)%nat then fail (ErrService "model not found") else mret tt.

Definition SetLLMModelEnabled (llmModelID : string) (enabled : bool) : DB unit :=
  at_ ← now;
  update_models llmModelID (λ r, r <| LM_Model := LM_Model r <| Mod_Enabled := enabled |>
                                                            <| Mod_UpdatedAt := at_ |> |>).

Definition SetLLMModelCredential (llmModelID apiKey : string) : DB unit :=
  sealed ← sealCredential apiKey;
  at_ ← now;
  update_models llmModelID (λ r, r <| LM_Model := LM_Model r <| Mod_UpdatedAt := at_ |> |>
                                   <| LM_APIKeySealed := sealed |>).

Definition LLMModelCredential (llmModelID : string) : DB string :=
  if llmModelID == "" then fail (ErrService "model id is required")
  else
    row ← gets (λ s, take_where (λ r, Mod_ID (LM_Model r) == llmModelID) (st_models s));
    match row with
    | None => fail (ErrService "model not found")
    | Some row =>
        match LM_APIKeySealed row with
        | None => mret ""
        | Some blob =>
            match credentialCipher with
            | None => fail ErrCredentialEncryptionUnavailable
            | Some cipher =>
                match @OpenValue cipher blob with Ok key => mret key | Err e => fail (ErrService e) end
            end
        end
    end.

End Models.
End modeldb.

(** * What the ledger's operations do to its rows

    A row is [frozen] outside its outcome: the caller, the model and the rates
    it was priced at are written once.  [ledger_ok] is what the two unique
    indexes keep. *)

From S2P Require Import EffLogic.
Import Prelude.
Import db coregw ledgerdb.
Local Open Scope Z_scope.
Local Open Scope buildmax_scope.

(** ** Rows *)

(** The columns no update of the ledger names. *)
Definition frozen (r : Call) : Call :=
  r <| Cl_Status := ""%string |> <| Cl_ErrorClass := None |> <| Cl_Attempts := 0 |> <| Cl_CompletedAt := None |>
    <| Cl_UpstreamStartedAt := None |> <| Cl_FirstDeltaAt := None |> <| Cl_PromptTokens := None |>
    <| Cl_CompletionTokens := None |> <| Cl_TotalTokens := None |> <| Cl_CacheReadTokens := None |>
    <| Cl_CacheWriteTokens := None |> <| Cl_UsageSource := ""%string |>.

Definition call_ids (s : Store) : list string := map Cl_ID (st_calls s).

Lemma frozen_completed o r : frozen (completed o r) = frozen r.
Proof. unfold completed. destruct (Out_UpstreamStartedAt o), (Out_FirstDeltaAt o), (Out_Usage o); reflexivity. Qed.

Lemma frozen_lost t r : frozen (run_lost t r) = frozen r.
Proof. reflexivity. Qed.

Lemma frozen_id r r' : frozen r = frozen r' → Cl_ID r = Cl_ID r'.
Proof. intros E. change (Cl_ID (frozen r) = Cl_ID (frozen r')). by rewrite E. Qed.

Lemma frozen_client a b : same_client (frozen a) (frozen b) = same_client a b.
Proof. reflexivity. Qed.

Lemma same_client_spec a b : same_client a b = true ↔
  is_Some (Cl_UserID a) ∧ is_Some (Cl_ClientCallID a) ∧
  Cl_UserID b = Cl_UserID a ∧ Cl_ClientCallID b = Cl_ClientCallID a.
Proof.
  unfold same_client. destruct (Cl_UserID a) as [u|], (Cl_ClientCallID a) as [k|].
  2-4: split; [done|]; intros ([? ?] & [? ?] & ?); discriminate.
  rewrite andb_true_iff, !bool_decide_eq_true. split.
  - intros [<- <-]. by split_and!.
  - by intros (_ & _ & -> & ->).
Qed.

Lemma same_client_sym a b : same_client a b = true → same_client b a = true.
Proof. rewrite !same_client_spec. intros (? & ? & E1 & E2). by rewrite E1, E2. Qed.

(** ** The ledger as a whole *)

Definition unique_clients (rows : list Call) : Prop :=
  ∀ i j a b, rows !! i = Some a → rows !! j = Some b → same_client a b = true → i = j.

Definition ledger_ok (s : Store) : Prop := NoDup (call_ids s) ∧ unique_clients (st_calls s).

(** Rows are only added, and no written column of one changes. *)
Definition grows : relation Store := λ s s', map frozen (st_calls s) `prefix_of` map frozen (st_calls s').

#[export] Instance grows_preorder : PreOrder grows.
Proof. unfold grows. split; [by intros s|]. intros a b c H1 H2. by etransitivity. Qed.

Definition same_calls : relation Store := λ s s', st_calls s' = st_calls s.

#[export] Instance same_calls_preorder : PreOrder same_calls.
Proof. split; [by intros s|]. intros a b c H1 H2. unfold same_calls in *. congruence. Qed.

Lemma ids_frozen rows : map Cl_ID (map frozen rows) = map Cl_ID rows.
Proof. rewrite map_map. by apply map_ext. Qed.

Lemma grows_ids s s' id : grows s s' → id ∈ call_ids s → id ∈ call_ids s'.
Proof.
  unfold grows, call_ids. intros [l E] H. rewrite <- ids_frozen in H |- *. rewrite E, map_app.
  apply elem_of_app. by left.
Qed.

(** A row found before is found after, with its written columns. *)
Lemma grows_row s s' r : grows s s' → r ∈ st_calls s → ∃ r', r' ∈ st_calls s' ∧ frozen r' = frozen r.
Proof.
  intros [l E] H. assert (frozen r ∈ map frozen (st_calls s')) as Hin.
  { rewrite E. apply elem_of_app. left. by apply list_elem_of_fmap_2. }
  apply list_elem_of_fmap in Hin as (r' & -> & ?). eauto.
Qed.

Lemma ledger_ok_frozen s s' : map frozen (st_calls s') = map frozen (st_calls s) → ledger_ok s → ledger_ok s'.
Proof.
  intros E [Hn Hu]. split.
  - unfold call_ids in *. by rewrite <- ids_frozen, E, ids_frozen.
  - intros i j a b Ha Hb Hc.
    assert (∀ k c, st_calls s' !! k = Some c → ∃ c', st_calls s !! k = Some c' ∧ frozen c' = frozen c) as Hk.
    { intros k c Hk. assert (map frozen (st_calls s) !! k = Some (frozen c)) as Hf.
      { rewrite <- E, list_lookup_fmap. by rewrite Hk. }
      rewrite list_lookup_fmap in Hf. destruct (st_calls s !! k) as [c'|]; [|done]. exists c'. split; [done|]. cbn in Hf. congruence. }
    destruct (Hk _ _ Ha) as (a' & Ha' & Ea), (Hk _ _ Hb) as (b' & Hb' & Eb).
    eapply Hu; [done..|]. by rewrite <- frozen_client, Ea, Eb, frozen_client.
Qed.

Lemma ledger_ok_row s r r' : ledger_ok s → r ∈ st_calls s → r' ∈ st_calls s → Cl_ID r = Cl_ID r' → r = r'.
Proof.
  intros [Hn _] Hr Hr' E. apply list_elem_of_lookup in Hr as [i Hi], Hr' as [j Hj].
  assert (i = j) as ->; [|congruence].
  eapply (NoDup_lookup _ i j (Cl_ID r) Hn); unfold call_ids; rewrite list_lookup_fmap; [by rewrite Hi|by rewrite Hj, E].
Qed.

(** ** Updates keep the written columns *)

Lemma update_frozen p f rows : (∀ r, frozen (f r) = frozen r) →
  map frozen (update_where p f rows) = map frozen rows.
Proof. intros Hf. by rewrite update_where_map. Qed.

Lemma update_calls_eq p f s :
  update_calls p f s = (Ok (matching p (st_calls s)), s <| st_calls := update_where p f (st_calls s) |>).
Proof. done. Qed.

Lemma CompleteLLMCall_calls id o s :
  CompleteLLMCall id o s = (Ok tt, s <| st_calls := update_where (λ r, Cl_ID r == id) (completed o) (st_calls s) |>).
Proof. done. Qed.

Lemma SettleOrphaned_frozen id t s :
  map frozen (st_calls (SettleOrphanedLLMCallsForRun id t s).2) = map frozen (st_calls s).
Proof.
  unfold SettleOrphanedLLMCallsForRun. eff_unfold. destruct (resolves s _ id); cbn; [|done].
  by apply update_frozen.
Qed.

(** ** Opening a row *)

(** What an opener's record becomes: empty references are none, unset columns
    take their defaults. *)
Definition recorded (call row : Call) : Prop := ∃ at_ id,
  let call := opened at_ call in
  row = call <| Cl_UserID := ref_of (Cl_UserID call) |> <| Cl_TaskID := ref_of (Cl_TaskID call) |>
             <| Cl_TaskRunID := ref_of (Cl_TaskRunID call) |>
             <| Cl_ConversationID := ref_of (Cl_ConversationID call) |> <| Cl_ID := id |>.

Lemma toLLMCallRow_ok call s row s' : toLLMCallRow call s = (Ok row, s') →
  s' = s ∧ row = call <| Cl_UserID := ref_of (Cl_UserID call) |> <| Cl_TaskID := ref_of (Cl_TaskID call) |>
                      <| Cl_TaskRunID := ref_of (Cl_TaskRunID call) |>
                      <| Cl_ConversationID := ref_of (Cl_ConversationID call) |>.
Proof. unfold toLLMCallRow. intros H. inv_eff H. by subst. Qed.

Lemma steps_toLLMCallRow R `{!PreOrder R} call : steps R (toLLMCallRow call).
Proof.
  unfold toLLMCallRow. repeat (apply steps_bind; [apply _|by apply steps_optionalKey|]; intros ?).
  apply steps_ret, _.
Qed.

Lemma opened_frozen_id at_ call : Cl_ID (opened at_ call) = Cl_ID call.
Proof. unfold opened. repeat case_match; reflexivity. Qed.

Lemma OpenLLMCall_ok gen call s row s' : OpenLLMCall gen (Some call) s = (Ok row, s') →
  st_calls s' = st_calls s ++ [row] ∧ Cl_ID row ∉ call_ids s ∧
  (∀ r, r ∈ st_calls s → same_client row r = false) ∧ recorded call row.
Proof.
  unfold OpenLLMCall. intros H. apply eff_bind_ok in H as (at_ & s1 & [-> ->]%gets_ok & H).
  apply eff_bind_ok in H as (r0 & s1 & [-> ->]%toLLMCallRow_ok & H).
  apply eff_bind_ok in H as (id & s1 & (Hid & n & ->)%createWithPublicID_ok & H).
  apply eff_bind_ok in H as (s2 & s3 & [-> ->]%get_ok & H). cbn in H.
  destruct (existsb _ _) eqn:Ex; [by apply fail_ok in H|].
  apply eff_bind_ok in H as ([] & s4 & ->%put_ok & [-> ->]%ret_ok). split_and!; [done..| |].
  - intros r Hr. destruct (same_client _ r) eqn:E; [|done]. exfalso.
    apply Bool.not_true_iff_false in Ex. apply Ex. apply existsb_exists. exists r.
    split; [by apply list_elem_of_In|exact E].
  - by exists (st_clock s), id.
Qed.

Lemma OpenLLMCall_err gen call s e s' : OpenLLMCall gen (Some call) s = (Err e, s') → st_calls s' = st_calls s.
Proof.
  assert (∀ A (m : DB A), steps same_calls m → triple (same_calls s) m (λ _, same_calls s) (λ _, same_calls s)) as K.
  { intros A m Hm. apply (triple_steps same_calls); [done|]. intros s1 s2 H1 H2. by etransitivity. }
  assert (triple (same_calls s) (OpenLLMCall gen (Some call)) (λ _ _, True) (λ _, same_calls s)) as T.
  { unfold OpenLLMCall. eapply triple_bind; [apply K, steps_gets, _|]. intros at_.
    eapply triple_bind; [apply K; by apply steps_toLLMCallRow, _|]. intros r.
    eapply triple_bind; [apply K, steps_createWithPublicID; [apply _|by intros ? ?]|]. intros id.
    intros s1 H1. eff_unfold. destruct (existsb _ _); cbn; done. }
  intros H. specialize (T s eq_refl). by rewrite H in T.
Qed.

Lemma ledger_ok_open s s' row :
  st_calls s' = st_calls s ++ [row] → Cl_ID row ∉ call_ids s →
  (∀ r, r ∈ st_calls s → same_client row r = false) → ledger_ok s → ledger_ok s'.
Proof.
  intros E Hid Hc [Hn Hu]. split.
  - unfold call_ids. rewrite E, map_app. apply NoDup_app. split_and!; [done| |apply NoDup_singleton].
    intros x Hx Hx'. apply list_elem_of_singleton in Hx' as ->. done.
  - intros i j a b. rewrite E, !lookup_app_Some.
    assert (∀ r, r ∈ st_calls s → same_client r row = false) as Hc'.
    { intros r Hr. destruct (same_client r row) eqn:X; [|done]. apply same_client_sym in X.
      by rewrite Hc in X. }
    intros [Ha|[Hla Ha]] [Hb|[Hlb Hb]] Hs.
    + by eapply Hu.
    + apply list_lookup_singleton_Some in Hb as [_ <-]. rewrite Hc' in Hs; [done|]. by eapply list_elem_of_lookup_2.
    + apply list_lookup_singleton_Some in Ha as [_ <-]. rewrite Hc in Hs; [done|]. by eapply list_elem_of_lookup_2.
    + apply list_lookup_singleton_Some in Ha as [? _], Hb as [? _]. lia.
Qed.
