(* ===== verification/ScheduleDispatch.v ===== *)
(** * ScheduleDispatch: editing and firing schedules

    internal/service/schedule: when a cron expression fires next, and the
    commands a member gives.  The cron library and the time zone database are
    the class [Cron]; the agent store, the workflow store and the delivery
    check are fields of the service, absent where the code's are nil. *)

From S2P Require Import Prelude Text Json JsonSchema TaskCore WorkflowCore WorkflowGraph WorkflowDefinition Store.
From S2P Require Import TaskStore WorkflowStore WorkflowLifecycle StoreProgram TaskService WorkflowSafety.
From S2P Require Import WorkflowReconcile ReconcileMoves ReconcileSafety WorkflowCommands ScheduleStore.
From stdpp Require Import gmap.
Import db.

Module schedule.
Import coreschedule.
#[local] Existing Instance coreworkflow.Status_eq_dec.
Local Open Scope string_scope.

(** ** cron.go *)

(** [time.LoadLocation], and the parser and the next activation of
    github.com/robfig/cron. *)
Class Cron := {
  Location : Type;
  Spec : Type;
  LoadLocation : string → res string Location;
  Parse : string → res string Spec;
  NextActivation : Spec → Location → Z → Z;
  quoteText : string → string
}.

Section CronGo.
Context `{Cron}.

Definition timezoneError (timezone e : string) : string := "timezone " +:+ quoteText timezone +:+ ": " +:+ e.
Definition cronError (cronExpr e : string) : string := "cron " +:+ quoteText cronExpr +:+ ": " +:+ e.

Definition Validate (cronExpr timezone : string) : res string unit :=
  match LoadLocation timezone with
  | Err e => Err (timezoneError timezone e)
  | Ok _ => match Parse cronExpr with
            | Err e => Err (cronError cronExpr e)
            | Ok _ => Ok tt
            end
  end.

Definition Next (cronExpr timezone : string) (after : Z) : res string Z :=
  match LoadLocation timezone with
  | Err e => Err (timezoneError timezone e)
  | Ok loc => match Parse cronExpr with
              | Err e => Err (cronError cronExpr e)
              | Ok sched => Ok (NextActivation sched loc after)
              end
  end.
End CronGo.

(** ** Refusals and bounds *)

Definition ErrNotConfigured := ErrService "schedules not configured".
Definition ErrInputRequired := ErrService "input required".
Definition ErrExecutorRequired := ErrService "executor_id required".
Definition ErrInvalidExecutorKind := ErrService "executor_kind must be agent or workflow".
Definition ErrCronRequired := ErrService "cron_expr required".
Definition ErrTimezoneRequired := ErrService "timezone required".
Definition ErrAgentNotFound := ErrService "agent not found in this space".
Definition ErrWorkflowNotFound := ErrService "workflow not found in this space".
Definition ErrWorkflowNotPublished := ErrService "workflow must be published to schedule it".
Definition ErrScheduleNotFound := ErrService "schedule not found".
Definition ErrNameTooLong := ErrService "name is too long".
Definition ErrInputTooLong := ErrService "input is too long".
Definition ErrDeliveryIncomplete := ErrService "delivery needs both assistant_id and requester_id".

Definition maxScheduleNameRunes : Z := 256.
Definition maxScheduleInputBytes : Z := 65535.

Definition invalid (e : string) : db.error := ErrService e.

(** ** Commands *)

Record CreateCmd : Type := mkCreateCmd {
  SCC_SpaceID : string;
  SCC_UserID : string;
  SCC_ExecutorKind : string;
  SCC_ExecutorID : string;
  SCC_Name : string;
  SCC_Input : string;
  SCC_CronExpr : string;
  SCC_Timezone : string;
  SCC_Delivery : option Delivery
}.

Record UpdateCmd : Type := mkUpdateCmd {
  SUC_ScheduleID : string;
  SUC_SpaceID : string;
  SUC_Name : option string;
  SUC_Input : option string;
  SUC_CronExpr : option string;
  SUC_Timezone : option string;
  SUC_Enabled : option bool;
  SUC_Delivery : option Delivery
}.

(** The collaborators: a store that is not wired refuses. *)
Record Service : Type := mkService {
  Schedules : bool;
  Agents : option (db.Store → agentdef.Store db.error);
  Workflows : bool;
  Deliveries : option (db.Store → string → string → string → Delivery → res db.error unit)
}.

Section Commands.
Context `{Cron} (gen : nat → string) (others : db.Store → db.Store).
(** [json.Unmarshal] of a definition, and what a JSON text decodes to. *)
Context (Unmarshal : string → option coreworkflow.Definition_) (Decode : string → option json).
Context (svc : Service).

Local Notation call := (after others).
Local Notation between := ((λ s, (Ok tt, others s)) : DB unit).

(** An error that is text to the caller. *)
Definition validated {A} (r : res string A) : DB A :=
  match r with Ok a => mret a | Err e => fail (invalid e) end.

Definition blank (s : string) : bool := TrimSpace s == "".

Definition checkDelivery (spaceID executorKind executorID : string) (d : Delivery) : DB unit :=
  if blank (Del_AssistantID d) || blank (Del_RequesterID d) then fail ErrDeliveryIncomplete
  else match Deliveries svc with
       | None => fail ErrNotConfigured
       | Some check => call (λ s, (check s spaceID executorKind executorID d, s))
       end.

Definition requireExecutorInSpace (kind id spaceID input : string) : DB unit :=
  if kind == ExecutorAgent then
    match Agents svc with
    | None => fail ErrNotConfigured
    | Some agents =>
        agent ← call (λ s, (@agentdef.GetAgent _ (agents s) id, s));
        match agent with
        | Some agent => if agentdef.Ag_SpaceID agent == spaceID then mret tt else fail ErrAgentNotFound
        | None => fail ErrAgentNotFound
        end
    end
  else if kind == ExecutorWorkflow then
    if negb (Workflows svc) then fail ErrNotConfigured
    else
      wf ← call (workflowdb.GetWorkflow id);
      match wf with
      | None => fail ErrWorkflowNotFound
      | Some wf =>
          if coreworkflow.Wf_SpaceID wf != spaceID then fail ErrWorkflowNotFound
          else if coreworkflow.Wf_Status wf != coreworkflow.StatusPublished then fail ErrWorkflowNotPublished
          else match definition.CheckUnattendedRunInput (Unmarshal (coreworkflow.Wf_Definition wf))
                       (workflowapi.runInputOf Decode input) with
               | Ok _ => mret tt
               | Err e => fail (workflowapi.definitionError e)
               end
      end
  else fail ErrInvalidExecutorKind.

Definition Create (cmd : CreateCmd) : DB (option Schedule) :=
  if negb (Schedules svc) then fail ErrNotConfigured
  else if (SCC_ExecutorKind cmd != ExecutorAgent) && (SCC_ExecutorKind cmd != ExecutorWorkflow)
  then fail ErrInvalidExecutorKind
  else if SCC_ExecutorID cmd == "" then fail ErrExecutorRequired
  else if util.ExceedsRuneLimit (SCC_Name cmd) maxScheduleNameRunes then fail ErrNameTooLong
  else if util.ExceedsByteLimit (SCC_Input cmd) maxScheduleInputBytes then fail ErrInputTooLong
  else if (SCC_ExecutorKind cmd == ExecutorAgent) && blank (SCC_Input cmd) then fail ErrInputRequired
  else if SCC_CronExpr cmd == "" then fail ErrCronRequired
  else if SCC_Timezone cmd == "" then fail ErrTimezoneRequired
  else
    _ ← validated (Validate (SCC_CronExpr cmd) (SCC_Timezone cmd));
    _ ← requireExecutorInSpace (SCC_ExecutorKind cmd) (SCC_ExecutorID cmd) (SCC_SpaceID cmd) (SCC_Input cmd);
    _ ← (match SCC_Delivery cmd with
         | Some d => checkDelivery (SCC_SpaceID cmd) (SCC_ExecutorKind cmd) (SCC_ExecutorID cmd) d
         | None => mret tt
         end);
    at_ ← call now;
    next ← validated (Next (SCC_CronExpr cmd) (SCC_Timezone cmd) at_);
    call (scheduledb.CreateSchedule gen between (Some {|
      SCI_SpaceID := SCC_SpaceID cmd; SCI_ExecutorKind := SCC_ExecutorKind cmd;
      SCI_ExecutorID := SCC_ExecutorID cmd; SCI_CreatedBy := SCC_UserID cmd; SCI_Name := SCC_Name cmd;
      SCI_Input := SCC_Input cmd; SCI_CronExpr := SCC_CronExpr cmd; SCI_Timezone := SCC_Timezone cmd;
      SCI_Enabled := true; SCI_NextFireAt := next; SCI_Delivery := SCC_Delivery cmd |})).

Definition Get (spaceID scheduleID : string) : DB Schedule :=
  if negb (Schedules svc) then fail ErrNotConfigured
  else
    sched ← call (scheduledb.GetSchedule scheduleID);
    match sched with
    | Some sched => if Sc_SpaceID sched == spaceID then mret sched else fail ErrScheduleNotFound
    | None => fail ErrScheduleNotFound
    end.

Definition List_ (spaceID : string) (limit offset : Z) : DB (list Schedule * Z) :=
  if negb (Schedules svc) then fail ErrNotConfigured
  else call (scheduledb.ListSchedulesBySpace spaceID limit offset).

(** The next fire of an edit that changes the rule. *)
Definition newNextFire (existing : Schedule) (cmd : UpdateCmd) : DB (option Z) :=
  if scheduledb.given (SUC_CronExpr cmd) || scheduledb.given (SUC_Timezone cmd) then
    let cronExpr := default (Sc_CronExpr existing) (SUC_CronExpr cmd) in
    let timezone := default (Sc_Timezone existing) (SUC_Timezone cmd) in
    _ ← validated (Validate cronExpr timezone);
    at_ ← call now;
    next ← validated (Next cronExpr timezone at_);
    mret (Some next)
  else mret None.

Definition Update (cmd : UpdateCmd) : DB Schedule :=
  existing ← Get (SUC_SpaceID cmd) (SUC_ScheduleID cmd);
  let blankInput := match SUC_Input cmd with Some input => blank input | None => false end in
  if blankInput && (Sc_ExecutorKind existing == ExecutorAgent) then fail ErrInputRequired
  else if match SUC_Name cmd with Some name => util.ExceedsRuneLimit name maxScheduleNameRunes | None => false end
  then fail ErrNameTooLong
  else if match SUC_Input cmd with Some input => util.ExceedsByteLimit input maxScheduleInputBytes | None => false end
  then fail ErrInputTooLong
  else
    _ ← (match SUC_Input cmd with
         | Some input =>
             if Sc_ExecutorKind existing == ExecutorWorkflow
             then requireExecutorInSpace (Sc_ExecutorKind existing) (Sc_ExecutorID existing) (Sc_SpaceID existing) input
             else mret tt
         | None => mret tt
         end);
    _ ← (match SUC_Delivery cmd with
         | Some d =>
             if Del_AssistantID d != ""
             then checkDelivery (Sc_SpaceID existing) (Sc_ExecutorKind existing) (Sc_ExecutorID existing) d
             else mret tt
         | None => mret tt
         end);
    next ← newNextFire existing cmd;
    call (scheduledb.UpdateSchedule between {|
      SUI_ScheduleID := SUC_ScheduleID cmd; SUI_Name := SUC_Name cmd; SUI_Input := SUC_Input cmd;
      SUI_CronExpr := SUC_CronExpr cmd; SUI_Timezone := SUC_Timezone cmd; SUI_Enabled := SUC_Enabled cmd;
      SUI_NextFireAt := next;
      SUI_PauseReason := if SUC_Enabled cmd == Some false then Some PauseReasonManual else None;
      SUI_Delivery := SUC_Delivery cmd |}).

Definition Delete (spaceID scheduleID : string) : DB unit :=
  _ ← Get spaceID scheduleID;
  call (scheduledb.DeleteSchedule scheduleID).

Definition ListDeliveries (spaceID scheduleID : string) (limit offset : Z) : DB (list FireDelivery * Z) :=
  _ ← Get spaceID scheduleID;
  call (scheduledb.ListDeliveriesBySchedule scheduleID limit offset).
End Commands.

End schedule.

(** * Firing schedules

    internal/server/scheduler/schedule_dispatcher.go: a tick finds the schedules
    that are due, and each is checked, claimed and fired.  What the code logs is
    the [fate] a step returns.  The services that start the executors are the
    class [Executors]; [others] is what other writers commit before each call. *)

Import db.

Module dispatcher.
Import coreschedule.
Import schedule.
Local Open Scope string_scope.

Definition scheduleDueBatch : Z := 100.
Definition maxConsecutiveScheduleFailures : Z := 5.

(** [ScheduleAdmitter] and [WorkflowStarter]; the second may be absent. *)
Class Executors := {
  CreateTask : taskservice.CreateTaskCmd → DB coretask.Task;
  StartWorkflowRun :
    option (workflowapi.StartWorkflowRunCmd → DB (option coreworkflow.Run * list coreworkflow.NodeRun))
}.

(** The database, with the claims this dispatcher won and the calls it made to
    start an executor: the schedule and the due time each was for.  Both are only
    recorded. *)
Record Dispatch : Type := mkDispatch {
  Di_Store : db.Store;
  Di_Claimed : list ClaimInput;
  Di_Started : list (string * Z)
}.
#[export] Instance Dispatch_updatable : Updatable Dispatch :=
  λ d, mkDispatch (Di_Store d) (Di_Claimed d) (Di_Started d).

Definition Disp (A : Type) : Type := Eff db.error Dispatch A.

Definition on_store {A} (m : DB A) : Disp A := λ d,
  let '(r, st) := m (Di_Store d) in (r, d <| Di_Store := st |>).

(** The call that claims a due time. *)
Definition claiming (in_ : ClaimInput) (m : DB bool) : Disp bool := λ d,
  let '(r, st) := m (Di_Store d) in
  let won := match r with Ok true => [in_] | _ => [] end in
  (r, d <| Di_Store := st |> <| Di_Claimed := (Di_Claimed d ++ won)%list |>).

(** A call that starts an executor for the schedule's due time. *)
Definition executor {A} (s : Schedule) (m : DB A) : Disp A := λ d,
  let '(r, st) := m (Di_Store d) in
  (r, d <| Di_Store := st |> <| Di_Started := (Di_Started d ++ [(Sc_ID s, Sc_NextFireAt s)])%list |>).

(** A nil pointer dereferenced, which leaves the sweep. *)
Definition panic : db.error := taskservice.panic.

(** What a call answered; an error is a value to the caller. *)
Definition attempt {S A} (m : Eff db.error S A) : Eff db.error S (res db.error A) :=
  catch (a ← m; mret (Ok a)) (λ e, if e == panic then fail e else mret (Err e)).

Inductive fate : Type :=
| InvalidCron (e : string)
| Deferred
| Ineligible (reason : string)
| AtBound
| ClaimFailed (e : db.error)
| NotClaimed
| NotStarted (e : db.error) (paused : bool)
| Fired (ref : string).

Section Dispatcher.
Context `{Cron} `{Executors} (gen : nat → string) (others : db.Store → db.Store).
(** The eligibility check and the release contracts, where they are wired. *)
Context (eligible : option (db.Store → string → string → res eligibility.error unit)).
Context (contracts : option (db.Store → Schedule → option string)).
Context (maxFailures : Z).

Local Notation call := (after others).
Local Notation between := ((λ s, (Ok tt, others s)) : DB unit).

(** A failure to pause is logged. *)
Definition pause (scheduleID reason : string) : DB unit :=
  _ ← attempt (call (scheduledb.UpdateSchedule between {|
    SUI_ScheduleID := scheduleID; SUI_Name := None; SUI_Input := None; SUI_CronExpr := None;
    SUI_Timezone := None; SUI_Enabled := Some false; SUI_NextFireAt := None;
    SUI_PauseReason := Some reason; SUI_Delivery := None |}));
  mret tt.

Definition startExecutor (s : Schedule) : Disp string :=
  if Sc_ExecutorKind s == ExecutorWorkflow then
    match StartWorkflowRun with
    | None => fail (ErrService "workflow schedule fired but no workflow service is wired")
    | Some start =>
        out ← executor s (start {|
          workflowapi.SWC_SpaceID := Sc_SpaceID s; workflowapi.SWC_UserID := Sc_CreatedBy s;
          workflowapi.SWC_WorkflowID := Sc_ExecutorID s; workflowapi.SWC_IssueID := None;
          workflowapi.SWC_ScheduleID := Some (Sc_ID s); workflowapi.SWC_ConversationID := None;
          workflowapi.SWC_RequestedBy := ""; workflowapi.SWC_AssistantID := "";
          workflowapi.SWC_AssistantRevision := 0; workflowapi.SWC_Input := Sc_Input s |});
        match out.1 with
        | Some run => mret (coreworkflow.Run_ID run)
        | None => fail panic
        end
    end
  else
    outputSchema ← (match contracts, Sc_Delivery s with
                    | Some schema, Some _ => on_store (call (gets (λ st, schema st s)))
                    | _, _ => mret None
                    end);
    task ← executor s (CreateTask {|
      taskservice.CTC_ConversationID := ""; taskservice.CTC_UserID := Sc_CreatedBy s;
      taskservice.CTC_SpaceID := Sc_SpaceID s; taskservice.CTC_Input := Sc_Input s;
      taskservice.CTC_AgentID := Some (Sc_ExecutorID s); taskservice.CTC_IssueID := None;
      taskservice.CTC_ScheduleID := Some (Sc_ID s);
      taskservice.CTC_CreatedByType := coretask.RunCreatedByTypeSystem;
      taskservice.CTC_TriggerSource := coretask.RunTriggerSourceSchedule;
      taskservice.CTC_SourceMessageID := None; taskservice.CTC_AdmissionKey := "";
      taskservice.CTC_WorkflowNodeRunID := ""; taskservice.CTC_OutputSchema := outputSchema;
      taskservice.CTC_RequestedBy := ""; taskservice.CTC_AssistantID := "";
      taskservice.CTC_AssistantRevision := 0 |});
    mret (coretask.Task_ID task).

(** Whether the creator may still run work: nothing to say, not known, or the
    reason to pause. *)
Inductive verdict : Type := Eligible | Unknown | Refused (reason : string).

Definition checkCreator (s : Schedule) : DB verdict :=
  match eligible with
  | Some check =>
      if Sc_CreatedBy s == "" then mret Eligible
      else
        answer ← call (gets (λ st, check st (Sc_CreatedBy s) (Sc_SpaceID s)));
        mret (match answer with
              | Ok _ => Eligible
              | Err eligibility.ErrUnavailable => Unknown
              | Err eligibility.ErrAccountDisabled => Refused PauseReasonCreatorDisabled
              | Err eligibility.ErrNotSpaceMember => Refused PauseReasonCreatorNotMember
              end)
  | None => mret Eligible
  end.

Definition recordFire (s : Schedule) (now_ : Z) (ref : option string) (failed : bool) : DB unit :=
  _ ← attempt (call (scheduledb.RecordFire gen {|
    RF_ScheduleID := Sc_ID s; RF_FiredAt := now_; RF_FireRef := ref; RF_Failed := failed |}));
  mret tt.

(** The claimed due time is fired. *)
Definition fireClaimed (s : Schedule) (now_ : Z) : Disp fate :=
  started ← attempt (startExecutor s);
  match started with
  | Err e =>
      _ ← on_store (recordFire s now_ None true);
      if (maxFailures <=? Sc_ConsecutiveFailures s + 1)%Z then
        _ ← on_store (pause (Sc_ID s) PauseReasonConsecutiveFailures); mret (NotStarted e true)
      else mret (NotStarted e false)
  | Ok ref => _ ← on_store (recordFire s now_ (Some ref) false); mret (Fired ref)
  end.

Definition fireOne (s : Schedule) (now_ : Z) : Disp fate :=
  match Next (Sc_CronExpr s) (Sc_Timezone s) now_ with
  | Err e => _ ← on_store (pause (Sc_ID s) PauseReasonInvalidCron); mret (InvalidCron e)
  | Ok next =>
      creator ← on_store (checkCreator s);
      match creator with
      | Unknown => mret Deferred
      | Refused reason => _ ← on_store (pause (Sc_ID s) reason); mret (Ineligible reason)
      | Eligible =>
          if (maxFailures <=? Sc_ConsecutiveFailures s)%Z then
            _ ← on_store (pause (Sc_ID s) PauseReasonConsecutiveFailures); mret AtBound
          else
            let in_ := {|
              Cl_ScheduleID := Sc_ID s; Cl_ExpectedNextFireAt := Sc_NextFireAt s; Cl_NewNextFireAt := next |} in
            claimed ← attempt (claiming in_ (call (scheduledb.ClaimSchedule in_)));
            match claimed with
            | Err e => mret (ClaimFailed e)
            | Ok false => mret NotClaimed
            | Ok true => fireClaimed s now_
            end
      end
  end.

(** The schedules of a tick, in the order the query gave them, each with what
    became of it. *)
Definition sweep : Disp (list (Schedule * fate)) :=
  now_ ← on_store (call now);
  due ← on_store (attempt (call (scheduledb.DueSchedules now_ scheduleDueBatch)));
  match due with
  | Err _ => mret []
  | Ok due => mapM (λ s, f ← fireOne s now_; mret (s, f)) due
  end.

(** The poll loop, by the times the clock shows at its ticks. *)
Fixpoint loop (ticks : list Z) : Disp (list (list (Schedule * fate))) :=
  match ticks with
  | [] => mret []
  | t :: ticks =>
      _ ← on_store ((λ st, (Ok tt, st <| st_clock := t |>)) : DB unit);
      fates ← sweep;
      rest ← loop ticks;
      mret (fates :: rest)
  end.
End Dispatcher.

End dispatcher.
