(* ===== verification/ScheduleLaws.v ===== *)
(** * ScheduleLaws: a due time is fired once

    A [history] is what happens to the schedules over time: claims, and changes
    that [kept] admits, which never bring back a due time that has passed.  A
    sweep is one, whatever other histories interleave with it, and in a history
    every due time is claimed at most once. *)

From S2P Require Import Prelude EffLogic Text Json JsonSchema TaskCore WorkflowCore WorkflowGraph WorkflowDefinition Store.
From S2P Require Import TaskStore WorkflowStore WorkflowLifecycle StoreProgram TaskService WorkflowSafety.
From S2P Require Import WorkflowReconcile ReconcileMoves ReconcileSafety WorkflowCommands ScheduleStore ScheduleDispatch.
From stdpp Require Import gmap.
Import db scheduledb schedule dispatcher.
Import coreschedule.
Local Open Scope Z_scope.

(** ** Rows under a guarded update *)

Lemma update_schedules_eq p f s :
  update_schedules p f s =
  (Ok (matching p (st_schedules s)),
   s <| st_schedules := update_where p (λ r, f r <| Sch_UpdatedAt := st_clock s |>) (st_schedules s) |>).
Proof. done. Qed.

(** What the dispatcher goes by: the id and the due time. *)
Definition face (r : scheduleRow) : string * Z := (Sch_ID r, Sch_NextFireAt r).
Definition faces (s : Store) : list (string * Z) := map face (st_schedules s).

Lemma faces_update p f s :
  (∀ r, face (f r) = face r) → faces (update_schedules p f s).2 = faces s.
Proof.
  intros Hf. rewrite update_schedules_eq. unfold faces. cbn. apply update_where_map.
  intros r. change (face (f r <| Sch_UpdatedAt := st_clock s |>)) with (face (f r)). apply Hf.
Qed.

(** The rules that say when schedules fire. *)
Definition rules (s : Store) : list (string * string) := map (λ r, (Sch_CronExpr r, Sch_Timezone r)) (st_schedules s).

Lemma rules_update p f s :
  (∀ r, Sch_CronExpr (f r) = Sch_CronExpr r ∧ Sch_Timezone (f r) = Sch_Timezone r) →
  rules (update_schedules p f s).2 = rules s.
Proof.
  intros Hf. rewrite update_schedules_eq. unfold rules. cbn. apply update_where_map.
  intros r. cbn. by destruct (Hf r) as [-> ->].
Qed.

(** ** Histories *)

Definition keyed (s : Store) : Prop := NoDup (scheduleIDs s).

(** The due time [c] of a schedule lies behind it. *)
Definition passed (c : string * Z) (s : Store) : Prop := ∀ n, (c.1, n) ∈ faces s → c.2 < n.

Definition kept : relation Store := λ s s',
  st_clock s ≤ st_clock s' ∧ (keyed s → keyed s') ∧ ∀ c, c.2 ≤ st_clock s → passed c s → passed c s'.

#[export] Instance kept_preorder : PreOrder kept.
Proof.
  split; [by intros s|]. intros s1 s2 s3 (C1 & K1 & P1) (C2 & K2 & P2). split_and!; [lia|auto|].
  intros c Hc Hp. apply P2; [lia|]. by apply P1.
Qed.

Lemma keyed_faces s : keyed s ↔ NoDup (map fst (faces s)).
Proof. unfold keyed, scheduleIDs, faces. by rewrite map_map. Qed.

Lemma kept_faces s s' : st_clock s ≤ st_clock s' → faces s' `sublist_of` faces s → kept s s'.
Proof.
  intros Hc Hf. split_and!; [done| |].
  - rewrite !keyed_faces. intros Hn. eapply sublist_NoDup; [exact Hn|]. by apply (fmap_sublist fst).
  - intros c _ Hp n Hn. apply Hp. by eapply elem_of_sublist.
Qed.

(** The events of a history are the claims that succeeded. *)
Inductive history : Store → list ClaimInput → Store → Prop :=
| history_nil s : history s [] s
| history_claim s in_ (claimed : bool) s1 cs s2 :
    ClaimSchedule in_ s = (Ok claimed, s1) →
    Cl_ExpectedNextFireAt in_ ≤ st_clock s →
    Cl_ExpectedNextFireAt in_ < Cl_NewNextFireAt in_ ∨ Cl_NewNextFireAt in_ = 0 →
    history s1 cs s2 →
    history s ((if claimed then [in_] else []) ++ cs) s2
| history_other s s1 cs s2 : kept s s1 → history s1 cs s2 → history s cs s2.

(** No claim left the schedule without a next due time: the library answers the
    zero time for a rule that never comes due again. *)
Definition recurs (cs : list ClaimInput) (id : string) : Prop :=
  Forall (λ in_, Cl_ScheduleID in_ = id → Cl_NewNextFireAt in_ ≠ 0) cs.

(** ** Claims *)

Definition claims (in_ : ClaimInput) (r : scheduleRow) : bool :=
  (Sch_ID r == Cl_ScheduleID in_) && Sch_Enabled r && (Sch_NextFireAt r =? Cl_ExpectedNextFireAt in_).

Definition dueTime (in_ : ClaimInput) : string * Z := (Cl_ScheduleID in_, Cl_ExpectedNextFireAt in_).

Lemma ClaimSchedule_eq in_ s :
  ClaimSchedule in_ s =
  (Ok (matching (claims in_) (st_schedules s) =? 1)%nat,
   (update_schedules (claims in_) (λ r, r <| Sch_NextFireAt := Cl_NewNextFireAt in_ |>) s).2).
Proof. done. Qed.

Lemma claims_true in_ r : claims in_ r = true →
  face r = dueTime in_ ∧ Sch_Enabled r = true.
Proof.
  unfold claims. intros [[E1%bool_decide_eq_true E2]%andb_true_iff E3%Z.eqb_eq]%andb_true_iff.
  split; [|done]. unfold face, dueTime. congruence.
Qed.

Lemma elem_of_faces s c : c ∈ faces s ↔ ∃ r, r ∈ st_schedules s ∧ face r = c.
Proof. unfold faces. rewrite list_elem_of_fmap. naive_solver. Qed.

(** The rows after a claim: each is a row before it, moved if it was claimed. *)
Lemma elem_of_claimed in_ s c : c ∈ faces (ClaimSchedule in_ s).2 →
  (∃ r, r ∈ st_schedules s ∧ claims in_ r = false ∧ c = face r)
  ∨ (dueTime in_ ∈ faces s ∧ c = (Cl_ScheduleID in_, Cl_NewNextFireAt in_)).
Proof.
  rewrite ClaimSchedule_eq. intros (r' & (r & Hr & ->)%elem_of_update_where & <-)%elem_of_faces.
  destruct (claims in_ r) eqn:E; [|left; by exists r].
  destruct (claims_true _ _ E) as [Ef _]. right. split; [apply elem_of_faces; by exists r|].
  unfold face. cbn. by injection Ef as -> _.
Qed.

Lemma faces_inj s r r' : keyed s → r ∈ st_schedules s → r' ∈ st_schedules s → Sch_ID r = Sch_ID r' → r = r'.
Proof.
  intros Hk Hr Hr' E. unfold keyed, scheduleIDs in Hk.
  apply list_elem_of_lookup in Hr as [i Hi], Hr' as [j Hj].
  assert (i = j) as <-; [|congruence].
  eapply (NoDup_lookup _ i j (Sch_ID r) Hk); rewrite list_lookup_fmap; [by rewrite Hi|by rewrite Hj, E].
Qed.

Lemma keyed_update p f s : (∀ r, Sch_ID (f r) = Sch_ID r) → keyed s → keyed (update_schedules p f s).2.
Proof.
  intros Hf. unfold keyed, scheduleIDs. rewrite update_schedules_eq. cbn. by rewrite update_where_map.
Qed.

Lemma ClaimSchedule_frame in_ s o s1 : ClaimSchedule in_ s = (o, s1) → st_clock s1 = st_clock s ∧ (keyed s → keyed s1).
Proof.
  intros E. assert (s1 = (ClaimSchedule in_ s).2) as -> by by rewrite E. split; [done|by apply keyed_update].
Qed.

Definition forward (in_ : ClaimInput) (id : string) : Prop :=
  Cl_ScheduleID in_ = id → Cl_ExpectedNextFireAt in_ < Cl_NewNextFireAt in_.

Lemma ClaimSchedule_passed in_ s o s1 c : ClaimSchedule in_ s = (o, s1) → forward in_ c.1 → passed c s → passed c s1.
Proof.
  intros E Hlt Hp. assert (s1 = (ClaimSchedule in_ s).2) as -> by by rewrite E. clear E.
  intros n [(r & Hr & _ & E)|[Hin [= E ->]]]%elem_of_claimed.
  - apply Hp. apply elem_of_faces. by exists r.
  - etransitivity; [|by apply Hlt]. apply Hp. rewrite E. exact Hin.
Qed.

(** Only a due time that is not behind its schedule is claimed, and then it is. *)
Lemma ClaimSchedule_true in_ s s1 : ClaimSchedule in_ s = (Ok true, s1) →
  dueTime in_ ∈ faces s
  ∧ (keyed s → Cl_ExpectedNextFireAt in_ < Cl_NewNextFireAt in_ → passed (dueTime in_) s1).
Proof.
  rewrite ClaimSchedule_eq. intros [= E%Nat.eqb_eq <-].
  assert (∃ r, r ∈ st_schedules s ∧ claims in_ r = true) as (r & Hr & Hc).
  { unfold matching in E. destruct (List.filter (claims in_) (st_schedules s)) as [|r l] eqn:Ef; [done|].
    exists r. rewrite list_elem_of_In. apply filter_In. rewrite Ef. by left. }
  destruct (claims_true _ _ Hc) as [Ef _]. split; [apply elem_of_faces; by exists r|].
  intros Hk Hlt n [(r' & Hr' & Hn & E')|[_ [= ->]]]%elem_of_claimed; [|done].
  injection E' as E1 E2. injection Ef as E3 E4.
  assert (r = r') as <- by (eapply faces_inj; [done..|congruence]). congruence.
Qed.

Lemma passed_not_due c s : passed c s → c ∉ faces s.
Proof. intros Hp Hin. destruct c as [id t]. specialize (Hp t Hin). cbn in Hp. lia. Qed.

(** ** A due time is claimed at most once *)

Lemma history_frame s cs s' : history s cs s' → st_clock s ≤ st_clock s' ∧ (keyed s → keyed s').
Proof.
  induction 1 as [s|s in_ b s1 cs s2 E Hle Hlt _ IH|s s1 cs s2 (Hk1 & Hk2 & _) _ IH]; [done| |by split; [lia|naive_solver]].
  apply ClaimSchedule_frame in E as [E1 E2]. split; [lia|naive_solver].
Qed.

Lemma history_app s1 cs1 s2 cs2 s3 : history s1 cs1 s2 → history s2 cs2 s3 → history s1 (cs1 ++ cs2) s3.
Proof.
  induction 1 as [s|s in_ b s1 cs s2 E Hle Hlt _ IH|s s1 cs s2 Hk _ IH]; intros H3; [done| |].
  - rewrite <- app_assoc. eapply history_claim; eauto.
  - eapply history_other; eauto.
Qed.

(** A claim of a history moves a schedule that recurs forward; one that failed
    moves nothing. *)
Lemma claim_passed in_ (b : bool) s s1 cs c : ClaimSchedule in_ s = (Ok b, s1) → keyed s →
  Cl_ExpectedNextFireAt in_ < Cl_NewNextFireAt in_ ∨ Cl_NewNextFireAt in_ = 0 →
  recurs ((if b then [in_] else []) ++ cs) c.1 → passed c s → recurs cs c.1 ∧ passed c s1.
Proof.
  intros E Hk Hlt [Hi Hr]%Forall_app Hp. split; [done|]. destruct b.
  - eapply ClaimSchedule_passed; [exact E| |exact Hp]. intros Ec. apply Forall_cons_1 in Hi as [Hi _]. specialize (Hi Ec). lia.
  - rewrite ClaimSchedule_eq in E. injection E as E <-. intros n Hn. apply Hp.
    apply Nat.eqb_neq in E. apply elem_of_faces in Hn as (r & Hr' & <-).
    cbn in Hr'. rewrite update_where_none in Hr'; [apply elem_of_faces; by exists r|].
    destruct (matching_key Sch_ID (Cl_ScheduleID in_) (claims in_) (st_schedules s) Hk) as [?|?]; [|done|lia].
    intros r' [[= -> _] _]%claims_true. done.
Qed.

Lemma history_passes s cs s' c :
  history s cs s' → keyed s → c.2 ≤ st_clock s → recurs cs c.1 → passed c s → passed c s'.
Proof.
  induction 1 as [s|s in_ b s1 cs s2 E Hle Hlt _ IH|s s1 cs s2 (Hk1 & Hk2 & Hk3) _ IH]; intros Hs Hc Hr Hp; [done| |].
  - destruct (claim_passed _ _ _ _ _ _ E Hs Hlt Hr Hp) as [Hr' Hp']. apply ClaimSchedule_frame in E as [E1 E2].
    apply IH; [auto|lia|done|done].
  - apply IH; [auto|lia|done|auto].
Qed.

Lemma passed_not_claimed s cs s' c :
  history s cs s' → keyed s → c.2 ≤ st_clock s → recurs cs c.1 → passed c s → c ∉ map dueTime cs.
Proof.
  induction 1 as [s|s in_ b s1 cs s2 E Hle Hlt _ IH|s s1 cs s2 (Hk1 & Hk2 & Hk3) _ IH]; intros Hs Hc Hr Hp.
  - apply not_elem_of_nil.
  - destruct (claim_passed _ _ _ _ _ _ E Hs Hlt Hr Hp) as [Hr' Hp'].
    destruct (ClaimSchedule_frame _ _ _ _ E) as [E1 E2]. rewrite map_app.
    intros [Hin|Hin]%elem_of_app; [|eapply IH; [auto|lia|done|done|exact Hin]].
    destruct b; [|by apply not_elem_of_nil in Hin]. apply list_elem_of_singleton in Hin as ->.
    destruct (ClaimSchedule_true _ _ _ E) as [Hf _]. by eapply passed_not_due.
  - apply IH; [auto|lia|done|auto].
Qed.

(** The due times of one schedule that a history claimed. *)
Definition duesOf (id : string) (cs : list ClaimInput) : list (string * Z) :=
  map dueTime (List.filter (λ in_, Cl_ScheduleID in_ == id) cs).

Lemma elem_of_duesOf id cs c : c ∈ duesOf id cs ↔ c ∈ map dueTime cs ∧ c.1 = id.
Proof.
  unfold duesOf. rewrite !list_elem_of_fmap. setoid_rewrite list_elem_of_In. setoid_rewrite filter_In.
  setoid_rewrite bool_decide_eq_true. split.
  - intros (i & -> & Hi & E). by split; [exists i|].
  - intros [(i & -> & Hi) E]. by exists i.
Qed.

Lemma history_once s cs s' id : history s cs s' → keyed s → recurs cs id →
  NoDup (duesOf id cs) ∧ ∀ c, c ∈ duesOf id cs → c.2 ≤ st_clock s' ∧ passed c s'.
Proof.
  induction 1 as [s|s in_ b s1 cs s2 E Hle Hlt Hh IH|s s1 cs s2 Hk _ IH]; intros Hs Hr.
  - split; [constructor|]. by intros c []%not_elem_of_nil.
  - destruct (ClaimSchedule_frame _ _ _ _ E) as [E1 E2]. pose proof Hr as [Hi Hr']%Forall_app.
    destruct IH as [Hn Hp]; [auto|done|]. unfold duesOf. rewrite List.filter_app, map_app. fold (duesOf id cs).
    destruct b; [|done]. cbn [List.filter]. destruct (bool_decide_reflect (Cl_ScheduleID in_ = id)) as [Ei|]; [|done].
    apply Forall_cons_1 in Hi as [Hi _]. specialize (Hi Ei).
    assert (passed (dueTime in_) s1) as Hpi by (apply (ClaimSchedule_true _ _ _ E); [done|lia]).
    assert (recurs cs (dueTime in_).1) as Hri by (cbn; by rewrite Ei).
    split.
    + apply NoDup_cons. split; [|done]. intros [Hin _]%elem_of_duesOf. revert Hin.
      eapply passed_not_claimed; [exact Hh|by auto|cbn; lia|done|done].
    + intros c [->|Hc]%elem_of_cons; [|by apply Hp]. split; [destruct (history_frame _ _ _ Hh); cbn; lia|].
      eapply history_passes; [exact Hh|by auto|cbn; lia|done|done].
  - apply IH; [by apply Hk|done].
Qed.

(** ** Programs that are histories *)

#[export] Instance history_events : EventHistory history.
Proof. split; [constructor|by apply history_app]. Qed.

Notation reach := (reaches history).

Lemma kept_reach s s' : kept s s' → reach s s'.
Proof. intros Hk. exists []. eapply history_other; [exact Hk|constructor]. Qed.

Lemma frame_reach s s' : st_clock s' = st_clock s → faces s' = faces s → reach s s'.
Proof. intros Hc Hf. apply kept_reach, kept_faces; [lia|]. by rewrite Hf. Qed.

Lemma fresh_reach s n : reach s (s <| st_fresh := n |>).
Proof. by apply frame_reach. Qed.

Lemma update_schedules_reach p f : (∀ r, face (f r) = face r) → steps reach (update_schedules p f).
Proof. intros Hf s. apply frame_reach; [done|by apply faces_update]. Qed.

Create HintDb bm_reach.
#[export] Hint Resolve steps_ret steps_fail steps_gets steps_get steps_lookupKey steps_createWithPublicID steps_take
  fresh_reach : bm_reach.
#[export] Hint Extern 1 (PreOrder _) => apply _ : bm_reach.

Ltac reach_walk :=
  repeat lazymatch goal with
  | |- forall _, _ => intro
  | |- steps _ (mbind (fun s => put _) get) => intros ?; by apply frame_reach
  | |- steps _ (mbind _ _) => apply steps_bind; [apply _| |]
  | |- steps _ (catch _ _) => apply steps_catch; [apply _| |]
  | |- steps _ (transaction _) => apply steps_transaction
  | |- steps _ (let _ := _ in _) => cbv zeta
  | |- steps _ (match ?x with _ => _ end) => destruct x
  | |- steps _ _ => first [solve [eauto 3 with bm_reach]|intros ?; by apply frame_reach]
  | |- reach _ _ => by apply frame_reach
  end.

Lemma attempt_steps {S} (R : relation S) `{!PreOrder R} {A} (m : Eff db.error S A) : steps R m → steps R (attempt m).
Proof.
  intros Hm. apply steps_catch; [done| |].
  - apply steps_bind; [done|done|]. intros a. apply steps_ret, _.
  - intros e. destruct (e == panic); [apply steps_fail, _|apply steps_ret, _].
Qed.

Lemma attempt_ok {S A} (m : Eff db.error S A) s r s' : attempt m s = (Ok r, s') →
  match r with Ok a => m s = (Ok a, s') | Err e => m s = (Err e, s') end.
Proof.
  unfold attempt, catch, mbind, eff_bind. destruct (m s) as [[a|e] s1]; cbn; [by intros [= <- <-]|].
  destruct (e == panic); cbn; [done|]. by intros [= <- <-].
Qed.

Lemma GetSchedule_reach id : steps reach (GetSchedule id).
Proof. apply steps_gets, _. Qed.
#[export] Hint Resolve GetSchedule_reach : bm_reach.

Lemma edited_face in_ keys r : SUI_NextFireAt in_ = None → face (edited in_ keys r) = face r.
Proof. intros E. unfold edited. rewrite E. destruct (SUI_Enabled in_) as [[]|], keys as [[]|]; done. Qed.

(** An edit that sets no due time leaves the due times. *)
Lemma UpdateSchedule_reach (between : DB unit) in_ :
  steps reach between → SUI_NextFireAt in_ = None → steps reach (UpdateSchedule between in_).
Proof.
  intros Hb E. unfold UpdateSchedule, deliveryKeys. apply steps_bind; [apply _|by reach_walk|]. intros keys.
  apply steps_bind; [apply _|done|]. intros _. apply steps_bind; [apply _| |intros _].
  { destruct (writesSome in_); [|by reach_walk]. apply steps_bind; [apply _| |intros _; apply steps_ret, _].
    apply update_schedules_reach. intros r. by apply edited_face. }
  apply steps_bind; [apply _|done|]. intros _. reach_walk. unfold or_fail. by reach_walk.
Qed.

Lemma RecordFire_reach gen in_ : steps reach (RecordFire gen in_).
Proof.
  apply steps_transaction; [apply fresh_reach|]. apply steps_bind; [apply _| |].
  { apply update_schedules_reach. intros r. unfold fired. by destruct (RF_Failed in_), (RF_FireRef in_). }
  intros n. unfold now. reach_walk.
Qed.

Lemma rows_where_sublist {R} (p : R → bool) t : rows_where p t `sublist_of` t.
Proof.
  unfold rows_where. induction t as [|r t IH]; cbn; [done|]. destruct (p r); by constructor.
Qed.

Lemma DeleteSchedule_reach id : steps reach (DeleteSchedule id).
Proof.
  apply steps_transaction; [apply fresh_reach|]. intros s. unfold mbind, eff_bind, get.
  destruct (take_where (λ r, Sch_ID r == id) (st_schedules s)) as [row|]; [|reflexivity].
  apply kept_reach, kept_faces; [done|]. apply (fmap_sublist face). apply rows_where_sublist.
Qed.

(** ** The dispatcher *)

(** What other writers commit is a history too, and so is what starting an
    executor does. *)
Class Foreign (others : db.Store → db.Store) : Prop := foreign s : reach s (others s).

Class ExecutorLaws (R : relation Store) `{Executors} : Prop := {
  create_steps cmd : steps R (CreateTask cmd);
  start_steps start cmd : StartWorkflowRun = Some start → steps R (start cmd)
}.

(** The promise of the cron library: the next activation is later than the
    given time, and the zero time says that there is none. *)
Class CronLaws `{Cron} : Prop := next_later spec loc t :
  t < NextActivation spec loc t ∨ NextActivation spec loc t = 0.

Lemma Next_later `{CronLaws} cronExpr timezone t next :
  Next cronExpr timezone t = Ok next → t < next ∨ next = 0.
Proof.
  unfold Next. destruct (LoadLocation timezone); [|done]. destruct (Parse cronExpr); [|done].
  intros [= <-]. apply next_later.
Qed.

(** ** The dispatcher and its calls *)

(** A relation on stores, on the store of a dispatcher. *)
Definition on (R : relation Store) : relation Dispatch := λ d d', R (Di_Store d) (Di_Store d').

#[export] Instance on_preorder R `{!PreOrder R} : PreOrder (on R).
Proof. split; [intros d; unfold on; reflexivity|]. intros d1 d2 d3 H1 H2. unfold on in *. by etransitivity. Qed.

Lemma steps_on_store R {A} (m : DB A) : steps R m → steps (on R) (on_store m).
Proof. intros Hm d. specialize (Hm (Di_Store d)). unfold on, on_store. by destruct (m (Di_Store d)). Qed.

Lemma steps_executor R s {A} (m : DB A) : steps R m → steps (on R) (executor s m).
Proof. intros Hm d. specialize (Hm (Di_Store d)). unfold on, executor. by destruct (m (Di_Store d)). Qed.

Lemma on_store_eq {A} (m : DB A) d : on_store m d = ((m (Di_Store d)).1, d <| Di_Store := (m (Di_Store d)).2 |>).
Proof. unfold on_store. by destruct (m (Di_Store d)). Qed.

Lemma executor_eq s {A} (m : DB A) d :
  executor s m d = ((m (Di_Store d)).1, mkDispatch (m (Di_Store d)).2 (Di_Claimed d) (Di_Started d ++ [(Sc_ID s, Sc_NextFireAt s)])).
Proof. unfold executor. by destruct (m (Di_Store d)). Qed.

Lemma on_store_ok {A} (m : DB A) d a d' : on_store m d = (Ok a, d') →
  m (Di_Store d) = (Ok a, Di_Store d') ∧ Di_Started d' = Di_Started d.
Proof. rewrite on_store_eq. destruct (m (Di_Store d)) as [[]]; [|done]. by intros [= <- <-]. Qed.

Lemma claiming_eq in_ (m : DB bool) d : claiming in_ m d =
  ((m (Di_Store d)).1, mkDispatch (m (Di_Store d)).2
    (Di_Claimed d ++ match (m (Di_Store d)).1 with Ok true => [in_] | _ => [] end) (Di_Started d)).
Proof. unfold claiming. by destruct (m (Di_Store d)). Qed.

Lemma steps_claiming R in_ (m : DB bool) : steps R m → steps (on R) (claiming in_ m).
Proof. intros Hm d. specialize (Hm (Di_Store d)). rewrite claiming_eq. exact Hm. Qed.

(** A program that claims and starts nothing. *)
Definition still (d d' : Dispatch) : Prop := Di_Claimed d' = Di_Claimed d ∧ Di_Started d' = Di_Started d.

#[export] Instance still_preorder : PreOrder still.
Proof. split; [by split|]. intros a b c [E1 E2] [E3 E4]. split; congruence. Qed.

Lemma still_on_store {A} (m : DB A) : steps still (on_store m).
Proof. intros d. by rewrite on_store_eq. Qed.

(** A fate that used the due time up. *)
Definition started (f : fate) : bool := match f with Fired _ | NotStarted _ _ => true | _ => false end.

Definition dueOf (s : Schedule) : string * Z := (Sc_ID s, Sc_NextFireAt s).

(** What a dispatcher did with due times: it claimed one, or called a service
    to start the executor for one. *)
Inductive deed : Type := Claimed (c : string * Z) | Called (c : string * Z).

Definition claimedIn (ds : list deed) : list (string * Z) :=
  omap (λ x, match x with Claimed c => Some c | Called _ => None end) ds.
Definition calledIn (ds : list deed) : list (string * Z) :=
  omap (λ x, match x with Called c => Some c | Claimed _ => None end) ds.

Lemma omap_sublist {A B} (f : A → option B) l k : l `sublist_of` k → omap f l `sublist_of` omap f k.
Proof. induction 1; cbn; [done| |]; destruct (f x); [by constructor|done|by constructor|done]. Qed.

(** The claims are the dispatcher's own, among all those of the history. *)
Definition deeds (d : Dispatch) (ds : list deed) (d' : Dispatch) : Prop :=
  (∃ cs own, history (Di_Store d) cs (Di_Store d') ∧ own `sublist_of` cs
    ∧ Di_Claimed d' = Di_Claimed d ++ own ∧ map dueTime own = claimedIn ds)
  ∧ Di_Started d' = Di_Started d ++ calledIn ds
  ∧ calledIn ds `sublist_of` claimedIn ds.

#[export] Instance deeds_events : EventHistory deeds.
Proof.
  split.
  - intros d. unfold deeds, claimedIn, calledIn. cbn. rewrite !app_nil_r. split_and!; [|done|constructor].
    exists [], []. rewrite app_nil_r. split_and!; [constructor|constructor|done..].
  - intros d1 l1 d2 l2 d3 ((cs1 & own1 & H1 & O1 & K1 & E1) & S1 & L1) ((cs2 & own2 & H2 & O2 & K2 & E2) & S2 & L2).
    unfold deeds, claimedIn, calledIn in *. rewrite !omap_app. split_and!.
    + exists (cs1 ++ cs2), (own1 ++ own2). split_and!; [by eapply history_app|by apply sublist_app| |by rewrite map_app, E1, E2].
      by rewrite K2, K1, <- app_assoc.
    + by rewrite S2, S1, <- app_assoc.
    + by apply sublist_app.
Qed.

(** What a fate stands for. *)
Definition done_by (s : Schedule) (f : fate) : list deed :=
  match f with
  | Fired _ => [Claimed (dueOf s); Called (dueOf s)]
  | NotStarted _ _ => [Claimed (dueOf s)]
  | _ => []
  end.

(** The due times a sweep used up, and those of the executors it started. *)
Definition usedIn (fates : list (Schedule * fate)) : list (string * Z) :=
  map (λ x, dueOf x.1) (List.filter (λ x, started x.2) fates).
Definition firedIn (fates : list (Schedule * fate)) : list (string * Z) :=
  map (λ x, dueOf x.1) (List.filter (λ x, match x.2 with Fired _ => true | _ => false end) fates).

Lemma fates_deeds fates : let ds := concat (map (λ x, done_by x.1 x.2) fates) in
  claimedIn ds = usedIn fates ∧ calledIn ds = firedIn fates.
Proof.
  unfold claimedIn, calledIn, usedIn, firedIn. induction fates as [|[s f] fates [IH1 IH2]]; [done|].
  cbn in *. rewrite !omap_app, IH1, IH2. by destruct f.
Qed.

(** From any time [t] on, the program does at least [own] of its result. *)
Definition does {A} (t : Z) (m : Disp A) (own : A → list deed) : Prop :=
  logs deeds (λ d, t ≤ st_clock (Di_Store d)) m own.

Lemma deeds_clock t d ds d' : deeds d ds d' → t ≤ st_clock (Di_Store d) → t ≤ st_clock (Di_Store d').
Proof. intros ((cs & own & (Hc & _)%history_frame & _) & _) Ht. lia. Qed.

(** What the store went through without a claim or a call of the dispatcher's. *)
Lemma still_deeds d d' : reach (Di_Store d) (Di_Store d') → still d d' → deeds d [] d'.
Proof.
  intros [cs Hh] [Hc Hs]. unfold deeds, claimedIn, calledIn. cbn. rewrite !app_nil_r.
  split_and!; [|done|constructor]. exists cs, []. rewrite app_nil_r. split_and!; [done|apply sublist_nil_l|done..].
Qed.

(** A claim, and at most one call for the due time it took. *)
Lemma claim_deeds d cs in_ ns d' : history (Di_Store d) cs (Di_Store d') → in_ ∈ cs →
  Di_Claimed d' = Di_Claimed d ++ [in_] → Di_Started d' = Di_Started d ++ ns → ns `sublist_of` [dueTime in_] →
  deeds d (Claimed (dueTime in_) :: map Called ns) d'.
Proof.
  intros Hh Hin Hc Hs Hns.
  assert (claimedIn (map Called ns) = [] ∧ calledIn (map Called ns) = ns) as [Ec Es].
  { unfold claimedIn, calledIn. clear. induction ns as [|c ns [IH1 IH2]]; [done|]. cbn in *. by rewrite IH1, IH2. }
  unfold deeds, claimedIn, calledIn in *. cbn. rewrite Ec, Es.
  split_and!; [|done|done]. exists cs, [in_]. split_and!; [done|by apply singleton_sublist_l|done|done].
Qed.

Lemma idle_deeds {A} (m : Disp A) : steps still m → steps (on reach) m → steps (reaches deeds) m.
Proof. intros Hi Hm d. exists []. apply still_deeds; [apply Hm|apply Hi]. Qed.

Section Fires.
Context `{CronLaws} `{ExecutorLaws reach} (gen : nat → string) (others : db.Store → db.Store) `{!Foreign others}.
Context (eligible : option (db.Store → string → string → res eligibility.error unit)).
Context (contracts : option (db.Store → Schedule → option string)).
Context (maxFailures : Z).

Lemma after_reach {A} (m : DB A) : steps reach m → steps reach (after others m).
Proof. intros Hm s. etransitivity; [apply foreign|apply Hm]. Qed.

Lemma between_reach : steps reach ((λ s, (Ok tt, others s)) : DB unit).
Proof. intros s. change (reach s (others s)). apply foreign. Qed.

Lemma pause_reach id reason : steps reach (pause others id reason).
Proof.
  unfold pause. apply steps_bind; [apply _| |intros _; apply steps_ret, _].
  apply attempt_steps; [apply _|]. apply after_reach. by apply UpdateSchedule_reach; [apply between_reach|].
Qed.

Lemma recordFire_reach s now_ ref failed : steps reach (recordFire gen others s now_ ref failed).
Proof.
  unfold recordFire. apply steps_bind; [apply _| |intros _; apply steps_ret, _].
  apply attempt_steps; [apply _|]. apply after_reach, RecordFire_reach.
Qed.

Lemma startExecutor_reach s : steps (on reach) (startExecutor others contracts s).
Proof.
  unfold startExecutor. destruct (Sc_ExecutorKind s == ExecutorWorkflow).
  - destruct StartWorkflowRun as [start|] eqn:E; [|apply steps_fail, _].
    apply steps_bind; [apply _|by apply steps_executor; eapply start_steps|].
    intros [[run|] ?]; [apply steps_ret, _|apply steps_fail, _].
  - apply steps_bind; [apply _| |].
    { destruct contracts, (Sc_Delivery s); try apply steps_ret, _. apply steps_on_store, after_reach, steps_gets, _. }
    intros schema. apply steps_bind; [apply _|apply steps_executor, create_steps|]. intros task. apply steps_ret, _.
Qed.

Lemma fireClaimed_reach s now_ : steps (on reach) (fireClaimed gen others contracts maxFailures s now_).
Proof.
  unfold fireClaimed. apply steps_bind; [apply _|apply attempt_steps, startExecutor_reach; apply _|].
  intros [ref|e]; (apply steps_bind; [apply _|apply steps_on_store, recordFire_reach|intros _]); [apply steps_ret, _|].
  destruct (_ <=? _); [|apply steps_ret, _].
  apply steps_bind; [apply _|apply steps_on_store, pause_reach|]. intros _. apply steps_ret, _.
Qed.

Lemma checkCreator_reach s : steps reach (checkCreator others eligible s).
Proof.
  unfold checkCreator. destruct eligible as [check|]; [|apply steps_ret, _].
  destruct (Sc_CreatedBy s == ""); [apply steps_ret, _|].
  apply steps_bind; [apply _|apply after_reach, steps_gets, _|]. intros answer. apply steps_ret, _.
Qed.

(** Starting an executor calls for it at most once, and does if it answers. *)
Definition calls (s : Schedule) {A} (m : Disp A) (good : A → list (string * Z) → Prop) : Prop := ∀ d,
  Di_Claimed (m d).2 = Di_Claimed d
  ∧ ∃ ns, Di_Started (m d).2 = Di_Started d ++ ns ∧ ns `sublist_of` [dueOf s]
    ∧ match (m d).1 with Ok a => good a ns | Err _ => True end.

Lemma calls_still s {A} (m : Disp A) (good : A → list (string * Z) → Prop) :
  steps still m → (∀ d a, (m d).1 = Ok a → good a []) → calls s m good.
Proof.
  intros Hm Hg d. destruct (Hm d) as [E1 E2]. split; [done|]. exists []. rewrite app_nil_r.
  split_and!; [done|apply sublist_nil_l|]. specialize (Hg d). by destruct (m d).1; [apply Hg|].
Qed.

Lemma calls_then s {A B} (m : Disp A) (f : A → Disp B) good1 good : calls s m good1 →
  (∀ a, steps still (f a)) → (∀ a ns d b, good1 a ns → (f a d).1 = Ok b → good b ns) → calls s (m ≫= f) good.
Proof.
  intros Hm Hf Hg d. destruct (Hm d) as (Hc & ns & Hs & Hn & Ha). unfold mbind, eff_bind.
  destruct (m d) as [[a|e] d1]; cbn in *; [|by split; [|exists ns]]. destruct (Hf a d1) as [E1 E2].
  split; [congruence|]. exists ns. split_and!; [congruence|done|]. specialize (Hg a ns d1). destruct (f a d1).1; [by apply Hg|done].
Qed.

Lemma still_then s {A B} (m : Disp A) (f : A → Disp B) good :
  steps still m → (∀ a, calls s (f a) good) → calls s (m ≫= f) good.
Proof.
  intros Hm Hf d. destruct (Hm d) as [E1 E2]. unfold mbind, eff_bind. destruct (m d) as [[a|e] d1]; cbn in *.
  - destruct (Hf a d1) as (Hc & ns & Hs & Hn & Ha). split; [congruence|]. exists ns. by split_and!; [congruence|..].
  - split; [done|]. exists []. by rewrite app_nil_r; split_and!; [|apply sublist_nil_l|].
Qed.

Lemma calls_executor s {A} (m : DB A) : calls s (executor s m) (λ _ ns, ns = [dueOf s]).
Proof. intros d. rewrite executor_eq. split; [done|]. exists [dueOf s]. by destruct (m (Di_Store d)).1. Qed.

Lemma startExecutor_calls s : calls s (startExecutor others contracts s) (λ _ ns, ns = [dueOf s]).
Proof using Type.
  unfold startExecutor. destruct (Sc_ExecutorKind s == ExecutorWorkflow).
  - destruct StartWorkflowRun as [start|]; [|apply calls_still; [apply steps_fail, _|done]].
    eapply calls_then; [apply calls_executor| |by intros].
    intros [[run|] ?]; [apply steps_ret, _|apply steps_fail, _].
  - apply still_then.
    { destruct contracts, (Sc_Delivery s); (apply steps_ret, _ || apply still_on_store). }
    intros schema. eapply calls_then; [apply calls_executor| |by intros]. intros task. apply steps_ret, _.
Qed.

Lemma calls_attempt s {A} (m : Disp A) good :
  calls s m good → calls s (attempt m) (λ r ns, match r with Ok a => good a ns | Err _ => True end).
Proof.
  intros Hm d. destruct (Hm d) as (Hc & ns & Hs & Hn & Ha). unfold attempt, catch, mbind, eff_bind.
  destruct (m d) as [[a|e] d1]; cbn in *; [by split; [|exists ns]|].
  destruct (e == panic); cbn; (split; [done|by exists ns]).
Qed.

(** A claimed due time is used up; if the executor started, it was called for. *)
Lemma fireClaimed_calls s now_ : calls s (fireClaimed gen others contracts maxFailures s now_)
  (λ f ns, calledIn (done_by s f) `sublist_of` ns ∧ started f = true).
Proof using Type.
  eapply calls_then; [apply calls_attempt, startExecutor_calls| |].
  - intros [ref|e]; (apply steps_bind; [apply _|apply still_on_store|intros _]); [apply steps_ret, _|].
    destruct (_ <=? _); [|apply steps_ret, _]. apply steps_bind; [apply _|apply still_on_store|intros _; apply steps_ret, _].
  - intros [ref|e] ns d f Hns E.
    + subst ns. unfold mbind, eff_bind in E. destruct (on_store _ d) as [[]]; [|done]. by injection E as <-.
    + assert (∃ b, f = NotStarted e b) as [b ->]; [|by split; [apply sublist_nil_l|]].
      unfold mbind, eff_bind in E. destruct (on_store _ d) as [[] d1]; [|done]. destruct (_ <=? _); [|injection E as <-; eauto].
      destruct (on_store _ d1) as [[] d2]; [|done]. injection E as <-. eauto.
Qed.

Definition claimOf (s : Schedule) (next : Z) : ClaimInput := {|
  Cl_ScheduleID := Sc_ID s; Cl_ExpectedNextFireAt := Sc_NextFireAt s; Cl_NewNextFireAt := next |}.

(** The claim of a due time, and what follows it. *)
Definition claimFire (s : Schedule) (now_ next : Z) : Disp fate :=
  claimed ← attempt (claiming (claimOf s next) (after others (ClaimSchedule (claimOf s next))));
  match claimed with
  | Err e => mret (ClaimFailed e)
  | Ok false => mret NotClaimed
  | Ok true => fireClaimed gen others contracts maxFailures s now_
  end.

(** A claim is won where the schedule is enabled and due at the time expected. *)
Definition wins (s : Schedule) (next : Z) (st : Store) : bool :=
  (matching (claims (claimOf s next)) (st_schedules st) =? 1)%nat.

Definition claimedFor (s : Schedule) (next : Z) (st : Store) (d : Dispatch) : Dispatch :=
  mkDispatch (ClaimSchedule (claimOf s next) st).2
    (Di_Claimed d ++ if wins s next st then [claimOf s next] else []) (Di_Started d).

Lemma claimFire_eq s now_ next d : claimFire s now_ next d =
  let st := others (Di_Store d) in
  let d1 := claimedFor s next st d in
  if wins s next st then fireClaimed gen others contracts maxFailures s now_ d1 else (Ok NotClaimed, d1).
Proof using Type.
  unfold claimFire, claimedFor, wins. unfold mbind at 1, eff_bind at 1, attempt, catch. unfold mbind at 1, eff_bind at 1.
  rewrite claiming_eq. unfold after. rewrite (ClaimSchedule_eq (claimOf s next) (others (Di_Store d))).
  destruct (matching _ _ =? 1)%nat; [done|]. cbn. by rewrite app_nil_r.
Qed.

Lemma claimFire_does s now_ next : Sc_NextFireAt s ≤ now_ → now_ < next ∨ next = 0 →
  does now_ (claimFire s now_ next) (done_by s).
Proof using Foreign0 H0 H2.
  intros Hd Hn d Hc. rewrite claimFire_eq. cbv zeta.
  destruct (foreign (Di_Store d)) as [cs1 Hh1]. destruct (history_frame _ _ _ Hh1) as (Hc' & _).
  set (st := others (Di_Store d)) in *. set (d1 := claimedFor s next st d).
  assert (history (Di_Store d) (cs1 ++ (if wins s next st then [claimOf s next] else [])) (Di_Store d1)) as Hh2.
  { eapply history_app; [exact Hh1|]. match goal with |- history _ ?l _ => rewrite <- (app_nil_r l) end.
    eapply history_claim; [apply (ClaimSchedule_eq (claimOf s next))|cbn; lia|cbn; lia|constructor]. }
  assert (Di_Claimed d1 = Di_Claimed d ++ if wins s next st then [claimOf s next] else []) as Hcl by done.
  assert (Di_Started d1 = Di_Started d) as Hst1 by done. clearbody d1. destruct (wins s next st).
  2: { exists []. split; [|apply sublist_nil_l]. rewrite app_nil_r in Hcl. by apply still_deeds; [eexists|split]. }
  pose proof (fireClaimed_reach s now_ d1) as [cs2 Hh3].
  destruct (fireClaimed_calls s now_ d1) as (Hcl' & ns & Hns & Hsub & Hown).
  destruct (fireClaimed gen others contracts maxFailures s now_ d1) as [r d']. cbn in *.
  exists (Claimed (dueOf s) :: map Called ns). split.
  - apply (claim_deeds d _ (claimOf s next) ns d' (history_app _ _ _ _ _ Hh2 Hh3)); [set_solver|congruence|congruence|exact Hsub].
  - destruct r as [f|]; [|done]. destruct Hown as [Ho Hst].
    destruct f; try done; cbn in *; apply sublist_skip; [apply sublist_nil_l|]. by apply (fmap_sublist Called) in Ho.
Qed.

(** A schedule that is due is fired on a claim of its own. *)
Lemma fireOne_does s now_ : Sc_NextFireAt s ≤ now_ →
  does now_ (fireOne gen others eligible contracts maxFailures s now_) (done_by s).
Proof using Foreign0 H0 H2.
  intros Hd. unfold fireOne.
  assert (∀ f, started f = false → does now_ (mret f) (done_by s)) as Hret.
  { intros f E. apply (logs_ret deeds). by destruct f. }
  assert (∀ m f, steps reach m → started f = false → does now_ (_ ← on_store (m : DB unit); mret f) (done_by s)) as Hpause.
  { intros m f Hm E. apply (logs_after _ _ (deeds_clock _)); [|intros _; by apply Hret].
    apply idle_deeds; [apply still_on_store|by apply steps_on_store]. }
  destruct (Next (Sc_CronExpr s) (Sc_Timezone s) now_) as [next|e] eqn:En; [|apply Hpause; [apply pause_reach|done]].
  apply (logs_after _ _ (deeds_clock _)); [apply idle_deeds; [apply still_on_store|apply steps_on_store, checkCreator_reach]|].
  intros [| |reason]; [|by apply Hret|by apply Hpause; [apply pause_reach|]].
  destruct (_ <=? _); [by apply Hpause; [apply pause_reach|]|].
  apply (claimFire_does s now_ next); [done|by eapply Next_later].
Qed.

Lemma due_spec now_ limit s r : r ∈ toSchedules s (workflowdb.page limit 0 (by_due (rows_where (due now_) (scheduleSelect s)))) →
  Sc_NextFireAt r ≤ now_.
Proof.
  unfold toSchedules. intros (row & -> & Hin)%list_elem_of_fmap. unfold workflowdb.page in Hin.
  assert (row ∈ by_due (rows_where (due now_) (scheduleSelect s))) as Hd.
  { eapply elem_of_sublist; [exact Hin|]. etransitivity; [apply sublist_take|apply sublist_drop]. }
  unfold by_due in Hd. rewrite merge_sort_Permutation in Hd. apply list_elem_of_In, filter_In in Hd as [_ Hd].
  unfold due in Hd. apply andb_true_iff in Hd as [_ Hd%Z.leb_le]. exact Hd.
Qed.

Lemma fires_does now_ l : (∀ s, s ∈ l → Sc_NextFireAt s ≤ now_) →
  does now_ (mapM (λ s, f ← fireOne gen others eligible contracts maxFailures s now_; mret (s, f)) l)
    (λ fates, concat (map (λ x, done_by x.1 x.2) fates)).
Proof using Foreign0 H0 H2.
  intros Hl. apply (logs_mapM _ _ (deeds_clock _)). intros s Hs.
  eapply (logs_then deeds); [apply fireOne_does; by apply Hl|intros ?; apply steps_ret, _|].
  intros f st b st' Eb. by apply ret_ok in Eb as [-> _].
Qed.

(** A sweep from the time it read. *)
Lemma sweep_eq d : sweep gen others eligible contracts maxFailures d =
  let now_ := st_clock (others (Di_Store d)) in let st := others (others (Di_Store d)) in
  mapM (λ s, f ← fireOne gen others eligible contracts maxFailures s now_; mret (s, f))
    (toSchedules st (workflowdb.page scheduleDueBatch 0 (by_due (rows_where (due now_) (scheduleSelect st)))))
    (d <| Di_Store := st |>).
Proof using Type. reflexivity. Qed.

Lemma sweep_deeds d : let '(r, d') := sweep gen others eligible contracts maxFailures d in
  ∃ ds, deeds d ds d' ∧ match r with Ok fates => concat (map (λ x, done_by x.1 x.2) fates) `sublist_of` ds | Err _ => True end.
Proof using Foreign0 H0 H2.
  rewrite sweep_eq. cbv zeta. set (now_ := st_clock _). set (st := others _).
  destruct (foreign (Di_Store d)) as [cs1 Hh1], (foreign (others (Di_Store d))) as [cs2 Hh2].
  assert (deeds d [] (d <| Di_Store := st |>)) as D1 by (apply still_deeds; [eexists; by eapply history_app|done]).
  destruct (fires_does now_ (toSchedules st (workflowdb.page scheduleDueBatch 0 (by_due (rows_where (due now_) (scheduleSelect st)))))
    (λ s, due_spec _ _ _ _) (d <| Di_Store := st |>)) as (ds & D2 & Hown).
  { cbn. by destruct (history_frame _ _ _ Hh2). }
  match goal with |- context [let '(_, _) := ?x in _] => destruct x as [r d'] end. exists ds.
  split; [|done]. by apply (events_app _ [] _ _ _ D1).
Qed.

(** C22: A due time is fired at most once.  A sweep starts executors only on
    claims of its own: whatever it answers, and whatever other replicas and
    writers commit while it runs, each call it makes to start an executor, and
    each firing it reports, is for a due time whose claim it won, one call to a
    claim.  And for a schedule that no claim left without a next due time, each
    due time is claimed at most once, by whatever replica, during the sweep and in
    any later history.  The others may claim and write, but do not bring back a
    due time that has passed.  The exception is a rule that never comes due again:
    the cron library then answers the zero time, and the schedule stays due. *)
Theorem sweep_fires_once d : keyed (Di_Store d) →
  let '(r, d') := sweep gen others eligible contracts maxFailures d in
  ∃ cs won called, history (Di_Store d) cs (Di_Store d')
    ∧ Di_Claimed d' = Di_Claimed d ++ won ∧ won `sublist_of` cs
    ∧ Di_Started d' = Di_Started d ++ called ∧ called `sublist_of` map dueTime won
    ∧ match r with
      | Ok fates => firedIn fates `sublist_of` called ∧ usedIn fates `sublist_of` map dueTime won
      | Err _ => True
      end
    ∧ ∀ id, recurs cs id →
        NoDup (duesOf id cs)
        ∧ ∀ later cs', history (Di_Store d') cs' later → recurs cs' id →
            ∀ c, c ∈ duesOf id cs → c ∉ map dueTime cs'.
Proof using Foreign0 H0 H2.
  intros Hk. pose proof (sweep_deeds d) as Hd. destruct (sweep gen others eligible contracts maxFailures d) as [r d'].
  destruct Hd as (ds & ((cs & own & Hh & Ho & Hcl & Ecs) & Hs & Hsub) & Hown). exists cs, own, (calledIn ds). rewrite Ecs. split_and!; [done..| |].
  - destruct r as [fates|]; [|done]. destruct (fates_deeds fates) as [<- <-]. split; by apply omap_sublist.
  - intros id Hr. destruct (history_once _ _ _ _ Hh Hk Hr) as [Hn Hp]. split; [done|].
    intros later cs' Hl Hr' c Hc. destruct (Hp c Hc) as [Hle Hpc].
    eapply passed_not_claimed; [exact Hl|by apply (history_frame _ _ _ Hh)|exact Hle| |exact Hpc].
    apply elem_of_duesOf in Hc as [_ ->]. exact Hr'.
Qed.
End Fires.
