(* ===== verification/ScheduleExecutors.v ===== *)
(** * ScheduleExecutors: what a firing starts leaves the schedules

    The stores of tasks and workflows touch neither the due time nor the rule of
    a schedule: their operations are [calm].  The services over them are then in
    every relation that takes in the calm changes and what other writers commit,
    and among these are the histories of [ScheduleLaws]: [executors_laws]
    discharges the interface the dispatcher's theorems are proved against. *)

From S2P Require Import Prelude EffLogic Text Json JsonSchema TaskCore WorkflowCore WorkflowGraph WorkflowDefinition Store.
From S2P Require Import TaskStore WorkflowStore WorkflowLifecycle StoreProgram TaskService WorkflowSafety.
From S2P Require Import WorkflowReconcile ReconcileMoves ReconcileSafety WorkflowCommands ScheduleStore ScheduleDispatch ScheduleLaws.
From stdpp Require Import gmap pretty.
Import db taskdb workflowdb.
Import coretask.
Import coreworkflow.

(** ** The stores *)

Definition calm (s s' : Store) : Prop :=
  st_clock s' = st_clock s ∧ faces s' = faces s ∧ rules s' = rules s.

#[export] Instance calm_preorder : PreOrder calm.
Proof. split; [by intros s|]. intros a b c (E1 & E2 & E3) (E4 & E5 & E6). split_and!; congruence. Qed.

(** A relation that takes in the calm changes and what other writers commit.
    All that follows holds of any such relation. *)
Class Wide (R : relation Store) (others : Store → Store) : Prop := {
  #[global] wide_preorder :: PreOrder R;
  wide_calm s s' : calm s s' → R s s';
  wide_others s : R s (others s)
}.

Lemma calm_wide R others `{!Wide R others} {A} (m : DB A) : steps calm m → steps R m.
Proof. intros Hm s. apply (wide_calm (others := others)), Hm. Qed.

Lemma calm_fold k b : steps calm (foldScheduleOutcome k b).
Proof.
  unfold foldScheduleOutcome. apply steps_bind; [apply _| |intros _; apply steps_ret, _].
  intros s. split_and!; [done|by apply faces_update|by apply rules_update].
Qed.

Create HintDb bm_calm.
#[export] Hint Extern 1 (PreOrder _) => typeclasses eauto : bm_calm.
#[export] Hint Resolve steps_ret steps_fail steps_gets steps_get steps_lookupKey steps_optionalKey
  steps_createWithPublicID steps_take calm_fold : bm_calm.
#[export] Hint Extern 2 (∀ s n, calm s _) => (intros; split_and!; reflexivity) : bm_calm.

Ltac calm_walk :=
  repeat lazymatch goal with
  | |- forall _, _ => intro
  | |- steps _ (mbind (fun s => put _) get) => intros ?; split_and!; reflexivity
  | |- steps _ (mbind (fun s => mbind _ (put _)) get) => apply steps_modify_at
  | |- steps _ (mbind (fun s => if _ then fail _ else mbind _ (put _)) get) => apply steps_guarded_modify
  | |- steps _ (mbind _ _) => apply steps_bind
  | |- steps _ (catch _ _) => apply steps_catch
  | |- steps _ (asNotFound _) => apply steps_asNotFound
  | |- steps _ (transaction _) => apply steps_transaction
  | |- steps _ (let _ := _ in _) => cbv zeta
  | |- steps _ (match ?x with _ => _ end) => destruct x
  | |- steps _ (or_fail _ ?x) => destruct x; cbn [or_fail]
  | |- steps _ _ => first [solve [eauto 3 with bm_calm] | intros ?; split_and!; reflexivity]
  | |- PreOrder _ => typeclasses eauto
  | |- calm _ _ => solve [split_and!; reflexivity]
  end.

Section Ops.
Context (gen session : nat → string).

Lemma calm_RequestTaskRunCancel id by_ reason at_ : steps calm (RequestTaskRunCancel id by_ reason at_).
Proof. unfold RequestTaskRunCancel. calm_walk. Qed.

Lemma calm_TransitionTaskRun in_ : steps calm (TransitionTaskRun in_).
Proof. unfold TransitionTaskRun, now. calm_walk. Qed.

Lemma calm_newTaskRows in_ : steps calm (newTaskRows session in_).
Proof. unfold newTaskRows, now. calm_walk. Qed.

Lemma calm_createTaskAndRunTx in_ t r : steps calm (createTaskAndRunTx gen in_ t r).
Proof. unfold createTaskAndRunTx, conversationInSpace, sourceMessage, insertTask, insertTaskRun. cbv zeta. calm_walk. Qed.

Lemma calm_createTaskRunTx id in_ : steps calm (createTaskRunTx gen id in_).
Proof. unfold createTaskRunTx, sourceMessage, insertTaskRun, now. cbv zeta. calm_walk. Qed.
End Ops.
#[export] Hint Resolve calm_RequestTaskRunCancel calm_TransitionTaskRun calm_newTaskRows
  calm_createTaskAndRunTx calm_createTaskRunTx : bm_calm.

Section WorkflowOps.
Context (gen session : nat → string).

Lemma calm_CreateTask in_ : steps calm (CreateTask gen session in_).
Proof. unfold CreateTask. calm_walk. Qed.

Lemma calm_CreateWorkflowRun in_ : steps calm (CreateWorkflowRun gen in_).
Proof. unfold CreateWorkflowRun, now, lookupIfSet. calm_walk. Qed.

Lemma calm_CreateWorkflowNodeRuns id l : steps calm (CreateWorkflowNodeRuns gen id l).
Proof.
  assert (∀ at_, steps calm (insertNodeRuns gen id at_ l)) as H.
  { intros at_. induction l as [|i l IH]; cbn [insertNodeRuns]; unfold insertNodeRun, lookupIfSet; calm_walk. }
  unfold CreateWorkflowNodeRuns, now. destruct l; calm_walk.
Qed.

Lemma calm_TransitionWorkflowRun in_ : steps calm (TransitionWorkflowRun in_).
Proof. unfold TransitionWorkflowRun. calm_walk. Qed.

Lemma calm_TransitionWorkflowNodeRun in_ : steps calm (TransitionWorkflowNodeRun in_).
Proof. unfold TransitionWorkflowNodeRun, stepTransitionUpdates, lookupIfSet. calm_walk. Qed.

Lemma calm_BeginWorkflowRunDrain in_ : steps calm (BeginWorkflowRunDrain in_).
Proof. unfold BeginWorkflowRunDrain, stopPendingNodesTx, lookupIfSet, now. calm_walk. Qed.

Lemma calm_StopWorkflowRun in_ : steps calm (StopWorkflowRun in_).
Proof. unfold StopWorkflowRun, stopPendingNodesTx, now. calm_walk. Qed.

Lemma calm_OpenWorkflowRequest in_ : steps calm (OpenWorkflowRequest gen in_).
Proof. unfold OpenWorkflowRequest, openRequestTx, GetWorkflowRequest. calm_walk. Qed.

Lemma calm_ResolveWorkflowRequest in_ : steps calm (ResolveWorkflowRequest in_).
Proof. unfold ResolveWorkflowRequest. calm_walk. Qed.

Lemma calm_ClaimWorkflowRunLease in_ : steps calm (ClaimWorkflowRunLease in_).
Proof. unfold ClaimWorkflowRunLease. calm_walk. Qed.

Lemma calm_ReleaseWorkflowRunLease in_ : steps calm (ReleaseWorkflowRunLease in_).
Proof. unfold ReleaseWorkflowRunLease. calm_walk. Qed.

Lemma calm_newPublicID : steps calm (newPublicID gen).
Proof. unfold newPublicID. calm_walk. Qed.
End WorkflowOps.
#[export] Hint Resolve calm_CreateTask calm_CreateWorkflowRun calm_CreateWorkflowNodeRuns calm_TransitionWorkflowRun
  calm_TransitionWorkflowNodeRun calm_BeginWorkflowRunDrain calm_StopWorkflowRun calm_OpenWorkflowRequest
  calm_ResolveWorkflowRequest calm_ClaimWorkflowRunLease calm_ReleaseWorkflowRunLease calm_newPublicID : bm_calm.

Lemma calm_GetWorkflowRevision id n : steps calm (GetWorkflowRevision id n).
Proof. unfold GetWorkflowRevision, or_empty. calm_walk. Qed.

Lemma calm_ListWorkflowNodeRuns id : steps calm (ListWorkflowNodeRuns id).
Proof. unfold ListWorkflowNodeRuns, or_empty. calm_walk. Qed.

Lemma calm_GetWorkflowRequest id : steps calm (GetWorkflowRequest id).
Proof. unfold GetWorkflowRequest. calm_walk. Qed.
#[export] Hint Resolve calm_GetWorkflowRevision calm_ListWorkflowNodeRuns calm_GetWorkflowRequest : bm_calm.

Section Admissions.
Context (gen session : nat → string).

Lemma calm_admitWorkflowNodeTask in_ : steps calm (admitWorkflowNodeTask gen session in_).
Proof. unfold admitWorkflowNodeTask, admitNodeTaskTx, admittedTaskOrConflict, taskByAdmissionKey, GetTask. calm_walk. Qed.

Lemma calm_CreateTaskRun in_ : steps calm (CreateTaskRun gen in_).
Proof. unfold CreateTaskRun, taskdb.CreateTaskRun, admitWorkflowNodeRetryRun, admitNodeRetryTx. calm_walk. Qed.
End Admissions.
#[export] Hint Resolve calm_admitWorkflowNodeTask calm_CreateTaskRun : bm_calm.

(** ** The task service *)

Section TaskService.
Import taskservice.
Context (gen session : nat → string) (others : db.Store → db.Store) (R : relation db.Store) `{!Wide R others}.
Context (agents : db.Store → agentdef.Store error).
Context (QuotaChecker : option (db.Store → string → Z → Z → res error (option string))).
Context (TitleGenerator : option (string → res error (string * Z * Z))).

Lemma calm_steps {A} (m : DB A) : steps calm m → steps R m.
Proof using Wide0. exact (calm_wide R others m). Qed.

Lemma after_steps {A} (m : DB A) : steps R m → steps R (after others m).
Proof using Wide0. intros Hm s. etransitivity; [apply wide_others|apply Hm]. Qed.

Lemma after_calm_wide {A} (m : DB A) : steps calm m → steps R (after others m).
Proof using Wide0. intros Hm. by apply after_steps, calm_steps. Qed.

Lemma between_steps : steps R ((λ s, (Ok tt, others s)) : DB unit).
Proof using Wide0. intros s. change (R s (others s)). apply wide_others. Qed.

Lemma checkQuota_wide spaceID tokens : steps R (checkQuota others QuotaChecker spaceID tokens).
Proof using Wide0.
  unfold checkQuota. destruct QuotaChecker as [Check|]; [|apply steps_ret, _].
  destruct (spaceID == ""); [apply steps_ret, _|]. apply steps_bind; [apply _| |].
  { apply after_calm_wide. by intros s. }
  intros [reason|]; [apply steps_fail, _|apply steps_ret, _].
Qed.

Lemma readAgent_wide id : steps R (readAgent others agents id).
Proof using Wide0. apply after_calm_wide. by intros s. Qed.

Lemma buildCreateInput_wide cmd : steps R (buildCreateInput others agents QuotaChecker TitleGenerator cmd).
Proof using Wide0.
  unfold buildCreateInput. apply steps_bind; [apply _| |].
  { unfold resolveInput. destruct (util.ExceedsByteLimit _ _); [apply steps_fail, _|].
    destruct (ref_of _) as [id|]; [|destruct (blankInput _); [apply steps_fail, _|apply steps_ret, _]].
    apply steps_bind; [apply _|apply readAgent_wide|]. intros [agent|]; [|apply steps_fail, _].
    destruct (_ != _); [apply steps_fail, _|]. destruct (negb _); apply steps_ret, _. }
  intros [[input agentID] agent]. apply steps_bind; [apply _|apply checkQuota_wide|]. intros _.
  destruct (normalizeCreateTaskProvenance _ _) as [by_ source]. cbv zeta.
  destruct (resolveTitle _ _ _) as [[title p] c]. apply steps_ret, _.
Qed.

Lemma CreateTask_wide cmd : steps R (taskservice.CreateTask gen session others agents QuotaChecker TitleGenerator cmd).
Proof using Wide0.
  unfold taskservice.CreateTask. apply steps_bind; [apply _|apply buildCreateInput_wide|]. intros create.
  apply after_calm_wide, calm_CreateTask.
Qed.

Lemma admittedTaskOrConflict_calm t fp : steps calm (admittedTaskOrConflict t fp).
Proof. unfold admittedTaskOrConflict, GetTask. calm_walk. Qed.

Lemma AdmitTask_wide between in_ : steps R between → steps R (AdmitTask gen session between in_).
Proof.
  intros Hb. unfold AdmitTask, taskdb.AdmitTask, taskByAdmissionKey.
  destruct (CI_AdmissionKey in_ == ""%string); [apply steps_fail, _|].
  destruct (CI_WorkflowNodeRunID in_ != ""%string); [apply calm_steps, calm_admitWorkflowNodeTask|].
  apply steps_bind; [apply _|apply steps_gets, _|]. intros [t|]; [apply calm_steps, admittedTaskOrConflict_calm|].
  apply steps_bind; [apply _|apply calm_steps, calm_newTaskRows|]. intros rows.
  apply steps_bind; [apply _|done|]. intros _.
  apply steps_catch; [apply _|apply calm_steps; calm_walk|]. intros e. apply calm_steps.
  destruct (e == ErrDuplicateKey); [|apply steps_fail, _].
  apply steps_bind; [apply _|apply steps_gets, _|]. intros [t|]; [apply admittedTaskOrConflict_calm|apply steps_fail, _].
Qed.

Lemma AdmitWorkflowTask_wide cmd :
  steps R (AdmitWorkflowTask gen session others agents QuotaChecker TitleGenerator cmd).
Proof using Wide0.
  unfold AdmitWorkflowTask. destruct (CTC_AdmissionKey cmd == ""%string); [apply steps_fail, _|].
  apply steps_bind; [apply _|apply buildCreateInput_wide|]. intros create.
  by apply after_steps, AdmitTask_wide, between_steps.
Qed.

Lemma admitWorkflowNodeRun_wide userID previous in_ :
  steps R (admitWorkflowNodeRun gen others QuotaChecker userID previous in_).
Proof using Wide0.
  unfold admitWorkflowNodeRun. apply steps_bind; [apply _|apply after_calm_wide; unfold GetTask; calm_walk|].
  intros [target|]; [|apply steps_fail, _]. apply steps_bind; [apply _|apply checkQuota_wide|]. intros _.
  apply after_calm_wide, calm_CreateTaskRun.
Qed.

Lemma RequestRunCancel_wide id userID reason at_ : steps R (RequestRunCancel others id userID reason at_).
Proof using Wide0.
  unfold RequestRunCancel. apply steps_bind; [apply _|apply after_calm_wide, calm_RequestTaskRunCancel|]. intros _.
  apply after_calm_wide, calm_TransitionTaskRun.
Qed.
End TaskService.

(** ** The workflow service *)

Class TaskServiceWide (R : relation db.Store) `{taskservice.TaskService} : Prop := {
  reach_task cmd : steps R (taskservice.ts_AdmitWorkflowTask cmd);
  reach_retry cmd : steps R (taskservice.ts_AdmitWorkflowRetryRun cmd);
  reach_answer cmd : steps R (taskservice.ts_AdmitWorkflowAnswerRun cmd);
  reach_cancel id userID reason at_ : steps R (taskservice.ts_RequestRunCancel id userID reason at_)
}.

#[export] Instance service_wide gen session others agents QuotaChecker TitleGenerator R `{!Wide R others} :
  @TaskServiceWide R (taskservice.service gen session others agents QuotaChecker TitleGenerator).
Proof.
  split; intros.
  - exact (AdmitWorkflowTask_wide _ _ _ R _ _ _ cmd).
  - exact (admitWorkflowNodeRun_wide _ _ R _ _ _ _).
  - exact (admitWorkflowNodeRun_wide _ _ R _ _ _ _).
  - exact (RequestRunCancel_wide _ R _ _ _ _).
Qed.

Section Reconcile.
Import taskservice workflow.
Context {env : Env} (R : relation db.Store) `{!Wide R others} {ts : TaskService} {Hts : TaskServiceWide R}.

Lemma call_wide {A} (m : DB A) : steps calm m → steps R (call m).
Proof using Wide0. exact (after_calm_wide others R m). Qed.

#[local] Hint Resolve reach_task reach_retry reach_answer reach_cancel : bm_reach.

Ltac start_walk :=
  repeat lazymatch goal with
  | |- forall _, _ => intro
  | |- steps _ (mbind _ _) => apply steps_bind; [apply _| |]
  | |- steps _ (catch _ _) => apply steps_catch; [apply _| |]
  | |- steps _ (call _) => apply call_wide; solve [calm_walk]
  | |- steps _ (let _ := _ in _) => cbv zeta
  | |- steps _ (match ?x with _ => _ end) => destruct x
  | |- steps _ (or_fail _ ?x) => destruct x; cbn [or_fail]
  | |- steps _ _ => first [solve [eauto 3 with bm_reach]|apply (calm_steps others R); solve [calm_walk]]
  end.

Lemma failAdmission_wide run node from msg started at_ {A} e :
  steps R (failAdmission (A := A) run node from msg started at_ e).
Proof. unfold failAdmission. start_walk. Qed.
#[local] Hint Resolve failAdmission_wide : bm_reach.

Lemma stepTaskRun_wide step : steps R (stepTaskRun step).
Proof. unfold stepTaskRun, GetTaskRun. start_walk. Qed.

Lemma runDefinition_wide run : steps R (runDefinition run).
Proof. unfold runDefinition. start_walk. Qed.
#[local] Hint Resolve stepTaskRun_wide runDefinition_wide : bm_reach.

Lemma bindingSourceDocument_wide run source siblings : steps R (bindingSourceDocument run source siblings).
Proof. unfold bindingSourceDocument, nodeOutputEnvelope, nodeArtifacts. start_walk. Qed.
#[local] Hint Resolve bindingSourceDocument_wide : bm_reach.

Lemma resolveStepBindings_wide run step siblings : steps R (resolveStepBindings run step siblings).
Proof.
  unfold resolveStepBindings. generalize (NR_Bindings step). intros bindings.
  induction bindings as [|b bindings IH]; cbn; unfold selectPointer; start_walk.
Qed.
#[local] Hint Resolve resolveStepBindings_wide : bm_reach.

Lemma openInputRequest_wide run node steps_ at_ : steps R (openInputRequest run node steps_ at_).
Proof. unfold openInputRequest. start_walk. Qed.

Lemma applyAnswer_wide run node req at_ : steps R (applyAnswer run node req at_).
Proof. unfold applyAnswer, GetTaskRun. start_walk. Qed.
#[local] Hint Resolve openInputRequest_wide applyAnswer_wide : bm_reach.

Lemma foldWaiting_wide run latest at_ l : ∀ wake, steps R (foldWaiting run latest at_ wake l).
Proof. induction l as [|node l IH]; intros wake; cbn; start_walk. Qed.

Lemma foldWaitingNodes_wide run l at_ : steps R (foldWaitingNodes run l at_).
Proof. unfold foldWaitingNodes. start_walk. apply foldWaiting_wide. Qed.

Lemma foldRunning_wide run at_ l : ∀ active, steps R (foldRunning run at_ active l).
Proof.
  induction l as [|step l IH]; intros active; cbn;
    unfold cancelTimedOutAttempt, openQuestionRequest, applyNodeSuccess, scheduleRetry, finalizeFailedFromNode, GetTaskRun;
    start_walk.
Qed.
#[local] Hint Resolve foldWaitingNodes_wide foldRunning_wide : bm_reach.

Lemma createStepTask_wide spaceID userID run step siblings :
  steps R (createStepTask spaceID userID run step siblings).
Proof. unfold createStepTask, stepAgent. start_walk. Qed.
#[local] Hint Resolve createStepTask_wide : bm_reach.

Lemma dispatchNode_wide userID run l spaceID step : steps R (dispatchNode userID run l spaceID step).
Proof. unfold dispatchNode, now. start_walk. Qed.

Lemma dispatchRetry_wide userID run node : steps R (dispatchRetry userID run node).
Proof. unfold dispatchRetry, now. start_walk. Qed.
#[local] Hint Resolve dispatchNode_wide dispatchRetry_wide : bm_reach.

Lemma dispatchLoop_wide userID run l limit at_ rest : ∀ d,
  steps R (dispatchLoop userID run l limit at_ d rest).
Proof. induction rest as [|step rest IH]; intros d; cbn; start_walk. Qed.

Lemma dispatchReadyNodes_wide spaceID userID run l limit at_ :
  steps R (dispatchReadyNodes spaceID userID run l limit at_).
Proof.
  unfold dispatchReadyNodes, resolveRunResult, selectPointer, now. cbv zeta.
  apply steps_bind; [apply _|apply dispatchLoop_wide|]. start_walk.
Qed.

Lemma drainNodes_wide at_ l : ∀ active, steps R (drainNodes at_ active l).
Proof. induction l as [|node l IH]; intros active; cbn; start_walk. Qed.

Lemma drainRun_wide run l at_ : steps R (drainRun run l at_).
Proof. unfold drainRun. apply steps_bind; [apply _|apply drainNodes_wide|]. start_walk. Qed.
#[local] Hint Resolve dispatchReadyNodes_wide drainRun_wide : bm_reach.

Lemma passStep_wide again id at_ : steps R again → steps R (passStep again id at_).
Proof. intros Ha. unfold passStep. start_walk. Qed.

Lemma reconcilePass_wide fuel id at_ : steps R (reconcilePass fuel id at_).
Proof. induction fuel as [|fuel IH]; cbn; [apply steps_fail, _|by apply passStep_wide]. Qed.

Lemma Reconcile_wide fuel id : steps R (Reconcile fuel id).
Proof. unfold Reconcile, now. pose proof reconcilePass_wide. start_walk. Qed.
#[local] Hint Resolve Reconcile_wide : bm_reach.

Import workflowapi.
Context (Decode : string → option json).
Context (Issues : option (db.Store → string → res db.error (option Issue))).

Lemma nodeRunInputs_wide order resolved nodes : steps R (nodeRunInputs order resolved nodes).
Proof. induction nodes as [|node nodes IH]; cbn; unfold expandNode, with_agents; start_walk. Qed.
#[local] Hint Resolve nodeRunInputs_wide : bm_reach.

Lemma admitRun_wide cmd : steps R (admitRun Decode Issues cmd).
Proof.
  unfold admitRun, workflowapi.GetWorkflow, parseAndValidate, with_agents, validateIssueForRun, workflowapi.or_fail.
  start_walk.
Qed.

Lemma StartWorkflowRun_wide fuel cmd : steps R (StartWorkflowRun Decode Issues fuel cmd).
Proof.
  unfold StartWorkflowRun. apply steps_bind; [apply _|apply admitRun_wide|].
  intros [[[wf def] resolved] input]. unfold expandRun, now. start_walk.
Qed.
End Reconcile.

(** ** The instance *)

(** Executors over the services: every start is a history without claims. *)
Definition executors {env : workflow.Env} {ts : taskservice.TaskService} (session : nat → string)
    (QuotaChecker : option (db.Store → string → Z → Z → res error (option string)))
    (TitleGenerator : option (string → res error (string * Z * Z)))
    (Decode : string → option json) (Issues : option (db.Store → string → res db.error (option workflowapi.Issue)))
    (fuel : nat) : dispatcher.Executors := {|
  dispatcher.CreateTask :=
    taskservice.CreateTask workflow.gen session workflow.others workflow.agents QuotaChecker TitleGenerator;
  dispatcher.StartWorkflowRun := Some (workflowapi.StartWorkflowRun Decode Issues fuel)
|}.

#[export] Instance executors_laws {env : workflow.Env} (R : relation db.Store) `{!Wide R workflow.others}
    {ts : taskservice.TaskService} {Hts : TaskServiceWide R} session QuotaChecker TitleGenerator Decode Issues fuel :
  @ExecutorLaws R (executors session QuotaChecker TitleGenerator Decode Issues fuel).
Proof.
  split.
  - intros cmd. exact (CreateTask_wide _ _ _ R _ _ _ cmd).
  - intros start cmd [= <-]. exact (StartWorkflowRun_wide R _ _ _ _).
Qed.

(** Histories are such a relation. *)
#[export] Instance wide_reach others `{!Foreign others} : Wide reach others.
Proof. split; [apply _| |by intros s; apply foreign]. intros s s' (Hc & Hf & _). by apply frame_reach. Qed.
