(* ===== verification/ScheduleGates.v ===== *)
(** * ScheduleGates: what lets a schedule fire, and what stops it

    The checks before a claim; the bound on firings that cannot start their
    executor; the record of a firing with its delivery; and the rules of stored
    schedules, which stay readable. *)

From S2P Require Import Prelude EffLogic Text Json JsonSchema TaskCore WorkflowCore WorkflowGraph WorkflowDefinition Store.
From S2P Require Import TaskStore WorkflowStore WorkflowLifecycle StoreProgram TaskService WorkflowSafety.
From S2P Require Import WorkflowReconcile ReconcileMoves ReconcileSafety WorkflowCommands ScheduleStore ScheduleDispatch ScheduleLaws.
From stdpp Require Import gmap.
Import db scheduledb schedule dispatcher.
Import coreschedule.
Local Open Scope Z_scope.

(** ** The gates *)

Section Gates.
Context `{CronLaws} `{ExecutorLaws reach} (gen : nat → string) (others : db.Store → db.Store) `{!Foreign others}.
Context (eligible : option (db.Store → string → string → res eligibility.error unit)).
Context (contracts : option (db.Store → Schedule → option string)).
Context (maxFailures : Z).

(** The creator of the schedule may run work, as the store stands. *)
Definition mayRun (st : Store) (s : Schedule) : Prop :=
  match eligible with
  | Some check => Sc_CreatedBy s = ""%string ∨ check st (Sc_CreatedBy s) (Sc_SpaceID s) = Ok tt
  | None => True
  end.

Lemma checkCreator_eligible s st st1 : checkCreator others eligible s st = (Ok Eligible, st1) →
  reach st st1 ∧ mayRun st1 s.
Proof using Foreign0.
  unfold checkCreator, mayRun. destruct eligible as [check|]; [|by intros [_ ->]%ret_ok].
  destruct (bool_decide_reflect (Sc_CreatedBy s = ""%string)) as [E|E]; [intros [_ ->]%ret_ok; by split; [|left]|].
  intros (answer & s1 & Ha & Hr)%eff_bind_ok. unfold after in Ha. apply gets_ok in Ha as [-> ->].
  apply ret_ok in Hr as [Hv ->]. split; [apply foreign|]. right.
  by destruct (check _ _ _) as [[]|[]].
Qed.

(** C24: An executor is started only for a rule that reads, a creator who may
    run work when it is checked, a failure count under the bound, and on a claim
    that won: it found the schedule enabled and due at the time the sweep read.
    Short of all of these no service is called to start one, whatever the fate
    returned or a panic; with them one call is made at most, and is if the firing
    is reported. *)
Theorem fireOne_gates s now_ d :
  let '(r, d') := fireOne gen others eligible contracts maxFailures s now_ d in
  (Di_Started d' = Di_Started d ∧ match r with Ok f => started f = false | Err _ => True end)
  ∨ ∃ next checked claimable claimed called,
      Next (Sc_CronExpr s) (Sc_Timezone s) now_ = Ok next ∧ (now_ < next ∨ next = 0)
      ∧ reach (Di_Store d) checked ∧ mayRun checked s
      ∧ Sc_ConsecutiveFailures s < maxFailures
      ∧ reach checked claimable
      ∧ (∃ row, row ∈ st_schedules claimable ∧ Sch_ID row = Sc_ID s ∧ Sch_Enabled row = true ∧ Sch_NextFireAt row = Sc_NextFireAt s)
      ∧ ClaimSchedule (claimOf s next) claimable = (Ok true, claimed)
      ∧ reach claimed (Di_Store d')
      ∧ Di_Started d' = Di_Started d ++ called ∧ called `sublist_of` [dueOf s]
      ∧ match r with Ok (Fired _) => called = [dueOf s] | Ok f => started f = true | Err _ => True end.
Proof using Foreign0 H0 H2.
  assert (∀ (m : DB unit) f d0 P, started f = false → Di_Started d0 = Di_Started d → let '(r, d') := (_ ← on_store m; mret f) d0 in
    (Di_Started d' = Di_Started d ∧ match r with Ok f => started f = false | Err _ => True end) ∨ P r d') as Hpause.
  { intros m f d0 P Hf Hs. unfold mbind, eff_bind. rewrite on_store_eq. destruct (m (Di_Store d0)) as [[]]; cbn; by left. }
  unfold fireOne. destruct (Next (Sc_CronExpr s) (Sc_Timezone s) now_) as [next|e] eqn:En; [|by apply Hpause].
  unfold mbind at 1, eff_bind at 1. rewrite on_store_eq.
  destruct (checkCreator others eligible s (Di_Store d)) as [[v|e] st1] eqn:Ec; [|cbn; by left].
  destruct v as [| |reason]; [|cbn; by left|by apply Hpause].
  cbn [fst snd]. destruct (Z.leb_spec maxFailures (Sc_ConsecutiveFailures s)) as [Hm|Hm].
  { by apply Hpause. }
  destruct (checkCreator_eligible _ _ _ Ec) as [Hr Hmay].
  pose proof (claimFire_eq gen others contracts maxFailures s now_ next (d <| Di_Store := st1 |>)) as Ecl.
  unfold claimFire in Ecl. fold (claimOf s next). rewrite Ecl. clear Ecl. cbv zeta. cbn [Di_Store].
  change (Di_Store (d <| Di_Store := st1 |>)) with st1. set (d1 := claimedFor s next (others st1) (d <| Di_Store := st1 |>)).
  destruct (wins s next (others st1)) eqn:Ew; [|by left].
  pose proof (fireClaimed_reach gen others contracts maxFailures s now_ d1) as Hr2.
  destruct (fireClaimed_calls gen others contracts maxFailures s now_ d1) as (_ & ns & Hns & Hsub & Hown).
  destruct (fireClaimed gen others contracts maxFailures s now_ d1) as [r d']. cbn in *.
  right. exists next, st1, (others st1), (Di_Store d1), ns.
  split_and!; [done|by eapply Next_later|exact Hr|done|done|apply foreign| | |exact Hr2|exact Hns|exact Hsub|].
  - apply Nat.eqb_eq in Ew. destruct (matching_ex (claims (claimOf s next)) (st_schedules (others st1))) as (row & Hin & [Hf He]%claims_true); [lia|].
    exists row. injection Hf as E1 E2. by split_and!.
  - unfold d1, claimedFor. cbn [Di_Store]. rewrite (ClaimSchedule_eq (claimOf s next) (others st1)).
    unfold wins in Ew. by rewrite Ew.
  - destruct r as [f|]; [|done]. destruct Hown as [Ho Hst]. destruct f; try done. cbn in Ho.
    by apply (anti_symm sublist).
Qed.
End Gates.

(** ** Failing firings *)

(** A schedule as one that keeps failing sees it: what does not change, the due
    time, the failures counted, and the reason it was paused for. *)
Record standing : Type := mkStanding {
  sn_id : string; sn_space : string; sn_creator : string; sn_cron : string; sn_zone : string;
  sn_next : Z; sn_failures : Z; sn_paused : option string
}.

Definition standingOf (r : scheduleRow) : standing := {|
  sn_id := Sch_ID r; sn_space := Sch_SpaceID r; sn_creator := Sch_CreatedBy r; sn_cron := Sch_CronExpr r;
  sn_zone := Sch_Timezone r; sn_next := Sch_NextFireAt r; sn_failures := Sch_ConsecutiveFailures r;
  sn_paused := if Sch_Enabled r then None else Some (Sch_PauseReason r) |}.

Definition turned (x : standing) (next k : Z) (paused : option string) : standing := {|
  sn_id := sn_id x; sn_space := sn_space x; sn_creator := sn_creator x; sn_cron := sn_cron x;
  sn_zone := sn_zone x; sn_next := next; sn_failures := k; sn_paused := paused |}.

(** It is stored, resolves, and a sweep's batch holds it with all the others. *)
Definition stands (x : standing) (st : Store) : Prop :=
  keyed st ∧ (length (st_schedules st) ≤ Z.to_nat scheduleDueBatch)%nat ∧ ("space"%string, sn_space x) ∈ st_refs st ∧ ("user"%string, sn_creator x) ∈ st_refs st
  ∧ ∃ r, r ∈ st_schedules st ∧ standingOf r = x.

Local Notation never := (λ _ _, False).

Lemma update_stands p f x next k paused :
  (∀ r, standingOf r = x → p r = true ∧ standingOf (f r) = turned x next k paused) →
  (∀ r, p r = true → Sch_ID r = sn_id x) → (∀ r, Sch_ID (f r) = Sch_ID r) →
  triple (stands x) (update_schedules p f) (λ n st, n = 1%nat ∧ stands (turned x next k paused) st) never.
Proof.
  intros Hx Hp Hf st (Hk & Hl & Hs & Hc & r & Hr & E). rewrite update_schedules_eq.
  destruct (Hx r E) as [Hpr Hy]. split; [|split_and!; [by apply (keyed_update p f st)|cbn; by rewrite update_where_length|done|done|]].
  - pose proof (matching_pos p _ r Hr Hpr).
    destruct (matching_key Sch_ID (sn_id x) p (st_schedules st) Hk Hp); lia.
  - exists (f r <| Sch_UpdatedAt := st_clock st |>). split; [|exact Hy]. cbn. apply elem_of_update_where.
    exists r. by rewrite Hpr.
Qed.

(** What is done to the other schedules leaves this one. *)
Lemma update_apart p f x : (∀ r, p r = true → Sch_ID r ≠ sn_id x) → (∀ r, Sch_ID (f r) = Sch_ID r) →
  triple (stands x) (update_schedules p f) (λ _, stands x) never.
Proof.
  intros Hp Hf st (Hk & Hl & Hs & Hc & r & Hr & E). rewrite update_schedules_eq.
  split_and!; [by apply (keyed_update p f st)|cbn; by rewrite update_where_length|done|done|].
  exists r. split; [|done]. cbn. apply elem_of_update_where. exists r. split; [done|].
  destruct (p r) eqn:Ep; [|done]. destruct (Hp r Ep). by rewrite <- E.
Qed.

Lemma attempt_triple {S A} P (m : Eff db.error S A) (Q : A → S → Prop) :
  triple P m Q never → triple P (attempt m) (λ r st, ∃ a, r = Ok a ∧ Q a st) never.
Proof.
  intros Hm st Hst. specialize (Hm st Hst). unfold attempt, catch, mbind, eff_bind.
  destruct (m st) as [[a|e] st']; [|done]. cbn. by exists a.
Qed.

Lemma GetSchedule_stands x : triple (stands x) (GetSchedule (sn_id x))
  (λ found st, stands x st ∧ ∃ r, standingOf r = x ∧ found = Some (toSchedule st r)) never.
Proof.
  intros st (Hk & Hl & Hs & Hc & r & Hr & E). cbn. split; [by split_and!; [..|exists r]|]. exists r. split; [done|].
  assert (r ∈ scheduleSelect st) as Hsel.
  { unfold scheduleSelect. apply elem_of_rows. split; [done|]. subst x. cbn in *.
    rewrite !resolves_refs by (unfold handle_tables; set_solver). by rewrite !bool_decide_true. }
  destruct (take_where _ _) as [r'|] eqn:Et; cbn.
  - apply take_where_Some in Et as [Hin Hid%bool_decide_eq_true]. apply elem_of_rows in Hin as [Hin _].
    rewrite (faces_inj st r r'); [done..|]. subst x. exact (eq_sym Hid).
  - pose proof (take_where_None _ _ Et r Hsel) as Hn. apply bool_decide_eq_false in Hn. subst x. done.
Qed.

(** Rules of the dispatcher's programs, by what they do to the store. *)
Definition at_store (P : Store → Prop) (d : Dispatch) : Prop := P (Di_Store d).

Lemma triple_on_store {A} P (m : DB A) (Q : A → Store → Prop) :
  triple P m Q never → triple (at_store P) (on_store m) (λ a, at_store (Q a)) never.
Proof. intros Hm d Hd. specialize (Hm _ Hd). rewrite on_store_eq. by destruct (m (Di_Store d)) as [[]]. Qed.

Lemma triple_executor {A} P s (m : DB A) (Q : A → Store → Prop) (X : db.error → Store → Prop) :
  triple P m Q X → triple (at_store P) (executor s m) (λ a, at_store (Q a)) (λ e, at_store (X e)).
Proof. intros Hm d Hd. specialize (Hm _ Hd). rewrite executor_eq. by destruct (m (Di_Store d)) as [[]]. Qed.

Lemma triple_claiming P in_ (m : DB bool) (Q : bool → Store → Prop) :
  triple P m Q never → triple (at_store P) (claiming in_ m) (λ a, at_store (Q a)) never.
Proof. intros Hm d Hd. specialize (Hm _ Hd). rewrite claiming_eq. by destruct (m (Di_Store d)) as [[]]. Qed.

Section Failing.
Context `{Cron} `{Executors} (gen : nat → string).
Context (eligible : option (db.Store → string → string → res eligibility.error unit)).
Context (contracts : option (db.Store → Schedule → option string)).
Context (maxFailures : Z).

(** Every creator may run work, and no executor starts. *)
Definition admits : Prop :=
  match eligible with Some check => ∀ st u sp, check st u sp = Ok tt | None => True end.

Definition unstartable : Prop :=
  (∀ x cmd, triple (stands x) (CreateTask cmd) never (λ e st, e ≠ panic ∧ stands x st)) ∧
  match StartWorkflowRun with
  | Some start => ∀ x cmd, triple (stands x) (start cmd) never (λ e st, e ≠ panic ∧ stands x st)
  | None => True
  end.

Hypotheses (Helig : admits) (Hstart : unstartable).

Lemma checkCreator_admits s st : checkCreator id eligible s st = (Ok Eligible, st).
Proof using Helig.
  unfold checkCreator. unfold admits in Helig. destruct eligible as [check|]; [|done].
  destruct (Sc_CreatedBy s == ""%string); [done|]. unfold after, gets, mbind, eff_bind. cbn. by rewrite Helig.
Qed.

Lemma claim_stands x s next : Sc_ID s = sn_id x → Sc_NextFireAt s = sn_next x → sn_paused x = None →
  triple (stands x) (ClaimSchedule (claimOf s next))
    (λ b st, b = true ∧ stands (turned x next (sn_failures x) None) st) never.
Proof.
  intros Ei En Ep. unfold ClaimSchedule. eapply triple_bind; [apply update_stands with (next := next) (k := sn_failures x) (paused := None)|].
  - intros r <-. cbn in *. destruct (Sch_Enabled r) eqn:E; [|done]. rewrite Ei, En, Z.eqb_refl, bool_decide_true by done.
    split; [done|]. unfold standingOf, turned. cbn. by rewrite E.
  - intros r [[Hid%bool_decide_eq_true _]%andb_true_iff _]%andb_true_iff. cbn in Hid. congruence.
  - done.
  - intros n. apply triple_ret. intros st [-> Hst]. done.
Qed.

Lemma RecordFire_fails x now_ :
  triple (stands x) (RecordFire gen {| RF_ScheduleID := sn_id x; RF_FiredAt := now_; RF_FireRef := None; RF_Failed := true |})
    (λ _, stands (turned x (sn_next x) (sn_failures x + 1) (sn_paused x))) never.
Proof.
  intros st Hst. unfold RecordFire, transaction.
  assert (triple (stands x) (update_schedules (λ r, Sch_ID r == sn_id x)
    (fired {| RF_ScheduleID := sn_id x; RF_FiredAt := now_; RF_FireRef := None; RF_Failed := true |}))
    (λ n st, n = 1%nat ∧ stands (turned x (sn_next x) (sn_failures x + 1) (sn_paused x)) st) never) as Hu.
  { apply update_stands; [|by intros r ->%bool_decide_eq_true|done]. intros r <-. by rewrite bool_decide_true. }
  specialize (Hu st Hst). unfold mbind, eff_bind. cbn [RF_ScheduleID].
  destruct (update_schedules _ _ st) as [[n|e] st']; [|done]. by destruct Hu as [-> Hu].
Qed.

Definition pausing (id reason : string) : UpdateInput := {|
  SUI_ScheduleID := id; SUI_Name := None; SUI_Input := None; SUI_CronExpr := None; SUI_Timezone := None;
  SUI_Enabled := Some false; SUI_NextFireAt := None; SUI_PauseReason := Some reason; SUI_Delivery := None |}.

Lemma pause_stands x reason :
  triple (stands x) (pause id (sn_id x) reason)
    (λ _, stands (turned x (sn_next x) (sn_failures x) (Some reason))) never.
Proof.
  unfold pause. eapply triple_bind; [apply attempt_triple with (Q := λ _, stands (turned x (sn_next x) (sn_failures x) (Some reason)))|intros a; apply triple_ret; by intros st (u & _ & Hu)].
  change (triple (stands x) (UpdateSchedule (λ st, (Ok tt, st)) (pausing (sn_id x) reason))
    (λ _, stands (turned x (sn_next x) (sn_failures x) (Some reason))) never).
  eapply triple_bind with (R := λ keys st, keys = None ∧ stands x st); [by apply triple_ret|]. intros keys.
  apply triple_pure. intros ->. eapply triple_bind with (R := λ _, stands x); [by intros st Hst|]. intros _.
  eapply triple_bind with (R := λ _, stands (turned x (sn_next x) (sn_failures x) (Some reason))).
  { eapply triple_bind; [apply update_stands|intros n; apply triple_ret; by intros st [_ Hst]]; [|by intros r Hr%bool_decide_eq_true|done].
    intros r <-. by rewrite bool_decide_true. }
  intros _. eapply triple_bind with (R := λ _, stands (turned x (sn_next x) (sn_failures x) (Some reason))); [by intros st Hst|].
  intros _. eapply triple_bind; [apply (GetSchedule_stands (turned x _ _ _))|]. intros found.
  intros st [Hst (r & _ & ->)]. exact Hst.
Qed.

(** What may fail without harm to the schedule. *)
Definition harmless {A} (x : standing) (m : DB A) : Prop :=
  triple (stands x) m (λ _, stands x) (λ e st, e ≠ panic ∧ stands x st).

Lemma attempt_harmless {A} x (m : DB A) : harmless x m → triple (stands x) (attempt m) (λ _, stands x) never.
Proof.
  intros Hm st Hst. specialize (Hm st Hst). unfold attempt, catch, mbind, eff_bind.
  destruct (m st) as [[a|e] st']; [done|]. destruct Hm as [He Hx]. by rewrite bool_decide_false.
Qed.

Lemma attempt_fails {S A} P (m : Eff db.error S A) (X : db.error → S → Prop) :
  triple P m never (λ e st, e ≠ panic ∧ X e st) →
  triple P (attempt m) (λ r st, ∃ e, r = Err e ∧ X e st) never.
Proof.
  intros Hm st Hst. specialize (Hm st Hst). unfold attempt, catch, mbind, eff_bind.
  destruct (m st) as [[a|e] st']; [done|]. destruct Hm as [He Hx]. rewrite bool_decide_false by done.
  cbn. by exists e.
Qed.

Lemma RecordFire_apart x scheduleID now_ : scheduleID ≠ sn_id x →
  harmless x (RecordFire gen {| RF_ScheduleID := scheduleID; RF_FiredAt := now_; RF_FireRef := None; RF_Failed := true |}).
Proof.
  intros Hid st Hst. unfold RecordFire, transaction, mbind, eff_bind.
  epose proof (update_apart (λ r, Sch_ID r == scheduleID)
    (fired {| RF_ScheduleID := scheduleID; RF_FiredAt := now_; RF_FireRef := None; RF_Failed := true |}) x _ _ st Hst) as Hu.
  cbn [RF_ScheduleID RF_Failed RF_FireRef]. destruct (update_schedules _ _ st) as [[n|e] st'] eqn:E; [|done].
  destruct (n =? 0)%nat; cbn; [|done]. by split; [discriminate|].
Unshelve. all: [> by intros r ->%bool_decide_eq_true|done].
Qed.

Lemma pause_apart x scheduleID reason : scheduleID ≠ sn_id x →
  triple (stands x) (pause id scheduleID reason) (λ _, stands x) never.
Proof.
  intros Hid. unfold pause. eapply triple_bind; [apply attempt_harmless|intros a; by apply triple_ret].
  change (harmless x (UpdateSchedule (λ st, (Ok tt, st)) (pausing scheduleID reason))).
  unfold harmless. eapply triple_bind with (R := λ _, stands x); [by apply triple_ret|]. intros keys.
  eapply triple_bind with (R := λ _, stands x); [by intros st Hst|]. intros _.
  eapply triple_bind with (R := λ _, stands x).
  { cbn [writesSome pausing]. eapply triple_bind; [apply triple_safe, update_apart|intros n; by apply triple_ret].
    - by intros r ->%bool_decide_eq_true.
    - intros r. pose proof (edited_face (pausing scheduleID reason) keys r eq_refl) as E. by injection E. }
  intros _. eapply triple_bind with (R := λ _, stands x); [by intros st Hst|]. intros _.
  eapply triple_bind with (R := λ _, stands x); [by intros st Hst|]. intros [found|]; [by apply triple_ret|].
  apply triple_fail. by intros st Hst; split; [discriminate|].
Qed.

Lemma claim_apart x in_ : Cl_ScheduleID in_ ≠ sn_id x → triple (stands x) (ClaimSchedule in_) (λ _, stands x) never.
Proof.
  intros Hid. unfold ClaimSchedule. eapply triple_bind; [apply update_apart|intros n; by apply triple_ret]; [|done].
  intros r [[->%bool_decide_eq_true _]%andb_true_iff _]%andb_true_iff. done.
Qed.

Lemma startExecutor_fails x s :
  triple (at_store (stands x)) (startExecutor id contracts s) never (λ e d, e ≠ panic ∧ at_store (stands x) d).
Proof using Hstart.
  destruct Hstart as [Hc Hw]. unfold startExecutor. destruct (Sc_ExecutorKind s == ExecutorWorkflow).
  - destruct StartWorkflowRun as [start|]; [|by apply triple_fail].
    eapply triple_bind; [exact (triple_executor _ s _ _ _ (Hw x _))|]. by intros ? ? ?.
  - eapply triple_bind with (R := λ _, at_store (stands x)).
    { destruct contracts, (Sc_Delivery s); by intros st Hst. }
    intros schema. eapply triple_bind; [exact (triple_executor _ s _ _ _ (Hc x _))|]. by intros ? ? ?.
Qed.

Definition pausedAt (k : Z) : option string :=
  if maxFailures <=? k then Some PauseReasonConsecutiveFailures else None.

(** The row of a claimed due time whose executor does not start. *)
Lemma fireClaimed_fails x s now_ : Sc_ID s = sn_id x → Sc_ConsecutiveFailures s = sn_failures x → sn_paused x = None →
  triple (at_store (stands x)) (fireClaimed gen id contracts maxFailures s now_)
    (λ f d, started f = true ∧ at_store (stands (turned x (sn_next x) (sn_failures x + 1) (pausedAt (sn_failures x + 1)))) d) never.
Proof using Hstart.
  intros Ei Ek Ep. unfold fireClaimed.
  eapply triple_bind; [apply attempt_fails with (X := λ _, at_store (stands x)), startExecutor_fails|].
  intros r. apply triple_exists. intros e. apply triple_pure. intros ->.
  set (y := turned x (sn_next x) (sn_failures x + 1) None).
  eapply triple_bind with (R := λ _, at_store (stands y)).
  { apply triple_on_store. unfold recordFire. rewrite Ei. eapply triple_bind; [apply attempt_triple, RecordFire_fails|].
    intros a. apply triple_ret. rewrite Ep. by intros st (u & _ & Hu). }
  intros _. rewrite Ei, Ek. unfold pausedAt. destruct (maxFailures <=? sn_failures x + 1); [|by apply triple_ret].
  eapply triple_bind; [apply triple_on_store, (pause_stands y)|]. intros ?. by apply triple_ret.
Qed.

Lemma fireClaimed_apart x s now_ : Sc_ID s ≠ sn_id x →
  triple (at_store (stands x)) (fireClaimed gen id contracts maxFailures s now_) (λ _, at_store (stands x)) never.
Proof using Hstart.
  intros Ei. unfold fireClaimed.
  eapply triple_bind; [apply attempt_fails with (X := λ _, at_store (stands x)), startExecutor_fails|].
  intros r. apply triple_exists. intros e. apply triple_pure. intros ->.
  eapply triple_bind with (R := λ _, at_store (stands x)).
  { apply triple_on_store. unfold recordFire. eapply triple_bind; [by apply attempt_harmless, RecordFire_apart|].
    intros a. by apply triple_ret. }
  intros _. destruct (maxFailures <=? _); [|by apply triple_ret].
  eapply triple_bind; [by apply triple_on_store, pause_apart|]. intros ?. by apply triple_ret.
Qed.

(** A due schedule whose executor does not start uses its due time up, counts
    the failure, and is paused with the one that reaches the bound. *)
Lemma fireOne_fails x s now_ next : Sc_ID s = sn_id x → Sc_NextFireAt s = sn_next x →
  Sc_ConsecutiveFailures s = sn_failures x → sn_paused x = None → sn_failures x < maxFailures →
  Next (Sc_CronExpr s) (Sc_Timezone s) now_ = Ok next →
  triple (at_store (stands x)) (fireOne gen id eligible contracts maxFailures s now_)
    (λ f d, started f = true ∧ at_store (stands (turned x next (sn_failures x + 1) (pausedAt (sn_failures x + 1)))) d) never.
Proof using Hstart Helig.
  intros Ei En Ek Ep Hk Enext. unfold fireOne. rewrite Enext.
  eapply triple_bind with (R := λ v d, v = Eligible ∧ at_store (stands x) d).
  { apply (triple_on_store (stands x) _ (λ v st, v = Eligible ∧ stands x st)). intros st Hst. by rewrite checkCreator_admits. }
  intros v. apply triple_pure. intros ->. rewrite Ek. destruct (Z.leb_spec maxFailures (sn_failures x)); [lia|].
  set (y := turned x next (sn_failures x) None). cbv zeta. fold (claimOf s next).
  eapply triple_bind with (R := λ r d, r = Ok true ∧ at_store (stands y) d).
  { eapply triple_post; [apply attempt_triple, triple_claiming, (claim_stands x s next); done|].
    by intros r d (b & -> & -> & Hst). }
  intros r. apply triple_pure. intros ->. by apply (fireClaimed_fails y).
Qed.

Lemma fireOne_apart x s now_ : Sc_ID s ≠ sn_id x →
  triple (at_store (stands x)) (fireOne gen id eligible contracts maxFailures s now_) (λ _, at_store (stands x)) never.
Proof using Hstart Helig.
  intros Ei. unfold fireOne.
  assert (∀ reason (f : fate), triple (at_store (stands x)) (_ ← on_store (pause id (Sc_ID s) reason); mret f)
    (λ _, at_store (stands x)) never) as Hpause.
  { intros reason f. eapply triple_bind; [by apply triple_on_store, pause_apart|]. intros u. by apply triple_ret. }
  destruct (Next _ _ now_) as [next|e]; [|apply Hpause].
  eapply triple_bind with (R := λ v d, v = Eligible ∧ at_store (stands x) d).
  { apply (triple_on_store (stands x) _ (λ v st, v = Eligible ∧ stands x st)). intros st Hst. by rewrite checkCreator_admits. }
  intros v. apply triple_pure. intros ->. destruct (maxFailures <=? _); [apply Hpause|].
  cbv zeta. fold (claimOf s next). eapply triple_bind with (R := λ _, at_store (stands x)).
  { eapply triple_post; [by apply attempt_triple, triple_claiming, (claim_apart x (claimOf s next))|].
    by intros r d (b & _ & Hst). }
  intros [[]|]; [by apply fireClaimed_apart|by apply triple_ret..].
Qed.

(** ** A sweep *)

(** The due times of one schedule that were used up. *)
Definition usedBy (id : string) (fates : list (Schedule * fate)) : list (string * Z) :=
  List.filter (λ c, c.1 == id) (usedIn fates).

Lemma usedBy_cons id s f fates : usedBy id ((s, f) :: fates) =
  (if started f && (Sc_ID s == id) then [dueOf s] else []) ++ usedBy id fates.
Proof. unfold usedBy, usedIn. cbn. destruct (started f); cbn; [|done]. by destruct (Sc_ID s == id). Qed.

Lemma usedBy_app id l k : usedBy id (l ++ k) = usedBy id l ++ usedBy id k.
Proof. unfold usedBy, usedIn. by rewrite List.filter_app, map_app, List.filter_app. Qed.

Local Notation fires := (λ now_, mapM (λ s, f ← fireOne gen id eligible contracts maxFailures s now_; mret (s, f))).

Lemma fires_apart x now_ l : sn_id x ∉ map Sc_ID l →
  triple (at_store (stands x)) (fires now_ l) (λ fates d, usedBy (sn_id x) fates = [] ∧ at_store (stands x) d) never.
Proof using Hstart Helig.
  induction l as [|s l IH]; intros Hl; [by apply triple_ret|]. cbn in Hl. apply not_elem_of_cons in Hl as [Hs Hl].
  change (fires now_ (s :: l)) with (b ← (f ← fireOne gen id eligible contracts maxFailures s now_; mret (s, f)); bs ← fires now_ l; mret (b :: bs)).
  eapply triple_bind with (R := λ b d, b.1 = s ∧ at_store (stands x) d).
  { eapply triple_bind; [by apply fireOne_apart|]. intros f. by apply triple_ret. }
  intros [s' f]. apply triple_pure. cbn. intros ->. eapply triple_bind; [by apply IH|]. intros fates.
  apply triple_ret. intros d [E Hst]. split; [|done]. rewrite usedBy_cons, E, bool_decide_false by done. by rewrite andb_false_r.
Qed.

Lemma fires_fail x now_ next l : NoDup (map Sc_ID l) → sn_id x ∈ map Sc_ID l →
  (∀ s, s ∈ l → Sc_ID s = sn_id x → Sc_NextFireAt s = sn_next x ∧ Sc_ConsecutiveFailures s = sn_failures x
    ∧ Sc_CronExpr s = sn_cron x ∧ Sc_Timezone s = sn_zone x) →
  sn_paused x = None → sn_failures x < maxFailures → Next (sn_cron x) (sn_zone x) now_ = Ok next →
  triple (at_store (stands x)) (fires now_ l) (λ fates d, usedBy (sn_id x) fates = [(sn_id x, sn_next x)]
    ∧ at_store (stands (turned x next (sn_failures x + 1) (pausedAt (sn_failures x + 1)))) d) never.
Proof using Hstart Helig.
  intros Hn Hin Hl Hp Hk Hnext. induction l as [|s l IH]; [by apply not_elem_of_nil in Hin|].
  cbn in Hn. apply NoDup_cons in Hn as [Hs Hn].
  change (fires now_ (s :: l)) with (b ← (f ← fireOne gen id eligible contracts maxFailures s now_; mret (s, f)); bs ← fires now_ l; mret (b :: bs)).
  destruct (decide (Sc_ID s = sn_id x)) as [E|E].
  - destruct (Hl s (list_elem_of_here _ _) E) as (E1 & E2 & E3 & E4). set (y := turned x next _ _).
    eapply triple_bind with (R := λ b d, (b.1 = s ∧ started b.2 = true) ∧ at_store (stands y) d).
    { eapply triple_bind; [apply (fireOne_fails x s now_ next); [done..|congruence]|].
      intros f. apply triple_ret. by intros d [Hf Hst]. }
    intros [s' f]. apply triple_pure. cbn. intros [-> Hf]. eapply triple_bind.
    { apply (fires_apart y). cbn. by rewrite <- E. }
    intros fates. apply triple_ret. intros d [Eu Hst]. split; [|done]. rewrite usedBy_cons, Hf, bool_decide_true by done.
    cbn in Eu. rewrite Eu. unfold dueOf. cbn. by rewrite E, E1.
  - eapply triple_bind with (R := λ b d, b.1 = s ∧ at_store (stands x) d).
    { eapply triple_bind; [by apply fireOne_apart|]. intros f. by apply triple_ret. }
    intros [s' f]. apply triple_pure. cbn. intros ->. eapply triple_bind.
    { apply IH; [done|by apply elem_of_cons in Hin as [?|?]|]. intros s' Hs'. apply Hl. by right. }
    intros fates. apply triple_ret. intros d [Eu Hst]. split; [|done]. by rewrite usedBy_cons, bool_decide_false, andb_false_r, Eu by done.
Qed.
(** The schedules a sweep reads: of this one, whether it is due. *)
Definition dueList (t : Z) (st : Store) : list Schedule :=
  toSchedules st (workflowdb.page scheduleDueBatch 0 (by_due (rows_where (due t) (scheduleSelect st)))).

Lemma dueList_rows t st : (length (st_schedules st) ≤ Z.to_nat scheduleDueBatch)%nat →
  dueList t st = toSchedules st (by_due (rows_where (due t) (scheduleSelect st))).
Proof.
  intros Hl. unfold dueList, workflowdb.page. rewrite drop_0, take_ge; [done|].
  unfold by_due. rewrite merge_sort_Permutation. etransitivity; [|exact Hl]. unfold scheduleSelect.
  etransitivity; apply sublist_length, rows_where_sublist.
Qed.

Lemma dueList_stands x t st : stands x st → let l := dueList t st in
  NoDup (map Sc_ID l)
  ∧ (sn_id x ∈ map Sc_ID l ↔ sn_paused x = None ∧ sn_next x ≤ t)
  ∧ ∀ s, s ∈ l → Sc_ID s = sn_id x → Sc_NextFireAt s = sn_next x ∧ Sc_ConsecutiveFailures s = sn_failures x
      ∧ Sc_CronExpr s = sn_cron x ∧ Sc_Timezone s = sn_zone x.
Proof.
  intros (Hk & Hl & Hs & Hc & r & Hr & E) l. subst l. rewrite dueList_rows by done.
  set (rows := by_due _). assert (∀ r', r' ∈ rows ↔ r' ∈ scheduleSelect st ∧ due t r' = true) as Hrows.
  { intros r'. unfold rows, by_due. rewrite merge_sort_Permutation. apply elem_of_rows. }
  assert (map Sc_ID (toSchedules st rows) = map Sch_ID rows) as -> by (unfold toSchedules; by rewrite map_map).
  assert (∀ r', r' ∈ rows → Sch_ID r' = sn_id x → r' = r) as Huniq.
  { intros r' [[Hr' _]%elem_of_rows _]%Hrows Ei. apply (faces_inj st); [done..|]. rewrite Ei. by rewrite <- E. }
  split_and!.
  - unfold rows, by_due. rewrite merge_sort_Permutation. by do 2 apply rows_where_keys.
  - split.
    + intros (r' & Ei & Hin)%list_elem_of_fmap. pose proof (Huniq r' Hin (eq_sym Ei)) as ->.
      apply Hrows in Hin as [_ [He Hd%Z.leb_le]%andb_true_iff]. rewrite <- E. cbn. by rewrite He.
    + intros [Hp Hd]. apply list_elem_of_fmap. exists r. split; [by rewrite <- E|]. apply Hrows. split.
      * unfold scheduleSelect. apply elem_of_rows. split; [done|]. subst x. cbn in *.
        rewrite !resolves_refs by (unfold handle_tables; set_solver). by rewrite !bool_decide_true.
      * unfold due. rewrite <- E in Hp, Hd. cbn in *. destruct (Sch_Enabled r); [|done]. by apply Z.leb_le.
  - unfold toSchedules. intros s (r' & -> & Hin)%list_elem_of_fmap Ei. cbn in Ei. rewrite (Huniq r' Hin Ei), <- E. done.
Qed.

(** One tick: the schedule uses its due time up if it is enabled and due. *)
Lemma tick_fails x t next : (sn_paused x = None → sn_failures x < maxFailures) → Next (sn_cron x) (sn_zone x) t = Ok next →
  let y := if bool_decide (sn_paused x = None) && (sn_next x <=? t)
           then turned x next (sn_failures x + 1) (pausedAt (sn_failures x + 1)) else x in
  triple (at_store (stands x))
    (_ ← on_store ((λ st, (Ok tt, st <| st_clock := t |>)) : DB unit); sweep gen id eligible contracts maxFailures)
    (λ fates d, usedBy (sn_id x) fates = (if bool_decide (sn_paused x = None) && (sn_next x <=? t) then [(sn_id x, sn_next x)] else [])
      ∧ at_store (stands y) d) never.
Proof using Hstart Helig.
  intros Hk Hnext y d Hd. unfold mbind at 1, eff_bind at 1. rewrite on_store_eq. cbn [fst snd].
  set (st := Di_Store d <| st_clock := t |>). rewrite (sweep_eq gen id). cbv zeta.
  assert (stands x st) as Hst by exact Hd. destruct (dueList_stands x t st Hst) as (Hn & Hin & Hf).
  change (toSchedules _ _) with (dueList t st) at 1.
  destruct (bool_decide (sn_paused x = None) && (sn_next x <=? t)) eqn:Eb.
  - apply andb_true_iff in Eb as [Hp%bool_decide_eq_true Ht%Z.leb_le].
    eapply (fires_fail x t next (dueList t st)); [done|by apply Hin|done|done|by apply Hk|done|done].
  - eapply (fires_apart x t (dueList t st)); [|done]. intros [Hp Ht]%Hin. by rewrite bool_decide_true, (proj2 (Z.leb_le _ _) Ht) in Eb.
Qed.

(** ** The loop *)

(** The due times a schedule uses up over the ticks, each moving it to the next
    activation after the tick, until [left] of them have failed; and the due time
    it is left with. *)
Fixpoint fallDue (activation : Z → Z) (next : Z) (left : nat) (ticks : list Z) : list Z * Z :=
  match left, ticks with
  | S left', t :: ticks =>
      if next <=? t
      then let '(used, last) := fallDue activation (activation t) left' ticks in (next :: used, last)
      else fallDue activation next left ticks
  | _, _ => ([], next)
  end.

Definition activationOf (cronExpr timezone : string) (t : Z) : Z :=
  match Next cronExpr timezone t with Ok next => next | Err _ => t end.

Lemma loop_fails ticks : ∀ x, sn_paused x = pausedAt (sn_failures x) →
  (∀ t, is_ok (Next (sn_cron x) (sn_zone x) t) = true) →
  let fall := fallDue (activationOf (sn_cron x) (sn_zone x)) (sn_next x) (Z.to_nat (maxFailures - sn_failures x)) ticks in
  let k := sn_failures x + Z.of_nat (length fall.1) in
  triple (at_store (stands x)) (loop gen id eligible contracts maxFailures ticks)
    (λ fates d, usedBy (sn_id x) (concat fates) = map (pair (sn_id x)) fall.1
      ∧ at_store (stands (turned x fall.2 k (pausedAt k))) d) never.
Proof using Hstart Helig.
  induction ticks as [|t ticks IH]; intros x Hp Hn fall k.
  { assert (fall = ([], sn_next x)) as Ef by (unfold fall; by destruct (Z.to_nat _)). apply triple_ret. intros d Hd.
    split; [by rewrite Ef|]. unfold k. rewrite Ef. cbn. rewrite Z.add_0_r, <- Hp. by destruct x. }
  pose proof (Hn t) as Ht. destruct (Next (sn_cron x) (sn_zone x) t) as [next|] eqn:En; [|done].
  assert (activationOf (sn_cron x) (sn_zone x) t = next) as Ea by (unfold activationOf; by rewrite En).
  assert (sn_paused x = None → sn_failures x < maxFailures) as Hk.
  { rewrite Hp. unfold pausedAt. by destruct (Z.leb_spec maxFailures (sn_failures x)). }
  pose proof (tick_fails x t next Hk En) as Htick. cbv zeta in Htick.
  set (b := bool_decide (sn_paused x = None) && (sn_next x <=? t)) in Htick.
  set (y := if b then turned x next (sn_failures x + 1) (pausedAt (sn_failures x + 1)) else x) in Htick.
  set (own := if b then [(sn_id x, sn_next x)] else []) in Htick.
  change (loop gen id eligible contracts maxFailures (t :: ticks)) with
    (_ ← on_store ((λ st, (Ok tt, st <| st_clock := t |>)) : DB unit); fates ← sweep gen id eligible contracts maxFailures;
     rest ← loop gen id eligible contracts maxFailures ticks; mret (fates :: rest)).
  assert (sn_paused y = pausedAt (sn_failures y) ∧ sn_id y = sn_id x ∧ sn_cron y = sn_cron x ∧ sn_zone y = sn_zone x) as (Hy & Ei & Ec & Ez)
    by (unfold y; by destruct b).
  specialize (IH y Hy). rewrite Ec, Ez, Ei in IH. specialize (IH Hn). cbv zeta in IH.
  set (fall' := fallDue _ _ _ ticks) in IH.
  assert (map (pair (sn_id x)) fall.1 = own ++ map (pair (sn_id x)) fall'.1 ∧ fall.2 = fall'.2
    ∧ k = sn_failures y + Z.of_nat (length fall'.1)) as (E1 & E2 & E3).
  { unfold k, fall, fall', own, y. unfold pausedAt in Hp. cbn [fallDue]. rewrite Ea.
    destruct (Z.leb_spec maxFailures (sn_failures x)) as [Hle|Hlt].
    - assert (b = false) as -> by (unfold b; by rewrite bool_decide_false by by rewrite Hp).
      replace (Z.to_nat (maxFailures - sn_failures x)) with 0%nat by lia. by destruct ticks.
    - assert (b = (sn_next x <=? t)) as -> by (unfold b; by rewrite bool_decide_true).
      destruct (Z.to_nat (maxFailures - sn_failures x)) as [|left] eqn:El; [lia|].
      destruct (sn_next x <=? t); [|by rewrite El]. cbn [turned sn_next sn_failures].
      replace (Z.to_nat (maxFailures - (sn_failures x + 1))) with left by lia.
      destruct (fallDue _ next left ticks) as [used last]. cbn. split_and!; [done|done|lia]. }
  intros d Hd. specialize (Htick d Hd). revert Htick. unfold mbind, eff_bind. rewrite on_store_eq. cbn [fst snd].
  destruct (sweep _ _ _ _ _ _) as [[fates|e] d1]; [|done]. intros [Hu Hd1]. specialize (IH d1 Hd1).
  destruct (loop _ _ _ _ _ _ _) as [[rest|e] d2]; [|done]. destruct IH as [Hu2 Hd2]. cbn [concat mret eff_ret].
  split; [by rewrite usedBy_app, Hu, Hu2, E1|]. rewrite E2, E3.
  replace (turned x _ _ _) with (turned y fall'.2 (sn_failures y + Z.of_nat (length fall'.1)) (pausedAt (sn_failures y + Z.of_nat (length fall'.1)))); [done|].
  unfold y. by destruct b.
Qed.

Lemma fallDue_bound activation next left ticks : (length (fallDue activation next left ticks).1 ≤ left)%nat.
Proof.
  revert next left. induction ticks as [|t ticks IH]; intros next [|left]; cbn; [lia..|].
  destruct (next <=? t); [|apply IH]. specialize (IH (activation t) left). destruct (fallDue _ _ _ _). cbn in *. lia.
Qed.

(** C23: A schedule that keeps failing is paused, and not before its time.
    Over the ticks of the poll loop it uses up exactly the due times that fall to
    it, each moving it to the next activation after the tick, until as many have
    failed as its failure count is short of the bound; with the last of them it
    is disabled for its consecutive failures, and until then it stays enabled and
    due at the next of them.  This is for a dispatcher nobody writes beside, a
    store no larger than a sweep's batch, whatever the other schedules in it, a
    rule that reads, creators who may run work, and services that answer every
    start with an error that is not a panic and leave the schedules. *)
Theorem failing_schedule_pauses d r ticks :
  let st := Di_Store d in
  keyed st → (length (st_schedules st) ≤ Z.to_nat scheduleDueBatch)%nat →
  r ∈ st_schedules st → Sch_Enabled r = true →
  ("space"%string, Sch_SpaceID r) ∈ st_refs st → ("user"%string, Sch_CreatedBy r) ∈ st_refs st →
  Validate (Sch_CronExpr r) (Sch_Timezone r) = Ok tt →
  Sch_ConsecutiveFailures r < maxFailures →
  let short := Z.to_nat (maxFailures - Sch_ConsecutiveFailures r) in
  let '(used, last) := fallDue (activationOf (Sch_CronExpr r) (Sch_Timezone r)) (Sch_NextFireAt r) short ticks in
  ∃ fates d' r', loop gen id eligible contracts maxFailures ticks d = (Ok fates, d')
    ∧ usedBy (Sch_ID r) (concat fates) = map (pair (Sch_ID r)) used
    ∧ r' ∈ st_schedules (Di_Store d') ∧ Sch_ID r' = Sch_ID r ∧ Sch_NextFireAt r' = last
    ∧ Sch_ConsecutiveFailures r' = Sch_ConsecutiveFailures r + Z.of_nat (length used)
    ∧ ((length used < short)%nat → Sch_Enabled r' = true)
    ∧ (length used = short → Sch_Enabled r' = false ∧ Sch_PauseReason r' = PauseReasonConsecutiveFailures).
Proof using Hstart Helig.
  intros st Hk Hl Hr Ee Hs Hc Hv Hm short.
  assert (∀ t, is_ok (Next (Sch_CronExpr r) (Sch_Timezone r) t) = true) as Hn.
  { intros t. unfold Next. unfold Validate in Hv. destruct (LoadLocation _); [|done]. by destruct (Parse _). }
  pose proof (loop_fails ticks (standingOf r)) as Hf. cbn in Hf.
  assert (pausedAt (Sch_ConsecutiveFailures r) = None) as Ep by (unfold pausedAt; by destruct (Z.leb_spec maxFailures (Sch_ConsecutiveFailures r)); [lia|]).
  rewrite Ee, Ep in Hf. specialize (Hf eq_refl Hn d). fold short in Hf.
  pose proof (fallDue_bound (activationOf (Sch_CronExpr r) (Sch_Timezone r)) (Sch_NextFireAt r) short ticks) as Hb.
  destruct (fallDue _ _ _ _) as [used last]. cbn [fst snd] in *.
  assert (at_store (stands (standingOf r)) d) as Hst by (split_and!; [done..|by exists r]).
  specialize (Hf Hst). destruct (loop _ _ _ _ _ _ _) as [[fates|e] d']; [|done].
  destruct Hf as (Hu & _ & _ & _ & _ & r' & Hr' & E). exists fates, d', r'.
  unfold standingOf, turned in E. injection E as E1 _ _ _ _ E2 E3 E4. unfold pausedAt in E4.
  split_and!; [done..| |]; intros Hlen;
    destruct (Z.leb_spec maxFailures (Sch_ConsecutiveFailures r + Z.of_nat (length used))); try lia;
    destruct (Sch_Enabled r'); naive_solver.
Qed.
End Failing.
