(* ===== verification/ScheduleRules.v ===== *)
(** * ScheduleRules: the rules and the records of stored schedules

    Every stored rule can be read: the service checks an expression and a time
    zone before it stores them, apart or together, and nothing else writes them.
    A firing that produced something leaves its record, and the delivery it owes,
    in one transaction. *)

From S2P Require Import Prelude EffLogic Text Json JsonSchema TaskCore WorkflowCore WorkflowGraph WorkflowDefinition Store.
From S2P Require Import TaskStore WorkflowStore WorkflowLifecycle StoreProgram TaskService WorkflowSafety.
From S2P Require Import WorkflowReconcile ReconcileMoves ReconcileSafety WorkflowCommands ScheduleStore ScheduleDispatch ScheduleLaws ScheduleExecutors.
From stdpp Require Import gmap.
Import db scheduledb schedule dispatcher.
Import coreschedule.
Local Open Scope Z_scope.

Lemma deliveryKeys_steps (R : relation db.Store) `{!PreOrder R} d : steps R (deliveryKeys d).
Proof.
  unfold deliveryKeys. destruct (Del_AssistantID d == ""%string); [apply steps_ret, _|].
  apply steps_bind; [apply _|apply steps_lookupKey, _|intros _].
  apply steps_bind; [apply _|apply steps_lookupKey, _|intros _]. apply steps_ret, _.
Qed.

(** ** Rules that read *)

Section Rules.
Context `{Cron}.

(** The expression parses and the zone is known. *)
Definition expression (c : string) : Prop := is_ok (Parse c) = true.
Definition zone (z : string) : Prop := is_ok (LoadLocation z) = true.

Definition valid (st : Store) : Prop := Forall (λ x, Validate x.1 x.2 = Ok tt) (rules st).

Lemma Validate_ok c z : Validate c z = Ok tt ↔ expression c ∧ zone z.
Proof.
  unfold Validate, expression, zone. destruct (LoadLocation z), (Parse c); cbn; naive_solver.
Qed.

Lemma Next_ok c z t : Validate c z = Ok tt → is_ok (Next c z t) = true.
Proof. unfold Validate, Next. destruct (LoadLocation z); [|done]. by destruct (Parse c). Qed.

Lemma Next_validates c z t next : Next c z t = Ok next → Validate c z = Ok tt.
Proof. unfold Validate, Next. destruct (LoadLocation z); [|done]. by destruct (Parse c). Qed.

(** Changes that keep the rules readable. *)
Definition keeps_valid : relation Store := λ s s', valid s → valid s'.

#[export] Instance keeps_valid_preorder : PreOrder keeps_valid.
Proof. split; [by intros s Hs|]. intros a b c Hab Hbc Hs. auto. Qed.

Lemma same_rules s s' : rules s' = rules s → keeps_valid s s'.
Proof. intros E. unfold keeps_valid, valid. by rewrite E. Qed.

Lemma fewer_rules s s' : rules s' `sublist_of` rules s → keeps_valid s s'.
Proof.
  intros Hsub Hs. unfold valid in *. rewrite Forall_forall in *. intros x Hx. apply Hs. by eapply elem_of_sublist.
Qed.

Lemma fresh_valid s n : keeps_valid s (s <| st_fresh := n |>).
Proof. by apply same_rules. Qed.

Lemma CreateSchedule_valid gen between in_ :
  steps keeps_valid between → expression (SCI_CronExpr in_) → zone (SCI_Timezone in_) →
  steps keeps_valid (CreateSchedule gen between (Some in_)).
Proof.
  intros Hb Hc Hz. unfold CreateSchedule, deliveryKeys. apply steps_bind; [apply _| |].
  - apply steps_transaction; [apply fresh_valid|]. 
    apply steps_bind; [apply _| |intros keys].
    { destruct (SCI_Delivery in_); [apply deliveryKeys_steps, _|apply steps_ret, _]. }
    apply steps_bind; [apply _|apply steps_lookupKey, _|intros _]. apply steps_bind; [apply _|apply steps_lookupKey, _|intros _].
    apply steps_bind; [apply _|apply steps_createWithPublicID; [apply _|apply fresh_valid]|intros id].
    apply steps_bind; [apply _|apply steps_gets, _|intros at_].
    intros s Hs. eff_unfold. unfold valid, rules in *. cbn. rewrite map_app. apply Forall_app. split; [exact Hs|].
    apply Forall_singleton. cbn. by apply Validate_ok.
  - intros id. apply steps_bind; [apply _|done|intros _]. apply steps_gets, _.
Qed.

(** An edit that changes no part of the rule to one that does not read. *)
Definition readable (in_ : UpdateInput) : Prop :=
  (∀ c, SUI_CronExpr in_ = Some c → expression c) ∧ (∀ z, SUI_Timezone in_ = Some z → zone z).

Lemma edited_valid in_ keys r : readable in_ → Validate (Sch_CronExpr r) (Sch_Timezone r) = Ok tt →
  Validate (Sch_CronExpr (edited in_ keys r)) (Sch_Timezone (edited in_ keys r)) = Ok tt.
Proof.
  intros [Hc Hz] [H1 H2]%Validate_ok. apply Validate_ok.
  assert (Sch_CronExpr (edited in_ keys r) = default (Sch_CronExpr r) (SUI_CronExpr in_)
    ∧ Sch_Timezone (edited in_ keys r) = default (Sch_Timezone r) (SUI_Timezone in_)) as [-> ->].
  { unfold edited. by destruct (SUI_Enabled in_) as [[]|], keys as [[]|]. }
  split; [destruct (SUI_CronExpr in_)|destruct (SUI_Timezone in_)]; cbn; auto.
Qed.

Lemma update_valid p f :
  (∀ r, Validate (Sch_CronExpr r) (Sch_Timezone r) = Ok tt → Validate (Sch_CronExpr (f r)) (Sch_Timezone (f r)) = Ok tt) →
  steps keeps_valid (update_schedules p f).
Proof.
  intros Hf s Hs. rewrite update_schedules_eq. unfold valid, rules in *. cbn. rewrite Forall_map in *.
  eapply Forall_update_where; [exact Hs| |auto]. intros r Hr _. cbn. by apply Hf.
Qed.

Lemma UpdateSchedule_valid between in_ :
  steps keeps_valid between → readable in_ → steps keeps_valid (UpdateSchedule between in_).
Proof.
  intros Hb Hr. unfold UpdateSchedule. apply steps_bind; [apply _| |intros keys].
  { destruct (SUI_Delivery in_) as [d|]; [|apply steps_ret, _]. apply steps_bind; [apply _| |intros keys; apply steps_ret, _].
    apply deliveryKeys_steps, _. }
  apply steps_bind; [apply _|done|intros _]. apply steps_bind; [apply _| |intros _].
  { destruct (writesSome in_); [|apply steps_ret, _]. apply steps_bind; [apply _| |intros _; apply steps_ret, _].
    apply update_valid. intros r. by apply edited_valid. }
  apply steps_bind; [apply _|done|intros _]. apply steps_bind; [apply _|apply steps_gets, _|intros found].
  apply steps_or_fail, _.
Qed.

Lemma DeleteSchedule_valid id : steps keeps_valid (DeleteSchedule id).
Proof.
  apply steps_transaction; [apply fresh_valid|]. intros s. unfold mbind, eff_bind, get.
  destruct (take_where (λ r, Sch_ID r == id) (st_schedules s)) as [row|]; [|reflexivity].
  apply fewer_rules, fmap_sublist, rows_where_sublist.
Qed.

Lemma ClaimSchedule_valid in_ : steps keeps_valid (ClaimSchedule in_).
Proof. apply steps_bind; [apply _|by apply update_valid|intros n; apply steps_ret, _]. Qed.

Lemma RecordFire_valid gen in_ : steps keeps_valid (RecordFire gen in_).
Proof.
  apply steps_transaction; [apply fresh_valid|]. apply steps_bind; [apply _| |intros n].
  { apply update_valid. intros r. unfold fired. by destruct (RF_Failed in_), (RF_FireRef in_). }
  destruct (n =? 0)%nat; [apply steps_fail, _|]. destruct (RF_Failed in_), (RF_FireRef in_) as [ref|]; try apply steps_ret, _.
  apply steps_bind; [apply _|apply steps_take, _|intros row]. destruct (Sch_DeliveryAssistantID row); [|apply steps_ret, _].
  apply steps_bind; [apply _|apply steps_createWithPublicID; [apply _|apply fresh_valid]|intros id].
  apply steps_bind; [apply _|apply steps_gets, _|intros at_]. intros s1. by apply same_rules.
Qed.
End Rules.

(** ** Every command keeps them *)

Lemma validated_returns {A} (r : res string A) : returns (validated r) (λ a, r = Ok a).
Proof. destruct r; cbn; [by apply returns_ret|apply returns_fail]. Qed.

Lemma validated_steps {A} (R : relation db.Store) `{!PreOrder R} (r : res string A) : steps R (validated r).
Proof. destruct r; [apply steps_ret, _|apply steps_fail, _]. Qed.

Section Commands.
Context `{Cron} `{Executors} (gen : nat → string) (others : db.Store → db.Store).
Context (Unmarshal : string → option coreworkflow.Definition_) (Decode : string → option json) (svc : Service).

Section Reads.
Context (R : relation db.Store) `{!PreOrder R} (Hothers : ∀ s, R s (others s)).

Lemma call_steps {A} (m : DB A) : steps R m → steps R (after others m).
Proof using Hothers PreOrder0. intros Hm s. etransitivity; [apply Hothers|apply Hm]. Qed.

Lemma checkDelivery_steps sp k id d : steps R (checkDelivery others svc sp k id d).
Proof using Hothers PreOrder0.
  unfold checkDelivery. destruct (_ || _); [apply steps_fail, _|]. destruct (Deliveries svc); [|apply steps_fail, _].
  by apply call_steps; intros s.
Qed.

Lemma requireExecutor_steps k id sp input : steps R (requireExecutorInSpace others Unmarshal Decode svc k id sp input).
Proof using Hothers PreOrder0.
  unfold requireExecutorInSpace. destruct (k == ExecutorAgent).
  - destruct (Agents svc); [|apply steps_fail, _]. apply steps_bind; [apply _|by apply call_steps; intros ?|].
    intros [agent|]; [|apply steps_fail, _]. destruct (_ == _); [apply steps_ret, _|apply steps_fail, _].
  - destruct (k == ExecutorWorkflow); [|apply steps_fail, _]. destruct (negb _); [apply steps_fail, _|].
    apply steps_bind; [apply _|apply call_steps, steps_gets, _|]. intros [wf|]; [|apply steps_fail, _].
    destruct (_ != _); [apply steps_fail, _|]. destruct (_ != _); [apply steps_fail, _|].
    destruct (definition.CheckUnattendedRunInput _ _); [apply steps_ret, _|apply steps_fail, _].
Qed.

Lemma Get_steps sp id : steps R (Get others svc sp id).
Proof using Hothers PreOrder0.
  unfold Get. destruct (negb _); [apply steps_fail, _|]. apply steps_bind; [apply _|apply call_steps, steps_gets, _|].
  intros [sched|]; [|apply steps_fail, _]. destruct (_ == _); [apply steps_ret, _|apply steps_fail, _].
Qed.

Lemma newNextFire_steps existing cmd : steps R (newNextFire others existing cmd).
Proof using Hothers PreOrder0.
  unfold newNextFire. destruct (_ || _); [|apply steps_ret, _]. cbv zeta.
  apply steps_bind; [apply _|apply validated_steps, _|intros _].
  apply steps_bind; [apply _|apply call_steps, steps_gets, _|intros at_].
  apply steps_bind; [apply _|apply validated_steps, _|intros next]. apply steps_ret, _.
Qed.
End Reads.

Context (Hothers : ∀ s, keeps_valid s (others s)).

Local Notation between := ((λ s, (Ok tt, others s)) : DB unit).

Lemma between_valid : steps keeps_valid between.
Proof using Hothers. intros s. change (keeps_valid s (others s)). apply Hothers. Qed.

Lemma Create_valid cmd : steps keeps_valid (Create gen others Unmarshal Decode svc cmd).
Proof using Hothers.
  unfold Create. repeat case_match; try apply steps_fail, _.
  all: eapply steps_returns_bind; [apply _|apply validated_steps, _|apply validated_returns|intros [] [Hc Hz]%Validate_ok];
    apply steps_bind; [apply _|by apply requireExecutor_steps; [apply _|]|intros _];
    apply steps_bind; [apply _|try apply steps_ret, _; by apply checkDelivery_steps; [apply _|]|intros _];
    apply steps_bind; [apply _|apply call_steps; [apply _|done|apply steps_gets, _]|intros at_];
    apply steps_bind; [apply _|apply validated_steps, _|intros next];
    apply call_steps; [apply _|done|]; by apply CreateSchedule_valid; [apply between_valid|..].
Qed.

(** What an edit of the rule was checked for. *)
Lemma newNextFire_readable existing cmd : returns (newNextFire others existing cmd) (λ _,
  (∀ c, SUC_CronExpr cmd = Some c → expression c) ∧ (∀ z, SUC_Timezone cmd = Some z → zone z)).
Proof.
  unfold newNextFire. destruct (given (SUC_CronExpr cmd) || given (SUC_Timezone cmd)) eqn:E.
  - cbv zeta. eapply returns_bind_of; [apply validated_returns|]. intros [] [Hc Hz]%Validate_ok.
    apply returns_bind. intros at_. apply returns_bind. intros next. apply returns_ret.
    split; [intros c Ec; by rewrite Ec in Hc|intros z Ez; by rewrite Ez in Hz].
  - apply orb_false_iff in E as [E1 E2]. apply returns_ret.
    split; [intros c Ec; by rewrite Ec in E1|intros z Ez; by rewrite Ez in E2].
Qed.

Lemma Update_valid cmd : steps keeps_valid (Update others Unmarshal Decode svc cmd).
Proof using Hothers.
  unfold Update. apply steps_bind; [apply _|by apply Get_steps; [apply _|]|intros existing]. cbv zeta.
  do 3 (match goal with |- steps _ (if ?b then _ else _) => destruct b; [apply steps_fail, _|] end).
  apply steps_bind; [apply _| |intros _].
  { destruct (SUC_Input cmd); [|apply steps_ret, _]. destruct (_ == _); [|apply steps_ret, _]. by apply requireExecutor_steps; [apply _|]. }
  apply steps_bind; [apply _| |intros _].
  { destruct (SUC_Delivery cmd); [|apply steps_ret, _]. destruct (_ != _); [|apply steps_ret, _]. by apply checkDelivery_steps; [apply _|]. }
  eapply steps_returns_bind; [apply _|by apply newNextFire_steps; [apply _|]|apply newNextFire_readable|]. intros next Hr.
  apply call_steps; [apply _|done|]. by apply UpdateSchedule_valid; [apply between_valid|].
Qed.

Lemma Delete_valid sp id : steps keeps_valid (Delete others svc sp id).
Proof using Hothers.
  apply steps_bind; [apply _|by apply Get_steps; [apply _|]|intros _]. apply call_steps; [apply _|done|apply DeleteSchedule_valid].
Qed.

(** ** The dispatcher *)

Context (eligible : option (db.Store → string → string → res eligibility.error unit)).
Context (contracts : option (db.Store → Schedule → option string)) (maxFailures : Z).
Context `{!ExecutorLaws keeps_valid}.

Lemma pause_valid id reason : steps keeps_valid (pause others id reason).
Proof using Hothers.
  unfold pause. apply steps_bind; [apply _| |intros _; apply steps_ret, _].
  apply attempt_steps; [apply _|]. apply call_steps; [apply _|done|]. apply UpdateSchedule_valid; [apply between_valid|done].
Qed.

Lemma recordFire_valid s now_ ref failed : steps keeps_valid (recordFire gen others s now_ ref failed).
Proof using Hothers.
  unfold recordFire. apply steps_bind; [apply _| |intros _; apply steps_ret, _].
  apply attempt_steps; [apply _|]. apply call_steps; [apply _|done|apply RecordFire_valid].
Qed.

Lemma startExecutor_valid s : steps (on keeps_valid) (startExecutor others contracts s).
Proof using Hothers ExecutorLaws0.
  unfold startExecutor. destruct (Sc_ExecutorKind s == ExecutorWorkflow).
  - destruct StartWorkflowRun as [start|] eqn:E; [|apply steps_fail, _].
    apply steps_bind; [apply _|by apply steps_executor; eapply start_steps|]. intros [[run|] ?]; [apply steps_ret, _|apply steps_fail, _].
  - apply steps_bind; [apply _| |].
    { destruct contracts, (Sc_Delivery s); try apply steps_ret, _. apply steps_on_store, call_steps; [apply _|done|apply steps_gets, _]. }
    intros schema. apply steps_bind; [apply _|apply steps_executor, create_steps|]. intros task. apply steps_ret, _.
Qed.

Lemma fireClaimed_valid s now_ : steps (on keeps_valid) (fireClaimed gen others contracts maxFailures s now_).
Proof using Hothers ExecutorLaws0.
  unfold fireClaimed. apply steps_bind; [apply _|apply attempt_steps, startExecutor_valid; apply _|].
  intros [ref|e]; (apply steps_bind; [apply _|apply steps_on_store, recordFire_valid|intros _]); [apply steps_ret, _|].
  destruct (_ <=? _); [|apply steps_ret, _].
  apply steps_bind; [apply _|apply steps_on_store, pause_valid|]. intros _. apply steps_ret, _.
Qed.

Lemma fireOne_valid s now_ : steps (on keeps_valid) (fireOne gen others eligible contracts maxFailures s now_).
Proof using Hothers ExecutorLaws0.
  assert (∀ id reason f, steps (on keeps_valid) (_ ← on_store (pause others id reason); mret (f : fate))) as Hpause.
  { intros id reason f. apply steps_bind; [apply _|apply steps_on_store, pause_valid|intros _; apply steps_ret, _]. }
  unfold fireOne. destruct (Next _ _ now_); [|apply Hpause].
  apply steps_bind; [apply _| |].
  { apply steps_on_store. unfold checkCreator. destruct eligible; [|apply steps_ret, _]. destruct (_ == _); [apply steps_ret, _|].
    apply steps_bind; [apply _|apply call_steps; [apply _|done|apply steps_gets, _]|intros answer; apply steps_ret, _]. }
  intros [| |reason]; [|apply steps_ret, _|apply Hpause]. destruct (_ <=? _); [apply Hpause|].
  cbv zeta. apply steps_bind; [apply _|apply attempt_steps, steps_claiming; [apply _|apply call_steps; [apply _|done|apply ClaimSchedule_valid]]|].
  intros [[]|]; [apply fireClaimed_valid|apply steps_ret, _..].
Qed.

Lemma sweep_valid : steps (on keeps_valid) (sweep gen others eligible contracts maxFailures).
Proof using Hothers ExecutorLaws0.
  unfold sweep, now. apply steps_bind; [apply _|apply steps_on_store, call_steps; [apply _|done|apply steps_gets, _]|intros now_].
  apply steps_bind; [apply _|apply steps_on_store, attempt_steps; [apply _|apply call_steps; [apply _|done|apply steps_gets, _]]|].
  intros [l|]; [|apply steps_ret, _]. apply steps_mapM; [apply _|]. intros s.
  apply steps_bind; [apply _|apply fireOne_valid|intros f; apply steps_ret, _].
Qed.

(** The fate of a schedule whose rule reads. *)
Definition reads (f : fate) : Prop := match f with InvalidCron _ => False | _ => True end.

Lemma fireOne_reads s now_ : Validate (Sc_CronExpr s) (Sc_Timezone s) = Ok tt →
  returns (fireOne gen others eligible contracts maxFailures s now_) reads.
Proof.
  intros Hv. unfold fireOne. pose proof (Next_ok _ _ now_ Hv) as Hn. destruct (Next _ _ now_); [|done].
  apply returns_bind. intros [| |reason].
  - destruct (_ <=? _); [by apply returns_bind; intros ?; apply returns_ret|].
    apply returns_bind. intros [[]|]; try by apply returns_ret. unfold fireClaimed.
    apply returns_bind. intros []; (apply returns_bind; intros ?); [by apply returns_ret|].
    destruct (_ <=? _); [apply returns_bind; intros ?|]; by apply returns_ret.
  - by apply returns_ret.
  - by apply returns_bind; intros ?; apply returns_ret.
Qed.

Lemma due_valid now_ limit st s : valid st →
  s ∈ toSchedules st (workflowdb.page limit 0 (by_due (rows_where (due now_) (scheduleSelect st)))) →
  Validate (Sc_CronExpr s) (Sc_Timezone s) = Ok tt.
Proof.
  intros Hv (row & -> & Hin)%list_elem_of_fmap. cbn.
  assert (row ∈ st_schedules st) as Hrow.
  { eapply elem_of_sublist in Hin; [|etransitivity; [apply sublist_take|apply sublist_drop]].
    unfold by_due in Hin. rewrite merge_sort_Permutation in Hin. apply elem_of_rows in Hin as [Hin _].
    by apply elem_of_rows in Hin as [Hin _]. }
  unfold valid, rules in Hv. rewrite Forall_map, Forall_forall in Hv. exact (Hv row Hrow).
Qed.

(** C25: Stored rules stay readable.  Whatever other writers commit, as long as
    they keep the stored rules readable too, creating, editing and deleting a
    schedule and sweeping keep them so, even an edit that checked one half of a
    rule against another half that changed in the meantime; and a sweep then
    pauses no schedule for a rule it cannot read. *)
Theorem schedules_stay_valid s : valid s →
  (∀ cmd, valid (Create gen others Unmarshal Decode svc cmd s).2)
  ∧ (∀ cmd, valid (Update others Unmarshal Decode svc cmd s).2)
  ∧ (∀ spaceID scheduleID, valid (Delete others svc spaceID scheduleID s).2)
  ∧ ∀ won called, let d := mkDispatch s won called in
      valid (Di_Store (sweep gen others eligible contracts maxFailures d).2)
      ∧ ∀ fates d', sweep gen others eligible contracts maxFailures d = (Ok fates, d') →
      Forall (λ x, reads x.2) fates.
Proof using Hothers ExecutorLaws0.
  intros Hs. split_and!; [by intros; apply Create_valid|by intros; apply Update_valid|by intros; apply Delete_valid|].
  intros won called d. split; [by apply (sweep_valid d)|]. intros fates d' E. rewrite sweep_eq in E. cbv zeta in E.
  assert (valid (others (others s))) as Hv by by apply Hothers, Hothers.
  eapply (returns_mapM (λ s x, reads x.2)) in E; [by eapply Forall2_Forall_r; [exact E|apply Forall_true]|].
  intros sc Hin. eapply returns_bind_of; [apply fireOne_reads; by eapply due_valid|]. intros f Hf. by apply returns_ret.
Qed.
End Commands.

(** ** The record of a firing *)

Lemma transaction_store {A} (m : DB A) s o s' : transaction m s = (o, s') →
  match o with Ok a => m s = (Ok a, s') | Err e => (∃ s1, m s = (Err e, s1)) ∧ ∃ n, s' = s <| st_fresh := n |> end.
Proof.
  unfold transaction. destruct (m s) as [[a|e] s1]; intros [= <- <-]; [done|]. eauto.
Qed.

(** The delivery a firing owes: one, on a firing that produced something for a
    schedule that delivers. *)
Definition owed (in_ : RecordFireInput) (r : scheduleRow) : option string :=
  if RF_Failed in_ then None
  else match Sch_DeliveryAssistantID r with Some _ => RF_FireRef in_ | None => None end.

Definition pendingRow (id schedule ref : string) (at_ : Z) : scheduleDeliveryRow := {|
  SD_ID := id; SD_ScheduleID := schedule; SD_FireRef := ref; SD_Status := DeliveryPending;
  SD_Reason := ""; SD_CreatedAt := at_; SD_SettledAt := None |}.

(** The row of a fired schedule. *)
Definition firedRow (in_ : RecordFireInput) (at_ : Z) (r : scheduleRow) : scheduleRow :=
  if Sch_ID r == RF_ScheduleID in_ then fired in_ r <| Sch_UpdatedAt := at_ |> else r.

Lemma fired_core in_ r : Sch_ID (fired in_ r) = Sch_ID r ∧ Sch_DeliveryAssistantID (fired in_ r) = Sch_DeliveryAssistantID r.
Proof. unfold fired. by destruct (RF_Failed in_), (RF_FireRef in_). Qed.

Lemma fired_rows in_ s :
  st_schedules (update_schedules (λ r, Sch_ID r == RF_ScheduleID in_) (fired in_) s).2 = map (firedRow in_ (st_clock s)) (st_schedules s).
Proof. done. Qed.

Lemma take_fired in_ s r : keyed s → r ∈ st_schedules s → Sch_ID r = RF_ScheduleID in_ →
  take_where (λ r, Sch_ID r == RF_ScheduleID in_) (map (firedRow in_ (st_clock s)) (st_schedules s)) = Some (firedRow in_ (st_clock s) r).
Proof.
  intros Hk Hr Hid.
  assert (∀ x, Sch_ID (firedRow in_ (st_clock s) x) = Sch_ID x) as Hf.
  { intros x. unfold firedRow. destruct (_ == _); [|done]. apply (fired_core in_ x). }
  destruct (take_where _ _) as [x|] eqn:Et.
  - apply take_where_Some in Et as [(x0 & -> & Hx)%list_elem_of_fmap Hx'%bool_decide_eq_true].
    rewrite Hf in Hx'. f_equal. f_equal. eapply faces_inj; [exact Hk|done|done|congruence].
  - pose proof (take_where_None _ _ Et (firedRow in_ (st_clock s) r)) as Hn. cbv beta in Hn. rewrite Hf, bool_decide_true in Hn by done.
    discriminate Hn. by apply list_elem_of_fmap_2.
Qed.

(** What a successful record leaves. *)
Definition recorded (in_ : RecordFireInput) (s s' : db.Store) : Prop :=
  ∃ r, r ∈ st_schedules s ∧ Sch_ID r = RF_ScheduleID in_
    ∧ st_schedules s' = map (firedRow in_ (st_clock s)) (st_schedules s)
    ∧ match owed in_ r with
      | Some ref => ∃ id, id ∉ deliveryIDs s
          ∧ st_deliveries s' = (st_deliveries s ++ [pendingRow id (Sch_ID r) ref (st_clock s)])%list
      | None => st_deliveries s' = st_deliveries s
      end.

Lemma firedRow_core in_ at_ r :
  Sch_ID (firedRow in_ at_ r) = Sch_ID r ∧ Sch_DeliveryAssistantID (firedRow in_ at_ r) = Sch_DeliveryAssistantID r.
Proof. unfold firedRow. destruct (_ == _); [|done]. apply (fired_core in_ r). Qed.

(** A record that adds no delivery. *)
Lemma recorded_alone in_ s r : r ∈ st_schedules s → Sch_ID r = RF_ScheduleID in_ → owed in_ r = None →
  recorded in_ s (update_schedules (λ r, Sch_ID r == RF_ScheduleID in_) (fired in_) s).2.
Proof. intros Hr Hid Ho. exists r. split_and!; [done..|]. by rewrite Ho. Qed.

(** The delivery of a firing that produced [ref]. *)
Lemma RecordFire_delivers gen in_ s r ref a s' :
  keyed s → r ∈ st_schedules s → Sch_ID r = RF_ScheduleID in_ → RF_Failed in_ = false → RF_FireRef in_ = Some ref →
  let s1 := (update_schedules (λ r, Sch_ID r == RF_ScheduleID in_) (fired in_) s).2 in
  (row ← take st_schedules (λ r, Sch_ID r == RF_ScheduleID in_);
   match Sch_DeliveryAssistantID row with
   | None => mret tt
   | Some _ =>
       id ← createWithPublicID gen deliveryIDs;
       at_ ← now;
       s ← get;
       put (s <| st_deliveries := (st_deliveries s ++ [pendingRow id (Sch_ID row) ref at_])%list |>)
   end : DB unit) s1 = (a, s') →
  match a with Ok _ => recorded in_ s s' | Err e => e = ErrPublicIDExhausted end.
Proof.
  intros Hk Hr Hid Hf Href s1 E. unfold take, mbind, eff_bind, gets in E.
  unfold s1 in E. rewrite fired_rows, (take_fired in_ s r) in E by done. cbn [or_fail mret eff_ret] in E.
  unfold mret, eff_ret in E. destruct (firedRow_core in_ (st_clock s) r) as [Ei Ea]. rewrite Ea in E.
  assert (owed in_ r = match Sch_DeliveryAssistantID r with Some _ => Some ref | None => None end) as Ho.
  { unfold owed. by rewrite Hf, Href. }
  destruct (Sch_DeliveryAssistantID r) as [assistant|].
  - destruct (createWithPublicID gen deliveryIDs _) as [[id|e] s2] eqn:Ed.
    + apply draw_ok in Ed as [Hfresh Es2]. cbn in E. injection E as <- <-. exists r. rewrite Ho, Es2.
      split_and!; [done..|]. exists id. by rewrite Ei.
    + apply draw_err in Ed as [-> _]. by injection E as <- <-.
  - injection E as <- <-. by apply (recorded_alone _ _ r).
Qed.

(** A firing is recorded whole or not at all.  On success the one schedule
    it names has its firing recorded, a failure adding one to its count, and the
    delivery list grows by exactly the pending delivery the firing owes, under
    an id that is new; on failure nothing has changed, and the failure is that
    no schedule has the id or no fresh id was drawn. *)
Lemma RecordFire_records gen in_ s o s' :
  keyed s → RecordFire gen in_ s = (o, s') →
  match o with
  | Ok _ => recorded in_ s s'
  | Err e => (∃ n, s' = s <| st_fresh := n |>)
      ∧ ((e = ErrNotFound ∧ RF_ScheduleID in_ ∉ scheduleIDs s) ∨ e = ErrPublicIDExhausted)
  end.
Proof.
  intros Hk E. assert (∃ m, RecordFire gen in_ = transaction m ∧ ∀ a s1, m s = (a, s1) →
    match a with Ok _ => recorded in_ s s1
    | Err e => (e = ErrNotFound ∧ RF_ScheduleID in_ ∉ scheduleIDs s) ∨ e = ErrPublicIDExhausted end) as (m & Em & Hm).
  2: { rewrite Em in E. apply transaction_store in E. destruct o as [u|e]; [by apply Hm in E|].
       destruct E as [[s1 E] Hn]. split; [done|]. by apply Hm in E. }
  eexists. split; [reflexivity|]. intros a s1 Es. unfold mbind at 1, eff_bind at 1 in Es.
  rewrite update_schedules_eq in Es. cbv beta iota in Es.
  destruct (Nat.eqb_spec (matching (λ r, Sch_ID r == RF_ScheduleID in_) (st_schedules s)) 0) as [E0|E0].
  { injection Es as <- <-. left. split; [done|]. intros (r & Hid & Hr)%list_elem_of_fmap.
    pose proof (matching_zero _ _ E0 r Hr) as Hp. apply bool_decide_eq_false in Hp. by rewrite <- Hid in Hp. }
  destruct (matching_ex (λ r, Sch_ID r == RF_ScheduleID in_) (st_schedules s)) as (r & Hr & Hid%bool_decide_eq_true); [lia|].
  destruct (RF_Failed in_) eqn:Ef, (RF_FireRef in_) as [ref|] eqn:Er.
  2: { injection Es as <- <-. apply (recorded_alone _ _ r); [done..|]. by unfold owed; rewrite Ef. }
  1: { injection Es as <- <-. apply (recorded_alone _ _ r); [done..|]. by unfold owed; rewrite Ef. }
  - eapply RecordFire_delivers in Es; [|exact Hk|exact Hr|done|exact Ef|exact Er]. destruct a; [done|by right].
  - injection Es as <- <-. apply (recorded_alone _ _ r); [done..|]. unfold owed. rewrite Ef, Er. by destruct (Sch_DeliveryAssistantID r).
Qed.
