(* ===== verification/ScheduleExample.v ===== *)
(** * ScheduleExample: schedules at work

    A space with schedules that are due, a clock that ticks by the minute for a
    cron library, and the task service to start executors with: the theorems
    about schedules applied to them, and two behaviours worth knowing. *)

From Stdlib Require Import Ascii String.
From S2P Require Import Prelude EffLogic Text Json JsonSchema TaskCore WorkflowCore WorkflowGraph WorkflowDefinition Store.
From S2P Require Import TaskStore WorkflowStore WorkflowLifecycle StoreProgram TaskService WorkflowSafety.
From S2P Require Import WorkflowReconcile ReconcileMoves ReconcileSafety WorkflowCommands ScheduleStore ScheduleDispatch ScheduleLaws ScheduleExecutors ScheduleGates ScheduleRules.
From stdpp Require Import gmap.
Import Prelude.
Import db scheduledb schedule dispatcher.
Import coreschedule.
Local Open Scope string_scope.
Local Open Scope Z_scope.

(** ** The collaborators *)

(** Every expression but ["bad"] fires at the next full minute. *)
#[local] Instance minutes : Cron := {|
  Location := unit; Spec := string;
  LoadLocation z := if bool_decide (z = "") then Err "unknown time zone" else Ok tt;
  Parse c := if bool_decide (c = "bad") then Err "expected exactly 5 fields" else Ok c;
  NextActivation _ _ t := (t / 60 + 1) * 60;
  quoteText s := s |}.

#[local] Instance minutes_laws : CronLaws.
Proof. intros spec loc t. left. cbn. pose proof (Z.mul_succ_div_gt t 60). lia. Qed.

#[local] Existing Instance sample_agent_store.

#[local] Instance sample_executors : Executors := {|
  CreateTask := taskservice.CreateTask sample_gen sample_gen id (λ _, sample_agent_store) None None;
  StartWorkflowRun := None |}.

Lemma alone (R : relation db.Store) `{!PreOrder R} : (∀ s s', calm s s' → R s s') → Wide R id.
Proof. intros HR. split; [done|done|]. intros s. reflexivity. Qed.

#[local] Instance no_others : Foreign id.
Proof. intros s. reflexivity. Qed.

#[local] Instance sample_executors_laws : ExecutorLaws reach.
Proof.
  split; [|done]. intros cmd. apply CreateTask_wide, wide_reach, _.
Qed.

#[local] Instance sample_executors_valid : ExecutorLaws keeps_valid.
Proof.
  split; [|done]. intros cmd. apply CreateTask_wide, (alone keeps_valid).
  intros s s' (_ & _ & Hr). by apply same_rules.
Qed.

(** ** The store *)

Definition sample_row (id : string) (next failures : Z) : scheduleRow := {|
  Sch_ID := id; Sch_SpaceID := "spc"; Sch_ExecutorKind := ExecutorAgent; Sch_ExecutorID := "agt";
  Sch_CreatedBy := "usr"; Sch_Name := "daily"; Sch_Input := "report"; Sch_CronExpr := "* * * * *";
  Sch_Timezone := "UTC"; Sch_Enabled := true; Sch_PauseReason := ""; Sch_NextFireAt := next;
  Sch_LastFireAt := None; Sch_LastFireRef := None; Sch_ConsecutiveFailures := failures;
  Sch_DeliveryAssistantID := Some "ast"; Sch_DeliveryRequesterID := Some "usr";
  Sch_CreatedAt := 0; Sch_UpdatedAt := 0 |}.

Definition due_store : db.Store :=
  empty_store <| st_schedules := [sample_row "late" 60 0; sample_row "next" 5000000 0] |>.

Lemma due_store_keyed : keyed due_store.
Proof. apply (bool_decide_unpack _). vm_compute. exact I. Qed.

Definition fresh (st : db.Store) : Dispatch := mkDispatch st [] [].

Definition sample_sweep := sweep sample_gen id None None 5 (fresh due_store).

(** The schedule that is due as the sweep reads it. *)
Definition late : Schedule := toSchedule due_store (sample_row "late" 60 0).

Lemma sweep_fires_once_witness : ∃ fates d' cs,
  sample_sweep = (Ok fates, d') ∧ firedIn fates = [("late", 60)]
  ∧ Di_Started d' = [("late", 60)] ∧ map dueTime (Di_Claimed d') = [("late", 60)]
  ∧ history due_store cs (Di_Store d') ∧ ("late", 60) ∈ map dueTime cs
  ∧ (recurs cs "late" → NoDup (duesOf "late" cs)).
Proof.
  pose proof (sweep_fires_once sample_gen id None None 5 (fresh due_store) due_store_keyed) as Hf. fold sample_sweep in Hf.
  destruct sample_sweep as [[fates|e] d'] eqn:E; [|vm_compute in E; discriminate E].
  destruct Hf as (cs & won & called & Hh & Hw & Hsub & Hs & Hc & [Hfi _] & Hr).
  assert (firedIn fates = [("late", 60)]) as Ef.
  { transitivity (match sample_sweep.1 with Ok l => firedIn l | Err _ => [] end); [by rewrite E|vm_compute; reflexivity]. }
  assert (Di_Started d' = [("late", 60)] ∧ map dueTime (Di_Claimed d') = [("late", 60)]) as [E1 E2].
  { change d' with (Ok fates : res db.error _, d').2. rewrite <- E. split; vm_compute; reflexivity. }
  exists fates, d', cs. split_and!; [reflexivity|exact Ef|exact E1|exact E2|exact Hh| |].
  - eapply elem_of_sublist; [|by apply (fmap_sublist dueTime)]. cbn in Hw. rewrite <- Hw.
    change (("late", 60) ∈ map dueTime (Di_Claimed d')). rewrite E2. apply list_elem_of_here.
  - intros Hrec. by apply Hr.
Defined.

Lemma fireOne_gates_witness : ∃ next checked claimable claimed d',
  Next "* * * * *" "UTC" 1000 = Ok next
  ∧ reach due_store checked ∧ reach checked claimable
  ∧ ClaimSchedule (claimOf late next) claimable = (Ok true, claimed) ∧ reach claimed (Di_Store d')
  ∧ Di_Started d' = [("late", 60)].
Proof.
  pose proof (fireOne_gates sample_gen id None None 5 late 1000 (fresh due_store)) as Hg.
  set (m := fireOne sample_gen id None None 5 late 1000 (fresh due_store)) in Hg.
  destruct m as [r d'] eqn:E.
  assert (Di_Started d' = [("late", 60)]) as Es.
  { change d' with (r, d').2. rewrite <- E. vm_compute. reflexivity. }
  destruct Hg as [[Hno _]|(next & checked & claimable & claimed & called & En & _ & H1 & _ & _ & H2 & _ & Hc & H3 & _)].
  - rewrite Es in Hno. discriminate Hno.
  - exists next, checked, claimable, claimed, d'. repeat split; assumption.
Defined.

(** ** Failing *)

Definition failing_executors : Executors := {|
  CreateTask _ := fail (ErrService "down"); StartWorkflowRun := None |}.

(** The first tick comes before the schedule is due, and the last two after it
    is paused. *)
Definition sample_ticks : list Z := [30; 1000; 1010; 2000; 3000; 4000; 5000; 6000; 7000].

Lemma failing_schedule_pauses_witness : ∃ fates d' r',
  loop (H0 := failing_executors) sample_gen id None None 5 sample_ticks (fresh due_store) = (Ok fates, d')
  ∧ usedBy "late" (concat fates) = [("late", 60); ("late", 1020); ("late", 2040); ("late", 3060); ("late", 4020)]
  ∧ r' ∈ st_schedules (Di_Store d') ∧ Sch_ID r' = "late" ∧ Sch_NextFireAt r' = 5040 ∧ Sch_Enabled r' = false
  ∧ Sch_PauseReason r' = PauseReasonConsecutiveFailures.
Proof.
  assert (unstartable (H0 := failing_executors)) as Hu.
  { split; [|exact I]. intros x cmd st Hst. split; [discriminate|exact Hst]. }
  pose proof (failing_schedule_pauses (H0 := failing_executors) sample_gen None None 5 I Hu
    (fresh due_store) (sample_row "late" 60 0) sample_ticks) as Hp.
  cbv zeta in Hp. specialize (Hp due_store_keyed).
  destruct (fallDue _ _ _ _) as [used last] eqn:Ef in Hp.
  assert ((used, last) = ([60; 1020; 2040; 3060; 4020], 5040)) as [= -> ->] by (rewrite <- Ef; vm_compute; reflexivity).
  destruct Hp as (fates & d' & r' & E & Hus & Hr & Hid & Hnx & _ & _ & Hoff).
  - apply (bool_decide_unpack _). vm_compute. exact I.
  - apply list_elem_of_here.
  - reflexivity.
  - apply (bool_decide_unpack _). vm_compute. exact I.
  - apply (bool_decide_unpack _). vm_compute. exact I.
  - vm_compute. reflexivity.
  - vm_compute. reflexivity.
  - destruct Hoff as [H1 H2]; [vm_compute; reflexivity|]. exists fates, d', r'.
    repeat split; [exact E|exact Hus|exact Hr|exact Hid|exact Hnx|exact H1|exact H2].
Defined.

(** ** Rules and records *)

Definition sample_service : Service := {|
  Schedules := true; Agents := Some (λ _, sample_agent_store); Workflows := false; Deliveries := None |}.

(** An edit of the expression alone, and a sweep. *)
Definition sample_edit : UpdateCmd := {|
  SUC_ScheduleID := "next"; SUC_SpaceID := "spc"; SUC_Name := None; SUC_Input := None;
  SUC_CronExpr := Some "0 * * * *"; SUC_Timezone := None; SUC_Enabled := None; SUC_Delivery := None |}.

Lemma schedules_stay_valid_witness :
  valid (Update id (λ _, None) (λ _, None) sample_service sample_edit due_store).2
  ∧ map Sch_CronExpr (st_schedules (Update id (λ _, None) (λ _, None) sample_service sample_edit due_store).2)
    = ["* * * * *"; "0 * * * *"]
  ∧ valid (Di_Store sample_sweep.2).
Proof.
  destruct (schedules_stay_valid sample_gen id (λ _, None) (λ _, None) sample_service (λ s Hs, Hs) None None 5 due_store)
    as (_ & Hu & _ & Hs); [apply (bool_decide_unpack _); vm_compute; exact I|].
  split; [apply Hu|]. split; [vm_compute; reflexivity|apply (Hs [] [])].
Defined.

Definition sample_fire : RecordFireInput := {|
  RF_ScheduleID := "late"; RF_FiredAt := 1000; RF_FireRef := Some "tsk"; RF_Failed := false |}.

Lemma RecordFire_records_witness : ∃ s',
  RecordFire sample_gen sample_fire due_store = (Ok tt, s')
  ∧ map SD_FireRef (st_deliveries s') = ["tsk"] ∧ map SD_Status (st_deliveries s') = [DeliveryPending]
  ∧ map Sch_LastFireRef (st_schedules s') = [Some "tsk"; None].
Proof.
  destruct (RecordFire sample_gen sample_fire due_store) as [[[]|e] s'] eqn:E; [|vm_compute in E; discriminate E].
  destruct (RecordFire_records sample_gen sample_fire due_store (Ok tt) s' due_store_keyed E) as (r & Hr & Hid & Hrows & Hd).
  assert (r = sample_row "late" 60 0) as ->.
  { apply list_elem_of_In in Hr as [<-|[<-|[]]]; [reflexivity|discriminate Hid]. }
  destruct Hd as (i & _ & Hd). exists s'. rewrite Hd, Hrows. split_and!; vm_compute; reflexivity.
Defined.

(** ** Two behaviours worth knowing *)

(** A cron library that answers the zero time for a rule no time satisfies, as
    the one the code uses does.  The rule is accepted, and a schedule with it
    stays due: each sweep fires it again. *)
Definition no_activation : Cron := {|
  Location := unit; Spec := string; LoadLocation _ := Ok tt; Parse c := Ok c;
  NextActivation _ _ _ := 0; quoteText s := s |}.

Definition never_store : db.Store :=
  empty_store <| st_schedules := [sample_row "never" 0 0 <| Sch_CronExpr := "0 0 30 2 *" |>] |>.

Example unsatisfiable_rule_fires_every_sweep :
  @Validate no_activation "0 0 30 2 *" "UTC" = Ok tt ∧
  (let m := _ ← @sweep no_activation _ sample_gen id None None 5;
            fates ← @sweep no_activation _ sample_gen id None None 5; mret (firedIn fates) in
   (m (fresh never_store)).1) = Ok [("never", 0)].
Proof. split; vm_compute; reflexivity. Qed.

(** A success settles between the read of a schedule and the record of its next
    failure, and clears the count; the schedule is paused for the count that was
    read all the same. *)
Definition settles (s : db.Store) : db.Store :=
  s <| st_schedules := map (λ r, if Sch_NextFireAt r =? 60 then r else r <| Sch_ConsecutiveFailures := 0 |>) (st_schedules s) |>.

Example stale_count_pauses :
  let s := Di_Store (sweep (H0 := failing_executors) sample_gen settles None None 5
    (fresh (empty_store <| st_schedules := [sample_row "late" 60 4] |>))).2 in
  map (λ r, (Sch_Enabled r, Sch_PauseReason r, Sch_ConsecutiveFailures r)) (st_schedules s)
    = [(false, PauseReasonConsecutiveFailures, 0)].
Proof. vm_compute. reflexivity. Qed.
