(* ===== verification/RunDispatch.v ===== *)
(** * RunDispatch: starting, watching and stopping task runs

    internal/server/scheduler: [Module runscheduler] is scheduler.go, which hands
    the oldest pending run to a worker; [Module reaper] is stale_runs.go, which
    ends the runs nothing else will end; [Module reconciler] is
    eligibility_reconciler.go, which stops the work of accounts that lost their
    authority.  [Module runscan] has the scans of internal/infra/db/task_run.go
    that they page through.  What the code logs is what a step returns, and
    [others] is what other writers commit before each call. *)

From Stdlib Require Import Ascii String.
From S2P Require Import Prelude Text Json JsonSchema TaskCore WorkflowCore WorkflowGraph WorkflowDefinition Store.
From S2P Require Import TaskStore WorkflowStore WorkflowLifecycle StoreProgram TaskService WorkflowSafety LedgerCore LedgerStore.
From S2P Require Import WorkflowReconcile ReconcileMoves ReconcileSafety WorkflowCommands ScheduleStore ScheduleDispatch.
From stdpp Require Import gmap strings pretty.
Import Prelude.
Import db.
Local Open Scope string_scope.
Local Open Scope Z_scope.
Local Open Scope buildmax_scope.

(** ** [time.Duration.String] of a duration of at least a second *)

Definition Second : Z := 1000000000.
Definition Minute : Z := 60 * Second.
Definition Hour : Z := 60 * Minute.

(** The decimals of a fraction of a second, [fuel] of them, without the zeros
    they end in. *)
Fixpoint decimals (fuel : nat) (v : Z) : string :=
  match fuel with
  | O => ""
  | S fuel => if v =? 0 then "" else (pretty (Z.to_N (v / 10 ^ Z.of_nat fuel)) +:+ decimals fuel (v mod 10 ^ Z.of_nat fuel))
  end.

Definition duration_text (d : Z) : string :=
  let digits (n : Z) : string := pretty (Z.to_N n) in
  let fraction := decimals 9 (d mod Second) in
  let s := d / Second in
  let m := s / 60 in
  let h := m / 60 in
  (if 0 <? h then digits h +:+ "h" else "") +:+ (if 0 <? m then digits (m mod 60) +:+ "m" else "")
   +:+ digits (s mod 60) +:+ (if fraction == "" then "" else "." +:+ fraction) +:+ "s".

Example duration_text_grace : duration_text (2 * Minute) = "2m0s"%string.
Proof. vm_compute. reflexivity. Qed.

Example duration_text_fraction : duration_text (90 * Second + 50000000) = "1m30.05s"%string.
Proof. vm_compute. reflexivity. Qed.

Module runscan.
Import coretask taskdb.
Local Open Scope string_scope.
Local Open Scope Z_scope.

(** ** internal/infra/db/task_run.go *)

Definition ListCancelRequestedTaskRuns (cutoff limit : Z) : DB (list Run) :=
  gets (λ s, firstn (limit_or limit 100)
    (by_created (λ r, default 0 (Run_CancelRequestedAt r))
       (rows_where (λ r, is_active (Run_Status r)
                         && match Run_CancelRequestedAt r with Some at_ => at_ <=? cutoff | None => false end)
          (st_taskruns s)))).

Record ActiveRunRef : Type := mkActiveRunRef {
  Ref_TaskRunID : string;
  Ref_SpaceID : string;
  Ref_CreatedBy : string;
  Ref_Status : RunStatus
}.

(** [activeRunRefSelect]: an active run joined to its task and the task's space. *)
Definition activeRunRef (s : Store) (r : Run) : option ActiveRunRef :=
  if is_active (Run_Status r) then
    match take_where (λ t, Task_ID t == Run_TaskID r) (st_tasks s) with
    | Some t =>
        if resolves s "space" (Task_SpaceID t)
        then Some (mkActiveRunRef (Run_ID r) (Task_SpaceID t) (Run_CreatedBy r) (Run_Status r))
        else None
    | None => None
    end
  else None.

(** The rows after the one of the given id; all of them when there is none. *)
Fixpoint rows_after (id : string) (rows : list Run) : option (list Run) :=
  match rows with
  | [] => None
  | r :: rows => if Run_ID r == id then Some rows else rows_after id rows
  end.

Definition ListActiveTaskRunsForEligibility (afterID : string) (limit : Z) : DB (list ActiveRunRef) :=
  gets (λ s,
    let rows := if afterID == "" then st_taskruns s
                else default (st_taskruns s) (rows_after afterID (st_taskruns s)) in
    firstn (limit_or limit 100)
      (omap (activeRunRef s) (rows_where (λ r, Run_CancelRequestedAt r == None) rows))).

Definition ListActiveTaskRunsByCreator (createdBy : string) : DB (list ActiveRunRef) :=
  gets (λ s, omap (activeRunRef s) (rows_where (λ r, Run_CreatedBy r == createdBy) (st_taskruns s))).

End runscan.

Module runscheduler.
Import coretask taskdb.
Import dispatcher.
Local Open Scope string_scope.
Local Open Scope Z_scope.

Definition maxErrorMessageLength : Z := 500.
Definition maxConcurrentDispatch : nat := 1.

(** [authtoken.RunClaims] *)
Record RunClaims : Type := mkRunClaims {
  RC_UserID : string;
  RC_SpaceID : string;
  RC_TaskRunID : string;
  RC_TaskID : string
}.

#[export] Instance RunClaims_eq_dec : EqDecision RunClaims.
Proof. solve_decision. Defined.

(** A transition that sets no column but the status. *)
Definition transition (id : string) (from to : RunStatus) : TransitionRunInput := {|
  TRI_TaskRunID := id; TRI_ExpectedStatus := from; TRI_NewStatus := to; TRI_StartedAt := None;
  TRI_EndedAt := None; TRI_Output := None; TRI_Structured := None; TRI_Questions := None;
  TRI_ErrorMessage := None; TRI_SessionID := None; TRI_PromptTokens := None; TRI_CompletionTokens := None;
  TRI_TracePath := None; TRI_CancelReason := None; TRI_FailureClass := "" |}.

(** [msg[:maxErrorMessageLength]] of a longer message: bytes. *)
Definition bounded (msg : string) : string :=
  if maxErrorMessageLength <? Z.of_nat (String.length msg)
  then String.substring 0 (Z.to_nat maxErrorMessageLength) msg else msg.

(** What recording an outcome came to. *)
Inductive closing : Type :=
| Closed
| NotClosed (e : db.error)
(** The run had moved on. *)
| Overtaken
| Unread (e : db.error)
| Missing
| AlreadyOver (status : RunStatus).

(** A run that was claimed, with the credential its worker gets. *)
Record job : Type := mkJob {
  Job_Run : Run;
  Job_Token : string
}.

Inductive fate : Type :=
| Busy
| PollFailed (e : db.error)
| Idle
| TaskUnread (e : db.error)
| Unverified (id : string)
| Withdrawn (id reason : string) (c : closing)
| ClaimFailed (e : db.error)
| NotClaimed
| Unassigned (id : string) (c : closing)
| NoToken (id : string) (c : closing)
| Handed (j : job).

Inductive outcome : Type :=
| StoppedWithServer
| SpawnFailed (c : closing)
| Started (recorded : res db.error nat).

(** [WorkerRunner] and the state of the process: what running a worker comes to,
    and whether the dispatch context was canceled.  What the worker itself writes
    is among what others commit. *)
Class Host : Type := {
  RunWorker : Store → Run → string → res string (string * option string * option Z);
  stopping : Store → bool
}.

Section Scheduler.
Context `{Host} (others : Store → Store).
(** The eligibility check and the signer, where they are wired, and the text of a
    refusal. *)
Context (eligible : option (Store → string → string → res eligibility.error unit)).
Context (refusal : eligibility.error → string).
Context (mintRunToken : option (RunClaims → res string string)).

Local Notation call := (after others).

Definition cancelRun (taskRunID : string) (expected : RunStatus) (reason cause : string) : DB closing :=
  endedAt ← call now;
  updated ← attempt (call (TransitionTaskRun
    (transition taskRunID expected RunStatusCanceled
       <| TRI_EndedAt := Some endedAt |> <| TRI_ErrorMessage := Some (bounded cause) |>
       <| TRI_CancelReason := Some reason |>)));
  mret (match updated with Err e => NotClosed e | Ok false => Overtaken | Ok true => Closed end).

Definition failRun (taskRunID cause : string) : DB closing :=
  run ← attempt (call (GetTaskRun taskRunID));
  match run with
  | Err e => mret (Unread e)
  | Ok None => mret Missing
  | Ok (Some run) =>
      if RunStatusTerminal (Run_Status run) then mret (AlreadyOver (Run_Status run))
      else
        let class := if Run_Status run == RunStatusRunning then FailureWorkerLost else FailureDispatch in
        endedAt ← call now;
        updated ← attempt (call (TransitionTaskRun
          (transition taskRunID (Run_Status run) RunStatusFailed
             <| TRI_EndedAt := Some endedAt |> <| TRI_ErrorMessage := Some (bounded cause) |>
             <| TRI_FailureClass := FailureClass_string class |>)));
        mret (match updated with Err e => NotClosed e | Ok false => Overtaken | Ok true => Closed end)
  end.

(** The recorded reason for an account that may no longer act. *)
Definition withdrawalReason (e : eligibility.error) : string :=
  match e with
  | eligibility.ErrAccountDisabled => CancelReasonCreatorDisabled
  | _ => CancelReasonCreatorNotMember
  end.

Definition noTask (run : Run) : string := "run " +:+ Run_ID run +:+ " has no task".

Definition runTokenFor (run : Run) (task : option Task) : res string string :=
  match mintRunToken with
  | None => Ok ""
  | Some mint =>
      match task with
      | None => Err (noTask run)
      | Some task => mint {| RC_UserID := Run_CreatedBy run; RC_SpaceID := Task_SpaceID task;
                             RC_TaskRunID := Run_ID run; RC_TaskID := Task_ID task |}
      end
  end.

(** Whether the eligibility check or the signer needs the run's task. *)
Definition needsTask : bool := bool_decide (is_Some eligible) || bool_decide (is_Some mintRunToken).

Definition loadTask (run : Run) : DB (res db.error (option Task)) :=
  if needsTask then
    r ← attempt (call (GetTaskRunWithTask (Run_ID run)));
    mret (match r with Ok (_, task) => Ok task | Err e => Err e end)
  else mret (Ok None).

(** What the check answers; [None] when it is not asked. *)
Definition checkInitiator (run : Run) (task : option Task) : DB (option (res eligibility.error unit)) :=
  match eligible, task with
  | Some check, Some task =>
      if Run_CreatedBy run == "" then mret None
      else answer ← call (gets (λ s, check s (Run_CreatedBy run) (Task_SpaceID task))); mret (Some answer)
  | _, _ => mret None
  end.

(** The claim of a run, and what is done with the run that was claimed. *)
Definition claim (run : Run) (task : option Task) : DB fate :=
  updated ← attempt (call (TransitionTaskRun (transition (Run_ID run) RunStatusPending RunStatusScheduled)));
  match updated with
  | Err e => mret (ClaimFailed e)
  | Ok false => mret NotClaimed
  | Ok true =>
      if needsTask && (task == None) then
        c ← failRun (Run_ID run) (noTask run); mret (Unassigned (Run_ID run) c)
      else
        match runTokenFor run task with
        | Err e => c ← failRun (Run_ID run) e; mret (NoToken (Run_ID run) c)
        | Ok token => mret (Handed (mkJob run token))
        end
  end.

(** [slots]: the dispatches in flight. *)
Definition pollOnce (slots : nat) : DB fate :=
  if (maxConcurrentDispatch <=? slots)%nat then mret Busy
  else
    next ← attempt (call GetNextPendingTaskRun);
    match next with
    | Err e => mret (PollFailed e)
    | Ok None => mret Idle
    | Ok (Some run) =>
        task ← loadTask run;
        match task with
        | Err e => mret (TaskUnread e)
        | Ok task =>
            answer ← checkInitiator run task;
            match answer with
            | None | Some (Ok _) => claim run task
            | Some (Err eligibility.ErrUnavailable) => mret (Unverified (Run_ID run))
            | Some (Err e) =>
                let reason := withdrawalReason e in
                c ← cancelRun (Run_ID run) RunStatusPending reason (refusal e);
                mret (Withdrawn (Run_ID run) reason c)
            end
        end
    end.

Definition dispatch (j : job) : DB outcome :=
  answer ← call (gets (λ s, RunWorker s (Job_Run j) (Job_Token j)));
  match answer with
  | Err e =>
      stopped ← call (gets (λ s, stopping s));
      if (stopped : bool) then mret StoppedWithServer
      else c ← failRun (Run_ID (Job_Run j)) e; mret (SpawnFailed c)
  | Ok (workerType, k8sName, k8sAt) =>
      recorded ← attempt (call (UpdateTaskRunWorkerInfo (Run_ID (Job_Run j)) workerType k8sName k8sAt));
      mret (Started recorded)
  end.

(** A tick of the loop with what becomes of the dispatch it starts. *)
Definition turn (slots : nat) : DB (fate * option outcome) :=
  f ← pollOnce slots;
  match f with
  | Handed j => o ← dispatch j; mret (f, Some o)
  | _ => mret (f, None)
  end.
End Scheduler.

End runscheduler.

Module reaper.
Import coretask taskdb runscan.
Import dispatcher.
Import runscheduler.
Local Open Scope string_scope.
Local Open Scope Z_scope.

Definition WorkerLivenessGrace : Z := 2 * Minute.
Definition defaultRunTimeout : Z := 6 * Hour.
Definition defaultCancelGrace : Z := 2 * Minute.
Definition defaultLivenessGrace : Z := WorkerLivenessGrace.
Definition staleRunLimit : Z := 100.

Inductive ending : Type :=
| Unfinished (e : db.error)
| Outrun
(** The ledger calls that were settled, and the Job that was deleted. *)
| Finished (settled : res db.error nat) (job : option (string * bool)).

(** [StaleRunReaper]; [WorkerJobDeleter] is there where workers are Jobs, and
    says whether a deletion worked. *)
Record StaleRunReaper : Type := mkStaleRunReaper {
  SR_jobs : option (Store → string → bool);
  SR_timeout : Z;
  SR_cancelGrace : Z;
  SR_livenessGrace : Z
}.

Definition NewStaleRunReaper (jobs : option (Store → string → bool)) (timeout : Z) : StaleRunReaper := {|
  SR_jobs := jobs; SR_timeout := if timeout <=? 0 then defaultRunTimeout else timeout;
  SR_cancelGrace := defaultCancelGrace; SR_livenessGrace := defaultLivenessGrace |}.

Section Reaper.
Context (others : Store → Store) (c : StaleRunReaper).

Local Notation call := (after others).

Definition deleteWorkerJob (run : Run) : DB (option (string * bool)) :=
  match SR_jobs c, ref_of (Run_K8sJobName run) with
  | Some delete, Some name => deleted ← call (gets (λ s, delete s name)); mret (Some (name, deleted))
  | _, _ => mret None
  end.

Definition finish (run : Run) (status : RunStatus) (class message : string) (now_ : Z) : DB ending :=
  updated ← attempt (call (TransitionTaskRun
    (transition (Run_ID run) (Run_Status run) status
       <| TRI_EndedAt := Some now_ |> <| TRI_ErrorMessage := Some message |> <| TRI_FailureClass := class |>)));
  match updated with
  | Err e => mret (Unfinished e)
  | Ok false => mret Outrun
  | Ok true =>
      settled ← attempt (call (ledgerdb.SettleOrphanedLLMCallsForRun (Run_ID run) now_));
      job ← deleteWorkerJob run;
      mret (Finished settled job)
  end.

(** The runs of a scan, each ended or left; none when the scan fails. *)
Definition finishAll (scan : DB (list Run)) (status : RunStatus) (class message : string) (now_ : Z) :
    DB (list (string * ending)) :=
  runs ← attempt (call scan);
  match runs with
  | Err _ => mret []
  | Ok runs => mapM (λ run, e ← finish run status class message now_; mret (Run_ID run, e)) runs
  end.

Definition sweepCanceled (now_ : Z) : DB (list (string * ending)) :=
  finishAll (ListCancelRequestedTaskRuns (now_ - SR_cancelGrace c) staleRunLimit) RunStatusCanceled ""
    ("this run was canceled: no worker confirmed the cancel within " +:+ duration_text (SR_cancelGrace c)) now_.

Definition sweepLostWorkers (now_ : Z) : DB (list (string * ending)) :=
  finishAll (ListLostWorkerTaskRuns (now_ - SR_livenessGrace c) staleRunLimit) RunStatusFailed
    (FailureClass_string FailureWorkerLost)
    ("this run lost its worker: nothing was heard from it for " +:+ duration_text (SR_livenessGrace c)) now_.

Definition sweepAbandoned (now_ : Z) : DB (list (string * ending)) :=
  finishAll (ListStaleTaskRuns (now_ - SR_timeout c) staleRunLimit) RunStatusFailed
    (FailureClass_string FailureAbandoned)
    ("this run was abandoned: no worker reported an outcome within " +:+ duration_text (SR_timeout c)) now_.

Definition Sweep (now_ : Z) : DB (list (string * ending)) :=
  canceled ← sweepCanceled now_;
  lost ← sweepLostWorkers now_;
  abandoned ← sweepAbandoned now_;
  mret (canceled ++ lost ++ abandoned)%list.
End Reaper.

End reaper.

Module reconciler.
Import coretask taskdb runscan.
Import dispatcher.
Import runscheduler.
Local Open Scope string_scope.
Local Open Scope Z_scope.

Definition eligibilityScanBatch : Z := 200.

Section Reconciler.
Context (others : Store → Store) (check : Store → string → string → res eligibility.error unit).

Local Notation call := (after others).

(** Whether a cancel was requested, when one was due. *)
Definition reconcileRun (ref : ActiveRunRef) (now_ : Z) : DB (option (res db.error bool)) :=
  if Ref_CreatedBy ref == "" then mret None
  else
    answer ← call (gets (λ s, check s (Ref_CreatedBy ref) (Ref_SpaceID ref)));
    match answer with
    | Ok _ | Err eligibility.ErrUnavailable => mret None
    | Err e =>
        let reason := withdrawalReason e in
        requested ← attempt (call (RequestTaskRunCancel (Ref_TaskRunID ref) "" reason now_));
        mret (Some requested)
    end.

(** The loop of [Sweep], for [fuel] pages: whether it came to its end. *)
Fixpoint sweepPages (fuel : nat) (afterID : string) (now_ : Z) : DB bool :=
  match fuel with
  | O => mret false
  | S fuel =>
      refs ← attempt (call (ListActiveTaskRunsForEligibility afterID eligibilityScanBatch));
      match refs with
      | Err _ | Ok [] => mret true
      | Ok refs =>
          _ ← mapM (λ ref, reconcileRun ref now_) refs;
          if Z.of_nat (length refs) <? eligibilityScanBatch then mret true
          else sweepPages fuel (default "" (Ref_TaskRunID <$> last refs)) now_
      end
  end.

Definition Sweep (fuel : nat) (now_ : Z) : DB bool := sweepPages fuel "" now_.
End Reconciler.

End reconciler.
