(* ===== verification/RunLaws.v ===== *)
(** * RunLaws: a run is started once, and only when it may be

    A [claims] history is what happens to the task runs over time: claims of
    pending runs, and everything the stores' operations may do.  A turn of the
    scheduler is one, whatever other schedulers and writers interleave with it,
    and in a history every run is claimed at most once. *)

From Stdlib Require Import Ascii String.
From S2P Require Import Prelude EffLogic Text Json JsonSchema TaskCore WorkflowCore WorkflowGraph WorkflowDefinition Store.
From S2P Require Import TaskStore WorkflowStore WorkflowLifecycle StoreProgram TaskService WorkflowSafety LedgerCore LedgerStore.
From S2P Require Import WorkflowReconcile ReconcileMoves ReconcileSafety WorkflowCommands ScheduleStore ScheduleDispatch.
From S2P Require Import ScheduleDispatch ScheduleLaws RunDispatch.
From stdpp Require Import gmap strings.
Import Prelude.
Import db coretask taskdb dispatcher runscheduler.
Local Open Scope Z_scope.
Local Open Scope buildmax_scope.

(** ** Claims *)

Definition claimRun (id : string) : DB bool := TransitionTaskRun (transition id RunStatusPending RunStatusScheduled).

Definition run_keys (s : Store) : Prop := NoDup (map Run_ID (st_taskruns s)).

(** The run has left PENDING. *)
Definition started (id : string) (s : Store) : Prop :=
  ∃ r, r ∈ st_taskruns s ∧ Run_ID r = id ∧ Run_Status r ≠ RunStatusPending.

Inductive claims : Store → list string → Store → Prop :=
| claims_nil s : claims s [] s
| claims_claim s id (claimed : bool) s1 ids s2 :
    claimRun id s = (Ok claimed, s1) → claims s1 ids s2 →
    claims s ((if claimed then [id] else []) ++ ids) s2
| claims_other s s1 ids s2 : evolves s s1 → claims s1 ids s2 → claims s ids s2.

#[export] Instance claims_events : EventHistory claims.
Proof.
  split; [constructor|]. intros s1 l1 s2 l2 s3. induction 1 as [s|s id b s1 ids s2 E _ IH|s s1 ids s2 E _ IH]; intros H3; [done| |].
  - rewrite <- app_assoc. eapply claims_claim; eauto.
  - eapply claims_other; eauto.
Qed.

Notation flow := (reaches claims).

Lemma evolves_flow s s' : evolves s s' → flow s s'.
Proof. intros E. exists []. eapply claims_other; [exact E|constructor]. Qed.

Lemma flow_steps {A} (m : DB A) : steps evolves m → steps flow m.
Proof. intros Hm s. apply evolves_flow, Hm. Qed.

Lemma claimRun_evolves id s o s1 : claimRun id s = (o, s1) → evolves s s1.
Proof. intros E. pose proof (steps_TransitionTaskRun (transition id RunStatusPending RunStatusScheduled) s) as H. unfold claimRun in E. by rewrite E in H. Qed.

Lemma claims_evolves s ids s' : claims s ids s' → evolves s s'.
Proof.
  induction 1 as [s|s id b s1 ids s2 E _ IH|s s1 ids s2 E _ IH]; [done| |by etransitivity].
  etransitivity; [by eapply claimRun_evolves|done].
Qed.

Lemma evolves_keys s s' : evolves s s' → run_keys s → run_keys s'.
Proof. intros E K. by apply (ev_taskruns _ _ E). Qed.

Lemma not_pending_again a b : rtc taskrun_step a b → a ≠ RunStatusPending → b ≠ RunStatusPending.
Proof. induction 1 as [|a b c Hab _ IH]; [done|]. intros Ha. apply IH. unfold taskrun_step in Hab. by destruct a, b. Qed.

Lemma started_evolves id s s' : run_keys s → evolves s s' → started id s → started id s'.
Proof.
  intros K E (r & Hr & Hid & Hst). destruct (table_evolves_row _ _ _ _ r K (ev_taskruns _ _ E) Hr) as (r' & Hr' & [Eo Es]).
  injection Eo as E1 _ _ _. exists r'. split_and!; [done|congruence|by eapply not_pending_again].
Qed.

Lemma claimRun_true id s s1 : run_keys s → claimRun id s = (Ok true, s1) →
  (∃ r, r ∈ st_taskruns s ∧ Run_ID r = id ∧ Run_Status r = RunStatusPending)
  ∧ ∃ r, r ∈ st_taskruns s1 ∧ Run_ID r = id ∧ Run_Status r = RunStatusScheduled.
Proof.
  intros K E. apply TransitionTaskRun_ok in E as [_ [(? & _)|(_ & run & [Hr Hid Hst Er _ _])]]; [done| |done].
  split; [by exists run|]. exists (buildTaskRunUpdates (transition id RunStatusPending RunStatusScheduled) run).
  destruct (build_keeps (transition id RunStatusPending RunStatusScheduled) run) as (B1 & _ & B3 & _).
  split_and!; [|by rewrite B1|by rewrite B3]. rewrite Er. apply elem_of_update_where. exists run.
  split; [done|]. by rewrite Hid, Hst, !bool_decide_eq_true_2.
Qed.

Lemma started_not_claimed s ids s' id : claims s ids s' → run_keys s → started id s → id ∉ ids.
Proof.
  induction 1 as [s|s id' b s1 ids s2 E _ IH|s s1 ids s2 E _ IH]; intros K Hs; [apply not_elem_of_nil| |].
  - pose proof (claimRun_evolves _ _ _ _ E) as Ev.
    intros [Hin|Hin]%elem_of_app; [|by apply IH; eauto using evolves_keys, started_evolves].
    destruct b; [|by apply not_elem_of_nil in Hin]. apply list_elem_of_singleton in Hin as ->.
    destruct (claimRun_true _ _ _ K E) as [(r & Hr & E1 & E2) _], Hs as (r' & Hr' & E3 & E4).
    apply E4. rewrite <- E2. f_equal. apply (NoDup_key Run_ID (st_taskruns s)); [done..|congruence].
  - apply IH; eauto using evolves_keys, started_evolves.
Qed.

Lemma claims_once s ids s' : claims s ids s' → run_keys s → NoDup ids ∧ ∀ id, id ∈ ids → started id s'.
Proof.
  induction 1 as [s|s id b s1 ids s2 E Hc IH|s s1 ids s2 E _ IH]; intros K.
  - split; [constructor|]. by intros id ?%not_elem_of_nil.
  - pose proof (evolves_keys _ _ (claimRun_evolves _ _ _ _ E) K) as K1. destruct (IH K1) as [Hn Hst].
    destruct b; [|done]. destruct (claimRun_true _ _ _ K E) as [_ (r & Hr & E1 & E2)].
    assert (started id s1) as H1 by (exists r; by rewrite E2). split.
    + apply NoDup_cons. split; [by eapply started_not_claimed|done].
    + intros id' [->|Hin]%elem_of_cons; [|by apply Hst].
      eapply started_evolves; [exact K1|by eapply claims_evolves|done].
  - apply IH. by eapply evolves_keys.
Qed.

(** ** The scheduler *)

(** What others commit is a history too. *)
Class Coherent (others : Store → Store) : Prop := coherent s : flow s (others s).

Lemma after_flow others `{!Coherent others} {A} (m : DB A) : steps flow m → steps flow (after others m).
Proof. intros Hm s. etransitivity; [apply coherent|apply Hm]. Qed.

Create HintDb bm_flow_runs.
#[export] Hint Extern 1 (PreOrder _) => typeclasses eauto : bm_flow_runs.
#[export] Hint Resolve steps_ret steps_fail steps_gets attempt_steps after_flow : bm_flow_runs.
#[export] Hint Extern 1 (steps flow (TransitionTaskRun _)) => (apply flow_steps, steps_TransitionTaskRun) : bm_flow_runs.
#[export] Hint Extern 1 (steps flow (UpdateTaskRunWorkerInfo _ _ _ _)) => (apply flow_steps, steps_UpdateTaskRunWorkerInfo) : bm_flow_runs.
#[export] Hint Extern 1 (steps flow (RequestTaskRunCancel _ _ _ _)) => (apply flow_steps, steps_RequestTaskRunCancel) : bm_flow_runs.
#[export] Hint Extern 1 (steps flow (GetTaskRun _)) => (apply steps_gets, _) : bm_flow_runs.
#[export] Hint Extern 1 (steps flow GetNextPendingTaskRun) => (apply steps_gets, _) : bm_flow_runs.
#[export] Hint Extern 1 (steps flow now) => (apply steps_gets, _) : bm_flow_runs.

Ltac flow_runs :=
  repeat lazymatch goal with
  | |- forall _, _ => intro
  | |- steps _ (mbind _ _) => apply steps_bind
  | |- steps _ (let _ := _ in _) => cbv zeta
  | |- steps _ (match ?x with _ => _ end) => destruct x
  | |- steps _ _ => solve [eauto 6 with bm_flow_runs]
  | |- PreOrder _ => typeclasses eauto
  end.

Section Turns.
Context `{Host} (others : Store → Store) `{!Coherent others}.
Context (eligible : option (Store → string → string → res eligibility.error unit)).
Context (refusal : eligibility.error → string).
Context (mintRunToken : option (RunClaims → res string string)).

Lemma failRun_flow id cause : steps flow (failRun others id cause).
Proof using Coherent0. unfold failRun. flow_runs. Qed.

Lemma cancelRun_flow id expected reason cause : steps flow (cancelRun others id expected reason cause).
Proof using Coherent0. unfold cancelRun. flow_runs. Qed.

Lemma GetTaskRunWithTask_flow id : steps flow (GetTaskRunWithTask id).
Proof. unfold GetTaskRunWithTask, GetTaskRun, GetTask. flow_runs. Qed.
#[local] Hint Resolve failRun_flow cancelRun_flow GetTaskRunWithTask_flow : bm_flow_runs.

Lemma loadTask_flow run : steps flow (loadTask others eligible mintRunToken run).
Proof using Coherent0. unfold loadTask. flow_runs. Qed.

Lemma checkInitiator_flow run task : steps flow (checkInitiator others eligible run task).
Proof using Coherent0. unfold checkInitiator. flow_runs. Qed.

Lemma dispatch_flow j : steps flow (dispatch others j).
Proof using Coherent0. unfold dispatch. flow_runs. Qed.

(** The runs a turn hands to a worker. *)
Definition handed (f : fate) : list string := match f with Handed j => [Run_ID (Job_Run j)] | _ => [] end.

Lemma claims_trivial s ids s' : claims s ids s' → True → True.
Proof. done. Qed.

Notation logs m own := (logs claims (λ _, True) m own).

Lemma claimRun_logs id : logs (attempt (after others (claimRun id))) (λ r, match r with Ok true => [id] | _ => [] end).
Proof using Coherent0.
  intros s _. destruct (coherent s) as [l Hl]. unfold attempt, catch, mbind, eff_bind, after.
  destruct (claimRun id (others s)) as [[b|e] s1] eqn:E.
  - exists (l ++ ((if b then [id] else []) ++ [])). cbn. split.
    + eapply events_app; [exact Hl|]. eapply claims_claim; [exact E|constructor].
    + rewrite app_nil_r. destruct b; [by apply sublist_inserts_l|apply sublist_nil_l].
  - exists (l ++ []). assert (claims s (l ++ []) s1).
    { eapply events_app; [exact Hl|]. eapply claims_other; [by eapply claimRun_evolves|constructor]. }
    destruct (e == panic); (split; [done|]); [done|apply sublist_nil_l].
Qed.

Lemma claim_logs run task : logs (claim others eligible mintRunToken run task) handed.
Proof using Coherent0.
  unfold claim. eapply (logs_then claims); [apply (claimRun_logs (Run_ID run))| |].
  - intros [[]|e]; [|flow_runs..]. unfold runTokenFor. flow_runs.
  - intros [[]|e] s f s' E; [|apply ret_ok in E as [-> _]; apply sublist_nil_l..].
    destruct (_ && _); [by apply eff_bind_ok in E as (c & s1 & _ & [-> _]%ret_ok); apply sublist_nil_l|].
    destruct (runTokenFor _ _ _) as [token|e]; [by apply ret_ok in E as [-> _]|].
    apply eff_bind_ok in E as (c & s1 & _ & [-> _]%ret_ok). apply sublist_nil_l.
Qed.

Lemma pollOnce_logs slots : logs (pollOnce others eligible refusal mintRunToken slots) handed.
Proof using Coherent0.
  unfold pollOnce. destruct (_ <=? _)%nat; [by apply (logs_ret claims)|].
  apply (logs_after _ _ claims_trivial); [flow_runs|]. intros [[run|]|e]; [|by apply (logs_ret claims)..].
  apply (logs_after _ _ claims_trivial); [apply loadTask_flow|]. intros [task|e]; [|by apply (logs_ret claims)].
  apply (logs_after _ _ claims_trivial); [apply checkInitiator_flow|]. intros [[[]|[]]|]; try apply claim_logs; try by apply (logs_ret claims).
  all: cbv zeta; apply (logs_after _ _ claims_trivial); [apply cancelRun_flow|]; intros c; by apply (logs_ret claims).
Qed.

(** C14: A task run is handed to a worker at most once.  Whatever other
    schedulers, workers and writers commit while a turn runs, the turn is a
    history in which every run is claimed at most once, the run it hands to a
    worker is one it claimed, and no later history claims that run again. *)
Theorem runs_dispatched_once slots s f o s' :
  run_keys s → turn others eligible refusal mintRunToken slots s = (Ok (f, o), s') →
  ∃ ids, claims s ids s' ∧ NoDup ids ∧ handed f `sublist_of` ids
    ∧ ∀ later ids', claims s' ids' later → ∀ id, id ∈ ids → id ∉ ids'.
Proof using Coherent0.
  intros K E. unfold turn in E. apply eff_bind_ok in E as (f' & s1 & E1 & E).
  destruct (logs_ok _ _ _ _ _ _ _ (pollOnce_logs slots) I E1) as (ids1 & H1 & Hf).
  assert (f' = f ∧ ∃ ids2, claims s1 ids2 s') as [-> [ids2 H2]].
  { destruct f'; try by apply ret_ok in E as [[= -> _] ->]; (split; [done|]; exists []; constructor).
    apply eff_bind_ok in E as (o' & s2 & E2 & [[= -> _] ->]%ret_ok). split; [done|].
    pose proof (dispatch_flow j s1) as [l Hl]. rewrite E2 in Hl. by exists l. }
  pose proof (events_app _ _ _ _ _ H1 H2) as Hc. destruct (claims_once _ _ _ Hc K) as [Hn Hst].
  exists (ids1 ++ ids2). split_and!; [done|done|by apply sublist_inserts_r|].
  intros later ids' Hl id Hid. eapply started_not_claimed; [exact Hl| |by apply Hst].
  by eapply evolves_keys; [eapply claims_evolves|].
Qed.
End Turns.

(** * What a poll may do

    A run is handed to a worker only when every gate of the poll let it through;
    a run it may not start is either left alone or ended with the reason. *)

Import Prelude.
Import db coretask taskdb dispatcher runscheduler.
Local Open Scope Z_scope.
Local Open Scope buildmax_scope.

(** A transition that applied leaves its run as it says. *)
Lemma TransitionTaskRun_true in_ s s' : run_keys s → TransitionTaskRun in_ s = (Ok true, s') →
  ∃ r, r ∈ st_taskruns s ∧ Run_ID r = TRI_TaskRunID in_ ∧ Run_Status r = TRI_ExpectedStatus in_
    ∧ buildTaskRunUpdates in_ r ∈ st_taskruns s'.
Proof.
  intros K E. apply TransitionTaskRun_ok in E as [_ [(? & _)|(_ & r & [Hr Hid Hst Er _ _])]]; [done| |done].
  exists r. split_and!; [done..|]. rewrite Er. apply elem_of_update_where. exists r.
  by rewrite Hid, Hst, !bool_decide_eq_true_2.
Qed.

Lemma TransitionTaskRun_false in_ s s' : run_keys s → TransitionTaskRun in_ s = (Ok false, s') → s' = s.
Proof. intros K E. apply TransitionTaskRun_ok in E as [_ [(_ & -> & _)|(? & _)]]; done. Qed.

Lemma TransitionTaskRun_err in_ s e s' : TransitionTaskRun in_ s = (Err e, s') → ∃ n, s' = s <| st_fresh := n |>.
Proof.
  unfold TransitionTaskRun. destruct (negb _); [intros [= _ <-]; exists (st_fresh s); by destruct s|].
  by intros ?%transaction_err.
Qed.

(** An active run's task is not touched by what ends it: the columns an end
    writes. *)
Definition ended (in_ : TransitionRunInput) (r : Run) : Prop :=
  Run_ID r = TRI_TaskRunID in_ ∧ Run_Status r = TRI_NewStatus in_ ∧ Run_ErrorMessage r = TRI_ErrorMessage in_
  ∧ Run_EndedAt r = TRI_EndedAt in_
  ∧ (∀ reason, TRI_CancelReason in_ = Some reason → Run_CancelReason r = reason)
  ∧ (TRI_NewStatus in_ = RunStatusFailed → Run_FailureClass_ r = Some (NormalizeFailureClass (TRI_FailureClass in_))).

Lemma build_ended in_ r : Run_ID r = TRI_TaskRunID in_ → is_Some (TRI_ErrorMessage in_) → is_Some (TRI_EndedAt in_) →
  ended in_ (buildTaskRunUpdates in_ r).
Proof.
  intros Hid [m Hm] [t Ht]. destruct (build_keeps in_ r) as (B1 & _ & B3 & _). unfold ended. rewrite B1, B3, Hm, Ht.
  split_and!; [done|done| | | |].
  - unfold buildTaskRunUpdates. rewrite Hm. by skip_updates.
  - unfold buildTaskRunUpdates. rewrite Ht. by skip_updates.
  - intros reason E. unfold buildTaskRunUpdates. rewrite E. by skip_updates.
  - intros E. unfold buildTaskRunUpdates, failureClassFor. by rewrite E.
Qed.

Section Gates.
Context `{Host} (others : Store → Store) `{!Coherent others}.
Context (eligible : option (Store → string → string → res eligibility.error unit)).
Context (refusal : eligibility.error → string).
Context (mintRunToken : option (RunClaims → res string string)).

(** Only others wrote. *)
Definition waits : relation Store := rtc (λ s s', s' = others s).

Lemma waits_keys s s' : waits s s' → run_keys s → run_keys s'.
Proof.
  induction 1 as [|s s1 s2 E _ IH]; [done|]. intros K. apply IH. subst s1. destruct (coherent s) as [l Hl].
  by eapply evolves_keys; [eapply claims_evolves|].
Qed.

Lemma call_gets {A} (f : Store → A) s a s' : after others (gets f) s = (Ok a, s') → s' = others s ∧ a = f s'.
Proof. unfold after. by intros [-> ->]%gets_ok. Qed.

Lemma call_waits {A} (f : Store → A) s a s' : after others (gets f) s = (Ok a, s') → waits s s'.
Proof. intros [-> _]%call_gets. by apply rtc_once. Qed.

(** A call of a read that cannot fail. *)
Lemma attempt_read {A} (m : DB A) s r s' : (∀ s, ∃ a, m s = (Ok a, s)) → attempt (after others m) s = (Ok r, s') →
  waits s s' ∧ ∃ a, r = Ok a ∧ m s' = (Ok a, s').
Proof.
  intros Hm E. apply attempt_ok in E. unfold after in E. destruct (Hm (others s)) as [a Ha].
  destruct r as [a'|e]; rewrite Ha in E; [|done]. injection E as <- <-. split; [by apply rtc_once|]. by exists a.
Qed.

Lemma GetTaskRunWithTask_reads id s : ∃ a, GetTaskRunWithTask id s = (Ok a, s).
Proof.
  unfold GetTaskRunWithTask, GetTaskRun, GetTask, mbind, eff_bind, gets. cbn.
  destruct (take_where _ (st_taskruns s)); by eexists.
Qed.

(** The run a poll is about: the oldest pending one, and its task where one is
    needed. *)
Record taken (run : Run) (task : option Task) (s : Store) : Prop := {
  tk_oldest : ∃ read, waits s read ∧ GetNextPendingTaskRun read = (Ok (Some run), read);
  tk_task : needsTask eligible mintRunToken = true →
    ∃ read row, waits s read ∧ GetTaskRunWithTask (Run_ID run) read = (Ok (row, task), read);
  tk_no_task : needsTask eligible mintRunToken = false → task = None
}.

(** What the check said of the run's initiator in the space of its task. *)
Definition answered (run : Run) (task : option Task) (s : Store) (answer : res eligibility.error unit) : Prop :=
  ∃ check t checked, eligible = Some check ∧ task = Some t ∧ Run_CreatedBy run ≠ ""%string
    ∧ waits s checked ∧ check checked (Run_CreatedBy run) (Task_SpaceID t) = answer.

(** The initiator may have it executed, where there is one to ask about. *)
Definition cleared (run : Run) (task : option Task) (s : Store) : Prop :=
  ∀ check, eligible = Some check → Run_CreatedBy run ≠ ""%string → is_Some task → answered run task s (Ok tt).

(** The run was canceled with the reason, unless it was no longer pending when
    that was written, or the write failed. *)
Definition canceled (id reason cause : string) (c : closing) (s s' : Store) : Prop :=
  match c with
  | Closed => ∃ r, r ∈ st_taskruns s' ∧ Run_ID r = id ∧ Run_Status r = RunStatusCanceled
      ∧ Run_CancelReason r = reason ∧ Run_ErrorMessage r = Some (bounded cause) ∧ is_Some (Run_EndedAt r)
  | Overtaken => waits s s' ∧ ∀ r, r ∈ st_taskruns s' → Run_ID r = id → Run_Status r ≠ RunStatusPending
  | NotClosed e => ∃ w in_, waits s w ∧ TRI_TaskRunID in_ = id ∧ TRI_ExpectedStatus in_ = RunStatusPending
      ∧ TRI_NewStatus in_ = RunStatusCanceled ∧ TransitionTaskRun in_ w = (Err e, s')
  | _ => False
  end.

(** The run was ended as failed, unless it was gone, over or moved on when that
    was looked at or written, or the write failed. *)
Definition failed (id cause : string) (c : closing) (s s' : Store) : Prop :=
  match c with
  | Closed => ∃ r, r ∈ st_taskruns s' ∧ Run_ID r = id ∧ Run_Status r = RunStatusFailed
      ∧ Run_ErrorMessage r = Some (bounded cause) ∧ is_Some (Run_EndedAt r)
  | Overtaken => waits s s' ∧ ∃ read r, waits s read ∧ r ∈ st_taskruns read ∧ Run_ID r = id
      ∧ ∀ r', r' ∈ st_taskruns s' → Run_ID r' = id → Run_Status r' ≠ Run_Status r
  | AlreadyOver status => waits s s' ∧ RunStatusTerminal status = true
      ∧ ∃ r, r ∈ st_taskruns s' ∧ Run_ID r = id ∧ Run_Status r = status
  | Missing => waits s s' ∧ ∀ r, r ∈ st_taskruns s' → Run_ID r ≠ id
  | NotClosed e => ∃ w in_, waits s w ∧ TRI_TaskRunID in_ = id ∧ TRI_NewStatus in_ = RunStatusFailed
      ∧ TransitionTaskRun in_ w = (Err e, s')
  | Unread _ => False
  end.

(** The run was claimed and then ended as failed. *)
Definition claimed_failed (id cause : string) (c : closing) (s s' : Store) : Prop :=
  ∃ ready claimed, waits s ready ∧ claimRun id ready = (Ok true, claimed) ∧ failed id cause c claimed s'.

(** Whom the credential of a run names. *)
Definition credential (run : Run) (t : Task) : RunClaims :=
  mkRunClaims (Run_CreatedBy run) (Task_SpaceID t) (Run_ID run) (Task_ID t).

(** What a poll that ended in [f] has found and done; its reads do not fail. *)
Definition polled (f : fate) (s s' : Store) : Prop :=
  match f with
  | Busy => s' = s
  | PollFailed _ | TaskUnread _ => False
  | Idle => waits s s' ∧ GetNextPendingTaskRun s' = (Ok None, s')
  | Unverified id => ∃ run task, taken run task s ∧ id = Run_ID run
      ∧ answered run task s (Err eligibility.ErrUnavailable) ∧ waits s s'
  | Withdrawn id reason c => ∃ run task e checked, taken run task s ∧ id = Run_ID run
      ∧ answered run task s (Err e) ∧ e ≠ eligibility.ErrUnavailable
      ∧ reason = match e with eligibility.ErrAccountDisabled => "creator_disabled"
                 | _ => "creator_not_member" end%string
      ∧ waits s checked ∧ canceled id reason (refusal e) c checked s'
  | NotClaimed => ∃ run task, taken run task s ∧ cleared run task s ∧ waits s s'
      ∧ ∀ r, r ∈ st_taskruns s' → Run_ID r = Run_ID run → Run_Status r ≠ RunStatusPending
  | ClaimFailed e => ∃ run task w, taken run task s ∧ cleared run task s ∧ waits s w
      ∧ claimRun (Run_ID run) w = (Err e, s')
  | Unassigned id c => ∃ run, taken run None s ∧ id = Run_ID run ∧ needsTask eligible mintRunToken = true
      ∧ claimed_failed id (noTask run) c s s'
  | NoToken id c => ∃ run t mint cause, taken run (Some t) s ∧ cleared run (Some t) s ∧ id = Run_ID run
      ∧ mintRunToken = Some mint ∧ mint (credential run t) = Err cause ∧ claimed_failed id cause c s s'
  | Handed j => ∃ task w, taken (Job_Run j) task s ∧ cleared (Job_Run j) task s
      ∧ (∀ check, eligible = Some check → is_Some task)
      ∧ match mintRunToken with
        | Some mint => ∃ t, task = Some t ∧ mint (credential (Job_Run j) t) = Ok (Job_Token j)
        | None => Job_Token j = ""%string
        end
      ∧ waits s w ∧ claimRun (Run_ID (Job_Run j)) w = (Ok true, s')
  end.

Lemma loadTask_read run s r s' : loadTask others eligible mintRunToken run s = (Ok r, s') →
  waits s s' ∧ ∃ task, r = Ok task
    ∧ (needsTask eligible mintRunToken = true → ∃ read row, waits s read ∧ GetTaskRunWithTask (Run_ID run) read = (Ok (row, task), read))
    ∧ (needsTask eligible mintRunToken = false → task = None).
Proof.
  unfold loadTask. destruct (needsTask _ _) eqn:En.
  - intros (a & s1 & (Hw & [row task] & -> & Er)%attempt_read & [-> ->]%ret_ok)%eff_bind_ok; [|apply GetTaskRunWithTask_reads].
    split; [done|]. exists task. split_and!; [done| |done]. intros _. by exists s1, row.
  - intros [-> ->]%ret_ok. split; [done|]. by exists None.
Qed.

Lemma checkInitiator_answer run task s a s' : checkInitiator others eligible run task s = (Ok a, s') →
  waits s s' ∧ match a with
  | Some answer => answered run task s answer
  | None => eligible = None ∨ task = None ∨ Run_CreatedBy run = ""%string
  end.
Proof.
  unfold checkInitiator. destruct eligible as [check|] eqn:Ee; [|intros [-> ->]%ret_ok; split; [done|by left]].
  destruct task as [t|]; [|intros [-> ->]%ret_ok; split; [done|by right; left]].
  destruct (bool_decide_reflect (Run_CreatedBy run = ""%string)) as [E|E]; [intros [-> ->]%ret_ok; split; [done|by right; right]|].
  intros (answer & s1 & Ha & [-> ->]%ret_ok)%eff_bind_ok. split; [by eapply call_waits|].
  apply call_gets in Ha as [-> ->]. exists check, t, (others s). split_and!; [done..|by apply rtc_once|done].
Qed.

Lemma cancelRun_cases id reason cause s c s' : run_keys s →
  cancelRun others id RunStatusPending reason cause s = (Ok c, s') → canceled id reason cause c s s'.
Proof.
  intros K. unfold cancelRun. intros (at_ & s1 & W1%call_waits & E)%eff_bind_ok.
  apply eff_bind_ok in E as (u & s2 & Eu%attempt_ok & [-> ->]%ret_ok). unfold after in Eu.
  assert (waits s (others s1)) as W by (etransitivity; [exact W1|by apply rtc_once]).
  destruct u as [[]|e]; cbn.
  - apply TransitionTaskRun_true in Eu as (r & _ & Hid & _ & Hr); [|by eapply waits_keys].
    eexists. split; [exact Hr|].
    destruct (build_ended _ _ Hid (mk_is_Some _ _ eq_refl) (mk_is_Some _ _ eq_refl)) as (E1 & E2 & E3 & E4 & E5 & _).
    split_and!; [exact E1|exact E2|by apply E5|exact E3|rewrite E4; by eexists].
  - apply TransitionTaskRun_ok in Eu as [_ [(_ & -> & Hno)|(? & _)]]; [|done|by eapply waits_keys]. split; [exact W|exact Hno].
  - eexists _, _. split; [exact W|]. split_and!; [| | |exact Eu]; done.
Qed.

Lemma failRun_cases id cause s c s' : run_keys s → failRun others id cause s = (Ok c, s') → failed id cause c s s'.
Proof.
  intros K. unfold failRun. intros (r & s1 & (W1 & row & -> & Hrow)%attempt_read & E)%eff_bind_ok; [|by intros s0; eexists].
  unfold GetTaskRun in Hrow. apply gets_ok in Hrow as [Hrow _]. destruct row as [row|].
  2: { apply ret_ok in E as [-> ->]. split; [done|]. intros r Hr Hid. symmetry in Hrow.
       apply (take_where_None _ _ Hrow) in Hr. by rewrite Hid, bool_decide_eq_true_2 in Hr. }
  symmetry in Hrow. apply take_where_Some in Hrow as [Hin Hid%bool_decide_eq_true].
  destruct (RunStatusTerminal (Run_Status row)) eqn:Et.
  { apply ret_ok in E as [-> ->]. split_and!; [done|done|by exists row]. }
  apply eff_bind_ok in E as (at_ & s2 & W2%call_waits & E).
  apply eff_bind_ok in E as (u & s3 & Eu%attempt_ok & [-> ->]%ret_ok). unfold after in Eu.
  assert (waits s (others s2)) as W.
  { etransitivity; [exact W1|]. etransitivity; [exact W2|]. by apply rtc_once. }
  destruct u as [[]|e]; cbn.
  - apply TransitionTaskRun_true in Eu as (r & _ & Hid' & _ & Hr); [|by eapply waits_keys].
    eexists. split; [exact Hr|].
    destruct (build_ended _ _ Hid' (mk_is_Some _ _ eq_refl) (mk_is_Some _ _ eq_refl)) as (E1 & E2 & E3 & E4 & _).
    split_and!; [exact E1|exact E2|exact E3|rewrite E4; by eexists].
  - apply TransitionTaskRun_ok in Eu as [_ [(_ & -> & Hno)|(? & _)]]; [|done|by eapply waits_keys].
    split; [exact W|]. exists s1, row. by split_and!.
  - eexists _, _. split; [exact W|]. split_and!; [| |exact Eu]; done.
Qed.

Lemma claim_polled run task f s s1 s' : run_keys s → waits s s1 → taken run task s → cleared run task s →
  claim others eligible mintRunToken run task s1 = (Ok f, s') → polled f s s' ∧ f ≠ Busy.
Proof.
  intros K W1 Ht Hc E. unfold claim in E. apply eff_bind_ok in E as (u & s2 & Eu%attempt_ok & E).
  unfold after in Eu. assert (waits s (others s1)) as W2 by (etransitivity; [exact W1|by apply rtc_once]).
  pose proof (waits_keys _ _ W2 K) as K2. destruct u as [[]|e].
  2: { apply ret_ok in E as [-> ->]. split; [|done]. exists run, task. split_and!; [done|done|..].
       - by apply TransitionTaskRun_false in Eu as ->.
       - by apply TransitionTaskRun_ok in Eu as [_ [(_ & -> & Hno)|(? & _)]]. }
  2: { apply ret_ok in E as [-> ->]. split; [|done]. by exists run, task, (others s1). }
  assert (run_keys s2) as K3 by (eapply evolves_keys; [by eapply claimRun_evolves|done]).
  destruct (needsTask eligible mintRunToken && (task == None)) eqn:En.
  { apply andb_true_iff in En as [En ->%bool_decide_eq_true]. apply eff_bind_ok in E as (c & s3 & Ef & [-> ->]%ret_ok).
    split; [|done]. exists run. split_and!; [done..|]. exists (others s1), s2. split_and!; [done|done|by apply failRun_cases]. }
  assert (∀ e0, runTokenFor mintRunToken run task = e0 → match mintRunToken with
    | Some mint => ∃ t, task = Some t ∧ mint (credential run t) = e0
    | None => e0 = Ok ""%string end) as Htoken.
  { unfold runTokenFor. destruct mintRunToken as [mint|]; [|by intros e0 <-]. intros e0 <-.
    assert (needsTask eligible (Some mint) = true) as Hn by (unfold needsTask; by rewrite orb_true_r).
    rewrite Hn in En. apply bool_decide_eq_false in En. destruct task as [t|]; [by exists t|done]. }
  destruct (runTokenFor _ _ _) as [token|e] eqn:Et; specialize (Htoken _ eq_refl).
  - apply ret_ok in E as [-> ->]. split; [|done]. exists task, (others s1). split_and!; [done|done| | |done|done].
    + intros check Ec. unfold needsTask in En. rewrite Ec in En. apply bool_decide_eq_false in En. by destruct task.
    + destruct mintRunToken; [done|]. by injection Htoken.
  - apply eff_bind_ok in E as (c & s3 & Ef & [-> ->]%ret_ok). split; [|done].
    destruct mintRunToken as [mint|] eqn:Em; [|done]. destruct Htoken as (t & -> & Hm). exists run, t, mint, e.
    split_and!; [done..|]. exists (others s1), s2. split_and!; [done|done|by apply failRun_cases].
Qed.

(** C15: A poll starts work only for an account that may still have work executed.
    It takes the oldest pending run and reads its task.  When the check finds that
    run's initiator ineligible in the task's Space, that run is canceled with the
    reason, message and time (unless it was no longer pending at that moment, or
    the write failed); when eligibility cannot be determined nothing is written.
    Only otherwise is the run claimed, and then it is handed to a worker with a
    credential for exactly that initiator, Space, run and task, or ended as
    failed.  A poll that finds no run, or loses the claim, writes nothing. *)
Theorem pollOnce_gates slots s f s' :
  run_keys s → pollOnce others eligible refusal mintRunToken slots s = (Ok f, s') →
  polled f s s' ∧ (f ≠ Busy ↔ (slots < maxConcurrentDispatch)%nat).
Proof using Coherent0.
  intros K. unfold pollOnce. destruct (Nat.leb_spec maxConcurrentDispatch slots) as [Hs|Hs].
  { intros [-> ->]%ret_ok. split; [done|]. split; [done|lia]. }
  intros E. assert (polled f s s' ∧ f ≠ Busy) as [? ?]; [|by split; [|split]].
  apply eff_bind_ok in E as (r & s1 & (W1 & next & -> & Er)%attempt_read & E); [|by intros s0; eexists].
  destruct next as [run|]; [|by apply ret_ok in E as [-> ->]].
  apply eff_bind_ok in E as (r & s2 & (W2 & task & -> & Ht & Hn)%loadTask_read & E).
  apply eff_bind_ok in E as (a & s3 & (W3 & Ha)%checkInitiator_answer & E).
  assert (waits s s2) as W12 by (by etransitivity). assert (waits s s3) as W by (by etransitivity).
  assert (taken run task s) as Htk.
  { split; [by exists s1| |done]. intros En. destruct (Ht En) as (read & row & Wr & Erow).
    exists read, row. split; [by (etransitivity; [exact W1|exact Wr])|done]. }
  assert (∀ answer, answered run task s2 answer → answered run task s answer) as Hearly.
  { intros answer (check & t & checked & H1 & H2 & H3 & Wc & H4). exists check, t, checked.
    split_and!; [done..|by (etransitivity; [exact W12|exact Wc])|done]. }
  destruct a as [[[]|e]|].
  - eapply claim_polled; [done|exact W|done| |exact E]. intros check _ _ _. by apply Hearly.
  - apply Hearly in Ha. destruct (match e with eligibility.ErrUnavailable => true | _ => false end) eqn:Eu.
    { destruct e; [done..|]. apply ret_ok in E as [-> ->]. split; [|done]. by exists run, task. }
    assert (e ≠ eligibility.ErrUnavailable) as Hne by by intros ->.
    assert ((c ← cancelRun others (Run_ID run) RunStatusPending (withdrawalReason e) (refusal e);
      mret (Withdrawn (Run_ID run) (withdrawalReason e) c)) s3 = (Ok f, s')) as E' by by destruct e.
    apply eff_bind_ok in E' as (c & s4 & Ew & [-> ->]%ret_ok). split; [|done].
    exists run, task, e, s3. split_and!; [done..|by destruct e|exact W|].
    apply cancelRun_cases; [by eapply waits_keys|exact Ew].
  - eapply claim_polled; [done|exact W|done| |exact E]. intros check Ec Hcr [t Etask]. destruct Ha as [?|[?|?]]; congruence.
Qed.
End Gates.
