(* ===== verification/RunReaper.v ===== *)
(** * RunReaper: a sweep ends exactly the runs that are overdue *)

From Stdlib Require Import Ascii String.
From S2P Require Import Prelude EffLogic Text Json JsonSchema TaskCore WorkflowCore WorkflowGraph WorkflowDefinition Store.
From S2P Require Import TaskStore WorkflowStore WorkflowLifecycle StoreProgram TaskService WorkflowSafety LedgerCore LedgerStore.
From S2P Require Import WorkflowReconcile ReconcileMoves ReconcileSafety WorkflowCommands ScheduleStore ScheduleDispatch.
From S2P Require Import ScheduleDispatch ScheduleLaws RunDispatch RunLaws.
From stdpp Require Import gmap strings.
Import Prelude.
Import db coretask taskdb dispatcher runscan runscheduler reaper.
Import coregw ledgerdb.
Local Open Scope Z_scope.
Local Open Scope buildmax_scope.

(** ** Transitions that apply *)

Lemma TransitionTaskRun_applies in_ s r :
  run_keys s → ValidRunStatusTransition (TRI_ExpectedStatus in_) (TRI_NewStatus in_) = true →
  r ∈ st_taskruns s → Run_ID r = TRI_TaskRunID in_ → Run_Status r = TRI_ExpectedStatus in_ →
  ∃ s', TransitionTaskRun in_ s = (Ok true, s') ∧ transitioned in_ r s s'.
Proof.
  intros K Hv Hr Hid Hst. destruct (TransitionTaskRun in_ s) as [[b|e] s'] eqn:E.
  - apply TransitionTaskRun_ok in E as [_ [(_ & _ & Hno)|(-> & r' & Ht)]]; [by destruct (Hno r Hr Hid Hst)| |done].
    exists s'. split; [done|]. assert (r' = r) as <-; [|done].
    apply (NoDup_key Run_ID (st_taskruns s)); [done|apply Ht|done|]. rewrite Hid. apply Ht.
  - exfalso. revert E. unfold TransitionTaskRun. rewrite Hv. cbn [negb]. unfold transaction, update_taskruns, update_tasks, update_schedules, Store.db.take, foldScheduleOutcome.
    eff_unfold. destruct (matching _ _ =? 0)%nat; cbn; [done|].
    destruct (find _ _) as [r1|] eqn:Et; cbn; [by destruct (_ && _)|].
    intros _. eapply take_where_None in Et; [|apply elem_of_update_where; exists r; split; [done|reflexivity]].
    cbn in Et. rewrite (bool_decide_eq_true_2 _ Hid), (bool_decide_eq_true_2 _ Hst) in Et. cbn in Et.
    destruct (build_keeps in_ r) as (B1 & _). by rewrite B1, (bool_decide_eq_true_2 _ Hid) in Et.
Qed.

(** ** One run *)

(** What ending a run as [status] makes of its row. *)
Definition closed_as (status : RunStatus) (class message : string) (now_ : Z) (r : Run) : Run :=
  buildTaskRunUpdates (transition (Run_ID r) (Run_Status r) status
    <| TRI_EndedAt := Some now_ |> <| TRI_ErrorMessage := Some message |> <| TRI_FailureClass := class |>) r.

(** The open calls of a run, settled. *)
Definition settled_calls (ids : list string) (now_ : Z) : list Call → list Call :=
  update_where (λ call, match Cl_TaskRunID call with Some id => bool_decide (id ∈ ids) | None => false end
                       && (Cl_Status call == CallStatusAccepted)) (run_lost now_).

(** Others touch neither runs nor calls. *)
Definition undisturbed (others : Store → Store) : Prop :=
  ∀ s, st_taskruns (others s) = st_taskruns s ∧ st_calls (others s) = st_calls s.

Lemma closed_as_keeps status class message now_ r :
  Run_ID (closed_as status class message now_ r) = Run_ID r
  ∧ Run_Status (closed_as status class message now_ r) = status.
Proof. unfold closed_as. by edestruct build_keeps as (-> & _ & -> & _). Qed.

Lemma settled_calls_app l1 l2 now_ t : settled_calls l2 now_ (settled_calls l1 now_ t) = settled_calls (l1 ++ l2) now_ t.
Proof.
  unfold settled_calls, update_where. rewrite map_map. apply map_ext. intros call.
  destruct (Cl_TaskRunID call) as [id|] eqn:E; cbn; [|by rewrite E].
  destruct (bool_decide_reflect (Cl_Status call = CallStatusAccepted)) as [Es|Es]; cycle 1.
  { rewrite !andb_false_r, E. by rewrite (bool_decide_eq_false_2 _ Es), !andb_false_r. }
  rewrite !andb_true_r. destruct (bool_decide_reflect (id ∈ l1)) as [H1|H1].
  - rewrite (bool_decide_eq_true_2 (id ∈ l1 ++ l2)) by (apply elem_of_app; by left). cbn. rewrite E.
    by rewrite andb_false_r.
  - rewrite E, (bool_decide_eq_true_2 _ Es), andb_true_r.
    destruct (bool_decide_reflect (id ∈ l2)) as [H2|H2].
    + rewrite (bool_decide_eq_true_2 (id ∈ l1 ++ l2)); [done|]. apply elem_of_app. by right.
    + rewrite (bool_decide_eq_false_2 (id ∈ l1 ++ l2)); [done|]. by intros [?|?]%elem_of_app.
Qed.

Section Quiet.
Context (others : Store → Store) (Hq : undisturbed others) (c : StaleRunReaper).
Context (status : RunStatus) (class message : string) (now_ : Z).

Notation close := (closed_as status class message now_).

(** The runs [ids] are ended, with their calls; the rest is as it was. *)
Definition ends_runs (ids : list string) (s s' : Store) : Prop :=
  st_taskruns s' = update_where (λ r, bool_decide (Run_ID r ∈ ids)) close (st_taskruns s)
  ∧ st_calls s' = settled_calls ids now_ (st_calls s).

Lemma ends_none s s' : st_taskruns s' = st_taskruns s → st_calls s' = st_calls s → ends_runs [] s s'.
Proof.
  intros E1 E2. split; [rewrite E1|rewrite E2]; symmetry.
  - unfold update_where. rewrite <- map_id. apply map_ext. intros r. done.
  - unfold settled_calls, update_where. rewrite <- map_id. apply map_ext. intros call. by destruct (Cl_TaskRunID call).
Qed.

Lemma ends_keys ids s s' : ends_runs ids s s' → run_keys s → run_keys s'.
Proof.
  intros [E _]. unfold run_keys. rewrite E, update_where_map; [done|]. intros r. by apply closed_as_keeps.
Qed.

Lemma attempt_returns {A} (m : DB A) s a s' : m s = (Ok a, s') → attempt m s = (Ok (Ok a), s').
Proof. unfold attempt, catch, mbind, eff_bind. by intros ->. Qed.

Lemma deleteWorkerJob_quiet run s : ∃ job s', deleteWorkerJob others c run s = (Ok job, s')
  ∧ st_taskruns s' = st_taskruns s ∧ st_calls s' = st_calls s.
Proof using Hq.
  unfold deleteWorkerJob. destruct (SR_jobs c) as [delete|]; [|by eexists None, s].
  destruct (ref_of _) as [name|]; [|by eexists None, s].
  unfold after, mbind, eff_bind, gets. cbn. eexists _, _. split; [reflexivity|apply Hq].
Qed.

Lemma finish_quiet run s : run_keys s → run ∈ st_taskruns s → ValidRunStatusTransition (Run_Status run) status = true →
  ∃ calls job s', finish others c run status class message now_ s = (Ok (Finished calls job), s')
    ∧ ends_runs [Run_ID run] s s'.
Proof using Hq.
  intros K Hr Hv. destruct (Hq s) as [Hr0 Hc0]. rewrite <- Hr0 in Hr.
  assert (run_keys (others s)) as K0 by (unfold run_keys; by rewrite Hr0).
  set (in_ := transition (Run_ID run) (Run_Status run) status
    <| TRI_EndedAt := Some now_ |> <| TRI_ErrorMessage := Some message |> <| TRI_FailureClass := class |>).
  destruct (TransitionTaskRun_applies in_ (others s) run K0 Hv Hr eq_refl eq_refl) as (s1 & E1 & [_ _ _ Er _ Ef]).
  assert (st_calls s1 = st_calls s) as Hc1 by (rewrite Ef; cbn; exact Hc0).
  assert (st_taskruns s1 = update_where (λ r, bool_decide (Run_ID r ∈ [Run_ID run])) close (st_taskruns s)) as Hr1.
  { rewrite Er, Hr0. unfold update_where. apply map_ext_in. intros r Hin%list_elem_of_In. cbn.
    destruct (bool_decide_reflect (Run_ID r = Run_ID run)) as [E|E].
    - assert (r = run) as -> by (apply (NoDup_key Run_ID (st_taskruns s)); [done..|by rewrite <- Hr0|done]).
      rewrite (bool_decide_eq_true_2 _ (eq_refl (Run_Status run))), bool_decide_eq_true_2; [done|].
      by apply list_elem_of_singleton.
    - rewrite (bool_decide_eq_false_2 (Run_ID r ∈ [Run_ID run])); [done|by intros ?%list_elem_of_singleton]. }
  destruct (Hq s1) as [Hr2 Hc2].
  assert (resolves (others s1) "task_run" (Run_ID run) = true) as Hres.
  { unfold resolves. cbn. rewrite Hr2, Er. apply bool_decide_eq_true_2. rewrite update_where_map.
    - by apply list_elem_of_fmap_2.
    - intros r. apply build_keeps. }
  set (s2 := (others s1) <| st_calls := update_where (orphaned (Run_ID run)) (run_lost now_) (st_calls (others s1)) |>).
  destruct (deleteWorkerJob_quiet run s2) as (job & s3 & E3 & Hr3 & Hc3).
  eexists _, job, s3. split.
  - unfold finish. unfold mbind at 1, eff_bind at 1. fold in_. rewrite (attempt_returns _ _ true s1) by exact E1.
    unfold mbind at 1, eff_bind at 1. rewrite (attempt_returns _ _ (matching (orphaned (Run_ID run)) (st_calls (others s1))) s2).
    + unfold mbind, eff_bind. rewrite E3. reflexivity.
    + unfold after, SettleOrphanedLLMCallsForRun, mbind, eff_bind, get. cbn. by rewrite Hres.
  - split; [rewrite Hr3; subst s2; cbn; by rewrite Hr2, Hr1|].
    rewrite Hc3. subst s2. cbn. rewrite Hc2, Hc1. unfold settled_calls, update_where. apply map_ext. intros call.
    unfold orphaned. destruct (Cl_TaskRunID call) as [id|]; cbn; [|done].
    destruct (bool_decide_reflect (id = Run_ID run)) as [->|E].
    + rewrite (bool_decide_eq_true_2 _ (eq_refl (Some (Run_ID run)))), (bool_decide_eq_true_2 (Run_ID run ∈ [Run_ID run]));
        [done|].
      by apply list_elem_of_singleton.
    + rewrite (bool_decide_eq_false_2 (id ∈ [Run_ID run])), (bool_decide_eq_false_2 (Some id = Some (Run_ID run)));
        [done|congruence|by intros ?%list_elem_of_singleton].
Qed.

Lemma ends_runs_trans id ids s s1 s2 : id ∉ ids → ends_runs [id] s s1 → ends_runs ids s1 s2 → ends_runs (id :: ids) s s2.
Proof.
  intros Hid [Er1 Ec1] [Er2 Ec2]. split.
  - rewrite Er2, Er1. unfold update_where. rewrite map_map. apply map_ext. intros r. cbn.
    destruct (bool_decide_reflect (Run_ID r ∈ [id])) as [E%list_elem_of_singleton|E].
    + destruct (closed_as_keeps status class message now_ r) as [-> _].
      rewrite (bool_decide_eq_false_2 (Run_ID r ∈ ids)), (bool_decide_eq_true_2 (Run_ID r ∈ id :: ids)); [done| |congruence].
      rewrite E. apply list_elem_of_here.
    + erewrite (bool_decide_ext (Run_ID r ∈ ids)); [reflexivity|]. rewrite elem_of_cons.
      rewrite list_elem_of_singleton in E. naive_solver.
  - rewrite Ec2, Ec1. apply (settled_calls_app [id]).
Qed.

Lemma finishEach_quiet l : ∀ s, run_keys s → NoDup (map Run_ID l) →
  (∀ r, r ∈ l → r ∈ st_taskruns s ∧ ValidRunStatusTransition (Run_Status r) status = true) →
  ∃ es s', mapM (λ run, e ← finish others c run status class message now_; mret (Run_ID run, e)) l s = (Ok es, s')
    ∧ map fst es = map Run_ID l ∧ (∀ e, e ∈ es → ∃ calls job, e.2 = Finished calls job) ∧ ends_runs (map Run_ID l) s s'.
Proof using Hq.
  induction l as [|run l IH]; intros s K Hn Hl.
  - exists [], s. split_and!; [done|done|by intros e ?%not_elem_of_nil|by apply ends_none].
  - cbn in Hn. apply NoDup_cons in Hn as [Hid Hn]. destruct (Hl run) as [Hrun Hv]; [by left|].
    destruct (finish_quiet run s K Hrun Hv) as (calls & job & s1 & E1 & H1).
    destruct (IH s1) as (es & s2 & E2 & Ees & Hes & H2); [by eapply ends_keys|done| |].
    { intros r Hr. destruct (Hl r) as [Hin Hvr]; [by right|]. split; [|done]. rewrite (proj1 H1). apply elem_of_update_where.
      exists r. split; [done|]. rewrite bool_decide_eq_false_2; [done|]. intros E%list_elem_of_singleton.
      apply Hid. rewrite <- E. by apply list_elem_of_fmap_2. }
    exists ((Run_ID run, Finished calls job) :: es), s2. split_and!.
    + change (mapM ?f (run :: l)) with (b ← f run; bs ← mapM f l; mret (b :: bs)).
      unfold mbind, eff_bind in *. rewrite E1. cbn. by rewrite E2.
    + cbn. by rewrite Ees.
    + intros e [->|He]%elem_of_cons; [by exists calls, job|by apply Hes].
    + by eapply ends_runs_trans.
Qed.

(** A scan that answers the rows it is after, in some order. *)
Definition scans (scan : DB (list Run)) (p : Run → bool) (s : Store) : Prop :=
  ∃ l, scan s = (Ok l, s) ∧ l ≡ₚ rows_where p (st_taskruns s).

Lemma finishAll_quiet scan p s : run_keys s → scans scan p (others s) →
  (∀ r, p r = true → ValidRunStatusTransition (Run_Status r) status = true) →
  ∃ es s', finishAll others c scan status class message now_ s = (Ok es, s')
    ∧ (∀ e, e ∈ es → ∃ calls job, e.2 = Finished calls job)
    ∧ map fst es ≡ₚ map Run_ID (rows_where p (st_taskruns s))
    ∧ st_taskruns s' = update_where p close (st_taskruns s)
    ∧ st_calls s' = settled_calls (map Run_ID (rows_where p (st_taskruns s))) now_ (st_calls s).
Proof using Hq.
  intros K Hscan Hv. destruct (Hq s) as [Hr0 Hc0].
  destruct Hscan as (l & El & Hp). rewrite Hr0 in Hp.
  assert (∀ id, id ∈ map Run_ID l ↔ id ∈ map Run_ID (rows_where p (st_taskruns s))) as Hids by (intros id; by rewrite Hp).
  destruct (finishEach_quiet l (others s)) as (es & s' & E & Ees & Hes & [Er Ec]).
  - unfold run_keys. by rewrite Hr0.
  - rewrite Hp. eapply sublist_NoDup; [exact K|]. apply (fmap_sublist Run_ID), rows_where_sublist.
  - intros r Hr. rewrite Hp in Hr. apply elem_of_rows in Hr as [Hin Hpr]. rewrite Hr0. by split; [|apply Hv].
  - exists es, s'. split_and!; [|done|by rewrite Ees, Hp| |].
    + unfold finishAll. unfold mbind at 1, eff_bind at 1. by rewrite (attempt_returns _ _ l (others s)).
    + rewrite Er, Hr0. unfold update_where. apply map_ext_in. intros r Hin%list_elem_of_In.
      destruct (p r) eqn:Epr.
      * rewrite bool_decide_eq_true_2; [done|]. apply Hids, list_elem_of_fmap_2, elem_of_rows. done.
      * rewrite bool_decide_eq_false_2; [done|]. intros (r' & E1 & [Hin' Ep']%elem_of_rows)%Hids%list_elem_of_fmap.
        assert (r' = r) as -> by (by apply (NoDup_key Run_ID (st_taskruns s))). congruence.
    + rewrite Ec, Hc0. unfold settled_calls, update_where. apply map_ext. intros call.
      destruct (Cl_TaskRunID call) as [id|]; [|done]. by rewrite (bool_decide_ext _ _ (Hids id)).
Qed.
End Quiet.

(** ** The three scans *)

Section Split.
Context {R K : Type} (k : R → K) (p q : R → bool) (f : R → R).
Hypothesis (ends_q : ∀ r, p r = true → q (f r) = false) (keeps_k : ∀ r, k (f r) = k r).

Lemma rows_after_update t :
  map k (rows_where q (update_where p f t)) = map k (rows_where (λ r, negb (p r) && q r) t).
Proof using ends_q.
  unfold rows_where, update_where. induction t as [|r t IH]; cbn; [done|]. destruct (p r) eqn:E; cbn.
  - by rewrite ends_q.
  - destruct (q r); cbn; by rewrite IH.
Qed.

Lemma matching_after_update t : (matching q (update_where p f t) ≤ matching q t)%nat.
Proof using ends_q.
  unfold matching, update_where. induction t as [|r t IH]; cbn; [done|]. destruct (p r) eqn:E; cbn.
  - rewrite ends_q by done. destruct (q r); cbn; lia.
  - destruct (q r); cbn; lia.
Qed.
End Split.

Lemma rows_split {R} (p q : R → bool) t :
  rows_where p t ++ rows_where (λ r, negb (p r) && q r) t ≡ₚ rows_where (λ r, p r || q r) t.
Proof.
  unfold rows_where. induction t as [|r t IH]; cbn; [done|]. destruct (p r); cbn; [by rewrite IH|].
  destruct (q r); cbn; [|done]. by rewrite <- Permutation_middle, IH.
Qed.

Lemma matching_mono {R} (p q : R → bool) t : (∀ r, p r = true → q r = true) → (matching p t ≤ matching q t)%nat.
Proof.
  intros H. unfold matching. induction t as [|r t IH]; cbn; [done|].
  destruct (p r) eqn:E; [rewrite (H r E); cbn; lia|]. destruct (q r); cbn; lia.
Qed.

Lemma settled_calls_ext l1 l2 now_ t : (∀ id, id ∈ l1 ↔ id ∈ l2) → settled_calls l1 now_ t = settled_calls l2 now_ t.
Proof.
  intros H. unfold settled_calls, update_where. apply map_ext. intros call.
  destruct (Cl_TaskRunID call) as [id|]; [|done]. by rewrite (bool_decide_ext _ _ (H id)).
Qed.

Lemma scans_limit (key : Run → Z) p limit s : 0 < limit → (matching p (st_taskruns s) ≤ Z.to_nat limit)%nat →
  scans (gets (λ s, firstn (limit_or limit 100) (by_created key (rows_where p (st_taskruns s))))) p s.
Proof.
  intros Hl Hm. eexists. split; [reflexivity|]. unfold by_created.
  rewrite take_ge; [apply merge_sort_Permutation|]. rewrite merge_sort_Permutation. unfold limit_or.
  by destruct (Z.leb_spec limit 0); [lia|].
Qed.

(** ** The verdict on a run *)

Section Verdict.
Context (c : StaleRunReaper) (now_ : Z).

Definition active (r : Run) : bool := is_active (Run_Status r).

Definition cancel_overdue (r : Run) : bool :=
  active r && match Run_CancelRequestedAt r with Some at_ => at_ <=? now_ - SR_cancelGrace c | None => false end.
Definition worker_lost (r : Run) : bool :=
  (Run_Status r == RunStatusRunning)
  && match Run_LastSeenAt r with Some seen => seen <=? now_ - SR_livenessGrace c | None => false end.
Definition abandoned (r : Run) : bool :=
  bool_decide (Run_Status r ∈ [RunStatusScheduled; RunStatusRunning]) && (Run_CreatedAt r <=? now_ - SR_timeout c).

Definition overdue (r : Run) : bool := cancel_overdue r || worker_lost r || abandoned r.

Definition canceled_message : string :=
  "this run was canceled: no worker confirmed the cancel within " +:+ duration_text (SR_cancelGrace c).
Definition lost_message : string :=
  "this run lost its worker: nothing was heard from it for " +:+ duration_text (SR_livenessGrace c).
Definition abandoned_message : string :=
  "this run was abandoned: no worker reported an outcome within " +:+ duration_text (SR_timeout c).

Definition as_canceled : Run → Run := closed_as RunStatusCanceled "" canceled_message now_.
Definition as_lost : Run → Run := closed_as RunStatusFailed (FailureClass_string FailureWorkerLost) lost_message now_.
Definition as_abandoned : Run → Run :=
  closed_as RunStatusFailed (FailureClass_string FailureAbandoned) abandoned_message now_.

(** What a sweep makes of a run: the first of its three answers that applies. *)
Definition verdict (r : Run) : Run :=
  if cancel_overdue r then as_canceled r
  else if worker_lost r then as_lost r
  else if abandoned r then as_abandoned r
  else r.

Lemma closed_not_active status class message r : RunStatusTerminal status = true →
  active (closed_as status class message now_ r) = false
  ∧ worker_lost (closed_as status class message now_ r) = false ∧ abandoned (closed_as status class message now_ r) = false.
Proof.
  unfold active, worker_lost, abandoned. destruct (closed_as_keeps status class message now_ r) as [_ ->]. by destruct status.
Qed.

Lemma worker_lost_running r : worker_lost r = true → Run_Status r = RunStatusRunning.
Proof. unfold worker_lost. by intros [E%bool_decide_eq_true _]%andb_true_iff. Qed.

Lemma abandoned_status r : abandoned r = true → Run_Status r = RunStatusScheduled ∨ Run_Status r = RunStatusRunning.
Proof. unfold abandoned. intros [E%bool_decide_eq_true _]%andb_true_iff. set_solver. Qed.

Lemma cancel_valid r : cancel_overdue r = true → ValidRunStatusTransition (Run_Status r) RunStatusCanceled = true.
Proof. unfold cancel_overdue, active. intros [E _]%andb_true_iff. revert E. by destruct (Run_Status r). Qed.
End Verdict.

Section Sweep.
Context (others : Store → Store) (Hq : undisturbed others) (c : StaleRunReaper) (now_ : Z).

(** The rows that satisfy [p] were ended as [f] says, with their calls, and
    reported once each; nothing else changed. *)
Record stage (p : Run → bool) (f : Run → Run) (es : list (string * ending)) (s s' : Store) : Prop := {
  sg_runs : st_taskruns s' = update_where p f (st_taskruns s);
  sg_calls : st_calls s' = settled_calls (map Run_ID (rows_where p (st_taskruns s))) now_ (st_calls s);
  sg_reported : map fst es ≡ₚ map Run_ID (rows_where p (st_taskruns s));
  sg_finished : ∀ e, e ∈ es → ∃ calls job, e.2 = Finished calls job
}.

Lemma stage_compose p f q g es1 es2 s s1 s2 :
  (∀ r, p r = true → q (f r) = false) → (∀ r, Run_ID (f r) = Run_ID r) →
  stage p f es1 s s1 → stage q g es2 s1 s2 →
  stage (λ r, p r || q r) (λ r, if p r then f r else g r) (es1 ++ es2) s s2.
Proof.
  intros Hq' Hid [R1 C1 I1 F1] [R2 C2 I2 F2].
  assert (map Run_ID (rows_where q (st_taskruns s1)) = map Run_ID (rows_where (λ r, negb (p r) && q r) (st_taskruns s))) as E.
  { rewrite R1. by apply rows_after_update. }
  split.
  - rewrite R2, R1. unfold update_where. rewrite map_map. apply map_ext. intros r.
    destruct (p r) eqn:Ep; cbn; [by rewrite Hq'|by destruct (q r)].
  - rewrite C2, C1, E, settled_calls_app, <- map_app. apply settled_calls_ext. intros id.
    by rewrite (rows_split p q).
  - by rewrite map_app, I1, I2, E, <- map_app, (rows_split p q).
  - intros e [He|He]%elem_of_app; auto.
Qed.

Lemma stage_keys p f es s s' : (∀ r, Run_ID (f r) = Run_ID r) → stage p f es s s' → run_keys s → run_keys s'.
Proof. intros Hf [R _ _ _]. unfold run_keys. by rewrite R, update_where_map. Qed.

(** No more runs are active than a scan takes. *)
Definition one_batch (s : Store) : Prop := (matching active (st_taskruns s) ≤ Z.to_nat staleRunLimit)%nat.

Lemma stage_batch p f es s s' : (∀ r, p r = true → active (f r) = false) → stage p f es s s' → one_batch s → one_batch s'.
Proof. intros Hf [R _ _ _] Hb. unfold one_batch. rewrite R. etransitivity; [by apply matching_after_update|exact Hb]. Qed.

(** One scan. *)
Lemma sweep_stage (key : Run → Z) p status class message s :
  run_keys s → one_batch s → (∀ r, p r = true → active r = true) →
  (∀ r, p r = true → ValidRunStatusTransition (Run_Status r) status = true) →
  ∃ es s', finishAll others c (gets (λ s, firstn (limit_or staleRunLimit 100) (by_created key (rows_where p (st_taskruns s)))))
             status class message now_ s = (Ok es, s')
    ∧ stage p (closed_as status class message now_) es s s'.
Proof using Hq.
  intros K Hb Ha Hv. edestruct (finishAll_quiet others Hq c status class message now_) as (es & s' & E & F & I & R & C).
  - exact K.
  - apply (scans_limit key p staleRunLimit); [done|]. rewrite (proj1 (Hq s)). etransitivity; [by apply matching_mono|exact Hb].
  - exact Hv.
  - exists es, s'. by split.
Qed.

(** C16: A sweep of the reaper ends exactly the runs nothing else will end.  When
    nobody else writes meanwhile and at most 100 runs are active, which is what one
    scan takes, the sweep succeeds, every row becomes its [verdict] (canceled when
    a cancel stayed unconfirmed past its grace, else failed when its worker went
    silent, else failed when it is handed over or running and was created longer
    ago than the timeout, as the scan's WHERE reads it, whenever it was
    dispatched; else unchanged), the ledger calls those runs left open are settled
    as lost, and it reports each run once. *)
Theorem Sweep_verdicts s :
  run_keys s → one_batch s →
  ∃ ends s', Sweep others c now_ s = (Ok ends, s')
    ∧ st_taskruns s' = map (verdict c now_) (st_taskruns s)
    ∧ st_calls s' = settled_calls (map Run_ID (rows_where (overdue c now_) (st_taskruns s))) now_ (st_calls s)
    ∧ map fst ends ≡ₚ map Run_ID (rows_where (overdue c now_) (st_taskruns s))
    ∧ ∀ e, e ∈ ends → ∃ calls job, e.2 = Finished calls job.
Proof using Hq.
  intros K B.
  assert (∀ r, worker_lost c now_ r = true → active r = true) as A2 by (intros r H%worker_lost_running; unfold active; by rewrite H).
  assert (∀ r, abandoned c now_ r = true → active r = true) as A3 by (intros r [H|H]%abandoned_status; unfold active; by rewrite H).
  destruct (sweep_stage (λ r, default 0 (Run_CancelRequestedAt r)) (cancel_overdue c now_) RunStatusCanceled "" (canceled_message c) s K B)
    as (e1 & s1 & E1 & G1); [by intros r [? _]%andb_true_iff|by apply cancel_valid|].
  assert (one_batch s1) as B1 by (eapply stage_batch; [|exact G1|done]; intros r _; by apply (closed_not_active c now_)).
  assert (run_keys s1) as K1 by (eapply stage_keys; [|exact G1|done]; intros r; apply closed_as_keeps).
  destruct (sweep_stage (λ r, default 0 (Run_LastSeenAt r)) (worker_lost c now_) RunStatusFailed
    (FailureClass_string FailureWorkerLost) (lost_message c) s1 K1 B1) as (e2 & s2 & E2 & G2); [done|by intros r ->%worker_lost_running|].
  assert (stage (λ r, cancel_overdue c now_ r || worker_lost c now_ r)
    (λ r, if cancel_overdue c now_ r then as_canceled c now_ r else as_lost c now_ r) (e1 ++ e2) s s2) as G12.
  { eapply stage_compose; [| |exact G1|exact G2]; [intros r _; by apply closed_not_active|intros r; apply closed_as_keeps]. }
  set (f12 := λ r, if cancel_overdue c now_ r then as_canceled c now_ r else as_lost c now_ r) in G12.
  assert (∀ r, Run_ID (f12 r) = Run_ID r ∧ active (f12 r) = false ∧ abandoned c now_ (f12 r) = false) as N.
  { intros r. subst f12. cbn. destruct (cancel_overdue c now_ r); (split; [apply closed_as_keeps|]);
      by edestruct (closed_not_active c now_) as (A & _ & B'); [|split; [exact A|exact B']]. }
  destruct (sweep_stage Run_CreatedAt (abandoned c now_) RunStatusFailed
    (FailureClass_string FailureAbandoned) (abandoned_message c) s2) as (e3 & s3 & E3 & G3).
  - eapply stage_keys; [|exact G12|done]. apply N.
  - eapply stage_batch; [|exact G12|done]. intros r _. apply N.
  - done.
  - by intros r [-> | ->]%abandoned_status.
  - assert (stage (overdue c now_) (λ r, if cancel_overdue c now_ r || worker_lost c now_ r
      then f12 r else as_abandoned c now_ r)
      ((e1 ++ e2) ++ e3) s s3) as [R C I F].
    { eapply stage_compose; [| |exact G12|exact G3]; [intros r _|intros r]; apply N. }
    exists (e1 ++ e2 ++ e3), s3. rewrite (assoc_L (++)). split_and!; [|rewrite R|exact C|exact I|exact F].
    + change (sweepCanceled others c now_ s = (Ok e1, s1)) in E1. change (sweepLostWorkers others c now_ s1 = (Ok e2, s2)) in E2.
      change (sweepAbandoned others c now_ s2 = (Ok e3, s3)) in E3. unfold Sweep, mbind, eff_bind.
      rewrite E1, E2, E3. cbn. by rewrite (assoc_L (++)).
    + unfold update_where. apply map_ext. intros r. subst f12. unfold overdue, verdict.
      by destruct (cancel_overdue c now_ r), (worker_lost c now_ r), (abandoned c now_ r).
Qed.
End Sweep.
