(* ===== verification/RunReconcile.v ===== *)
(** * RunReconcile: a pass of the eligibility reconciler misses nobody

    The reconciler pages through the active runs while others write.  A pass
    ends, and by then every run whose initiator had lost its authority is over
    or asked to stop; a run whose initiator may still act is not asked. *)

From Stdlib Require Import Ascii String.
From S2P Require Import Prelude EffLogic Text Json JsonSchema TaskCore WorkflowCore WorkflowGraph WorkflowDefinition Store.
From S2P Require Import TaskStore WorkflowStore WorkflowLifecycle StoreProgram TaskService WorkflowSafety LedgerCore LedgerStore.
From S2P Require Import WorkflowReconcile ReconcileMoves ReconcileSafety WorkflowCommands ScheduleStore ScheduleDispatch.
From S2P Require Import ScheduleDispatch ScheduleLaws RunDispatch RunLaws.
From stdpp Require Import gmap strings.
Import Prelude.
Import db coretask taskdb dispatcher runscan runscheduler reconciler.
Local Open Scope Z_scope.
Local Open Scope buildmax_scope.

(** ** Runs and their initiators *)

Notation ids s := (map Run_ID (st_taskruns s)).

(** The run is over, or asked to stop. *)
Definition stopped (r : Run) : Prop := is_active (Run_Status r) = false ∨ Run_CancelRequestedAt r ≠ None.

Definition settled (id : string) (s : Store) : Prop := ∃ r, r ∈ st_taskruns s ∧ Run_ID r = id ∧ stopped r.

(** The Space a task is in. *)
Definition owner (s : Store) (taskID : string) : option string :=
  match take_where (λ t, Task_ID t == taskID) (st_tasks s) with
  | Some t => if resolves s "space" (Task_SpaceID t) then Some (Task_SpaceID t) else None
  | None => None
  end.

(** The account that started a run, and the Space it works in, are in [Q]. *)
Definition initiated (Q : string → string → Prop) (id : string) (s : Store) : Prop :=
  ∃ r space, r ∈ st_taskruns s ∧ Run_ID r = id ∧ owner s (Run_TaskID r) = Some space
    ∧ Run_CreatedBy r ≠ ""%string ∧ Q (Run_CreatedBy r) space.

(** The same for the reference a scan makes of a run. *)
Definition ref_in (Q : string → string → Prop) (ref : ActiveRunRef) : Prop :=
  Ref_CreatedBy ref ≠ ""%string ∧ Q (Ref_CreatedBy ref) (Ref_SpaceID ref).

(** ** What may happen meanwhile

    Runs are added, keep their task and their creator, and stay stopped; tasks
    keep their Space; there are never more than [N] runs; nobody asks one of [D]
    to stop. *)

Section Steady.
Context (N : nat) (D : string → Prop).

Definition run_kept (r r' : Run) : Prop :=
  Run_ID r' = Run_ID r ∧ Run_TaskID r' = Run_TaskID r ∧ Run_CreatedBy r' = Run_CreatedBy r
  ∧ (stopped r → stopped r') ∧ (D (Run_ID r) → Run_CancelRequestedAt r = None → Run_CancelRequestedAt r' = None).

Record kept (s s' : Store) : Prop := {
  kp_runs : table_evolves Run_ID run_kept (st_taskruns s) (st_taskruns s');
  kp_owner : ∀ id space, owner s id = Some space → owner s' id = Some space;
  kp_named : ""%string ∉ ids s → ""%string ∉ ids s';
  kp_room : (length (st_taskruns s) ≤ N)%nat → (length (st_taskruns s') ≤ N)%nat
}.

#[export] Instance run_kept_preorder : PreOrder run_kept.
Proof.
  split; [by intros r|]. intros a b c (A1 & A2 & A3 & A4 & A5) (B1 & B2 & B3 & B4 & B5). unfold run_kept.
  split_and!; [congruence|congruence|congruence|auto|]. intros Hd Hn. apply B5; [congruence|auto].
Qed.

#[export] Instance kept_preorder : PreOrder kept.
Proof.
  split; [by intros s|]. intros a b c [A1 A2 A3 A4] [B1 B2 B3 B4]. split; eauto. by etransitivity.
Qed.

Record well (s : Store) : Prop := {
  wl_keys : run_keys s;
  wl_named : ""%string ∉ ids s;
  wl_room : (length (st_taskruns s) ≤ N)%nat
}.

Lemma well_kept s s' : kept s s' → well s → well s'.
Proof. intros K [W1 W2 W3]. split; [by apply (kp_runs _ _ K)|by apply (kp_named _ _ K)|by apply (kp_room _ _ K)]. Qed.

Lemma kept_row s s' r : kept s s' → run_keys s → r ∈ st_taskruns s → ∃ r', r' ∈ st_taskruns s' ∧ run_kept r r'.
Proof. intros K W Hr. eapply table_evolves_row; [exact W|apply K|exact Hr]. Qed.

Lemma settled_kept id s s' : kept s s' → run_keys s → settled id s → settled id s'.
Proof.
  intros K W (r & Hr & Hid & Hs). destruct (kept_row _ _ _ K W Hr) as (r' & Hr' & E & _ & _ & E4 & _).
  exists r'. split_and!; [done|congruence|auto].
Qed.

Lemma initiated_kept Q id s s' : kept s s' → run_keys s → initiated Q id s → initiated Q id s'.
Proof.
  intros K W (r & space & Hr & Hid & Ho & Hne & HQ). destruct (kept_row _ _ _ K W Hr) as (r' & Hr' & E1 & E2 & E3 & _).
  exists r', space. split_and!; [done|congruence|rewrite E2; by apply (kp_owner _ _ K)|by rewrite E3|by rewrite E3].
Qed.

(** The runs keep their places. *)
Lemma ids_kept s s' i id : kept s s' → run_keys s → ids s !! i = Some id → ids s' !! i = Some id.
Proof.
  intros K W (r & Hid & Hi)%list_lookup_fmap_Some. destruct (kp_runs _ _ K W) as [_ (t1 & new & E & F)].
  destruct (Forall2_lookup_l _ _ _ _ _ F Hi) as (r' & Hi' & E1 & _). apply list_lookup_fmap_Some.
  exists r'. split; [congruence|]. rewrite E. by apply lookup_app_l_Some.
Qed.

Definition unasked (id : string) (r : Run) : bool :=
  (Run_ID r == id) && is_active (Run_Status r) && (Run_CancelRequestedAt r == None).

Lemma request_eq id reason at_ s : RequestTaskRunCancel id "" reason at_ s =
  (Ok (matching (unasked id) (st_taskruns s) =? 1)%nat,
   s <| st_taskruns := update_where (unasked id)
          (λ r, r <| Run_CancelRequestedAt := Some at_ |> <| Run_CancelReason := reason |>) (st_taskruns s) |>).
Proof. reflexivity. Qed.

Lemma kept_request id reason at_ : ¬ D id → steps kept (RequestTaskRunCancel id "" reason at_).
Proof.
  intros Hd s. rewrite request_eq.
  split; cbn.
  - apply table_evolves_update; [typeclasses eauto|done|]. intros r _ Hr [[Ei _]%andb_true_iff En]%andb_true_iff.
    apply bool_decide_eq_true in Ei. split_and!; [done..| |by intros Hd'; rewrite Ei in Hd'].
    intros _. right. done.
  - done.
  - by rewrite update_where_map.
  - unfold update_where. by rewrite length_map.
Qed.

Lemma request_settles id reason at_ s : id ∈ ids s →
  ∃ b s', RequestTaskRunCancel id "" reason at_ s = (Ok b, s') ∧ settled id s'.
Proof.
  intros (r & Hid & Hr)%list_elem_of_fmap. rewrite request_eq. eexists _, _. split; [reflexivity|].
  destruct (unasked id r) eqn:E.
  - eexists. split_and!; [cbn; apply elem_of_update_where; exists r; split; [done|by rewrite E]|done|by right].
  - exists r. split_and!; [cbn; apply elem_of_update_where; exists r; by rewrite E|done|].
    unfold unasked in E. rewrite Hid, (bool_decide_eq_true_2 (Run_ID r = Run_ID r)) in E by done.
    unfold stopped. destruct (is_active (Run_Status r)); [right|by left]. by destruct (Run_CancelRequestedAt r).
Qed.

(** ** A page *)

(** What a scan makes of a row. *)
Definition ref_of_row (s : Store) (r : Run) : option ActiveRunRef :=
  if Run_CancelRequestedAt r == None then activeRunRef s r else None.

Lemma omap_rows s l : omap (activeRunRef s) (rows_where (λ r, Run_CancelRequestedAt r == None) l) = omap (ref_of_row s) l.
Proof.
  unfold rows_where. induction l as [|r l IH]; cbn; [done|]. unfold ref_of_row at 1.
  destruct (Run_CancelRequestedAt r == None); cbn; by rewrite IH.
Qed.

Lemma ref_of_row_Some s r ref : ref_of_row s r = Some ref →
  Ref_TaskRunID ref = Run_ID r ∧ Ref_CreatedBy ref = Run_CreatedBy r ∧ owner s (Run_TaskID r) = Some (Ref_SpaceID ref).
Proof.
  unfold ref_of_row, activeRunRef, owner. destruct (_ == _); [|done]. destruct (is_active _); [|done].
  destruct (take_where _ _) as [t|]; [|done]. destruct (resolves _ _ _); [|done]. by intros [= <-].
Qed.

Lemma ref_of_row_open s r space : ¬ stopped r → owner s (Run_TaskID r) = Some space →
  ∃ ref, ref_of_row s r = Some ref.
Proof.
  unfold ref_of_row, activeRunRef, owner, stopped. intros Hs Ho.
  destruct (Run_CancelRequestedAt r); [exfalso; apply Hs; by right|].
  destruct (is_active _); [|exfalso; apply Hs; by left].
  destruct (take_where _ _) as [t|]; [|done]. destruct (resolves _ _ _); [|done]. by eexists.
Qed.

(** A page covers the rows up to its last reference, and all when it is short. *)
Lemma page_covers {A B} (g : A → option B) n l :
  ∃ l1 l2, l = l1 ++ l2 ∧ firstn (S n) (omap g l) = omap g l1 ∧
    ((length (omap g l1) < S n)%nat ∧ l2 = [] ∨
     length (omap g l1) = S n ∧ ∃ l0 a b, l1 = l0 ++ [a] ∧ g a = Some b ∧ last (omap g l1) = Some b).
Proof.
  revert n. induction l as [|a l IH]; intros n.
  { exists [], []. split_and!; [done|done|left; cbn; split; [lia|done]]. }
  cbn [omap list_omap]. destruct (g a) as [b|] eqn:Ea.
  - destruct n as [|n].
    { exists [a], l. cbn. rewrite Ea. split_and!; [done|done|right]. split; [done|]. by exists [], a, b. }
    destruct (IH n) as (l1 & l2 & -> & E1 & H). exists (a :: l1), l2. cbn. rewrite Ea. cbn in E1. rewrite E1. split_and!; [done|done|].
    destruct H as [[H1 H2]|[H1 (l0 & a' & b' & -> & Eb & El)]]; [left; cbn; split; [lia|done]|right; split; [cbn; lia|]].
    exists (a :: l0), a', b'. split_and!; [done|done|]. by rewrite last_cons, El.
  - destruct (IH n) as (l1 & l2 & -> & E1 & H). exists (a :: l1), l2. cbn. rewrite Ea. cbn in E1. split_and!; [done|exact E1|].
    destruct H as [?|[H1 (l0 & a' & b' & -> & Eb & El)]]; [by left|right; split; [done|]]. by exists (a :: l0), a', b'.
Qed.

(** ** A run *)

Context (others : Store → Store) (check : Store → string → string → res eligibility.error unit).
Context (Lost Safe : string → string → Prop).
Context (Hothers : ∀ s, kept s (others s)).
Context (Hlost : ∀ s user space, Lost user space → ∃ e, check s user space = Err e ∧ e ≠ eligibility.ErrUnavailable).
Context (Hsafe : ∀ s user space, Safe user space → check s user space = Ok tt ∨ check s user space = Err eligibility.ErrUnavailable).

Lemma attempt_value {A} (m : DB A) s a s' : m (others s) = (Ok a, s') → attempt (after others m) s = (Ok (Ok a), s').
Proof. unfold attempt, catch, after, mbind, eff_bind. by intros ->. Qed.

(** A reference to one of [D] is to an account that may act. *)
Definition sound_ref (ref : ActiveRunRef) : Prop := D (Ref_TaskRunID ref) → ref_in Safe ref.

Lemma reconcileRun_settles ref now_ s : sound_ref ref → run_keys s →
  ∃ o s', reconcileRun others check ref now_ s = (Ok o, s') ∧ kept s s'
    ∧ (ref_in Lost ref → Ref_TaskRunID ref ∈ ids s → settled (Ref_TaskRunID ref) s').
Proof using Hothers Hlost Hsafe.
  intros Hs W. unfold reconcileRun. destruct (bool_decide_reflect (Ref_CreatedBy ref = ""%string)) as [E|E].
  { eexists _, s. split_and!; [reflexivity|done|by intros [? _]]. }
  unfold mbind at 1, eff_bind at 1, after at 1, gets at 1. pose proof (Hothers s) as K1.
  destruct (check (others s) (Ref_CreatedBy ref) (Ref_SpaceID ref)) as [[]|e] eqn:Ec.
  { eexists _, _. split_and!; [reflexivity|done|]. intros [_ HL] _. by destruct (Hlost (others s) _ _ HL) as (? & ? & _); congruence. }
  assert (e = eligibility.ErrUnavailable ∨ e ≠ eligibility.ErrUnavailable) as [->|Hne] by (destruct e; by auto).
  { eexists _, _. split_and!; [reflexivity|done|]. intros [_ HL] _. by destruct (Hlost (others s) _ _ HL) as (? & ? & ?); congruence. }
  assert (¬ D (Ref_TaskRunID ref)) as Hd by (intros [_ HS]%Hs; destruct (Hsafe (others s) _ _ HS); congruence).
  set (m := RequestTaskRunCancel (Ref_TaskRunID ref) "" (withdrawalReason e) now_).
  assert (∃ b, m (others (others s)) = (Ok b, (m (others (others s))).2)) as [b Eb] by (by eexists).
  exists (Some (Ok b)), (m (others (others s))).2. split_and!.
  - destruct e; [| |done]; unfold mbind, eff_bind; by rewrite (attempt_value _ _ b _ Eb).
  - etransitivity; [exact K1|]. etransitivity; [apply Hothers|]. by apply kept_request.
  - intros _ Hin. destruct (request_settles (Ref_TaskRunID ref) (withdrawalReason e) now_ (others (others s))) as (b' & s' & E' & Hst).
    + apply list_elem_of_lookup in Hin as [i Hi]. apply list_elem_of_lookup. exists i.
      eapply ids_kept; [apply Hothers|by apply (kp_runs _ _ K1)|]. by eapply ids_kept.
    + subst m. by rewrite E'.
Qed.

Lemma reconcile_page refs now_ : ∀ s, Forall sound_ref refs → run_keys s →
  ∃ os s', mapM (λ ref, reconcileRun others check ref now_) refs s = (Ok os, s') ∧ kept s s'
    ∧ ∀ ref, ref ∈ refs → ref_in Lost ref → Ref_TaskRunID ref ∈ ids s → settled (Ref_TaskRunID ref) s'.
Proof using Hothers Hlost Hsafe.
  induction refs as [|ref refs IH]; intros s Hs W.
  - eexists _, s. split_and!; [reflexivity|done|by intros ref ?%not_elem_of_nil].
  - apply Forall_cons in Hs as [Hr Hs]. destruct (reconcileRun_settles ref now_ s Hr W) as (o & s1 & E1 & K1 & H1).
    assert (run_keys s1) as W1 by (by apply (kp_runs _ _ K1)). destruct (IH s1 Hs W1) as (os & s2 & E2 & K2 & H2).
    exists (o :: os), s2. split_and!; [|by etransitivity|].
    + change (mapM ?f (ref :: refs)) with (b ← f ref; bs ← mapM f refs; mret (b :: bs)).
      unfold mbind, eff_bind in *. rewrite E1. cbn. by rewrite E2.
    + intros r [->|Hin]%elem_of_cons HL Hid; [by eapply settled_kept; eauto|]. apply H2; [done..|].
      apply list_elem_of_lookup in Hid as [i Hi]. apply list_elem_of_lookup. exists i. by eapply ids_kept.
Qed.

(** ** The pass *)

Lemma rows_after_drop id l : ∀ j, NoDup (map Run_ID l) → map Run_ID l !! j = Some id → rows_after id l = Some (drop (S j) l).
Proof.
  induction l as [|r l IH]; intros j Hn Hj; [done|]. cbn in Hn. apply NoDup_cons in Hn as [Hr Hn]. cbn [rows_after].
  destruct j as [|j]; cbn in Hj.
  - injection Hj as ->. by rewrite (bool_decide_eq_true_2 (id = id)).
  - rewrite bool_decide_eq_false_2; [by apply IH|]. intros <-. apply Hr. by eapply list_elem_of_lookup_2.
Qed.

(** [k] rows are behind the pass. *)
Definition place (k : nat) (afterID : string) (s : Store) : Prop :=
  afterID = ""%string ∧ k = 0%nat ∨ ∃ j, k = S j ∧ ids s !! j = Some afterID.

Lemma page_at k afterID s : well s → place k afterID s →
  (k ≤ length (st_taskruns s))%nat
  ∧ ListActiveTaskRunsForEligibility afterID eligibilityScanBatch s = (Ok (firstn 200 (omap (ref_of_row s) (drop k (st_taskruns s)))), s).
Proof.
  intros W Hp. unfold ListActiveTaskRunsForEligibility, gets. rewrite omap_rows. destruct Hp as [[-> ->]|(j & -> & Hj)].
  - split; [lia|reflexivity].
  - split; [apply lookup_lt_Some in Hj; by rewrite length_map in Hj|].
    rewrite bool_decide_eq_false_2 by (intros ->; apply (wl_named _ W); by eapply list_elem_of_lookup_2).
    by rewrite (rows_after_drop _ _ j (wl_keys _ W) Hj).
Qed.

(** The rows a page covers are settled after it. *)
Lemma page_settles l0 l1 l2 s s' (T : string → Prop) i id :
  well s → kept s s' → st_taskruns s = l0 ++ l1 ++ l2 →
  (∀ ref, ref ∈ omap (ref_of_row s) l1 → ref_in Lost ref → Ref_TaskRunID ref ∈ ids s → settled (Ref_TaskRunID ref) s') →
  (∀ i id, (i < length l0)%nat → ids s !! i = Some id → T id → settled id s) → (∀ id, T id → initiated Lost id s) →
  (i < length l0 + length l1)%nat → ids s !! i = Some id → T id → settled id s'.
Proof using Hothers Hlost Hsafe.
  intros W K E Hp Hdone Hdue Hi Hid HT. destruct (Nat.lt_ge_cases i (length l0)) as [Hlt|Hge].
  { eapply settled_kept; [exact K|apply W|by eapply Hdone]. }
  apply list_lookup_fmap_Some in Hid as (r & Hrid & Hr). pose proof Hr as Hin%list_elem_of_lookup_2.
  assert (r ∈ l1) as Hr1.
  { rewrite E, lookup_app_r, lookup_app_l in Hr by lia. by eapply list_elem_of_lookup_2. }
  destruct (Hdue id HT) as (r' & space & Hr' & Hid' & Ho & Hne & HL).
  assert (r' = r) as -> by (apply (NoDup_key Run_ID (st_taskruns s)); [apply W|done..|congruence]).
  assert (stopped r ∨ ¬ stopped r) as [Hst|Hst].
  { unfold stopped. destruct (is_active (Run_Status r)); [|by left; left].
    destruct (Run_CancelRequestedAt r); [by left; right|right; by intros [?|?]]. }
  - eapply settled_kept; [exact K|apply W|by exists r].
  - destruct (ref_of_row_open s r space Hst Ho) as [ref Er]. destruct (ref_of_row_Some _ _ _ Er) as (E1 & E2 & E3).
    assert (id = Ref_TaskRunID ref) as -> by congruence. clear Hid' Hrid.
    apply Hp.
    + apply list_elem_of_omap. by exists r.
    + split; [by rewrite E2|]. rewrite E2. assert (Ref_SpaceID ref = space) as -> by congruence. done.
    + rewrite E1. change (Run_ID r ∈ Run_ID <$> st_taskruns s). by apply list_elem_of_fmap_2.
Qed.

Lemma page_sound s l : well s → l ⊆ st_taskruns s → (∀ id, D id → initiated Safe id s) → Forall sound_ref (omap (ref_of_row s) l).
Proof using Hothers Hlost Hsafe.
  intros W Hl HD. apply Forall_forall. intros ref (r & Hr & Er)%list_elem_of_omap Hd.
  destruct (ref_of_row_Some _ _ _ Er) as (E1 & E2 & E3). destruct (HD _ Hd) as (r' & space & Hr' & Hid' & Ho & Hne & HS).
  assert (r' = r) as -> by (apply (NoDup_key Run_ID (st_taskruns s)); [apply W|done|by apply Hl|congruence]).
  split; rewrite E2; [done|]. assert (Ref_SpaceID ref = space) as -> by congruence. done.
Qed.

Lemma sweepPages_settles now_ (T : string → Prop) fuel : ∀ k afterID s,
  well s → place k afterID s → (N < fuel + k)%nat →
  (∀ id, D id → initiated Safe id s) → (∀ id, T id → initiated Lost id s) →
  (∀ i id, (i < k)%nat → ids s !! i = Some id → T id → settled id s) →
  ∃ s', sweepPages others check fuel afterID now_ s = (Ok true, s') ∧ kept s s' ∧ ∀ id, T id → settled id s'.
Proof using Hothers Hlost Hsafe.
  induction fuel as [|fuel IH]; intros k afterID s W Hp Hf HD HT Hk.
  { destruct (page_at _ _ _ W Hp) as [Hk' _]. pose proof (wl_room _ W). lia. }
  pose proof (Hothers s) as K1. pose proof (well_kept _ _ K1 W) as W1. set (s1 := others s) in *.
  assert (place k afterID s1) as Hp1 by (destruct Hp as [?|(j & -> & Hj)]; [by left|right; exists j; split; [done|by eapply ids_kept; [|apply W|]]]).
  destruct (page_at _ _ _ W1 Hp1) as [Hk1 Epage].
  assert (∀ i id, (i < k)%nat → ids s1 !! i = Some id → T id → settled id s1) as Hdone.
  { intros i id Hi Hid Ht. assert (ids s !! i = Some id) as Hid0.
    { destruct (ids s !! i) as [id0|] eqn:E0; [by rewrite <- (ids_kept _ _ _ _ K1 (wl_keys _ W) E0)|].
      exfalso. apply lookup_ge_None in E0. rewrite length_map in E0. destruct (page_at _ _ _ W Hp). lia. }
    eapply settled_kept; [exact K1|apply W|by eapply Hk]. }
  assert (∀ id, D id → initiated Safe id s1) as HD1 by (intros id Hd; by eapply initiated_kept; [| |apply HD]; [|apply W|]).
  assert (∀ id, T id → initiated Lost id s1) as HT1 by (intros id Ht; by eapply initiated_kept; [| |apply HT]; [|apply W|]).
  destruct (page_covers (ref_of_row s1) 199 (drop k (st_taskruns s1))) as (l1 & l2 & Erows & Erefs & Hcase).
  rewrite Erefs in Epage. pose proof (take_drop k (st_taskruns s1)) as Esplit. rewrite Erows in Esplit. symmetry in Esplit.
  assert (length (firstn k (st_taskruns s1)) = k) as Hlen by (rewrite length_take; lia).
  destruct (reconcile_page (omap (ref_of_row s1) l1) now_ s1) as (os & s2 & E2 & K2 & Hpage); [|apply W1|].
  { apply page_sound; [done| |done]. rewrite Esplit. intros r Hr. apply elem_of_app. right. apply elem_of_app. by left. }
  pose proof (well_kept _ _ K2 W1) as W2.
  assert (∀ i id, (i < k + length l1)%nat → ids s1 !! i = Some id → T id → settled id s2) as Hdone2.
  { intros i id Hi. eapply page_settles; [exact W1|exact K2|exact Esplit|exact Hpage| |exact HT1|by rewrite Hlen]. by rewrite Hlen. }
  assert (kept s s2) as K by (by etransitivity).
  destruct Hcase as [[Hshort ->]|[Hfull (l0 & a & b & El1 & Ea & Elast)]].
  - (* the last page *)
    assert (∀ id, T id → settled id s2) as Hall.
    { intros id Ht. destruct (HT1 id Ht) as (r & _ & Hr & Hid & _). apply list_elem_of_lookup in Hr as [i Hi].
      apply (Hdone2 i); [|apply list_lookup_fmap_Some; by exists r|done].
      apply lookup_lt_Some in Hi. rewrite Esplit, !length_app, Hlen in Hi. cbn in Hi. lia. }
    destruct (omap (ref_of_row s1) l1) as [|ref refs] eqn:Er.
    + exists s1. injection E2 as _ <-. split_and!; [|done|done]. cbn [sweepPages].
      unfold mbind at 1, eff_bind at 1. by rewrite (attempt_value _ _ _ _ Epage).
    + exists s2. split_and!; [|done|done]. cbn [sweepPages].
      unfold mbind at 1, eff_bind at 1. rewrite (attempt_value _ _ _ _ Epage). unfold mbind, eff_bind in *. rewrite E2.
      destruct (Z.ltb_spec (Z.of_nat (length (ref :: refs))) eligibilityScanBatch) as [_|H]; [done|].
      exfalso. change eligibilityScanBatch with 200 in H. lia.
  - destruct (IH (k + length l1)%nat (Ref_TaskRunID b) s2) as (s3 & E3 & K3 & H3).
    + done.
    + right. exists (k + length l0)%nat. split; [rewrite El1, length_app; cbn; lia|].
      eapply ids_kept; [exact K2|apply W1|]. apply list_lookup_fmap_Some. exists a. split; [by destruct (ref_of_row_Some _ _ _ Ea)|].
      rewrite Esplit, lookup_app_r, El1, lookup_app_l by (rewrite ?Hlen, ?length_app; cbn; lia).
      rewrite Hlen, lookup_app_r by lia. by replace (k + length l0 - k - length l0)%nat with 0%nat by lia.
    + rewrite El1, length_app. cbn. lia.
    + intros id Hd. eapply initiated_kept; [exact K2|apply W1|by apply HD1].
    + intros id Ht. eapply initiated_kept; [exact K2|apply W1|by apply HT1].
    + intros i id Hi Hid Ht. apply (Hdone2 i); [done| |done].
      destruct (ids s1 !! i) as [id0|] eqn:E0; [by rewrite <- (ids_kept _ _ _ _ K2 (wl_keys _ W1) E0)|].
      exfalso. apply lookup_ge_None in E0. rewrite length_map, Esplit, !length_app, Hlen in E0. lia.
    + exists s3. split_and!; [|by etransitivity|done]. cbn [sweepPages].
      unfold mbind at 1, eff_bind at 1. rewrite (attempt_value _ _ _ _ Epage).
      destruct (omap (ref_of_row s1) l1) as [|ref refs] eqn:Er; [done|]. unfold mbind, eff_bind in *. rewrite E2.
      destruct (Z.ltb_spec (Z.of_nat (length (ref :: refs))) eligibilityScanBatch) as [H|_].
      { exfalso. change eligibilityScanBatch with 200 in H. lia. }
      by rewrite Elast.
Qed.

(** C17: A pass of the eligibility reconciler misses nobody.  While others write
    (they add runs, move them along and withdraw no request), with at most [N] runs
    throughout, the pass ends after at most [N + 1] pages; every run whose
    initiator has lost its authority when the pass begins, and for as long as it
    lasts, with the check able to say so, is then over or asked to stop, even when
    it moved or rows were added between two pages; and a run whose initiator may
    act, or whose authority cannot be read, throughout was not asked by the pass. *)
Theorem Sweep_misses_nobody fuel now_ s :
  well s → (N < fuel)%nat → (∀ id, D id → initiated Safe id s) →
  ∃ s', Sweep others check fuel now_ s = (Ok true, s')
    ∧ (∀ id, initiated Lost id s → settled id s')
    ∧ (∀ r, r ∈ st_taskruns s → D (Run_ID r) → Run_CancelRequestedAt r = None →
        ∃ r', r' ∈ st_taskruns s' ∧ Run_ID r' = Run_ID r ∧ Run_CancelRequestedAt r' = None).
Proof using Hothers Hlost Hsafe.
  intros W Hf HD. destruct (sweepPages_settles now_ (λ id, initiated Lost id s) fuel 0 "" s) as (s' & E & K & H); [done|by left|lia|done|done| |].
  { intros i id Hi. lia. }
  exists s'. split_and!; [exact E|exact H|]. intros r Hr Hd Hn. destruct (kept_row _ _ _ K (wl_keys _ W) Hr) as (r' & Hr' & E1 & _ & _ & _ & E5).
  exists r'. by split_and!; [| |apply E5].
Qed.
End Steady.
