(* ===== verification/RunExample.v ===== *)
(** * RunExample: runs being started, watched and stopped

    A store with runs, an account that may work and one that may not: the
    theorems about the scheduler, the reaper and the eligibility reconciler
    applied to it, and what becomes of a run that waited long for its turn. *)

From Stdlib Require Import Ascii String.
From S2P Require Import Prelude EffLogic Text Json JsonSchema TaskCore WorkflowCore WorkflowGraph WorkflowDefinition Store.
From S2P Require Import TaskStore WorkflowStore WorkflowLifecycle StoreProgram TaskService WorkflowSafety LedgerCore LedgerStore.
From S2P Require Import WorkflowReconcile ReconcileMoves ReconcileSafety WorkflowCommands ScheduleStore ScheduleDispatch.
From S2P Require Import ScheduleDispatch ScheduleLaws RunDispatch RunLaws RunReaper RunReconcile.
From stdpp Require Import gmap strings.
Import Prelude.
Import db coretask taskdb dispatcher runscan runscheduler reaper reconciler.
Local Open Scope string_scope.
Local Open Scope Z_scope.

(** ** The collaborators *)

#[local] Instance sample_host : Host := {|
  RunWorker _ _ _ := Ok ("local", None, None); stopping _ := false |}.

#[local] Instance nobody_else : Coherent id.
Proof. intros s. reflexivity. Qed.

Lemma undisturbed_id : undisturbed id.
Proof. by intros s. Qed.

Definition may_work (_ : Store) (user _ : string) : res eligibility.error unit :=
  if bool_decide (user = "usr") then Ok tt else Err eligibility.ErrAccountDisabled.

Definition refusal_text (_ : eligibility.error) : string := "the account is disabled".

Definition sign (c : RunClaims) : res string string := Ok (RC_UserID c +:+ "/" +:+ RC_SpaceID c).

Definition sample_turn := turn id (Some may_work) refusal_text (Some sign) 0.
Definition sample_poll := pollOnce id (Some may_work) refusal_text (Some sign) 0.

(** ** The store *)

(** The pending run of the sample store, made another. *)
Definition variant (id : string) (user : string) (status : RunStatus) (seen asked : option Z) : list Run :=
  (λ r, r <| Run_ID := id |> <| Run_CreatedBy := user |> <| Run_Status := status |>
          <| Run_LastSeenAt := seen |> <| Run_CancelRequestedAt := asked |>) <$> st_taskruns sample_store.

Definition gone_store : Store := sample_store <| st_taskruns := variant "gone" "usx" RunStatusPending None None |>.

Definition late_store : Store :=
  sample_store <| st_taskruns :=
    (variant "silent" "usr" RunStatusRunning (Some 2000) None ++ variant "waiting" "usr" RunStatusPending None None
     ++ variant "asked" "usr" RunStatusScheduled None (Some 3000) ++ variant "old" "usr" RunStatusScheduled None None)%list |>.

Definition crowd_store : Store :=
  sample_store <| st_taskruns :=
    (variant "one" "usr" RunStatusRunning None None ++ variant "two" "usx" RunStatusRunning None None
     ++ variant "three" "usr" RunStatusPending None None)%list |>.

Definition sample_reaper : StaleRunReaper := NewStaleRunReaper (Some (λ _ _, true)) 0.

Ltac by_compute := apply (bool_decide_unpack _); vm_compute; exact I.

Lemma runs_dispatched_once_witness : ∃ f o s' ids,
  sample_turn sample_store = (Ok (f, o), s') ∧ claims sample_store ids s' ∧ NoDup ids ∧ "id_1" ∈ ids.
Proof.
  destruct (sample_turn sample_store) as [[[f o]|e] s'] eqn:E; [|vm_compute in E; discriminate E].
  destruct (runs_dispatched_once id (Some may_work) refusal_text (Some sign) 0 sample_store f o s') as (ids & Hc & Hn & Hh & _);
    [by_compute|exact E|].
  exists f, o, s', ids. split_and!; [reflexivity|exact Hc|exact Hn|]. eapply elem_of_sublist; [|exact Hh].
  assert (handed f = ["id_1"]) as ->; [|apply list_elem_of_here].
  transitivity (match (sample_turn sample_store).1 with Ok (f, _) => handed f | Err _ => [] end); [by rewrite E|vm_compute; reflexivity].
Defined.

Lemma pollOnce_gates_witness : ∃ c s' r,
  sample_poll gone_store = (Ok (Withdrawn "gone" CancelReasonCreatorDisabled c), s')
  ∧ r ∈ st_taskruns s' ∧ Run_ID r = "gone" ∧ Run_Status r = RunStatusCanceled.
Proof.
  destruct (sample_poll gone_store) as [[f|e] s'] eqn:E; [|vm_compute in E; discriminate E].
  assert (f = Withdrawn "gone" CancelReasonCreatorDisabled Closed) as ->.
  { transitivity (match (sample_poll gone_store).1 with Ok f => f | Err _ => Busy end); [by rewrite E|vm_compute; reflexivity]. }
  destruct (pollOnce_gates id (Some may_work) refusal_text (Some sign) 0 gone_store
    (Withdrawn "gone" CancelReasonCreatorDisabled Closed) s') as [H _]; [by_compute|exact E|].
  destruct H as (run & task & e & checked & _ & _ & _ & _ & _ & _ & r & Hr & Hid & Hst & _).
  exists Closed, s', r. by split_and!.
Defined.

Lemma Sweep_verdicts_witness : ∃ ends s',
  reaper.Sweep id sample_reaper (7 * Hour) late_store = (Ok ends, s')
  ∧ (λ r, (Run_ID r, Run_Status r)) <$> st_taskruns s' =
    [("silent", RunStatusFailed); ("waiting", RunStatusPending); ("asked", RunStatusCanceled); ("old", RunStatusFailed)].
Proof.
  destruct (Sweep_verdicts id undisturbed_id sample_reaper (7 * Hour) late_store) as (ends & s' & E & R & _); [by_compute|by_compute|].
  exists ends, s'. split; [exact E|]. rewrite R. vm_compute. reflexivity.
Defined.

Lemma Sweep_misses_nobody_witness : ∃ s',
  reconciler.Sweep id may_work 4 5000 crowd_store = (Ok true, s') ∧ RunReconcile.settled "two" s'
  ∧ ∃ r, r ∈ st_taskruns s' ∧ Run_ID r = "one" ∧ Run_CancelRequestedAt r = None.
Proof.
  assert (∃ one two three, st_taskruns crowd_store = [one; two; three] ∧ Run_ID one = "one" ∧ Run_ID two = "two"
    ∧ Run_TaskID one = "id_0" ∧ Run_TaskID two = "id_0" ∧ Run_CreatedBy one = "usr" ∧ Run_CreatedBy two = "usx"
    ∧ Run_CancelRequestedAt one = None) as (one & two & three & Es & I1 & I2 & T1 & T2 & C1 & C2 & A1)
    by (eexists _, _, _; vm_compute; by split_and!).
  assert (owner crowd_store "id_0" = Some "spc") as Ho by (vm_compute; reflexivity).
  destruct (Sweep_misses_nobody 3 (λ id, id = "one") id may_work (λ user _, user = "usx") (λ user _, user = "usr")
    ltac:(intros s; reflexivity)) with (fuel := 4%nat) (now_ := 5000) (s := crowd_store) as (s' & E & HL & HD).
  - intros s user space ->. exists eligibility.ErrAccountDisabled. split; [reflexivity|discriminate].
  - intros s user space ->. left. reflexivity.
  - split; by_compute.
  - lia.
  - intros id ->. exists one, "spc". rewrite Es, T1, C1. by split_and!; [apply list_elem_of_here|..].
  - exists s'. split_and!; [exact E| |].
    + apply HL. exists two, "spc". rewrite Es, T2, C2. by split_and!; [apply list_elem_of_further, list_elem_of_here|..].
    + destruct (HD one) as (r & Hr & E1 & E2); [rewrite Es; apply list_elem_of_here|exact I1|exact A1|].
      exists r. split_and!; [exact Hr|by rewrite E1|exact E2].
Defined.

(** A run is abandoned by its age, not by how long it has been with a worker:
    created seven hours ago, and handed to a worker only now, it is failed by the
    next sweep. *)
Lemma queued_run_reaped_at_dispatch :
  let old := sample_store <| st_clock := 7 * Hour |> in
  let handed_over := sample_turn old in
  let swept := reaper.Sweep id sample_reaper (7 * Hour + Second) handed_over.2 in
  (∃ j, handed_over.1 = Ok (Handed j, Some (Started (Ok 1%nat))))
  ∧ ((λ r, (Run_Status r, Run_FailureClass_ r)) <$> st_taskruns swept.2) = [(RunStatusFailed, Some FailureAbandoned)].
Proof. split; [eexists; vm_compute; reflexivity|vm_compute; reflexivity]. Qed.
