(* ===== verification/SessionCore.v ===== *)
(** * SessionCore: the session model of internal/core/session

    A local session is a journal of linked records.  [Module llm] and
    [Module agent] hold the message and note types a record carries;
    [Module session] mirrors history.go, branch.go, reduce.go, rewind.go, fork.go
    and recovery.go: what a record is, when a journal is well formed, which
    records the branch ending at a head consists of, and what state it reduces
    to. *)

From S2P Require Import Prelude.
From stdpp Require Import gmap strings.

Module llm.

(** ** Messages: internal/core/llm/llm.go *)

Definition ContentPartImage : string := "image".

Record ContentPart : Type := mkContentPart {
  CP_Type_ : string;
  CP_Text : string;
  CP_MediaType : string;
  CP_Data : string
}.
#[export] Instance ContentPart_updatable : Updatable ContentPart := λ r,
  mkContentPart (CP_Type_ r) (CP_Text r) (CP_MediaType r) (CP_Data r).

Record ToolCall : Type := mkToolCall {
  TC_ID : string;
  TC_Name : string;
  TC_Arguments : string
}.
#[export] Instance ToolCall_updatable : Updatable ToolCall := λ r,
  mkToolCall (TC_ID r) (TC_Name r) (TC_Arguments r).

Record ProviderState : Type := mkProviderState {
  PS_Protocol : string;
  PS_Data : string
}.
#[export] Instance ProviderState_updatable : Updatable ProviderState := λ r,
  mkProviderState (PS_Protocol r) (PS_Data r).

Record Message : Type := mkMessage {
  Msg_Role : string;
  Msg_Content : string;
  Msg_ToolCallID : string;
  Msg_ToolCalls : list ToolCall;
  Msg_Source : string;
  Msg_ProviderState : option ProviderState;
  Msg_Parts : list ContentPart
}.
#[export] Instance Message_updatable : Updatable Message := λ r,
  mkMessage (Msg_Role r) (Msg_Content r) (Msg_ToolCallID r) (Msg_ToolCalls r) (Msg_Source r)
    (Msg_ProviderState r) (Msg_Parts r).

Definition Images (m : Message) : list ContentPart :=
  List.filter (λ part, (CP_Type_ part == ContentPartImage) && (CP_Data part != "")) (Msg_Parts m).

End llm.

Module agent.

(** ** Durable notes: internal/core/agent/notes.go *)

Record Note : Type := mkNote {
  Note_Text : string;
  Note_WrittenIteration : Z
}.
#[export] Instance Note_updatable : Updatable Note := λ r,
  mkNote (Note_Text r) (Note_WrittenIteration r).

Record Todo : Type := mkTodo {
  Todo_Content : string;
  Todo_Status : string;
  Todo_ActiveForm : string;
  Todo_WrittenIteration : Z
}.
#[export] Instance Todo_updatable : Updatable Todo := λ r,
  mkTodo (Todo_Content r) (Todo_Status r) (Todo_ActiveForm r) (Todo_WrittenIteration r).

(** The first entry under a key keeps its iteration. *)
Definition first_age {K : Type} `{Countable K} (entries : list (K * Z)) : gmap K Z :=
  foldl (λ age e, match age !! e.1 with Some _ => age | None => <[e.1 := e.2]> age end) ∅ entries.

Definition StampNotes (prev next : list Note) (iter : Z) : list Note :=
  let age := first_age (map (λ p, (Note_Text p, Note_WrittenIteration p)) prev) in
  map (λ n, match age !! Note_Text n with
            | Some at_ => n <| Note_WrittenIteration := at_ |>
            | None => n <| Note_WrittenIteration := iter |>
            end) next.

Definition StampTodos (prev next : list Todo) (iter : Z) : list Todo :=
  let age := first_age
    (map (λ p, ((Todo_Content p, Todo_Status p), Todo_WrittenIteration p)) prev) in
  map (λ td, match age !! (Todo_Content td, Todo_Status td) with
             | Some at_ => td <| Todo_WrittenIteration := at_ |>
             | None => td <| Todo_WrittenIteration := iter |>
             end) next.

(** ** The tool boundary: internal/core/agent/tool_boundary.go *)

Definition ToolStatusCompleted : string := "completed".
Definition ToolStatusFailed : string := "failed".
Definition ToolStatusDenied : string := "denied".

Record ToolCallStart : Type := mkToolCallStart {
  Start_ID : string;
  Start_Name : string
}.
#[export] Instance ToolCallStart_updatable : Updatable ToolCallStart := λ r,
  mkToolCallStart (Start_ID r) (Start_Name r).

Record ToolOutcome : Type := mkToolOutcome {
  Out_ID : string;
  Out_Name : string;
  Out_Status : string;
  Out_Result : string;
  Out_Parts : list llm.ContentPart
}.
#[export] Instance ToolOutcome_updatable : Updatable ToolOutcome := λ r,
  mkToolOutcome (Out_ID r) (Out_Name r) (Out_Status r) (Out_Result r) (Out_Parts r).

End agent.

Module session.

(** ** Errors

    The sentinel errors of history.go, rewind.go and session.go; [Other] is an
    error no caller tells apart. *)

Inductive error : Type :=
| ErrHistoryVersion
| ErrHistoryCorrupt
| ErrUnknownRequired
| ErrHeadNotFound
| ErrAlreadyHead
| ErrNoLanding
| ErrSessionNotFound
| ErrLocked
| Other (what : string).

#[export] Instance error_eq_dec : EqDecision error.
Proof. solve_decision. Defined.

(** ** Records: history.go *)

Definition HistoryVersion : Z := 1.

Definition ToolStatusUnknown : string := "unknown".

Record Header : Type := mkHeader {
  Hdr_Type_ : string;
  Hdr_Version : Z;
  Hdr_SessionID : string;
  Hdr_CreatedAt : Z
}.
#[export] Instance Header_updatable : Updatable Header := λ r,
  mkHeader (Hdr_Type_ r) (Hdr_Version r) (Hdr_SessionID r) (Hdr_CreatedAt r).

Definition NewHeader (sessionID : string) (createdAt : Z) : Header :=
  mkHeader "history" HistoryVersion sessionID createdAt.

Definition Header_Validate (h : Header) : res error unit :=
  if Hdr_Type_ h != "history" then Err ErrHistoryCorrupt
  else if Hdr_Version h != HistoryVersion then Err ErrHistoryVersion
  else if Hdr_SessionID h == "" then Err ErrHistoryCorrupt
  else Ok tt.

Inductive Payload : Type :=
| TurnStarted (RunID Model WorkspaceRoot : string) (ContextWindow : Z) (InputKind : string)
| MessageItem (Message : llm.Message)
| ToolExecutionStarted (ToolCallID ToolName : string)
| ToolResult (ToolCallID Status Content : string) (Parts : list llm.ContentPart)
| Compaction (CoveredHeadID Summary : string)
| NotesReplaced (Notes : list agent.Note)
| TodosReplaced (Todos : list agent.Todo)
| AdditionalPromptSet (Text : string)
| HeadSelected (Reason : string)
| TurnFinished (Status ErrorClass : string)
| TurnRecovered (TurnID : string) (UncertainToolCallIDs : list string)
| UnknownPayload (Kind Raw : string).

Definition itemType (p : Payload) : string :=
  match p with
  | TurnStarted _ _ _ _ _ => "turn_started"
  | MessageItem _ => "message"
  | ToolExecutionStarted _ _ => "tool_execution_started"
  | ToolResult _ _ _ _ => "tool_result"
  | Compaction _ _ => "compaction"
  | NotesReplaced _ => "notes_replaced"
  | TodosReplaced _ => "todos_replaced"
  | AdditionalPromptSet _ => "additional_prompt_set"
  | HeadSelected _ => "head_selected"
  | TurnFinished _ _ => "turn_finished"
  | TurnRecovered _ _ => "turn_recovered"
  | UnknownPayload kind _ => kind
  end.

Definition modelVisible (p : Payload) : bool :=
  match p with
  | TurnStarted _ _ _ _ _ | ToolExecutionStarted _ _ | TurnFinished _ _ | TurnRecovered _ _ => false
  | _ => true
  end.

(** A record; [None] is a nil payload. *)
Record Item : Type := mkItem {
  It_Seq : Z;
  It_ID : string;
  It_ParentID : string;
  It_TS : Z;
  It_Required : bool;
  It_TurnID : string;
  It_Payload : option Payload
}.
#[export] Instance Item_updatable : Updatable Item := λ r,
  mkItem (It_Seq r) (It_ID r) (It_ParentID r) (It_TS r) (It_Required r) (It_TurnID r)
    (It_Payload r).

Definition Item_Type (it : Item) : string :=
  match It_Payload it with None => "" | Some p => itemType p end.

Definition NewItem (seq : Z) (id parentID : string) (ts : Z) (turnID : string)
    (payload : option Payload) : Item :=
  mkItem seq id parentID ts
    (match payload with None => false | Some p => modelVisible p end) turnID payload.

(** ** Journal validation: branch.go *)

Record Validator : Type := mkValidator {
  V_seen : gset string;
  V_roots : nat;
  V_count : nat
}.
#[export] Instance Validator_updatable : Updatable Validator := λ r,
  mkValidator (V_seen r) (V_roots r) (V_count r).

Definition NewValidator : Validator := mkValidator ∅ 0 0.

Definition Add (v : Validator) (it : Item) : res error Validator :=
  if It_ID it == "" then Err ErrHistoryCorrupt
  else match It_Payload it with
  | None => Err ErrHistoryCorrupt
  | Some p =>
    if decide (It_ID it ∈ V_seen v) then Err ErrHistoryCorrupt
    else if (match p with UnknownPayload _ _ => It_Required it | _ => false end)
    then Err ErrUnknownRequired
    else
      let accept (v : Validator) :=
        v <| V_seen := {[It_ID it]} ∪ V_seen v |> <| V_count := S (V_count v) |> in
      if It_ParentID it == "" then
        let v := v <| V_roots := S (V_roots v) |> in
        if 1 <? V_roots v then Err ErrHistoryCorrupt else Ok (accept v)
      else if decide (It_ParentID it ∈ V_seen v) then Ok (accept v)
      else Err ErrHistoryCorrupt
  end.

Definition Done (v : Validator) : res error unit :=
  if (0 <? V_count v) && (V_roots v =? 0) then Err ErrHistoryCorrupt else Ok tt.

Fixpoint AddAll (v : Validator) (items : list Item) : res error Validator :=
  match items with
  | [] => Ok v
  | it :: items => v ← Add v it; AddAll v items
  end.

Definition Validate (items : list Item) : res error unit := v ← AddAll NewValidator items; Done v.

(** ** Branches: branch.go *)

Definition Head (items : list Item) : res error string :=
  match last items with None => Err ErrHeadNotFound | Some it => Ok (It_ID it) end.

Definition byID (items : list Item) : gmap string Item :=
  foldl (λ m it, <[It_ID it := it]> m) ∅ items.

(** The loop of [Branch].  [rest] is [len(items) - len(reversed)], so its end is
    the loop's own guard; [branch] is [reversed] read backwards. *)
Fixpoint walk (rest : nat) (by_id : gmap string Item) (head id : string)
    (branch : list Item) : res error (list Item) :=
  if id == "" then Ok branch
  else match by_id !! id with
  | None => if id == head then Err ErrHeadNotFound else Err ErrHistoryCorrupt
  | Some it =>
      match rest with
      | 0 => Err ErrHistoryCorrupt
      | S rest => walk rest by_id head (It_ParentID it) (it :: branch)
      end
  end.

Definition Branch (items : list Item) (head : string) : res error (list Item) :=
  if head == "" then Ok [] else walk (length items) (byID items) head head [].

(** ** Reduction: reduce.go *)

Record State : Type := mkState {
  St_Messages : list llm.Message;
  St_CompactionIdx : nat;
  St_CompactionSummary : string;
  St_Notes : list agent.Note;
  St_Todos : list agent.Todo;
  St_AdditionalPrompt : string;
  St_LastTurn : string;
  St_Open : bool
}.
#[export] Instance State_updatable : Updatable State := λ r,
  mkState (St_Messages r) (St_CompactionIdx r) (St_CompactionSummary r) (St_Notes r) (St_Todos r)
    (St_AdditionalPrompt r) (St_LastTurn r) (St_Open r).

Definition State0 : State := mkState [] 0 "" [] [] "" "" false.

(** The tool-role message a result projects to. *)
Definition toolMessage (toolCallID content : string) (parts : list llm.ContentPart) : llm.Message :=
  llm.mkMessage "tool" content toolCallID [] "" None parts.

(** The records that project to a message. *)
Definition isMessage (it : Item) : bool :=
  match It_Payload it with
  | Some (MessageItem _) | Some (ToolResult _ _ _ _) => true
  | _ => false
  end.

Fixpoint boundary_from (messages : nat) (coveredHeadID : string) (branch : list Item) : option nat :=
  match branch with
  | [] => None
  | it :: branch =>
      let messages := if isMessage it then S messages else messages in
      if It_ID it == coveredHeadID then Some messages
      else boundary_from messages coveredHeadID branch
  end.

Definition compactionBoundary (branch : list Item) (coveredHeadID : string) : res error nat :=
  if coveredHeadID == "" then Err ErrHistoryCorrupt
  else match boundary_from 0 coveredHeadID branch with
  | None => Err ErrHistoryCorrupt
  | Some messages => Ok messages
  end.

(** One turn of the loop of [Reduce], over the state and the calls answered. *)
Definition applyItem (branch : list Item) (acc : State * gset string) (it : Item) :
    res error (State * gset string) :=
  let '(st, answered) := acc in
  match It_Payload it with
  | Some (TurnStarted runID _ _ _ _) => Ok (st <| St_LastTurn := runID |> <| St_Open := true |>, answered)
  | Some (TurnFinished _ _) => Ok (st <| St_Open := false |>, answered)
  | Some (MessageItem m) => Ok (st <| St_Messages := St_Messages st ++ [m] |>, answered)
  | Some (ToolResult id _ content parts) =>
      if decide (id ∈ answered) then Err ErrHistoryCorrupt
      else Ok (st <| St_Messages := St_Messages st ++ [toolMessage id content parts] |>,
               {[id]} ∪ answered)
  | Some (Compaction covered summary) =>
      idx ← compactionBoundary branch covered;
      Ok (st <| St_CompactionIdx := idx |> <| St_CompactionSummary := summary |>, answered)
  | Some (NotesReplaced notes) => Ok (st <| St_Notes := notes |>, answered)
  | Some (TodosReplaced todos) => Ok (st <| St_Todos := todos |>, answered)
  | Some (AdditionalPromptSet text) => Ok (st <| St_AdditionalPrompt := text |>, answered)
  | _ => Ok (st, answered)
  end.

Fixpoint replay (branch items : list Item) (acc : State * gset string) :
    res error (State * gset string) :=
  match items with
  | [] => Ok acc
  | it :: items => acc ← applyItem branch acc it; replay branch items acc
  end.

Definition Reduce (items : list Item) (head : string) : res error State :=
  branch ← Branch items head;
  acc ← replay branch branch (State0, ∅);
  Ok acc.1.

Definition HistoryMessages (s : State) : list llm.Message :=
  if (0 <? St_CompactionIdx s) && (St_CompactionIdx s <=? length (St_Messages s))
  then drop (St_CompactionIdx s) (St_Messages s) else St_Messages s.

(** ** Forks: fork.go *)

Definition renumber (branch : list Item) : list Item :=
  imap (λ i it, it <| It_Seq := Z.of_nat (i + 1) |>) branch.

Definition ForkPrefix (items : list Item) (throughID : string) : res error (list Item) :=
  branch ← Branch items throughID; Ok (renumber branch).

(** ** Rewinds: rewind.go *)

Record AbandonedEffect : Type := mkAbandonedEffect {
  Eff_ToolCallID : string;
  Eff_ToolName : string;
  Eff_Returned : bool
}.
#[export] Instance AbandonedEffect_updatable : Updatable AbandonedEffect := λ r,
  mkAbandonedEffect (Eff_ToolCallID r) (Eff_ToolName r) (Eff_Returned r).

Record AbandonedWork : Type := mkAbandonedWork {
  Ab_Messages : nat;
  Ab_Effects : list AbandonedEffect
}.
#[export] Instance AbandonedWork_updatable : Updatable AbandonedWork := λ r,
  mkAbandonedWork (Ab_Messages r) (Ab_Effects r).

Definition Undoable (a : AbandonedWork) : bool := length (Ab_Effects a) =? 0.

(** The index of the first record of that id. *)
Definition position (branch : list Item) (id : string) : option nat :=
  fst <$> list_find (λ it, It_ID it = id) branch.

(** The loop of [Abandoned] over the span that leaves the branch. *)
Record Span : Type := mkSpan {
  Sp_messages : nat;
  Sp_entered : gmap string string;
  Sp_returned : gset string;
  Sp_order : list string
}.
#[export] Instance Span_updatable : Updatable Span := λ r,
  mkSpan (Sp_messages r) (Sp_entered r) (Sp_returned r) (Sp_order r).

Definition spanStep (sp : Span) (it : Item) : Span :=
  match It_Payload it with
  | Some (MessageItem _) => sp <| Sp_messages := S (Sp_messages sp) |>
  | Some (ToolResult id _ _ _) =>
      sp <| Sp_messages := S (Sp_messages sp) |> <| Sp_returned := {[id]} ∪ Sp_returned sp |>
  | Some (ToolExecutionStarted id name) =>
      let sp := match Sp_entered sp !! id with
                | Some _ => sp
                | None => sp <| Sp_order := Sp_order sp ++ [id] |>
                end in
      sp <| Sp_entered := <[id := name]> (Sp_entered sp) |>
  | _ => sp
  end.

Definition abandonedSpan (span : list Item) : AbandonedWork :=
  let sp := foldl spanStep (mkSpan 0 ∅ ∅ []) span in
  mkAbandonedWork (Sp_messages sp)
    (map (λ id, mkAbandonedEffect id (default "" (Sp_entered sp !! id))
                  (bool_decide (id ∈ Sp_returned sp))) (Sp_order sp)).

Definition Abandoned (items : list Item) (head target : string) : res error AbandonedWork :=
  branch ← Branch items head;
  match position branch target with
  | None => Err ErrHeadNotFound
  | Some cut =>
      if cut =? length branch - 1 then Err ErrAlreadyHead
      else Ok (abandonedSpan (drop (cut + 1) branch))
  end.

Definition opensTurn (it : Item) : bool :=
  match It_Payload it with Some (TurnStarted _ _ _ _ _) => true | _ => false end.

(** [before] lists the records before the message, the nearest first. *)
Definition landing (before : list Item) : res error string :=
  match List.find (λ it, negb (opensTurn it)) before with
  | None => Err ErrNoLanding
  | Some it => Ok (It_ID it)
  end.

Definition RewindLanding (items : list Item) (head messageID : string) : res error string :=
  branch ← Branch items head;
  match position branch messageID with
  | None => Err ErrHeadNotFound
  | Some cut => landing (reverse (take cut branch))
  end.

(** ** Interrupted turns: recovery.go *)

Definition OutcomeNotStarted : string := "not_started".
Definition OutcomeUnknown : string := "outcome_unknown".

Record ToolCallOutcome : Type := mkToolCallOutcome {
  TO_ToolCallID : string;
  TO_ToolName : string;
  TO_Class_ : string
}.
#[export] Instance ToolCallOutcome_updatable : Updatable ToolCallOutcome := λ r,
  mkToolCallOutcome (TO_ToolCallID r) (TO_ToolName r) (TO_Class_ r).

Record Recovery : Type := mkRecovery {
  Rec_TurnID : string;
  Rec_Uncertain : list ToolCallOutcome;
  Rec_NotStarted : list ToolCallOutcome
}.
#[export] Instance Recovery_updatable : Updatable Recovery := λ r,
  mkRecovery (Rec_TurnID r) (Rec_Uncertain r) (Rec_NotStarted r).

Definition Recovery0 : Recovery := mkRecovery "" [] [].

Definition Needed (r : Recovery) : bool := Rec_TurnID r != "".

(** The variables of the loop of [Analyze]. *)
Record Scan : Type := mkScan {
  Scan_turnID : string;
  Scan_open : bool;
  Scan_requested : list ToolCallOutcome;
  Scan_entered : gmap string string;
  Scan_answered : gset string
}.
#[export] Instance Scan_updatable : Updatable Scan := λ r,
  mkScan (Scan_turnID r) (Scan_open r) (Scan_requested r) (Scan_entered r) (Scan_answered r).

Definition Scan0 : Scan := mkScan "" false [] ∅ ∅.

Definition reset (s : Scan) : Scan :=
  s <| Scan_requested := [] |> <| Scan_entered := ∅ |> <| Scan_answered := ∅ |>.

Definition scanStep (s : Scan) (it : Item) : Scan :=
  match It_Payload it with
  | Some (TurnStarted runID _ _ _ _) => reset (s <| Scan_turnID := runID |> <| Scan_open := true |>)
  | Some (TurnFinished _ _) => reset (s <| Scan_open := false |>)
  | Some (MessageItem m) =>
      s <| Scan_requested := Scan_requested s ++
             map (λ call, mkToolCallOutcome (llm.TC_ID call) (llm.TC_Name call) "") (llm.Msg_ToolCalls m) |>
  | Some (ToolExecutionStarted id name) => s <| Scan_entered := <[id := name]> (Scan_entered s) |>
  | Some (ToolResult id _ _ _) => s <| Scan_answered := {[id]} ∪ Scan_answered s |>
  | _ => s
  end.

Definition containsCall (calls : list ToolCallOutcome) (id : string) : bool :=
  existsb (λ c, TO_ToolCallID c == id) calls.

(** The loop over the requested calls. *)
Definition classify (s : Scan) (rec_ : Recovery) (call : ToolCallOutcome) : Recovery :=
  if decide (TO_ToolCallID call ∈ Scan_answered s) then rec_
  else match Scan_entered s !! TO_ToolCallID call with
  | Some name =>
      let call := if name != "" then call <| TO_ToolName := name |> else call in
      rec_ <| Rec_Uncertain := Rec_Uncertain rec_ ++ [call <| TO_Class_ := OutcomeUnknown |>] |>
  | None =>
      rec_ <| Rec_NotStarted := Rec_NotStarted rec_ ++ [call <| TO_Class_ := OutcomeNotStarted |>] |>
  end.

(** The loop over the entered calls. *)
Definition classifyEntered (s : Scan) (rec_ : Recovery) (e : string * string) : Recovery :=
  let '(id, name) := e in
  if bool_decide (id ∈ Scan_answered s) || containsCall (Rec_Uncertain rec_) id
     || containsCall (Rec_NotStarted rec_) id
  then rec_
  else rec_ <| Rec_Uncertain := Rec_Uncertain rec_ ++ [mkToolCallOutcome id name OutcomeUnknown] |>.

Section Range.
(** The order in which a [range] over a map visits it, which Go leaves open. *)
Context (range : gmap string string → list (string * string)).

Definition recoveryOf (s : Scan) : Recovery :=
  if negb (Scan_open s) then Recovery0
  else foldl (classifyEntered s)
         (foldl (classify s) (mkRecovery (Scan_turnID s) [] []) (Scan_requested s))
         (range (Scan_entered s)).

Definition Analyze (items : list Item) (head : string) : res error Recovery :=
  branch ← Branch items head;
  Ok (recoveryOf (foldl scanStep Scan0 branch)).
End Range.

End session.
