(* ===== verification/Pricing.v ===== *)
(** * Pricing: money in fixed point

    [Module pricing] mirrors internal/core/llm/pricing.go: rates and costs are
    64-bit counts of nano-units of a currency, so every sum and product is
    written with the wrap-around of the machine. *)

From S2P Require Import Prelude Text Json.
From stdpp Require Import strings pretty.
From Stdlib Require Import QArith Ascii String.
Close Scope Q_scope.
Local Open Scope Z_scope.
Local Open Scope buildmax_scope.

(** Two's complement on 64 bits: what Go's [int64] and [int] compute. *)
Definition wrap64 (z : Z) : Z := (z + 2 ^ 63) mod 2 ^ 64 - 2 ^ 63.

Definition fits64 (z : Z) : Prop := - 2 ^ 63 ≤ z < 2 ^ 63.

Lemma wrap64_fits z : fits64 z → wrap64 z = z.
Proof. unfold fits64, wrap64. intros H. rewrite Z.mod_small; lia. Qed.

Lemma wrap64_range z : fits64 (wrap64 z).
Proof. unfold fits64, wrap64. pose proof (Z.mod_pos_bound (z + 2 ^ 63) (2 ^ 64)). lia. Qed.

(** Sums taken one after the other wrap as their total does. *)
Lemma wrap64_add_l a b : wrap64 (wrap64 a + b) = wrap64 (a + b).
Proof.
  unfold wrap64. f_equal. replace ((a + 2 ^ 63) mod 2 ^ 64 - 2 ^ 63 + b + 2 ^ 63)
    with ((a + 2 ^ 63) mod 2 ^ 64 + b) by lia.
  rewrite Zplus_mod_idemp_l. f_equal. lia.
Qed.

Lemma wrap64_add_r a b : wrap64 (a + wrap64 b) = wrap64 (a + b).
Proof. rewrite (Z.add_comm a), wrap64_add_l. f_equal. lia. Qed.

Module pricing.

Definition NanoUnitsPerUnit : Z := 1000000000.
Definition tokensPerRateUnit : Z := 1000000.

(** [Usage] of internal/core/llm/llm.go. *)
Record Usage : Type := mkUsage {
  Use_PromptTokens : Z;
  Use_CompletionTokens : Z;
  Use_TotalTokens : Z;
  Use_CacheReadTokens : Z;
  Use_CacheWriteTokens : Z
}.
#[export] Instance Usage_updatable : Updatable Usage := λ r,
  mkUsage (Use_PromptTokens r) (Use_CompletionTokens r) (Use_TotalTokens r)
    (Use_CacheReadTokens r) (Use_CacheWriteTokens r).

Record Pricing : Type := mkPricing {
  Pri_Currency : string;
  Pri_InputPerMTok : Z;
  Pri_CacheReadPerMTok : Z;
  Pri_CacheWritePerMTok : Z;
  Pri_OutputPerMTok : Z
}.
#[export] Instance Pricing_updatable : Updatable Pricing := λ r,
  mkPricing (Pri_Currency r) (Pri_InputPerMTok r) (Pri_CacheReadPerMTok r) (Pri_CacheWritePerMTok r)
    (Pri_OutputPerMTok r).

Definition Configured (p : Pricing) : bool :=
  (Pri_Currency p != "")
  && ((Pri_InputPerMTok p != 0) || (Pri_CacheReadPerMTok p != 0)
      || (Pri_CacheWritePerMTok p != 0) || (Pri_OutputPerMTok p != 0)).

Record Cost : Type := mkCost {
  Cost_Currency : string;
  Cost_Uncached : Z;
  Cost_CacheRead : Z;
  Cost_CacheWrite : Z;
  Cost_Output : Z;
  Cost_Total : Z;
  Cost_Baseline : Z
}.
#[export] Instance Cost_updatable : Updatable Cost := λ r,
  mkCost (Cost_Currency r) (Cost_Uncached r) (Cost_CacheRead r) (Cost_CacheWrite r)
    (Cost_Output r) (Cost_Total r) (Cost_Baseline r).

#[export] Instance Cost_eq_dec : EqDecision Cost.
Proof. solve_decision. Defined.

Definition Saved (c : Cost) : Z :=
  if Cost_Baseline c <=? Cost_Total c then 0 else wrap64 (Cost_Baseline c - Cost_Total c).

Definition rate (tokens perMTok : Z) : Z :=
  if (tokens <=? 0) || (perMTok == 0) then 0
  else Z.quot (wrap64 (tokens * perMTok)) tokensPerRateUnit.

Definition EstimateCost (usage : Usage) (pricing : Pricing) : option Cost :=
  if negb (Configured pricing) then None
  else if (Use_PromptTokens usage == 0) && (Use_CompletionTokens usage == 0) then None
  else
    let uncached :=
      Z.max (wrap64 (wrap64 (Use_PromptTokens usage - Use_CacheReadTokens usage)
                     - Use_CacheWriteTokens usage)) 0 in
    let fresh := rate uncached (Pri_InputPerMTok pricing) in
    let read := rate (Use_CacheReadTokens usage) (Pri_CacheReadPerMTok pricing) in
    let write := rate (Use_CacheWriteTokens usage) (Pri_CacheWritePerMTok pricing) in
    let output := rate (Use_CompletionTokens usage) (Pri_OutputPerMTok pricing) in
    Some (mkCost (Pri_Currency pricing) fresh read write output
      (wrap64 (wrap64 (wrap64 (fresh + read) + write) + output))
      (wrap64 (rate (Use_PromptTokens usage) (Pri_InputPerMTok pricing)
               + rate (Use_CompletionTokens usage) (Pri_OutputPerMTok pricing)))).

(** The second result is whether the costs could be added. *)
Definition Add (c other : Cost) : Cost * bool :=
  if Cost_Currency other == "" then (c, true)
  else if Cost_Currency c == "" then (other, true)
  else if Cost_Currency c != Cost_Currency other then (c, false)
  else (mkCost (Cost_Currency c)
          (wrap64 (Cost_Uncached c + Cost_Uncached other))
          (wrap64 (Cost_CacheRead c + Cost_CacheRead other))
          (wrap64 (Cost_CacheWrite c + Cost_CacheWrite other))
          (wrap64 (Cost_Output c + Cost_Output other))
          (wrap64 (Cost_Total c + Cost_Total other))
          (wrap64 (Cost_Baseline c + Cost_Baseline other)), true).

(** ** Decimal text *)

(** [fmt.Sprintf("%0wd", n)] of a number that is not negative. *)
Definition pad (w : nat) (n : Z) : string :=
  let digits := pretty n in
  String.append (string_of_list_ascii (repeat "0"%char (w - String.length digits))) digits.

(** [strings.TrimRight(s, "0")] *)
Definition trimZeros (s : string) : string :=
  string_of_list_ascii
    (List.rev ((fix drop (l : list Ascii.ascii) :=
                  match l with
                  | "0"%char :: l => drop l
                  | l => l
                  end) (List.rev (list_ascii_of_string s)))).

Definition FormatRate (nano : Z) : string :=
  let sign := if nano <? 0 then "-"%string else ""%string in
  let nano := if nano <? 0 then wrap64 (- nano) else nano in
  let whole := Z.quot nano NanoUnitsPerUnit in
  let frac := Z.rem nano NanoUnitsPerUnit in
  if frac == 0 then (sign +:+ pretty whole)%string
  else (sign +:+ pretty whole +:+ "." +:+ trimZeros (pad 9 frac))%string.

Definition FormatAmount (nano : Z) : string :=
  let negative := nano <? 0 in
  let nano := if negative then wrap64 (- nano) else nano in
  let micro := Z.quot nano 1000 in
  let whole := Z.quot micro 1000000 in
  let frac := Z.rem micro 1000000 in
  let out := (pretty whole +:+ "." +:+ pad 6 frac)%string in
  if negative then ("-" +:+ out)%string else out.

Inductive error : Type :=
| NotDecimal
| Negative
| TooFine
| TooLarge.

#[export] Instance error_eq_dec : EqDecision error.
Proof. solve_decision. Defined.

(** A run of digits, the number it writes and what follows it. *)
Fixpoint digits (acc : Z) (s : list Ascii.ascii) : Z * nat * list Ascii.ascii :=
  match s with
  | c :: s' =>
      match digit_value c with
      | Some d => let '(n, k, rest) := digits (acc * 10 + d) s' in (n, S k, rest)
      | None => (acc, 0%nat, s)
      end
  | [] => (acc, 0%nat, [])
  end.

(** The plain decimals [digits] and [digits.digits] among the texts
    [big.Rat.SetString] reads, and their values. *)
Definition plainDecimal (s : string) : option Q :=
  let '(whole, k, rest) := digits 0 (list_ascii_of_string s) in
  match k, rest with
  | S _, [] => Some (whole # 1)%Q
  | S _, "."%char :: rest =>
      let '(n, k, rest) := digits whole rest in
      match k, rest with
      | S _, [] => Some (n # 10 ^ Pos.of_nat k)%Q
      | _, _ => None
      end
  | _, _ => None
  end.

Section Rates.
(** [big.Rat.SetString] on every other text: signs, fractions, exponents. *)
Context (otherRat : string → option Q).

Definition SetString (s : string) : option Q :=
  match plainDecimal s with Some q => Some q | None => otherRat s end.

Definition ParseRate (s : string) : res error Z :=
  let trimmed := TrimSpace s in
  if trimmed == ""%string then Ok 0
  else match SetString trimmed with
  | None => Err NotDecimal
  | Some value =>
      if Qnum value <? 0 then Err Negative
      else
        let scaled := Qred (value * inject_Z NanoUnitsPerUnit) in
        if (Qden scaled != 1%positive) then Err TooFine
        else if (Qnum scaled <? - 2 ^ 63) || (2 ^ 63 - 1 <? Qnum scaled) then Err TooLarge
        else Ok (Qnum scaled)
  end.
End Rates.

End pricing.

Example ParseRate_decimal : pricing.ParseRate (λ _, None) " 0.30 " = Ok 300000000.
Proof. reflexivity. Qed.
Example FormatRate_decimal : pricing.FormatRate 300000000 = "0.3"%string.
Proof. reflexivity. Qed.
Example FormatAmount_decimal : pricing.FormatAmount (-1234567) = "-0.001234"%string.
Proof. reflexivity. Qed.

(** * Rates survive their text

    [FormatRate] writes a rate as a plain decimal; [ParseRate] reads it back to
    the same count of nano-units. *)

From Stdlib Require Import QArith Qreduction Ascii String.
Close Scope Q_scope.
Import pricing.
Local Open Scope Z_scope.
Local Open Scope buildmax_scope.

(** ** Digits and their value *)

Definition isDigit (c : ascii) : Prop := is_Some (digit_value c).

Definition valueOf (acc : Z) (l : list ascii) : Z :=
  foldl (λ a c, a * 10 + default 0 (digit_value c)) acc l.

Lemma valueOf_acc l : ∀ acc, valueOf acc l = acc * 10 ^ Z.of_nat (List.length l) + valueOf 0 l.
Proof.
  induction l as [|c l IH]; intros acc; [cbn; lia|]. unfold valueOf in *. cbn [foldl List.length].
  rewrite (IH (acc * 10 + _)), (IH (0 * 10 + _)), Nat2Z.inj_succ, Z.pow_succ_r by lia. ring.
Qed.

Lemma valueOf_app l r acc : valueOf acc (l ++ r) = valueOf (valueOf acc l) r.
Proof. apply foldl_app. Qed.

Lemma digits_app l rest : Forall isDigit l → match rest with [] => True | c :: _ => digit_value c = None end →
  ∀ acc, digits acc (l ++ rest) = (valueOf acc l, List.length l, rest).
Proof.
  intros Hl Hr. induction Hl as [|c l [d Hc] _ IH]; intros acc; cbn.
  - destruct rest as [|c rest]; [done|]. cbn. by rewrite Hr.
  - by rewrite Hc, IH.
Qed.

Lemma pretty_N_char_digit x : (x < 10)%N → digit_value (pretty_N_char x) = Some (Z.of_N x).
Proof.
  intros Hx. assert (x = 0 ∨ x = 1 ∨ x = 2 ∨ x = 3 ∨ x = 4 ∨ x = 5 ∨ x = 6 ∨ x = 7 ∨ x = 8 ∨ x = 9)%N as Hc by lia.
  by repeat destruct Hc as [-> | Hc]; [..|subst].
Qed.

Lemma pretty_N_go_digits x : ∀ s, ∃ ds, list_ascii_of_string (pretty_N_go x s) = ds ++ list_ascii_of_string s
  ∧ Forall isDigit ds ∧ valueOf 0 ds = Z.of_N x ∧ ∀ k : nat, (x < 10 ^ N.of_nat k)%N → (List.length ds ≤ k)%nat.
Proof.
  induction (N.lt_wf_0 x) as [x _ IH]; intros s. destruct (decide (x = 0)%N) as [->|Hx].
  { exists []. rewrite pretty_N_go_0. split_and!; [done..|]. cbn. lia. }
  rewrite pretty_N_go_step by lia.
  destruct (IH (x `div` 10)%N ltac:(apply N.div_lt; lia) (String (pretty_N_char (x `mod` 10)) s))
    as (ds & E & Hd & Hv & Hl).
  assert (x `mod` 10 < 10)%N as Hm by (apply N.mod_lt; lia).
  exists (ds ++ [pretty_N_char (x `mod` 10)]). split_and!.
  - rewrite E, <- app_assoc. done.
  - apply Forall_app. split; [done|]. constructor; [|done]. unfold isDigit. rewrite pretty_N_char_digit by done. eauto.
  - rewrite valueOf_app, Hv. unfold valueOf. cbn. rewrite pretty_N_char_digit by done. cbn.
    rewrite (N.div_mod x 10) at 3 by done. lia.
  - intros k Hk. rewrite length_app. cbn. destruct k as [|k]; [cbn in Hk; lia|].
    enough (List.length ds ≤ k)%nat by lia. apply Hl. apply N.Div0.div_lt_upper_bound.
    rewrite Nat2N.inj_succ, N.pow_succ_r' in Hk. done.
Qed.

Lemma pretty_digits n : 0 ≤ n → let ds := list_ascii_of_string (pretty n) in
  Forall isDigit ds ∧ ds ≠ [] ∧ valueOf 0 ds = n ∧ ∀ k : nat, 0 < Z.of_nat k → n < 10 ^ Z.of_nat k → (List.length ds ≤ k)%nat.
Proof.
  intros Hn. destruct n as [|p|p]; [|clear Hn|done].
  - change (list_ascii_of_string (pretty 0)) with ["0"%char]. cbv zeta.
    split_and!; [|done|done|cbn; lia]. constructor; [by exists 0|constructor].
  - change (pretty (Z.pos p)) with (pretty_N_go (N.pos p) ""). cbv zeta.
    destruct (pretty_N_go_digits (N.pos p) "") as (ds & -> & Hd & Hv & Hl). rewrite app_nil_r. split_and!.
    + done.
    + intros ->. done.
    + done.
    + intros k _ Hk. apply Hl. apply N2Z.inj_lt. rewrite N2Z.inj_pow, nat_N_Z. exact Hk.
Qed.

Lemma list_ascii_append a b : list_ascii_of_string (a +:+ b)%string = list_ascii_of_string a ++ list_ascii_of_string b.
Proof. induction a as [|c a IH]; [done|]. exact (f_equal (cons c) IH). Qed.

Lemma length_list_ascii s : String.length s = List.length (list_ascii_of_string s).
Proof. induction s as [|c s IH]; [done|]. cbn. by rewrite IH. Qed.

(** [pad 9 n] is nine digits. *)
Lemma pad_digits n : 0 ≤ n < 10 ^ 9 → let ds := list_ascii_of_string (pad 9 n) in
  Forall isDigit ds ∧ List.length ds = 9%nat ∧ valueOf 0 ds = n.
Proof.
  intros Hn. destruct (pretty_digits n) as (Hd & _ & Hv & Hl); [lia|]. specialize (Hl 9%nat ltac:(lia) ltac:(lia)).
  unfold pad. cbv zeta. set (z := repeat "0"%char _).
  rewrite list_ascii_append, list_ascii_of_string_of_list_ascii.
  pose proof (length_list_ascii (pretty n)) as El.
  assert (Hz : Forall isDigit z ∧ valueOf 0 z = 0).
  { subst z. clear. induction (9 - _)%nat as [|k [IH1 IH2]]; [done|]. split; [constructor; [by exists 0|done]|done]. }
  split_and!.
  - apply Forall_app. split; [apply Hz|done].
  - rewrite length_app. subst z. rewrite repeat_length, El. lia.
  - rewrite valueOf_app. by rewrite (proj2 Hz).
Qed.

Lemma repeat_snoc {A} (x : A) j : repeat x j ++ [x] = repeat x (S j).
Proof. induction j as [|j IH]; [done|]. exact (f_equal (cons x) IH). Qed.

Lemma trimZeros_spec s : ∃ j,
  list_ascii_of_string s = list_ascii_of_string (trimZeros s) ++ repeat "0"%char j.
Proof.
  unfold trimZeros. rewrite list_ascii_of_string_of_list_ascii. 
  match goal with |- context [?d (List.rev (list_ascii_of_string s))] => set (drop := d) end.
  enough (Hr : ∀ r, ∃ j, List.rev r = List.rev (drop r) ++ repeat "0"%char j).
  { destruct (Hr (List.rev (list_ascii_of_string s))) as [j E]. exists j. by rewrite List.rev_involutive in E. }
  induction r as [|c r [j IH]]; [by exists 0%nat|]. destruct (decide (c = "0"%char)) as [->|Hc].
  - exists (S j). change (drop ("0"%char :: r)) with (drop r). cbn [List.rev]. by rewrite IH, <- app_assoc, repeat_snoc.
  - exists 0%nat. rewrite app_nil_r. f_equal.
    by destruct c as [[] [] [] [] [] [] [] []].
Qed.

Lemma valueOf_zeros j acc : valueOf acc (repeat "0"%char j) = acc * 10 ^ Z.of_nat j.
Proof.
  revert acc. induction j as [|j IH]; intros acc; [cbn; lia|]. unfold valueOf in *. cbn [repeat foldl].
  rewrite IH, Nat2Z.inj_succ, Z.pow_succ_r by lia.
  change (default 0 (digit_value "0")) with 0. ring.
Qed.

(** The fraction of a rate without its trailing zeros. *)
Lemma trimmed_digits n : 0 < n < 10 ^ 9 → let ds := list_ascii_of_string (trimZeros (pad 9 n)) in
  Forall isDigit ds ∧ ds ≠ [] ∧ (List.length ds ≤ 9)%nat ∧ valueOf 0 ds * 10 ^ (9 - Z.of_nat (List.length ds)) = n.
Proof.
  intros Hn. destruct (pad_digits n) as (Hd & Hl & Hv); [lia|]. destruct (trimZeros_spec (pad 9 n)) as [j E].
  cbv zeta. set (ds := list_ascii_of_string (trimZeros (pad 9 n))) in *. rewrite E in Hd, Hl, Hv.
  rewrite valueOf_app, valueOf_zeros in Hv. rewrite length_app, repeat_length in Hl.
  apply Forall_app in Hd as [Hd _]. split_and!; [done| |lia|].
  - intros ->. cbn in Hv. lia.
  - rewrite <- Hv. repeat f_equal. lia.
Qed.

(** ** Decimals *)

Lemma digit_not_blank c l : isDigit c →
  blank_prefix space1 space2 space3 (c :: l) = false
  ∧ blank_prefix space1 (λ b a, space2 a b) (λ c b a, space3 a b c) (c :: l) = false.
Proof.
  intros [d Hd]. assert (48 <= byte c <= 57)%N as Hc.
  { unfold digit_value in Hd. unfold byte. destruct (_ && _) eqn:E; [|done].
    apply andb_prop in E as [?%Z.leb_le ?%Z.leb_le]. lia. }
  assert (Hb : ∀ n, (n < 48 ∨ 57 < n)%N → is_byte n c = false) by (intros n Hn; unfold is_byte; apply N.eqb_neq; lia).
  assert (Hr : ∀ m n : N, (n < 48)%N ∨ (57 < m)%N → Text.between m n c = false).
  { intros m n Hn. unfold Text.between. apply andb_false_iff. destruct Hn; [right|left]; apply N.leb_gt; lia. }
  unfold blank_prefix, space1, space2, space3.
  destruct l as [|b [|a l]]; rewrite !Hb, !Hr by lia; split; cbn [orb andb]; by rewrite ?andb_false_r.
Qed.

(** Text that begins and ends with a digit has nothing to trim. *)
Lemma TrimSpace_digits c l x s :
  isDigit c → isDigit x → list_ascii_of_string s = c :: l → last (c :: l) = Some x → TrimSpace s = s.
Proof.
  intros Hc Hx E Hl. unfold TrimSpace. rewrite E. unfold trim_left. rewrite strip_fixed by by apply digit_not_blank.
  apply last_Some in Hl as [pre Hl]. unfold trim_right. rewrite Hl, reverse_snoc.
  rewrite strip_fixed by by apply digit_not_blank. rewrite <- reverse_snoc, reverse_involutive, <- Hl, <- E.
  apply string_of_list_ascii_of_string.
Qed.

Lemma digits_ends ds : Forall isDigit ds → ds ≠ [] → ∃ c l x, ds = c :: l ∧ last ds = Some x ∧ isDigit c ∧ isDigit x.
Proof.
  intros Hd Hne. destruct ds as [|c l]; [done|]. destruct (last (c :: l)) as [x|] eqn:E; [|by apply last_None in E].
  exists c, l, x. split_and!; [done..| |]; rewrite Forall_forall in Hd; apply Hd; [by left|].
  apply last_Some in E as [l' ->]. apply elem_of_app. right. by left.
Qed.

Lemma Qred_integer n d : 0 < d → Qred ((n * d) # Z.to_pos d) = (n # 1)%Q.
Proof.
  intros Hd. transitivity (Qred (n # 1)).
  - apply Qred_complete. unfold Qeq. cbn. rewrite Z2Pos.id by done. ring.
  - pose proof (Z.ggcd_gcd n 1) as Hg. pose proof (Z.ggcd_correct_divisors n 1) as Hc.
    unfold Qred. cbn [Qnum Qden]. change (Zpos 1) with 1. destruct (Z.ggcd n 1) as [g [a b]]. cbn in *.
    rewrite Z.gcd_1_r in Hg. subst g. destruct Hc as [Ha Hb]. by rewrite Z.mul_1_l in Ha, Hb; subst.
Qed.

(** ** Rates *)

Section Rates.
Context (otherRat : string → option Q).

(** A text whose decimal is [n] nano-units parses to [n]. *)
Lemma ParseRate_decimal_text s n v d :
  TrimSpace s = s → s ≠ ""%string → plainDecimal s = Some (v # Z.to_pos d)%Q → 0 < d →
  v * NanoUnitsPerUnit = n * d → 0 ≤ n < 2 ^ 63 → ParseRate otherRat s = Ok n.
Proof.
  intros Ht Hne Hp Hd Hv Hn. unfold ParseRate. rewrite Ht. rewrite bool_decide_false by done.
  unfold SetString. rewrite Hp.
  assert (0 ≤ v) as Hv0 by (unfold NanoUnitsPerUnit in Hv; nia).
  cbn [Qnum]. destruct (Z.ltb_spec v 0); [lia|].
  assert (Qred ((v # Z.to_pos d) * inject_Z NanoUnitsPerUnit) = (n # 1)%Q) as E.
  { rewrite <- (Qred_integer n d Hd). apply Qred_complete. unfold Qeq, inject_Z. cbn.
    rewrite Pos.mul_1_r. by rewrite Hv. }
  cbv zeta. rewrite E. cbn [Qden Qnum]. rewrite bool_decide_true by done. cbn [negb].
  destruct (Z.ltb_spec n (- 2 ^ 63)), (Z.ltb_spec (2 ^ 63 - 1) n); try lia. done.
Qed.

(** The rate that [FormatRate] writes is the rate that [ParseRate] reads,
    exactly, for every rate that is not negative, whatever the reader does with
    texts that are not plain decimals. *)
Theorem ParseRate_FormatRate n : 0 ≤ n < 2 ^ 63 → ParseRate otherRat (FormatRate n) = Ok n.
Proof.
  intros Hn. unfold FormatRate. destruct (Z.ltb_spec n 0); [lia|]. cbv zeta. change ("" +:+ ?s)%string with s.
  set (w := Z.quot n NanoUnitsPerUnit). set (f := Z.rem n NanoUnitsPerUnit).
  assert (Hw : 0 ≤ w) by (apply Z.quot_pos; unfold NanoUnitsPerUnit; lia).
  assert (Hf : 0 ≤ f < 10 ^ 9) by (apply Z.rem_bound_pos; unfold NanoUnitsPerUnit; lia).
  assert (Hnwf : n = w * 10 ^ 9 + f) by (rewrite Z.mul_comm; apply Z.quot_rem').
  destruct (pretty_digits w Hw) as (Hwd & Hwne & Hwv & _). set (ws := list_ascii_of_string (pretty w)) in *.
  destruct (digits_ends ws Hwd Hwne) as (c & l & x & Ews & Hlast & Hc & Hx).
  case_bool_decide as Hf0.
  - apply (ParseRate_decimal_text _ n w 1); [| | |lia|unfold NanoUnitsPerUnit; lia|done].
    + eapply (TrimSpace_digits c l x); [done..|exact Ews|by rewrite <- Ews].
    + intros E. subst ws. by rewrite E in Hwne.
    + unfold plainDecimal. fold ws. rewrite <- (app_nil_r ws), (digits_app ws []) by done.
      rewrite Hwv. subst ws. rewrite Ews. done.
  - destruct (trimmed_digits f) as (Hfd & Hfne & Hfl & Hfv); [lia|].
    set (ts := list_ascii_of_string (trimZeros (pad 9 f))) in *.
    destruct (digits_ends ts Hfd Hfne) as (c' & l' & x' & Ets & Hlast' & Hc' & Hx').
    set (k := List.length ts) in *.
    assert (El : list_ascii_of_string (pretty w +:+ "." +:+ trimZeros (pad 9 f))%string = ws ++ "."%char :: ts)
      by by rewrite !list_ascii_append.
    apply (ParseRate_decimal_text _ n (valueOf w ts) (10 ^ Z.of_nat k)); [| | |lia| |done].
    + eapply (TrimSpace_digits c (l ++ "."%char :: ts) x'); [done..|by rewrite El, Ews|].
      change (c :: l ++ ?r) with ((c :: l) ++ r). rewrite <- Ews, last_app, last_cons, Hlast'. done.
    + intros E. rewrite E in El. by destruct (app_cons_not_nil ws ts "."%char).
    + unfold plainDecimal. rewrite El, (digits_app ws ("."%char :: ts)) by done. rewrite Hwv.
      destruct ws as [|c0 ws0]; [done|]. cbn [List.length].
      rewrite <- (app_nil_r ts), (digits_app ts []) by done. rewrite app_nil_r. fold k.
      destruct k as [|k'] eqn:Ek; [by destruct ts|]. do 2 f_equal.
      apply Pos2Z.inj. rewrite Z2Pos.id by lia. rewrite Pos2Z.inj_pow. f_equal. lia.
    + rewrite valueOf_acc. fold k. change NanoUnitsPerUnit with (10 ^ 9).
      assert (10 ^ 9 = 10 ^ Z.of_nat k * 10 ^ (9 - Z.of_nat k)) as E by (rewrite <- Z.pow_add_r by lia; f_equal; lia).
      rewrite Hnwf, <- Hfv, E. ring.
Qed.
End Rates.

(** Thirty cents per million tokens. *)
Lemma ParseRate_FormatRate_witness :
  (0 <= 300000000 < 2 ^ 63) ∧ ParseRate (λ _, None) (FormatRate 300000000) = Ok 300000000.
Proof. split; [lia|]. apply (ParseRate_FormatRate (λ _, None) 300000000). lia. Defined.
