(* ===== verification/GatewayCatalog.v ===== *)
(** * GatewayCatalog: the models a deployment offers, and who may be called

    The half of internal/service/llmgateway that decides which upstream a name
    stands for: capability.go, catalog.go, store_catalog.go, resolve.go and the
    classification of errors_class.go.  A catalog is a [Record] of reads over
    the database, with the code's implementations as values of it. *)

From Stdlib Require Import Ascii String.
From S2P Require Import Prelude Text Json TaskCore WorkflowCore LedgerCore Store LedgerStore SessionCore Pricing.
From stdpp Require Import gmap strings.
Import Prelude.
Import db.
Local Open Scope Z_scope.
Local Open Scope buildmax_scope.

Module llmgateway.
Local Open Scope string_scope.
Local Open Scope list_scope.
Local Open Scope Z_scope.

(** ** Capabilities: capability.go *)

Definition Capability : Type := string.

Definition CapabilityTextChat : Capability := "text_chat".
Definition CapabilityToolCalls : Capability := "tool_calls".
Definition CapabilityStreamingText : Capability := "streaming_text".
Definition CapabilityUsageReporting : Capability := "usage_reporting".
Definition CapabilityImageInput : Capability := "image_input".

Definition BaselineCapabilities : list Capability :=
  [CapabilityTextChat; CapabilityToolCalls; CapabilityStreamingText; CapabilityUsageReporting].

(** A [map[Capability]struct{}]. *)
Definition CapabilitySet : Type := gset string.

Definition NewCapabilitySet (capabilities : list Capability) : CapabilitySet :=
  list_to_set (List.filter (λ c, c != "") capabilities).

Definition Has (s : CapabilitySet) (capability : Capability) : bool := bool_decide (capability ∈ s).

Fixpoint missing (s seen : CapabilitySet) (required : list Capability) : list Capability :=
  match required with
  | [] => []
  | capability :: rest =>
      if (capability == "") || bool_decide (capability ∈ seen) then missing s seen rest
      else
        let seen := {[ capability ]} ∪ seen in
        if Has s capability then missing s seen rest else capability :: missing s seen rest
  end.

Definition Missing (s : CapabilitySet) (required : list Capability) : list Capability := missing s ∅ required.

(** [slices.Sort] on strings, which compares bytes. *)
Definition sort_strings : list string → list string :=
  @merge_sort string (λ a b, String.leb a b = true) (λ a b, decide (String.leb a b = true)).

Definition List_ (s : CapabilitySet) : list Capability := sort_strings (elements s).

(** ** Failures *)

(** What the code asks of an error it did not make: [errors.Is] against the
    context's errors and the provider's refusals, [errors.As] a timed-out
    [net.Error], and its text. *)
Record fault : Type := mkFault {
  Fa_Canceled : bool;
  Fa_DeadlineExceeded : bool;
  Fa_NetTimeout : bool;
  Fa_ProviderAuth : bool;
  Fa_ProviderRateLimited : bool;
  Fa_Text : string
}.

Inductive error : Type :=
| ErrCatalogNotConfigured
| ErrCatalogEmpty
| ErrTargetNotFound
| ErrTargetDisabled
| CapabilityError (model : string) (missing : list Capability)
| ErrInvalidCatalog
| ErrFactoryNotConfigured
| ErrLedgerNotConfigured
| ErrMessagesRequired
| DuplicateCallError (llmCallID status : string)
| QuotaError (refusal : corequota.Refusal)
| UpstreamError (class : string) (err : fault)
(** The error a conversation transport answers with. *)
| QuotaRefused (reason : string)
(** An error of a store or a client factory, wrapped or not. *)
| Foreign (err : fault).

Definition ErrorClassTargetNotFound : string := "target_not_found".
Definition ErrorClassTargetDisabled : string := "target_disabled".
Definition ErrorClassCapability : string := "capability_unsupported".
Definition ErrorClassQuotaExceeded : string := "quota_exceeded".
Definition ErrorClassDuplicateCall : string := "duplicate_call".
Definition ErrorClassInvalidRequest : string := "invalid_request".
Definition ErrorClassNotConfigured : string := "not_configured".
Definition ErrorClassCanceled : string := "canceled".
Definition ErrorClassUpstream : string := "upstream_error".
Definition ErrorClassUpstreamTimeout : string := "upstream_timeout".
Definition ErrorClassUpstreamAuth : string := "upstream_auth_failed".
Definition ErrorClassUpstreamRateLimited : string := "upstream_rate_limited".
Definition ErrorClassInternal : string := "internal_error".

(** [callerErr]: whether the caller's context had ended when the call returned. *)
Definition upstreamClass (callerErr : bool) (callErr : fault) : string :=
  let contextEnded := Fa_Canceled callErr || Fa_DeadlineExceeded callErr in
  if callerErr && contextEnded then ErrorClassCanceled
  else if Fa_DeadlineExceeded callErr || Fa_NetTimeout callErr then ErrorClassUpstreamTimeout
  else if Fa_ProviderAuth callErr then ErrorClassUpstreamAuth
  else if Fa_ProviderRateLimited callErr then ErrorClassUpstreamRateLimited
  else ErrorClassUpstream.

Definition ErrorClassFor (err : option error) : string :=
  match err with
  | None => ""
  | Some (UpstreamError class _) => class
  | Some (Foreign f) =>
      if Fa_Canceled f || Fa_DeadlineExceeded f then ErrorClassCanceled else ErrorClassInternal
  | Some ErrTargetNotFound | Some ErrCatalogEmpty => ErrorClassTargetNotFound
  | Some ErrTargetDisabled => ErrorClassTargetDisabled
  | Some (CapabilityError _ _) => ErrorClassCapability
  | Some (QuotaError _) => ErrorClassQuotaExceeded
  | Some (DuplicateCallError _ _) => ErrorClassDuplicateCall
  | Some ErrMessagesRequired => ErrorClassInvalidRequest
  | Some ErrCatalogNotConfigured | Some ErrFactoryNotConfigured | Some ErrLedgerNotConfigured =>
      ErrorClassNotConfigured
  | Some ErrInvalidCatalog | Some (QuotaRefused _) => ErrorClassInternal
  end.

Definition RetryableClass (class : string) : bool :=
  bool_decide (class ∈ [ErrorClassUpstream; ErrorClassUpstreamTimeout; ErrorClassUpstreamRateLimited]).

(** ** Targets: catalog.go *)

Record Target : Type := mkTarget {
  Tgt_ID : string;
  Tgt_Name : string;
  Tgt_ProviderType : string;
  Tgt_Endpoint : string;
  Tgt_CredentialRef : string;
  Tgt_Revision : Z;
  Tgt_UpstreamModel : string;
  Tgt_ContextWindow : Z;
  Tgt_CallTimeout : Z;
  Tgt_MaxTokens : Z;
  Tgt_Reasoning : string;
  Tgt_CacheMode : string;
  Tgt_CacheTTL : string;
  Tgt_Currency : string;
  Tgt_InputPerMTok : Z;
  Tgt_CacheReadPerMTok : Z;
  Tgt_CacheWritePerMTok : Z;
  Tgt_OutputPerMTok : Z;
  Tgt_Vision : bool;
  Tgt_Capabilities : CapabilitySet;
  Tgt_Enabled : bool
}.
#[export] Instance Target_updatable : Updatable Target := λ r,
  mkTarget (Tgt_ID r) (Tgt_Name r) (Tgt_ProviderType r) (Tgt_Endpoint r) (Tgt_CredentialRef r)
    (Tgt_Revision r) (Tgt_UpstreamModel r) (Tgt_ContextWindow r) (Tgt_CallTimeout r) (Tgt_MaxTokens r)
    (Tgt_Reasoning r) (Tgt_CacheMode r) (Tgt_CacheTTL r) (Tgt_Currency r) (Tgt_InputPerMTok r)
    (Tgt_CacheReadPerMTok r) (Tgt_CacheWritePerMTok r) (Tgt_OutputPerMTok r) (Tgt_Vision r)
    (Tgt_Capabilities r) (Tgt_Enabled r).

Definition validateTarget (target : Target) : bool :=
  (Tgt_ID target != "") && (Tgt_ProviderType target != "") && (Tgt_Endpoint target != "")
  && (Tgt_UpstreamModel target != "") && negb (bool_decide (Tgt_Capabilities target = ∅))
  && (0 <=? Tgt_ContextWindow target) && (0 <=? Tgt_CallTimeout target) && (0 <=? Tgt_MaxTokens target).

(** A read of the catalog, and one of a store it rests on. *)
Definition CR (A : Type) : Type := Eff error Store A.

(** What [errors.Is] finds in an error of the database. *)
Class Faults : Type := fault_of : db.error → fault.

Definition stored_ `{Faults} {A} (m : DB A) : CR A := λ s,
  match m s with (Ok a, s') => (Ok a, s') | (Err e, s') => (Err (Foreign (fault_of e)), s') end.

Record Catalog : Type := mkCatalog {
  Cat_Target : string → CR Target;
  Cat_TargetByName : string → CR Target;
  Cat_List : CR (list Target)
}.

Record StaticCatalog : Type := mkStaticCatalog {
  Stat_targets : gmap string Target;
  Stat_byName : gmap string Target;
  Stat_ids : list string;
  Stat_ordered : list Target
}.

Fixpoint addTargets (targets : list Target) (byID byName : gmap string Target) (ids : list string)
    : res error (gmap string Target * gmap string Target * list string) :=
  match targets with
  | [] => Ok (byID, byName, ids)
  | target :: rest =>
      if negb (validateTarget target) then Err ErrInvalidCatalog
      else if bool_decide (is_Some (byID !! Tgt_ID target)) then Err ErrInvalidCatalog
      else if bool_decide (is_Some (byName !! Tgt_Name target)) then Err ErrInvalidCatalog
      else addTargets rest (<[Tgt_ID target := target]> byID) (<[Tgt_Name target := target]> byName)
             (ids ++ [Tgt_ID target])
  end.

Definition NewStaticCatalog (targets : list Target) : res error StaticCatalog :=
  '(byID, byName, ids) ← addTargets targets ∅ ∅ [];
  let ids := sort_strings ids in
  Ok (mkStaticCatalog byID byName ids (omap (λ id, byID !! id) ids)).

Definition found {A} (o : option A) : CR A := or_fail ErrTargetNotFound o.

(** A [*StaticCatalog] as a [Catalog]. *)
Definition static (c : option StaticCatalog) : Catalog :=
  match c with
  | None => mkCatalog (λ _, fail ErrCatalogNotConfigured) (λ _, fail ErrCatalogNotConfigured)
              (fail ErrCatalogNotConfigured)
  | Some c => mkCatalog (λ id, found (Stat_targets c !! id)) (λ name, found (Stat_byName c !! name))
                (mret (Stat_ordered c))
  end.

(** ** The stored catalog: store_catalog.go *)

Definition targetFromModel (m : coregw.Model) : res error Target :=
  let target := {|
    Tgt_ID := coregw.Mod_ID m; Tgt_Name := coregw.Mod_Name m;
    Tgt_ProviderType := coregw.Mod_ProviderType m; Tgt_Endpoint := coregw.Mod_APIURL m;
    Tgt_CredentialRef := coregw.Mod_ID m; Tgt_Revision := coregw.Mod_UpdatedAt m;
    Tgt_UpstreamModel := coregw.Mod_Model m; Tgt_ContextWindow := coregw.Mod_ContextWindow m;
    Tgt_CallTimeout := wrap64 (coregw.Mod_CallTimeout m * second);
    Tgt_MaxTokens := coregw.Mod_MaxTokens m; Tgt_Reasoning := coregw.Mod_Reasoning m;
    Tgt_CacheMode := coregw.Mod_CacheMode m; Tgt_CacheTTL := coregw.Mod_CacheTTL m;
    Tgt_Currency := coregw.Mod_Currency m; Tgt_InputPerMTok := coregw.Mod_InputPerMTok m;
    Tgt_CacheReadPerMTok := coregw.Mod_CacheReadPerMTok m;
    Tgt_CacheWritePerMTok := coregw.Mod_CacheWritePerMTok m;
    Tgt_OutputPerMTok := coregw.Mod_OutputPerMTok m; Tgt_Vision := coregw.Mod_Vision m;
    Tgt_Capabilities := NewCapabilitySet (coregw.Mod_Capabilities m); Tgt_Enabled := coregw.Mod_Enabled m |} in
  if validateTarget target then Ok target else Err ErrInvalidCatalog.

Section StoreCatalog.
Context `{Faults}.

Definition from_row (stored : option coregw.Model) : CR Target :=
  match stored with None => fail ErrTargetNotFound | Some m => lift (targetFromModel m) end.

Definition StoreTarget (id : string) : CR Target :=
  m ← stored_ (modeldb.GetLLMModel id); from_row m.

Definition StoreTargetByName (name : string) : CR Target :=
  m ← stored_ (modeldb.GetLLMModelByName name); from_row m.

Definition StoreList : CR (list Target) :=
  models ← stored_ modeldb.ListLLMModels;
  mret (omap (λ m, match targetFromModel m with Ok t => Some t | Err _ => None end) models).

Definition StoreCatalog : Catalog := mkCatalog StoreTarget StoreTargetByName StoreList.
End StoreCatalog.

(** ** Resolution: resolve.go *)

Record ResolveRequest : Type := mkResolveRequest {
  RR_Name : string;
  RR_Requires : list Capability
}.

Record Resolution : Type := mkResolution {
  Res_Name : string;
  Res_Target : Target
}.

Record AvailableModel : Type := mkAvailableModel {
  AM_Name : string;
  AM_ContextWindow : Z;
  AM_Vision : bool;
  AM_Capabilities : list Capability;
  AM_Default : bool;
  AM_Pricing : pricing.Pricing
}.

Record Resolver : Type := mkResolver {
  Rsv_Catalog : option Catalog;
  Rsv_DefaultModel : string
}.

Definition checkTarget (target : Target) (label : string) (requires : list Capability) : res error unit :=
  if negb (Tgt_Enabled target) then Err ErrTargetDisabled
  else
    match Missing (Tgt_Capabilities target) requires with
    | [] => Ok tt
    | m => Err (CapabilityError label m)
    end.

Definition firstEnabled (targets : list Target) : option Target := List.find Tgt_Enabled targets.

Definition defaultName (r : Resolver) (catalog : Catalog) : CR string :=
  if Rsv_DefaultModel r != "" then mret (Rsv_DefaultModel r)
  else
    targets ← Cat_List catalog;
    or_fail ErrCatalogEmpty (Tgt_Name <$> firstEnabled targets).

(** [r.Catalog], nil-checked. *)
Definition catalog_of (r : option Resolver) : option (Resolver * Catalog) :=
  match r with
  | Some r => match Rsv_Catalog r with Some c => Some (r, c) | None => None end
  | None => None
  end.

Definition Resolve (r : option Resolver) (req : ResolveRequest) : CR Resolution :=
  match catalog_of r with
  | None => fail ErrCatalogNotConfigured
  | Some (r, catalog) =>
      name ← (if RR_Name req == "" then defaultName r catalog else mret (RR_Name req));
      target ← Cat_TargetByName catalog name;
      _ ← lift (checkTarget target name (RR_Requires req));
      mret (mkResolution name target)
  end.

Definition ResolveTargetByID (r : option Resolver) (targetID : string) (requires : list Capability) : CR Target :=
  match catalog_of r with
  | None => fail ErrCatalogNotConfigured
  | Some (r, catalog) =>
      if targetID == "" then fail ErrTargetNotFound
      else
        target ← Cat_Target catalog targetID;
        _ ← lift (checkTarget target targetID requires);
        mret target
  end.

Definition available (defaultName : string) (target : Target) : AvailableModel := {|
  AM_Name := Tgt_Name target;
  AM_ContextWindow := Tgt_ContextWindow target;
  AM_Vision := Tgt_Vision target;
  AM_Capabilities := List_ (Tgt_Capabilities target);
  AM_Default := Tgt_Name target == defaultName;
  AM_Pricing := pricing.mkPricing (Tgt_Currency target) (Tgt_InputPerMTok target)
                  (Tgt_CacheReadPerMTok target) (Tgt_CacheWritePerMTok target) (Tgt_OutputPerMTok target) |}.

Definition Available (r : option Resolver) : CR (list AvailableModel) :=
  match catalog_of r with
  | None => fail ErrCatalogNotConfigured
  | Some (r, catalog) =>
      targets ← Cat_List catalog;
      let defaultName :=
        if Rsv_DefaultModel r == "" then default "" (Tgt_Name <$> firstEnabled targets)
        else Rsv_DefaultModel r in
      mret (map (available defaultName) (List.filter Tgt_Enabled targets))
  end.

End llmgateway.
