(* ===== verification/SessionMeta.v ===== *)
(** * SessionMeta: a session's metadata and what is reported from it

    [Module meta] mirrors meta.go, stats.go and usage.go of
    internal/core/session and the rows of internal/infra/sessionstore/index.go:
    the current selections and running totals of a session, the picker's
    projection of them, the usage report over many sessions and the shape of one
    conversation.  Counters are Go's [int]s with their wrap-around. *)

From S2P Require Import Prelude SessionCore Pricing.
From stdpp Require Import gmap strings sorting.
From Stdlib Require Import String.
Import pricing.
Local Open Scope Z_scope.
Local Open Scope buildmax_scope.

(** Go compares strings byte by byte. *)
Definition string_ltb (a b : string) : bool := String.ltb a b.

Module meta.

(** ** Metadata: meta.go *)

Definition MetaVersion : Z := 1.

Definition KindUser : string := "user".
Definition KindSubagent : string := "subagent".

Record ForkedFrom : Type := mkForkedFrom {
  FF_SessionID : string;
  FF_CheckpointID : string;
  FF_HeadID : string
}.
#[export] Instance ForkedFrom_updatable : Updatable ForkedFrom := λ r,
  mkForkedFrom (FF_SessionID r) (FF_CheckpointID r) (FF_HeadID r).

Record TurnStat : Type := mkTurnStat {
  TS_At : Z;
  TS_PromptTokens : Z;
  TS_CompletionTokens : Z;
  TS_CacheReadTokens : Z;
  TS_CacheWriteTokens : Z;
  TS_Cost : option Cost
}.
#[export] Instance TurnStat_updatable : Updatable TurnStat := λ r,
  mkTurnStat (TS_At r) (TS_PromptTokens r) (TS_CompletionTokens r) (TS_CacheReadTokens r)
    (TS_CacheWriteTokens r) (TS_Cost r).

Record Meta : Type := mkMeta {
  M_Version : Z;
  M_ID : string;
  M_Kind : string;
  M_CreatedAt : Z;
  M_UpdatedAt : Z;
  M_ProjectID : string;
  M_Title : string;
  M_Workspace : string;
  M_Pinned : bool;
  M_PromptDestination : string;
  M_SelectedModel : string;
  M_PromptTokens : Z;
  M_CompletionTokens : Z;
  M_CacheReadTokens : Z;
  M_CacheWriteTokens : Z;
  M_Cost : option Cost;
  M_CostIncomplete : bool;
  M_Turns : list TurnStat;
  M_ParentSessionID : string;
  M_ParentRunID : string;
  M_ParentToolCallID : string;
  M_AgentType : string;
  M_DelegationDepth : Z;
  M_Hidden : bool;
  M_ForkedFrom : option ForkedFrom
}.
#[export] Instance Meta_updatable : Updatable Meta := λ r,
  mkMeta (M_Version r) (M_ID r) (M_Kind r) (M_CreatedAt r) (M_UpdatedAt r) (M_ProjectID r)
    (M_Title r) (M_Workspace r) (M_Pinned r) (M_PromptDestination r) (M_SelectedModel r)
    (M_PromptTokens r) (M_CompletionTokens r) (M_CacheReadTokens r) (M_CacheWriteTokens r)
    (M_Cost r) (M_CostIncomplete r) (M_Turns r) (M_ParentSessionID r) (M_ParentRunID r)
    (M_ParentToolCallID r) (M_AgentType r) (M_DelegationDepth r) (M_Hidden r)
    (M_ForkedFrom r).

Definition Meta0 : Meta :=
  mkMeta 0 "" "" 0 0 "" "" "" false "" "" 0 0 0 0 None false [] "" "" "" "" 0 false None.

Definition NewMeta (id kind : string) (createdAt : Z) : Meta :=
  Meta0 <| M_Version := MetaVersion |> <| M_ID := id |> <| M_Kind := kind |>
        <| M_CreatedAt := createdAt |> <| M_UpdatedAt := createdAt |>
        <| M_Hidden := kind == KindSubagent |>.

Definition Meta_Validate (m : Meta) : res session.error unit :=
  if M_ID m == "" then Err (session.Other "meta: id is required")
  else if (M_Kind m == KindUser) || (M_Kind m == KindSubagent) then Ok tt
  else Err (session.Other "meta: kind must be user or subagent").

Record MetaUpdate : Type := mkMetaUpdate {
  MU_Title : option string;
  MU_Workspace : option string;
  MU_Pinned : option bool;
  MU_SelectedModel : option string;
  MU_AddPromptTokens : Z;
  MU_AddCompletionTokens : Z;
  MU_AddCacheReadTokens : Z;
  MU_AddCacheWriteTokens : Z;
  MU_AddCost : option Cost;
  MU_MarkCostIncomplete : bool
}.
#[export] Instance MetaUpdate_updatable : Updatable MetaUpdate := λ r,
  mkMetaUpdate (MU_Title r) (MU_Workspace r) (MU_Pinned r) (MU_SelectedModel r) (MU_AddPromptTokens r)
    (MU_AddCompletionTokens r) (MU_AddCacheReadTokens r) (MU_AddCacheWriteTokens r)
    (MU_AddCost r) (MU_MarkCostIncomplete r).

Definition MetaUpdate0 : MetaUpdate := mkMetaUpdate None None None None 0 0 0 0 None false.

Definition hasUsage (u : MetaUpdate) : bool :=
  (MU_AddPromptTokens u != 0) || (MU_AddCompletionTokens u != 0)
  || (MU_AddCacheReadTokens u != 0) || (MU_AddCacheWriteTokens u != 0)
  || (match MU_AddCost u with Some _ => true | None => false end).

(** The running cost and whether it still covers everything. *)
Definition addCost (total : option Cost) (incomplete : bool) (c : option Cost) : option Cost * bool :=
  match c with
  | None => (total, incomplete)
  | Some c =>
      match total with
      | None => (Some c, incomplete)
      | Some t =>
          let '(summed, ok) := Add t c in
          if ok : bool then (Some summed, incomplete) else (Some t, true)
      end
  end.

Definition ApplyMetaUpdate (m : Meta) (update : MetaUpdate) (now : Z) : Meta :=
  let m := m <| M_Title := default (M_Title m) (MU_Title update) |>
             <| M_Workspace := default (M_Workspace m) (MU_Workspace update) |>
             <| M_Pinned := default (M_Pinned m) (MU_Pinned update) |>
             <| M_SelectedModel := default (M_SelectedModel m) (MU_SelectedModel update) |> in
  let m := m <| M_PromptTokens := wrap64 (M_PromptTokens m + MU_AddPromptTokens update) |>
             <| M_CompletionTokens := wrap64 (M_CompletionTokens m + MU_AddCompletionTokens update) |>
             <| M_CacheReadTokens := wrap64 (M_CacheReadTokens m + MU_AddCacheReadTokens update) |>
             <| M_CacheWriteTokens := wrap64 (M_CacheWriteTokens m + MU_AddCacheWriteTokens update) |> in
  let m := if MU_MarkCostIncomplete update then m <| M_CostIncomplete := true |> else m in
  let '(total, incomplete) := addCost (M_Cost m) (M_CostIncomplete m) (MU_AddCost update) in
  let m := m <| M_Cost := total |> <| M_CostIncomplete := incomplete |> in
  let m := m <| M_UpdatedAt := now |> in
  if hasUsage update
  then m <| M_Turns := M_Turns m ++
              [mkTurnStat (M_UpdatedAt m) (MU_AddPromptTokens update) (MU_AddCompletionTokens update)
                 (MU_AddCacheReadTokens update) (MU_AddCacheWriteTokens update) (MU_AddCost update)] |>
  else m.

Definition DestinationLocal : string := "local".

(** [Err] is [ErrDestinationMismatch]. *)
Definition CheckDestination (m : Meta) (dest : string) : res session.error unit :=
  if (M_PromptDestination m == "") || (M_PromptDestination m == dest) then Ok tt
  else Err (session.Other "this session belongs to another mode").

(** [Usage] of stats.go. *)
Definition Meta_Usage (m : Meta) : Usage :=
  mkUsage (M_PromptTokens m) (M_CompletionTokens m)
    (wrap64 (M_PromptTokens m + M_CompletionTokens m)) (M_CacheReadTokens m) (M_CacheWriteTokens m).

(** ** The picker's rows: store.go of the core, index.go of the store *)

Record ItemSummary : Type := mkItemSummary {
  Sum_ID : string;
  Sum_ProjectID : string;
  Sum_Kind : string;
  Sum_CreatedAt : Z;
  Sum_UpdatedAt : Z;
  Sum_Title : string;
  Sum_Workspace : string;
  Sum_Pinned : bool;
  Sum_ForkedFrom : option ForkedFrom;
  Sum_PromptTokens : Z;
  Sum_CompletionTokens : Z;
  Sum_CacheReadTokens : Z;
  Sum_CacheWriteTokens : Z;
  Sum_Cost : option Cost;
  Sum_CostIncomplete : bool;
  Sum_Model : string
}.
#[export] Instance ItemSummary_updatable : Updatable ItemSummary := λ r,
  mkItemSummary (Sum_ID r) (Sum_ProjectID r) (Sum_Kind r) (Sum_CreatedAt r) (Sum_UpdatedAt r)
    (Sum_Title r) (Sum_Workspace r) (Sum_Pinned r) (Sum_ForkedFrom r) (Sum_PromptTokens r)
    (Sum_CompletionTokens r) (Sum_CacheReadTokens r) (Sum_CacheWriteTokens r) (Sum_Cost r)
    (Sum_CostIncomplete r) (Sum_Model r).

Definition summarize (m : Meta) : ItemSummary :=
  mkItemSummary (M_ID m) (M_ProjectID m) (M_Kind m) (M_CreatedAt m) (M_UpdatedAt m) (M_Title m)
    (M_Workspace m) (M_Pinned m) (M_ForkedFrom m) (M_PromptTokens m) (M_CompletionTokens m)
    (M_CacheReadTokens m) (M_CacheWriteTokens m) (M_Cost m) (M_CostIncomplete m) (M_SelectedModel m).

(** Replaces the first row of that id, or appends. *)
Fixpoint upsertRow (rows : list ItemSummary) (row : ItemSummary) : list ItemSummary :=
  match rows with
  | [] => [row]
  | r :: rows => if Sum_ID r == Sum_ID row then row :: rows else r :: upsertRow rows row
  end.

Definition removeRow (rows : list ItemSummary) (id : string) : list ItemSummary :=
  List.filter (λ r, Sum_ID r != id) rows.

(** [WriteIndex] sorts the rows by id. *)
Definition by_id (a b : ItemSummary) : Prop := string_ltb (Sum_ID b) (Sum_ID a) = false.

#[export] Instance by_id_dec : RelDecision by_id.
Proof. intros a b. unfold by_id. apply _. Defined.

Definition sortRows (rows : list ItemSummary) : list ItemSummary := merge_sort by_id rows.

(** ** Usage reports: usage.go *)

Inductive UsageGroup : Type := GroupByDay | GroupByWorkspace | GroupByModel.

#[export] Instance UsageGroup_eq_dec : EqDecision UsageGroup.
Proof. solve_decision. Defined.

Definition ParseUsageGroup (s : string) : option UsageGroup :=
  if (s == "") || (s == "day") then Some GroupByDay
  else if s == "workspace" then Some GroupByWorkspace
  else if s == "model" then Some GroupByModel
  else None.

Record UsageBucket : Type := mkUsageBucket {
  UB_Key : string;
  UB_Sessions : Z;
  UB_PromptTokens : Z;
  UB_CompletionTokens : Z;
  UB_CacheReadTokens : Z;
  UB_CacheWriteTokens : Z;
  UB_Cost : option Cost;
  UB_CostIncomplete : bool
}.
#[export] Instance UsageBucket_updatable : Updatable UsageBucket := λ r,
  mkUsageBucket (UB_Key r) (UB_Sessions r) (UB_PromptTokens r) (UB_CompletionTokens r)
    (UB_CacheReadTokens r) (UB_CacheWriteTokens r) (UB_Cost r) (UB_CostIncomplete r).

Definition UsageBucket0 (key : string) : UsageBucket := mkUsageBucket key 0 0 0 0 0 None false.

Record UsageReport : Type := mkUsageReport {
  UR_GroupBy : UsageGroup;
  UR_Since : option Z;
  UR_Buckets : list UsageBucket;
  UR_Total : UsageBucket
}.
#[export] Instance UsageReport_updatable : Updatable UsageReport := λ r,
  mkUsageReport (UR_GroupBy r) (UR_Since r) (UR_Buckets r) (UR_Total r).

Definition addUsage (b : UsageBucket) (r : ItemSummary) : UsageBucket :=
  let b := b <| UB_Sessions := wrap64 (UB_Sessions b + 1) |>
             <| UB_PromptTokens := wrap64 (UB_PromptTokens b + Sum_PromptTokens r) |>
             <| UB_CompletionTokens := wrap64 (UB_CompletionTokens b + Sum_CompletionTokens r) |>
             <| UB_CacheReadTokens := wrap64 (UB_CacheReadTokens b + Sum_CacheReadTokens r) |>
             <| UB_CacheWriteTokens := wrap64 (UB_CacheWriteTokens b + Sum_CacheWriteTokens r) |> in
  let b := if Sum_CostIncomplete r then b <| UB_CostIncomplete := true |> else b in
  match Sum_Cost r with
  | None =>
      if (0 <? Sum_PromptTokens r) || (0 <? Sum_CompletionTokens r)
      then b <| UB_CostIncomplete := true |> else b
  | Some _ =>
      let '(total, incomplete) := addCost (UB_Cost b) (UB_CostIncomplete b) (Sum_Cost r) in
      b <| UB_Cost := total |> <| UB_CostIncomplete := incomplete |>
  end.

Definition costTotal (c : option Cost) : Z := match c with None => 0 | Some c => Cost_Total c end.

(** The comparison [sortBuckets] sorts with. *)
Definition bucketLess (groupBy : UsageGroup) (a b : UsageBucket) : bool :=
  match groupBy with
  | GroupByDay => string_ltb (UB_Key a) (UB_Key b)
  | _ =>
      let ac := costTotal (UB_Cost a) in
      let bc := costTotal (UB_Cost b) in
      let at_ := wrap64 (UB_PromptTokens a + UB_CompletionTokens a) in
      let bt := wrap64 (UB_PromptTokens b + UB_CompletionTokens b) in
      if ac != bc then bc <? ac
      else if at_ != bt then bt <? at_
      else string_ltb (UB_Key a) (UB_Key b)
  end.

Definition bucketLe (groupBy : UsageGroup) (a b : UsageBucket) : Prop := bucketLess groupBy b a = false.

#[export] Instance bucketLe_dec groupBy : RelDecision (bucketLe groupBy).
Proof. intros a b. unfold bucketLe. apply _. Defined.

(** Keys differ, so the order is strict and the sort has one result. *)
Definition sortBuckets (buckets : list UsageBucket) (groupBy : UsageGroup) : list UsageBucket :=
  merge_sort (bucketLe groupBy) buckets.

Section Zone.
(** [CreatedAt.In(loc).Format("2006-01-02")] *)
Context (day : Z → string).

Definition usageKey (r : ItemSummary) (groupBy : UsageGroup) : string :=
  match groupBy with
  | GroupByWorkspace => if Sum_Workspace r == "" then "(none)" else Sum_Workspace r
  | GroupByModel => if Sum_Model r == "" then "(unspecified)" else Sum_Model r
  | GroupByDay => day (Sum_CreatedAt r)
  end.

(** The rows a report skips. *)
Definition skipped (since : option Z) (r : ItemSummary) : bool :=
  (Sum_Kind r == KindSubagent)
  || match since with Some t => Sum_CreatedAt r <? t | None => false end.

Definition usageStep (groupBy : UsageGroup) (since : option Z)
    (acc : gmap string UsageBucket * UsageBucket) (r : ItemSummary) :
    gmap string UsageBucket * UsageBucket :=
  if skipped since r then acc
  else
    let key := usageKey r groupBy in
    let b := default (UsageBucket0 key) (acc.1 !! key) in
    (<[key := addUsage b r]> acc.1, addUsage acc.2 r).

Definition AggregateUsage (rows : list ItemSummary) (groupBy : UsageGroup) (since : option Z) :
    UsageReport :=
  let '(byKey, total) := foldl (usageStep groupBy since) (∅, UsageBucket0 "") rows in
  mkUsageReport groupBy since
    (sortBuckets (map snd (map_to_list byKey)) groupBy) (total <| UB_Key := "total"%string |>).
End Zone.

(** ** The shape of a conversation: stats.go *)

Record ToolStats : Type := mkToolStats {
  TSt_Name : string;
  TSt_Calls : Z;
  TSt_ResultBytes : Z;
  TSt_MaxResultBytes : Z
}.
#[export] Instance ToolStats_updatable : Updatable ToolStats := λ r,
  mkToolStats (TSt_Name r) (TSt_Calls r) (TSt_ResultBytes r) (TSt_MaxResultBytes r).

Record ConversationStats : Type := mkConversationStats {
  CS_UserMessages : Z;
  CS_BackgroundMessages : Z;
  CS_AssistantTurns : Z;
  CS_ToolCalls : Z;
  CS_ToolResults : Z;
  CS_Tools : list ToolStats;
  CS_TextBytes : Z;
  CS_ToolResultBytes : Z;
  CS_CompactedMessages : Z;
  CS_Notes : Z;
  CS_Todos : Z
}.
#[export] Instance ConversationStats_updatable : Updatable ConversationStats := λ r,
  mkConversationStats (CS_UserMessages r) (CS_BackgroundMessages r) (CS_AssistantTurns r) (CS_ToolCalls r)
    (CS_ToolResults r) (CS_Tools r) (CS_TextBytes r) (CS_ToolResultBytes r)
    (CS_CompactedMessages r) (CS_Notes r) (CS_Todos r).

(** The maps of [Stats]: the tool of a call, and the tools seen. *)
Definition StatsMaps : Type := gmap string string * gmap string ToolStats.

Definition tool (byTool : gmap string ToolStats) (name : string) : ToolStats :=
  default (mkToolStats name 0 0 0) (byTool !! name).

Definition countCall (acc : ConversationStats * StatsMaps) (tc : llm.ToolCall) :
    ConversationStats * StatsMaps :=
  let '(out, (byCall, byTool)) := acc in
  let t := tool byTool (llm.TC_Name tc) in
  (out <| CS_ToolCalls := CS_ToolCalls out + 1 |>,
   (<[llm.TC_ID tc := llm.TC_Name tc]> byCall,
    <[llm.TC_Name tc := t <| TSt_Calls := TSt_Calls t + 1 |>]> byTool)).

Definition len (s : string) : Z := Z.of_nat (String.length s).

Definition statsStep (acc : ConversationStats * StatsMaps) (m : llm.Message) :
    ConversationStats * StatsMaps :=
  let '(out, (byCall, byTool)) := acc in
  let n := len (llm.Msg_Content m) in
  if llm.Msg_Role m == "user" then
    let out := if llm.Msg_Source m == ""
               then out <| CS_UserMessages := CS_UserMessages out + 1 |>
               else out <| CS_BackgroundMessages := CS_BackgroundMessages out + 1 |> in
    (out <| CS_TextBytes := CS_TextBytes out + n |>, (byCall, byTool))
  else if llm.Msg_Role m == "assistant" then
    let out := out <| CS_AssistantTurns := CS_AssistantTurns out + 1 |>
                   <| CS_TextBytes := CS_TextBytes out + n |> in
    foldl countCall (out, (byCall, byTool)) (llm.Msg_ToolCalls m)
  else if llm.Msg_Role m == "tool" then
    let name := default ""%string (byCall !! llm.Msg_ToolCallID m) in
    let t := tool byTool name in
    let t := t <| TSt_ResultBytes := TSt_ResultBytes t + n |>
               <| TSt_MaxResultBytes := Z.max (TSt_MaxResultBytes t) n |> in
    (out <| CS_ToolResults := CS_ToolResults out + 1 |>
         <| CS_ToolResultBytes := CS_ToolResultBytes out + n |>,
     (byCall, <[name := t]> byTool))
  else acc.

Definition toolLess (a b : ToolStats) : bool :=
  if TSt_ResultBytes a != TSt_ResultBytes b then TSt_ResultBytes b <? TSt_ResultBytes a
  else if TSt_Calls a != TSt_Calls b then TSt_Calls b <? TSt_Calls a
  else string_ltb (TSt_Name a) (TSt_Name b).

Definition toolLe (a b : ToolStats) : Prop := toolLess b a = false.

#[export] Instance toolLe_dec : RelDecision toolLe.
Proof. intros a b. unfold toolLe. apply _. Defined.

Definition Stats (st : session.State) : ConversationStats :=
  let out := mkConversationStats 0 0 0 0 0 [] 0 0
    (Z.of_nat (Nat.min (session.St_CompactionIdx st) (List.length (session.St_Messages st))))
    (Z.of_nat (List.length (session.St_Notes st))) (Z.of_nat (List.length (session.St_Todos st))) in
  let '(out, (_, byTool)) := foldl statsStep (out, (∅, ∅)) (session.St_Messages st) in
  out <| CS_Tools := merge_sort toolLe (map snd (map_to_list byTool)) |>.

End meta.
