(* ===== verification/SessionJournal.v ===== *)
(** * SessionJournal: the text of a session's journal

    [Module journal] mirrors the wire form of history.go
    (internal/core/session) and the reader of
    internal/infra/sessionstore/journal.go: one JSON record per line, a header
    first, a final line without its newline being a torn write. *)

From S2P Require Import Prelude SessionCore.
From Stdlib Require Import Ascii String.
Import session.

Module journal.

(** ** Records on the wire: history.go *)

Record itemWire : Type := mkitemWire {
  W_Seq : Z;
  W_ID : string;
  W_ParentID : string;
  W_TS : Z;
  W_Type_ : string;
  W_Required : bool;
  W_TurnID : string;
  W_Data : string
}.
#[export] Instance itemWire_updatable : Updatable itemWire := λ r,
  mkitemWire (W_Seq r) (W_ID r) (W_ParentID r) (W_TS r) (W_Type_ r) (W_Required r) (W_TurnID r)
    (W_Data r).

(** encoding/json applied to the record types.  A payload is decoded into the
    type that its kind names; [None] is an error. *)
Class Codec : Type := {
  MarshalHeader : Header → string;
  UnmarshalHeader : string → option Header;
  MarshalWire : itemWire → option string;
  UnmarshalWire : string → option itemWire;
  MarshalPayload : Payload → option string;
  UnmarshalPayload : string → string → option Payload;
}.

(** The zero value of the payload type a kind names. *)
Definition zeroPayload (kind : string) : option Payload :=
  if kind == "turn_started" then Some (TurnStarted "" "" "" 0 "")
  else if kind == "message" then Some (MessageItem (llm.mkMessage "" "" "" [] "" None []))
  else if kind == "tool_execution_started" then Some (ToolExecutionStarted "" "")
  else if kind == "tool_result" then Some (ToolResult "" "" "" [])
  else if kind == "compaction" then Some (Compaction "" "")
  else if kind == "notes_replaced" then Some (NotesReplaced [])
  else if kind == "todos_replaced" then Some (TodosReplaced [])
  else if kind == "additional_prompt_set" then Some (AdditionalPromptSet "")
  else if kind == "head_selected" then Some (HeadSelected "")
  else if kind == "turn_finished" then Some (TurnFinished "" "")
  else if kind == "turn_recovered" then Some (TurnRecovered "" [])
  else None.

Section Codec.
Context `{Codec}.

Definition decodePayload (kind data : string) : res error Payload :=
  if kind == "" then Err ErrHistoryCorrupt
  else match zeroPayload kind with
  | None => Ok (UnknownPayload kind data)
  | Some zero =>
      if data == "" then Ok zero
      else match UnmarshalPayload kind data with
      | None => Err ErrHistoryCorrupt
      | Some p => Ok p
      end
  end.

Definition MarshalJSON (it : Item) : option string :=
  data ← match It_Payload it with
         | Some (UnknownPayload _ raw) => Some raw
         | Some p => MarshalPayload p
         | None => Some ""%string
         end;
  MarshalWire (mkitemWire (It_Seq it) (It_ID it) (It_ParentID it) (It_TS it) (Item_Type it)
                 (It_Required it) (It_TurnID it) data).

Definition UnmarshalJSON (b : string) : res error Item :=
  match UnmarshalWire b with
  | None => Err (Other "json")
  | Some w =>
      payload ← decodePayload (W_Type_ w) (W_Data w);
      Ok (mkItem (W_Seq w) (W_ID w) (W_ParentID w) (W_TS w) (W_Required w) (W_TurnID w) (Some payload))
  end.

(** ** Writing lines: journal.go *)

Definition newline : ascii := "010"%char.

Definition terminated (line : string) : string := (line +:+ String newline "")%string.

(** What [Append] hands to [writeLines], all lines in one buffer. *)
Fixpoint encodeItems (items : list Item) : res error string :=
  match items with
  | [] => Ok ""%string
  | it :: items =>
      match MarshalJSON it with
      | None => Err (Other "encode item")
      | Some line => rest ← encodeItems items; Ok (terminated line +:+ rest)%string
      end
  end.

(** ** Reading them back: journal.go *)

Record Contents : Type := mkContents {
  C_Header : Header;
  C_Items : list Item;
  C_Truncated : nat
}.
#[export] Instance Contents_updatable : Updatable Contents := λ r,
  mkContents (C_Header r) (C_Items r) (C_Truncated r).

(** The complete lines of a text, without their newlines, and the rest. *)
Fixpoint splitLines (s : string) : list string * string :=
  match s with
  | EmptyString => ([], ""%string)
  | String c s =>
      let '(lines, tail) := splitLines s in
      if c == newline then (""%string :: lines, tail)
      else match lines with
      | [] => ([], String c tail)
      | line :: lines => (String c line :: lines, tail)
      end
  end.

(** The bytes the complete lines take. *)
Definition offset (lines : list string) : nat :=
  foldr (λ line n, String.length line + 1 + n) 0 lines.

(** An error and, for [stopAt], the prefix that was still valid. *)
Definition stop : Type := error * option Contents.

(** The loop of [readJournal] after the header. *)
Fixpoint readItems (h : Header) (v : Validator) (items : list Item) (lines : list string) :
    res stop (Validator * list Item) :=
  match lines with
  | [] => Ok (v, items)
  | line :: lines =>
      let stopAt := Some (mkContents h items 0) in
      match UnmarshalJSON line with
      | Err _ => Err (ErrHistoryCorrupt, stopAt)
      | Ok item =>
          match Add v item with
          | Err e => Err (e, stopAt)
          | Ok v => readItems h v (items ++ [item]) lines
          end
      end
  end.

(** [readJournal] on the text of the file; with [repair] a torn tail is cut at
    the offset that [Truncated] reports. *)
Definition readText (repair : bool) (content : string) : res stop Contents :=
  match splitLines content with
  | ([], _) => Err (ErrHistoryCorrupt, None)
  | (first :: lines, tail) =>
      match UnmarshalHeader first with
      | None => Err (ErrHistoryCorrupt, None)
      | Some h =>
          match Header_Validate h with
          | Err e => Err (e, None)
          | Ok _ =>
              read ← readItems h NewValidator [] lines;
              let torn := repair && (tail != ""%string) in
              let out := mkContents h read.2 (if torn then offset (first :: lines) else 0) in
              match Done read.1 with
              | Err e => Err (e, Some out)
              | Ok _ => Ok out
              end
          end
      end
  end.

(** The text [truncateTo] leaves of a file with a torn tail. *)
Definition truncated (content : string) : string :=
  String.substring 0 (offset (splitLines content).1) content.

Definition Salvage (content : string) : res error Contents :=
  match readText false content with
  | Ok contents => Ok contents
  | Err (_, Some contents) => Ok contents
  | Err (e, None) => Err e
  end.
End Codec.

End journal.
