(* ===== verification/SessionStore.v ===== *)
(** * SessionStore: the file backend for sessions

    [Module sessionstore] mirrors internal/infra/sessionstore: store.go,
    journal.go, lock.go, meta.go, index.go and lifecycle.go over a record [Disk]
    of bundles, the index, the clock and the outcomes of the coming writes.  A
    write may reach the disk only in part; a [meta.json] or an index is replaced
    whole or not at all. *)

From Stdlib Require Import Ascii String.
From S2P Require Import Prelude Text SessionCore Pricing SessionMeta SessionJournal.
From stdpp Require Import gmap strings sorting.
Import Prelude.
Import session journal meta.

Module sessionstore.

(** The errors of store.go and meta.go that the core does not name. *)
Definition ErrSessionExists : error := Other "session already exists".
Definition ErrMetaNotFound : error := Other "session metadata not found".

(** ** The disk *)

Inductive MetaFile : Type := Damaged | Valid (m : meta.Meta).

(** A session's directory; [locked] is the state of the lock on writer.lock. *)
Record Bundle : Type := mkBundle {
  B_meta : option MetaFile;
  B_journal : option string;
  B_locked : bool
}.
#[export] Instance Bundle_updatable : Updatable Bundle := λ r,
  mkBundle (B_meta r) (B_journal r) (B_locked r).

Inductive IndexFile : Type := NoIndex | BadIndex | Rows (rows : list meta.ItemSummary).

(** [writes] are the outcomes of the coming writes: [None] succeeds, and
    [Some n] fails after [n] bytes.  When it is empty, writes succeed. *)
Record Disk : Type := mkDisk {
  D_bundles : gmap string Bundle;
  D_index : IndexFile;
  D_now : Z;
  D_fresh : nat;
  D_writes : list (option nat)
}.
#[export] Instance Disk_updatable : Updatable Disk := λ r,
  mkDisk (D_bundles r) (D_index r) (D_now r) (D_fresh r) (D_writes r).

Definition FS (A : Type) : Type := Eff error Disk A.

Definition emptyBundle : Bundle := mkBundle None None false.

Definition allowed (c : ascii) : bool :=
  Text.between 97 122 c || Text.between 65 90 c || Text.between 48 57 c || is_byte 95 c || is_byte 45 c.

Definition sanitizeID (id : string) : string :=
  if id == ""%string then "unknown"%string
  else string_of_list_ascii
         (map (λ r, match r with [c] => if allowed c then c else "_"%char | _ => "_"%char end) (runes id)).

Definition sessionDir (id : string) : string := sanitizeID id.

Definition bundle (dir : string) (d : Disk) : Bundle := default emptyBundle (D_bundles d !! dir).

Definition setBundle (dir : string) (f : Bundle → Bundle) : FS unit := λ d,
  (Ok tt, d <| D_bundles := <[dir := f (bundle dir d)]> (D_bundles d) |>).

Definition nextOutcome : FS (option nat) := λ d,
  match D_writes d with
  | [] => (Ok None, d)
  | o :: ws => (Ok o, d <| D_writes := ws |>)
  end.

Definition append_text (dir text : string) : FS unit := λ d,
  (Ok tt, d <| D_bundles :=
     alter (λ b, b <| B_journal := (λ c, (c +:+ text)%string) <$> B_journal b |>) dir (D_bundles d) |>).

(** [file.Write] on the journal, then [Sync]. *)
Definition Write (dir text : string) : FS unit :=
  o ← nextOutcome;
  match o with
  | None => append_text dir text
  | Some n => _ ← append_text dir (String.substring 0 n text); fail (Other "write")
  end.

(** [util.WriteFileAtomic], and the truncation of a torn tail. *)
Definition WriteFileAtomic (change : FS unit) : FS unit :=
  o ← nextOutcome; match o with None => change | Some _ => fail (Other "write") end.

(** ** The lock: lock.go *)

Definition AcquireWriter (dir : string) : FS unit :=
  d ← get;
  if B_locked (bundle dir d) then fail ErrLocked
  else setBundle dir (λ b, b <| B_locked := true |>).

Definition Release (dir : string) : FS unit := λ d,
  (Ok tt, d <| D_bundles := alter (λ b, b <| B_locked := false |>) dir (D_bundles d) |>).

(** [defer func() { if err != nil { lock.Release() } }()] *)
Definition orRelease {A : Type} (dir : string) (m : FS A) : FS A :=
  catch m (λ e, _ ← Release dir; fail e).

(** [defer lock.Release()] *)
Definition thenRelease {A : Type} (dir : string) (m : FS A) : FS A :=
  a ← orRelease dir m; _ ← Release dir; mret a.

(** ** Metadata: meta.go, store.go *)

Definition ReadMeta (dir : string) : FS meta.Meta :=
  d ← get;
  match B_meta (bundle dir d) with
  | None => fail ErrMetaNotFound
  | Some Damaged => fail (Other "meta.json")
  | Some (Valid m) => _ ← lift (meta.Meta_Validate m); mret m
  end.

Definition WriteMeta (dir : string) (m : meta.Meta) : FS unit :=
  WriteFileAtomic (setBundle dir (λ b, b <| B_meta := Some (Valid m) |>)).

Definition DefaultMeta (id : string) : meta.Meta :=
  meta.Meta0 <| meta.M_Version := meta.MetaVersion |> <| meta.M_ID := id |>
             <| meta.M_Kind := meta.KindUser |>.

(** The fallback of [Open], [Load] and [UpdateMeta]. *)
Definition metaOrDefault (id : string) : FS meta.Meta :=
  catch (ReadMeta (sessionDir id))
    (λ e, if e == ErrMetaNotFound then fail ErrSessionNotFound else mret (DefaultMeta id)).

(** ** The index: index.go *)

Definition ReadIndex : FS (list meta.ItemSummary) :=
  d ← get;
  match D_index d with
  | NoIndex => mret []
  | BadIndex => fail (Other "index.json")
  | Rows rows => mret rows
  end.

Definition WriteIndex (rows : list meta.ItemSummary) : FS unit :=
  WriteFileAtomic (λ d, (Ok tt, d <| D_index := Rows (meta.sortRows rows) |>)).

Definition dir_le (a b : string * Bundle) : Prop := string_ltb b.1 a.1 = false.

#[export] Instance dir_le_dec : RelDecision dir_le.
Proof. intros a b. unfold dir_le. apply _. Defined.

(** [os.ReadDir] lists a directory by name; a damaged [meta.json] is skipped. *)
Definition scanSessionMetas (d : Disk) : list meta.Meta :=
  omap (λ e, match (ReadMeta e.1 d).1 with Ok m => Some m | Err _ => None end)
    (merge_sort dir_le (map_to_list (D_bundles d))).

Definition RebuildIndex : FS (list meta.ItemSummary) :=
  metas ← gets scanSessionMetas;
  let rows := map meta.summarize (List.filter (λ m, negb (meta.M_Hidden m)) metas) in
  _ ← WriteIndex rows; mret rows.

(** [ReadIndex], or the rebuilt index in its place. *)
Definition updateIndex (change : list meta.ItemSummary → list meta.ItemSummary) : FS unit :=
  rows ← catch (rows ← ReadIndex; mret (Some rows)) (λ _, _ ← RebuildIndex; mret None);
  match rows with
  | None => mret tt
  | Some rows => WriteIndex (change rows)
  end.

Definition refreshIndexRow (m : meta.Meta) : FS unit :=
  updateIndex (λ rows, if meta.M_Hidden m then meta.removeRow rows (meta.M_ID m)
                       else meta.upsertRow rows (meta.summarize m)).

Definition upsertIntoIndex (m : meta.Meta) : FS unit :=
  updateIndex (λ rows, meta.upsertRow rows (meta.summarize m)).

Definition removeFromIndex (id : string) : FS unit := updateIndex (λ rows, meta.removeRow rows id).

(** ** Deleting and writing without the lock: lifecycle.go *)

Definition WriteSessionMeta (m : meta.Meta) : FS unit :=
  _ ← WriteMeta (sanitizeID (meta.M_ID m)) m;
  if meta.M_Hidden m then removeFromIndex (meta.M_ID m) else upsertIntoIndex m.

Definition DeleteSession (id : string) : FS unit :=
  if id == ""%string then fail (Other "invalid argument")
  else _ ← (λ d, (Ok tt, d <| D_bundles := delete (sanitizeID id) (D_bundles d) |>));
       removeFromIndex id.

(** ** What a session holds: store.go of the core *)

Inductive LoadMode : Type := LoadMetaOnly | LoadFull.

Record Loaded : Type := mkLoaded {
  L_Meta : meta.Meta;
  L_Head : string;
  L_Items : list Item;
  L_State : State;
  L_Recovery : Recovery
}.
#[export] Instance Loaded_updatable : Updatable Loaded := λ r,
  mkLoaded (L_Meta r) (L_Head r) (L_Items r) (L_State r) (L_Recovery r).

Definition Loaded0 (m : meta.Meta) : Loaded := mkLoaded m "" [] State0 Recovery0.

Section Store.
Context `{Codec} (range : gmap string string → list (string * string)) (NewID : nat → string).

Definition drawID : FS string := λ d,
  (Ok (NewID (D_fresh d)), d <| D_fresh := S (D_fresh d) |>).

(** ** The journal file: journal.go *)

Definition JournalAppend (dir : string) (items : list Item) : FS unit :=
  match items with
  | [] => mret tt
  | _ => text ← lift (encodeItems items); Write dir text
  end.

Definition CreateJournal (dir : string) (header : Header) : FS unit :=
  _ ← lift (Header_Validate header);
  d ← get;
  match B_journal (bundle dir d) with
  | Some _ => fail (Other "file exists")
  | None =>
      _ ← setBundle dir (λ b, b <| B_journal := Some ""%string |>);
      Write dir (terminated (MarshalHeader header))
  end.

(** The complete lines of a torn file are read before it is cut, so a file whose
    lines do not read is left alone. *)
Definition readJournal (dir : string) (repair : bool) : FS Contents :=
  d ← get;
  match B_journal (bundle dir d) with
  | None => fail (Other "no such file")
  | Some content =>
      match readText repair content with
      | Err (e, _) => fail e
      | Ok contents =>
          if C_Truncated contents =? 0 then mret contents
          else
            _ ← WriteFileAtomic (setBundle dir (λ b, b <| B_journal := Some (truncated content) |>));
            mret contents
      end
  end.

Definition OpenAppend (dir : string) : FS Contents := readJournal dir true.

(** ** Opening a session: store.go *)

Definition checkHeaderMatchesDir (c : Contents) (id : string) : res error unit :=
  if (Hdr_SessionID (C_Header c) != ""%string) && (Hdr_SessionID (C_Header c) != id)
  then Err ErrHistoryCorrupt else Ok tt.

Definition deriveLoaded (m : meta.Meta) (items : list Item) : res error Loaded :=
  match items with
  | [] => Ok (Loaded0 m)
  | _ =>
      head ← session.Head items;
      st ← Reduce items head;
      rec_ ← Analyze range items head;
      Ok (mkLoaded m head items st rec_)
  end.

(** The results chained after [parent]. *)
Fixpoint unknownResults (turnID parent : string) (seq ts : Z) (calls : list ToolCallOutcome) :
    FS (list Item) :=
  match calls with
  | [] => mret []
  | u :: calls =>
      id ← drawID;
      let it := NewItem (seq + 1) id parent ts turnID
                  (Some (ToolResult (TO_ToolCallID u) ToolStatusUnknown "" [])) in
      items ← unknownResults turnID id (seq + 1) ts calls;
      mret (it :: items)
  end.

Definition buildRecoveryItems (rec_ : Recovery) (parent : string) (seq ts : Z) : FS (list Item) :=
  id ← drawID;
  let head := NewItem (seq + 1) id parent ts (Rec_TurnID rec_)
                (Some (TurnRecovered (Rec_TurnID rec_) (map TO_ToolCallID (Rec_Uncertain rec_)))) in
  items ← unknownResults (Rec_TurnID rec_) id (seq + 1) ts (Rec_Uncertain rec_);
  mret (head :: items).

Definition lastSeq (items : list Item) : Z :=
  match last items with None => 0%Z | Some it => It_Seq it end.

Definition openBranch (dir : string) (m : meta.Meta) (items : list Item) : FS (Loaded * Z) :=
  loaded ← lift (deriveLoaded m items);
  let rec_ := L_Recovery loaded in
  match Rec_Uncertain rec_ with
  | [] => mret (loaded, lastSeq items)
  | _ =>
      ts ← gets D_now;
      repair ← buildRecoveryItems rec_ (L_Head loaded) (lastSeq items) ts;
      _ ← JournalAppend dir repair;
      let items := items ++ repair in
      loaded ← lift (deriveLoaded m items);
      mret (loaded <| L_Recovery := rec_ |>, lastSeq items)
  end.

(** The writer: its lock and journal are those of [dir]. *)
Record fileWriter : Type := mkfileWriter {
  FW_dir : string;
  FW_loaded : Loaded;
  FW_lastID : string;
  FW_lastSeq : Z
}.
#[export] Instance fileWriter_updatable : Updatable fileWriter := λ r,
  mkfileWriter (FW_dir r) (FW_loaded r) (FW_lastID r) (FW_lastSeq r).

Definition Open (id : string) : FS fileWriter :=
  let dir := sessionDir id in
  _ ← AcquireWriter dir;
  orRelease dir
    (m ← metaOrDefault id;
     contents ← OpenAppend dir;
     _ ← lift (checkHeaderMatchesDir contents id);
     opened ← openBranch dir m (C_Items contents);
     mret (mkfileWriter dir opened.1 (L_Head opened.1) opened.2)).

Definition Create (m : meta.Meta) : FS unit :=
  _ ← lift (meta.Meta_Validate m);
  let dir := sessionDir (meta.M_ID m) in
  d ← get;
  match B_journal (bundle dir d) with
  | Some _ => fail ErrSessionExists
  | None =>
      _ ← WriteMeta dir m;
      _ ← CreateJournal dir (NewHeader (meta.M_ID m) (meta.M_CreatedAt m));
      if meta.M_Hidden m then mret tt else refreshIndexRow m
  end.

Definition Load (id : string) (mode : LoadMode) : FS Loaded :=
  m ← metaOrDefault id;
  match mode with
  | LoadMetaOnly => mret (Loaded0 m)
  | LoadFull =>
      contents ← readJournal (sessionDir id) false;
      _ ← lift (checkHeaderMatchesDir contents id);
      lift (deriveLoaded m (C_Items contents))
  end.

Definition UpdateMeta (id : string) (update : meta.MetaUpdate) : FS unit :=
  let dir := sessionDir id in
  _ ← AcquireWriter dir;
  thenRelease dir
    (m ← metaOrDefault id;
     now ← gets D_now;
     let updated := meta.ApplyMetaUpdate m update now in
     _ ← WriteMeta dir updated;
     refreshIndexRow updated).

Definition List_ (includeHidden : bool) : FS (list meta.ItemSummary) :=
  if includeHidden then metas ← gets scanSessionMetas; mret (map meta.summarize metas)
  else catch ReadIndex (λ _, RebuildIndex).

(** ** The writer: store.go *)

Definition knows (w : fileWriter) (id : string) : bool :=
  existsb (λ it, It_ID it == id) (L_Items (FW_loaded w)).

(** The checks of [Append]; the result is the last id and number. *)
Fixpoint continues (w : fileWriter) (parent : string) (seq : Z) (items : list Item) :
    res error (string * Z) :=
  match items with
  | [] => Ok (parent, seq)
  | it :: items =>
      let seq := (seq + 1)%Z in
      if It_Seq it != seq then Err (Other "append: seq")
      else if It_ParentID it == parent then continues w (It_ID it) seq items
      else match It_Payload it with
      | Some (HeadSelected _) =>
          if knows w (It_ParentID it) then continues w (It_ID it) seq items
          else Err (Other "append: rewind target")
      | _ => Err (Other "append: parent")
      end
  end.

Definition Append (w : fileWriter) (items : list Item) : FS fileWriter :=
  match items with
  | [] => mret w
  | _ =>
      ends ← lift (continues w (FW_lastID w) (FW_lastSeq w) items);
      _ ← JournalAppend (FW_dir w) items;
      mret (w <| FW_lastID := ends.1 |> <| FW_lastSeq := ends.2 |>
              <| FW_loaded := FW_loaded w <| L_Items := L_Items (FW_loaded w) ++ items |>
                                          <| L_Head := ends.1 |> |>)
  end.

Definition Close (w : fileWriter) : FS unit := Release (FW_dir w).
End Store.

End sessionstore.
