(* ===== verification/SessionContext.v ===== *)
(** * SessionContext: open sessions and their manager

    [Module agentapp] mirrors session_context.go and session_manager.go of
    internal/agentapp: the read model of one open session, which every method
    commits to the journal before it changes, and the manager that creates,
    opens, forks and deletes sessions. *)

From Stdlib Require Import Ascii String.
From S2P Require Import Prelude Text SessionCore Pricing SessionMeta SessionJournal SessionStore.
From stdpp Require Import gmap strings sorting.
Import Prelude.
Import session journal meta sessionstore.

Module agentapp.

(** [writer] is [None] for a session nobody will resume. *)
Record SessionContext : Type := mkSessionContext {
  SC_writer : option fileWriter;
  SC_meta : Meta;
  SC_state : State;
  SC_items : list Item;
  SC_messageIDs : list string;
  SC_closed : bool;
  SC_head : string;
  SC_lastSeq : Z;
  SC_turnID : string;
  SC_selectedModel : string
}.
#[export] Instance SessionContext_updatable : Updatable SessionContext := λ r,
  mkSessionContext (SC_writer r) (SC_meta r) (SC_state r) (SC_items r) (SC_messageIDs r) (SC_closed r)
    (SC_head r) (SC_lastSeq r) (SC_turnID r) (SC_selectedModel r).

(** A method of an open session runs over the disk and the session. *)
Record Live : Type := mkLive {
  Lv_disk : Disk;
  Lv_ctx : SessionContext
}.
#[export] Instance Live_updatable : Updatable Live := λ r,
  mkLive (Lv_disk r) (Lv_ctx r).

Definition Ctx (A : Type) : Type := Eff error Live A.

Definition onDisk {A : Type} (m : FS A) : Ctx A := λ l,
  let '(r, d) := m (Lv_disk l) in (r, l <| Lv_disk := d |>).

Definition modifyCtx (f : SessionContext → SessionContext) : Ctx unit := λ l,
  (Ok tt, l <| Lv_ctx := f (Lv_ctx l) |>).

Definition here : Ctx SessionContext := gets Lv_ctx.

(** ** Building the read model: session_context.go *)

Definition messageIDsOnBranch (items : list Item) (head : string) : list string :=
  match Branch items head with
  | Err _ => []
  | Ok branch => map It_ID (List.filter isMessage branch)
  end.

Definition chosenModel (m : Meta) (defaultModel : string) : string :=
  if M_SelectedModel m != ""%string then M_SelectedModel m else defaultModel.

Definition newReadOnlyContext (loaded : Loaded) (defaultModel : string) : SessionContext :=
  mkSessionContext None (L_Meta loaded) (L_State loaded) (L_Items loaded)
    (messageIDsOnBranch (L_Items loaded) (L_Head loaded)) false (L_Head loaded) 0 ""
    (chosenModel (L_Meta loaded) defaultModel).

Definition newWriterContext (w : fileWriter) (defaultModel : string) : SessionContext :=
  let loaded := FW_loaded w in
  mkSessionContext (Some w) (L_Meta loaded) (L_State loaded) (L_Items loaded)
    (messageIDsOnBranch (L_Items loaded) (L_Head loaded)) false (L_Head loaded)
    (sessionstore.lastSeq (L_Items loaded)) "" (chosenModel (L_Meta loaded) defaultModel).

Definition Persisted (s : SessionContext) : bool :=
  match SC_writer s with Some _ => true | None => false end.

Definition ModelName (s : SessionContext) (fallback : string) : string :=
  if SC_selectedModel s != ""%string then SC_selectedModel s else fallback.

Definition SetModel (name : string) (s : SessionContext) : SessionContext :=
  s <| SC_selectedModel := name |> <| SC_meta := SC_meta s <| M_SelectedModel := name |> |>.

(** ** Metadata changes: they do not touch the journal *)

Definition SetTitle (title : string) (now : Z) (s : SessionContext) : SessionContext :=
  s <| SC_meta := SC_meta s <| M_Title := title |> <| M_UpdatedAt := now |> |>.

Definition SetWorkspace (dir : string) (now : Z) (s : SessionContext) : SessionContext :=
  s <| SC_meta := SC_meta s <| M_Workspace := dir |> <| M_UpdatedAt := now |> |>.

Definition AddUsage (update : MetaUpdate) (now : Z) (s : SessionContext) : SessionContext :=
  s <| SC_meta := ApplyMetaUpdate (SC_meta s) update now |>.

Definition BindDestination (dest : string) (now : Z) (s : SessionContext) : bool * SessionContext :=
  if M_PromptDestination (SC_meta s) != ""%string then (false, s)
  else (true, s <| SC_meta := SC_meta s <| M_PromptDestination := dest |> <| M_UpdatedAt := now |> |>).

Definition Snapshot (s : SessionContext) : Loaded :=
  mkLoaded (SC_meta s) (SC_head s) [] (SC_state s) Recovery0.

Definition Recovery_ (s : SessionContext) : Recovery :=
  match SC_writer s with None => Recovery0 | Some w => L_Recovery (FW_loaded w) end.

Definition AbandonedBy (s : SessionContext) (targetID : string) : res error AbandonedWork :=
  Abandoned (SC_items s) (SC_head s) targetID.

Definition RewindPreview (s : SessionContext) (messageID : string) : res error AbandonedWork :=
  landing ← RewindLanding (SC_items s) (SC_head s) messageID;
  Abandoned (SC_items s) (SC_head s) landing.

Record RewindOutcome : Type := mkRewindOutcome {
  RO_Abandoned : AbandonedWork;
  RO_Prompt : string;
  RO_Attachments : nat
}.
#[export] Instance RewindOutcome_updatable : Updatable RewindOutcome := λ r,
  mkRewindOutcome (RO_Abandoned r) (RO_Prompt r) (RO_Attachments r).

Fixpoint message_at (ids : list string) (msgs : list llm.Message) (itemID : string) :
    option llm.Message :=
  match ids, msgs with
  | id :: ids, m :: msgs => if id == itemID then Some m else message_at ids msgs itemID
  | _, _ => None
  end.

Definition messageAt (s : SessionContext) (itemID : string) : option llm.Message :=
  message_at (SC_messageIDs s) (St_Messages (SC_state s)) itemID.

Section Context_.
Context `{Codec} (range : gmap string string → list (string * string)) (NewID : nat → string).

(** ** Committing *)

Definition drawCtxID : Ctx string := onDisk (drawID NewID).

(** The records of one batch, chained from the head. *)
Fixpoint chainItems (turnID parent : string) (seq : Z) (payloads : list Payload) : Ctx (list Item) :=
  match payloads with
  | [] => mret []
  | p :: payloads =>
      id ← drawCtxID;
      now ← gets (λ l, D_now (Lv_disk l));
      items ← chainItems turnID id (seq + 1) payloads;
      mret (NewItem (seq + 1) id parent now turnID (Some p) :: items)
  end.

(** [s.writer.Append], and what every committing path does after it. *)
Definition appendItems (w : fileWriter) (items : list Item) : Ctx unit :=
  w ← onDisk (sessionstore.Append w items);
  modifyCtx (λ s, s <| SC_writer := Some w |>).

Definition adopt (items : list Item) (head : string) (seq : Z) : Ctx unit :=
  modifyCtx (λ s, s <| SC_items := SC_items s ++ items |> <| SC_head := head |> <| SC_lastSeq := seq |>).

Definition commitAll (payloads : list Payload) : Ctx (list string) :=
  s ← here;
  match payloads, SC_writer s with
  | [], _ | _, None => mret []
  | _, Some w =>
      items ← chainItems (SC_turnID s) (SC_head s) (SC_lastSeq s) payloads;
      _ ← appendItems w items;
      let last_ := default (mkItem 0 "" "" 0 false "" None) (last items) in
      _ ← adopt items (It_ID last_) (It_Seq last_);
      mret (map It_ID items)
  end.

Definition commit (payloads : list Payload) : Ctx unit := _ ← commitAll payloads; mret tt.

Definition commitItem (payload : Payload) : Ctx string :=
  ids ← commitAll [payload];
  match ids with
  | [] => drawCtxID
  | id :: _ => mret id
  end.

Definition commitTo (parent : string) (payload : Payload) : Ctx unit :=
  s ← here;
  match SC_writer s with
  | None => mret tt
  | Some w =>
      id ← drawCtxID;
      now ← gets (λ l, D_now (Lv_disk l));
      let item := NewItem (SC_lastSeq s + 1) id parent now (SC_turnID s) (Some payload) in
      _ ← appendItems w [item];
      adopt [item] id (SC_lastSeq s + 1)
  end.

Definition setState (f : State → State) : Ctx unit :=
  modifyCtx (λ s, s <| SC_state := f (SC_state s) |>).

(** ** The turn's own records *)

Definition SetAdditionalPrompt (text : string) : Ctx unit :=
  s ← here;
  if St_AdditionalPrompt (SC_state s) == text then mret tt
  else
    _ ← commit [AdditionalPromptSet text];
    setState (λ st, st <| St_AdditionalPrompt := text |>).

Definition pushMessage (id : string) (m : llm.Message) : Ctx unit :=
  modifyCtx (λ s, s <| SC_state := SC_state s <| St_Messages := St_Messages (SC_state s) ++ [m] |> |>
                    <| SC_messageIDs := SC_messageIDs s ++ [id] |>).

Definition Append (m : llm.Message) : Ctx unit :=
  id ← commitItem (MessageItem m); pushMessage id m.

Definition ToolExecutionStarted (calls : list agent.ToolCallStart) : Ctx unit :=
  commit (map (λ c, session.ToolExecutionStarted (agent.Start_ID c) (agent.Start_Name c)) calls).

Definition AppendToolResult (out : agent.ToolOutcome) : Ctx unit :=
  id ← commitItem (ToolResult (agent.Out_ID out) (agent.Out_Status out) (agent.Out_Result out)
                     (agent.Out_Parts out));
  pushMessage id (toolMessage (agent.Out_ID out) (agent.Out_Result out) (agent.Out_Parts out)).

Definition AddCompaction (summary : string) (summarizedCount : nat) : Ctx unit :=
  s ← here;
  let idx := Nat.min (St_CompactionIdx (SC_state s) + summarizedCount) (List.length (SC_messageIDs s)) in
  if idx =? 0 then fail (Other "compaction covers no messages")
  else
    _ ← commit [Compaction (default ""%string (SC_messageIDs s !! (idx - 1))) summary];
    setState (λ st, st <| St_CompactionIdx := idx |> <| St_CompactionSummary := summary |>).

Definition SetNotes (notes : list agent.Note) (iter : Z) : Ctx unit :=
  s ← here;
  let stamped := agent.StampNotes (St_Notes (SC_state s)) notes iter in
  _ ← commit [NotesReplaced stamped];
  setState (λ st, st <| St_Notes := stamped |>).

Definition SetTodos (todos : list agent.Todo) (iter : Z) : Ctx unit :=
  s ← here;
  let stamped := agent.StampTodos (St_Todos (SC_state s)) todos iter in
  _ ← commit [TodosReplaced stamped];
  setState (λ st, st <| St_Todos := stamped |>).

Definition BeginTurn (runID model workspace : string) (contextWindow : Z) (inputKind : string) : Ctx unit :=
  _ ← modifyCtx (λ s, s <| SC_turnID := runID |>);
  commit [TurnStarted runID model workspace contextWindow inputKind].

(** The turn ends for this session even when its record could not be written. *)
Definition FinishTurn (status errorClass : string) : Ctx unit :=
  s ← here;
  if SC_turnID s == ""%string then mret tt
  else
    r ← catch (_ ← commit [TurnFinished status errorClass]; mret None) (λ e, mret (Some e));
    _ ← modifyCtx (λ s, s <| SC_turnID := ""%string |>);
    match r with None => mret tt | Some e => fail e end.

(** ** Rewinds and adopted prefixes *)

Definition reduceFromHead : Ctx unit :=
  s ← here;
  state ← lift (Reduce (SC_items s) (SC_head s));
  modifyCtx (λ s, s <| SC_state := state |>
                    <| SC_messageIDs := messageIDsOnBranch (SC_items s) (SC_head s) |>).

Definition Rewind (messageID : string) : Ctx RewindOutcome :=
  s ← here;
  if negb (Persisted s) then fail (Other "rewind: session is not persisted")
  else
    landing ← lift (RewindLanding (SC_items s) (SC_head s) messageID);
    abandoned ← lift (Abandoned (SC_items s) (SC_head s) landing);
    let out := match messageAt s messageID with
               | Some msg => mkRewindOutcome abandoned (llm.Msg_Content msg) (List.length (llm.Images msg))
               | None => mkRewindOutcome abandoned "" 0
               end in
    _ ← commitTo landing (HeadSelected "user_rewind");
    _ ← reduceFromHead;
    mret out.

Definition adoptPrefix (items : list Item) : Ctx unit :=
  s ← here;
  match SC_writer s with
  | None => fail (Other "adopt prefix: session is not persisted")
  | Some w =>
      if negb (List.length (SC_items s) =? 0) then fail (Other "adopt prefix: session already holds records")
      else
        _ ← appendItems w items;
        let last_ := default (mkItem 0 "" "" 0 false "" None) (last items) in
        _ ← adopt items (It_ID last_) (It_Seq last_);
        reduceFromHead
  end.

Definition CloseSession : Ctx unit :=
  _ ← modifyCtx (λ s, s <| SC_closed := true |>);
  s ← here;
  match SC_writer s with
  | None => mret tt
  | Some w => _ ← onDisk (Close w); modifyCtx (λ s, s <| SC_writer := None |>)
  end.

(** ** The manager: session_manager.go *)

(** A method of [s], which is left as the method leaves it. *)
Definition with_session {A : Type} (s : SessionContext) (m : Ctx A) : FS (res error A * SessionContext) :=
  λ d, let '(r, l) := m (mkLive d s) in (Ok (r, Lv_ctx l), Lv_disk l).

Definition newID : FS string := drawID NewID.

Definition OpenSession (id defaultModel : string) : FS SessionContext :=
  w ← Open range NewID id; mret (newWriterContext w defaultModel).

Definition ReadSession (id defaultModel : string) : FS SessionContext :=
  loaded ← Load range id LoadFull; mret (newReadOnlyContext loaded defaultModel).

Definition CreateWithID (projectID id defaultModel : string) : FS SessionContext :=
  now ← gets D_now;
  let m := NewMeta id KindUser now <| M_SelectedModel := defaultModel |> <| M_ProjectID := projectID |> in
  _ ← Create m;
  OpenSession id defaultModel.

Definition CreateSession (projectID defaultModel : string) : FS SessionContext :=
  id ← newID; CreateWithID projectID id defaultModel.

Definition CreateSubagent (projectID defaultModel : string) (lineage : Meta) : FS SessionContext :=
  id ← newID;
  now ← gets D_now;
  let m := NewMeta id KindSubagent now
             <| M_SelectedModel := defaultModel |> <| M_ProjectID := projectID |>
             <| M_ParentSessionID := M_ParentSessionID lineage |>
             <| M_ParentRunID := M_ParentRunID lineage |>
             <| M_ParentToolCallID := M_ParentToolCallID lineage |>
             <| M_AgentType := M_AgentType lineage |>
             <| M_DelegationDepth := M_DelegationDepth lineage |> in
  _ ← Create m;
  OpenSession id defaultModel.

(** What a fork's metadata takes from its parent's. *)
Definition forkMeta (parent : Meta) (id throughItemID defaultModel : string) (now : Z) : Meta :=
  NewMeta id KindUser now
    <| M_SelectedModel := defaultModel |>
    <| M_Title := M_Title parent |> <| M_Workspace := M_Workspace parent |>
    <| M_ProjectID := M_ProjectID parent |> <| M_PromptDestination := M_PromptDestination parent |>
    <| M_ForkedFrom := Some (mkForkedFrom (M_ID parent) "" throughItemID) |>.

Definition Fork (parent : SessionContext) (throughItemID defaultModel : string) : FS SessionContext :=
  if negb (Persisted parent) then fail (Other "fork: the parent session is not open for writing")
  else
    prefix ← lift (ForkPrefix (SC_items parent) throughItemID);
    match prefix with
    | [] => fail (Other "fork: selects no history")
    | _ =>
        id ← newID;
        now ← gets D_now;
        _ ← Create (forkMeta (SC_meta parent) id throughItemID defaultModel now);
        child ← OpenSession id defaultModel;
        adopted ← with_session child (adoptPrefix prefix);
        match adopted.1 with
        | Ok _ => mret adopted.2
        | Err e =>
            _ ← with_session adopted.2 CloseSession;
            _ ← catch (DeleteSession id) (λ _, mret tt);
            fail e
        end
    end.

(** ** Points a picker offers *)

Record HistoryPoint : Type := mkHistoryPoint {
  HP_ItemID : string;
  HP_Role : string;
  HP_Content : string;
  HP_Source : string
}.
#[export] Instance HistoryPoint_updatable : Updatable HistoryPoint := λ r,
  mkHistoryPoint (HP_ItemID r) (HP_Role r) (HP_Content r) (HP_Source r).

Fixpoint points_from (i : nat) (keep : nat → llm.Message → bool) (msgs : list llm.Message)
    (ids : list string) : list HistoryPoint :=
  match msgs, ids with
  | m :: msgs, id :: ids =>
      let rest := points_from (S i) keep msgs ids in
      if keep i m then mkHistoryPoint id (llm.Msg_Role m) (llm.Msg_Content m) (llm.Msg_Source m) :: rest
      else rest
  | _, _ => []
  end.

Definition historyPoints (s : SessionContext) (keep : nat → llm.Message → bool) : list HistoryPoint :=
  points_from 0 keep (St_Messages (SC_state s)) (SC_messageIDs s).

Definition ForkPoints (s : SessionContext) : list HistoryPoint :=
  historyPoints s (λ _ m,
    if (llm.Msg_Role m != "user"%string) && (llm.Msg_Role m != "assistant"%string) then false
    else (llm.Msg_Role m != "assistant"%string) || (List.length (llm.Msg_ToolCalls m) =? 0)).

Definition RewindPoints (s : SessionContext) : list HistoryPoint :=
  historyPoints s (λ i m,
    (0 <? i) && (llm.Msg_Role m == "user"%string) && (llm.Msg_Source m == ""%string)).

(** ** Listing, renaming, deleting *)

Definition TrimQuotes (s q : string) : string :=
  if (2 <=? String.length s) && String.prefix q s
     && (String.substring (String.length s - 1) 1 s == q)
  then String.substring 1 (String.length s - 2) s else s.

(** [llm.TrimTitle]: a double quote is written by its code. *)
Definition TrimTitle (s : string) : string :=
  TrimSpace (foldl TrimQuotes (TrimSpace s) [String "034"%char ""; "'"%string; "`"%string]).

Definition cleanTitle (s : string) : string := util.ClipRunes (TrimTitle s) 100.

Definition Rename (id title : string) : FS unit :=
  UpdateMeta id (MetaUpdate0 <| MU_Title := Some (cleanTitle title) |>).

Definition SetPinned (id : string) (pinned : bool) : FS unit :=
  UpdateMeta id (MetaUpdate0 <| MU_Pinned := Some pinned |>).

Definition SetSessionModel (id modelName : string) : FS unit :=
  UpdateMeta id (MetaUpdate0 <| MU_SelectedModel := Some modelName |>).

(** The rows are deleted in turn; the ids deleted so far survive an error. *)
Fixpoint deleteRows (projectID : string) (rows : list ItemSummary) : FS (list string * option error) :=
  match rows with
  | [] => mret ([], None)
  | row :: rows =>
      if Sum_ProjectID row != projectID then deleteRows projectID rows
      else
        r ← catch (_ ← DeleteSession (Sum_ID row); mret None) (λ e, mret (Some e));
        match r with
        | Some e => mret ([], Some e)
        | None =>
            rest ← deleteRows projectID rows;
            mret (Sum_ID row :: rest.1, rest.2)
        end
  end.

Definition DeleteByProject (projectID : string) : FS (list string * option error) :=
  if projectID == ""%string then mret ([], None)
  else rows ← List_ false; deleteRows projectID rows.

(** ** After a turn *)

Definition persistMeta (s : SessionContext) : FS unit :=
  if Persisted s then WriteSessionMeta (SC_meta s) else mret tt.

Definition firstUserMessage (s : SessionContext) : option llm.Message :=
  List.find (λ m, (llm.Msg_Role m == "user"%string) && (llm.Msg_Source m == ""%string))
    (St_Messages (SC_state s)).

Definition ensureTitleFromFirstUserMessage (now : Z) (s : SessionContext) : SessionContext :=
  if M_Title (SC_meta s) != ""%string then s
  else match firstUserMessage s with
  | None => s
  | Some m => SetTitle (util.ClipRunes (llm.Msg_Content m) 100) now s
  end.

Definition addSessionCost (usage : pricing.Usage) (pricing : pricing.Pricing) (now : Z)
    (s : SessionContext) : SessionContext :=
  let update := MetaUpdate0
    <| MU_AddPromptTokens := pricing.Use_PromptTokens usage |>
    <| MU_AddCompletionTokens := pricing.Use_CompletionTokens usage |>
    <| MU_AddCacheReadTokens := pricing.Use_CacheReadTokens usage |>
    <| MU_AddCacheWriteTokens := pricing.Use_CacheWriteTokens usage |> in
  let update := match pricing.EstimateCost usage pricing with
    | Some cost => update <| MU_AddCost := Some cost |>
    | None =>
        if (pricing.Use_PromptTokens usage != 0%Z) || (pricing.Use_CompletionTokens usage != 0%Z)
        then update <| MU_MarkCostIncomplete := true |> else update
    end in
  AddUsage update now s.

(** [GenerateTitle] asks the model: a title with its usage, or an error. *)
Definition Finalize (GenerateTitle : option (SessionContext → option (string * pricing.Usage)))
    (workspace : string) (stats : MetaUpdate) (pricing : pricing.Pricing) : Ctx string :=
  now ← gets (λ l, D_now (Lv_disk l));
  _ ← modifyCtx (λ s, ensureTitleFromFirstUserMessage now (SetWorkspace workspace now (AddUsage stats now s)));
  s ← here;
  _ ← onDisk (persistMeta s);
  match GenerateTitle with
  | None => mret ""%string
  | Some generate =>
      if M_Title (SC_meta s) != ""%string then mret ""%string
      else match generate s with
      | None => mret ""%string
      | Some (title, usage) =>
          if title == ""%string then mret ""%string
          else
            _ ← modifyCtx (λ s, addSessionCost usage pricing now (SetTitle title now s));
            s ← here;
            _ ← catch (onDisk (persistMeta s)) (λ _, mret tt);
            mret title
      end
  end.
End Context_.

End agentapp.
