(* ===== verification/SessionBranch.v ===== *)
(** * SessionBranch: well-formed journals and their branches

    What [session.Validate] accepts, and why [Branch] on what it accepts is the
    chain of parents from the root: it never fails on a record of the journal,
    and later records do not change it. *)

From S2P Require Import Prelude SessionCore.
From stdpp Require Import gmap strings.
Import session.

(** ** The abstract journal

    Each record names an earlier one as its parent; only the first has none. *)

Notation ids := (map It_ID).

Definition readable (it : Item) : Prop :=
  match It_Payload it with
  | None => False
  | Some (UnknownPayload _ _) => It_Required it = false
  | Some _ => True
  end.

Definition extends (pre : list Item) (it : Item) : Prop :=
  It_ID it ≠ ""%string ∧ It_ID it ∉ ids pre ∧ readable it
  ∧ match pre with
    | [] => It_ParentID it = ""%string
    | _ => It_ParentID it ∈ ids pre
    end.

Inductive journal : list Item → Prop :=
| journal_nil : journal []
| journal_snoc pre it : journal pre → extends pre it → journal (pre ++ [it]).

#[export] Instance readable_dec it : Decision (readable it).
Proof. unfold readable. destruct (It_Payload it) as [[]|]; apply _. Defined.

Lemma journal_app pre l : journal (pre ++ l) → journal pre.
Proof.
  induction l as [|it l IH] using rev_ind; [by rewrite app_nil_r|].
  rewrite app_assoc. intros H. inversion H as [E|pre' it' Hp He E].
  - by destruct (app_cons_not_nil (pre ++ l) [] it).
  - apply app_inj_tail in E as [-> ->]. auto.
Qed.

Lemma journal_snoc_inv pre it : journal (pre ++ [it]) → journal pre ∧ extends pre it.
Proof.
  intros H. inversion H as [E|pre' it' Hp He E].
  - by destruct (app_cons_not_nil pre [] it).
  - apply app_inj_tail in E as [-> ->]. done.
Qed.

Lemma journal_NoDup items : journal items → NoDup (ids items).
Proof.
  induction 1 as [|pre it _ IH (_ & Hn & _)]; [constructor|].
  rewrite map_app. apply NoDup_app. split_and!; [done| |apply NoDup_singleton].
  intros x Hx ->%list_elem_of_singleton. done.
Qed.

Lemma journal_id items it : journal items → it ∈ items → It_ID it ≠ ""%string.
Proof.
  induction 1 as [|pre it' _ IH (Hi & _)]; [by intros ?%not_elem_of_nil|].
  intros [?|<-%list_elem_of_singleton]%elem_of_app; auto.
Qed.

Lemma journal_no_empty items : journal items → ""%string ∉ ids items.
Proof. intros H (it & E & Hi)%list_elem_of_fmap. by apply (journal_id items it H Hi). Qed.

(** ** [Validate] accepts exactly the journals *)

Definition accepted (items : list Item) (v : Validator) : Prop :=
  V_seen v = list_to_set (ids items) ∧ V_count v = length items
  ∧ V_roots v = (if length items =? 0 then 0 else 1).

Lemma seen_iff items v x : accepted items v → x ∈ V_seen v ↔ x ∈ ids items.
Proof. intros (-> & _). apply elem_of_list_to_set. Qed.

Lemma Add_Ok v it v' :
  Add v it = Ok v' ↔
    It_ID it ≠ ""%string ∧ It_ID it ∉ V_seen v ∧ readable it
    ∧ (It_ParentID it = ""%string ∧ V_roots v = 0 ∨ It_ParentID it ≠ ""%string ∧ It_ParentID it ∈ V_seen v)
    ∧ v' = mkValidator ({[It_ID it]} ∪ V_seen v)
             (if It_ParentID it == ""%string then S (V_roots v) else V_roots v) (S (V_count v)).
Proof.
  unfold Add, readable. destruct v as [seen roots count]. cbn.
  case_bool_decide; [naive_solver|]. destruct (It_Payload it) as [p|]; [|naive_solver].
  destruct (decide (It_ID it ∈ seen)); [naive_solver|].
  assert (Hu : (match p with UnknownPayload _ _ => It_Required it | _ => false end) = false
               ↔ match p with UnknownPayload _ _ => It_Required it = false | _ => True end)
    by (destruct p; done).
  match type of Hu with ?b = false ↔ ?R => set (u := b) in *; set (r := R) in * end.
  clearbody u r. destruct u; [naive_solver|].
  case_bool_decide as Hp.
  - destruct roots; cbn; naive_solver.
  - destruct (decide (It_ParentID it ∈ seen)); naive_solver.
Qed.

Lemma accepted_NewValidator : accepted [] NewValidator.
Proof. done. Qed.

Lemma Add_accepted items v it v' :
  journal items → accepted items v → Add v it = Ok v' → extends items it ∧ accepted (items ++ [it]) v'.
Proof.
  intros Hj Hv (Hi & Hn & Hr & Hp & ->)%Add_Ok. rewrite (seen_iff _ _ _ Hv) in Hn.
  rewrite (seen_iff _ _ _ Hv) in Hp. destruct Hv as (Hs & Hc & Hroots).
  unfold accepted, extends. split_and!; try done.
  - destruct items as [|i0 items]; [|cbn in Hroots; rewrite Hroots in Hp; by destruct Hp as [[_ ?]|[_ ?]]].
    destruct Hp as [[? _]|[_ Hp]]; [done|].
    by apply not_elem_of_nil in Hp.
  - rewrite map_app, list_to_set_app_L. cbn. rewrite Hs. set_solver.
  - cbn. rewrite length_app. cbn. lia.
  - cbn. rewrite length_app, Nat.add_comm. cbn. rewrite Hroots in *.
    destruct Hp as [[E ->]|[E Hp]].
    + rewrite bool_decide_true by done. done.
    + rewrite bool_decide_false by done. destruct items; [|done]. by apply not_elem_of_nil in Hp.
Qed.

Lemma Add_extends items v it :
  accepted items v → journal items → extends items it → ∃ v', Add v it = Ok v'.
Proof.
  intros Hv Hj (Hi & Hn & Hr & Hp). eexists. apply Add_Ok. rewrite !(seen_iff _ _ _ Hv).
  split_and!; try done. destruct Hv as (_ & _ & ->). destruct items as [|i0 items]; [by left|].
  right. split; [|done]. intros E. apply (journal_no_empty _ Hj). by rewrite <- E.
Qed.

Lemma AddAll_journal l : ∀ items v v',
  journal items → accepted items v → AddAll v l = Ok v' → journal (items ++ l) ∧ accepted (items ++ l) v'.
Proof.
  induction l as [|it l IH]; intros items v v' Hj Hv; cbn.
  - intros [= <-]. by rewrite app_nil_r.
  - unfold mbind, res_bind. destruct (Add v it) as [v1|] eqn:E; [|done]. intros H.
    destruct (Add_accepted _ _ _ _ Hj Hv E) as [He Ha].
    rewrite cons_middle, app_assoc. by eapply IH; [constructor| |].
Qed.

Lemma journal_AddAll l : ∀ items v,
  accepted items v → journal (items ++ l) → ∃ v', AddAll v l = Ok v'.
Proof.
  induction l as [|it l IH]; intros items v Hv Hj; cbn; [eauto|].
  rewrite cons_middle, app_assoc in Hj.
  destruct (journal_snoc_inv _ _ (journal_app _ _ Hj)) as [Hi He].
  destruct (Add_extends _ _ _ Hv Hi He) as [v1 E]. unfold mbind, res_bind. rewrite E.
  apply (IH (items ++ [it])); [|done]. by eapply Add_accepted.
Qed.

Lemma accepted_Done items v : accepted items v → Done v = Ok tt.
Proof. intros (_ & Hc & Hr). unfold Done. rewrite Hc, Hr. by destruct (length items). Qed.

Lemma Validate_journal items : Validate items = Ok tt ↔ journal items.
Proof.
  unfold Validate, mbind, res_bind. split.
  - destruct (AddAll NewValidator items) as [v|] eqn:E; [|done]. intros _.
    exact (proj1 (AddAll_journal items [] _ _ journal_nil accepted_NewValidator E)).
  - intros Hj. destruct (journal_AddAll items [] _ accepted_NewValidator Hj) as [v E]. rewrite E.
    apply (accepted_Done items). exact (proj2 (AddAll_journal items [] _ _ journal_nil accepted_NewValidator E)).
Qed.

(** ** Branches are the chains of parents *)

Inductive path (items : list Item) : string → list Item → Prop :=
| path_root : path items "" []
| path_item it branch :
    it ∈ items → It_ID it ≠ ""%string → path items (It_ParentID it) branch →
    path items (It_ID it) (branch ++ [it]).

Lemma byID_lookup items : NoDup (ids items) → ∀ id it, byID items !! id = Some it ↔ it ∈ items ∧ It_ID it = id.
Proof.
  induction items as [|x items IH] using rev_ind; intros Hn id it.
  - unfold byID. cbn. rewrite lookup_empty. split; [done|]. by intros [?%not_elem_of_nil _].
  - rewrite map_app in Hn. apply NoDup_app in Hn as (Hn & Hx & _).
    unfold byID. rewrite foldl_app. cbn. fold (byID items).
    rewrite lookup_insert_Some, (IH Hn), elem_of_app, list_elem_of_singleton.
    split; [naive_solver|]. intros [[Hi| ->] <-]; [right|by left].
    split; [|done]. intros E. apply (Hx (It_ID it)); [by apply list_elem_of_fmap_2|].
    cbn. rewrite E. by apply list_elem_of_singleton.
Qed.

Lemma path_mono pre l id branch : path pre id branch → path (pre ++ l) id branch.
Proof. induction 1; [constructor|]. constructor; [|done..]. apply elem_of_app. by left. Qed.

Lemma journal_parent items it :
  journal items → it ∈ items → It_ParentID it = ""%string ∨ It_ParentID it ∈ ids items.
Proof.
  induction 1 as [|pre x Hj IH (_ & _ & _ & Hp)]; [by intros ?%not_elem_of_nil|].
  intros [Hi| ->%list_elem_of_singleton]%elem_of_app; rewrite map_app, elem_of_app; [naive_solver|].
  destruct pre; [by left|]. right. by left.
Qed.

Lemma not_the_parent pre it x :
  journal (pre ++ [it]) → x ∈ pre ++ [it] → It_ParentID x ≠ It_ID it.
Proof.
  intros [Hj He]%journal_snoc_inv. pose proof He as (Hi & Hn & _ & Hp).
  intros [Hx| ->%list_elem_of_singleton]%elem_of_app E.
  - destruct (journal_parent _ _ Hj Hx) as [E'|E']; congruence.
  - destruct pre; congruence.
Qed.

(** The chain of a record of the past stays in the past. *)
Lemma path_snoc pre it id branch :
  journal (pre ++ [it]) → path (pre ++ [it]) id branch →
  path pre id branch ∨ id = It_ID it ∧ ∃ branch', branch = branch' ++ [it] ∧ path pre (It_ParentID it) branch'.
Proof.
  intros Hj. induction 1 as [|x branch Hx Hne Hb IH]; [left; constructor|].
  destruct IH as [IH|[E _]]; [|by destruct (not_the_parent _ _ _ Hj Hx)].
  apply elem_of_app in Hx as [Hx| ->%list_elem_of_singleton]; [left; by constructor|eauto].
Qed.

Lemma path_sublist items id branch : journal items → path items id branch → branch `sublist_of` items.
Proof.
  intros Hj. revert id branch. induction items as [|it items IH] using rev_ind; intros id branch Hp.
  - destruct Hp as [|it ? ?%not_elem_of_nil]; [constructor|done].
  - pose proof (journal_app _ _ Hj) as Hj'.
    destruct (path_snoc _ _ _ _ Hj Hp) as [?|(-> & br & -> & ?)].
    + apply sublist_inserts_r. eauto.
    + apply sublist_app; [eauto|done].
Qed.

Lemma path_elem items id branch it : path items id branch → it ∈ branch → it ∈ items.
Proof.
  induction 1 as [|x branch Hx _ _ IH]; [by intros ?%not_elem_of_nil|].
  intros [?| ->%list_elem_of_singleton]%elem_of_app; auto.
Qed.

Lemma path_total items id : journal items → id ∈ ids items → ∃ branch, path items id branch.
Proof.
  intros Hj. revert id. induction Hj as [|pre it Hj IH He]; intros id; [by intros ?%not_elem_of_nil|].
  rewrite map_app. intros [Hi|Hi]%elem_of_app.
  - destruct (IH _ Hi) as [br Hb]. exists br. by apply path_mono.
  - apply list_elem_of_singleton in Hi as ->. destruct He as (Hi & _ & _ & Hp).
    assert (∃ br, path pre (It_ParentID it) br) as [br Hb].
    { destruct pre; [rewrite Hp; eexists; constructor|auto]. }
    exists (br ++ [it]). constructor; [set_solver|done|by apply path_mono].
Qed.

Lemma walk_path items head : NoDup (ids items) → ∀ id branch, path items id branch → ∀ rest acc,
  length branch ≤ rest → walk rest (byID items) head id acc = Ok (branch ++ acc).
Proof.
  intros Hn id branch. induction 1 as [|it branch Hi Hne Hb IH]; intros rest acc Hr.
  - by destruct rest.
  - rewrite length_app in Hr. cbn in Hr. destruct rest as [|rest]; [lia|]. cbn.
    rewrite bool_decide_false by done. rewrite (proj2 (byID_lookup _ Hn _ it) (conj Hi eq_refl)).
    rewrite IH by lia. by rewrite <- app_assoc.
Qed.

Lemma Branch_path items id branch : journal items → path items id branch → Branch items id = Ok branch.
Proof.
  intros Hj Hp. unfold Branch. case_bool_decide as E.
  - subst id. inversion Hp; [done|]. subst. done.
  - rewrite (walk_path _ _ (journal_NoDup _ Hj) _ _ Hp), app_nil_r; [done|].
    apply sublist_length. by eapply path_sublist.
Qed.

Lemma Branch_missing items id :
  journal items → id ≠ ""%string → id ∉ ids items → Branch items id = Err ErrHeadNotFound.
Proof.
  intros Hj Hne Hi. unfold Branch. rewrite bool_decide_false by done.
  assert (byID items !! id = None) as E.
  { destruct (byID items !! id) as [it|] eqn:E; [|done].
    apply (byID_lookup _ (journal_NoDup _ Hj)) in E as [Hin <-]. exfalso. apply Hi. by apply list_elem_of_fmap_2. }
  destruct (length items); cbn; rewrite bool_decide_false by done; rewrite E; by rewrite bool_decide_true.
Qed.

Lemma Branch_Ok items id branch : journal items → Branch items id = Ok branch ↔ path items id branch.
Proof.
  intros Hj. split; [|by apply Branch_path]. intros Hb.
  destruct (decide (id = ""%string)) as [->|Hne].
  - unfold Branch in Hb. cbn in Hb. injection Hb as <-. constructor.
  - destruct (decide (id ∈ ids items)) as [Hi|Hi].
    + destruct (path_total _ _ Hj Hi) as [br Hp]. rewrite (Branch_path _ _ _ Hj Hp) in Hb. by injection Hb as ->.
    + by rewrite Branch_missing in Hb.
Qed.

Lemma path_inv items id branch it :
  path items id (branch ++ [it]) → id = It_ID it ∧ path items (It_ParentID it) branch.
Proof.
  inversion 1 as [E|x br _ _ Hb E1 E2].
  - by destruct (app_cons_not_nil branch [] it).
  - apply app_inj_tail in E2 as [-> ->]. done.
Qed.

Lemma path_last items id branch : path items id branch → branch ≠ [] → ∃ pre it, branch = pre ++ [it] ∧ It_ID it = id.
Proof. destruct 1; [done|eauto]. Qed.

(** Every record of a branch names the one before it. *)
Lemma path_split items id b1 it b2 :
  path items id (b1 ++ it :: b2) → path items (It_ID it) (b1 ++ [it]).
Proof.
  revert id. induction b2 as [|x b2 IH] using rev_ind; intros id Hp.
  - destruct (path_inv _ _ _ _ Hp) as [-> _]. done.
  - rewrite app_comm_cons, app_assoc in Hp. apply path_inv in Hp as [_ Hp].
    apply (IH _ Hp).
Qed.

(** ** Appending keeps the branches there are *)

Lemma Branch_app pre l id branch :
  journal (pre ++ l) → Branch pre id = Ok branch → Branch (pre ++ l) id = Ok branch.
Proof.
  intros Hj Hb. apply (Branch_Ok _ _ _ (journal_app _ _ Hj)) in Hb. apply (Branch_Ok _ _ _ Hj).
  by apply path_mono.
Qed.

Lemma Branch_snoc pre it branch :
  journal (pre ++ [it]) → Branch pre (It_ParentID it) = Ok branch →
  Branch (pre ++ [it]) (It_ID it) = Ok (branch ++ [it]).
Proof.
  intros Hj Hb. apply (Branch_app _ [it]) in Hb; [|done]. apply (Branch_Ok _ _ _ Hj) in Hb.
  apply (Branch_Ok _ _ _ Hj). apply journal_snoc_inv in Hj as [_ (Hi & _)].
  constructor; [set_solver|done..].
Qed.

Lemma Branch_NoDup items id branch : journal items → Branch items id = Ok branch → NoDup (ids branch).
Proof.
  intros Hj Hb%(Branch_Ok _ _ _ Hj). pose proof (path_sublist _ _ _ Hj Hb) as Hs.
  exact (sublist_NoDup _ _ (journal_NoDup _ Hj) (fmap_sublist It_ID _ _ Hs)).
Qed.

(** * What a branch reduces to

    Replaying a branch is incremental: the state at a record is the state at its
    parent with that record applied.  From it follow what a fork copies, where a
    rewind lands, and what recovery finds on an interrupted branch. *)

Import session.

(** ** Compaction boundaries *)

Definition messagesOf (branch : list Item) : list Item := List.filter isMessage branch.

Lemma boundary_from_app l id branch : ∀ n k,
  boundary_from n id branch = Some k → boundary_from n id (branch ++ l) = Some k.
Proof.
  induction branch as [|it branch IH]; intros n k; cbn; [done|].
  case_bool_decide; [done|]. apply IH.
Qed.

Lemma boundary_message branch : ∀ n i it,
  NoDup (ids branch) → messagesOf branch !! i = Some it →
  boundary_from n (It_ID it) branch = Some (n + S i).
Proof.
  induction branch as [|x branch IH]; intros n i it; cbn; [done|]. intros [Hx Hn]%NoDup_cons.
  destruct (isMessage x) eqn:E.
  - destruct i as [|i]; cbn.
    + intros [= ->]. rewrite bool_decide_true by done. f_equal. lia.
    + intros Hi. rewrite bool_decide_false; [rewrite (IH _ _ _ Hn Hi); f_equal; lia|].
      intros Eq. apply Hx. rewrite Eq. apply list_elem_of_fmap_2.
      apply list_elem_of_In, (filter_In isMessage), list_elem_of_In. by eapply list_elem_of_lookup_2.
  - intros Hi. rewrite bool_decide_false; [by rewrite (IH _ _ _ Hn Hi)|].
    intros Eq. apply Hx. rewrite Eq. apply list_elem_of_fmap_2.
    apply list_elem_of_In, (filter_In isMessage), list_elem_of_In. by eapply list_elem_of_lookup_2.
Qed.

(** ** Replay *)

Lemma applyItem_app l branch acc it r :
  applyItem branch acc it = Ok r → applyItem (branch ++ l) acc it = Ok r.
Proof.
  unfold applyItem. destruct acc as [st answered]. destruct (It_Payload it) as [[]|]; try done.
  unfold mbind, res_bind, compactionBoundary. case_bool_decide; [done|].
  destruct (boundary_from 0 _ branch) eqn:E; [|done]. by rewrite (boundary_from_app l _ _ _ _ E).
Qed.

Lemma replay_branch_app l branch items : ∀ acc r,
  replay branch items acc = Ok r → replay (branch ++ l) items acc = Ok r.
Proof.
  induction items as [|it items IH]; intros acc r; cbn; [done|]. unfold mbind, res_bind.
  destruct (applyItem branch acc it) eqn:E; [|done]. rewrite (applyItem_app l _ _ _ _ E). apply IH.
Qed.

Lemma replay_app branch xs ys acc :
  replay branch (xs ++ ys) acc = (acc ← replay branch xs acc; replay branch ys acc).
Proof.
  revert acc. induction xs as [|x xs IH]; intros acc; cbn; [done|].
  unfold mbind, res_bind in *. destruct (applyItem branch acc x); [apply IH|done].
Qed.

Definition replayed (branch : list Item) (acc : State * gset string) : Prop :=
  replay branch branch (State0, ∅) = Ok acc.

Lemma replayed_snoc branch it acc acc' :
  replayed branch acc → applyItem (branch ++ [it]) acc it = Ok acc' → replayed (branch ++ [it]) acc'.
Proof.
  unfold replayed. intros H Ha. rewrite replay_app, (replay_branch_app [it] _ _ _ _ H).
  cbn. unfold mbind, res_bind. by rewrite Ha.
Qed.

(** The state and the answered calls of the branch that ends at a head. *)
Definition reduced (items : list Item) (head : string) (acc : State * gset string) : Prop :=
  ∃ branch, Branch items head = Ok branch ∧ replayed branch acc.

Lemma Reduce_Ok items head st : Reduce items head = Ok st ↔ ∃ answered, reduced items head (st, answered).
Proof.
  unfold Reduce, reduced, replayed, mbind, res_bind. destruct (Branch items head) as [branch|].
  - destruct (replay branch branch _) as [[st' answered]|] eqn:E; cbn; split.
    + intros [= <-]. exists answered, branch. done.
    + intros (a & b & [= <-] & Er). rewrite E in Er. by injection Er as -> _.
    + done.
    + intros (a & b & [= <-] & Er). by rewrite E in Er.
  - split; [done|]. by intros (? & ? & ? & _).
Qed.

Lemma reduced_Reduce items head st answered : reduced items head (st, answered) → Reduce items head = Ok st.
Proof. rewrite Reduce_Ok. eauto. Qed.

Lemma reduced_empty items : reduced items "" (State0, ∅).
Proof. by exists []. Qed.

Lemma reduced_app pre l head acc : journal (pre ++ l) → reduced pre head acc → reduced (pre ++ l) head acc.
Proof. intros Hj (br & Hb & Hr). exists br. split; [by apply Branch_app|done]. Qed.

Lemma reduced_snoc pre it branch acc acc' :
  journal (pre ++ [it]) → Branch pre (It_ParentID it) = Ok branch → replayed branch acc →
  applyItem (branch ++ [it]) acc it = Ok acc' → reduced (pre ++ [it]) (It_ID it) acc'.
Proof.
  intros Hj Hb Hr Ha. exists (branch ++ [it]). split; [by apply Branch_snoc|by eapply replayed_snoc].
Qed.

(** Each record that projects to a message adds one. *)
Lemma applyItem_messages branch acc it acc' :
  applyItem branch acc it = Ok acc' →
  length (St_Messages acc'.1) = length (St_Messages acc.1) + (if isMessage it then 1 else 0).
Proof.
  unfold applyItem, isMessage. destruct acc as [st answered].
  destruct (It_Payload it) as [[]|]; try (intros [= <-]; cbn; rewrite ?length_app; cbn; lia).
  - case_decide; [done|]. intros [= <-]. cbn. rewrite length_app. done.
  - unfold mbind, res_bind. destruct (compactionBoundary _ _); [|done]. intros [= <-]. cbn. lia.
Qed.

Lemma replay_messages branch items : ∀ acc acc',
  replay branch items acc = Ok acc' →
  length (St_Messages acc'.1) = length (St_Messages acc.1) + length (messagesOf items).
Proof.
  induction items as [|it items IH]; intros acc acc'; cbn; [intros [= <-]; lia|].
  unfold mbind, res_bind. destruct (applyItem branch acc it) as [acc1|] eqn:E; [|done].
  intros H. rewrite (IH _ _ H), (applyItem_messages _ _ _ _ E).
  unfold messagesOf. cbn. destruct (isMessage it); cbn; lia.
Qed.

Lemma replayed_messages branch acc : replayed branch acc → length (St_Messages acc.1) = length (messagesOf branch).
Proof. intros H. by rewrite (replay_messages _ _ _ _ H). Qed.

(** The records that leave the state alone. *)
Definition inert (it : Item) : Prop :=
  match It_Payload it with
  | Some (HeadSelected _) | Some (TurnRecovered _ _) | Some (ToolExecutionStarted _ _) => True
  | _ => False
  end.

Lemma applyItem_inert branch acc it : inert it → applyItem branch acc it = Ok acc.
Proof. unfold inert, applyItem. destruct acc. by destruct (It_Payload it) as [[]|]. Qed.

(** ** Forks *)

(** Records equal but for their number. *)
Definition same (it it' : Item) : Prop := it' = it <| It_Seq := It_Seq it' |>.

Lemma same_seq it n : same it (it <| It_Seq := n |>).
Proof. done. Qed.

Lemma same_fields it it' :
  same it it' → It_ID it' = It_ID it ∧ It_ParentID it' = It_ParentID it ∧ It_Payload it' = It_Payload it
                ∧ It_Required it' = It_Required it.
Proof. intros E. by rewrite E. Qed.

Lemma same_ids items items' : Forall2 same items items' → ids items' = ids items.
Proof.
  induction 1 as [|it it' items items' Hs _ IH]; cbn; [done|].
  destruct (same_fields _ _ Hs) as (-> & _). by rewrite IH.
Qed.

Lemma same_boundary id branch branch' : Forall2 same branch branch' → ∀ n,
  boundary_from n id branch' = boundary_from n id branch.
Proof.
  induction 1 as [|it it' branch branch' Hs _ IH]; intros n; cbn; [done|].
  destruct (same_fields _ _ Hs) as (-> & _ & E & _). unfold isMessage. rewrite E. case_bool_decide; [done|]. apply IH.
Qed.

Lemma same_replay branch branch' items items' : Forall2 same branch branch' → Forall2 same items items' → ∀ acc,
  replay branch' items' acc = replay branch items acc.
Proof.
  intros Hb. induction 1 as [|it it' items items' Hs _ IH]; intros acc; cbn; [done|].
  assert (applyItem branch' acc it' = applyItem branch acc it) as ->.
  { unfold applyItem, compactionBoundary. destruct (same_fields _ _ Hs) as (_ & _ & -> & _). destruct acc.
    destruct (It_Payload it) as [[]|]; try done. by rewrite (same_boundary _ _ _ Hb). }
  unfold mbind, res_bind. destruct (applyItem branch acc it); [apply IH|done].
Qed.

Lemma renumber_same branch : Forall2 same branch (renumber branch).
Proof.
  apply Forall2_same_length_lookup. unfold renumber. split; [by rewrite length_imap|].
  intros i it it' H. rewrite list_lookup_imap, fmap_Some. intros (x & Hx & ->). simplify_eq. done.
Qed.

Lemma renumber_snoc branch it :
  renumber (branch ++ [it]) = renumber branch ++ [it <| It_Seq := Z.of_nat (length branch + 1) |>].
Proof. unfold renumber. rewrite imap_app. cbn. by rewrite Nat.add_0_r. Qed.

Lemma renumber_ids branch : ids (renumber branch) = ids branch.
Proof. apply same_ids, renumber_same. Qed.

Lemma path_renumber items id branch :
  journal items → path items id branch → journal (renumber branch) ∧ path (renumber branch) id (renumber branch).
Proof.
  intros Hj Hp. pose proof (Branch_NoDup _ _ _ Hj (Branch_path _ _ _ Hj Hp)) as Hn. revert Hn.
  induction Hp as [|it branch Hi Hne Hb IH]; intros Hn; [split; constructor|].
  rewrite map_app in Hn. apply NoDup_app in Hn as (Hn & Hx & _). destruct (IH Hn) as [IHj IHp].
  rewrite renumber_snoc. split.
  - constructor; [done|]. unfold extends. cbn. rewrite renumber_ids. split_and!.
    + done.
    + intros ?. apply (Hx (It_ID it)); [done|]. by apply list_elem_of_singleton.
    + clear IHj IHp Hb Hn. induction Hj as [|pre x _ IHj (_ & _ & ? & _)]; [by apply not_elem_of_nil in Hi|].
      apply elem_of_app in Hi as [Hi| ->%list_elem_of_singleton]; auto.
    + destruct (renumber branch) as [|y l] eqn:E.
      * destruct branch as [|z b]; [|done].
        inversion Hb as [E1|y b _ _ _ E1 E2]; [done|]. by destruct (app_cons_not_nil b [] y).
      * assert (branch ≠ []) as Hbne by (intros ->; done).
        destruct (path_last _ _ _ Hb Hbne) as (b & z & -> & <-).
        rewrite map_app. set_solver.
  - change (It_ID it) with (It_ID (it <| It_Seq := Z.of_nat (length branch + 1) |>)) at 1.
    constructor; [set_solver|done|]. by apply path_mono.
Qed.

(** A fork's prefix is a journal of its own, numbered from one, whose branch is
    all of it and which reduces as the parent did. *)
Lemma ForkPrefix_spec items id prefix :
  journal items → ForkPrefix items id = Ok prefix →
  ∃ branch, Branch items id = Ok branch ∧ prefix = renumber branch
    ∧ journal prefix ∧ Branch prefix id = Ok prefix ∧ ids prefix = ids branch
    ∧ ∀ acc, reduced items id acc ↔ reduced prefix id acc.
Proof.
  intros Hj. unfold ForkPrefix, mbind, res_bind. destruct (Branch items id) as [branch|] eqn:E; [|done].
  intros [= <-]. exists branch. pose proof (proj1 (Branch_Ok _ _ _ Hj) E) as Hp.
  destruct (path_renumber _ _ _ Hj Hp) as [Hj' Hp']. pose proof (Branch_path _ _ _ Hj' Hp') as E'.
  split_and!; try done; [apply renumber_ids|]. intros acc. unfold reduced, replayed. rewrite E, E'.
  pose proof (same_replay _ _ _ _ (renumber_same branch) (renumber_same branch) (State0, ∅)) as Hs.
  split; intros (b & [= <-] & Hr); eexists; (split; [done|]); by rewrite Hs in *.
Qed.
