(* ===== verification/SessionRewind.v ===== *)
(** * SessionRewind: where a rewind lands and what recovery reports

    The landing of a rewind is the last kept record of the branch, and what it
    abandons is the span after it.  [Analyze] reports exactly the calls of the
    turn still open that were entered and not answered. *)

From S2P Require Import Prelude SessionCore SessionBranch.
From stdpp Require Import gmap strings.
Import session.

(** ** Rewinds: rewind.go *)

Lemma position_Some branch id i :
  position branch id = Some i →
  ∃ pre it post, branch = pre ++ it :: post ∧ length pre = i ∧ It_ID it = id ∧ Forall (λ x, It_ID x ≠ id) pre.
Proof.
  unfold position. rewrite fmap_Some. intros ([j it] & Hf & ->). cbn.
  apply list_find_Some in Hf as (Hl & Hid & Hb). exists (take j branch), it, (drop (S j) branch).
  split_and!; [by rewrite take_drop_middle| |done|].
  - rewrite length_take. apply lookup_lt_Some in Hl. lia.
  - apply Forall_lookup. intros k x Hk. apply lookup_take_Some in Hk as [Hk Hlt]. by eapply Hb.
Qed.

Lemma landing_Ok before id :
  landing before = Ok id →
  ∃ turns x rest, before = turns ++ x :: rest ∧ It_ID x = id ∧ opensTurn x = false ∧ Forall (λ t, opensTurn t = true) turns.
Proof.
  unfold landing. induction before as [|it before IH]; cbn; [done|]. destruct (opensTurn it) eqn:E; cbn.
  - intros H. destruct (IH H) as (turns & x & rest & -> & ? & ? & ?). exists (it :: turns), x, rest.
    split_and!; [done..|by constructor].
  - intros [= <-]. by exists [], it, before.
Qed.

(** The branch of a rewind: what is kept, ending at the landing, the openings of
    the turn being dropped, and the message with all that follows it. *)
Lemma RewindLanding_Ok items head messageID land :
  journal items → RewindLanding items head messageID = Ok land →
  ∃ kept x turns m post,
    Branch items head = Ok (kept ++ x :: turns ++ m :: post)
    ∧ It_ID x = land ∧ opensTurn x = false ∧ Forall (λ t, opensTurn t = true) turns
    ∧ It_ID m = messageID ∧ Branch items land = Ok (kept ++ [x]).
Proof.
  intros Hj. unfold RewindLanding, mbind, res_bind. destruct (Branch items head) as [branch|] eqn:E; [|done].
  destruct (position branch messageID) as [cut|] eqn:Ep; [|done].
  apply position_Some in Ep as (pre & m & post & -> & <- & Hm & _). rewrite take_app_length.
  intros (turns & x & rest & Hr & Hx & Ho & Ht)%landing_Ok.
  apply (f_equal reverse) in Hr. rewrite reverse_involutive, reverse_app, reverse_cons in Hr. subst pre.
  rewrite <- !app_assoc in E |- *. cbn in E |- *.
  exists (reverse rest), x, (reverse turns), m, post. split_and!; try done.
  - by apply Forall_reverse.
  - apply (Branch_Ok _ _ _ Hj). rewrite <- Hx. eapply path_split. by apply (Branch_Ok _ _ _ Hj).
Qed.

Lemma spanStep_messages span : ∀ sp,
  Sp_messages (foldl spanStep sp span) = Sp_messages sp + length (messagesOf span).
Proof.
  induction span as [|it span IH]; intros sp; cbn; [lia|]. rewrite IH. unfold spanStep, messagesOf, isMessage. cbn.
  unfold isMessage. destruct (It_Payload it) as [[]|]; cbn; try lia.
  by destruct (Sp_entered sp !! _); cbn.
Qed.

Lemma Abandoned_Ok items head target a :
  Abandoned items head target = Ok a →
  ∃ pre x span, Branch items head = Ok (pre ++ x :: span) ∧ It_ID x = target ∧ span ≠ [] ∧ a = abandonedSpan span.
Proof.
  unfold Abandoned, mbind, res_bind. destruct (Branch items head) as [branch|] eqn:E; [|done].
  destruct (position branch target) as [cut|] eqn:Ep; [|done].
  apply position_Some in Ep as (pre & x & post & -> & <- & Hx & _).
  destruct (_ =? _) eqn:Ec; [done|]. apply Nat.eqb_neq in Ec. rewrite length_app in Ec. cbn in Ec.
  intros [= <-]. exists pre, x, post. split_and!; try done.
  - intros ->. cbn in Ec. lia.
  - rewrite cons_middle, app_assoc. rewrite drop_app_length'; [done|]. by rewrite length_app.
Qed.

(** ** Interrupted turns: recovery.go *)

Definition enters (id : string) (it : Item) : Prop :=
  match It_Payload it with Some (ToolExecutionStarted i _) => i = id | _ => False end.
Definition answers (id : string) (it : Item) : Prop :=
  match It_Payload it with Some (ToolResult i _ _ _) => i = id | _ => False end.
Definition requests (id : string) (it : Item) : Prop :=
  match It_Payload it with
  | Some (MessageItem m) => id ∈ map llm.TC_ID (llm.Msg_ToolCalls m)
  | _ => False
  end.
Definition turnEdge (it : Item) : bool :=
  match It_Payload it with
  | Some (TurnStarted _ _ _ _ _) | Some (TurnFinished _ _) => true
  | _ => false
  end.

(** The calls the scan saw since the last edge of a turn. *)
Definition scanned (s : Scan) (work : list Item) : Prop :=
  (∀ id, id ∈ dom (Scan_entered s) ↔ Exists (enters id) work)
  ∧ (∀ id, id ∈ Scan_answered s ↔ Exists (answers id) work)
  ∧ (∀ id, id ∈ map TO_ToolCallID (Scan_requested s) ↔ Exists (requests id) work).

(** The work of the turn that is still open, if one is. *)
Definition openWork (branch : list Item) (turn : option (string * list Item)) : Prop :=
  match turn with
  | Some (runID, work) =>
      ∃ pre it m w c k, branch = pre ++ it :: work ∧ It_Payload it = Some (TurnStarted runID m w c k)
                        ∧ Forall (λ x, turnEdge x = false) work
  | None =>
      Forall (λ x, turnEdge x = false) branch
      ∨ ∃ pre it s e work, branch = pre ++ it :: work ∧ It_Payload it = Some (TurnFinished s e)
                           ∧ Forall (λ x, turnEdge x = false) work
  end.

Lemma scan_branch branch :
  let s := foldl scanStep Scan0 branch in
  ∃ turn, openWork branch turn ∧
    match turn with
    | Some (runID, work) => Scan_open s = true ∧ Scan_turnID s = runID ∧ scanned s work
    | None => Scan_open s = false
    end.
Proof.
  induction branch as [|it branch (turn & Ho & IH)] using rev_ind; cbn.
  { exists None. split; [by left|done]. }
  rewrite foldl_app. cbn. set (s := foldl scanStep Scan0 branch) in *. clearbody s.
  destruct (turnEdge it) eqn:Et.
  - unfold turnEdge in Et. destruct (It_Payload it) as [[]|] eqn:Ep; try done.
    + eexists (Some (_, [])). split; [exists branch, it; do 4 eexists; by split_and!|].
      unfold scanStep. rewrite Ep. cbn. split_and!; [done..|]. split_and!; intros id; cbn; rewrite Exists_nil; set_solver.
    + exists None. split; [right; exists branch, it; do 2 eexists; exists []; by split_and!|].
      unfold scanStep. by rewrite Ep.
  - assert (Hs : Scan_open (scanStep s it) = Scan_open s ∧ Scan_turnID (scanStep s it) = Scan_turnID s)
      by (unfold scanStep, turnEdge in *; by destruct (It_Payload it) as [[]|]).
    destruct turn as [[runID work]|].
    + exists (Some (runID, work ++ [it])). destruct Ho as (pre & x & m & w & c & k & -> & Hx & Hw).
      split; [exists pre, x, m, w, c, k; split_and!; [by rewrite <- app_assoc|done|]|].
      { apply Forall_app. split; [done|]. by constructor. }
      destruct Hs as [-> ->], IH as (? & ? & He & Ha & Hr). split_and!; [done..|].
      split_and!; intros i; rewrite Exists_app, Exists_cons, Exists_nil; [rewrite <- (He i)|rewrite <- (Ha i)|rewrite <- (Hr i)];
        unfold scanStep, enters, answers, requests, turnEdge in *; destruct (It_Payload it) as [[]|]; cbn in *;
        rewrite ?dom_insert, ?map_app, ?map_map; cbn; try set_solver; done.
    + exists None. destruct Hs as [-> _]. split; [|done]. destruct Ho as [Ho|(pre & x & a & e & work & -> & Hx & Hw)].
      * left. apply Forall_app. split; [done|]. by constructor.
      * right. exists pre, x, a, e, (work ++ [it]). split_and!; [by rewrite <- app_assoc|done|].
        apply Forall_app. split; [done|]. by constructor.
Qed.

(** ** The two loops of [Analyze] *)

Notation callIDs := (map TO_ToolCallID).

Lemma classify_ids s calls : ∀ r id,
  (id ∈ callIDs (Rec_Uncertain (foldl (classify s) r calls)) ↔
     id ∈ callIDs (Rec_Uncertain r) ∨ id ∈ callIDs calls ∧ id ∉ Scan_answered s ∧ id ∈ dom (Scan_entered s))
  ∧ (id ∈ callIDs (Rec_NotStarted (foldl (classify s) r calls)) ↔
     id ∈ callIDs (Rec_NotStarted r) ∨ id ∈ callIDs calls ∧ id ∉ Scan_answered s ∧ id ∉ dom (Scan_entered s)).
Proof.
  induction calls as [|c calls IH]; intros r id; cbn; [set_solver|].
  destruct (IH (classify s r c) id) as [-> ->]. unfold classify. rewrite !elem_of_cons.
  case_decide as Ha; [naive_solver|]. rewrite !elem_of_dom.
  destruct (Scan_entered s !! TO_ToolCallID c) as [name|] eqn:E; cbn; rewrite map_app, elem_of_app; cbn.
  - assert (TO_ToolCallID (if name != ""%string then c <| TO_ToolName := name |> else c)
            = TO_ToolCallID c) as -> by by case_match.
    rewrite list_elem_of_singleton. split.
    + split; [|naive_solver]. intros [[?| ->]|?]; [naive_solver| |naive_solver]. right. rewrite E. eauto.
    + split; [naive_solver|]. intros [?|([->|?]&?&Hn)]; [naive_solver| |naive_solver]. rewrite E in Hn. naive_solver.
  - rewrite list_elem_of_singleton. split.
    + split; [naive_solver|]. intros [?|([->|?]&?&Hn)]; [naive_solver| |naive_solver].
      rewrite E in Hn. by destruct Hn.
    + split; [|naive_solver]. intros [[?| ->]|?]; [naive_solver| |naive_solver]. right.
      split_and!; [by left|done|]. rewrite E. by intros [].
Qed.

Lemma classify_turn s calls : ∀ r, Rec_TurnID (foldl (classify s) r calls) = Rec_TurnID r.
Proof.
  induction calls as [|c calls IH]; intros r; cbn; [done|]. rewrite IH. unfold classify.
  case_decide; [done|]. by destruct (Scan_entered s !! _).
Qed.

Lemma containsCall_iff calls id : containsCall calls id = true ↔ id ∈ callIDs calls.
Proof.
  unfold containsCall. rewrite existsb_exists. rewrite list_elem_of_fmap. split.
  - intros (c & Hc & E%bool_decide_eq_true). exists c. split; [done|by apply list_elem_of_In].
  - intros (c & -> & Hc). exists c. split; [by apply list_elem_of_In|by apply bool_decide_true].
Qed.

Lemma classifyEntered_ids s l : ∀ r,
  Rec_TurnID (foldl (classifyEntered s) r l) = Rec_TurnID r
  ∧ Rec_NotStarted (foldl (classifyEntered s) r l) = Rec_NotStarted r
  ∧ ∀ id, id ∈ callIDs (Rec_Uncertain (foldl (classifyEntered s) r l)) ↔
      id ∈ callIDs (Rec_Uncertain r)
      ∨ id ∈ l.*1 ∧ id ∉ Scan_answered s ∧ id ∉ callIDs (Rec_NotStarted r).
Proof.
  induction l as [|[i name] l IH]; intros r; [split_and!; [done..|]; intros id; cbn; set_solver|].
  change (foldl (classifyEntered s) r ((i, name) :: l)) with (foldl (classifyEntered s) (classifyEntered s r (i, name)) l).
  change (((i, name) :: l).*1) with (i :: l.*1).
  destruct (IH (classifyEntered s r (i, name))) as (-> & -> & Hu). unfold classifyEntered in *.
  destruct (bool_decide (i ∈ Scan_answered s)) eqn:Ea; cbn in *.
  { apply bool_decide_eq_true in Ea. split_and!; [done..|]. intros id. rewrite Hu, elem_of_cons.
    split; [naive_solver|]. intros [?|([->|?]&?&?)]; naive_solver. }
  apply bool_decide_eq_false in Ea.
  destruct (containsCall (Rec_Uncertain r) i) eqn:Eu; cbn in *.
  { apply containsCall_iff in Eu. split_and!; [done..|]. intros id. rewrite Hu, elem_of_cons.
    split; [naive_solver|]. intros [?|([->|?]&?&?)]; naive_solver. }
  destruct (containsCall (Rec_NotStarted r) i) eqn:En; cbn in *.
  { apply containsCall_iff in En. split_and!; [done..|]. intros id. rewrite Hu, elem_of_cons.
    split; [naive_solver|]. intros [?|([->|?]&?&?)]; naive_solver. }
  split_and!; [done..|]. intros id. rewrite Hu, map_app, elem_of_app, elem_of_cons. cbn.
  rewrite list_elem_of_singleton.
  assert (i ∉ callIDs (Rec_NotStarted r)) by (rewrite <- containsCall_iff; congruence).
  split; [|naive_solver]. intros [[?| ->]|?]; [naive_solver| |naive_solver]. right. naive_solver.
Qed.

Section Range.
Context (range : gmap string string → list (string * string)).
Context (range_perm : ∀ m, range m ≡ₚ map_to_list m).

Lemma range_dom m id : id ∈ (range m).*1 ↔ id ∈ dom m.
Proof.
  rewrite (range_perm m), list_elem_of_fmap, elem_of_dom. split.
  - intros ([i n] & -> & Hi%elem_of_map_to_list). eauto.
  - intros [n Hn]. exists (id, n). split; [done|by apply elem_of_map_to_list].
Qed.

(** What recovery reports of an open turn, whatever order the map is visited in. *)
Lemma recoveryOf_open s work :
  Scan_open s = true → scanned s work →
  let r := recoveryOf range s in
  Rec_TurnID r = Scan_turnID s
  ∧ (∀ id, id ∈ callIDs (Rec_Uncertain r) ↔ Exists (enters id) work ∧ ¬ Exists (answers id) work)
  ∧ (∀ id, id ∈ callIDs (Rec_NotStarted r) ↔
       Exists (requests id) work ∧ ¬ Exists (answers id) work ∧ ¬ Exists (enters id) work).
Proof.
  intros Ho (He & Ha & Hr) r. subst r. unfold recoveryOf. rewrite Ho. cbn.
  destruct (classifyEntered_ids s (range (Scan_entered s))
              (foldl (classify s) (mkRecovery (Scan_turnID s) [] []) (Scan_requested s))) as (-> & -> & Hu).
  rewrite classify_turn. split_and!; [done| |].
  - intros id. rewrite Hu, range_dom. destruct (classify_ids s (Scan_requested s) (mkRecovery (Scan_turnID s) [] []) id) as [-> ->].
    cbn. rewrite elem_of_nil, <- He, <- Ha. destruct (decide (id ∈ dom (Scan_entered s))); naive_solver.
  - intros id. destruct (classify_ids s (Scan_requested s) (mkRecovery (Scan_turnID s) [] []) id) as [_ ->].
    cbn. rewrite elem_of_nil, <- He, <- Ha, <- Hr. naive_solver.
Qed.

Lemma recoveryOf_closed s : Scan_open s = false → recoveryOf range s = Recovery0.
Proof. intros Ho. unfold recoveryOf. by rewrite Ho. Qed.

(** What recovery finds on a branch. *)
Definition found (branch : list Item) : Recovery := recoveryOf range (foldl scanStep Scan0 branch).

Lemma Analyze_found items head branch :
  Branch items head = Ok branch → Analyze range items head = Ok (found branch).
Proof. intros Hb. unfold Analyze, mbind, res_bind. by rewrite Hb. Qed.

Lemma found_spec branch :
  ∃ turn, openWork branch turn ∧
    match turn with
    | None => found branch = Recovery0
    | Some (runID, work) =>
        Rec_TurnID (found branch) = runID
        ∧ (∀ id, id ∈ callIDs (Rec_Uncertain (found branch)) ↔
             Exists (enters id) work ∧ ¬ Exists (answers id) work)
        ∧ (∀ id, id ∈ callIDs (Rec_NotStarted (found branch)) ↔
             Exists (requests id) work ∧ ¬ Exists (answers id) work ∧ ¬ Exists (enters id) work)
    end.
Proof.
  destruct (scan_branch branch) as (turn & Ho & Hs). exists turn. split; [done|].
  destruct turn as [[runID work]|]; [|by apply recoveryOf_closed].
  destruct Hs as (Hopen & <- & Hs). exact (recoveryOf_open _ _ Hopen Hs).
Qed.
End Range.

(** The last edge of a branch and what follows it are determined. *)
Lemma last_edge p1 (e1 : Item) w1 p2 e2 w2 :
  turnEdge e1 = true → turnEdge e2 = true →
  Forall (λ x, turnEdge x = false) w1 → Forall (λ x, turnEdge x = false) w2 →
  p1 ++ e1 :: w1 = p2 ++ e2 :: w2 → e1 = e2 ∧ w1 = w2.
Proof.
  intros H1 H2 F1 F2 E. revert w2 F2 E. induction w1 as [|x w1 IH] using rev_ind; intros w2 F2 E.
  - revert E F2. induction w2 as [|y w2 _] using rev_ind; intros E F2; [by apply app_inj_tail in E as [_ ->]|].
    rewrite app_comm_cons, app_assoc in E. apply app_inj_tail in E as [_ ->].
    apply Forall_app in F2 as [_ [F2 _]%Forall_cons]. congruence.
  - apply Forall_app in F1 as [F1 [Fx _]%Forall_cons].
    revert E F2. induction w2 as [|y w2 _] using rev_ind; intros E F2.
    + rewrite app_comm_cons, app_assoc in E. apply app_inj_tail in E as [_ ->]. congruence.
    + rewrite !app_comm_cons, !app_assoc in E. apply app_inj_tail in E as [E ->].
      apply Forall_app in F2 as [F2 _]. destruct (IH F1 _ F2 E) as [-> ->]. done.
Qed.

Lemma no_edge p (e : Item) w : Forall (λ x, turnEdge x = false) (p ++ e :: w) → turnEdge e = false.
Proof. by intros [_ [? _]%Forall_cons]%Forall_app. Qed.

Lemma started_edge e r m w c k : It_Payload e = Some (TurnStarted r m w c k) → turnEdge e = true.
Proof. unfold turnEdge. by intros ->. Qed.
Lemma finished_edge e s c : It_Payload e = Some (TurnFinished s c) → turnEdge e = true.
Proof. unfold turnEdge. by intros ->. Qed.

Lemma openWork_unique branch t1 t2 : openWork branch t1 → openWork branch t2 → t1 = t2.
Proof.
  destruct t1 as [[r1 w1]|], t2 as [[r2 w2]|]; cbn; [| | |done].
  - intros (p1 & e1 & ? & ? & ? & ? & -> & E1 & F1) (p2 & e2 & ? & ? & ? & ? & E & E2 & F2).
    destruct (last_edge _ _ _ _ _ _ (started_edge _ _ _ _ _ _ E1) (started_edge _ _ _ _ _ _ E2) F1 F2 E) as [-> ->].
    congruence.
  - intros (p1 & e1 & ? & ? & ? & ? & -> & E1 & F1) [F|(p2 & e2 & ? & ? & w2 & E & E2 & F2)].
    + apply started_edge in E1. apply no_edge in F. congruence.
    + destruct (last_edge _ _ _ _ _ _ (started_edge _ _ _ _ _ _ E1) (finished_edge _ _ _ E2) F1 F2 E) as [-> ->].
      congruence.
  - intros [F|(p2 & e2 & ? & ? & w1 & -> & E2 & F2)] (p1 & e1 & ? & ? & ? & ? & E & E1 & F1).
    + rewrite E in F. apply started_edge in E1. apply no_edge in F. congruence.
    + destruct (last_edge _ _ _ _ _ _ (finished_edge _ _ _ E2) (started_edge _ _ _ _ _ _ E1) F2 F1 E) as [-> ->].
      congruence.
Qed.
