(* ===== verification/JournalText.v ===== *)
(** * JournalText: what a journal's text reads back as

    A file of complete lines and a torn tail splits into those lines and that
    tail, and any prefix of such a file is again one.  Under the laws of the
    codec, the lines written for records of a journal read back as them. *)

From Stdlib Require Import Ascii String.
From S2P Require Import Prelude Text SessionCore SessionBranch SessionJournal.
From stdpp Require Import gmap strings.
Import Prelude.
Import session journal.

Local Arguments String.append : simpl nomatch.

(** ** Strings *)

Lemma length_append (a b : string) : String.length (a +:+ b) = String.length a + String.length b.
Proof. induction a as [|x a IH]; [done|]. cbn. by rewrite IH. Qed.

Lemma substring_0_app (a b : string) : String.substring 0 (String.length a) (a +:+ b) = a.
Proof. induction a as [|x a IH]; cbn; [by destruct b|]. by rewrite IH. Qed.

Lemma substring_0_all (a : string) n : String.length a ≤ n → String.substring 0 n a = a.
Proof. revert n. induction a as [|x a IH]; intros [|n] H; cbn in *; [done..|lia|]. rewrite IH; [done|lia]. Qed.

Lemma substring_0_split (a b : string) n : String.length a ≤ n →
  String.substring 0 n (a +:+ b) = (a +:+ String.substring 0 (n - String.length a) b)%string.
Proof.
  revert n. induction a as [|x a IH]; intros n H; cbn in *; [by rewrite Nat.sub_0_r|].
  destruct n as [|n]; [lia|]. cbn. rewrite IH; [done|lia].
Qed.

Lemma substring_0_short (a b : string) n : n ≤ String.length a →
  String.substring 0 n (a +:+ b) = String.substring 0 n a.
Proof.
  revert n. induction a as [|x a IH]; intros n H; cbn in *.
  - assert (n = 0) as -> by lia. by destruct b.
  - destruct n as [|n]; [done|]. rewrite IH; [done|lia].
Qed.

Lemma append_eq_nil (a b : string) : (a +:+ b)%string = ""%string ↔ a = ""%string ∧ b = ""%string.
Proof. destruct a; cbn; naive_solver. Qed.

(** ** Lines *)

Definition oneLine (s : string) : Prop := newline ∉ list_ascii_of_string s.

Fixpoint text (lines : list string) : string :=
  match lines with
  | [] => ""
  | line :: lines => terminated line +:+ text lines
  end.

Lemma text_app a b : text (a ++ b) = (text a +:+ text b)%string.
Proof. induction a as [|l a IH]; cbn; [done|]. by rewrite IH, append_assoc. Qed.

Lemma oneLine_cons c s : oneLine (String c s) ↔ c ≠ newline ∧ oneLine s.
Proof. unfold oneLine. cbn. rewrite not_elem_of_cons. naive_solver. Qed.

Lemma oneLine_substring s n : oneLine s → oneLine (String.substring 0 n s).
Proof.
  revert n. induction s as [|c s IH]; intros [|n]; cbn; [done..| |].
  - intros _. by apply not_elem_of_nil.
  - rewrite !oneLine_cons. intros [? ?]. split; [done|by apply IH].
Qed.

Lemma splitLines_terminated line s :
  oneLine line → splitLines (terminated line +:+ s) = (line :: (splitLines s).1, (splitLines s).2).
Proof.
  unfold terminated. rewrite append_assoc. change (String newline "" +:+ s)%string with (String newline s).
  induction line as [|c line IH]; cbn.
  - destruct (splitLines s). by rewrite bool_decide_true.
  - rewrite oneLine_cons. intros [Hc Hl]. rewrite (IH Hl). by rewrite bool_decide_false.
Qed.

Lemma splitLines_tail p : oneLine p → splitLines p = ([], p).
Proof.
  induction p as [|c p IH]; cbn; [done|]. rewrite oneLine_cons. intros [Hc Hp].
  rewrite (IH Hp). by rewrite bool_decide_false.
Qed.

Lemma splitLines_text lines p : Forall oneLine lines → oneLine p → splitLines (text lines +:+ p) = (lines, p).
Proof.
  intros Hl Hp. induction Hl as [|line lines H _ IH]; [by apply splitLines_tail|].
  cbn. rewrite append_assoc, splitLines_terminated by done. by rewrite IH.
Qed.

Lemma offset_text lines : offset lines = String.length (text lines).
Proof.
  induction lines as [|line lines IH]; [done|].
  change (offset (line :: lines)) with (String.length line + 1 + offset lines).
  change (text (line :: lines)) with (terminated line +:+ text lines)%string.
  unfold terminated. rewrite !length_append, IH. cbn. lia.
Qed.

Lemma truncated_text lines p :
  Forall oneLine lines → oneLine p → truncated (text lines +:+ p)%string = text lines.
Proof.
  intros Hl Hp. unfold truncated. rewrite (splitLines_text _ _ Hl Hp). cbn.
  by rewrite offset_text, substring_0_app.
Qed.

(** The first bytes of some lines are the first lines and the start of the next. *)
Lemma text_prefix lines n :
  Forall oneLine lines → ∃ k p, String.substring 0 n (text lines) = (text (take k lines) +:+ p)%string ∧ oneLine p ∧ k ≤ List.length lines.
Proof.
  intros Hl. revert n. induction Hl as [|line lines H _ IH]; intros n.
  { exists 0, ""%string. split_and!; [by destruct n|by apply not_elem_of_nil|done]. }
  cbn. destruct (decide (n ≤ String.length line)) as [Hn|Hn].
  - exists 0, (String.substring 0 n line). split_and!; [|by apply oneLine_substring|cbn; lia].
    unfold terminated. by rewrite append_assoc, substring_0_short.
  - rewrite substring_0_split; [|unfold terminated; rewrite length_append; cbn; lia].
    destruct (IH (n - String.length (terminated line))) as (k & p & -> & Hp & Hk).
    exists (S k), p. cbn. split_and!; [by rewrite append_assoc|done|lia].
Qed.

(** ** The laws of the codec

    encoding/json keeps what its text carries: strings of valid UTF-8 and
    compact raw messages, which [exact] stands for.  It writes a newline inside
    a string as an escape. *)

Class CodecLaws `{Codec} : Type := {
  exactHeader : Header → Prop;
  exactWire : itemWire → Prop;
  exactPayload : Payload → Prop;
  header_law h : exactHeader h → UnmarshalHeader (MarshalHeader h) = Some h ∧ oneLine (MarshalHeader h);
  wire_law w line : exactWire w → MarshalWire w = Some line → UnmarshalWire line = Some w ∧ oneLine line;
  payload_law p data : exactPayload p → MarshalPayload p = Some data →
    data ≠ ""%string ∧ UnmarshalPayload (itemType p) data = Some p;
}.

Section Laws.
Context `{CodecLaws}.

(** The record is one the text carries, and its line is written. *)
Definition exact (it : Item) : Prop :=
  match It_Payload it with
  | None => False
  | Some (UnknownPayload kind _) => kind ≠ ""%string ∧ zeroPayload kind = None
  | Some p => exactPayload p
  end
  ∧ (∀ data, exactWire (mkitemWire (It_Seq it) (It_ID it) (It_ParentID it) (It_TS it) (Item_Type it)
                          (It_Required it) (It_TurnID it) data))
  ∧ is_Some (MarshalJSON it).

Lemma zeroPayload_itemType p :
  match p with UnknownPayload _ _ => True | _ => itemType p ≠ ""%string ∧ is_Some (zeroPayload (itemType p)) end.
Proof. destruct p; try done; split; cbn; try done; eauto. Qed.

Lemma MarshalJSON_Unmarshal it line :
  exact it → MarshalJSON it = Some line → UnmarshalJSON line = Ok it ∧ oneLine line.
Proof.
  intros (Hp & Hw & _). unfold MarshalJSON, UnmarshalJSON, mbind, option_bind, res_bind.
  destruct (match It_Payload it with Some (UnknownPayload _ raw) => Some raw
            | Some p => MarshalPayload p | None => Some ""%string end) as [data|] eqn:Ed; [|done].
  intros Hm. destruct (wire_law _ _ (Hw data) Hm) as [-> Hl]. split; [|done]. cbn.
  assert (Hd : decodePayload (Item_Type it) data = match It_Payload it with Some p => Ok p | None => Err ErrHistoryCorrupt end).
  { unfold decodePayload, Item_Type. destruct (It_Payload it) as [p|]; [|done].
    pose proof (zeroPayload_itemType p) as Hz.
    destruct p; try (destruct Hz as [Hk [z Hz]]; rewrite bool_decide_false by done; rewrite Hz;
      destruct (payload_law _ _ Hp Ed) as [Hne ->]; by rewrite bool_decide_false by done).
    destruct Hp as [Hk Hn]. cbn. injection Ed as ->. rewrite bool_decide_false by done. by rewrite Hn. }
  rewrite Hd. destruct it as [? ? ? ? ? ? payload]. cbn in *. by destruct payload.
Qed.

(** ** Writing and reading a journal *)

Definition lineOf (it : Item) : string := default ""%string (MarshalJSON it).

Lemma encodeItems_text items : Forall exact items → encodeItems items = Ok (text (map lineOf items)).
Proof.
  induction 1 as [|it items (_ & _ & [line Hl]) _ IH]; cbn; [done|].
  unfold lineOf at 1. rewrite Hl. unfold mbind, res_bind. by rewrite IH.
Qed.

Lemma lineOf_spec it : exact it → UnmarshalJSON (lineOf it) = Ok it ∧ oneLine (lineOf it).
Proof.
  intros He. pose proof He as (_ & _ & [line Hl]). unfold lineOf. rewrite Hl. by apply MarshalJSON_Unmarshal.
Qed.

Lemma lines_oneLine items : Forall exact items → Forall oneLine (map lineOf items).
Proof. intros He. apply Forall_map. eapply Forall_impl; [exact He|]. intros it. apply lineOf_spec. Qed.

Lemma readItems_lines h l : ∀ v items,
  accepted items v → journal (items ++ l) → Forall exact l →
  ∃ v', readItems h v items (map lineOf l) = Ok (v', items ++ l) ∧ accepted (items ++ l) v'.
Proof.
  induction l as [|it l IH]; intros v items Hv Hj He; cbn.
  - exists v. by rewrite app_nil_r.
  - apply Forall_cons in He as [He Hl]. destruct (lineOf_spec _ He) as [-> _].
    rewrite (cons_middle it items l), (app_assoc items [it] l) in Hj |- *.
    destruct (journal_snoc_inv _ _ (journal_app _ _ Hj)) as [Hi Hx].
    destruct (Add_extends _ _ _ Hv Hi Hx) as [v1 E]. rewrite E.
    apply (IH v1 (items ++ [it])); [|done..]. by eapply Add_accepted.
Qed.

(** The text of a journal: its header and its records. *)
Definition journalText (h : Header) (items : list Item) : string :=
  text (MarshalHeader h :: map lineOf items).

(** A header this build reads and its text carries. *)
Definition readableHeader (h : Header) : Prop := exactHeader h ∧ Header_Validate h = Ok tt.

Lemma readText_journal h items p repair :
  readableHeader h → journal items → Forall exact items → oneLine p →
  readText repair (journalText h items +:+ p)%string
  = Ok (mkContents h items
          (if repair && (p != ""%string) then String.length (journalText h items) else 0)).
Proof.
  intros [Hh Hv] Hj He Hp. unfold readText, journalText.
  destruct (header_law _ Hh) as [Hu Hl].
  assert (Hls : Forall oneLine (MarshalHeader h :: map lineOf items)) by (constructor; [done|by apply lines_oneLine]).
  rewrite (splitLines_text _ _ Hls Hp).
  rewrite Hu, Hv. destruct (readItems_lines h items NewValidator [] accepted_NewValidator Hj He) as (v & E & Ha).
  cbn in E. unfold mbind, res_bind. rewrite E. cbn. rewrite (accepted_Done _ _ Ha).
  rewrite offset_text. unfold terminated. rewrite !length_append. cbn. by rewrite Nat.add_1_r.
Qed.

Lemma truncated_journal h items p :
  readableHeader h → Forall exact items → oneLine p →
  truncated (journalText h items +:+ p)%string = journalText h items.
Proof.
  intros [Hh _] He Hp. apply truncated_text; [|done]. constructor; [by apply header_law|by apply lines_oneLine].
Qed.

Lemma journalText_app h items batch :
  journalText h (items ++ batch) = (journalText h items +:+ text (map lineOf batch))%string.
Proof. unfold journalText. by rewrite map_app, app_comm_cons, text_app. Qed.
End Laws.

(** * A codec that keeps every record

    A concrete instance of the codec of the journal, for which the laws hold of
    every record: a value is written as the binary digits of its code.  The
    theorems about the journal are instantiated with it. *)

From stdpp Require Import countable gmap strings.
Import Prelude.
Import session journal.

(** ** Records are countable *)

#[export] Instance ContentPart_eq_dec : EqDecision llm.ContentPart.
Proof. solve_decision. Defined.
#[export] Instance ToolCall_eq_dec : EqDecision llm.ToolCall.
Proof. solve_decision. Defined.
#[export] Instance ProviderState_eq_dec : EqDecision llm.ProviderState.
Proof. solve_decision. Defined.
#[export] Instance Message_eq_dec : EqDecision llm.Message.
Proof. solve_decision. Defined.
#[export] Instance Note_eq_dec : EqDecision agent.Note.
Proof. solve_decision. Defined.
#[export] Instance Todo_eq_dec : EqDecision agent.Todo.
Proof. solve_decision. Defined.
#[export] Instance Payload_eq_dec : EqDecision Payload.
Proof. solve_decision. Defined.
#[export] Instance Header_eq_dec : EqDecision Header.
Proof. solve_decision. Defined.
#[export] Instance itemWire_eq_dec : EqDecision itemWire.
Proof. solve_decision. Defined.

#[export] Instance ContentPart_countable : Countable llm.ContentPart.
Proof.
  refine (inj_countable'
    (λ p, (llm.CP_Type_ p, llm.CP_Text p, llm.CP_MediaType p, llm.CP_Data p))
    (λ '(a, b, c, d), llm.mkContentPart a b c d) _). by intros [].
Defined.

#[export] Instance ToolCall_countable : Countable llm.ToolCall.
Proof.
  refine (inj_countable' (λ c, (llm.TC_ID c, llm.TC_Name c, llm.TC_Arguments c))
    (λ '(a, b, c), llm.mkToolCall a b c) _). by intros [].
Defined.

#[export] Instance ProviderState_countable : Countable llm.ProviderState.
Proof.
  refine (inj_countable' (λ c, (llm.PS_Protocol c, llm.PS_Data c)) (λ '(a, b), llm.mkProviderState a b) _).
  by intros [].
Defined.

#[export] Instance Message_countable : Countable llm.Message.
Proof.
  refine (inj_countable'
    (λ m, (llm.Msg_Role m, llm.Msg_Content m, llm.Msg_ToolCallID m, llm.Msg_ToolCalls m, llm.Msg_Source m,
           llm.Msg_ProviderState m, llm.Msg_Parts m))
    (λ '(a, b, c, d, e, f, g), llm.mkMessage a b c d e f g) _). by intros [].
Defined.

#[export] Instance Note_countable : Countable agent.Note.
Proof.
  refine (inj_countable' (λ n, (agent.Note_Text n, agent.Note_WrittenIteration n)) (λ '(a, b), agent.mkNote a b) _).
  by intros [].
Defined.

#[export] Instance Todo_countable : Countable agent.Todo.
Proof.
  refine (inj_countable'
    (λ t, (agent.Todo_Content t, agent.Todo_Status t, agent.Todo_ActiveForm t, agent.Todo_WrittenIteration t))
    (λ '(a, b, c, d), agent.mkTodo a b c d) _). by intros [].
Defined.

#[export] Instance Header_countable : Countable Header.
Proof.
  refine (inj_countable' (λ h, (Hdr_Type_ h, Hdr_Version h, Hdr_SessionID h, Hdr_CreatedAt h))
    (λ '(a, b, c, d), mkHeader a b c d) _). by intros [].
Defined.

#[export] Instance itemWire_countable : Countable itemWire.
Proof.
  refine (inj_countable'
    (λ w, (W_Seq w, W_ID w, W_ParentID w, W_TS w, W_Type_ w, W_Required w, W_TurnID w, W_Data w))
    (λ '(a, b, c, d, e, f, g, h), mkitemWire a b c d e f g h) _). by intros [].
Defined.

(** A payload is its type's number and the code of its fields. *)
Definition payload_code (p : Payload) : positive * positive :=
  match p with
  | TurnStarted a b c d e => (1, encode (a, b, c, d, e))
  | MessageItem m => (2, encode m)
  | session.ToolExecutionStarted a b => (3, encode (a, b))
  | ToolResult a b c d => (4, encode (a, b, c, d))
  | Compaction a b => (5, encode (a, b))
  | NotesReplaced a => (6, encode a)
  | TodosReplaced a => (7, encode a)
  | AdditionalPromptSet a => (8, encode a)
  | HeadSelected a => (9, encode a)
  | TurnFinished a b => (10, encode (a, b))
  | TurnRecovered a b => (11, encode (a, b))
  | UnknownPayload a b => (12, encode (a, b))
  end%positive.

Definition payload_of (n : positive * positive) : option Payload :=
  match n.1 with
  | 1 => '(a, b, c, d, e) ← decode n.2; Some (TurnStarted a b c d e)
  | 2 => m ← decode n.2; Some (MessageItem m)
  | 3 => '(a, b) ← decode n.2; Some (session.ToolExecutionStarted a b)
  | 4 => '(a, b, c, d) ← decode n.2; Some (ToolResult a b c d)
  | 5 => '(a, b) ← decode n.2; Some (Compaction a b)
  | 6 => a ← decode n.2; Some (NotesReplaced a)
  | 7 => a ← decode n.2; Some (TodosReplaced a)
  | 8 => a ← decode n.2; Some (AdditionalPromptSet a)
  | 9 => a ← decode n.2; Some (HeadSelected a)
  | 10 => '(a, b) ← decode n.2; Some (TurnFinished a b)
  | 11 => '(a, b) ← decode n.2; Some (TurnRecovered a b)
  | 12 => '(a, b) ← decode n.2; Some (UnknownPayload a b)
  | _ => None
  end%positive.

#[export] Instance Payload_countable : Countable Payload.
Proof.
  refine (inj_countable payload_code payload_of _).
  intros []; unfold payload_of, payload_code; cbn [fst snd]; by rewrite decode_encode.
Defined.

(** ** Binary digits *)

Fixpoint bits (p : positive) : string :=
  match p with
  | xH => ""
  | xO p => String "0" (bits p)
  | xI p => String "1" (bits p)
  end.

Fixpoint unbits (s : string) : option positive :=
  match s with
  | EmptyString => Some xH
  | String c s =>
      p ← unbits s;
      if c == "0"%char then Some (xO p) else if c == "1"%char then Some (xI p) else None
  end.

Lemma unbits_bits p : unbits (bits p) = Some p.
Proof. induction p as [p IH|p IH|]; cbn; [by rewrite IH..|done]. Qed.

Lemma bits_oneLine p : oneLine (bits p).
Proof.
  induction p as [p IH|p IH|]; cbn; [by apply oneLine_cons..|].
  by apply not_elem_of_nil.
Qed.

Definition write {A} `{Countable A} (a : A) : string := bits (encode a).
Definition read {A} `{Countable A} (s : string) : option A := p ← unbits s; decode p.

Lemma read_write {A} `{Countable A} (a : A) : read (write a) = Some a.
Proof. unfold read, write. rewrite unbits_bits. cbn. apply decode_encode. Qed.

#[export] Instance bitsCodec : Codec := {|
  MarshalHeader := write;
  UnmarshalHeader := read;
  MarshalWire w := Some (write w);
  UnmarshalWire := read;
  MarshalPayload p := Some (String "p" (write p));
  UnmarshalPayload kind data :=
    match data with
    | String _ data => p ← read data; if itemType p == kind then Some p else None
    | EmptyString => None
    end;
|}.

Lemma bits_write {A} `{Countable A} (a : A) line :
  Some (write a) = Some line → read line = Some a ∧ oneLine line.
Proof. intros [= <-]. split; [apply read_write|apply bits_oneLine]. Qed.

Lemma bits_payload p data :
  MarshalPayload p = Some data → data ≠ ""%string ∧ UnmarshalPayload (itemType p) data = Some p.
Proof. intros [= <-]. split; [done|]. cbn. rewrite read_write. cbn. by rewrite bool_decide_true. Qed.

#[export] Instance bitsLaws : CodecLaws := {|
  exactHeader := λ _, True;
  exactWire := λ _, True;
  exactPayload := λ _, True;
  header_law h _ := bits_write h (write h) eq_refl;
  wire_law w line _ := bits_write w line;
  payload_law p data _ := bits_payload p data;
|}.

(** Every record the program builds is exact. *)
Lemma bits_exact it : (∃ p, It_Payload it = Some p ∧ match p with UnknownPayload _ _ => False | _ => True end) → exact it.
Proof.
  intros (p & E & Hp). unfold exact. rewrite E. split_and!; [by destruct p|done|].
  unfold MarshalJSON. rewrite E. destruct p; done || (cbn; eauto).
Qed.
