(* ===== verification/SessionCommit.v ===== *)
(** * SessionCommit: committing to the journal

    What [commitAll] and [commitTo] do to an open session and to the disk,
    whether the write succeeds or not, and that an open session tracks its
    journal: its read model is the reduction of the branch its head names. *)

From Stdlib Require Import Ascii String.
From S2P Require Import Prelude SessionCore SessionBranch SessionRewind Pricing SessionMeta SessionJournal SessionStore SessionContext JournalText.
From stdpp Require Import gmap strings.
Import Prelude.
Import session journal sessionstore agentapp.

(** ** Chains of new records *)

Definition headOf (items : list Item) : string :=
  match last items with None => ""%string | Some it => It_ID it end.

Lemma headOf_snoc items it : headOf (items ++ [it]) = It_ID it.
Proof. unfold headOf. by rewrite last_snoc. Qed.

Lemma lastSeq_snoc items it : sessionstore.lastSeq (items ++ [it]) = It_Seq it.
Proof. unfold sessionstore.lastSeq. by rewrite last_snoc. Qed.


(** [linked parent seq items]: each record follows the one before it. *)
Fixpoint linked (parent : string) (seq : Z) (items : list Item) : Prop :=
  match items with
  | [] => True
  | it :: items =>
      It_ParentID it = parent ∧ It_Seq it = (seq + 1)%Z ∧ linked (It_ID it) (seq + 1) items
  end.

Lemma linked_continues w items : ∀ parent seq, linked parent seq items →
  continues w parent seq items
  = Ok (default parent (It_ID <$> last items), (seq + Z.of_nat (List.length items))%Z).
Proof.
  induction items as [|it items IH]; intros parent seq; cbn.
  - intros _. f_equal. f_equal. lia.
  - intros (Hp & Hs & Hl). rewrite Hs, Hp, !bool_decide_true by done. cbn. rewrite (IH _ _ Hl).
    f_equal. f_equal; [|cbn; lia].
    destruct items as [|x l]; [done|]. change (last (it :: x :: l)) with (last (x :: l)).
    destruct (last (x :: l)) eqn:El; [done|by apply last_None in El].
Qed.

Lemma linked_journal new : ∀ items,
  journal items → linked (headOf items) (sessionstore.lastSeq items) new →
  Forall (λ it, It_ID it ≠ ""%string ∧ readable it) new → NoDup (ids items ++ ids new) →
  journal (items ++ new).
Proof.
  induction new as [|it new IH]; intros items Hj; cbn.
  - intros _ _ _. by rewrite app_nil_r.
  - intros (Hp & Hs & Hl) [[Hi Hr] Hn]%Forall_cons Hd.
    rewrite (cons_middle it items new), (app_assoc items [it] new).
    assert (Hj' : journal (items ++ [it])).
    { constructor; [done|]. unfold extends. split_and!; [done| |done|].
      - apply NoDup_app in Hd as (_ & Hd & _). intros Hin. apply (Hd _ Hin). by left.
      - rewrite Hp. unfold headOf. destruct items as [|i0 l] eqn:E; [done|].
        destruct (last (i0 :: l)) as [x|] eqn:El; [|by apply last_None in El].
        apply list_elem_of_fmap_2. apply last_Some in El as [l' ->]. set_solver. }
    apply IH; [done| |done|].
    + by rewrite headOf_snoc, lastSeq_snoc, Hs.
    + rewrite map_app, <- app_assoc. done.
Qed.

(** ** Branches that replay record by record

    Every compaction of such a branch covers a record before it, so every
    prefix replays too. *)

Inductive grown : list Item → State * gset string → Prop :=
| grown_nil : grown [] (State0, ∅)
| grown_snoc branch it acc acc' :
    grown branch acc → applyItem (branch ++ [it]) acc it = Ok acc' → grown (branch ++ [it]) acc'.

Lemma grown_replayed branch acc : grown branch acc → replayed branch acc.
Proof. induction 1; [done|]. by eapply replayed_snoc. Qed.

Lemma grown_snoc_inv branch it acc' :
  grown (branch ++ [it]) acc' → ∃ acc, grown branch acc ∧ applyItem (branch ++ [it]) acc it = Ok acc'.
Proof.
  inversion 1 as [E|b x acc a Hg Ha E1 E2].
  - by destruct (app_cons_not_nil branch [] it).
  - apply app_inj_tail in E1 as [-> ->]. eauto.
Qed.

Lemma grown_prefix b1 b2 acc : grown (b1 ++ b2) acc → ∃ acc', grown b1 acc'.
Proof.
  revert acc. induction b2 as [|it b2 IH] using rev_ind; intros acc.
  - rewrite app_nil_r. eauto.
  - rewrite app_assoc. intros (acc' & Hg & _)%grown_snoc_inv. eauto.
Qed.

(** The calls a branch has results for. *)
Definition resultID (it : Item) : option string :=
  match It_Payload it with Some (ToolResult id _ _ _) => Some id | _ => None end.
Definition answered (branch : list Item) : gset string := list_to_set (omap resultID branch).

Lemma answered_snoc branch it :
  answered (branch ++ [it]) = match resultID it with Some id => {[id]} ∪ answered branch | None => answered branch end.
Proof.
  unfold answered. rewrite omap_app, list_to_set_app_L. cbn. destruct (resultID it); cbn; set_solver.
Qed.

Lemma grown_answered branch acc : grown branch acc → acc.2 = answered branch.
Proof.
  induction 1 as [|branch it [st a] acc' _ IH Ha]; [done|]. rewrite answered_snoc.
  unfold resultID. unfold applyItem in Ha. cbn in IH. subst a.
  destruct (It_Payload it) as [[]|]; try (by injection Ha as <-).
  - case_decide; [done|]. by injection Ha as <-.
  - unfold mbind, res_bind in Ha. destruct (compactionBoundary _ _); [|done]. by injection Ha as <-.
Qed.

(** What one more record does to a branch that replays. *)
Lemma grown_step branch st it st' :
  grown branch (st, answered branch) →
  applyItem (branch ++ [it]) (st, answered branch) it = Ok st' → grown (branch ++ [it]) (st'.1, answered (branch ++ [it])).
Proof.
  intros Hg Ha. assert (grown (branch ++ [it]) st') as Hg' by by eapply grown_snoc.
  pose proof (grown_answered _ _ Hg') as <-. by destruct st'.
Qed.

(** ** States up to the turn

    An open session does not follow [LastTurn] and [Open]: two states are the
    same to a resumed turn when all else agrees. *)

Definition resumed (st : State) : State := st <| St_LastTurn := ""%string |> <| St_Open := false |>.

#[export] Instance State_equiv : Equiv State := λ a b, resumed a = resumed b.

#[export] Instance State_equivalence : Equivalence (≡@{State}).
Proof. split; unfold equiv, State_equiv; congruence. Qed.

#[export] Instance HistoryMessages_proper : Proper ((≡) ==> (=)) HistoryMessages.
Proof. intros [] [] E. injection E as -> -> -> -> -> ->. done. Qed.

Lemma applyItem_equiv branch a it st1 st2 st1' a' :
  st1 ≡ st2 → applyItem branch (st1, a) it = Ok (st1', a') →
  ∃ st2', applyItem branch (st2, a) it = Ok (st2', a') ∧ st1' ≡ st2'.
Proof.
  destruct st1, st2. intros E. injection E as -> -> -> -> -> ->. unfold applyItem.
  destruct (It_Payload it) as [[]|]; try (intros [= <- <-]; by eexists).
  - case_decide; [done|]. intros [= <- <-]. by eexists.
  - unfold mbind, res_bind. destruct (compactionBoundary _ _); [|done]. intros [= <- <-]. by eexists.
Qed.

(** The records that leave all but the turn alone. *)
Definition quiet (it : Item) : Prop :=
  match It_Payload it with
  | Some (HeadSelected _) | Some (TurnRecovered _ _) | Some (session.ToolExecutionStarted _ _)
  | Some (TurnStarted _ _ _ _ _) | Some (TurnFinished _ _) => True
  | _ => False
  end.

Lemma applyItem_quiet branch st a it : quiet it → ∃ st', applyItem branch (st, a) it = Ok (st', a) ∧ st' ≡ st.
Proof. unfold quiet, applyItem. destruct (It_Payload it) as [[]|]; try done; by eexists. Qed.

(** The branch replays, and to the state the session holds. *)
Definition shows (branch : list Item) (st : State) : Prop :=
  ∃ st', grown branch (st', answered branch) ∧ st' ≡ st.

#[export] Instance shows_proper branch : Proper ((≡) ==> iff) (shows branch).
Proof. intros a b E. unfold shows. by setoid_rewrite E. Qed.

Lemma shows_step branch it st st' a :
  shows branch st → applyItem (branch ++ [it]) (st, answered branch) it = Ok (st', a) → shows (branch ++ [it]) st'.
Proof.
  intros (st0 & Hg & E) Ha. symmetry in E. destruct (applyItem_equiv _ _ _ _ _ _ _ E Ha) as (st1 & E1 & Heq).
  exists st1. split; [exact (grown_step _ _ _ _ Hg E1)|by symmetry].
Qed.

(** ** One step of a program *)

Lemma bind_Ok {E S A B} (m : Eff E S A) (f : A → Eff E S B) s a s' r :
  m s = (Ok a, s') → f a s' = r → (m ≫= f) s = r.
Proof. unfold mbind, eff_bind. by intros ->. Qed.

Lemma bind_Err {E S A B} (m : Eff E S A) (f : A → Eff E S B) s e s' :
  m s = (Err e, s') → (m ≫= f) s = (Err e, s').
Proof. unfold mbind, eff_bind. by intros ->. Qed.

(** ** Writing to the disk *)

Definition appended (dir text : string) (d : Disk) : Disk :=
  d <| D_bundles :=
    alter (λ b, b <| B_journal := (λ c, (c +:+ text)%string) <$> B_journal b |>) dir (D_bundles d) |>.

Lemma Write_eq dir txt d :
  Write dir txt d =
    match D_writes d with
    | [] => (Ok tt, appended dir txt d)
    | None :: ws => (Ok tt, appended dir txt (d <| D_writes := ws |>))
    | Some n :: ws => (Err (Other "write"), appended dir (String.substring 0 n txt) (d <| D_writes := ws |>))
    end.
Proof. unfold Write, nextOutcome. eff_unfold. by destruct (D_writes d) as [|[n|] ws]. Qed.

(** The disk after an append: all of the text, or the first bytes of it. *)
Inductive appends (dir txt : string) (d : Disk) : res error unit → Disk → Prop :=
| appends_all ws :
    D_writes d = [] ∧ ws = [] ∨ D_writes d = None :: ws →
    appends dir txt d (Ok tt) (appended dir txt (d <| D_writes := ws |>))
| appends_part n ws :
    D_writes d = Some n :: ws →
    appends dir txt d (Err (Other "write")) (appended dir (String.substring 0 n txt) (d <| D_writes := ws |>)).

Lemma Write_appends dir txt d : appends dir txt d (Write dir txt d).1 (Write dir txt d).2.
Proof.
  rewrite Write_eq. destruct (D_writes d) as [|[n|] ws] eqn:E; cbn.
  - replace (appended dir txt d) with (appended dir txt (d <| D_writes := [] |>)); [constructor; auto|].
    unfold appended. destruct d. cbn in *. by subst.
  - by constructor.
  - constructor. auto.
Qed.

Section Commit.
Context `{Codec} (NewID : nat → string).

(** The outcome of appending some records: refused by the encoder, or written. *)
Inductive attempt (dir : string) (new : list Item) (d : Disk) : res error unit → Disk → Prop :=
| attempt_refused e : encodeItems new = Err e → attempt dir new d (Err e) d
| attempt_written txt r d' : encodeItems new = Ok txt → appends dir txt d r d' → attempt dir new d r d'.

Lemma JournalAppend_attempt dir new d :
  new ≠ [] → ∃ r d', JournalAppend dir new d = (r, d') ∧ attempt dir new d r d'.
Proof.
  intros Hne. unfold JournalAppend. destruct new as [|it new]; [done|].
  destruct (encodeItems (it :: new)) as [txt|e] eqn:E.
  - exists (Write dir txt d).1, (Write dir txt d).2. split; [|by econstructor; [|apply Write_appends]].
    eapply bind_Ok; [done|]. by destruct (Write dir txt d).
  - exists (Err e), d. split; [|by constructor]. by eapply bind_Err.
Qed.

Definition drawn (n : nat) (l : Live) : Live :=
  l <| Lv_disk := Lv_disk l <| D_fresh := D_fresh (Lv_disk l) + n |> |>.

Lemma drawn_drawn n l : drawn n (drawn 1 l) = drawn (S n) l.
Proof. unfold drawn, modify. cbn. by rewrite <- Nat.add_assoc. Qed.

(** The records [chainItems] builds. *)
Definition chain (turnID parent : string) (seq : Z) (payloads : list Payload) (fresh : nat)
    (items : list Item) : Prop :=
  linked parent seq items ∧ map It_Payload items = map Some payloads
  ∧ ids items = map NewID (List.seq fresh (List.length payloads))
  ∧ Forall (λ it, It_Required it = match It_Payload it with Some p => modelVisible p | None => false end) items.

Lemma chainItems_cons turnID parent seq p payloads :
  chainItems NewID turnID parent seq (p :: payloads) =
    (id ← drawCtxID NewID;
     now ← gets (λ l, D_now (Lv_disk l));
     items ← chainItems NewID turnID id (seq + 1) payloads;
     mret (NewItem (seq + 1) id parent now turnID (Some p) :: items)).
Proof. done. Qed.

Lemma chainItems_eq turnID payloads : ∀ parent seq l,
  ∃ items, chainItems NewID turnID parent seq payloads l = (Ok items, drawn (List.length payloads) l)
           ∧ chain turnID parent seq payloads (D_fresh (Lv_disk l)) items.
Proof.
  induction payloads as [|p payloads IH]; intros parent seq l.
  - exists []. split; [|by repeat constructor]. cbn. unfold mret, eff_ret, drawn. destruct l as [[] ?]. unfold modify. cbn. by rewrite Nat.add_0_r.
  - destruct (IH (NewID (D_fresh (Lv_disk l))) (seq + 1)%Z (drawn 1 l)) as (items & E & Hl & Hp & Hi & Hr).
    eexists. split.
    + rewrite chainItems_cons. eapply (bind_Ok _ _ l _ (drawn 1 l)).
      { unfold drawCtxID, onDisk, drawID, drawn, modify. cbn. by rewrite Nat.add_1_r. }
      eapply bind_Ok; [done|]. eapply bind_Ok; [exact E|].
      unfold mret, eff_ret. by rewrite drawn_drawn.
    + replace (D_fresh (Lv_disk (drawn 1 l))) with (S (D_fresh (Lv_disk l))) in Hi
        by (unfold drawn, modify; cbn; lia).
      unfold chain. cbn. rewrite Hp, Hi. split_and!; try done. by constructor.
Qed.

Definition moved (w : fileWriter) (new : list Item) : fileWriter :=
  w <| FW_lastID := headOf new |> <| FW_lastSeq := sessionstore.lastSeq new |>
    <| FW_loaded := FW_loaded w <| L_Items := L_Items (FW_loaded w) ++ new |> <| L_Head := headOf new |> |>.

Definition advance (w : fileWriter) (new : list Item) (s : SessionContext) : SessionContext :=
  s <| SC_writer := Some (moved w new) |> <| SC_items := SC_items s ++ new |>
    <| SC_head := headOf new |> <| SC_lastSeq := sessionstore.lastSeq new |>.

(** A committing step leaves the session alone, or advances it over the records
    that the disk took. *)
Inductive committed (w : fileWriter) (new : list Item) (d : Disk) (s : SessionContext) :
    res error unit → Live → Prop :=
| committed_not e d' : attempt (FW_dir w) new d (Err e) d' → committed w new d s (Err e) (mkLive d' s)
| committed_all d' : attempt (FW_dir w) new d (Ok tt) d' →
    committed w new d s (Ok tt) (mkLive d' (advance w new s)).

Lemma Append_cases w new d :
  new ≠ [] → continues w (FW_lastID w) (FW_lastSeq w) new = Ok (headOf new, sessionstore.lastSeq new) →
  ∃ r d', attempt (FW_dir w) new d r d' ∧
    sessionstore.Append w new d = (match r with Ok _ => Ok (moved w new) | Err e => Err e end, d').
Proof.
  intros Hne Hc. destruct (JournalAppend_attempt (FW_dir w) new d Hne) as (r & d' & E & Ha).
  exists r, d'. split; [done|]. unfold sessionstore.Append. destruct new as [|it new]; [done|].
  eapply bind_Ok; [unfold lift; by rewrite Hc|]. destruct r as [[]|e]; [by eapply bind_Ok|by eapply bind_Err].
Qed.

(** What the committing paths share: append, then take over the records. *)
Lemma adopting {B} w new id seq d s :
  new ≠ [] → id = headOf new → seq = sessionstore.lastSeq new →
  continues w (FW_lastID w) (FW_lastSeq w) new = Ok (headOf new, sessionstore.lastSeq new) →
  ∃ r l', committed w new d s r l' ∧
    ∀ k : unit → Ctx B,
      (_ ← appendItems w new; (x ← adopt new id seq; k x)) (mkLive d s)
      = match r with Ok x => k x l' | Err e => (Err e, l') end.
Proof.
  intros Hne -> -> Hc. destruct (Append_cases w new d Hne Hc) as (r & d' & Ha & E).
  destruct r as [[]|e].
  - eexists _, _. split; [by apply committed_all|]. intros k.
    eapply bind_Ok.
    { eapply bind_Ok; [unfold onDisk; cbn; by rewrite E|done]. }
    by eapply bind_Ok.
  - eexists _, _. split; [by apply committed_not|]. intros k.
    eapply bind_Err. eapply bind_Err. unfold onDisk. cbn. by rewrite E.
Qed.

(** ** An open session tracks its journal *)

Record tracks (s : SessionContext) (w : fileWriter) (branch : list Item) : Prop := {
  tr_writer : SC_writer s = Some w;
  tr_lastID : FW_lastID w = SC_head s;
  tr_lastSeq : FW_lastSeq w = SC_lastSeq s;
  tr_items : L_Items (FW_loaded w) = SC_items s;
  tr_journal : journal (SC_items s);
  tr_head : SC_head s = headOf (SC_items s);
  tr_seq : SC_lastSeq s = sessionstore.lastSeq (SC_items s);
  tr_branch : Branch (SC_items s) (SC_head s) = Ok branch;
  tr_shows : shows branch (SC_state s);
  tr_ids : SC_messageIDs s = ids (messagesOf branch);
}.

Definition unused (n : nat) (items : list Item) : Prop := ∀ k, n ≤ k → NewID k ∉ ids items.

Definition known (p : Payload) : Prop := match p with UnknownPayload _ _ => False | _ => True end.

Lemma headOf_app items new : new ≠ [] → headOf (items ++ new) = headOf new.
Proof.
  induction new as [|it new _] using rev_ind; [done|]. intros _. by rewrite app_assoc, !headOf_snoc.
Qed.

Lemma lastSeq_app items new : new ≠ [] → sessionstore.lastSeq (items ++ new) = sessionstore.lastSeq new.
Proof.
  induction new as [|it new _] using rev_ind; [done|]. intros _. by rewrite app_assoc, !lastSeq_snoc.
Qed.

Lemma linked_ends new : ∀ parent seq, linked parent seq new → new ≠ [] →
  default parent (It_ID <$> last new) = headOf new ∧ (seq + Z.of_nat (List.length new))%Z = sessionstore.lastSeq new.
Proof.
  induction new as [|it new IH]; intros parent seq; [done|]. intros (Hp & Hs & Hl) _.
  destruct new as [|x new]; [cbn; split; [done|by rewrite Hs]|].
  destruct (IH _ _ Hl) as [H1 H2]; [done|]. unfold headOf in *. unfold sessionstore.lastSeq in *.
  change (last (it :: x :: new)) with (last (x :: new)). cbn [List.length] in *.
  destruct (last (x :: new)) eqn:E; [split; [done|lia]|]. by apply last_None in E.
Qed.

Lemma linked_continues_ends w new :
  linked (FW_lastID w) (FW_lastSeq w) new → new ≠ [] →
  continues w (FW_lastID w) (FW_lastSeq w) new = Ok (headOf new, sessionstore.lastSeq new).
Proof.
  intros Hl Hne. rewrite (linked_continues _ _ _ _ Hl). by destruct (linked_ends _ _ _ Hl Hne) as [-> ->].
Qed.

Lemma Branch_linked new : ∀ items branch seq,
  journal (items ++ new) → Branch items (headOf items) = Ok branch → linked (headOf items) seq new →
  Branch (items ++ new) (headOf (items ++ new)) = Ok (branch ++ new).
Proof.
  induction new as [|it new IH]; intros items branch seq; [by rewrite !app_nil_r|].
  rewrite (cons_middle it items new), (app_assoc items [it] new), (cons_middle it branch new), (app_assoc branch [it] new).
  intros Hj Hb (Hp & Hs & Hl).
  apply (IH _ _ (seq + 1)%Z Hj); rewrite headOf_snoc; [|done].
  apply Branch_snoc; [by eapply journal_app|by rewrite Hp].
Qed.

Context (NewID_inj : Inj eq eq NewID) (NewID_ne : ∀ k, NewID k ≠ ""%string).

Lemma chain_fresh turnID parent seq payloads fresh items new :
  chain turnID parent seq payloads fresh new → unused fresh items → NoDup (ids items) →
  NoDup (ids items ++ ids new) ∧ unused (fresh + List.length payloads) (items ++ new).
Proof using NewID_inj.
  intros (_ & _ & Hi & _) Hu Hn. rewrite Hi. split.
  - apply NoDup_app. split_and!; [done| |apply (NoDup_fmap_2 NewID), NoDup_seq].
    intros x Hx (k & -> & Hk%elem_of_seq)%list_elem_of_fmap. apply (Hu k); [lia|done].
  - intros k Hk. rewrite map_app, Hi, elem_of_app. intros [Hx|(j & E & Hj%elem_of_seq)%list_elem_of_fmap].
    + apply (Hu k); [lia|done].
    + apply NewID_inj in E. lia.
Qed.

Lemma chain_readable turnID parent seq payloads fresh new :
  chain turnID parent seq payloads fresh new → Forall known payloads →
  Forall (λ it, It_ID it ≠ ""%string ∧ readable it) new.
Proof using NewID_ne.
  intros (_ & Hp & Hi & _) Hk. apply Forall_forall. intros it Hin. split.
  - assert (It_ID it ∈ ids new) as Hid by by apply list_elem_of_fmap_2.
    rewrite Hi in Hid. apply list_elem_of_fmap in Hid as (k & -> & _). done.
  - assert (It_Payload it ∈ map It_Payload new) as Hpl by by apply list_elem_of_fmap_2.
    rewrite Hp in Hpl. apply list_elem_of_fmap in Hpl as (p & E & Hpin). unfold readable. rewrite E.
    rewrite Forall_forall in Hk. specialize (Hk _ Hpin). by destruct p.
Qed.

Lemma commitAll_cases payloads l w branch :
  tracks (Lv_ctx l) w branch → payloads ≠ [] →
  ∃ new r l', chain (SC_turnID (Lv_ctx l)) (SC_head (Lv_ctx l)) (SC_lastSeq (Lv_ctx l)) payloads
                (D_fresh (Lv_disk l)) new
    ∧ committed w new (Lv_disk (drawn (List.length payloads) l)) (Lv_ctx l) r l'
    ∧ commitAll NewID payloads l = (match r with Ok _ => Ok (ids new) | Err e => Err e end, l').
Proof.
  intros Ht Hne.
  destruct (chainItems_eq (SC_turnID (Lv_ctx l)) payloads (SC_head (Lv_ctx l)) (SC_lastSeq (Lv_ctx l)) l)
    as (new & E & Hc). pose proof Hc as (Hl & Hp & _).
  assert (Hnew : new ≠ []) by (intros ->; by destruct payloads).
  rewrite <- (tr_lastID _ _ _ Ht), <- (tr_lastSeq _ _ _ Ht) in Hl.
  destruct (adopting (B := list string) w new (It_ID (default (mkItem 0 "" "" 0 false "" None) (last new)))
              (It_Seq (default (mkItem 0 "" "" 0 false "" None) (last new)))
              (Lv_disk (drawn (List.length payloads) l)) (Lv_ctx l)) as (r & l' & Hcm & Ea).
  { done. }
  { unfold headOf. by destruct (last new) eqn:El; [|apply last_None in El]. }
  { unfold sessionstore.lastSeq. by destruct (last new) eqn:El; [|apply last_None in El]. }
  { by apply linked_continues_ends. }
  exists new, r, l'. split_and!; [done..|].
  unfold commitAll. eapply bind_Ok; [done|]. rewrite (tr_writer _ _ _ Ht).
  destruct payloads as [|p payloads]; [done|]. eapply bind_Ok; [exact E|].
  etransitivity; [exact (Ea (λ _, mret (ids new)))|]. by destruct r.
Qed.

(** A session advanced over [new], whose read model is that of the new branch. *)
Lemma advance_tracks s w branch new branch' st' :
  tracks s w branch → new ≠ [] → journal (SC_items s ++ new) →
  Branch (SC_items s ++ new) (headOf new) = Ok branch' → shows branch' st' →
  tracks (advance w new s <| SC_state := st' |> <| SC_messageIDs := ids (messagesOf branch') |>) (moved w new) branch'.
Proof.
  intros Ht Hne Hj Hb Hg. constructor.
  - reflexivity.
  - reflexivity.
  - reflexivity.
  - change (L_Items (FW_loaded w) ++ new = SC_items s ++ new). by rewrite (tr_items _ _ _ Ht).
  - exact Hj.
  - symmetry. exact (headOf_app (SC_items s) new Hne).
  - symmetry. exact (lastSeq_app (SC_items s) new Hne).
  - exact Hb.
  - exact Hg.
  - reflexivity.
Qed.

Lemma commit_journal turnID payloads s w branch fresh new :
  tracks s w branch → chain turnID (SC_head s) (SC_lastSeq s) payloads fresh new → payloads ≠ [] →
  unused fresh (SC_items s) → Forall known payloads →
  new ≠ [] ∧ journal (SC_items s ++ new) ∧ Branch (SC_items s ++ new) (headOf new) = Ok (branch ++ new)
  ∧ unused (fresh + List.length payloads) (SC_items s ++ new).
Proof using NewID_inj NewID_ne.
  intros Ht Hc Hne Hu Hk. destruct (chain_fresh _ _ _ _ _ _ _ Hc Hu (journal_NoDup _ (tr_journal _ _ _ Ht))) as [Hn Hu'].
  pose proof Hc as (Hl & Hp & _). assert (Hnew : new ≠ []) by (intros ->; by destruct payloads).
  rewrite (tr_head _ _ _ Ht), (tr_seq _ _ _ Ht) in Hl.
  assert (Hj : journal (SC_items s ++ new)).
  { apply linked_journal; [apply Ht|done|by eapply chain_readable|done]. }
  split_and!; [done..| |done]. rewrite <- (headOf_app (SC_items s) new Hnew).
  eapply Branch_linked; [done| |done]. rewrite <- (tr_head _ _ _ Ht). apply Ht.
Qed.
End Commit.
