(* ===== verification/SessionRefines.v ===== *)
(** * SessionRefines: the read model is the reduction of the journal

    Every method of an open session keeps it tracking its journal, whether its
    write succeeds or not: what a later open reads is what the session held. *)

From Stdlib Require Import Ascii String.
From S2P Require Import Prelude SessionCore SessionBranch SessionRewind Pricing SessionMeta SessionJournal SessionStore SessionContext JournalText SessionCommit.
From stdpp Require Import gmap strings.
Import Prelude.
Import session journal sessionstore agentapp.

(** ** What a method may do to the session and the disk *)

(** A method that commits nothing, or tries one batch. *)
Inductive performed `{Codec} (l l' : Live) : Prop :=
| performed_nothing :
    D_bundles (Lv_disk l') = D_bundles (Lv_disk l) → SC_items (Lv_ctx l') = SC_items (Lv_ctx l) →
    SC_writer (Lv_ctx l') = SC_writer (Lv_ctx l) → D_writes (Lv_disk l') = D_writes (Lv_disk l) → performed l l'
| performed_batch w w' new d r :
    SC_writer (Lv_ctx l) = Some w → SC_writer (Lv_ctx l') = Some w' → FW_dir w' = FW_dir w →
    D_bundles d = D_bundles (Lv_disk l) → D_writes d = D_writes (Lv_disk l) → attempt (FW_dir w) new d r (Lv_disk l') →
    SC_items (Lv_ctx l') = SC_items (Lv_ctx l) ++ (if is_ok r then new else []) → performed l l'.

Section Refines.
Context `{Codec} (NewID : nat → string).
Context (NewID_inj : Inj eq eq NewID) (NewID_ne : ∀ k, NewID k ≠ ""%string).

Record live (l : Live) (w : fileWriter) (branch : list Item) : Prop := {
  live_tracks : tracks (Lv_ctx l) w branch;
  live_unused : unused NewID (D_fresh (Lv_disk l)) (SC_items (Lv_ctx l));
}.

(** The effect a method has: it settles with the session tracking again. *)
Definition settles {A} (m : Ctx A) (l : Live) : Prop :=
  ∃ r l', m l = (r, l') ∧ performed l l' ∧ ∃ w' branch', live l' w' branch'.

Lemma settles_same {A} (m : Ctx A) l w branch r :
  live l w branch → m l = (r, l) → settles m l.
Proof. intros Hl E. exists r, l. split_and!; [done|by apply performed_nothing|eauto]. Qed.

(** Metadata and the turn id play no part in tracking. *)
Lemma tracks_turn s w branch turn : tracks s w branch → tracks (s <| SC_turnID := turn |>) w branch.
Proof. intros []. by constructor. Qed.

Lemma attempt_fresh dir new d r d' : attempt dir new d r d' → D_fresh d' = D_fresh d.
Proof. intros [|txt r' d1 _ []]; done. Qed.

(** ** Committing records that change the state by [f] *)

Definition messageIDs_of (new : list Item) : list string := ids (messagesOf new).

(** After [commitAll], the continuation [k] puts the read model in step. *)
Lemma commit_settles {A} (payloads : list Payload) (k : list string → Ctx A) l w branch st' :
  live l w branch → payloads ≠ [] → Forall known payloads →
  (∀ new, map It_Payload new = map Some payloads → shows (branch ++ new) st') →
  (∀ new l1, map It_Payload new = map Some payloads → SC_state (Lv_ctx l1) = SC_state (Lv_ctx l) →
     SC_messageIDs (Lv_ctx l1) = SC_messageIDs (Lv_ctx l) →
     ∃ r, k (ids new) l1
       = (r, l1 <| Lv_ctx := Lv_ctx l1 <| SC_state := st' |>
                               <| SC_messageIDs := SC_messageIDs (Lv_ctx l) ++ messageIDs_of new |> |>)) →
  settles (ids ← commitAll NewID payloads; k ids) l.
Proof using NewID_inj NewID_ne.
  intros [Ht Hu] Hne Hk Hg Hcont.
  destruct (commitAll_cases NewID payloads l w branch Ht Hne) as (new & r & l1 & Hc & Hcm & E).
  destruct (commit_journal NewID NewID_inj NewID_ne _ _ _ _ _ _ _ Ht Hc Hne Hu Hk) as (Hnew & Hj & Hb & Hu').
  pose proof Hc as (_ & Hp & _). destruct Hcm as [e d' Ha|d' Ha].
  - exists (Err e), (mkLive d' (Lv_ctx l)). split_and!.
    + by eapply bind_Err.
    + eapply (performed_batch _ _ w w new _ (Err e)); [apply Ht|apply Ht|done| | |exact Ha|by rewrite app_nil_r];
        by destruct l.
    + exists w, branch. constructor; [done|]. intros j Hj'. cbn in *.
      apply attempt_fresh in Ha. rewrite Ha in Hj'. cbn in Hj'. apply Hu. lia.
  - destruct (Hcont new (mkLive d' (advance w new (Lv_ctx l))) Hp eq_refl eq_refl) as [r Ek].
    exists r, (mkLive d' (advance w new (Lv_ctx l) <| SC_state := st' |>
                          <| SC_messageIDs := SC_messageIDs (Lv_ctx l) ++ messageIDs_of new |>)).
    split_and!.
    + eapply bind_Ok; [exact E|exact Ek].
    + eapply (performed_batch _ _ w (moved w new) new _ (Ok tt)); [apply Ht|done|done| | |exact Ha|done];
        by destruct l.
    + exists (moved w new), (branch ++ new). constructor.
      * cbn. rewrite (tr_ids _ _ _ Ht). unfold messageIDs_of, messagesOf.
        rewrite <- map_app, <- List.filter_app. by apply (advance_tracks _ _ branch); [..|apply Hg].
      * intros j Hj'. cbn in *. apply attempt_fresh in Ha. rewrite Ha in Hj'. cbn in Hj'. by apply Hu'.
Qed.

(** ** The programs over [commitAll] *)

Lemma settles_eq {A} (m m' : Ctx A) l : m l = m' l → settles m' l → settles m l.
Proof. intros E (r & l' & Em & ?). exists r, l'. by rewrite E. Qed.

Lemma settles_here {A} (f : SessionContext → Ctx A) l : settles (f (Lv_ctx l)) l → settles (s ← here; f s) l.
Proof. by apply settles_eq. Qed.

Lemma commit_bind {A} payloads (k : unit → Ctx A) l :
  (x ← commit NewID payloads; k x) l = (ids ← commitAll NewID payloads; k tt) l.
Proof. unfold commit, mbind, eff_bind. by destruct (commitAll NewID payloads l) as [[]]. Qed.

Lemma commitItem_bind {A} payload (k : string → Ctx A) l :
  (x ← commitItem NewID payload; k x) l =
  (ids ← commitAll NewID [payload];
   match ids with [] => x ← drawCtxID NewID; k x | id :: _ => k id end) l.
Proof. unfold commitItem, mbind, eff_bind. by destruct (commitAll NewID [payload] l) as [[[]|]]. Qed.

Lemma one_payload new p : map It_Payload new = map Some [p] → ∃ it, new = [it] ∧ It_Payload it = Some p.
Proof. destruct new as [|it [|]]; cbn; try done. intros [= E]. eauto. Qed.

Lemma shows_one branch st st' p new :
  shows branch st →
  (∀ it, It_Payload it = Some p → ∃ a, applyItem (branch ++ [it]) (st, answered branch) it = Ok (st', a)) →
  map It_Payload new = map Some [p] → shows (branch ++ new) st'.
Proof. intros Hg Ha (it & -> & Hp)%one_payload. destruct (Ha it Hp) as [a E]. by eapply shows_step. Qed.

(** A method that commits one record that is no message, then sets the state. *)
Lemma commit_state_settles p f l w branch :
  live l w branch → known p → (∀ it, It_Payload it = Some p → isMessage it = false) →
  (∀ it, It_Payload it = Some p →
     ∃ a, applyItem (branch ++ [it]) (SC_state (Lv_ctx l), answered branch) it = Ok (f (SC_state (Lv_ctx l)), a)) →
  settles (x ← commit NewID [p]; setState f) l.
Proof using NewID_inj NewID_ne.
  intros Hl Hk Hm Ha. eapply settles_eq; [apply commit_bind|].
  eapply (commit_settles [p] _ _ _ _ (f (SC_state (Lv_ctx l))) Hl); [done|by repeat constructor| |].
  - intros new Hn. eapply shows_one; [apply Hl|exact Ha|exact Hn].
  - intros new l1 (it & -> & Hp)%one_payload Hs Hi. exists (Ok tt).
    unfold setState, modifyCtx. f_equal. unfold messageIDs_of, messagesOf. cbn. rewrite (Hm _ Hp), <- Hs, <- Hi.
    destruct l1 as [d []]. unfold modify. cbn. by rewrite app_nil_r.
Qed.

(** A method that commits records that change nothing but the turn. *)
Lemma commit_quiet_settles payloads l w branch :
  live l w branch → Forall known payloads →
  (∀ it p, p ∈ payloads → It_Payload it = Some p → quiet it) →
  settles (commit NewID payloads) l.
Proof using NewID_inj NewID_ne.
  intros Hl Hk Hi. destruct payloads as [|p0 ps]; [by eapply (settles_same _ _ _ _ (Ok tt))|].
  assert (Hne : p0 :: ps ≠ []) by done. revert Hne Hk Hi. generalize (p0 :: ps). intros payloads Hne Hk Hi.
  assert (Hin : ∀ new, map It_Payload new = map Some payloads → Forall quiet new).
  { intros new Hn. apply Forall_forall. intros it Hit.
    assert (It_Payload it ∈ map It_Payload new) as Hp by by apply list_elem_of_fmap_2.
    rewrite Hn in Hp. apply list_elem_of_fmap in Hp as (p & E & Hp). by eapply Hi. }
  unfold commit. eapply (commit_settles payloads _ _ _ _ (SC_state (Lv_ctx l)) Hl); [done..| |].
  - intros new Hn%Hin. pose proof (tr_shows _ _ _ (live_tracks _ _ _ Hl)) as Hg.
    clear - Hn Hg. revert branch Hg. induction Hn as [|it new Hit _ IH]; intros branch Hg; [by rewrite app_nil_r|].
    rewrite (cons_middle it branch new), (app_assoc branch [it] new). apply IH.
    destruct (applyItem_quiet (branch ++ [it]) (SC_state (Lv_ctx l)) (answered branch) it Hit) as (st' & E & <-).
    by eapply shows_step.
  - intros new l1 Hn%Hin Hs Hm. exists (Ok tt). unfold mret, eff_ret. f_equal.
    assert (messagesOf new = []) as E.
    { clear - Hn. induction Hn as [|it new Hit _ IH]; [done|]. unfold messagesOf in *. cbn.
      unfold quiet in Hit. unfold isMessage. by destruct (It_Payload it) as [[]|]. }
    unfold messageIDs_of. rewrite E, <- Hs, <- Hm. destruct l1 as [d []]. unfold modify. cbn. by rewrite app_nil_r.
Qed.

(** A method that commits one message. *)
Lemma commit_message_settles p m l w branch :
  live l w branch → known p → (∀ it, It_Payload it = Some p → isMessage it = true) →
  (∀ it, It_Payload it = Some p → ∃ a, applyItem (branch ++ [it]) (SC_state (Lv_ctx l), answered branch) it
     = Ok (SC_state (Lv_ctx l) <| St_Messages := St_Messages (SC_state (Lv_ctx l)) ++ [m] |>, a)) →
  settles (id ← commitItem NewID p; pushMessage id m) l.
Proof using NewID_inj NewID_ne.
  intros Hl Hk Hm Ha. eapply settles_eq; [apply commitItem_bind|].
  eapply (commit_settles [p] _ _ _ _ (SC_state (Lv_ctx l) <| St_Messages := St_Messages (SC_state (Lv_ctx l)) ++ [m] |>) Hl);
    [done|by repeat constructor| |].
  - intros new Hn. eapply shows_one; [apply Hl|exact Ha|exact Hn].
  - intros new l1 (it & -> & Hp)%one_payload Hs Hi. exists (Ok tt). cbn.
    unfold pushMessage, modifyCtx. f_equal. unfold messageIDs_of, messagesOf. cbn. rewrite (Hm _ Hp), <- Hs, <- Hi. done.
Qed.

(** ** Compaction *)

Lemma AddCompaction_settles summary count l w branch :
  live l w branch → settles (AddCompaction NewID summary count) l.
Proof using NewID_inj NewID_ne.
  intros Hl. pose proof (live_tracks _ _ _ Hl) as Ht. unfold AddCompaction. apply settles_here.
  cbv zeta. set (idx := Nat.min _ _).
  destruct (idx =? 0) eqn:E0; [by eapply (settles_same _ _ _ _ (Err _))|]. apply Nat.eqb_neq in E0.
  assert (Hlt : idx - 1 < List.length (SC_messageIDs (Lv_ctx l))) by (subst idx; lia).
  eapply (commit_state_settles _ (λ st, st <| St_CompactionIdx := idx |> <| St_CompactionSummary := summary |>)
            _ _ _ Hl); [done|by intros it; unfold isMessage; intros ->|].
  intros it Hp. unfold applyItem. rewrite Hp.
  rewrite (tr_ids _ _ _ Ht) in Hlt |- *. rewrite length_map in Hlt.
  destruct (lookup_lt_is_Some_2 _ _ Hlt) as [x Hx].
  change (ids (messagesOf branch)) with (It_ID <$> messagesOf branch). rewrite list_lookup_fmap, Hx. cbn.
  assert (Hin : x ∈ branch).
  { apply list_elem_of_lookup_2, list_elem_of_In, filter_In in Hx as [Hx _]. by apply list_elem_of_In. }
  pose proof (tr_journal _ _ _ Ht) as Hj. pose proof (tr_branch _ _ _ Ht) as Hb.
  unfold compactionBoundary. rewrite bool_decide_false.
  2:{ apply (journal_id _ x Hj). eapply path_elem; [by apply (Branch_Ok _ _ _ Hj)|done]. }
  rewrite (boundary_from_app [it] _ _ 0 idx).
  - unfold mbind, res_bind. eauto.
  - rewrite (boundary_message _ 0 (idx - 1) x (Branch_NoDup _ _ _ Hj Hb) Hx). f_equal. lia.
Qed.

(** ** Rewinding *)

Lemma knows_iff w id : knows w id = true ↔ id ∈ ids (L_Items (FW_loaded w)).
Proof.
  unfold knows. rewrite existsb_exists, list_elem_of_fmap. split.
  - intros (it & Hi & E%bool_decide_eq_true). exists it. split; [done|by apply list_elem_of_In].
  - intros (it & -> & Hi). exists it. split; [by apply list_elem_of_In|by apply bool_decide_true].
Qed.

Lemma commitTo_cases parent reason l w branch :
  live l w branch → parent ∈ ids (SC_items (Lv_ctx l)) →
  ∃ hs r l', It_Payload hs = Some (HeadSelected reason) ∧ It_ParentID hs = parent
    ∧ It_ID hs = NewID (D_fresh (Lv_disk l))
    ∧ committed w [hs] (Lv_disk (drawn 1 l)) (Lv_ctx l) r l'
    ∧ commitTo NewID parent (HeadSelected reason) l = (match r with Ok _ => Ok tt | Err e => Err e end, l').
Proof.
  intros [Ht Hu] Hpar.
  set (hs := NewItem (SC_lastSeq (Lv_ctx l) + 1) (NewID (D_fresh (Lv_disk l))) parent (D_now (Lv_disk l))
               (SC_turnID (Lv_ctx l)) (Some (HeadSelected reason))).
  assert (Hc : continues w (FW_lastID w) (FW_lastSeq w) [hs] = Ok (headOf [hs], sessionstore.lastSeq [hs])).
  { cbn. rewrite (tr_lastSeq _ _ _ Ht), bool_decide_true by done. cbn.
    assert (knows w parent = true) as -> by (apply knows_iff; by rewrite (tr_items _ _ _ Ht)).
    by case_bool_decide. }
  destruct (adopting (B := unit) w [hs] (NewID (D_fresh (Lv_disk l))) (SC_lastSeq (Lv_ctx l) + 1)%Z
              (Lv_disk (drawn 1 l)) (Lv_ctx l)) as (r & l' & Hcm & Ea); [done..|].
  exists hs, r, l'. split_and!; [done..|].
  unfold commitTo. eapply bind_Ok; [done|]. rewrite (tr_writer _ _ _ Ht).
  eapply (bind_Ok _ _ l _ (drawn 1 l)).
  { unfold drawCtxID, onDisk, drawID, drawn, modify. cbn. by rewrite Nat.add_1_r. }
  eapply bind_Ok; [done|]. cbv zeta.
  transitivity ((_ ← appendItems w [hs]; (x ← adopt [hs] (NewID (D_fresh (Lv_disk l))) (SC_lastSeq (Lv_ctx l) + 1)%Z; mret x))
                  (drawn 1 l)).
  - unfold mbind, eff_bind. by destruct (appendItems _ _ _) as [[]].
  - etransitivity; [exact (Ea (λ x, mret x))|]. by destruct r as [[]|].
Qed.

(** The branch a rewind leaves: what is kept, and the record of the choice. *)
Lemma rewound s w branch hs kept x rest l0 :
  tracks s w branch → branch = kept ++ x :: rest →
  unused NewID l0 (SC_items s) → It_ID hs = NewID l0 → It_ParentID hs = It_ID x →
  (∃ reason, It_Payload hs = Some (HeadSelected reason)) →
  journal (SC_items s ++ [hs]) ∧ Branch (SC_items s ++ [hs]) (It_ID hs) = Ok (kept ++ [x; hs])
  ∧ Branch (SC_items s) (It_ID x) = Ok (kept ++ [x])
  ∧ ∃ st, grown (kept ++ [x]) (st, answered (kept ++ [x]))
          ∧ grown (kept ++ [x; hs]) (st, answered (kept ++ [x; hs])).
Proof using NewID_inj NewID_ne.
  intros Ht -> Hu Hid Hpar [reason Hpl]. pose proof (tr_journal _ _ _ Ht) as Hj.
  pose proof (proj1 (Branch_Ok _ _ _ Hj) (tr_branch _ _ _ Ht)) as Hp.
  assert (Hx : Branch (SC_items s) (It_ID x) = Ok (kept ++ [x])).
  { apply (Branch_Ok _ _ _ Hj). by eapply path_split. }
  assert (Hxi : x ∈ SC_items s) by (eapply path_elem; [exact Hp|set_solver]).
  assert (Hj' : journal (SC_items s ++ [hs])).
  { constructor; [done|]. unfold extends. rewrite Hid. split_and!; [done|by apply Hu| |].
    - unfold readable. by rewrite Hpl.
    - destruct (SC_items s); [by apply not_elem_of_nil in Hxi|]. rewrite Hpar. by apply list_elem_of_fmap_2. }
  assert (E : kept ++ [x; hs] = (kept ++ [x]) ++ [hs]) by by rewrite <- app_assoc.
  split_and!; [done| |done|].
  - rewrite E. apply Branch_snoc; [done|by rewrite Hpar].
  - pose proof (tr_shows _ _ _ Ht) as (st0 & Hg & _). rewrite cons_middle, app_assoc in Hg.
    apply grown_prefix in Hg as [[st a] Hg]. pose proof (grown_answered _ _ Hg) as Ha. cbn in Ha. subst a.
    exists st. split; [done|]. rewrite E. apply (grown_step _ st hs (st, answered (kept ++ [x]))); [done|].
    apply applyItem_inert. unfold inert. by rewrite Hpl.
Qed.

Definition withBranch (st : State) (branch : list Item) (s : SessionContext) : SessionContext :=
  s <| SC_state := st |> <| SC_messageIDs := ids (messagesOf branch) |>.

(** A rewind is refused, or tries one record; with it the session is on the kept
    branch, as a full replay reads it. *)
Lemma Rewind_cases messageID l w branch :
  live l w branch →
  (∃ e, Rewind NewID messageID l = (Err e, l))
  ∨ ∃ land out kept x rest m post hs st r l1,
      RewindLanding (SC_items (Lv_ctx l)) (SC_head (Lv_ctx l)) messageID = Ok land
      ∧ Abandoned (SC_items (Lv_ctx l)) (SC_head (Lv_ctx l)) land = Ok (RO_Abandoned out)
      ∧ branch = kept ++ x :: rest ++ m :: post ∧ It_ID x = land ∧ It_ID m = messageID
      ∧ It_ID hs = NewID (D_fresh (Lv_disk l)) ∧ It_ParentID hs = land
      ∧ It_Payload hs = Some (HeadSelected "user_rewind")
      ∧ grown (kept ++ [x]) (st, answered (kept ++ [x]))
      ∧ committed w [hs] (Lv_disk (drawn 1 l)) (Lv_ctx l) r l1
      ∧ Rewind NewID messageID l
        = match r with
          | Ok _ => (Ok out, l1 <| Lv_ctx := withBranch st (kept ++ [x; hs]) (Lv_ctx l1) |>)
          | Err e => (Err e, l1)
          end.
Proof using NewID_inj NewID_ne.
  intros Hl. pose proof Hl as [Ht Hu]. pose proof (tr_journal _ _ _ Ht) as Hj.
  destruct (RewindLanding (SC_items (Lv_ctx l)) (SC_head (Lv_ctx l)) messageID) as [land|e] eqn:El.
  2:{ left. exists e. unfold Rewind. eapply bind_Ok; [done|]. unfold Persisted. rewrite (tr_writer _ _ _ Ht). cbn.
      by rewrite El. }
  destruct (Abandoned (SC_items (Lv_ctx l)) (SC_head (Lv_ctx l)) land) as [a|e] eqn:Ea.
  2:{ left. exists e. unfold Rewind. eapply bind_Ok; [done|]. unfold Persisted. rewrite (tr_writer _ _ _ Ht). cbn.
      rewrite El. eapply bind_Ok; [done|]. by rewrite Ea. }
  destruct (RewindLanding_Ok _ _ _ _ Hj El) as (kept & x & turns & m & post & Hb & Hx & _ & _ & Hm & _).
  rewrite (tr_branch _ _ _ Ht) in Hb. injection Hb as Hb.
  assert (Hland : land ∈ ids (SC_items (Lv_ctx l))).
  { rewrite <- Hx. apply list_elem_of_fmap_2. eapply path_elem; [apply (Branch_Ok _ _ _ Hj), Ht|rewrite Hb; set_solver]. }
  destruct (commitTo_cases land "user_rewind" l w branch Hl Hland) as (hs & r & l1 & Hpl & Hpar & Hid & Hcm & E).
  destruct (rewound _ _ _ hs kept x (turns ++ m :: post) _ Ht Hb Hu Hid) as (Hj' & Hb' & _ & st & Hg & Hg');
    [congruence|eauto|].
  right. exists land, (match messageAt (Lv_ctx l) messageID with
                       | Some msg => mkRewindOutcome a (llm.Msg_Content msg) (List.length (llm.Images msg))
                       | None => mkRewindOutcome a "" 0
                       end), kept, x, turns, m, post, hs, st, r, l1.
  split_and!; try done; [by destruct (messageAt _ _)|].
  unfold Rewind. eapply bind_Ok; [done|]. unfold Persisted. rewrite (tr_writer _ _ _ Ht). cbn [negb].
  eapply bind_Ok; [unfold lift; by rewrite El|]. eapply bind_Ok; [unfold lift; by rewrite Ea|]. cbv zeta.
  destruct Hcm as [e d' Ha|d' Ha]; [by eapply bind_Err|]. eapply bind_Ok; [exact E|].
  eapply (bind_Ok _ _ _ tt); [|reflexivity].
  unfold reduceFromHead. eapply bind_Ok; [done|].
  eapply bind_Ok.
  { unfold lift. cbn. unfold headOf. cbn. apply grown_replayed in Hg'.
    rewrite (reduced_Reduce _ _ st (answered (kept ++ [x; hs]))); [done|]. eexists. by split. }
  unfold modifyCtx, withBranch, messageIDsOnBranch. cbn. unfold headOf. cbn. by rewrite Hb'.
Qed.

Lemma Rewind_settles messageID l w branch :
  live l w branch → settles (_ ← Rewind NewID messageID; mret tt) l.
Proof using NewID_inj NewID_ne.
  intros Hl. pose proof Hl as [Ht Hu].
  destruct (Rewind_cases messageID l w branch Hl)
    as [[e E]|(land & out & kept & x & rest & m & post & hs & st & r & l1 & El & _ & Hb & Hx & Hm & Hid & Hpar & Hpl & Hg & Hcm & E)].
  - eapply (settles_same _ _ _ _ (Err e) Hl). by eapply bind_Err.
  - destruct (rewound _ _ _ hs kept x (rest ++ m :: post) _ Ht Hb Hu Hid) as (Hj' & Hb' & _ & st' & Hg1 & Hg');
      [congruence|eauto|].
    assert (st' = st) as ->.
    { apply grown_replayed in Hg1, Hg. unfold replayed in *. rewrite Hg in Hg1. by injection Hg1. }
    destruct Hcm as [e d' Ha|d' Ha].
    + exists (Err e), (mkLive d' (Lv_ctx l)). split_and!; [by eapply bind_Err| |].
      * eapply (performed_batch _ _ w w [hs] _ (Err e)); [apply Ht|apply Ht|done| | |exact Ha|by rewrite app_nil_r];
          by destruct l.
      * exists w, branch. constructor; [done|]. intros j Hj. cbn in *.
        apply attempt_fresh in Ha. rewrite Ha in Hj. cbn in Hj. apply Hu. lia.
    + eexists (Ok tt), _. split_and!; [by eapply bind_Ok; [exact E|done]| |].
      * eapply (performed_batch _ _ w (moved w [hs]) [hs] _ (Ok tt)); [apply Ht|done|done| | |exact Ha|done];
          by destruct l.
      * exists (moved w [hs]), (kept ++ [x; hs]). constructor.
        -- apply (advance_tracks _ _ branch); [done..|]. by exists st.
        -- intros j Hj. cbn in *. apply attempt_fresh in Ha. rewrite Ha in Hj. cbn in Hj.
           rewrite map_app, elem_of_app. intros [Hin|Hin%list_elem_of_singleton]; [by eapply Hu; [|done]; lia|].
           rewrite Hid in Hin. apply NewID_inj in Hin. lia.
Qed.

(** ** Turns *)

Lemma live_turn l w branch turn :
  live l w branch → live (l <| Lv_ctx := Lv_ctx l <| SC_turnID := turn |> |>) w branch.
Proof. intros [Ht Hu]. constructor; [by apply tracks_turn|done]. Qed.

Lemma performed_turn l l' t t' :
  performed (l <| Lv_ctx := Lv_ctx l <| SC_turnID := t |> |>) l' →
  performed l (l' <| Lv_ctx := Lv_ctx l' <| SC_turnID := t' |> |>).
Proof. intros [? ? ? ?|w w' new d r ? ? ? ? ? ? ?]; [by apply performed_nothing|by eapply performed_batch]. Qed.

Lemma same_turn l : l <| Lv_ctx := Lv_ctx l <| SC_turnID := SC_turnID (Lv_ctx l) |> |> = l.
Proof. by destruct l as [? []]. Qed.

Lemma BeginTurn_settles runID model ws window kind l w branch :
  live l w branch → settles (BeginTurn NewID runID model ws window kind) l.
Proof using NewID_inj NewID_ne.
  intros Hl.
  destruct (commit_quiet_settles [TurnStarted runID model ws window kind] _ w branch (live_turn _ _ _ runID Hl))
    as (r & l' & E & Hp & Hlive); [by repeat constructor|by intros it p ->%list_elem_of_singleton; unfold quiet; intros ->|].
  exists r, l'. split_and!; [by eapply bind_Ok| |done].
  apply (performed_turn _ _ _ (SC_turnID (Lv_ctx l'))) in Hp. by rewrite same_turn in Hp.
Qed.

Lemma FinishTurn_settles status errorClass l w branch :
  live l w branch → settles (FinishTurn NewID status errorClass) l.
Proof using NewID_inj NewID_ne.
  intros Hl. unfold FinishTurn. apply settles_here.
  case_bool_decide; [by eapply (settles_same _ _ _ _ (Ok tt))|].
  destruct (commit_quiet_settles [TurnFinished status errorClass] _ w branch Hl)
    as (r & l' & E & Hp & w' & br & Hlive); [by repeat constructor|by intros it p ->%list_elem_of_singleton; unfold quiet; intros ->|].
  exists r, (l' <| Lv_ctx := Lv_ctx l' <| SC_turnID := ""%string |> |>). split_and!.
  - destruct r as [[]|e].
    + eapply (bind_Ok _ _ l None l'); [|by eapply bind_Ok].
      unfold catch. by erewrite (bind_Ok _ _ _ _ _ _ E eq_refl).
    + eapply (bind_Ok _ _ l (Some e) l'); [|by eapply bind_Ok].
      unfold catch. by erewrite (bind_Err _ _ _ _ _ E).
  - eapply performed_turn. by rewrite same_turn.
  - exists w', br. by apply live_turn.
Qed.

(** ** Any sequence of methods *)

Inductive command : Type :=
| DoSetAdditionalPrompt (text : string)
| DoAppend (m : llm.Message)
| DoToolExecutionStarted (calls : list agent.ToolCallStart)
| DoAppendToolResult (out : agent.ToolOutcome)
| DoAddCompaction (summary : string) (count : nat)
| DoSetNotes (notes : list agent.Note) (iter : Z)
| DoSetTodos (todos : list agent.Todo) (iter : Z)
| DoBeginTurn (runID model workspace : string) (window : Z) (kind : string)
| DoFinishTurn (status errorClass : string)
| DoRewind (messageID : string).

Definition perform (c : command) : Ctx unit :=
  match c with
  | DoSetAdditionalPrompt text => SetAdditionalPrompt NewID text
  | DoAppend m => Append NewID m
  | DoToolExecutionStarted calls => agentapp.ToolExecutionStarted NewID calls
  | DoAppendToolResult out => AppendToolResult NewID out
  | DoAddCompaction summary count => AddCompaction NewID summary count
  | DoSetNotes notes iter => SetNotes NewID notes iter
  | DoSetTodos todos iter => SetTodos NewID todos iter
  | DoBeginTurn runID model ws window kind => BeginTurn NewID runID model ws window kind
  | DoFinishTurn status errorClass => FinishTurn NewID status errorClass
  | DoRewind messageID => _ ← Rewind NewID messageID; mret tt
  end.

(** The calls the session's branch has results for. *)
Definition answeredCalls (s : SessionContext) : gset string :=
  match Branch (SC_items s) (SC_head s) with Ok branch => answered branch | Err _ => ∅ end.

(** A call is answered once. *)
Definition admissible (c : command) (s : SessionContext) : Prop :=
  match c with DoAppendToolResult out => agent.Out_ID out ∉ answeredCalls s | _ => True end.

Lemma perform_settles c l w branch :
  live l w branch → admissible c (Lv_ctx l) → settles (perform c) l.
Proof using NewID_inj NewID_ne.
  intros Hl Hc. destruct c; cbn [perform].
  - unfold SetAdditionalPrompt. apply settles_here.
    case_bool_decide; [by eapply (settles_same _ _ _ _ (Ok tt))|].
    eapply (commit_state_settles _ (λ st, st <| St_AdditionalPrompt := text |>)); [done..| |];
      intros it Hp; unfold isMessage, applyItem; rewrite Hp; eauto.
  - eapply commit_message_settles; [done..| |]; intros it Hp; unfold isMessage, applyItem; rewrite Hp; eauto.
  - eapply commit_quiet_settles; [done| |].
    + apply Forall_map. by apply Forall_forall.
    + intros it p (call & -> & _)%list_elem_of_fmap. unfold quiet. by intros ->.
  - eapply commit_message_settles; [done..| |]; intros it Hp; unfold isMessage, applyItem; rewrite Hp; [done|].
    cbn in Hc. unfold answeredCalls in Hc. rewrite (tr_branch _ _ _ (live_tracks _ _ _ Hl)) in Hc.
    rewrite decide_False by done. eauto.
  - by eapply AddCompaction_settles.
  - unfold SetNotes. apply settles_here.
    eapply (commit_state_settles _ (λ st, st <| St_Notes := _ |>)); [done..| |];
      intros it Hp; unfold isMessage, applyItem; rewrite Hp; eauto.
  - unfold SetTodos. apply settles_here.
    eapply (commit_state_settles _ (λ st, st <| St_Todos := _ |>)); [done..| |];
      intros it Hp; unfold isMessage, applyItem; rewrite Hp; eauto.
  - by eapply BeginTurn_settles.
  - by eapply FinishTurn_settles.
  - by eapply Rewind_settles.
Qed.

Fixpoint performAll (cs : list command) (l : Live) : Live :=
  match cs with [] => l | c :: cs => performAll cs (perform c l).2 end.

Fixpoint admissibleAll (cs : list command) (l : Live) : Prop :=
  match cs with
  | [] => True
  | c :: cs => admissible c (Lv_ctx l) ∧ admissibleAll cs (perform c l).2
  end.

Lemma performAll_live cs : ∀ l w branch,
  live l w branch → admissibleAll cs l → ∃ w' branch', live (performAll cs l) w' branch'.
Proof using NewID_inj NewID_ne.
  induction cs as [|c cs IH]; intros l w branch Hl; cbn; [eauto|]. intros [Hc Hcs].
  destruct (perform_settles c l w branch Hl Hc) as (r & l' & E & _ & w' & br & Hl').
  rewrite E in *. by eapply IH.
Qed.
End Refines.
