(* ===== verification/SessionOpen.v ===== *)
(** * SessionOpen: what opening a session finds

    A disk that holds a journal, with or without a torn tail, opens to the state
    the journal reduces to; calls that an interrupted turn left uncertain are
    answered once, in the journal, before anyone sees them. *)

From Stdlib Require Import Ascii String.
From S2P Require Import Prelude Text SessionCore SessionBranch SessionRewind Pricing SessionMeta SessionJournal SessionStore SessionContext JournalText SessionCommit SessionRefines.
From stdpp Require Import gmap strings.
Import Prelude.
Import session journal sessionstore agentapp.

Section Open.
Context `{CodecLaws}.

(** ** What the disk holds of a session *)

Definition holds (d : Disk) (dir : string) (mf : option MetaFile) (lock : bool) (h : Header)
    (items : list Item) (tail : string) : Prop :=
  D_bundles d !! dir = Some (mkBundle mf (Some (journalText h items +:+ tail)%string) lock).

Lemma appended_holds d dir mf lock h items tail txt :
  holds d dir mf lock h items tail → holds (appended dir txt d) dir mf lock h items (tail +:+ txt).
Proof.
  unfold holds, appended, modify. cbn. intros E. rewrite lookup_alter_eq, E. cbn. unfold modify. cbn.
  by rewrite append_assoc.
Qed.

Lemma holds_writes d ws dir mf lock h items tail :
  holds (d <| D_writes := ws |>) dir mf lock h items tail ↔ holds d dir mf lock h items tail.
Proof. done. Qed.

Lemma holds_app d dir mf lock h items new :
  holds d dir mf lock h items (text (map lineOf new)) → holds d dir mf lock h (items ++ new) "".
Proof. unfold holds. intros ->. by rewrite journalText_app, append_nil_r. Qed.

(** A write that is cut short leaves some of the new records, and the start of
    the next one. *)
Lemma attempt_holds d dir mf lock h items new r d' :
  holds d dir mf lock h items "" → Forall exact new → attempt dir new d r d' →
  match r with
  | Ok _ => holds d' dir mf lock h (items ++ new) ""
  | Err _ => ∃ k p, oneLine p ∧ holds d' dir mf lock h (items ++ take k new) p
  end.
Proof.
  intros Hd He [e E|txt r' d1 E Ha]; [by rewrite encodeItems_text in E|].
  rewrite encodeItems_text in E by done. injection E as <-.
  destruct Ha as [ws _|n ws _].
  - apply holds_app. by apply (appended_holds _ _ _ _ _ _ ""), holds_writes.
  - destruct (text_prefix _ n (lines_oneLine _ He)) as (k & p & E & Hp & _). exists k, p. split; [done|].
    pose proof (appended_holds _ _ _ _ _ _ "" (String.substring 0 n (text (map lineOf new))) (proj2 (holds_writes d ws _ _ _ _ _ _) Hd)) as Hh.
    cbn in Hh. rewrite E in Hh |- *. unfold holds in *. rewrite Hh. rewrite firstn_map, journalText_app.
    by rewrite append_assoc.
Qed.

(** A method whose write, if any, succeeds keeps the disk holding the session. *)
Lemma performed_holds l l' w dir mf lock h :
  performed l l' → SC_writer (Lv_ctx l) = Some w → FW_dir w = dir → D_writes (Lv_disk l) = [] →
  holds (Lv_disk l) dir mf lock h (SC_items (Lv_ctx l)) "" → Forall exact (SC_items (Lv_ctx l')) →
  D_writes (Lv_disk l') = [] ∧ holds (Lv_disk l') dir mf lock h (SC_items (Lv_ctx l')) ""
  ∧ ∃ w', SC_writer (Lv_ctx l') = Some w' ∧ FW_dir w' = dir.
Proof.
  intros [Hb Hi Hw Hws|w0 w' new d r Hw Hw' Hd Hb Hws Ha Hi] Hwr Hdir Hnil Hh He.
  - unfold holds in *. rewrite Hb, Hi, Hws, Hw. eauto.
  - rewrite Hw in Hwr. injection Hwr as ->. rewrite Hdir in *.
    assert (Hh' : holds d dir mf lock h (SC_items (Lv_ctx l)) "") by (unfold holds in *; by rewrite Hb).
    destruct Ha as [e E|txt r' d1 E Ha].
    + cbn in Hi. rewrite app_nil_r in Hi. rewrite Hi, Hws. eauto.
    + destruct Ha as [ws Hws'|n ws Hws']; [|congruence]. cbn in Hi. rewrite Hi in *.
      apply Forall_app in He as [_ He].
      split_and!; [cbn; destruct Hws' as [[? ?]|?]; congruence| |eauto].
      eapply (attempt_holds d dir mf lock h _ new (Ok tt)); [done..|].
      econstructor; [done|by constructor].
Qed.

Lemma performed_grows l l' : performed l l' → ∃ new, SC_items (Lv_ctx l') = SC_items (Lv_ctx l) ++ new.
Proof. intros [_ -> _ _|? ? ? ? ? _ _ _ _ _ _ ->]; [exists []; by rewrite app_nil_r|eauto]. Qed.

Lemma performAll_grows (NewID : nat → string) cs : Inj eq eq NewID → (∀ k, NewID k ≠ ""%string) → ∀ l w branch,
  live NewID l w branch → admissibleAll NewID cs l →
  ∃ new, SC_items (Lv_ctx (performAll NewID cs l)) = SC_items (Lv_ctx l) ++ new.
Proof.
  intros Hinj Hne. induction cs as [|c cs IH]; intros l w branch Hl; cbn; [exists []; by rewrite app_nil_r|].
  intros [Hc Hcs]. destruct (perform_settles NewID Hinj Hne c l w branch Hl Hc) as (r & l' & E & Hp & w' & br & Hl').
  rewrite E in *. cbn in *. destruct (performed_grows _ _ Hp) as [n1 E1]. destruct (IH _ _ _ Hl' Hcs) as [n2 E2].
  exists (n1 ++ n2). by rewrite E2, E1, app_assoc.
Qed.

Lemma performAll_holds (NewID : nat → string) cs : Inj eq eq NewID → (∀ k, NewID k ≠ ""%string) →
  ∀ l w branch dir mf lock h,
  live NewID l w branch → admissibleAll NewID cs l → FW_dir w = dir → D_writes (Lv_disk l) = [] →
  holds (Lv_disk l) dir mf lock h (SC_items (Lv_ctx l)) "" → Forall exact (SC_items (Lv_ctx (performAll NewID cs l))) →
  D_writes (Lv_disk (performAll NewID cs l)) = []
  ∧ holds (Lv_disk (performAll NewID cs l)) dir mf lock h (SC_items (Lv_ctx (performAll NewID cs l))) ""
  ∧ ∃ w' branch', live NewID (performAll NewID cs l) w' branch' ∧ FW_dir w' = dir.
Proof.
  intros Hinj Hne. induction cs as [|c cs IH]; intros l w branch dir mf lock h Hl; cbn; [eauto 7|].
  intros [Hc Hcs] Hdir Hws Hh He.
  destruct (perform_settles NewID Hinj Hne c l w branch Hl Hc) as (r & l' & E & Hp & w' & br & Hl').
  rewrite E in *. cbn in *.
  assert (He' : Forall exact (SC_items (Lv_ctx l'))).
  { destruct (performAll_grows NewID cs Hinj Hne _ _ _ Hl' Hcs) as [n1 E1]. rewrite E1 in He. by apply Forall_app in He as [? _]. }
  destruct (performed_holds _ _ _ _ _ _ _ Hp (tr_writer _ _ _ (live_tracks _ _ _ _ Hl)) Hdir Hws Hh He')
    as (Hws' & Hh' & w1 & Hw1 & Hd1).
  eapply (IH l' w' br); try done.
  rewrite (tr_writer _ _ _ (live_tracks _ _ _ _ Hl')) in Hw1. by injection Hw1 as ->.
Qed.

(** ** Opening *)

Context (range : gmap string string → list (string * string)).
Context (range_perm : ∀ m, range m ≡ₚ map_to_list m).

Notation found := (found range).

Lemma deriveLoaded_eq m items branch st :
  Branch items (headOf items) = Ok branch → grown branch (st, answered branch) →
  deriveLoaded range m items = Ok (mkLoaded m (headOf items) items st (found branch)).
Proof.
  intros Hb Hg. unfold deriveLoaded. destruct items as [|i0 items].
  - cbn in Hb. unfold Branch in Hb. cbn in Hb. injection Hb as <-.
    inversion Hg as [E|b x y z H1 H2 E]; [done|by destruct (app_cons_not_nil b [] x)].
  - unfold session.Head, headOf in *. destruct (last (i0 :: items)) as [x|] eqn:El; [|by apply last_None in El].
    unfold mbind, res_bind. rewrite (reduced_Reduce _ _ st (answered branch))
      by (exists branch; split; [done|by apply grown_replayed]).
    by rewrite (Analyze_found _ _ _ _ Hb).
Qed.

(** A closed session on a disk whose writes succeed. *)
Record resumable (d : Disk) (id : string) (m : meta.Meta) (h : Header) (items : list Item)
    (tail : string) (branch : list Item) (st : State) : Prop := {
  re_writes : D_writes d = [];
  re_holds : holds d (sessionDir id) (Some (Valid m)) false h items tail;
  re_tail : oneLine tail;
  re_meta : meta.Meta_Validate m = Ok tt;
  re_header : readableHeader h;
  re_id : Hdr_SessionID h = id;
  re_journal : journal items;
  re_exact : Forall exact items;
  re_branch : Branch items (headOf items) = Ok branch;
  re_grown : grown branch (st, answered branch);
}.

(** The disk once the session is locked and its tail is cut. *)
Definition opened (d : Disk) (dir : string) (m : meta.Meta) (h : Header) (items : list Item) : Disk :=
  d <| D_bundles := <[dir := mkBundle (Some (Valid m)) (Some (journalText h items)) true]> (D_bundles d) |>.

Lemma opened_holds d dir m h items : holds (opened d dir m h items) dir (Some (Valid m)) true h items "".
Proof. unfold holds, opened. cbn. by rewrite lookup_insert_eq, append_nil_r. Qed.

Lemma Open_eq NewID d id m h items tail branch st :
  resumable d id m h items tail branch st →
  Open range NewID id d =
    orRelease (sessionDir id)
      (x ← openBranch range NewID (sessionDir id) m items;
       mret (mkfileWriter (sessionDir id) x.1 (L_Head x.1) x.2)) (opened d (sessionDir id) m h items).
Proof.
  intros []. unfold Open. unfold holds in re_holds0.
  set (dir := sessionDir id) in *.
  set (d1 := d <| D_bundles := <[dir := mkBundle (Some (Valid m)) (Some (journalText h items +:+ tail)%string) true]> (D_bundles d) |>).
  assert (Hb1 : bundle dir d1 = mkBundle (Some (Valid m)) (Some (journalText h items +:+ tail)%string) true)
    by (unfold bundle, d1, modify; cbn; by rewrite lookup_insert_eq).
  eapply (bind_Ok _ _ d tt d1).
  { unfold AcquireWriter. eapply bind_Ok; [done|]. unfold bundle. rewrite re_holds0. cbn.
    unfold setBundle, bundle. by rewrite re_holds0. }
  unfold orRelease, catch.
  match goal with |- match ?a with _ => _ end = match ?b with _ => _ end => assert (a = b) as ->; [|done] end.
  eapply (bind_Ok _ _ d1 m d1).
  { assert (ReadMeta dir d1 = (Ok m, d1)) as E.
    { unfold ReadMeta. eapply bind_Ok; [done|]. rewrite Hb1. cbn [B_meta].
      eapply bind_Ok; [unfold lift; by rewrite re_meta0|done]. }
    unfold metaOrDefault, catch. fold dir. by rewrite E. }
  eapply (bind_Ok _ _ d1 (mkContents h items (if tail != ""%string then String.length (journalText h items) else 0))
            (opened d dir m h items)).
  { unfold OpenAppend, readJournal. eapply bind_Ok; [done|]. rewrite Hb1. cbn [B_journal].
    rewrite (readText_journal _ _ _ true) by done. cbn [C_Truncated andb].
    case_bool_decide as Ht; cbn [negb].
    - subst tail. cbn. unfold mret, eff_ret. f_equal. unfold opened, d1. by rewrite append_nil_r.
    - assert (String.length (journalText h items) =? 0 = false) as ->.
      { apply Nat.eqb_neq. unfold journalText. cbn. unfold terminated. rewrite !length_append. cbn. lia. }
      eapply (bind_Ok _ _ d1 tt (opened d dir m h items)); [|reflexivity].
      eapply (bind_Ok _ _ d1 None d1).
      { unfold nextOutcome. change (D_writes d1) with (D_writes d). by rewrite re_writes0. }
      unfold setBundle. rewrite Hb1. rewrite (truncated_journal h items tail) by done.
      unfold opened, d1, modify. cbn [D_bundles]. by rewrite insert_insert_eq. }
  eapply (bind_Ok _ _ _ tt); [|reflexivity].
  unfold lift, checkHeaderMatchesDir. cbn. rewrite re_id0. case_bool_decide; cbn; [done|]. by rewrite bool_decide_true.
Qed.

(** ** A branch with nothing uncertain *)

Context (NewID : nat → string) (NewID_inj : Inj eq eq NewID) (NewID_ne : ∀ k, NewID k ≠ ""%string).

Lemma orRelease_Ok {A} dir (m : FS A) d a d' : m d = (Ok a, d') → orRelease dir m d = (Ok a, d').
Proof. unfold orRelease, catch. by intros ->. Qed.

Lemma Open_clean d id m h items tail branch st :
  resumable d id m h items tail branch st → Rec_Uncertain (found branch) = [] →
  Open range NewID id d =
    (Ok (mkfileWriter (sessionDir id) (mkLoaded m (headOf items) items st (found branch)) (headOf items)
           (sessionstore.lastSeq items)), opened d (sessionDir id) m h items).
Proof.
  intros Hr Hu. rewrite (Open_eq _ _ _ _ _ _ _ _ _ Hr). apply orRelease_Ok.
  eapply (bind_Ok _ _ _ (mkLoaded m (headOf items) items st (found branch), sessionstore.lastSeq items)); [|done].
  unfold openBranch. eapply bind_Ok.
  { unfold lift. by rewrite (deriveLoaded_eq _ _ _ _ (re_branch _ _ _ _ _ _ _ _ Hr) (re_grown _ _ _ _ _ _ _ _ Hr)). }
  cbv zeta. cbn [L_Recovery]. by rewrite Hu.
Qed.

(** The session a writer opens to tracks what the writer loaded. *)
Lemma newWriterContext_live d dir m items branch st st' rec_ lastSeq_ dm :
  journal items → Branch items (headOf items) = Ok branch → grown branch (st, answered branch) → st ≡ st' →
  lastSeq_ = sessionstore.lastSeq items → unused NewID (D_fresh d) items →
  let w := mkfileWriter dir (mkLoaded m (headOf items) items st' rec_) (headOf items) lastSeq_ in
  live NewID (mkLive d (newWriterContext w dm)) w branch.
Proof.
  intros Hj Hb Hg E -> Hu w. constructor; [|done]. constructor; try done.
  - by exists st.
  - cbn. unfold messageIDsOnBranch. by rewrite Hb.
Qed.

(** ** Repairing an interrupted turn *)

(** The records recovery writes: the turn, then a result per uncertain call. *)
Definition repairs (rec_ : Recovery) : list Payload :=
  TurnRecovered (Rec_TurnID rec_) (map TO_ToolCallID (Rec_Uncertain rec_))
  :: map (λ u, ToolResult (TO_ToolCallID u) ToolStatusUnknown "" []) (Rec_Uncertain rec_).

Definition drewIDs (n : nat) (d : Disk) : Disk := d <| D_fresh := D_fresh d + n |>.

Lemma drewIDs_S n d : drewIDs n (drewIDs 1 d) = drewIDs (S n) d.
Proof. unfold drewIDs, modify. cbn. by rewrite <- Nat.add_assoc. Qed.

Lemma drawID_eq d : drawID NewID d = (Ok (NewID (D_fresh d)), drewIDs 1 d).
Proof. unfold drawID, drewIDs, modify. cbn. by rewrite Nat.add_1_r. Qed.

Lemma unknownResults_eq turnID ts calls : ∀ parent seq d,
  ∃ new, unknownResults NewID turnID parent seq ts calls d = (Ok new, drewIDs (List.length calls) d)
    ∧ chain NewID turnID parent seq (map (λ u, ToolResult (TO_ToolCallID u) ToolStatusUnknown "" []) calls)
        (D_fresh d) new.
Proof.
  induction calls as [|u calls IH]; intros parent seq d.
  - exists []. split; [|by repeat constructor]. cbn. unfold mret, eff_ret, drewIDs. destruct d. unfold modify. cbn.
    by rewrite Nat.add_0_r.
  - destruct (IH (NewID (D_fresh d)) (seq + 1)%Z (drewIDs 1 d)) as (new & E & Hl & Hp & Hi & Hr).
    eexists. split.
    + eapply (bind_Ok _ _ d _ (drewIDs 1 d)); [apply drawID_eq|]. cbv zeta.
      eapply bind_Ok; [exact E|]. unfold mret, eff_ret. by rewrite drewIDs_S.
    + replace (D_fresh (drewIDs 1 d)) with (S (D_fresh d)) in Hi by (unfold drewIDs, modify; cbn; lia).
      unfold chain. cbn. rewrite length_map in Hi |- *. rewrite Hp, Hi. split_and!; try done. by constructor.
Qed.

Lemma buildRecoveryItems_eq rec_ parent seq ts d :
  ∃ new, buildRecoveryItems NewID rec_ parent seq ts d = (Ok new, drewIDs (List.length (repairs rec_)) d)
    ∧ chain NewID (Rec_TurnID rec_) parent seq (repairs rec_) (D_fresh d) new.
Proof.
  destruct (unknownResults_eq (Rec_TurnID rec_) ts (Rec_Uncertain rec_) (NewID (D_fresh d)) (seq + 1)%Z (drewIDs 1 d))
    as (new & E & Hl & Hp & Hi & Hr).
  eexists. split.
  - eapply (bind_Ok _ _ d _ (drewIDs 1 d)); [apply drawID_eq|]. cbv zeta.
    eapply bind_Ok; [exact E|]. unfold mret, eff_ret. rewrite drewIDs_S. unfold repairs. cbn. by rewrite length_map.
  - replace (D_fresh (drewIDs 1 d)) with (S (D_fresh d)) in Hi by (unfold drewIDs, modify; cbn; lia).
    unfold chain, repairs. cbn. rewrite Hp, Hi. split_and!; try done. by constructor.
Qed.

(** The state with a message for each uncertain call. *)
Definition repaired (st : State) (calls : list ToolCallOutcome) : State :=
  st <| St_Messages := St_Messages st ++ map (λ u, toolMessage (TO_ToolCallID u) "" []) calls |>.

Lemma grown_results calls : ∀ branch st new,
  grown branch (st, answered branch) → NoDup (callIDs calls) →
  (∀ id, id ∈ callIDs calls → id ∉ answered branch) →
  map It_Payload new = map Some (map (λ u, ToolResult (TO_ToolCallID u) ToolStatusUnknown "" []) calls) →
  grown (branch ++ new) (repaired st calls, answered (branch ++ new)).
Proof.
  induction calls as [|u calls IH]; intros branch st new Hg; cbn.
  - intros _ _ Hn. destruct new; [|done]. unfold repaired. cbn. rewrite !app_nil_r. by destruct st.
  - destruct new as [|it new]; [done|]. intros [Hu Hn]%NoDup_cons Ha [= Hp Hps].
    assert (Hg' : grown (branch ++ [it])
              (st <| St_Messages := St_Messages st ++ [toolMessage (TO_ToolCallID u) "" []] |>, answered (branch ++ [it]))).
    { refine (grown_step branch st it (_, {[TO_ToolCallID u]} ∪ answered branch) Hg _).
      unfold applyItem. rewrite Hp. rewrite decide_False; [done|]. apply Ha. by left. }
    rewrite (cons_middle it branch new), (app_assoc branch [it] new).
    assert (E : repaired st (u :: calls)
              = repaired (st <| St_Messages := St_Messages st ++ [toolMessage (TO_ToolCallID u) "" []] |>) calls)
      by (unfold repaired, modify; cbn; by rewrite <- app_assoc).
    rewrite E. apply IH; [done..| |done]. intros id Hid. rewrite answered_snoc. unfold resultID. rewrite Hp.
    rewrite elem_of_union, elem_of_singleton. intros [->|Hin]; [done|]. apply (Ha id); [by right|done].
Qed.

Lemma grown_repairs branch st rec_ new :
  grown branch (st, answered branch) → NoDup (callIDs (Rec_Uncertain rec_)) →
  (∀ id, id ∈ callIDs (Rec_Uncertain rec_) → id ∉ answered branch) →
  map It_Payload new = map Some (repairs rec_) →
  grown (branch ++ new) (repaired st (Rec_Uncertain rec_), answered (branch ++ new)).
Proof.
  intros Hg Hn Ha. destruct new as [|it new]; [done|]. intros [= Hp Hps].
  rewrite (cons_middle it branch new), (app_assoc branch [it] new).
  assert (answered (branch ++ [it]) = answered branch) as Ea by (rewrite answered_snoc; unfold resultID; by rewrite Hp).
  apply grown_results; [|done|by rewrite Ea|done].
  refine (grown_step branch st it (_, answered branch) Hg _). apply applyItem_inert. unfold inert. by rewrite Hp.
Qed.

(** After the repairs no call of the branch is uncertain. *)
Lemma found_repaired branch new :
  map It_Payload new = map Some (repairs (found branch)) → Rec_Uncertain (found branch) ≠ [] →
  Rec_Uncertain (found (branch ++ new)) = [] ∧ Rec_TurnID (found (branch ++ new)) = Rec_TurnID (found branch).
Proof.
  intros Hp Hne. destruct (found_spec range range_perm branch) as ([[runID work]|] & Ho & Hf).
  2:{ by rewrite Hf in Hne. }
  destruct Hf as (Ht & Hu & _).
  assert (Hedge : Forall (λ x, turnEdge x = false) new).
  { apply Forall_forall. intros it Hit. assert (It_Payload it ∈ map It_Payload new) as Hpl by by apply list_elem_of_fmap_2.
    rewrite Hp in Hpl. unfold repairs in Hpl. cbn in Hpl. unfold turnEdge.
    apply elem_of_cons in Hpl as [->|Hpl]; [done|].
    rewrite map_map in Hpl. by apply list_elem_of_fmap in Hpl as (u & -> & _). }
  assert (Ho' : openWork (branch ++ new) (Some (runID, work ++ new))).
  { destruct Ho as (pre & x & m & w & c & k & -> & Hx & Hw). exists pre, x, m, w, c, k.
    split_and!; [by rewrite <- app_assoc|done|by apply Forall_app]. }
  destruct (found_spec range range_perm (branch ++ new)) as (turn & Hot & Hf').
  rewrite (openWork_unique _ _ _ Hot Ho') in Hf'. destruct Hf' as (Ht' & Hu' & _).
  split; [|congruence]. destruct (Rec_Uncertain (found (branch ++ new))) as [|c cs]; [done|]. exfalso.
  assert (Hc : TO_ToolCallID c ∈ callIDs (c :: cs)) by by left.
  apply Hu' in Hc. rewrite !Exists_app in Hc. destruct Hc as [[He|He] Hna].
  - assert (Hcu : TO_ToolCallID c ∈ callIDs (Rec_Uncertain (found branch))) by (apply Hu; naive_solver).
    apply Hna. right. apply list_elem_of_fmap in Hcu as (u & -> & Hin).
    assert (Hpl : Some (ToolResult (TO_ToolCallID u) ToolStatusUnknown "" []) ∈ map It_Payload new).
    { rewrite Hp. unfold repairs. cbn. right. rewrite map_map. apply list_elem_of_fmap. eauto. }
    apply list_elem_of_fmap in Hpl as (it & Eit & Hit). apply Exists_exists. exists it. split; [done|].
    unfold answers. by rewrite <- Eit.
  - apply Exists_exists in He as (it & Hit & He). assert (Hpl : It_Payload it ∈ map It_Payload new) by by apply list_elem_of_fmap_2.
    rewrite Hp in Hpl. unfold repairs in Hpl. cbn in Hpl. unfold enters in He.
    apply elem_of_cons in Hpl as [Hpl|Hpl]; [by rewrite Hpl in He|].
    rewrite map_map in Hpl. apply list_elem_of_fmap in Hpl as (u & Hpl & _). by rewrite Hpl in He.
Qed.

Lemma repairs_known rec_ : Forall known (repairs rec_).
Proof. unfold repairs. constructor; [done|]. apply Forall_map. by apply Forall_forall. Qed.

Definition unlocked (dir : string) (d : Disk) : Disk := (Release dir d).2.

Lemma unlocked_holds dir d mf lock h items tail :
  holds d dir mf lock h items tail → holds (unlocked dir d) dir mf false h items tail.
Proof. unfold holds, unlocked, Release, modify. cbn. intros E. by rewrite lookup_alter_eq, E. Qed.

(** What an open that repaired leaves: the writer's session and its disk. *)
Record repairedAs (d : Disk) (id : string) (m : meta.Meta) (h : Header) (items : list Item)
    (branch : list Item) (st : State) (w : fileWriter) (new : list Item) (d' : Disk) : Prop := {
  rp_writer : w = mkfileWriter (sessionDir id)
    (mkLoaded m (headOf (items ++ new)) (items ++ new) (repaired st (Rec_Uncertain (found branch))) (found branch))
    (headOf (items ++ new)) (sessionstore.lastSeq (items ++ new));
  rp_payloads : map It_Payload new = map Some (repairs (found branch));
  rp_holds : holds d' (sessionDir id) (Some (Valid m)) true h (items ++ new) "";
  rp_writes : D_writes d' = [];
  rp_journal : journal (items ++ new);
  rp_branch : Branch (items ++ new) (headOf (items ++ new)) = Ok (branch ++ new);
  rp_grown : grown (branch ++ new) (repaired st (Rec_Uncertain (found branch)), answered (branch ++ new));
  rp_unused : unused NewID (D_fresh d') (items ++ new);
}.

Lemma Open_repairs d id m h items tail branch st :
  resumable d id m h items tail branch st → unused NewID (D_fresh d) items →
  Rec_Uncertain (found branch) ≠ [] → NoDup (callIDs (Rec_Uncertain (found branch))) →
  (∀ i, i ∈ callIDs (Rec_Uncertain (found branch)) → i ∉ answered branch) →
  (∀ new, map It_Payload new = map Some (repairs (found branch)) → Forall exact new) →
  ∃ w new d', Open range NewID id d = (Ok w, d') ∧ repairedAs d id m h items branch st w new d'.
Proof using NewID_inj NewID_ne.
  intros Hr Hu Hne Hn Ha Hex. set (r := found branch) in *.
  set (d1 := opened d (sessionDir id) m h items).
  destruct (buildRecoveryItems_eq r (headOf items) (sessionstore.lastSeq items) (D_now d1) d1) as (new & E & Hc).
  pose proof Hc as (Hl & Hp & _). pose proof (re_journal _ _ _ _ _ _ _ _ Hr) as Hj.
  assert (Hnew : new ≠ []) by (intros ->; done).
  destruct (chain_fresh NewID NewID_inj _ _ _ _ _ _ _ Hc Hu (journal_NoDup _ Hj)) as [Hnd Hu'].
  assert (Hj' : journal (items ++ new)).
  { apply linked_journal; [done..|by eapply chain_readable; [|done|apply repairs_known]|done]. }
  assert (Hb' : Branch (items ++ new) (headOf (items ++ new)) = Ok (branch ++ new))
    by (eapply Branch_linked; [done|by apply Hr|done]).
  pose proof (grown_repairs _ _ _ _ (re_grown _ _ _ _ _ _ _ _ Hr) Hn Ha Hp) as Hg'.
  set (d2 := drewIDs (List.length (repairs r)) d1) in *.
  set (d' := appended (sessionDir id) (text (map lineOf new)) d2).
  eexists _, new, d'. split.
  - rewrite (Open_eq _ _ _ _ _ _ _ _ _ Hr). apply orRelease_Ok.
    eapply (bind_Ok _ _ d1 (mkLoaded m (headOf (items ++ new)) (items ++ new) (repaired st (Rec_Uncertain r)) r,
                            sessionstore.lastSeq (items ++ new))); [|reflexivity].
    unfold openBranch. eapply bind_Ok.
    { unfold lift. by rewrite (deriveLoaded_eq _ _ _ _ (re_branch _ _ _ _ _ _ _ _ Hr) (re_grown _ _ _ _ _ _ _ _ Hr)). }
    cbv zeta. cbn [L_Recovery L_Head]. change (SessionRewind.found range branch) with r.
    destruct (Rec_Uncertain r) as [|u us] eqn:Eu; [done|].
    eapply bind_Ok; [done|]. eapply bind_Ok; [exact E|].
    eapply (bind_Ok _ _ d2 tt d').
    { unfold JournalAppend. destruct new as [|it0 new']; [done|]. eapply bind_Ok.
      { unfold lift. by rewrite (encodeItems_text _ (Hex _ Hp)). }
      rewrite Write_eq. assert (D_writes d2 = []) as -> by apply Hr. done. }
    rewrite (deriveLoaded_eq _ _ _ _ Hb' Hg'). eapply bind_Ok; [reflexivity|]. done.
  - constructor; [reflexivity|exact Hp| | | | | |].
    + apply holds_app, (appended_holds _ _ _ _ _ _ ""). apply opened_holds.
    + apply Hr.
    + done.
    + done.
    + done.
    + exact Hu'.
Qed.

(** Opening again finds the repaired session and writes nothing. *)
Lemma repairedAs_resumable d id m h items tail branch st w new d' :
  resumable d id m h items tail branch st → Forall exact new → repairedAs d id m h items branch st w new d' →
  resumable (unlocked (sessionDir id) d') id m h (items ++ new) "" (branch ++ new)
    (repaired st (Rec_Uncertain (found branch))).
Proof.
  intros Hr Hex Hp. constructor; try apply Hr; try apply Hp.
  - apply unlocked_holds with true. apply Hp.
  - by apply not_elem_of_nil.
  - apply Forall_app. split; [apply Hr|done].
Qed.
End Open.
