(* ===== verification/SessionResume.v ===== *)
(** * SessionResume: sessions survive their process

    What a session commits is what the next open of it reads: after any sequence
    of methods, after a write that was cut short, and after a turn that was
    interrupted inside a tool.  A fork reads what its parent's branch reduces
    to, and a rewind leaves the kept branch. *)

From Stdlib Require Import Ascii String.
From S2P Require Import Prelude Text SessionCore SessionBranch SessionRewind Pricing SessionMeta SessionJournal SessionStore SessionContext JournalText SessionCommit SessionRefines SessionOpen.
From stdpp Require Import gmap strings pretty.
Import Prelude.
Import meta session journal sessionstore agentapp.

(** ** Creating a session *)

(** What the index operations leave alone. *)
Definition beside (d d' : Disk) : Prop :=
  D_bundles d' = D_bundles d ∧ D_fresh d' = D_fresh d ∧ D_now d' = D_now d
  ∧ (D_writes d = [] → D_writes d' = []).

#[export] Instance beside_preorder : PreOrder beside.
Proof. split; unfold beside; [done|]. intros x y z (? & ? & ? & ?) (? & ? & ? & ?). split_and!; try congruence. auto. Qed.

(** A file replaced on a disk whose writes succeed. *)
Lemma WriteFileAtomic_Ok change d : D_writes d = [] → WriteFileAtomic change d = change d.
Proof. intros Hw. unfold WriteFileAtomic. eapply (bind_Ok _ _ d None d); [|done]. unfold nextOutcome. by rewrite Hw. Qed.

Lemma bundle_insert dir b d : bundle dir (d <| D_bundles := <[dir := b]> (D_bundles d) |>) = b.
Proof. unfold bundle, modify. cbn. by rewrite lookup_insert_eq. Qed.

Lemma WriteIndex_Ok rows d : D_writes d = [] → ∃ d', WriteIndex rows d = (Ok tt, d') ∧ beside d d'.
Proof. intros Hw. unfold WriteIndex. rewrite WriteFileAtomic_Ok by done. by eexists. Qed.

Lemma updateIndex_Ok change d : D_writes d = [] → ∃ d', updateIndex change d = (Ok tt, d') ∧ beside d d'.
Proof.
  intros Hw. unfold updateIndex, ReadIndex. destruct (D_index d) as [| |rows] eqn:E.
  - destruct (WriteIndex_Ok (change []) d Hw) as (d' & Ew & Hb). exists d'. split; [|done].
    eapply (bind_Ok _ _ d (Some []) d); [|done]. unfold catch. eff_unfold. by rewrite E.
  - destruct (WriteIndex_Ok (map meta.summarize (List.filter (λ m, negb (meta.M_Hidden m)) (scanSessionMetas d))) d Hw)
      as (d' & Ew & Hb). exists d'. split; [|done].
    eapply (bind_Ok _ _ d None d'); [|done]. unfold catch. eff_unfold. rewrite E.
    unfold RebuildIndex. eff_unfold. by rewrite Ew.
  - destruct (WriteIndex_Ok (change rows) d Hw) as (d' & Ew & Hb). exists d'. split; [|done].
    eapply (bind_Ok _ _ d (Some rows) d); [|done]. unfold catch. eff_unfold. by rewrite E.
Qed.

Lemma refreshIndexRow_Ok m d : D_writes d = [] → ∃ d', refreshIndexRow m d = (Ok tt, d') ∧ beside d d'.
Proof. apply updateIndex_Ok. Qed.

Section Create.
Context `{CodecLaws}.

(** What a session's creation leaves: its directory, and no other, has changed. *)
Definition created (m : meta.Meta) (d d' : Disk) : Prop :=
  let dir := sessionDir (meta.M_ID m) in
  D_bundles d' = <[dir := mkBundle (Some (Valid m))
                            (Some (journalText (NewHeader (meta.M_ID m) (meta.M_CreatedAt m)) []))
                            (B_locked (bundle dir d))]> (D_bundles d)
  ∧ D_writes d' = [] ∧ D_fresh d' = D_fresh d ∧ D_now d' = D_now d.

Lemma created_beside m d d1 d2 : created m d d1 → beside d1 d2 → created m d d2.
Proof. intros (Hb & Hw & Hf & Hn) (? & ? & ? & ?). unfold created. rewrite Hb in *. split_and!; try congruence. auto. Qed.

Lemma Create_spec m d :
  D_writes d = [] → meta.Meta_Validate m = Ok tt → Header_Validate (NewHeader (meta.M_ID m) (meta.M_CreatedAt m)) = Ok tt →
  B_journal (bundle (sessionDir (meta.M_ID m)) d) = None →
  ∃ d', Create m d = (Ok tt, d') ∧ created m d d'.
Proof.
  intros Hw Hm Hh Hj. set (dir := sessionDir (meta.M_ID m)) in *.
  set (d1 := d <| D_bundles := <[dir := bundle dir d <| B_meta := Some (Valid m) |>]> (D_bundles d) |>).
  assert (Hb1 : bundle dir d1 = bundle dir d <| B_meta := Some (Valid m) |>) by apply bundle_insert.
  set (d2 := d1 <| D_bundles := <[dir := bundle dir d1 <| B_journal := Some ""%string |>]> (D_bundles d1) |>).
  set (h := NewHeader _ _) in *.
  set (d3 := appended dir (terminated (MarshalHeader h)) d2).
  assert (Hc : created m d d3).
  { unfold created. fold dir h. split_and!; [|done..]. unfold d3, d2. rewrite Hb1. unfold d1, appended, modify. cbn.
    rewrite insert_insert_eq, alter_insert_eq. cbn. unfold journalText. cbn. by rewrite append_nil_r. }
  assert (E : ∀ k : unit → FS unit, (_ ← WriteMeta dir m; (x ← CreateJournal dir h; k x)) d = k tt d3).
  { intros k. eapply (bind_Ok _ _ d tt d1).
    { unfold WriteMeta. by rewrite WriteFileAtomic_Ok. }
    eapply (bind_Ok _ _ d1 tt d3); [|done].
    unfold CreateJournal. eapply bind_Ok; [unfold lift; by rewrite Hh|]. eapply bind_Ok; [done|].
    rewrite Hb1. cbn. rewrite Hj. eapply (bind_Ok _ _ d1 tt d2); [done|].
    rewrite Write_eq. change (D_writes d2) with (D_writes d). by rewrite Hw. }
  assert (Ec : ∀ d', (if meta.M_Hidden m then mret tt else refreshIndexRow m) d3 = (Ok tt, d') → Create m d = (Ok tt, d')).
  { intros d' <-. unfold Create. eapply bind_Ok; [unfold lift; by rewrite Hm|]. eapply bind_Ok; [done|].
    fold dir. rewrite Hj. apply (E (λ _, if meta.M_Hidden m then mret tt else refreshIndexRow m)). }
  destruct (meta.M_Hidden m); [by exists d3; split; [apply Ec|]|].
  destruct (refreshIndexRow_Ok m d3) as (d' & Er & Hb); [apply Hc|]. exists d'. split; [by apply Ec|].
  by eapply created_beside.
Qed.

Context (range : gmap string string → list (string * string)) (NewID : nat → string).
Context (range_perm : ∀ m, range m ≡ₚ map_to_list m).
Context (NewID_inj : Inj eq eq NewID) (NewID_ne : ∀ k, NewID k ≠ ""%string).

(** The session a user's new conversation has in its hands. *)
Definition newMeta (projectID id model : string) (now : Z) : meta.Meta :=
  meta.NewMeta id meta.KindUser now <| meta.M_SelectedModel := model |> <| meta.M_ProjectID := projectID |>.

Lemma created_resumable m d d' :
  created m d d' → D_bundles d !! sessionDir (meta.M_ID m) = None → meta.Meta_Validate m = Ok tt →
  meta.M_ID m ≠ ""%string → exactHeader (NewHeader (meta.M_ID m) (meta.M_CreatedAt m)) →
  resumable d' (meta.M_ID m) m (NewHeader (meta.M_ID m) (meta.M_CreatedAt m)) [] "" [] State0.
Proof.
  intros (Hb & Hw & _) Hfresh Hm Hid Hh. constructor; try done.
  - unfold holds. rewrite Hb, lookup_insert_eq, append_nil_r. unfold bundle. by rewrite Hfresh.
  - by apply not_elem_of_nil.
  - split; [done|]. unfold Header_Validate. cbn. by rewrite !bool_decide_true, bool_decide_false by done.
  - constructor.
  - constructor.
Qed.

Lemma Create_Open m d :
  D_writes d = [] → D_bundles d !! sessionDir (meta.M_ID m) = None → meta.Meta_Validate m = Ok tt →
  meta.M_ID m ≠ ""%string → exactHeader (NewHeader (meta.M_ID m) (meta.M_CreatedAt m)) →
  let dir := sessionDir (meta.M_ID m) in
  let h := NewHeader (meta.M_ID m) (meta.M_CreatedAt m) in
  ∃ d1 d', Create m d = (Ok tt, d1)
    ∧ Open range NewID (meta.M_ID m) d1 = (Ok (mkfileWriter dir (mkLoaded m "" [] State0 Recovery0) "" 0), d')
    ∧ holds d' dir (Some (Valid m)) true h [] "" ∧ D_writes d' = [] ∧ D_fresh d' = D_fresh d ∧ D_now d' = D_now d
    ∧ ∀ dir', dir' ≠ dir → D_bundles d' !! dir' = D_bundles d !! dir'.
Proof.
  intros Hw Hfresh Hm Hid Hh dir h.
  assert (Hv : Header_Validate h = Ok tt).
  { unfold Header_Validate. cbn. by rewrite !bool_decide_true, bool_decide_false by done. }
  destruct (Create_spec m d Hw Hm Hv) as (d1 & Ec & Hc).
  { unfold bundle. by rewrite Hfresh. }
  pose proof (created_resumable _ _ _ Hc Hfresh Hm Hid Hh) as Hr.
  exists d1, (opened d1 dir m h []). split; [done|]. split; [by rewrite (Open_clean _ NewID _ _ _ _ _ _ _ _ Hr)|].
  destruct Hc as (Hb & ? & ? & ?). split_and!; try done; [apply opened_holds|].
  intros dir' Hne. unfold opened, modify. cbn. by rewrite Hb, !lookup_insert_ne.
Qed.

Lemma CreateWithID_live projectID id model d :
  D_writes d = [] → D_bundles d !! sessionDir id = None → id ≠ ""%string → exactHeader (NewHeader id (D_now d)) →
  ∃ s d' w, CreateWithID range NewID projectID id model d = (Ok s, d')
    ∧ live NewID (mkLive d' s) w [] ∧ FW_dir w = sessionDir id ∧ SC_items s = [] ∧ D_writes d' = []
    ∧ holds d' (sessionDir id) (Some (Valid (newMeta projectID id model (D_now d)))) true (NewHeader id (D_now d)) [] "".
Proof.
  intros Hw Hfresh Hid Hh. set (m := newMeta projectID id model (D_now d)).
  destruct (Create_Open m d Hw Hfresh) as (d1 & d' & Ec & Eo & Hd & Hw' & Hf & _); [|done..|].
  { unfold meta.Meta_Validate. cbn. by rewrite bool_decide_false by done. }
  eexists _, d', _. split_and!.
  - unfold CreateWithID. eapply bind_Ok; [done|]. cbv zeta. eapply bind_Ok; [exact Ec|].
    unfold OpenSession. eapply bind_Ok; [exact Eo|]. reflexivity.
  - eapply (newWriterContext_live NewID d' (sessionDir id) m []); try done; [constructor|constructor|].
    intros k _. by apply not_elem_of_nil.
  - done.
  - done.
  - done.
  - exact Hd.
Qed.

(** ** A session and the methods that ran on it *)

(** A new conversation on a disk whose writes succeed, and no other session in
    its directory. *)
Record opens (projectID id model : string) (d : Disk) (s : SessionContext) (d1 : Disk) : Prop := {
  op_writes : D_writes d = [];
  op_fresh : D_bundles d !! sessionDir id = None;
  op_id : id ≠ ""%string;
  op_header : exactHeader (NewHeader id (D_now d));
  op_created : CreateWithID range NewID projectID id model d = (Ok s, d1);
}.

Lemma opens_live projectID id model d s d1 :
  opens projectID id model d s d1 →
  ∃ w, live NewID (mkLive d1 s) w [] ∧ FW_dir w = sessionDir id ∧ SC_items s = [] ∧ D_writes d1 = []
    ∧ holds d1 (sessionDir id) (Some (Valid (newMeta projectID id model (D_now d)))) true (NewHeader id (D_now d)) [] "".
Proof.
  intros []. destruct (CreateWithID_live projectID id model d) as (s' & d' & w & E & H1 & H2 & H3 & H4 & H5); [done..|].
  rewrite op_created0 in E. injection E as <- <-. by exists w.
Qed.

Lemma live_writes d s w branch ws :
  live NewID (mkLive d s) w branch → live NewID (mkLive (d <| D_writes := ws |>) s) w branch.
Proof. by intros [Ht Hu]. Qed.

(** The history of a live session, its state and its messages agree. *)
Lemma live_history l w branch : live NewID l w branch →
  let s' := Lv_ctx l in
  Validate (SC_items s') = Ok tt
  ∧ (∃ st, Reduce (SC_items s') (SC_head s') = Ok st ∧ st ≡ SC_state s')
  ∧ SC_messageIDs s' = messageIDsOnBranch (SC_items s') (SC_head s')
  ∧ List.length (SC_messageIDs s') = List.length (St_Messages (SC_state s')).
Proof.
  intros [Ht _] s'. fold s' in Ht. destruct (tr_shows _ _ _ Ht) as (st & Hg & Hst). pose proof (grown_replayed _ _ Hg) as Hr.
  split_and!.
  - apply Validate_journal, Ht.
  - exists st. split; [|done]. eapply reduced_Reduce. exists branch. split; [apply Ht|done].
  - rewrite (tr_ids _ _ _ Ht). unfold messageIDsOnBranch. by rewrite (tr_branch _ _ _ Ht).
  - rewrite (tr_ids _ _ _ Ht), length_map, <- (replayed_messages _ _ Hr). cbn.
    f_equal. apply (f_equal St_Messages) in Hst. by destruct st, (SC_state s').
Qed.

(** What stays of the session when its process is gone. *)
Lemma opens_resumable projectID id model d s d1 cs :
  opens projectID id model d s d1 → admissibleAll NewID cs (mkLive d1 s) →
  let l := performAll NewID cs (mkLive d1 s) in
  Forall exact (SC_items (Lv_ctx l)) →
  ∃ w branch st, live NewID l w branch ∧ FW_dir w = sessionDir id ∧ st ≡ SC_state (Lv_ctx l)
    ∧ resumable (unlocked (sessionDir id) (Lv_disk l)) id (newMeta projectID id model (D_now d))
        (NewHeader id (D_now d)) (SC_items (Lv_ctx l)) "" branch st.
Proof using NewID_inj NewID_ne.
  intros Ho Hcs l He. destruct (opens_live _ _ _ _ _ _ Ho) as (w & Hl & Hdir & Hi & Hw & Hh).
  rewrite <- Hi in Hh.
  destruct (performAll_holds NewID cs NewID_inj NewID_ne (mkLive d1 s) _ _ (sessionDir id) _ _ _ Hl Hcs Hdir Hw Hh He)
    as (Hw' & Hh' & w' & branch & Hl' & Hdir').
  fold l in Hl', Hw', Hh'. pose proof (live_tracks _ _ _ _ Hl') as Ht.
  destruct (tr_shows _ _ _ Ht) as (st & Hg & Hst). exists w', branch, st. split_and!; [done..|].
  constructor; try done.
  - by eapply unlocked_holds.
  - by apply not_elem_of_nil.
  - unfold meta.Meta_Validate. cbn. by rewrite bool_decide_false by apply Ho.
  - split; [apply Ho|]. unfold Header_Validate. cbn. by rewrite !bool_decide_true, bool_decide_false by (done || apply Ho).
  - apply Ht.
  - rewrite <- (tr_head _ _ _ Ht). apply Ht.
Qed.

Lemma CloseSession_eq l w : SC_writer (Lv_ctx l) = Some w →
  ∃ c, CloseSession l = (Ok tt, mkLive (unlocked (FW_dir w) (Lv_disk l)) c).
Proof.
  intros Hw. eexists. unfold CloseSession. eapply bind_Ok; [done|]. eapply bind_Ok; [done|]. cbn. rewrite Hw.
  eapply bind_Ok; [unfold onDisk, Close, Release; cbn; reflexivity|]. reflexivity.
Qed.

(** Reading a journal for appending cuts its torn tail. *)
Lemma OpenAppend_holds d dir mf lock h items p :
  D_writes d = [] → holds d dir mf lock h items p → readableHeader h → journal items → Forall exact items → oneLine p →
  ∃ contents d', OpenAppend dir d = (Ok contents, d') ∧ C_Items contents = items ∧ holds d' dir mf lock h items "".
Proof.
  intros Hw Hh Hr Hj He Hp. unfold holds in Hh.
  assert (Hb : bundle dir d = mkBundle mf (Some (journalText h items +:+ p)%string) lock)
    by (unfold bundle; by rewrite Hh).
  set (c := mkContents h items (if p != ""%string then String.length (journalText h items) else 0)).
  assert (E : readText true (journalText h items +:+ p) = Ok c) by by apply (readText_journal _ _ _ true).
  unfold OpenAppend, readJournal. exists c. destruct (decide (p = ""%string)) as [Ht|Ht].
  - exists d. split_and!; [|done|by subst p].
    eapply bind_Ok; [done|]. rewrite Hb. cbn [B_journal]. rewrite E. unfold c. cbn. by rewrite bool_decide_true.
  - exists (d <| D_bundles := <[dir := mkBundle mf (Some (journalText h items)) lock]> (D_bundles d) |>).
    split_and!; [|done|unfold holds, modify; cbn; by rewrite lookup_insert_eq, append_nil_r].
    eapply bind_Ok; [done|]. rewrite Hb. cbn [B_journal]. rewrite E.
    assert (C_Truncated c =? 0 = false) as ->.
    { apply Nat.eqb_neq. unfold c, journalText. cbn. rewrite bool_decide_false by done. cbn. unfold terminated. rewrite !length_append. cbn. lia. }
    eapply bind_Ok; [|reflexivity]. rewrite WriteFileAtomic_Ok by done. unfold setBundle. rewrite Hb.
    by rewrite (truncated_journal h items p).
Qed.

Lemma Append_holds w new d mf lock h items :
  holds d (FW_dir w) mf lock h items "" → Forall exact new →
  ∃ r d' k p, sessionstore.Append w new d = (r, d') ∧ oneLine p
    ∧ holds d' (FW_dir w) mf lock h (items ++ take k new) p ∧ (is_ok r → k = List.length new).
Proof.
  intros Hh He. assert (Hnil : oneLine "") by by apply not_elem_of_nil.
  assert (Hh0 : holds d (FW_dir w) mf lock h (items ++ take 0 new) "") by (rewrite take_0, app_nil_r; done).
  unfold sessionstore.Append. destruct new as [|it new].
  { exists (Ok w), d, 0, ""%string. by split_and!. }
  destruct (continues w (FW_lastID w) (FW_lastSeq w) (it :: new)) as [ends|e] eqn:Ec.
  2:{ exists (Err e), d, 0, ""%string. split_and!; [by apply bind_Err|done..]. }
  destruct (JournalAppend_attempt (FW_dir w) (it :: new) d) as (r & d' & E & Ha); [done|].
  pose proof (attempt_holds _ _ _ _ _ _ _ _ _ Hh He Ha) as Hd. destruct r as [[]|e].
  - eexists (Ok _), d', (List.length (it :: new)), ""%string.
    split_and!; [|done|by rewrite take_ge by done|done].
    eapply bind_Ok; [done|]. eapply bind_Ok; [exact E|]. reflexivity.
  - destruct Hd as (k & p & Hp & Hd). exists (Err e), d', k, p. split_and!; [|done..].
    eapply bind_Ok; [done|]. by eapply bind_Err.
Qed.

(** ** The properties *)

(** C31: A crash in the middle of an append loses no earlier record and no
    complete one: whatever part of the write reached the disk, the next open for
    writing reads the old records and the first of the new ones, all of them when
    the append succeeded, and leaves the file holding exactly these. *)
Theorem torn_append_recovers w new d mf lock h items :
  holds d (FW_dir w) mf lock h items "" → readableHeader h →
  Validate (items ++ new) = Ok tt → Forall exact (items ++ new) →
  ∃ r d' k contents d2,
    sessionstore.Append w new d = (r, d')
    ∧ OpenAppend (FW_dir w) (d' <| D_writes := [] |>) = (Ok contents, d2)
    ∧ C_Items contents = items ++ take k new ∧ (is_ok r → k = List.length new)
    ∧ holds d2 (FW_dir w) mf lock h (items ++ take k new) "".
Proof.
  intros Hh Hr Hj He. apply Validate_journal in Hj.
  destruct (Append_holds w new d mf lock h items Hh) as (r & d' & k & p & E & Hp & Hd & Hk).
  { by apply Forall_app in He as [_ ?]. }
  destruct (OpenAppend_holds (d' <| D_writes := [] |>) (FW_dir w) mf lock h (items ++ take k new) p)
    as (c & d2 & Eo & Hc & Hd2); try done.
  - rewrite <- (take_drop k new), app_assoc in Hj. by eapply journal_app.
  - apply Forall_app in He as [? ?]. apply Forall_app. split; [done|]. by apply Forall_take.
  - by exists r, d', k, c, d2.
Qed.

(** C8: Whatever methods an open session runs that it admits (no call is
    answered that was answered before; [SessionExample.AppendToolResult_twice]
    shows what such an answer does), and whichever of their journal writes succeed
    or are cut short, its history validates, its state is what the history reduces to at its head up
    to the turn fields ([St_LastTurn] and [St_Open]), and its messages are aligned
    with the ids of the records that carry them. *)
Theorem session_tracks_history projectID id model d s d1 cs writes :
  opens projectID id model d s d1 →
  let l := mkLive (d1 <| D_writes := writes |>) s in
  admissibleAll NewID cs l →
  let s' := Lv_ctx (performAll NewID cs l) in
  Validate (SC_items s') = Ok tt
  ∧ (∃ st, Reduce (SC_items s') (SC_head s') = Ok st ∧ st ≡ SC_state s')
  ∧ SC_messageIDs s' = messageIDsOnBranch (SC_items s') (SC_head s')
  ∧ List.length (SC_messageIDs s') = List.length (St_Messages (SC_state s')).
Proof using NewID_inj NewID_ne.
  intros Ho l Hcs s'. destruct (opens_live _ _ _ _ _ _ Ho) as (w & Hl & _).
  apply (live_writes _ _ _ _ writes) in Hl.
  destruct (performAll_live NewID NewID_inj NewID_ne cs _ _ _ Hl Hcs) as (w' & branch & Hl'). by eapply live_history.
Qed.

(** C10: A session survives its process: when every write succeeds, no call is
    answered twice, each record survives the codec ([exact]) and no tool call is
    left in flight, closing the session after any methods and opening it again
    gives back its records, its head, its messages and, up to the turn fields, its
    state. *)
Theorem reopen_resumes projectID id model d s d1 cs :
  opens projectID id model d s d1 →
  admissibleAll NewID cs (mkLive d1 s) →
  let l := performAll NewID cs (mkLive d1 s) in
  let s' := Lv_ctx l in
  Forall exact (SC_items s') →
  (∀ rec_, Analyze range (SC_items s') (SC_head s') = Ok rec_ → Rec_Uncertain rec_ = []) →
  ∃ l1 s2 d2,
    CloseSession l = (Ok tt, l1) ∧ OpenSession range NewID id model (Lv_disk l1) = (Ok s2, d2)
    ∧ SC_items s2 = SC_items s' ∧ SC_head s2 = SC_head s' ∧ SC_lastSeq s2 = SC_lastSeq s'
    ∧ SC_messageIDs s2 = SC_messageIDs s' ∧ SC_state s2 ≡ SC_state s' ∧ Persisted s2 = true.
Proof using NewID_inj NewID_ne.
  intros Ho Hcs l s' He Hu. destruct (opens_resumable _ _ _ _ _ _ cs Ho Hcs He) as (w & branch & st & Hl & Hdir & Hst & Hr).
  fold l s' in Hl, Hst, Hr. pose proof (live_tracks _ _ _ _ Hl) as Ht. fold s' in Ht.
  destruct (CloseSession_eq l w (tr_writer _ _ _ Ht)) as [c Ec]. rewrite Hdir in Ec.
  eexists _, _, _. split_and!.
  - exact Ec.
  - unfold OpenSession. eapply bind_Ok; [|reflexivity]. cbn. apply (Open_clean _ NewID _ _ _ _ _ _ _ _ Hr).
    apply Hu. rewrite (tr_head _ _ _ Ht). apply Analyze_found, Hr.
  - done.
  - cbn. by rewrite (tr_head _ _ _ Ht).
  - cbn. by rewrite (tr_seq _ _ _ Ht).
  - cbn. rewrite (tr_ids _ _ _ Ht). unfold messageIDsOnBranch. by rewrite (re_branch _ _ _ _ _ _ _ _ Hr).
  - done.
  - done.
Qed.

(** C30: A session that ended while tool calls were running is repaired when it
    is opened: each call without a result gets one record that says its outcome is
    unknown, the interruption is reported, nothing is uncertain any more, and
    opening it again finds the same session and writes nothing.  This is for a
    session whose writes succeeded, whose records survive the codec, and whose
    uncertain calls have distinct ids, none of them answered earlier on the branch:
    with a reused id the repair is written and opening then fails. *)
Theorem interrupted_turn_repaired projectID id model d s d1 cs rec_ :
  opens projectID id model d s d1 →
  admissibleAll NewID cs (mkLive d1 s) →
  let l := performAll NewID cs (mkLive d1 s) in
  let s' := Lv_ctx l in
  Forall exact (SC_items s') →
  Analyze range (SC_items s') (SC_head s') = Ok rec_ →
  Rec_Uncertain rec_ ≠ [] → NoDup (callIDs (Rec_Uncertain rec_)) →
  (∀ call, call ∈ callIDs (Rec_Uncertain rec_) → call ∉ answeredCalls s') →
  (∀ new, map It_Payload new = map Some (repairs rec_) → Forall exact new) →
  ∃ s2 d2 new rec2 s3 d3,
    OpenSession range NewID id model (unlocked (sessionDir id) (Lv_disk l)) = (Ok s2, d2)
    ∧ SC_items s2 = SC_items s' ++ new ∧ map It_Payload new = map Some (repairs rec_)
    ∧ Recovery_ s2 = rec_ ∧ SC_state s2 ≡ repaired (SC_state s') (Rec_Uncertain rec_)
    ∧ Analyze range (SC_items s2) (SC_head s2) = Ok rec2 ∧ Rec_Uncertain rec2 = []
    ∧ OpenSession range NewID id model (unlocked (sessionDir id) d2) = (Ok s3, d3)
    ∧ SC_items s3 = SC_items s2 ∧ SC_state s3 = SC_state s2 ∧ SC_messageIDs s3 = SC_messageIDs s2
    ∧ D_bundles d3 !! sessionDir id = D_bundles d2 !! sessionDir id.
Proof using NewID_inj NewID_ne range_perm.
  intros Ho Hcs l s' He Hrec Hne Hn Ha Hex.
  destruct (opens_resumable _ _ _ _ _ _ cs Ho Hcs He) as (w & branch & st & Hl & Hdir & Hst & Hr).
  fold l s' in Hl, Hst, Hr. pose proof (live_tracks _ _ _ _ Hl) as Ht. fold s' in Ht.
  unfold answeredCalls in Ha. rewrite (tr_branch _ _ _ Ht) in Ha.
  rewrite (Analyze_found _ _ _ _ (tr_branch _ _ _ Ht)) in Hrec. injection Hrec as <-.
  destruct (Open_repairs range NewID NewID_inj NewID_ne _ _ _ _ _ _ _ _ Hr) as (w2 & new & d2 & E & Hp);
    [apply Hl|done..|].
  pose proof (repairedAs_resumable _ _ _ _ _ _ _ _ _ _ _ _ _ Hr (Hex _ (rp_payloads _ _ _ _ _ _ _ _ _ _ _ _ Hp)) Hp) as Hr2.
  destruct (found_repaired range range_perm branch new) as [Hu2 _]; [apply Hp|done|].
  pose proof (Open_clean range NewID _ _ _ _ _ _ _ _ Hr2 Hu2) as E2.
  eexists _, d2, new, _, _, _. split_and!.
  - unfold OpenSession. by eapply bind_Ok.
  - cbn. by rewrite (rp_writer _ _ _ _ _ _ _ _ _ _ _ _ Hp).
  - apply Hp.
  - cbn. by rewrite (rp_writer _ _ _ _ _ _ _ _ _ _ _ _ Hp).
  - cbn. rewrite (rp_writer _ _ _ _ _ _ _ _ _ _ _ _ Hp). cbn. clear - Hst.
    destruct st, (SC_state s'). injection Hst as -> -> -> -> -> ->. done.
  - cbn. rewrite (rp_writer _ _ _ _ _ _ _ _ _ _ _ _ Hp). cbn. apply Analyze_found, Hp.
  - done.
  - unfold OpenSession. by eapply bind_Ok.
  - cbn. by rewrite (rp_writer _ _ _ _ _ _ _ _ _ _ _ _ Hp).
  - cbn. by rewrite (rp_writer _ _ _ _ _ _ _ _ _ _ _ _ Hp).
  - cbn. by rewrite (rp_writer _ _ _ _ _ _ _ _ _ _ _ _ Hp).
  - pose proof (opened_holds (unlocked (sessionDir id) d2) (sessionDir id)
      (newMeta projectID id model (D_now d)) (NewHeader id (D_now d)) (SC_items s' ++ new)) as Ho2.
    unfold holds in Ho2. rewrite Ho2. symmetry. apply Hp.
Qed.
End Create.
