(* ===== verification/SessionFork.v ===== *)
(** * SessionFork: rewinds and forks

    A rewind writes one record and leaves the session on the branch it keeps, as
    a replay of the history reads it.  A fork copies the chosen branch into a
    session of its own, which reduces as the parent did at that point, and
    touches no other session. *)

From Stdlib Require Import Ascii String.
From S2P Require Import Prelude SessionCore SessionBranch SessionRewind Pricing SessionMeta SessionJournal SessionStore SessionContext JournalText SessionCommit SessionRefines SessionOpen SessionResume.
From stdpp Require Import gmap strings pretty.
Import Prelude.
Import meta session journal sessionstore agentapp.

(** ** Branches are appended from the root *)

Lemma linked_snoc l it : ∀ parent seq,
  linked parent seq (l ++ [it]) ↔
  linked parent seq l ∧ It_ParentID it = default parent (It_ID <$> last l)
  ∧ It_Seq it = (seq + Z.of_nat (List.length l) + 1)%Z.
Proof.
  induction l as [|x l IH]; intros parent seq.
  - cbn. rewrite Z.add_0_r. naive_solver.
  - cbn [linked app]. rewrite IH. assert (last (x :: l) = Some (default x (last l))) as ->.
    { destruct l as [|y l]; [done|]. change (last (x :: y :: l)) with (last (y :: l)).
      destruct (last (y :: l)) eqn:E; [done|by apply last_None in E]. }
    destruct (last l); cbn [fmap option_fmap option_map default List.length];
      rewrite Nat2Z.inj_succ; (split; [intros (? & ? & ? & ? & ?)|intros ((? & ? & ?) & ? & ?)]); split_and!; try done; lia.
Qed.

Lemma path_linked items id branch : path items id branch →
  linked "" 0 (renumber branch) ∧ default ""%string (It_ID <$> last branch) = id.
Proof.
  induction 1 as [|it branch Hi Hne Hb [IH E]]; [done|]. split; [|by rewrite last_snoc].
  rewrite renumber_snoc, linked_snoc. split_and!; [done| |].
  - cbn. rewrite <- E. destruct branch as [|x b _] using rev_ind; [done|]. by rewrite renumber_snoc, !last_snoc.
  - cbn. unfold renumber. rewrite length_imap. lia.
Qed.

Section Fork.
Context `{CodecLaws}.
Context (range : gmap string string → list (string * string)) (NewID : nat → string).
Context (NewID_inj : Inj eq eq NewID) (NewID_ne : ∀ k, NewID k ≠ ""%string).

Lemma attempt_Ok dir new d r d' mf lock h items :
  D_writes d = [] → Forall exact new → attempt dir new d r d' → holds d dir mf lock h items "" →
  r = Ok tt ∧ holds d' dir mf lock h (items ++ new) "" ∧ ∀ dir', dir' ≠ dir → D_bundles d' !! dir' = D_bundles d !! dir'.
Proof.
  intros Hw He Ha Hh. pose proof (attempt_holds _ _ _ _ _ _ _ _ _ Hh He Ha) as Hd.
  destruct Ha as [e E|txt r d' E Ha]; [by rewrite encodeItems_text in E|].
  destruct Ha as [ws Hws|n ws Hws]; [|congruence]. split_and!; [done..|].
  intros dir' Hne. unfold appended, modify. cbn. by rewrite lookup_alter_ne.
Qed.

Lemma same_ids_messages items items' : Forall2 same items items' → ids (messagesOf items') = ids (messagesOf items).
Proof.
  induction 1 as [|it it' items items' Hs _ IH]; [done|]. destruct (same_fields _ _ Hs) as (E & _ & Ep & _).
  unfold messagesOf in *. cbn. unfold isMessage in *. rewrite Ep. destruct (It_Payload it) as [[]|]; cbn; by rewrite ?E, ?IH.
Qed.

(** An empty session that adopts a journal of one branch shows its reduction. *)
Lemma adoptPrefix_Ok d w s prefix st answered head :
  SC_writer s = Some w → SC_items s = [] → FW_lastID w = ""%string → FW_lastSeq w = 0%Z →
  linked "" 0 prefix → prefix ≠ [] → headOf prefix = head → reduced prefix head (st, answered) →
  ∃ r l', committed w prefix d s r l'
    ∧ (r = Ok tt → ∃ s', adoptPrefix prefix (mkLive d s) = (Ok tt, mkLive (Lv_disk l') s')
         ∧ SC_items s' = prefix ∧ SC_head s' = head ∧ SC_state s' = st
         ∧ SC_messageIDs s' = messageIDsOnBranch prefix head ∧ SC_writer s' = Some (moved w prefix)).
Proof.
  intros Hw Hi Hid Hseq Hl Hne Hhead Hred.
  destruct (adopting (B := unit) w prefix (It_ID (default (mkItem 0 "" "" 0 false "" None) (last prefix)))
              (It_Seq (default (mkItem 0 "" "" 0 false "" None) (last prefix))) d s) as (r & l' & Hc & E).
  { done. }
  { unfold headOf. by destruct (last prefix) eqn:El; [|apply last_None in El]. }
  { unfold sessionstore.lastSeq. by destruct (last prefix) eqn:El; [|apply last_None in El]. }
  { apply linked_continues_ends; [by rewrite Hid, Hseq|done]. }
  exists r, l'. split; [done|]. intros ->. inversion Hc as [|d' Ha]; subst.
  eexists. split.
  - unfold adoptPrefix. eapply bind_Ok; [done|]. cbn [Lv_ctx]. rewrite Hw, Hi. cbn [List.length Nat.eqb negb].
    etransitivity; [exact (E (λ _, reduceFromHead))|].
    unfold reduceFromHead. eapply bind_Ok; [done|]. eapply bind_Ok.
    { unfold lift. cbn. rewrite Hi. cbn. rewrite (reduced_Reduce _ _ _ _ Hred). reflexivity. }
    reflexivity.
  - cbn. by rewrite Hi.
Qed.

(** C33: A fork is a session of its own that holds the parent's branch through
    the chosen record, numbered from one under the same ids: its history
    validates, and its state is what the parent's history reduces to there.  It
    is on disk as it is in memory, and no other session's files change. *)
Theorem Fork_copies parent d through model branch st :
  Persisted parent = true → Validate (SC_items parent) = Ok tt →
  Branch (SC_items parent) through = Ok branch → branch ≠ [] → Reduce (SC_items parent) through = Ok st →
  D_writes d = [] → D_bundles d !! sessionDir (NewID (D_fresh d)) = None →
  exactHeader (NewHeader (NewID (D_fresh d)) (D_now d)) → Forall exact (renumber branch) →
  ∃ child d',
    Fork range NewID parent through model d = (Ok child, d')
    ∧ SC_items child = renumber branch ∧ ids (SC_items child) = ids branch ∧ SC_head child = through
    ∧ Validate (SC_items child) = Ok tt ∧ SC_state child = st
    ∧ Reduce (SC_items child) (SC_head child) = Ok st
    ∧ SC_messageIDs child = messageIDsOnBranch (SC_items parent) through
    ∧ holds d' (sessionDir (NewID (D_fresh d)))
        (Some (Valid (forkMeta (SC_meta parent) (NewID (D_fresh d)) through model (D_now d)))) true
        (NewHeader (NewID (D_fresh d)) (D_now d)) (SC_items child) ""
    ∧ ∀ dir, dir ≠ sessionDir (NewID (D_fresh d)) → D_bundles d' !! dir = D_bundles d !! dir.
Proof using NewID_ne.
  intros Hper Hj Hb Hne Hred Hw Hfresh Hh He. apply Validate_journal in Hj.
  set (id := NewID (D_fresh d)) in *. set (m := forkMeta (SC_meta parent) id through model (D_now d)).
  assert (Hf : ForkPrefix (SC_items parent) through = Ok (renumber branch)) by (unfold ForkPrefix, mbind, res_bind; by rewrite Hb).
  destruct (ForkPrefix_spec _ _ _ Hj Hf) as (b & Hb' & _ & Hj' & Hpb & Hids & Hiff).
  rewrite Hb in Hb'. injection Hb' as <-.
  apply Reduce_Ok in Hred as [answered Hred]. apply Hiff in Hred.
  destruct (path_linked _ _ _ (proj1 (Branch_Ok _ _ _ Hj) Hb)) as [Hl Hlast].
  assert (Hne' : renumber branch ≠ []) by (intros E; apply (f_equal List.length) in E; unfold renumber in E; rewrite length_imap in E; by destruct branch).
  assert (Hhead : headOf (renumber branch) = through).
  { rewrite <- Hlast. unfold headOf. destruct branch as [|x br _] using rev_ind; [done|]. by rewrite renumber_snoc, !last_snoc. }
  set (d0 := d <| D_fresh := S (D_fresh d) |>).
  destruct (Create_Open range NewID m d0) as (d1 & d2 & Ec & Eo & Hd2 & Hw2 & _ & _ & Hother);
    [done|done| |by apply NewID_ne|done|].
  { unfold Meta_Validate. cbn. by rewrite bool_decide_false by apply NewID_ne. }
  set (w := mkfileWriter _ _ _ _) in Eo. set (s0 := newWriterContext w model).
  destruct (adoptPrefix_Ok d2 w s0 (renumber branch) st answered through) as (r & l' & Hc & Ha); try done.
  assert (Hok : r = Ok tt ∧ holds (Lv_disk l') (sessionDir id) (Some (Valid m)) true (NewHeader id (D_now d)) (renumber branch) ""
    ∧ ∀ dir', dir' ≠ sessionDir id → D_bundles (Lv_disk l') !! dir' = D_bundles d2 !! dir').
  { destruct Hc as [e d' Hat|d' Hat]; exact (attempt_Ok (sessionDir id) _ _ _ _ _ _ _ [] Hw2 He Hat Hd2). }
  destruct Hok as (-> & Hd' & Ho'). destruct Ha as (s' & Ea & Hi & Hhd & Hst & Hmid & _); [done|].
  exists s', (Lv_disk l'). split.
  - unfold Fork. rewrite Hper. cbn [negb]. eapply bind_Ok; [unfold lift; by rewrite Hf|].
    destruct (renumber branch) as [|i0 l0] eqn:Er; [done|].
    eapply (bind_Ok _ _ d id d0); [done|]. eapply bind_Ok; [done|]. eapply bind_Ok; [exact Ec|].
    eapply bind_Ok; [unfold OpenSession; eapply bind_Ok; [exact Eo|reflexivity]|].
    eapply (bind_Ok _ _ d2 (Ok tt, s')); [unfold with_session; fold s0; by rewrite Ea|]. reflexivity.
  - rewrite Hi, Hhd. split_and!; try done.
    + by apply Validate_journal.
    + eapply reduced_Reduce. exact Hred.
    + rewrite Hmid. unfold messageIDsOnBranch. rewrite Hb, Hpb. apply same_ids_messages, renumber_same.
    + intros dir Hdir. by rewrite Ho', Hother.
Qed.

(** A session some methods ran on, whatever became of their writes. *)
Definition reached (l : Live) : Prop :=
  ∃ projectID id model d s d1 writes cs,
    opens range NewID projectID id model d s d1
    ∧ admissibleAll NewID cs (mkLive (d1 <| D_writes := writes |>) s)
    ∧ l = performAll NewID cs (mkLive (d1 <| D_writes := writes |>) s).

Lemma reached_live l : reached l → ∃ w branch, live NewID l w branch.
Proof using NewID_inj NewID_ne.
  intros (projectID & id & model & d & s & d1 & writes & cs & Ho & Hcs & ->).
  destruct (opens_live _ _ _ _ _ _ _ _ Ho) as (w & Hl & _). apply (live_writes _ _ _ _ _ writes) in Hl.
  exact (performAll_live NewID NewID_inj NewID_ne cs _ _ _ Hl Hcs).
Qed.

(** What committing one record leaves on the disk: the record at the end of the
    journal; or, of a write that failed, a part of it; or nothing, if it could not
    be encoded. *)
Lemma committed_disk w hs d s r l1 :
  committed w [hs] d s r l1 →
  match r with
  | Ok _ => ∃ txt, encodeItems [hs] = Ok txt ∧ D_bundles (Lv_disk l1) = D_bundles (appended (FW_dir w) txt d)
  | Err _ => D_bundles (Lv_disk l1) = D_bundles d
      ∨ ∃ txt n ws, encodeItems [hs] = Ok txt ∧ D_writes d = Some n :: ws
          ∧ D_bundles (Lv_disk l1) = D_bundles (appended (FW_dir w) (String.substring 0 n txt) d)
  end.
Proof.
  intros [e d' Ha|d' Ha]; inversion Ha as [e' Et|txt r' d1 Et Hw]; subst; cbn.
  - by left.
  - inversion Hw; subst. right. by exists txt, n, ws.
  - inversion Hw; subst. by exists txt.
Qed.

(** C32: A rewind that succeeds adds one record, in memory and at the end of the
    journal, and leaves the session where it was just before the turn of the
    message: on the branch that ends at the last record before it that opens no
    turn, with nothing but openings of turns between that record and the message;
    with the state its history reduces to there, without the message or anything
    after it, which is what the outcome counts.  A rewind that fails leaves the
    session as it was, and the files too, unless the write of its record was cut
    short: then the journal ends in a part of that one record. *)
Theorem Rewind_lands l messageID r l' :
  reached l → Rewind NewID messageID l = (r, l') →
  let s := Lv_ctx l in let s' := Lv_ctx l' in
  let files := D_bundles (Lv_disk l) in let files' := D_bundles (Lv_disk l') in
  ∃ w, SC_writer s = Some w ∧
  match r with
  | Err _ =>
      s' = s
      ∧ (files' = files
         ∨ ∃ hs txt n ws, It_Payload hs = Some (HeadSelected "user_rewind") ∧ encodeItems [hs] = Ok txt
             ∧ D_writes (Lv_disk l) = Some n :: ws
             ∧ files' = D_bundles (appended (FW_dir w) (String.substring 0 n txt) (Lv_disk l)))
  | Ok out =>
      ∃ kept x turns m post hs st txt,
        let dropped := turns ++ m :: post in
        Branch (SC_items s) (SC_head s) = Ok (kept ++ x :: dropped)
        ∧ opensTurn x = false ∧ Forall (λ t, opensTurn t = true) turns ∧ It_ID m = messageID
        ∧ It_Payload hs = Some (HeadSelected "user_rewind")
        ∧ SC_items s' = SC_items s ++ [hs]
        ∧ encodeItems [hs] = Ok txt ∧ files' = D_bundles (appended (FW_dir w) txt (Lv_disk l))
        ∧ Branch (SC_items s') (SC_head s') = Ok (kept ++ [x; hs])
        ∧ Reduce (SC_items s) (It_ID x) = Ok st ∧ SC_state s' = st
        ∧ SC_messageIDs s' = ids (messagesOf (kept ++ [x]))
        ∧ RO_Abandoned out = abandonedSpan dropped
        ∧ Ab_Messages (RO_Abandoned out) = List.length (messagesOf dropped)
  end.
Proof using NewID_inj NewID_ne.
  intros Hreached E. destruct (reached_live _ Hreached) as (w & branch & Hl). pose proof Hl as [Ht Hu].
  pose proof (tr_journal _ _ _ Ht) as Hj. intros s s' files files'. exists w. split; [apply Ht|].
  destruct (Rewind_cases NewID NewID_inj NewID_ne messageID l w branch Hl)
    as [[e E']|(land & out & kept & x & rest & m & post & hs & st & r' & l1 & El & Ea & Hb & Hx & Hm & Hid & Hpar & Hpl & Hg & Hc & E')];
    rewrite E in E'.
  { injection E' as -> ->. split; [done|by left]. }
  pose proof (committed_disk _ _ _ _ _ _ Hc) as Hdisk.
  destruct Hc as [e d' Ha|d' Ha]; injection E' as -> ->.
  { split; [done|]. destruct Hdisk as [Hd|(txt & n & ws & Et & Hw & Hd)]; [by left|]. right. by exists hs, txt, n, ws. }
  destruct Hdisk as (txt & Et & Hd).
  destruct (rewound NewID NewID_inj NewID_ne _ _ _ hs kept x (rest ++ m :: post) _ Ht Hb Hu Hid) as (Hj' & Hb' & Hbx & _);
    [congruence|eauto|].
  assert (Hland : ∃ turns m' post', rest ++ m :: post = turns ++ m' :: post' ∧ opensTurn x = false
    ∧ Forall (λ t, opensTurn t = true) turns ∧ It_ID m' = messageID).
  { destruct (RewindLanding_Ok _ _ _ _ Hj El) as (k' & x' & t' & m' & p' & Hbr & Hx' & Hop & Hts & Hm' & Hb2).
    pose proof (tr_branch _ _ _ Ht) as Htb. fold s in Hbr, Htb. rewrite Htb in Hbr. injection Hbr as Hbr.
    rewrite <- Hx, Hbx in Hb2. injection Hb2 as Hb2. apply app_inj_tail in Hb2 as [-> ->].
    rewrite Hb in Hbr. apply app_inv_head in Hbr. injection Hbr as Hbr. by exists t', m', p'. }
  assert (Hab : RO_Abandoned out = abandonedSpan (rest ++ m :: post)).
  { destruct (Abandoned_Ok _ _ _ _ Ea) as (pre & y & span & Hb2 & Hy & _ & ->). f_equal.
    fold s in Hb2, Ht, Hj, Hbx. rewrite (tr_branch _ _ _ Ht) in Hb2. injection Hb2 as Hb2.
    assert (Hby : Branch (SC_items s) (It_ID y) = Ok (pre ++ [y])).
    { apply (Branch_Ok _ _ _ Hj). eapply path_split. rewrite <- Hb2. apply (Branch_Ok _ _ _ Hj), Ht. }
    rewrite Hy, <- Hx, Hbx in Hby. injection Hby as Hby. apply app_inj_tail in Hby as [<- <-].
    rewrite Hb in Hb2. apply app_inv_head in Hb2. by injection Hb2. }
  destruct Hland as (turns & m' & post' & Hsp & Hop & Hts & Hm'). rewrite Hsp in Hb, Hab.
  exists kept, x, turns, m', post', hs, st, txt. cbv zeta. split_and!; try done.
  - rewrite <- Hb. apply Ht.
  - eapply reduced_Reduce. eexists. split; [exact Hbx|]. by apply grown_replayed.
  - cbn. rewrite (cons_middle x kept [hs]), app_assoc. unfold messagesOf. rewrite List.filter_app.
    assert (isMessage hs = false) as Eh by (unfold isMessage; by rewrite Hpl). cbn. by rewrite Eh, app_nil_r.
  - rewrite Hab. unfold abandonedSpan. cbn [Ab_Messages]. by rewrite spanStep_messages.
Qed.
End Fork.
