(* ===== verification/SessionExample.v ===== *)
(** * SessionExample: the theorems about sessions at work

    A conversation on an empty disk with the codec of [JournalText]: a turn that
    runs a tool, the same turn cut off inside it, a fork and a rewind. *)

From Stdlib Require Import Ascii String.
From S2P Require Import Prelude SessionCore SessionBranch SessionRewind Pricing SessionMeta SessionJournal SessionStore SessionContext JournalText SessionCommit SessionRefines SessionOpen SessionResume SessionFork.
From stdpp Require Import gmap strings pretty.
Import Prelude.
Import meta session journal sessionstore agentapp.

Definition countedID (k : nat) : string := ("i" +:+ pretty k)%string.

#[export] Instance countedID_inj : Inj (=) (=) countedID.
Proof. intros j k E. by apply (inj (String.append "i")), (inj pretty) in E. Qed.

Lemma countedID_ne k : countedID k ≠ ""%string.
Proof. done. Qed.

Definition emptyDisk : Disk := mkDisk ∅ NoIndex 7 0 [].

Definition conversation : res error SessionContext * Disk :=
  CreateWithID map_to_list countedID "p" "s" "m" emptyDisk.

Definition conversationContext : SessionContext :=
  match conversation.1 with
  | Ok s => s
  | Err _ => newReadOnlyContext (Loaded0 Meta0) ""
  end.

Lemma conversation_opens :
  opens map_to_list countedID "p" "s" "m" emptyDisk conversationContext conversation.2.
Proof. constructor; vm_compute; done. Qed.

Definition calling : llm.Message :=
  llm.mkMessage "assistant" "looking" "" [llm.mkToolCall "c" "grep" "{}"] "" None [].

(** A turn up to the tool it runs. *)
Definition interrupted : list command :=
  [DoBeginTurn "r" "m" "w" 0 "user"; DoAppend (llm.mkMessage "user" "go" "" [] "" None []);
   DoAppend calling; DoToolExecutionStarted [agent.mkToolCallStart "c" "grep"]].

Definition wholeTurn : list command :=
  interrupted ++ [DoAppendToolResult (agent.mkToolOutcome "c" "grep" agent.ToolStatusCompleted "found" []);
                  DoSetNotes [] 1; DoFinishTurn "done" ""].

#[local] Notation after cs := (performAll countedID cs (mkLive conversation.2 conversationContext)).

(** The codec keeps every record the methods build. *)
Definition plain (it : Item) : bool :=
  match It_Payload it with None | Some (UnknownPayload _ _) => false | Some _ => true end.

Lemma plain_exact items : forallb plain items = true → Forall exact items.
Proof.
  rewrite forallb_forall. intros Hp. apply Forall_forall. intros it Hit%list_elem_of_In.
  specialize (Hp _ Hit). unfold plain in Hp. apply bits_exact.
  destruct (It_Payload it) as [p|]; [|done]. exists p. by destruct p.
Qed.

(** ** The theorems at work *)

Lemma session_tracks_history_witness :
  let l := performAll countedID wholeTurn
    (mkLive (conversation.2 <| D_writes := [None; Some 3; None] |>) conversationContext) in
  List.length (SC_items (Lv_ctx l)) = 6
  ∧ Validate (SC_items (Lv_ctx l)) = Ok tt
  ∧ ∃ st, Reduce (SC_items (Lv_ctx l)) (SC_head (Lv_ctx l)) = Ok st ∧ st ≡ SC_state (Lv_ctx l).
Proof.
  split; [vm_compute; reflexivity|].
  destruct (session_tracks_history map_to_list countedID _ countedID_ne _ _ _ _ _ _ wholeTurn [None; Some 3; None]
              conversation_opens) as (H1 & H2 & _); [vm_compute; set_solver|].
  exact (conj H1 H2).
Defined.

Lemma reopen_resumes_witness :
  ∃ l1 s2 d2,
    CloseSession (after wholeTurn) = (Ok tt, l1)
    ∧ OpenSession map_to_list countedID "s" "m" (Lv_disk l1) = (Ok s2, d2)
    ∧ SC_items s2 = SC_items (Lv_ctx (after wholeTurn)) ∧ List.length (SC_items s2) = 7.
Proof.
  destruct (reopen_resumes map_to_list countedID _ countedID_ne _ _ _ _ _ _ wholeTurn conversation_opens)
    as (l1 & s2 & d2 & E1 & E2 & Ei & _).
  - vm_compute. set_solver.
  - apply plain_exact. vm_compute. reflexivity.
  - intros r Hr. vm_compute in Hr. by injection Hr as <-.
  - exists l1, s2, d2. split_and!; [exact E1|exact E2|exact Ei|]. rewrite Ei. vm_compute. reflexivity.
Defined.

Lemma interrupted_turn_repaired_witness :
  ∃ s2 d2 new,
    OpenSession map_to_list countedID "s" "m" (unlocked (sessionDir "s") (Lv_disk (after interrupted))) = (Ok s2, d2)
    ∧ SC_items s2 = SC_items (Lv_ctx (after interrupted)) ++ new
    ∧ map It_Payload new = [Some (TurnRecovered "r" ["c"%string]); Some (ToolResult "c" ToolStatusUnknown "" [])].
Proof.
  assert (∃ r, Analyze map_to_list (SC_items (Lv_ctx (after interrupted))) (SC_head (Lv_ctx (after interrupted))) = Ok r
    ∧ callIDs (Rec_Uncertain r) = ["c"%string] ∧ repairs r = [TurnRecovered "r" ["c"%string]; ToolResult "c" ToolStatusUnknown "" []])
    as (r & Er & Hc & Hp) by (eexists; split_and!; vm_compute; reflexivity).
  destruct (interrupted_turn_repaired map_to_list countedID (λ _, reflexivity _) _ countedID_ne _ _ _ _ _ _ interrupted r
              conversation_opens) as (s2 & d2 & new & r2 & s3 & d3 & E & Ei & Epl & _).
  - vm_compute. exact (conj I (conj I (conj I (conj I I)))).
  - apply plain_exact. vm_compute. reflexivity.
  - exact Er.
  - clear -Hc. intros E. by rewrite E in Hc.
  - rewrite Hc. clear. apply NoDup_singleton.
  - rewrite Hc. intros call ->%list_elem_of_singleton. clear. vm_compute. set_solver.
  - clear -Hp. intros new Hn. apply plain_exact. rewrite Hp in Hn.
    destruct new as [|i1 [|i2 [|]]]; try done. injection Hn as E1 E2. unfold plain. cbn. by rewrite E1, E2.
  - exists s2, d2, new. split_and!; [exact E|exact Ei|]. by rewrite Epl, Hp.
Defined.

Definition firstItem : Item := NewItem 1 "i0" "" 7 "" (Some (MessageItem calling)).
Definition secondItem : Item := NewItem 2 "i1" "i0" 7 "" (Some (NotesReplaced [])).

(** Ten bytes of a record reached the disk. *)
Lemma torn_append_recovers_witness :
  let h := NewHeader "s" 7 in
  let w := mkfileWriter "s" (mkLoaded Meta0 "i0" [firstItem] State0 Recovery0) "i0" 1 in
  let d := mkDisk {["s"%string := mkBundle None (Some (journalText h [firstItem] +:+ "")%string) true]} NoIndex 7 2 [Some 10] in
  ∃ r d' k contents d2,
    sessionstore.Append w [secondItem] d = (r, d')
    ∧ OpenAppend "s" (d' <| D_writes := [] |>) = (Ok contents, d2) ∧ C_Items contents = [firstItem] ++ take k [secondItem].
Proof.
  intros h w d.
  destruct (torn_append_recovers w [secondItem] d None true h [firstItem]) as (r & d' & k & c & d2 & E1 & E2 & E3 & _).
  - reflexivity.
  - split; [exact I|reflexivity].
  - vm_compute. reflexivity.
  - apply plain_exact. reflexivity.
  - exists r, d', k, c, d2. exact (conj E1 (conj E2 E3)).
Defined.

Definition twoTurns : list command :=
  wholeTurn ++ [DoBeginTurn "r2" "m" "w" 0 "user"; DoAppend (llm.mkMessage "user" "again" "" [] "" None [])].

Lemma Rewind_lands_witness :
  let l := performAll countedID twoTurns (mkLive (conversation.2 <| D_writes := [] |>) conversationContext) in
  ∃ out l' kept x turns m post hs, Rewind countedID "i8" l = (Ok out, l')
    ∧ Branch (SC_items (Lv_ctx l)) (SC_head (Lv_ctx l)) = Ok (kept ++ x :: turns ++ m :: post)
    ∧ Forall (λ t, opensTurn t = true) turns ∧ It_ID m = "i8"%string ∧ opensTurn x = false
    ∧ SC_items (Lv_ctx l') = SC_items (Lv_ctx l) ++ [hs].
Proof.
  intros l. assert (Hok : is_ok (Rewind countedID "i8" l).1 = true) by (vm_compute; reflexivity).
  destruct (Rewind countedID "i8" l) as [r l'] eqn:E.
  pose proof (Rewind_lands map_to_list countedID _ countedID_ne l "i8" r l') as H.
  destruct r as [out|e]; [|discriminate Hok]. exists out, l'.
  destruct H as (w & _ & kept & x & turns & m & post & hs & st & txt & Hb & Hx & Ht & Hm & _ & Hi & _).
  - exists "p"%string, "s"%string, "m"%string, emptyDisk, conversationContext, conversation.2, [], twoTurns.
    split; [exact conversation_opens|]. split; [|reflexivity]. clear. vm_compute. set_solver.
  - exact E.
  - exists kept, x, turns, m, post, hs. exact (conj eq_refl (conj Hb (conj Ht (conj Hm (conj Hx Hi))))).
Defined.

Lemma Fork_copies_witness :
  ∃ child d' branch,
    Fork map_to_list countedID (Lv_ctx (after wholeTurn)) "i2" "m" (Lv_disk (after wholeTurn)) = (Ok child, d')
    ∧ SC_items child = renumber branch ∧ List.length branch = 3 ∧ Validate (SC_items child) = Ok tt.
Proof.
  destruct (Branch (SC_items (Lv_ctx (after wholeTurn))) "i2") as [branch|e] eqn:Eb.
  2:{ exfalso. revert Eb. clear. vm_compute. discriminate. }
  destruct (Reduce (SC_items (Lv_ctx (after wholeTurn))) "i2") as [st|e] eqn:Er.
  2:{ exfalso. revert Er. clear. vm_compute. discriminate. }
  assert (Hlen : List.length branch = 3 ∧ forallb plain (renumber branch) = true).
  { revert Eb. clear. vm_compute. intros [= <-]. split; reflexivity. }
  destruct (Fork_copies map_to_list countedID countedID_ne (Lv_ctx (after wholeTurn)) (Lv_disk (after wholeTurn)) "i2" "m" branch st)
    as (child & d' & E & Ei & _ & _ & Hv & _).
  - vm_compute. reflexivity.
  - vm_compute. reflexivity.
  - exact Eb.
  - intros ->. destruct Hlen. discriminate.
  - exact Er.
  - vm_compute. reflexivity.
  - vm_compute. reflexivity.
  - exact I.
  - apply plain_exact, Hlen.
  - exists child, d', branch. exact (conj E (conj Ei (conj (proj1 Hlen) Hv))).
Defined.

(** ** What the methods do not refuse *)

(** A second result for an answered call is committed and shown, and the history
    no longer reduces: the session cannot be opened again. *)
Example AppendToolResult_twice :
  let out := agent.mkToolOutcome "c" "grep" agent.ToolStatusCompleted "found" [] in
  let l := after (interrupted ++ [DoAppendToolResult out]) in
  let '(r, l') := AppendToolResult countedID out l in
  r = Ok tt ∧ Reduce (SC_items (Lv_ctx l')) (SC_head (Lv_ctx l')) = Err ErrHistoryCorrupt
  ∧ (OpenSession map_to_list countedID "s" "m" (unlocked (sessionDir "s") (Lv_disk l'))).1 = Err ErrHistoryCorrupt.
Proof. vm_compute. split_and!; reflexivity. Qed.

(** A torn append stays in the file; the next append of the same writer writes
    after it, and what was a tail to cut is a line that does not read. *)
Example append_after_torn :
  let l := performAll countedID [DoSetAdditionalPrompt "a"; DoSetAdditionalPrompt "b"]
             (mkLive (conversation.2 <| D_writes := [Some 5] |>) conversationContext) in
  (OpenSession map_to_list countedID "s" "m" (unlocked (sessionDir "s") (Lv_disk l))).1 = Err ErrHistoryCorrupt.
Proof. vm_compute. reflexivity. Qed.
