(* ===== verification/AgentContext.v ===== *)
(** * AgentContext: what a model call is given, and the messages waiting for it

    [Module context] mirrors internal/core/agent/context.go: token estimates, the
    suffix of the history that fits a window, the cut a compaction makes and the
    summary it stores.  [Module queue] mirrors queue.go and [Module question]
    the validation of question.go.  A byte or token count is an unbounded [Z]
    where it sums what is in memory, and wraps where configuration enters. *)

From Stdlib Require Import SpecFloat Ascii String.
From S2P Require Import Prelude Text Json SessionCore Pricing SessionMeta.
From stdpp Require Import gmap strings.
Import Prelude.
Local Open Scope Z_scope.
Local Open Scope buildmax_scope.

(** ** Fractions of a window

    [int(float64(n) * f)] in binary64: the conversion rounds to nearest even,
    the product rounds again and the conversion back truncates. *)

Definition float64 (n : Z) : spec_float := binary_normalize 53 1024 n 0 false.

Definition truncate (f : spec_float) : Z :=
  match f with
  | S754_finite negative m e =>
      let n := if 0 <=? e then Z.pos m * 2 ^ e else Z.pos m / 2 ^ (- e) in
      if negative then - n else n
  | _ => 0
  end.

Definition fraction (f : spec_float) (n : Z) : Z := truncate (SFmul 53 1024 (float64 n) f).

(** A decimal constant of the source is the binary64 number nearest to it. *)
Definition nearest64 (m : positive) (e : Z) : spec_float := S754_finite false m e.

Module context.

Definition defaultReserveTokens : Z := 4096.
(** 0.80, 0.20, 0.05 and 0.02. *)
Definition compactionThreshold : spec_float := nearest64 7205759403792794 (-53).
Definition compactionReserve : spec_float := nearest64 7205759403792794 (-55).
Definition manualCompactionReserve : spec_float := nearest64 7205759403792794 (-57).
Definition compactionSummaryBudget : spec_float := nearest64 5764607523034235 (-58).
Definition defaultMaxSummaryChars : Z := 8000.

Definition newline : string := String (ascii_of_nat 10) "".
Definition blankLine : string := newline +:+ newline.

Definition summaryClampMarker : string :=
  blankLine +:+ "[earlier detail dropped: summary exceeded its budget]".

Definition priorSummaryPreamble : string :=
  "Summary of the conversation up to this point, produced by an " +:+
  "earlier compaction. Carry its still-relevant content forward into your new summary:".

(** ** Estimates *)

Definition sum (l : list Z) : Z := foldr Z.add 0 l.

Definition EstimateMessageTokens (m : llm.Message) : Z :=
  let chars :=
    meta.len (llm.Msg_Role m) + meta.len (llm.Msg_Content m) + meta.len (llm.Msg_ToolCallID m)
    + sum (map (λ tc, meta.len (llm.TC_ID tc) + meta.len (llm.TC_Name tc)
                      + meta.len (llm.TC_Arguments tc)) (llm.Msg_ToolCalls m)) in
  chars / 4 + 4.

Definition EstimateTokens (msgs : list llm.Message) : Z := sum (map EstimateMessageTokens msgs).

(** ** The two cuts of a history *)

(** [for at < len(msgs) && msgs[at].Role == "tool"] *)
Fixpoint toolPrefix (msgs : list llm.Message) : nat :=
  match msgs with
  | m :: msgs => if llm.Msg_Role m == "tool" then S (toolPrefix msgs) else 0%nat
  | [] => 0%nat
  end.

Definition groupStart (msgs : list llm.Message) (at_ : nat) : nat :=
  (at_ + toolPrefix (drop at_ msgs))%nat.

(** The walk from newest to oldest: [older] is what is left of it, reversed, so
    its length is the index of the message it stands before. *)
Fixpoint reserveFrom (reserveTokens cost : Z) (keepFrom : nat) (older : list llm.Message) : nat :=
  match older with
  | [] => keepFrom
  | m :: older =>
      let cost := cost + EstimateMessageTokens m in
      if reserveTokens <=? cost then List.length older
      else reserveFrom reserveTokens cost keepFrom older
  end.

Definition splitForCompaction (msgs : list llm.Message) (reserveTokens : Z) :
    list llm.Message * list llm.Message :=
  let keepFrom := reserveFrom reserveTokens 0 (List.length msgs) (rev msgs) in
  if (keepFrom =? 0)%nat then ([], msgs)
  else
    let keepFrom := groupStart msgs keepFrom in
    if (List.length msgs <=? keepFrom)%nat then ([], msgs)
    else (take keepFrom msgs, drop keepFrom msgs).

Fixpoint fitFrom (budget cost : Z) (cutAt : nat) (older : list llm.Message) : nat :=
  match older with
  | [] => cutAt
  | m :: older =>
      let cost := cost + EstimateMessageTokens m in
      if budget <? cost then cutAt else fitFrom budget cost (List.length older) older
  end.

Definition trimBudget (systemTokens contextWindow reserveTokens : Z) : Z :=
  let reserveTokens := if reserveTokens == 0 then defaultReserveTokens else reserveTokens in
  wrap64 (wrap64 (contextWindow - reserveTokens) - systemTokens).

Definition TrimHistory (msgs : list llm.Message) (systemTokens contextWindow reserveTokens : Z) :
    list llm.Message :=
  let budget := trimBudget systemTokens contextWindow reserveTokens in
  if (budget <=? 0) || (List.length msgs =? 0)%nat then msgs
  else
    let cutAt := fitFrom budget 0 (List.length msgs) (rev msgs) in
    if (cutAt =? 0)%nat then msgs
    else
      let cutAt := groupStart msgs cutAt in
      let cutAt := if (List.length msgs <=? cutAt)%nat then (List.length msgs - 1)%nat else cutAt in
      drop cutAt msgs.

(** ** Summaries *)

Definition maxSummaryChars (contextWindow : Z) : Z :=
  if contextWindow <=? 0 then defaultMaxSummaryChars
  else wrap64 (fraction compactionSummaryBudget contextWindow * 4).

Definition userMessage (content : string) : llm.Message :=
  llm.mkMessage "user" content "" [] "" None [].

Definition withPriorSummary (prior : string) (msgs : list llm.Message) : list llm.Message :=
  if prior == "" then msgs
  else userMessage (priorSummaryPreamble +:+ blankLine +:+ prior) :: msgs.

(** [strings.LastIndexByte] *)
Fixpoint lastIndexByte (i last : Z) (c : ascii) (s : string) : Z :=
  match s with
  | EmptyString => last
  | String a s => lastIndexByte (i + 1) (if Ascii.eqb a c then i else last) c s
  end.

(** [strings.TrimRight] over a set of one-byte characters. *)
Definition trimRightBytes (cut : ascii → bool) (s : string) : string :=
  string_of_list_ascii (rev ((fix go (l : list ascii) : list ascii :=
    match l with
    | a :: l' => if cut a then go l' else l
    | [] => []
    end) (rev (list_ascii_of_string s)))).

Definition clampSummary (s : string) (maxChars : Z) : string :=
  if (maxChars <=? 0) || (RuneCountInString s <=? maxChars) then s
  else
    let clipped := util.ClipRunes s maxChars in
    let cut := lastIndexByte 0 (-1) (ascii_of_nat 10) clipped in
    let clipped := if Z.quot (wrap64 (maxChars * 4)) 5 <? cut
                   then String.substring 0 (Z.to_nat cut) clipped else clipped in
    trimRightBytes (λ a, is_byte 32 a || is_byte 9 a || is_byte 10 a) clipped +:+ summaryClampMarker.

Definition RenderCompactionBlock (summary : string) : string :=
  if summary == "" then ""
  else blankLine +:+ "<context_compaction>" +:+ newline +:+ summary +:+ newline
       +:+ "</context_compaction>".

End context.

Module queue.

(** ** Messages waiting for a run: internal/core/agent/queue.go *)

Definition DefaultMaxQueuedMessages : Z := 10.

Inductive error : Type := ErrQueueFull.

Record MessageQueue : Type := mkMessageQueue {
  Q_items : list string;
  Q_max : Z
}.
#[export] Instance MessageQueue_updatable : Updatable MessageQueue := λ r,
  mkMessageQueue (Q_items r) (Q_max r).

Definition NewMessageQueue (max : Z) : MessageQueue :=
  mkMessageQueue [] (if max <=? 0 then DefaultMaxQueuedMessages else max).

Definition Len (q : MessageQueue) : Z := Z.of_nat (List.length (Q_items q)).

Definition Enqueue (text : string) : Eff error MessageQueue Z := λ q,
  if Q_max q <=? Len q then (Err ErrQueueFull, q)
  else let q := q <| Q_items := Q_items q ++ [text] |> in (Ok (Len q), q).

Definition Dequeue (q : MessageQueue) : option string * MessageQueue :=
  match Q_items q with
  | [] => (None, q)
  | text :: items => (Some text, q <| Q_items := items |>)
  end.

Definition DropLast (q : MessageQueue) : option string * MessageQueue :=
  match last (Q_items q) with
  | None => (None, q)
  | Some text => (Some text, q <| Q_items := removelast (Q_items q) |>)
  end.

Definition Drop (q : MessageQueue) : Z * MessageQueue := (Len q, q <| Q_items := [] |>).

Definition Snapshot (q : MessageQueue) : list string := Q_items q.

End queue.

Module question.

(** ** Question sets: internal/core/agent/question.go *)

Definition MaxQuestions : Z := 4.
Definition MaxQuestionChars : Z := 1000.
Definition MaxQuestionHeaderChars : Z := 24.
Definition MaxQuestionOptions : Z := 4.
Definition MaxOptionLabelChars : Z := 80.
Definition MaxOptionDetailChars : Z := 200.

Record QuestionOption : Type := mkQuestionOption {
  Opt_Label : string;
  Opt_Description : string
}.

Record Question : Type := mkQuestion {
  Qu_Header : string;
  Qu_Text : string;
  Qu_Options : list QuestionOption;
  Qu_MultiSelect : bool
}.

Record Answer : Type := mkAnswer {
  Ans_Values : list string;
  Ans_Declined : bool;
  Ans_Deferred : bool
}.

Inductive optionError : Type :=
| LabelRequired
| LabelTooLong
| DescriptionTooLong
| LabelRepeated.

Inductive questionError : Type :=
| NoQuestions
| TooManyQuestions
| QuestionRequired
| QuestionTooLong
| HeaderTooLong
| TooManyOptions
| MultiSelectNeedsOptions
| OptionInvalid (i : nat) (e : optionError)
| QuestionRepeated
| QuestionInvalid (i : nat) (e : questionError).

Section Validation.
(** [strings.ToLower] over the Unicode tables. *)
Context (ToLower : string → string).

Fixpoint validateOptions (i : nat) (seen : gset string) (options : list QuestionOption) :
    res questionError unit :=
  match options with
  | [] => Ok tt
  | o :: options =>
      let label := TrimSpace (Opt_Label o) in
      if label == "" then Err (OptionInvalid i LabelRequired)
      else if MaxOptionLabelChars <? RuneCountInString label then Err (OptionInvalid i LabelTooLong)
      else if MaxOptionDetailChars <? RuneCountInString (Opt_Description o)
      then Err (OptionInvalid i DescriptionTooLong)
      else
        let key := ToLower label in
        if decide (key ∈ seen) then Err (OptionInvalid i LabelRepeated)
        else validateOptions (S i) ({[key]} ∪ seen) options
  end.

Definition validateQuestion (q : Question) : res questionError unit :=
  if TrimSpace (Qu_Text q) == "" then Err QuestionRequired
  else if MaxQuestionChars <? RuneCountInString (Qu_Text q) then Err QuestionTooLong
  else if MaxQuestionHeaderChars <? RuneCountInString (Qu_Header q) then Err HeaderTooLong
  else if MaxQuestionOptions <? Z.of_nat (List.length (Qu_Options q)) then Err TooManyOptions
  else if Qu_MultiSelect q && (Z.of_nat (List.length (Qu_Options q)) <? 2)
  then Err MultiSelectNeedsOptions
  else validateOptions 0 ∅ (Qu_Options q).

Fixpoint validateEach (i : nat) (seen : gset string) (qs : list Question) : res questionError unit :=
  match qs with
  | [] => Ok tt
  | q :: qs =>
      match validateQuestion q with
      | Err e => Err (QuestionInvalid i e)
      | Ok _ =>
          let key := ToLower (TrimSpace (Qu_Text q)) in
          if decide (key ∈ seen) then Err (QuestionInvalid i QuestionRepeated)
          else validateEach (S i) ({[key]} ∪ seen) qs
      end
  end.

Definition ValidateQuestions (qs : list Question) : res questionError unit :=
  if (List.length qs =? 0)%nat then Err NoQuestions
  else if MaxQuestions <? Z.of_nat (List.length qs) then Err TooManyQuestions
  else validateEach 0 ∅ qs.
End Validation.

End question.

Example fractions_of_200000 :
  (fraction context.compactionThreshold 200000, fraction context.compactionReserve 200000,
   fraction context.manualCompactionReserve 200000, context.maxSummaryChars 200000)
  = (160000, 40000, 10000, 16000).
Proof. vm_compute. reflexivity. Qed.
