(* ===== verification/AgentContextLaws.v ===== *)
(** * AgentContextLaws: what reaches a model call and what a compaction keeps

    A history is a conversation when every tool-role message sits in the group
    of the assistant message whose calls it answers.  The cuts of
    [AgentContext.context] are suffixes within their budget and, off one
    fallback, conversations again; the message queue is first in, first out and
    never longer than its cap; a question set passes validation exactly when it
    is within the bounds and has no repetition. *)

From S2P Require Import Prelude Text Json SessionCore Pricing SessionMeta AgentContext.
From stdpp Require Import gmap strings.
Import Prelude.
Import context.
Local Open Scope Z_scope.
Local Open Scope buildmax_scope.

#[local] Arguments EstimateTokens : simpl never.
#[local] Arguments EstimateMessageTokens : simpl never.

(** ** Conversations *)

Notation isTool m := (llm.Msg_Role m = "tool").

(** The results of a group: one tool-role message per call, in call order. *)
Definition answers (calls : list llm.ToolCall) (results : list llm.Message) : Prop :=
  map llm.Msg_ToolCallID results = map llm.TC_ID calls ∧ Forall (λ m, isTool m) results.

Inductive conversation : list llm.Message → Prop :=
| conversation_nil : conversation []
| conversation_group m results msgs :
    ¬ isTool m → answers (llm.Msg_ToolCalls m) results → conversation msgs →
    conversation (m :: results ++ msgs).

Definition startsWhole (msgs : list llm.Message) : Prop :=
  match msgs with m :: _ => ¬ isTool m | [] => True end.

Lemma conversation_plain m msgs :
  ¬ isTool m → llm.Msg_ToolCalls m = [] → conversation msgs → conversation (m :: msgs).
Proof.
  intros Hm Hc H. apply (conversation_group m [] msgs); [done| |done]. rewrite Hc. by split.
Qed.

Lemma conversation_app l1 l2 : conversation l1 → conversation l2 → conversation (l1 ++ l2).
Proof.
  induction 1 as [|m results msgs Hm Ha H IH]; [done|]. intros H2. cbn. rewrite <- app_assoc.
  by apply conversation_group; auto.
Qed.

Lemma conversation_starts msgs : conversation msgs → startsWhole msgs.
Proof. by destruct 1. Qed.

(** A cut at a message that is not a tool result leaves two conversations. *)
Lemma conversation_cut msgs : conversation msgs →
  ∀ l1 l2, msgs = l1 ++ l2 → startsWhole l2 → conversation l1 ∧ conversation l2.
Proof.
  induction 1 as [|m results msgs Hm Ha H IH]; intros l1 l2 E Hs.
  { symmetry in E. apply app_nil in E as [-> ->]. split; constructor. }
  destruct l1 as [|m' l1].
  { cbn in E. subst l2. split; [constructor|]. by constructor. }
  injection E as <- E.
  destruct (decide (length results ≤ length l1)%nat) as [Hle|Hgt].
  - assert (take (length results) l1 = results) as Ht.
    { assert (take (length results) (l1 ++ l2) = take (length results) (results ++ msgs)) as Ht by by rewrite E.
      by rewrite take_app_length, take_app_le in Ht. }
    rewrite <- (take_drop (length results) l1), Ht in E |- *. rewrite <- app_assoc in E.
    apply app_inv_head in E. apply IH in E as [H1 H2]; [|done].
    split; [|done]. by constructor.
  - (* the cut falls inside the group: the message after it is a tool result *)
    exfalso. destruct Ha as [_ Ha].
    assert (∃ x, results !! length l1 = Some x) as [x Hx] by (apply lookup_lt_is_Some_2; lia).
    assert ((results ++ msgs) !! length l1 = Some x) as Hl by by apply lookup_app_l_Some.
    rewrite E, lookup_app_r, Nat.sub_diag in Hl by done.
    destruct l2 as [|y l2]; [done|]. injection Hl as ->. cbn in Hs. apply Hs.
    by eapply Forall_lookup_1 in Ha.
Qed.

(** ** The boundary a cut moves to *)

Lemma toolPrefix_le msgs : (toolPrefix msgs ≤ length msgs)%nat.
Proof. induction msgs as [|m msgs IH]; cbn; [lia|]. case_bool_decide; lia. Qed.

Lemma toolPrefix_tools msgs : Forall (λ m, isTool m) (take (toolPrefix msgs) msgs).
Proof. induction msgs as [|m msgs IH]; cbn; [done|]. case_bool_decide; [by constructor|done]. Qed.

Lemma toolPrefix_starts msgs : startsWhole (drop (toolPrefix msgs) msgs).
Proof. induction msgs as [|m msgs IH]; cbn; [done|]. by case_bool_decide. Qed.

Lemma groupStart_starts msgs i : startsWhole (drop (groupStart msgs i) msgs).
Proof. unfold groupStart. rewrite <- drop_drop. apply toolPrefix_starts. Qed.

Lemma groupStart_ge msgs i : (i ≤ groupStart msgs i)%nat.
Proof. unfold groupStart. lia. Qed.

(** It moves over tool results only. *)
Lemma groupStart_first msgs i j : (i ≤ j)%nat → startsWhole (drop j msgs) → (j < length msgs)%nat →
  (groupStart msgs i ≤ j)%nat.
Proof.
  intros Hij Hs Hj. unfold groupStart.
  destruct (decide (i + toolPrefix (drop i msgs) ≤ j)%nat) as [|Hgt]; [done|]. exfalso.
  destruct (lookup_lt_is_Some_2 msgs j Hj) as [m Hm].
  rewrite (drop_S _ _ _ Hm) in Hs. cbn in Hs. apply Hs.
  pose proof (toolPrefix_tools (drop i msgs)) as Ht. rewrite Forall_lookup in Ht.
  apply (Ht (j - i)%nat). rewrite lookup_take_lt by lia. rewrite lookup_drop.
  by replace (i + (j - i))%nat with j by lia.
Qed.

(** ** Costs of suffixes *)

Lemma EstimateMessageTokens_pos m : 4 ≤ EstimateMessageTokens m.
Proof.
  unfold EstimateMessageTokens, meta.len.
  set (s := sum _).
  assert (0 ≤ s) as Hs.
  { subst s. unfold sum. induction (llm.Msg_ToolCalls m) as [|tc l IH]; cbn [map foldr]; lia. }
  assert (∀ x, 0 ≤ x → 4 ≤ x / 4 + 4) as Hx by (intros x Hx; pose proof (Z.div_pos x 4); lia).
  apply Hx. lia.
Qed.

Lemma EstimateTokens_app l1 l2 : EstimateTokens (l1 ++ l2) = EstimateTokens l1 + EstimateTokens l2.
Proof. unfold EstimateTokens, sum. rewrite map_app, foldr_app. induction l1 as [|m l1 IH]; cbn; [done|]. lia. Qed.

Lemma EstimateTokens_cons m l : EstimateTokens (m :: l) = EstimateMessageTokens m + EstimateTokens l.
Proof. done. Qed.

Lemma EstimateTokens_nonneg l : 0 ≤ EstimateTokens l.
Proof.
  induction l as [|m l IH]; [done|]. rewrite EstimateTokens_cons.
  pose proof (EstimateMessageTokens_pos m). lia.
Qed.

Lemma EstimateTokens_suffix l t : t `suffix_of` l → EstimateTokens t ≤ EstimateTokens l.
Proof. intros [k ->]. rewrite EstimateTokens_app. pose proof (EstimateTokens_nonneg k). lia. Qed.

(** The walks read the reversed history; [older ++ newer] is the history with
    [newer] already paid for. *)
Lemma fitFrom_spec budget older newer :
  EstimateTokens newer ≤ budget →
  let at_ := fitFrom budget (EstimateTokens newer) (length older) (rev older) in
  (at_ ≤ length older)%nat ∧
  EstimateTokens (drop at_ (older ++ newer)) ≤ budget ∧
  (∀ j, (j < at_)%nat → budget < EstimateTokens (drop j (older ++ newer))).
Proof.
  revert newer. induction older as [|m older IH] using rev_ind; intros newer Hn; cbn.
  { rewrite drop_0. split_and!; [lia|done|lia]. }
  rewrite rev_app_distr. cbn. rewrite length_app. cbn.
  rewrite (Z.add_comm (EstimateTokens newer)), <- EstimateTokens_cons.
  case (Z.ltb_spec budget (EstimateTokens (m :: newer))) as [Hgt|Hle].
  - rewrite drop_app_ge by (rewrite length_app; cbn; lia). rewrite length_app. cbn.
    replace (length older + 1 - (length older + 1))%nat with 0%nat by lia.
    split_and!; [lia|done|]. intros j Hj.
    eapply Z.lt_le_trans; [exact Hgt|]. apply EstimateTokens_suffix.
    rewrite <- app_assoc. cbn. rewrite drop_app_le by lia. by exists (drop j older).
  - specialize (IH _ Hle). cbn zeta in IH. rewrite length_rev. rewrite <- app_assoc. cbn.
    destruct IH as (H1 & H2 & H3). split_and!; [lia|done..].
Qed.

Lemma reserveFrom_spec reserve older newer n :
  EstimateTokens newer < reserve →
  let at_ := reserveFrom reserve (EstimateTokens newer) n (rev older) in
  (EstimateTokens (older ++ newer) < reserve ∧ at_ = n) ∨
  ((at_ < length older)%nat ∧ reserve ≤ EstimateTokens (drop at_ (older ++ newer)) ∧
   (∀ j, (at_ < j)%nat → EstimateTokens (drop j (older ++ newer)) < reserve)).
Proof.
  revert newer. induction older as [|m older IH] using rev_ind; intros newer Hn; cbn; [by left|].
  rewrite rev_app_distr. cbn. rewrite length_app. cbn.
  rewrite (Z.add_comm (EstimateTokens newer)), <- EstimateTokens_cons.
  rewrite <- app_assoc. cbn.
  case (Z.leb_spec reserve (EstimateTokens (m :: newer))) as [Hle|Hgt].
  - right. rewrite length_rev. split_and!; [lia| |].
    + by rewrite drop_app_length.
    + intros j Hj. eapply Z.le_lt_trans; [|exact Hn]. apply EstimateTokens_suffix.
      rewrite drop_app_ge by lia. destruct (j - length older)%nat as [|k] eqn:E; [lia|]. cbn.
      exists (take k newer). by rewrite take_drop.
  - destruct (IH _ Hgt) as [[H1 H2]|(H1 & H2 & H3)]; [by left|]. right. split_and!; [lia|done..].
Qed.

(** ** The history a request carries *)

(** [TrimHistory], with room for at least one token, returns a nonempty
    suffix of a nonempty history; it is the whole history, or its most recent
    message alone, or fits the budget and starts off a tool result; and every
    suffix that fits and starts off a tool result is a suffix of what is
    returned. *)
Lemma TrimHistory_spec msgs systemTokens contextWindow reserveTokens :
  0 < trimBudget systemTokens contextWindow reserveTokens → msgs ≠ [] →
  let kept := TrimHistory msgs systemTokens contextWindow reserveTokens in
  let budget := trimBudget systemTokens contextWindow reserveTokens in
  kept `suffix_of` msgs ∧ kept ≠ [] ∧
  (kept = msgs ∨ length kept = 1%nat ∨ startsWhole kept) ∧
  (length kept = 1%nat ∨ EstimateTokens kept ≤ budget) ∧
  (∀ t, t `suffix_of` msgs → startsWhole t → EstimateTokens t ≤ budget → t `suffix_of` kept).
Proof.
  intros Hb Hne. unfold TrimHistory.
  set (budget := trimBudget _ _ _) in *.
  rewrite (proj2 (Z.leb_gt _ _) Hb).
  assert (0 < length msgs)%nat as Hlen by (destruct msgs; [done|cbn; lia]).
  rewrite (proj2 (Nat.eqb_neq _ _)) by lia. cbn [orb].
  pose proof (fitFrom_spec budget msgs [] ltac:(unfold EstimateTokens; cbn; lia)) as H.
  rewrite app_nil_r in H. change (EstimateTokens []) with 0 in H. cbn zeta in H.
  set (at_ := fitFrom _ _ _ _) in *. destruct H as (Hat & Hfit & Hmax).
  assert (∀ j, (j ≤ length msgs)%nat → ∀ t, t `suffix_of` msgs → (length t ≤ length msgs - j)%nat →
    t `suffix_of` drop j msgs) as Hsuf.
  { intros j Hj t [k Hk] Hl. exists (drop j k).
    assert (length msgs = length k + length t)%nat as E by (rewrite Hk; apply length_app).
    rewrite Hk, drop_app_le by lia. done. }
  assert (∀ t, t `suffix_of` msgs → EstimateTokens t ≤ budget → (length t ≤ length msgs - at_)%nat) as Hfits.
  { intros t [k Hk] Ht. destruct (decide (length k < at_)%nat) as [Hlt|].
    - apply Hmax in Hlt. rewrite Hk, drop_app_length in Hlt. lia.
    - assert (length msgs = length k + length t)%nat by (rewrite Hk; apply length_app). lia. }
  destruct (Nat.eqb_spec at_ 0) as [E|Hat0].
  { rewrite E, drop_0 in Hfit. split_and!; [by exists []|done|by left|by right|auto]. }
  pose proof (groupStart_ge msgs at_) as Hge.
  destruct (Nat.leb_spec (length msgs) (groupStart msgs at_)) as [Hover|Hin].
  - assert (length (drop (length msgs - 1) msgs) = 1)%nat as H1 by (rewrite length_drop; lia).
    split_and!; [apply suffix_drop|by intros E; rewrite E in H1|auto..].
    intros t Ht Hs Hc. apply Hsuf; [lia|done|].
    destruct t as [|m t]; [cbn; lia|]. exfalso.
    destruct Ht as [k Hk]. pose proof (Hfits (m :: t) (ex_intro _ k Hk) Hc) as Hl.
    assert (length msgs = length k + length (m :: t))%nat as E by (rewrite Hk; apply length_app).
    cbn [length] in E, Hl. assert (groupStart msgs at_ ≤ length k)%nat; [|lia].
    apply groupStart_first; [lia| |lia]. by rewrite Hk, drop_app_length.
  - assert (drop (groupStart msgs at_) msgs ≠ []) as Hd.
    { intros E. apply (f_equal length) in E. rewrite length_drop in E. cbn in E. lia. }
    split_and!; [apply suffix_drop|done|right; right; apply groupStart_starts| |].
    + right. etransitivity; [|exact Hfit]. apply EstimateTokens_suffix.
      unfold groupStart. rewrite <- drop_drop. apply suffix_drop.
    + intros t Ht Hs Hc. pose proof (Hfits t Ht Hc) as Hl. apply Hsuf; [lia|done|].
      destruct t as [|m t]; [cbn; lia|]. destruct Ht as [k Hk].
      assert (length msgs = length k + length (m :: t))%nat as E by (rewrite Hk; apply length_app).
      cbn [length] in *. assert (groupStart msgs at_ ≤ length k)%nat; [|lia].
      apply groupStart_first; [lia| |lia]. by rewrite Hk, drop_app_length.
Qed.

(** Room for ten tokens: the two most recent messages of three. *)
Lemma TrimHistory_spec_witness :
  let msgs := map userMessage ["a"; "b"; "c"]%string in
  TrimHistory msgs 0 4106 0 = map userMessage ["b"; "c"]%string ∧
  length (TrimHistory msgs 0 4106 0) ≠ 1%nat ∧
  EstimateTokens (TrimHistory msgs 0 4106 0) ≤ trimBudget 0 4106 0.
Proof.
  intros msgs.
  assert (TrimHistory msgs 0 4106 0 = map userMessage ["b"; "c"]%string) as E by (vm_compute; reflexivity).
  assert (length (TrimHistory msgs 0 4106 0) ≠ 1%nat) as H1 by (rewrite E; discriminate).
  split; [exact E|split; [exact H1|]].
  destruct (TrimHistory_spec msgs 0 4106 0 ltac:(vm_compute; reflexivity) ltac:(discriminate))
    as (_ & _ & _ & [H|H] & _); [by destruct H1|exact H].
Defined.

(** What is sent of a conversation is one, or one message by itself. *)
Lemma TrimHistory_conversation msgs systemTokens contextWindow reserveTokens :
  conversation msgs →
  let kept := TrimHistory msgs systemTokens contextWindow reserveTokens in
  conversation kept ∨ length kept = 1%nat.
Proof.
  intros Hc. cbn zeta. unfold TrimHistory.
  destruct (_ || _) eqn:E; [by left|]. apply orb_false_iff in E as [_ E%Nat.eqb_neq].
  destruct (_ =? 0)%nat; [by left|].
  destruct (_ <=? _)%nat; [right; rewrite length_drop; lia|].
  left. eapply conversation_cut; [exact Hc|by rewrite take_drop|apply groupStart_starts].
Qed.

(** [splitForCompaction] cuts a history in two: what is summarized and what
    is kept are the history in order, what is kept starts off a tool result when
    anything is summarized (so the two halves of a conversation are
    conversations), anything summarized leaves something kept, and what follows
    the first group kept costs less than the reserve. *)
Lemma splitForCompaction_spec msgs reserveTokens :
  let '(toSummarize, toKeep) := splitForCompaction msgs reserveTokens in
  msgs = toSummarize ++ toKeep ∧
  (toSummarize ≠ [] → toKeep ≠ [] ∧ startsWhole toKeep) ∧
  (conversation msgs → conversation toSummarize ∧ conversation toKeep) ∧
  (toSummarize ≠ [] → 0 < reserveTokens → EstimateTokens (drop 1 toKeep) < reserveTokens).
Proof.
  unfold splitForCompaction. set (at_ := reserveFrom _ _ _ _).
  destruct (Nat.eqb_spec at_ 0) as [E|H0].
  { split_and!; [done|done| |done]. intros H. split; [constructor|done]. }
  destruct (Nat.leb_spec (length msgs) (groupStart msgs at_)) as [Hover|Hin].
  { split_and!; [done|done| |done]. intros H. split; [constructor|done]. }
  split_and!.
  - by rewrite take_drop.
  - intros _. split; [|apply groupStart_starts].
    intros E%(f_equal length). rewrite length_drop in E. cbn in E. lia.
  - intros H. eapply conversation_cut; [exact H|by rewrite take_drop|apply groupStart_starts].
  - intros _ Hpos. pose proof (reserveFrom_spec reserveTokens msgs [] (length msgs)) as H.
    rewrite app_nil_r in H. change (EstimateTokens []) with 0 in H. specialize (H Hpos). cbn zeta in H.
    fold at_ in H. pose proof (groupStart_ge msgs at_) as Hge.
    destruct H as [[_ E]|(_ & _ & Hlt)]; [lia|].
    rewrite drop_drop. apply Hlt. lia.
Qed.

(** ** The message queue *)

Section Queue.
Import queue.

Definition within (q : MessageQueue) : Prop := 0 < Q_max q ∧ Len q ≤ Q_max q.

(** What a surface does to its queue. *)
Inductive queueOp : Type := OpEnqueue (text : string) | OpDequeue | OpDropLast | OpDrop.

Definition runOp (op : queueOp) (q : MessageQueue) : MessageQueue :=
  match op with
  | OpEnqueue text => (Enqueue text q).2
  | OpDequeue => (Dequeue q).2
  | OpDropLast => (DropLast q).2
  | OpDrop => (Drop q).2
  end.

Lemma runOp_within op q : within q → within (runOp op q).
Proof.
  unfold within, Len. destruct op; cbn; unfold Enqueue, Dequeue, DropLast, Len.
  - destruct (Z.leb_spec (Q_max q) (Z.of_nat (length (Q_items q)))); cbn; [done|]. rewrite length_app. cbn. lia.
  - destruct (Q_items q) as [|text items] eqn:E; cbn; [rewrite E; cbn; lia|cbn; lia].
  - destruct (last (Q_items q)) eqn:E; cbn; [|done]. rewrite removelast_firstn_len, length_take. lia.
  - lia.
Qed.

(** A queue is never longer than its cap, whatever is done to it; a message
    is refused exactly at the cap and leaves the queue as it was; messages come
    out in the order they went in. *)
Theorem MessageQueue_fifo max ops text :
  let q := foldl (λ q op, runOp op q) (NewMessageQueue max) ops in
  within q ∧
  (Enqueue text q = (Err ErrQueueFull, q) ↔ Len q = Q_max q) ∧
  (Len q < Q_max q →
   (Enqueue text q).1 = Ok (Len q + 1) ∧ Snapshot (Enqueue text q).2 = Snapshot q ++ [text] ∧
   DropLast (Enqueue text q).2 = (Some text, q)) ∧
  (Dequeue q).1 = head (Snapshot q) ∧ Snapshot (Dequeue q).2 = tail (Snapshot q).
Proof.
  cbn zeta. set (q := foldl _ _ _).
  assert (within q) as Hq.
  { subst q. assert (within (NewMessageQueue max)) as H.
    { unfold within, NewMessageQueue, Len, DefaultMaxQueuedMessages. cbn. destruct (Z.leb_spec max 0); cbn; lia. }
    revert H. generalize (NewMessageQueue max). induction ops as [|op ops IH]; intros q H; cbn; [done|].
    apply IH. by apply runOp_within. }
  clearbody q. split; [done|]. destruct Hq as [Hpos Hq]. split; [|split; [|split]].
  - unfold Enqueue. destruct (Z.leb_spec (Q_max q) (Len q)); [|split; [done|lia]]. split; [intros _; lia|done].
  - intros Hlt. unfold Enqueue. destruct (Z.leb_spec (Q_max q) (Len q)); [lia|]. cbn.
    split_and!; [|done|].
    + unfold Len. cbn. rewrite length_app. cbn. f_equal. lia.
    + unfold DropLast. cbn. rewrite last_snoc, removelast_last. by destruct q.
  - unfold Dequeue, Snapshot. by destruct (Q_items q).
  - unfold Dequeue, Snapshot. destruct (Q_items q) eqn:E; cbn; [by rewrite E|done].
Qed.
End Queue.

(** ** Question sets *)

Section Questions.
Import question.
Context (ToLower : string → string).

Definition optionKey (o : QuestionOption) : string := ToLower (TrimSpace (Opt_Label o)).
Definition questionKey (q : Question) : string := ToLower (TrimSpace (Qu_Text q)).

Definition okOption (o : QuestionOption) : Prop :=
  TrimSpace (Opt_Label o) ≠ "" ∧ RuneCountInString (TrimSpace (Opt_Label o)) ≤ 80 ∧
  RuneCountInString (Opt_Description o) ≤ 200.

Definition okQuestion (q : Question) : Prop :=
  TrimSpace (Qu_Text q) ≠ "" ∧ RuneCountInString (Qu_Text q) ≤ 1000 ∧
  RuneCountInString (Qu_Header q) ≤ 24 ∧ (length (Qu_Options q) ≤ 4)%nat ∧
  (Qu_MultiSelect q = true → (2 ≤ length (Qu_Options q))%nat) ∧
  Forall okOption (Qu_Options q) ∧ NoDup (map optionKey (Qu_Options q)).

Lemma validateOptions_ok options : ∀ i seen,
  validateOptions ToLower i seen options = Ok tt ↔
  Forall okOption options ∧ NoDup (map optionKey options) ∧ (∀ o, o ∈ options → optionKey o ∉ seen).
Proof.
  induction options as [|o options IH]; intros i seen; cbn [validateOptions map].
  { split; [|done]. intros _. split_and!; [constructor|constructor|]. intros o H. by apply not_elem_of_nil in H. }
  unfold MaxOptionLabelChars, MaxOptionDetailChars. fold (optionKey o).
  rewrite Forall_cons, NoDup_cons, list_elem_of_fmap. unfold okOption at 1.
  case_bool_decide as H1; [naive_solver|].
  destruct (Z.ltb_spec 80 (RuneCountInString (TrimSpace (Opt_Label o)))); [split; [done|]; naive_solver lia|].
  destruct (Z.ltb_spec 200 (RuneCountInString (Opt_Description o))); [split; [done|]; naive_solver lia|].
  destruct (decide (optionKey o ∈ seen)) as [Hin|Hin].
  { split; [done|]. intros (_ & _ & H'). exfalso. by apply (H' o); [left|]. }
  rewrite IH. setoid_rewrite not_elem_of_union. setoid_rewrite not_elem_of_singleton. split.
  - intros (Hf & Hn & Hs). split_and!; [done|done|lia|done| |done|].
    + intros (o' & E & Ho). by destruct (Hs o' Ho).
    + intros o' [->|Ho]%elem_of_cons; [done|]. by apply (Hs o' Ho).
  - intros ((_ & Hf) & (Hk & Hn) & Hs). split_and!; [done|done|].
    intros o' Ho. split; [intros E; apply Hk; by exists o'|]. apply Hs. by right.
Qed.

Lemma validateQuestion_ok q : validateQuestion ToLower q = Ok tt ↔ okQuestion q.
Proof.
  unfold validateQuestion, okQuestion, MaxQuestionChars, MaxQuestionHeaderChars, MaxQuestionOptions.
  case_bool_decide as H1; [naive_solver|].
  destruct (Z.ltb_spec 1000 (RuneCountInString (Qu_Text q))); [split; [done|]; naive_solver lia|].
  destruct (Z.ltb_spec 24 (RuneCountInString (Qu_Header q))); [split; [done|]; naive_solver lia|].
  destruct (Z.ltb_spec 4 (Z.of_nat (length (Qu_Options q)))); [split; [done|]; naive_solver lia|].
  destruct (Qu_MultiSelect q) eqn:Em; cbn [andb].
  - destruct (Z.ltb_spec (Z.of_nat (length (Qu_Options q))) 2).
    { split; [done|]. intros (_ & _ & _ & _ & H' & _). specialize (H' eq_refl). lia. }
    rewrite validateOptions_ok. setoid_rewrite elem_of_empty. naive_solver lia.
  - rewrite validateOptions_ok. setoid_rewrite elem_of_empty. naive_solver lia.
Qed.

Lemma validateEach_ok qs : ∀ i seen,
  validateEach ToLower i seen qs = Ok tt ↔
  Forall okQuestion qs ∧ NoDup (map questionKey qs) ∧ (∀ q, q ∈ qs → questionKey q ∉ seen).
Proof.
  induction qs as [|q qs IH]; intros i seen; cbn [validateEach map].
  { split; [|done]. intros _. split_and!; [constructor|constructor|]. intros q H. by apply not_elem_of_nil in H. }
  fold (questionKey q). rewrite Forall_cons, NoDup_cons, list_elem_of_fmap, <- (validateQuestion_ok q).
  destruct (validateQuestion ToLower q) as [[]|e]; [|split; naive_solver].
  destruct (decide (questionKey q ∈ seen)) as [Hin|Hin].
  { split; [done|]. intros (_ & _ & H'). exfalso. by apply (H' q); [left|]. }
  rewrite IH. setoid_rewrite not_elem_of_union. setoid_rewrite not_elem_of_singleton. split.
  - intros (Hf & Hn & Hs). split_and!; [done|done| |done|].
    + intros (q' & E & Hq). by destruct (Hs q' Hq).
    + intros q' [->|Hq]%elem_of_cons; [done|]. by apply (Hs q' Hq).
  - intros ((_ & Hf) & (Hk & Hn) & Hs). split_and!; [done|done|].
    intros q' Hq. split; [intros E; apply Hk; by exists q'|]. apply Hs. by right.
Qed.

(** [ValidateQuestions] accepts one to four questions within the bounds, no two
    of which read the same, with options no two of which read the same. *)
Lemma ValidateQuestions_ok qs :
  ValidateQuestions ToLower qs = Ok tt ↔
  (1 ≤ length qs ≤ 4)%nat ∧ Forall okQuestion qs ∧ NoDup (map questionKey qs).
Proof.
  unfold ValidateQuestions, MaxQuestions.
  destruct (Nat.eqb_spec (length qs) 0); [split; [done|]; naive_solver lia|].
  destruct (Z.ltb_spec 4 (Z.of_nat (length qs))); [split; [done|]; naive_solver lia|].
  rewrite validateEach_ok. setoid_rewrite elem_of_empty. naive_solver lia.
Qed.
End Questions.
