(* ===== verification/TurnQueue.v ===== *)
(** * TurnQueue: the turns of a conversation, in a process and across replicas

    [Module conversationdb]: the messages of a conversation
    (internal/infra/db/conversation_message.go).  [Module coordination]: the
    locks of internal/infra/coordination/lock.go as what their Lua scripts do to
    Redis.  [Module turnqueue]: internal/server/turnqueue/turnqueue.go, every
    goroutine as a program counter ([thread]) over the shared [Registry], one
    step per critical section.  [Module servercoord]: the lock a replica takes
    for a turn (internal/server/coordination). *)

From Stdlib Require Import Ascii String.
From S2P Require Import Prelude EffLogic Text Json TaskCore WorkflowCore LedgerCore Store TaskStore SessionCore Pricing SessionMeta AgentContext.
From stdpp Require Import gmap strings pretty.
Import Prelude.
Import db coreconv.
Local Open Scope string_scope.
Local Open Scope Z_scope.
Local Open Scope buildmax_scope.

Module conversationdb.
Import taskdb.
Local Open Scope string_scope.
Local Open Scope Z_scope.

Definition ErrStaleTurnWrite : error := ErrService "conversation turn superseded by a newer holder".

(** The column turn_fence of a conversation. *)
Definition turnFence (s : Store) (conversationID : string) : Z := default 0 (st_turn_fence s !! conversationID).

Section Messages.
Context (gen : nat → string).

Definition messageIDs (s : Store) : list string := map CM_ID (st_messages s).

Definition insertMessage (in_ : AppendInput) (createdAt : Z) : DB Message :=
  id ← createWithPublicID gen messageIDs;
  let row := {| CM_ID := id; CM_ConversationID := AI_ConversationID in_; CM_Role := AI_Role in_;
                CM_Content := AI_Content in_; CM_Channel := AI_Channel in_; CM_ToolCallID := AI_ToolCallID in_;
                CM_ToolCallsJSON := AI_ToolCallsJSON in_; CM_ProviderStateJSON := AI_ProviderStateJSON in_;
                CM_PartsJSON := AI_PartsJSON in_; CM_AssistantRevision := AI_AssistantRevision in_;
                CM_CreatedAt := createdAt |} in
  s ← get;
  _ ← put (s <| st_messages := (st_messages s ++ [row])%list |>
             <| st_refs := {[("conversation_message", id)]} ∪ st_refs s |>);
  mret row.

Definition appendFenced (fence : Z) (conversationID : string) (insert : DB Message) : DB Message :=
  transaction (
    _ ← lookupKey "conversation" conversationID;
    s ← get;
    if fence <? turnFence s conversationID then fail ErrStaleTurnWrite
    else
      _ ← (if turnFence s conversationID <? fence
           then put (s <| st_turn_fence := <[conversationID := fence]> (st_turn_fence s) |>) else mret tt);
      insert).

Definition AppendMessage (in_ : AppendInput) : DB Message :=
  createdAt ← now;
  if AI_Fence in_ =? 0 then
    _ ← lookupKey "conversation" (AI_ConversationID in_);
    insertMessage in_ createdAt
  else appendFenced (AI_Fence in_) (AI_ConversationID in_) (insertMessage in_ createdAt).

Definition GetMessage (messageID : string) : DB (option Message) :=
  gets (λ s, take_where (λ m, CM_ID m == messageID) (st_messages s)).

Definition ListMessages (conversationID : string) : DB (list Message) :=
  gets (λ s, by_created CM_CreatedAt (rows_where (λ m, CM_ConversationID m == conversationID) (st_messages s))).
End Messages.

End conversationdb.

Module coordination.
Local Open Scope string_scope.
Local Open Scope Z_scope.

(** ** Redis: keys with their expiry in milliseconds, and counters *)

Record Redis : Type := mkRedis {
  Rd_keys : gmap string (string * Z);
  Rd_counters : gmap string Z
}.
#[export] Instance Redis_updatable : Updatable Redis := λ r, mkRedis (Rd_keys r) (Rd_counters r).

Definition Millisecond : Z := 1000000.
Definition Microsecond : Z := 1000.

Definition GET (now_ : Z) (key : string) (r : Redis) : option string :=
  match Rd_keys r !! key with
  | Some (value, expiry) => if now_ / Millisecond <? expiry then Some value else None
  | None => None
  end.

Section Scripts.
(** How Lua writes a number it joins to a string. *)
Context (luaText : Z → string).

(** [fence .. ':' .. ARGV[2]] *)
Definition stored (fence : Z) (nonce : string) : string := luaText fence +:+ ":" +:+ nonce.

Definition acquireScript (lockKey fenceKey : string) (ttlMillis : Z) (nonce : string) (floor now_ : Z) (r : Redis) : Z * Redis :=
  if bool_decide (is_Some (GET now_ lockKey r)) then (-1, r)
  else
    let fence := default floor (Rd_counters r !! fenceKey) + 1 in
    (fence, r <| Rd_counters := <[fenceKey := fence]> (Rd_counters r) |>
              <| Rd_keys := <[lockKey := (stored fence nonce, now_ / Millisecond + ttlMillis)]> (Rd_keys r) |>).

Definition renewScript (lockKey holder : string) (ttlMillis now_ : Z) (r : Redis) : Z * Redis :=
  if bool_decide (GET now_ lockKey r = Some holder)
  then (1, r <| Rd_keys := <[lockKey := (holder, now_ / Millisecond + ttlMillis)]> (Rd_keys r) |>)
  else (0, r).

Definition releaseScript (lockKey holder : string) (now_ : Z) (r : Redis) : Z * Redis :=
  if bool_decide (GET now_ lockKey r = Some holder)
  then (1, r <| Rd_keys := delete lockKey (Rd_keys r) |>) else (0, r).

(** ** Leases *)

Record Lease : Type := mkLease {
  Ls_lockKey : string;
  Ls_fence : Z;
  Ls_holder : string;
  Ls_ttl : Z;
  (** The renewer is still running. *)
  Ls_renewing : bool;
  Ls_confirmed : Z;
  Ls_lost : bool
}.
#[export] Instance Lease_updatable : Updatable Lease := λ l,
  mkLease (Ls_lockKey l) (Ls_fence l) (Ls_holder l) (Ls_ttl l) (Ls_renewing l) (Ls_confirmed l) (Ls_lost l).

Definition startLease (lockKey : string) (fence : Z) (nonce : string) (ttl now_ : Z) : Lease := {|
  Ls_lockKey := lockKey; Ls_fence := fence; Ls_holder := pretty fence +:+ ":" +:+ nonce; Ls_ttl := ttl;
  Ls_renewing := true; Ls_confirmed := now_; Ls_lost := false |}.

Definition fenceFloor (now_ : Z) : Z := now_ / Microsecond.

(** [TryAcquireLock], and one turn of the loop of [AcquireLock]. *)
Definition TryAcquireLock (key : string) (ttl : Z) (nonce : string) (now_ : Z) (r : Redis) : option Lease * Redis :=
  let '(fence, r) := acquireScript ("lock:" +:+ key) ("fence:" +:+ key) (ttl / Millisecond) nonce (fenceFloor now_) now_ r in
  if 0 <? fence then (Some (startLease ("lock:" +:+ key) fence nonce ttl now_), r) else (None, r).

(** A tick of the renewer; [reachable] is whether Redis answered. *)
Definition renewTick (reachable : bool) (now_ : Z) (l : Lease) (r : Redis) : Lease * Redis :=
  if negb (Ls_renewing l) then (l, r)
  else if reachable then
    let '(renewed, r) := renewScript (Ls_lockKey l) (Ls_holder l) (Ls_ttl l / Millisecond) now_ r in
    if renewed =? 1 then (l <| Ls_confirmed := now_ |>, r)
    else (l <| Ls_lost := true |> <| Ls_renewing := false |>, r)
  else if Ls_ttl l <=? now_ - Ls_confirmed l then (l <| Ls_lost := true |> <| Ls_renewing := false |>, r)
  else (l, r).

(** The deletion is best effort. *)
Definition Release (reachable : bool) (now_ : Z) (l : Lease) (r : Redis) : Redis :=
  if reachable then (releaseScript (Ls_lockKey l) (Ls_holder l) now_ r).2 else r.
End Scripts.

End coordination.

Module turnqueue.
Import coordination.
Local Open Scope string_scope.
Local Open Scope Z_scope.

Definition MaxQueued : Z := queue.DefaultMaxQueuedMessages.

Inductive error : Type := ErrQueueFull | ErrDraining | ErrCoordinationUnavailable.

#[export] Instance error_eq_dec : EqDecision error.
Proof. solve_decision. Defined.

(** What a [Job]'s callers and its queue share; the turn itself is what its
    goroutine does between [Running] and [Releasing]. *)
Record Job : Type := mkJob {
  J_Dropped : bool;
  J_err : option error;
  J_Done : bool
}.
#[export] Instance Job_updatable : Updatable Job := λ j, mkJob (J_Dropped j) (J_err j) (J_Done j).

Definition NewJob : Job := mkJob false None false.

Record convQueue : Type := mkConvQueue {
  CQ_running : bool;
  CQ_pending : list nat
}.
#[export] Instance convQueue_updatable : Updatable convQueue := λ q, mkConvQueue (CQ_running q) (CQ_pending q).

(** Where a goroutine is.  A caller of [Submit] ([sync]: of [RunSync]) is before
    [r.mu], between [r.mu] and [q.mu], at its deferred [active.Done], waiting
    for the job, or back.  The goroutine of a queue runs [drain]. *)
Inductive thread : Type :=
| Submitting (conversationID : string) (job : nat) (sync : bool)
| Found (conversationID : string) (q : nat) (job : nat) (sync : bool)
| Leaving (job : nat) (sync : bool) (answer : res error Z)
| Awaiting (job : nat)
| Returned (answer : option (res error Z))
| Looping (conversationID : string) (q : nat) (job : nat)
| Acquiring (conversationID : string) (q : nat) (job : nat)
| Running (conversationID : string) (q : nat) (job : nat) (lease : option Lease)
| Releasing (conversationID : string) (q : nat) (job : nat) (lease : option Lease)
| Closing (conversationID : string) (q : nat) (job : nat) (err : option error)
| Taking (conversationID : string) (q : nat)
| Taken (conversationID : string) (q : nat) (job : nat)
| Forgetting (conversationID : string) (q : nat)
| Exiting.

(** What the goroutines were seen to do. *)
Inductive event : Type :=
| Rejected (job : nat) (e : error)
| Enqueued (q job : nat)
| Started (job : nat) (fence : Z)
| Refused (job : nat) (e : error)
| Dequeued (job : nat)
| Closed (q job : nat).

#[export] Instance event_eq_dec : EqDecision event.
Proof. solve_decision. Defined.

Record Registry : Type := mkRegistry {
  R_queues : gmap string nat;
  (** Every queue ever made, by its address. *)
  R_heap : list convQueue;
  R_draining : bool;
  R_active : Z;
  (** Whether there is a [Locker], and whether its context was canceled. *)
  R_locker : bool;
  R_lockCanceled : bool;
  R_jobs : list Job;
  R_threads : list thread;
  R_log : list event
}.
#[export] Instance Registry_updatable : Updatable Registry := λ r,
  mkRegistry (R_queues r) (R_heap r) (R_draining r) (R_active r) (R_locker r) (R_lockCanceled r) (R_jobs r)
    (R_threads r) (R_log r).

Definition NewRegistry (locker : bool) : Registry := mkRegistry ∅ [] false 0 locker false [] [] [].

Definition emit (e : event) (r : Registry) : Registry := r <| R_log := (R_log r ++ [e])%list |>.

Definition queue_at (r : Registry) (q : nat) : convQueue := default (mkConvQueue false []) (R_heap r !! q).
Definition job_at (r : Registry) (j : nat) : Job := default NewJob (R_jobs r !! j).

(** ** Submit *)

(** Under [r.mu]. *)
Definition enter (conversationID : string) (job : nat) (sync : bool) (r : Registry) : thread * Registry :=
  if R_draining r then (Returned (Some (Err ErrDraining)), emit (Rejected job ErrDraining) r)
  else
    let r := r <| R_active := R_active r + 1 |> in
    match R_queues r !! conversationID with
    | Some q => (Found conversationID q job sync, r)
    | None =>
        let q := length (R_heap r) in
        (Found conversationID q job sync,
         r <| R_heap := (R_heap r ++ [mkConvQueue false []])%list |> <| R_queues := <[conversationID := q]> (R_queues r) |>)
    end.

(** A caller of [Submit] is back; one of [RunSync] waits. *)
Definition submitted (job : nat) (sync : bool) (answer : res error Z) : thread :=
  if sync then match answer with Ok _ => Awaiting job | Err e => Returned (Some (Err e)) end
  else Returned (Some answer).

(** Under [q.mu]; the goroutine it starts, if any. *)
Definition enqueue (conversationID : string) (q job : nat) (sync : bool) (r : Registry) : thread * list thread * Registry :=
  let cq := queue_at r q in
  if CQ_running cq then
    if MaxQueued <=? Z.of_nat (length (CQ_pending cq)) then
      (Leaving job sync (Err ErrQueueFull), [], emit (Rejected job ErrQueueFull) r)
    else
      let cq := cq <| CQ_pending := (CQ_pending cq ++ [job])%list |> in
      (Leaving job sync (Ok (Z.of_nat (length (CQ_pending cq)))), [], emit (Enqueued q job) (r <| R_heap := <[q := cq]> (R_heap r) |>))
  else
    (submitted job sync (Ok 0), [Looping conversationID q job],
     emit (Enqueued q job) (r <| R_heap := <[q := cq <| CQ_running := true |>]> (R_heap r) |>)).

(** ** drain *)

(** What became of an attempt to take the conversation's lease. *)
Inductive attempt : Type := Granted (lease : Lease) | Held | Failed.

(** [runLocked], up to the start of the turn. *)
Definition runLocked (conversationID : string) (q job : nat) (a : attempt) (r : Registry) : thread * Registry :=
  match a with
  | Granted lease => (Running conversationID q job (Some lease), emit (Started job (Ls_fence lease)) r)
  | Held => (Acquiring conversationID q job, r)
  | Failed =>
      let e := if R_lockCanceled r then ErrDraining else ErrCoordinationUnavailable in
      (Closing conversationID q job (Some e), emit (Refused job e) r)
  end.

Definition begin (conversationID : string) (q job : nat) (r : Registry) : thread * Registry :=
  if J_Dropped (job_at r job) then (Closing conversationID q job None, r)
  else if R_locker r then (Acquiring conversationID q job, r)
  else (Running conversationID q job None, emit (Started job 0) r).

Definition close_ (conversationID : string) (q job : nat) (err : option error) (r : Registry) : thread * Registry :=
  (Taking conversationID q,
   emit (Closed q job) (r <| R_jobs := alter (λ j, j <| J_err := err |> <| J_Done := true |>) job (R_jobs r) |>)).

(** Under [q.mu]. *)
Definition next (conversationID : string) (q : nat) (r : Registry) : thread * Registry :=
  let cq := queue_at r q in
  match CQ_pending cq with
  | [] => (Forgetting conversationID q, r <| R_heap := <[q := cq <| CQ_running := false |>]> (R_heap r) |>)
  | job :: pending => (Taken conversationID q job, r <| R_heap := <[q := cq <| CQ_pending := pending |>]> (R_heap r) |>)
  end.

Definition announce (conversationID : string) (q job : nat) (r : Registry) : thread * Registry :=
  (Looping conversationID q job, if J_Dropped (job_at r job) then r else emit (Dequeued job) r).

(** Under [r.mu] and [q.mu]. *)
Definition forget (conversationID : string) (q : nat) (r : Registry) : thread * Registry :=
  if bool_decide (R_queues r !! conversationID = Some q) then
    let cq := queue_at r q in
    if negb (CQ_running cq) && bool_decide (CQ_pending cq = [])
    then (Exiting, r <| R_queues := delete conversationID (R_queues r) |>) else (Exiting, r)
  else (Exiting, r).

(** [active.Done()] *)
Definition uncount (r : Registry) : Registry := r <| R_active := R_active r - 1 |>.

(** The next step of a goroutine, and the goroutine it starts: [None] when it is
    over or has to wait.  [a] is what the locker answers. *)
Definition advance (a : attempt) (th : thread) (r : Registry) : option (option thread * list thread * Registry) :=
  let one (x : thread * Registry) := Some (Some (fst x), [], snd x) in
  match th with
  | Submitting c j sync => one (enter c j sync r)
  | Found c q j sync => let '(th, started, r) := enqueue c q j sync r in Some (Some th, started, r)
  | Leaving j sync answer => one (submitted j sync answer, uncount r)
  | Awaiting j =>
      if J_Done (job_at r j)
      then one (Returned (Some (match J_err (job_at r j) with Some e => Err e | None => Ok 0 end)), r)
      else None
  | Returned _ => None
  | Looping c q j => one (begin c q j r)
  | Acquiring c q j => one (runLocked c q j a r)
  | Running c q j lease => one (Releasing c q j lease, r)
  | Releasing c q j _ => one (Closing c q j None, r)
  | Closing c q j err => one (close_ c q j err r)
  | Taking c q => one (next c q r)
  | Taken c q j => one (announce c q j r)
  | Forgetting c q => one (forget c q r)
  | Exiting => Some (None, [], uncount r)
  end.

(** ** The registry's other operations *)

Definition Drain (r : Registry) : Registry := r <| R_draining := true |>.
Definition lockCancel (r : Registry) : Registry := r <| R_lockCanceled := true |>.

(** [Wait] returns true. *)
Definition Waited (r : Registry) : bool := R_active r =? 0.

Definition Waiting (conversationID : string) (r : Registry) : Z :=
  match R_queues r !! conversationID with
  | Some q => Z.of_nat (length (CQ_pending (queue_at r q)))
  | None => 0
  end.

(** What happens to a registry: somebody submits a turn, goroutine [t] takes a
    step, the caller at [t] gives up, or the server begins to stop. *)
Inductive action : Type :=
| Arrive (conversationID : string) (sync : bool)
| Step (t : nat) (a : attempt)
| Leave (t : nat)
| BeginDrain
| CancelLocks.

Definition act (x : action) (r : Registry) : option Registry :=
  match x with
  | Arrive c sync =>
      Some (r <| R_jobs := (R_jobs r ++ [NewJob])%list |>
              <| R_threads := (R_threads r ++ [Submitting c (length (R_jobs r)) sync])%list |>)
  | Step t a =>
      match R_threads r !! t with
      | None => None
      | Some th =>
          match advance a th r with
          | None => None
          | Some (th', started, r') =>
              Some (r' <| R_threads := (<[t := default (Returned None) th']> (R_threads r') ++ started)%list |>)
          end
      end
  | Leave t =>
      match R_threads r !! t with
      | Some (Awaiting j) =>
          Some (r <| R_jobs := alter (λ j, j <| J_Dropped := true |>) j (R_jobs r) |>
                  <| R_threads := <[t := Returned None]> (R_threads r) |>)
      | _ => None
      end
  | BeginDrain => Some (Drain r)
  | CancelLocks => if R_draining r then Some (lockCancel r) else None
  end.

Fixpoint acts (xs : list action) (r : Registry) : option Registry :=
  match xs with
  | [] => Some r
  | x :: xs => match act x r with Some r => acts xs r | None => None end
  end.

End turnqueue.

Module servercoord.
Import coordination turnqueue.
Local Open Scope string_scope.
Local Open Scope Z_scope.

(** ** internal/server/coordination: [TurnLocker] *)

Definition convLockPrefix : string := "conv:".
Definition turnLeaseTTL : Z := 30 * 1000 * Millisecond.

(** One turn of the loop [Acquire] waits in. *)
Definition Acquire (luaText : Z → string) (conversationID nonce : string) (now_ : Z) (r : Redis) : option Lease * Redis :=
  TryAcquireLock luaText (convLockPrefix +:+ conversationID) turnLeaseTTL nonce now_ r.

End servercoord.
