(* ===== verification/TurnLaws.v ===== *)
(** * TurnLaws: turns are served in order, once, and all of them

    What holds of a registry whatever its goroutines do: the invariant [ok], the
    end of every schedule, and what a shutdown can rely on. *)

From Stdlib Require Import Ascii String.
From S2P Require Import Prelude EffLogic TaskCore WorkflowCore LedgerCore Store TaskStore AgentContext TurnQueue.
From stdpp Require Import gmap strings.
Import Prelude.
Import turnqueue.
Local Open Scope Z_scope.
Local Open Scope buildmax_scope.

#[local] Arguments queue_at : simpl never.
#[local] Arguments job_at : simpl never.

(** ** What a goroutine has in hand *)

(** The queue it serves, and the job it holds for it. *)
Definition serving (th : thread) : option (nat * option nat) :=
  match th with
  | Looping _ q j | Acquiring _ q j | Running _ q j _ | Releasing _ q j _ | Closing _ q j _ | Taken _ q j => Some (q, Some j)
  | Taking _ q => Some (q, None)
  | _ => None
  end.

(** The job a caller of [Submit] still holds. *)
Definition offering (th : thread) : option nat :=
  match th with Submitting _ j _ | Found _ _ j _ => Some j | _ => None end.

(** The queue it has a pointer to. *)
Definition address (th : thread) : option nat :=
  match th with Found _ q _ _ | Forgetting _ q => Some q | _ => fst <$> serving th end.

(** Whether it is counted as active. *)
Definition counted (th : thread) : Z :=
  match th with
  | Submitting _ _ _ | Awaiting _ | Returned _ => 0
  | _ => 1
  end.

(** The turn it has begun and not closed. *)
Definition working (th : thread) : option nat :=
  match th with Running _ _ j _ | Releasing _ _ j _ => Some j | Closing _ _ j _ => Some j | _ => None end.

Definition servers (q : nat) : list thread → list (option nat) :=
  omap (λ th, match serving th with Some (q', o) => if bool_decide (q' = q) then Some o else None | None => None end).

Definition active (l : list thread) : Z := foldr (λ th n, counted th + n) 0 l.

(** ** What the log says *)

Definition admitted (q : nat) : list event → list nat :=
  omap (λ e, match e with Enqueued q' j => if bool_decide (q' = q) then Some j else None | _ => None end).
Definition closed (q : nat) : list event → list nat :=
  omap (λ e, match e with Closed q' j => if bool_decide (q' = q) then Some j else None | _ => None end).
Definition admissions : list event → list nat := omap (λ e, match e with Enqueued _ j => Some j | _ => None end).
Definition rejections : list event → list nat := omap (λ e, match e with Rejected j _ => Some j | _ => None end).
Definition begun : list event → list nat :=
  omap (λ e, match e with Started j _ | Refused j _ => Some j | _ => None end).

(** A queue that runs has one goroutine; what it was given is what was closed,
    then what the goroutine holds, then what waits. *)
Definition queue_ok (r : Registry) (q : nat) : Prop :=
  let cq := queue_at r q in
  if CQ_running cq
  then ∃ o, servers q (R_threads r) = [o] ∧ admitted q (R_log r) = closed q (R_log r) ++ option_list o ++ CQ_pending cq
  else servers q (R_threads r) = [] ∧ CQ_pending cq = [] ∧ admitted q (R_log r) = closed q (R_log r).

(** A turn is begun once; what is closed was begun or dropped. *)
Record turns_ok (r : Registry) : Prop := {
  to_done j : J_Done (job_at r j) = true ↔ ∃ q, Closed q j ∈ R_log r;
  to_once : NoDup (begun (R_log r));
  to_begun j : j ∈ begun (R_log r) → j ∈ omap working (R_threads r) ∨ ∃ q, Closed q j ∈ R_log r;
  to_closed q j : Closed q j ∈ R_log r → j ∈ begun (R_log r) ∨ J_Dropped (job_at r j) = true;
  to_working j : j ∈ omap working (R_threads r) → j ∈ begun (R_log r) ∨ J_Dropped (job_at r j) = true
}.

Record ok (r : Registry) : Prop := {
  ok_queue q : queue_ok r q;
  ok_bound q : (Z.of_nat (length (CQ_pending (queue_at r q))) <= MaxQueued)%Z;
  ok_address th q : th ∈ R_threads r → address th = Some q → (q < length (R_heap r))%nat;
  ok_queues c q : R_queues r !! c = Some q → (q < length (R_heap r))%nat;
  ok_jobs : omap offering (R_threads r) ++ rejections (R_log r) ++ admissions (R_log r) ≡ₚ seq 0 (length (R_jobs r));
  ok_active : R_active r = active (R_threads r);
  ok_turns : turns_ok r
}.

Lemma ok_new locker : ok (NewRegistry locker).
Proof.
  assert (∀ {A} (x : A) (P : Prop), x ∈ [] → P) as Hnil by (by intros A x P ?%not_elem_of_nil).
  split; cbn; try done; try (by intros; eapply Hnil).
  split; cbn; try done; try (by intros; eapply Hnil).
  - split; [done|]. intros [q H]. by eapply Hnil.
  - constructor.
Qed.

(** ** Steps *)

Lemma insert_middle {A} (l1 l2 : list A) x y : <[length l1 := y]> (l1 ++ x :: l2) = l1 ++ y :: l2.
Proof. induction l1 as [|a l1 IH]; cbn; [done|by f_equal]. Qed.

Lemma active_app l1 l2 : active (l1 ++ l2) = active l1 + active l2.
Proof. induction l1 as [|th l1 IH]; cbn; [done|]. unfold active in *. rewrite IH. lia. Qed.

Lemma queue_at_insert r q cq q' : (q < length (R_heap r))%nat →
  queue_at (r <| R_heap := <[q := cq]> (R_heap r) |>) q' = if bool_decide (q' = q) then cq else queue_at r q'.
Proof.
  intros Hq. unfold queue_at. cbn. case_bool_decide as E; [subst q'; by rewrite list_lookup_insert_eq|].
  by rewrite list_lookup_insert_ne.
Qed.

Lemma job_at_alter r f j j' : (j < length (R_jobs r))%nat →
  job_at (r <| R_jobs := alter f j (R_jobs r) |>) j' = if bool_decide (j' = j) then f (job_at r j') else job_at r j'.
Proof.
  intros Hj. unfold job_at. cbn. case_bool_decide as E; [subst j'|by rewrite list_lookup_alter_ne].
  rewrite list_lookup_alter_eq. apply lookup_lt_is_Some in Hj as [x ->]. done.
Qed.

(** ** Who holds a job *)

Lemma admitted_sublist q log : admitted q log `sublist_of` admissions log.
Proof.
  induction log as [|e log IH]; cbn; [constructor|]. destruct e; cbn; try exact IH.
  case_bool_decide; [by constructor|by apply sublist_cons].
Qed.

Lemma elem_of_admitted q j log : j ∈ admitted q log ↔ Enqueued q j ∈ log.
Proof.
  unfold admitted. rewrite list_elem_of_omap. split.
  - intros (e & He & E). destruct e; try done. case_bool_decide; [|done]. by injection E as ->; subst.
  - intros H. exists (Enqueued q j). split; [done|]. by rewrite bool_decide_eq_true_2.
Qed.

Lemma elem_of_closed q j log : j ∈ closed q log ↔ Closed q j ∈ log.
Proof.
  unfold closed. rewrite list_elem_of_omap. split.
  - intros (e & He & E). destruct e; try done. case_bool_decide; [|done]. by injection E as ->; subst.
  - intros H. exists (Closed q j). split; [done|]. by rewrite bool_decide_eq_true_2.
Qed.

Lemma admitted_unique q q' j log : NoDup (admissions log) → Enqueued q j ∈ log → Enqueued q' j ∈ log → q = q'.
Proof.
  assert (∀ q log, Enqueued q j ∈ log → j ∈ admissions log) as Hin.
  { intros q0 log0 H. apply list_elem_of_omap. by exists (Enqueued q0 j). }
  induction log as [|e log IH]; [by intros _ ?%not_elem_of_nil|]. intros Hn.
  assert (NoDup (admissions log)) as Hn' by (destruct e; try exact Hn; by apply NoDup_cons in Hn as [_ ?]).
  intros [<-|H1]%elem_of_cons [E|H2]%elem_of_cons; [by injection E| | |by apply IH].
  - exfalso. cbn in Hn. apply NoDup_cons in Hn as [Hn _]. eauto.
  - subst e. exfalso. cbn in Hn. apply NoDup_cons in Hn as [Hn _]. eauto.
Qed.

Section Held.
Context (r : Registry) (K : ok r).

Lemma admissions_NoDup : NoDup (admissions (R_log r)).
Proof using K.
  pose proof (NoDup_seq 0 (length (R_jobs r))) as H. rewrite <- (ok_jobs _ K) in H.
  apply NoDup_app in H as (_ & _ & H). by apply NoDup_app in H as (_ & _ & H).
Qed.

Lemma admitted_job q j : Enqueued q j ∈ R_log r → (j < length (R_jobs r))%nat.
Proof using K.
  intros H. assert (j ∈ seq 0 (length (R_jobs r))) as Hs; [|by apply elem_of_seq in Hs; lia].
  rewrite <- (ok_jobs _ K). apply elem_of_app. right. apply elem_of_app. right. apply list_elem_of_omap. by exists (Enqueued q j).
Qed.

Lemma servers_elem q o th : th ∈ R_threads r → serving th = Some (q, o) →
  servers q (R_threads r) = [o] ∧ CQ_running (queue_at r q) = true
  ∧ admitted q (R_log r) = closed q (R_log r) ++ option_list o ++ CQ_pending (queue_at r q).
Proof using K.
  intros Hin Hs. pose proof (ok_queue _ K q) as Hq. unfold queue_ok in Hq.
  assert (o ∈ servers q (R_threads r)) as Ho.
  { apply list_elem_of_omap. exists th. split; [done|]. rewrite Hs. by rewrite bool_decide_eq_true_2. }
  destruct (CQ_running (queue_at r q)).
  - destruct Hq as (o' & E & Ha). rewrite E in Ho. apply list_elem_of_singleton in Ho as ->. done.
  - destruct Hq as (E & _). rewrite E in Ho. by apply not_elem_of_nil in Ho.
Qed.

Lemma served_admitted q j th : th ∈ R_threads r → serving th = Some (q, Some j) →
  Enqueued q j ∈ R_log r ∧ ∀ q', Closed q' j ∉ R_log r.
Proof using K.
  intros Hin Hs. destruct (servers_elem q (Some j) th Hin Hs) as (_ & _ & Ha).
  assert (Enqueued q j ∈ R_log r) as H1.
  { apply elem_of_admitted. rewrite Ha. apply elem_of_app. right. by left. }
  split; [done|]. intros q' Hc%elem_of_closed.
  assert (Enqueued q' j ∈ R_log r) as H2.
  { apply elem_of_admitted. pose proof (ok_queue _ K q') as Hq. unfold queue_ok in Hq.
    destruct (CQ_running _); [destruct Hq as (o & _ & ->); apply elem_of_app; by left|by destruct Hq as (_ & _ & ->)]. }
  assert (q' = q) as -> by (eapply admitted_unique; [apply admissions_NoDup|done..]).
  pose proof (sublist_NoDup _ _ admissions_NoDup (admitted_sublist q _)) as Hn. rewrite Ha in Hn.
  apply NoDup_app in Hn as (_ & Hn & _). apply (Hn j); [done|]. by left.
Qed.

Lemma served_once l1 l2 th q j : R_threads r = l1 ++ th :: l2 → serving th = Some (q, Some j) →
  ∀ th' q', th' ∈ l1 ++ l2 → serving th' ≠ Some (q', Some j).
Proof using K.
  intros E Hs th' q' Hin' Hs'.
  assert (th ∈ R_threads r) as Hin by (rewrite E; set_solver).
  assert (th' ∈ R_threads r) as Hin2 by (rewrite E; set_solver).
  destruct (served_admitted q j th Hin Hs) as [H1 _]. destruct (served_admitted q' j th' Hin2 Hs') as [H2 _].
  assert (q' = q) as -> by (eapply admitted_unique; [apply admissions_NoDup|done..]).
  destruct (servers_elem q (Some j) th Hin Hs) as (Hone & _). revert Hone. rewrite E. unfold servers. rewrite omap_app. cbn.
  rewrite Hs, (bool_decide_eq_true_2 (q = q)) by done.
  assert (Some j ∈ servers q (l1 ++ l2)) as Hm.
  { apply list_elem_of_omap. exists th'. split; [done|]. by rewrite Hs', (bool_decide_eq_true_2 (q = q)). }
  intros Hone. apply (f_equal length) in Hone. rewrite length_app in Hone. cbn in Hone.
  unfold servers in Hm. rewrite omap_app in Hm. apply elem_of_app in Hm as [Hm|Hm]; [destruct (omap _ l1)|destruct (omap _ l2)];
    try (by apply not_elem_of_nil in Hm); cbn in Hone; lia.
Qed.

Lemma working_serving th j : working th = Some j → ∃ q, serving th = Some (q, Some j).
Proof. destruct th; try done; intros [= ->]; by eexists. Qed.

Lemma not_begun l1 l2 th q j : R_threads r = l1 ++ th :: l2 → serving th = Some (q, Some j) → working th = None → j ∉ begun (R_log r).
Proof using K.
  intros E Hs Hw Hb. destruct (to_begun _ (ok_turns _ K) j Hb) as [Hin|[q' Hc]].
  - apply list_elem_of_omap in Hin as (th' & Hin & Hw'). destruct (working_serving _ _ Hw') as [q' Hs'].
    rewrite E in Hin. assert (th' ∈ l1 ++ l2) as Hin'.
    { apply elem_of_app in Hin as [?|[->|?]%elem_of_cons]; [set_solver|congruence|set_solver]. }
    by apply (served_once _ _ _ _ _ E Hs th' q' Hin').
  - assert (th ∈ R_threads r) as Hin by (rewrite E; set_solver).
    by apply (served_admitted q j th Hin Hs) in Hc.
Qed.
End Held.

(** ** Steps that keep queues, jobs and who holds them *)

(** What a step does to the turns that were begun: nothing, it takes up a dropped
    job, or it begins a turn. *)
Definition begins (r : Registry) (th y : thread) (es : list event) : Prop :=
  begun es = [] ∧ (working y = working th ∨ ∃ j, working y = Some j ∧ working th = None ∧ J_Dropped (job_at r j) = true)
  ∨ ∃ q j, begun es = [j] ∧ working th = None ∧ working y = Some j ∧ serving th = Some (q, Some j).

(** The log grows by events about turns begun and announced. *)
Definition unlisted (es : list event) : Prop :=
  rejections es = [] ∧ admissions es = [] ∧ ∀ q, admitted q es = [] ∧ closed q es = [].

Lemma unlisted_closed es q j : unlisted es → Closed q j ∉ es.
Proof. intros (_ & _ & H) Hin%elem_of_closed. rewrite (proj2 (H q)) in Hin. by apply not_elem_of_nil in Hin. Qed.

Lemma servers_middle q l1 th l2 : servers q (l1 ++ th :: l2) = servers q l1 ++ servers q [th] ++ servers q l2.
Proof. unfold servers. rewrite omap_app. f_equal. cbn. by destruct (serving th) as [[q' o]|]; [destruct (bool_decide _)|]. Qed.

Lemma servers_serving q th y : serving y = serving th → servers q [y] = servers q [th].
Proof. intros E. cbn. by rewrite E. Qed.

Lemma omap_middle {A B} (f : A → option B) l1 x l2 : omap f (l1 ++ x :: l2) = omap f l1 ++ option_list (f x) ++ omap f l2.
Proof. rewrite omap_app. cbn. by destruct (f x). Qed.

Lemma admitted_app q l1 l2 : admitted q (l1 ++ l2) = admitted q l1 ++ admitted q l2.
Proof. apply omap_app. Qed.

Lemma closed_app q l1 l2 : closed q (l1 ++ l2) = closed q l1 ++ closed q l2.
Proof. apply omap_app. Qed.

Lemma turns_inert r r' l1 th y l2 es :
  ok r → R_threads r = l1 ++ th :: l2 → R_threads r' = l1 ++ y :: l2 → R_jobs r' = R_jobs r →
  R_log r' = R_log r ++ es → unlisted es → begins r th y es → turns_ok r'.
Proof.
  intros K Et Et' Ej El Hu Hb.
  assert (∀ j, job_at r' j = job_at r j) as Hjob by (intros j; unfold job_at; by rewrite Ej).
  assert (∀ q j, Closed q j ∈ R_log r' ↔ Closed q j ∈ R_log r) as Hclosed.
  { intros q j. rewrite El, elem_of_app. split; [intros [?|H]; [done|by apply unlisted_closed in H]|by left]. }
  split.
  - intros j. rewrite Hjob, (to_done _ (ok_turns _ K)). split; intros [q ?]; exists q; by apply Hclosed.
  - rewrite El. unfold begun. rewrite omap_app. change (omap _ es) with (begun es).
    destruct Hb as [[-> _]|(q & j & -> & Hw & Hw' & Hsv)]; [rewrite app_nil_r; apply (ok_turns _ K)|].
    apply NoDup_app. split_and!; [apply (ok_turns _ K)| |apply NoDup_singleton]. intros j' Hj' ->%list_elem_of_singleton.
    by apply (not_begun r K l1 l2 th q j Et Hsv Hw).
  - intros j. rewrite El. unfold begun at 1. rewrite omap_app. change (omap _ es) with (begun es). intros [Hj|Hj]%elem_of_app.
    + destruct (to_begun _ (ok_turns _ K) j Hj) as [Hin|[q Hc]]; [left|right; exists q; apply elem_of_app; by left].
      rewrite Et, omap_middle in Hin. rewrite Et', omap_middle.
      destruct Hb as [[_ [->|(j' & _ & Hn & _)]]|(q & j' & _ & Hn & _)]; [done| |]; rewrite Hn in Hin; set_solver.
    + left. destruct Hb as [[E _]|(q & j' & E & _ & Hw & _)]; rewrite E in Hj; [by apply not_elem_of_nil in Hj|].
      apply list_elem_of_singleton in Hj as ->. rewrite Et', omap_middle, Hw. set_solver.
  - intros q j Hc%Hclosed. rewrite Hjob. destruct (to_closed _ (ok_turns _ K) q j Hc) as [?|?]; [left|by right].
    rewrite El. unfold begun. rewrite omap_app. apply elem_of_app. by left.
  - intros j Hin. rewrite Hjob, El. unfold begun. rewrite omap_app. change (omap _ es) with (begun es).
    rewrite Et', omap_middle in Hin. rewrite elem_of_app.
    assert (j ∈ omap working (R_threads r) → (j ∈ begun (R_log r) ∨ j ∈ begun es) ∨ J_Dropped (job_at r j) = true) as Hold.
    { intros H. destruct (to_working _ (ok_turns _ K) j H); [by left; left|by right]. }
    destruct Hb as [[_ [Hw|(j' & Hw & _ & Hd)]]|(q & j' & E & _ & Hw & _)].
    + apply Hold. rewrite Et, omap_middle, <- Hw. done.
    + rewrite Hw in Hin. apply elem_of_app in Hin as [?|[?|?]%elem_of_app].
      * apply Hold. rewrite Et, omap_middle. set_solver.
      * right. assert (j = j') as ->; [by apply list_elem_of_singleton|done].
      * apply Hold. rewrite Et, omap_middle. set_solver.
    + rewrite Hw in Hin. apply elem_of_app in Hin as [?|[?|?]%elem_of_app].
      * apply Hold. rewrite Et, omap_middle. set_solver.
      * left. right. assert (j = j') as -> by (by apply list_elem_of_singleton). rewrite E. by left.
      * apply Hold. rewrite Et, omap_middle. set_solver.
Qed.

(** A step that begins and closes nothing. *)
Lemma turns_same r r' :
  turns_ok r → begun (R_log r') = begun (R_log r) → omap working (R_threads r') = omap working (R_threads r) →
  (∀ q j, Closed q j ∈ R_log r' ↔ Closed q j ∈ R_log r) →
  (∀ j, J_Done (job_at r' j) = J_Done (job_at r j)) →
  (∀ j, J_Dropped (job_at r j) = true → J_Dropped (job_at r' j) = true) → turns_ok r'.
Proof.
  intros [K1 K2 K3 K4 K5] Eb Ew Ec Ed Hd. split.
  - intros j. rewrite Ed, K1. split; intros [q ?]; exists q; by apply Ec.
  - by rewrite Eb.
  - intros j. rewrite Eb, Ew. intros Hj. destruct (K3 j Hj) as [?|[q ?]]; [by left|right; exists q; by apply Ec].
  - intros q j Hj%Ec. rewrite Eb. destruct (K4 q j Hj); [by left|right; by apply Hd].
  - intros j. rewrite Ew, Eb. intros Hj. destruct (K5 j Hj); [by left|right; by apply Hd].
Qed.

Lemma ok_inert r r' l1 th y l2 es :
  ok r → R_threads r = l1 ++ th :: l2 → R_threads r' = l1 ++ y :: l2 →
  R_heap r' = R_heap r → R_jobs r' = R_jobs r → (∀ c q, R_queues r' !! c = Some q → R_queues r !! c = Some q) →
  R_log r' = R_log r ++ es → R_active r' = R_active r - counted th + counted y →
  serving y = serving th → offering y = offering th → (∀ q, address y = Some q → address th = Some q) →
  unlisted es → begins r th y es → ok r'.
Proof.
  intros K Et Et' Eh Ej Eq El Ea Hs Ho Had Hu Hb.
  assert (th ∈ R_threads r) as Hth by (rewrite Et; set_solver).
  assert (∀ q, queue_at r' q = queue_at r q) as Hqueue by (intros q; unfold queue_at; by rewrite Eh).
  split.
  - intros q. pose proof (ok_queue _ K q) as Hq. unfold queue_ok in *. rewrite Hqueue.
    assert (servers q (R_threads r') = servers q (R_threads r)) as -> by
      (by rewrite Et, Et', !servers_middle, (servers_serving q th y)).
    destruct Hu as (_ & _ & Hu). by rewrite El, admitted_app, closed_app, (proj1 (Hu q)), (proj2 (Hu q)), !app_nil_r.
  - intros q. rewrite Hqueue. apply K.
  - intros th' q Hin Ha. rewrite Eh. rewrite Et' in Hin. apply elem_of_app in Hin as [?|[->|?]%elem_of_cons].
    + apply (ok_address _ K th'); [rewrite Et; set_solver|done].
    + apply (ok_address _ K th); [done|by apply Had].
    + apply (ok_address _ K th'); [rewrite Et; set_solver|done].
  - intros c q Hq. rewrite Eh. apply (ok_queues _ K c), Eq, Hq.
  - destruct Hu as (H1 & H2 & _). rewrite El, Ej. unfold rejections, admissions in *. rewrite !omap_app, H1, H2, !app_nil_r.
    rewrite Et', omap_middle, Ho, <- omap_middle, <- Et. apply K.
  - rewrite Ea, (ok_active _ K), Et, Et', !active_app. cbn. lia.
  - by eapply turns_inert.
Qed.

Lemma queue_ok_same r r' q :
  queue_at r' q = queue_at r q → servers q (R_threads r') = servers q (R_threads r) →
  admitted q (R_log r') = admitted q (R_log r) → closed q (R_log r') = closed q (R_log r) →
  queue_ok r q → queue_ok r' q.
Proof. unfold queue_ok. by intros -> -> -> ->. Qed.

Lemma log_app {A} (f : event → option A) log e : omap f (log ++ [e]) = omap f log ++ option_list (f e).
Proof. rewrite omap_app. cbn. by destruct (f e). Qed.

Lemma closed_last q j log e : (∀ q j, e ≠ Closed q j) → Closed q j ∈ log ++ [e] ↔ Closed q j ∈ log.
Proof. intros He. rewrite elem_of_app, list_elem_of_singleton. naive_solver. Qed.

Lemma active_middle l1 th l2 : active (l1 ++ th :: l2) = active l1 + counted th + active l2.
Proof. rewrite active_app. cbn. unfold active. lia. Qed.

(** ** Callers *)

Lemma ok_arrive c sync r r' : act (Arrive c sync) r = Some r' → ok r → ok r'.
Proof.
  intros [= <-] K. assert (∀ j, job_at (r <| R_jobs := R_jobs r ++ [NewJob] |>) j = job_at r j) as Hjob.
  { intros j. unfold job_at. cbn. destruct (Nat.lt_ge_cases j (length (R_jobs r))); [by rewrite lookup_app_l|].
    rewrite (lookup_ge_None_2 (R_jobs r)) by lia. rewrite lookup_app_r by lia. by destruct (j - _)%nat as [|[]]. }
  split; cbn.
  - intros q. eapply queue_ok_same; [..|apply K]; cbn; try done. unfold servers. by rewrite omap_app, app_nil_r.
  - apply K.
  - intros th q [Hin|[= ->]%list_elem_of_singleton]%elem_of_app; [by apply K|done].
  - apply K.
  - rewrite omap_app, length_app, seq_app. cbn. rewrite <- (ok_jobs _ K). by rewrite <- !(assoc_L (++)), (comm (++) [_]), <- !(assoc_L (++)).
  - rewrite active_app. cbn. rewrite (ok_active _ K). lia.
  - eapply turns_same; [apply K|..]; cbn; try done; [by rewrite omap_app, app_nil_r| |]; intros j; [by f_equal; apply Hjob|].
    intros <-. f_equal. apply Hjob.
Qed.

Lemma thread_at r t th : R_threads r !! t = Some th → ∃ l1 l2, R_threads r = l1 ++ th :: l2 ∧ t = length l1.
Proof. intros H. destruct (list_elem_of_split_length _ _ _ H) as (l1 & l2 & E & ->). by exists l1, l2. Qed.

Lemma ok_leave t r r' : act (Leave t) r = Some r' → ok r → ok r'.
Proof.
  cbn. destruct (R_threads r !! t) as [th|] eqn:Et; [|done]. destruct th as [| | |j| | | | | | | | | |]; try done.
  intros [= <-] K. destruct (thread_at _ _ _ Et) as (l1 & l2 & E & ->).
  assert (∀ j', J_Done (job_at (r <| R_jobs := alter (λ j, j <| J_Dropped := true |>) j (R_jobs r) |>) j') = J_Done (job_at r j')
    ∧ (J_Dropped (job_at r j') = true → J_Dropped (job_at (r <| R_jobs := alter (λ j, j <| J_Dropped := true |>) j (R_jobs r) |>) j') = true)) as Hjob.
  { intros j'. unfold job_at. cbn. destruct (decide (j = j')) as [->|Hne]; [|by rewrite list_lookup_alter_ne].
    rewrite list_lookup_alter_eq. by destruct (R_jobs r !! j'). }
  apply (ok_inert (r <| R_jobs := alter (λ j, j <| J_Dropped := true |>) j (R_jobs r) |>) _ l1 (Awaiting j) (Returned None) l2 []);
    cbn; try done; [|by rewrite E, insert_middle|by rewrite app_nil_r|lia|by left; split; [|left]].
  destruct K as [K1 K2 K3 K4 K5 K6 K7]. split; try done; cbn; [by rewrite length_alter|].
  eapply turns_same; [exact K7|..]; try done; intros j'; apply Hjob.
Qed.

Lemma ok_flags r r' : R_threads r' = R_threads r → R_heap r' = R_heap r → R_queues r' = R_queues r → R_jobs r' = R_jobs r →
  R_log r' = R_log r → R_active r' = R_active r → ok r → ok r'.
Proof.
  intros E1 E2 E3 E4 E5 E6 K.
  assert (∀ q, queue_at r' q = queue_at r q) as Eq by (intros q; unfold queue_at; by rewrite E2).
  assert (∀ j, job_at r' j = job_at r j) as Ej by (intros j; unfold job_at; by rewrite E4).
  split.
  - intros q. eapply queue_ok_same; [apply Eq|by rewrite E1|by rewrite E5|by rewrite E5|apply K].
  - intros q. rewrite Eq. apply K.
  - rewrite E1, E2. apply K.
  - rewrite E2, E3. apply K.
  - rewrite E1, E4, E5. apply K.
  - rewrite E1, E6. apply K.
  - eapply turns_same; [apply K|by rewrite E5|by rewrite E1|by rewrite E5|..]; intros j; by rewrite Ej.
Qed.

(** ** Turned away, or let in *)

Lemma rejections_last log j e : rejections (log ++ [Rejected j e]) = rejections log ++ [j].
Proof. unfold rejections. by rewrite log_app. Qed.

Lemma ok_reject r l1 th l2 y j e :
  ok r → R_threads r = l1 ++ th :: l2 → offering th = Some j → serving y = None → offering y = None → address y = None →
  working y = None → counted y = counted th → ok (emit (Rejected j e) r <| R_threads := l1 ++ y :: l2 |>).
Proof.
  intros K E Ho Hs Hoy Ha Hw Hc. assert (serving th = None ∧ working th = None) as [Hs' Hw'] by (destruct th; done).
  split; cbn.
  - intros q. eapply queue_ok_same; [..|apply K]; cbn; [done| |by rewrite admitted_app, app_nil_r|by rewrite closed_app, app_nil_r].
    rewrite E, !servers_middle. cbn. by rewrite Hs, Hs'.
  - apply K.
  - intros th' q [Hin|[->|Hin]%elem_of_cons]%elem_of_app Hq; [|congruence|]; apply (ok_address _ K th'); try done; rewrite E; set_solver.
  - apply K.
  - rewrite <- (ok_jobs _ K), E, !omap_middle, Ho, Hoy, rejections_last. unfold admissions. rewrite log_app. cbn. rewrite app_nil_r.
    rewrite <- !(assoc_L (++)). f_equiv. cbn. rewrite (assoc_L (++)), <- Permutation_middle. by rewrite <- (assoc_L (++)).
  - rewrite (ok_active _ K), E, !active_middle. lia.
  - eapply turns_same; [apply K|..]; cbn; try done; [by unfold begun; rewrite log_app, app_nil_r| |intros q j'; by apply closed_last].
    by rewrite E, !omap_middle, Hw, Hw'.
Qed.

Lemma not_serving_fresh r q : ok r → (length (R_heap r) ≤ q)%nat → servers q (R_threads r) = [] ∧ queue_at r q = mkConvQueue false [].
Proof.
  intros K Hq. assert (queue_at r q = mkConvQueue false []) as E by (unfold queue_at; by rewrite lookup_ge_None_2).
  split; [|done]. pose proof (ok_queue _ K q) as H. unfold queue_ok in H. rewrite E in H. apply H.
Qed.

Lemma ok_found r l1 c j sync l2 q heap queues :
  ok r → R_threads r = l1 ++ Submitting c j sync :: l2 → (q < length heap)%nat →
  (∀ q, default (mkConvQueue false []) (heap !! q) = queue_at r q) → (length (R_heap r) ≤ length heap)%nat →
  (∀ c' q', queues !! c' = Some q' → (q' < length heap)%nat) →
  ok (r <| R_active := R_active r + 1 |> <| R_heap := heap |> <| R_queues := queues |>
        <| R_threads := l1 ++ Found c q j sync :: l2 |>).
Proof.
  intros K E Hq Hheap Hlen Hqueues. split; cbn.
  - intros q'. eapply queue_ok_same; [..|apply K]; cbn; try done; [apply Hheap|]. by rewrite E, !servers_middle.
  - intros q'. unfold queue_at. cbn. rewrite Hheap. apply K.
  - intros th q' [Hin|[->|Hin]%elem_of_cons]%elem_of_app Ha; [|by injection Ha as <-|];
      (eapply Nat.lt_le_trans; [|exact Hlen]; apply (ok_address _ K th); [rewrite E; set_solver|done]).
  - done.
  - rewrite <- (ok_jobs _ K), E, !omap_middle. done.
  - rewrite (ok_active _ K), E, !active_middle. cbn. lia.
  - eapply turns_same; [apply K|..]; cbn; try done. by rewrite E, !omap_middle.
Qed.

(** ** Let in *)

Lemma ok_admit r l1 th l2 y started j q cq :
  ok r → R_threads r = l1 ++ th :: l2 → offering th = Some j → serving th = None → working th = None → (q < length (R_heap r))%nat →
  serving y = None → offering y = None → address y = None → working y = None →
  active started + counted y = counted th → omap offering started = [] → omap working started = [] →
  (∀ th', th' ∈ started → address th' = Some q) → (Z.of_nat (length (CQ_pending cq)) <= MaxQueued) →
  (∀ q', queue_ok (emit (Enqueued q j) (r <| R_heap := <[q := cq]> (R_heap r) |>) <| R_threads := l1 ++ y :: l2 ++ started |>) q') →
  ok (emit (Enqueued q j) (r <| R_heap := <[q := cq]> (R_heap r) |>) <| R_threads := l1 ++ y :: l2 ++ started |>).
Proof.
  intros K E Ho Hs Hw Hq Hsy Hoy Hay Hwy Hc Hos Hws Has Hb Hqueues. split.
  - exact Hqueues.
  - intros q'. change (queue_at _ q') with (queue_at (r <| R_heap := <[q := cq]> (R_heap r) |>) q').
    rewrite queue_at_insert by done. case_bool_decide; [done|apply K].
  - cbn. intros th' q' [Hin|[->|[Hin|Hin]%elem_of_app]%elem_of_cons]%elem_of_app Ha; rewrite length_insert;
      [|congruence| |]; [apply (ok_address _ K th'); [rewrite E; set_solver|done]..|].
    rewrite (Has th' Hin) in Ha. by injection Ha as <-.
  - cbn. intros c q' Hc'. rewrite length_insert. by eapply (ok_queues _ K).
  - cbn. rewrite <- (ok_jobs _ K), E, omap_middle, omap_app, Hos, app_nil_r, omap_middle, Ho, Hoy.
    unfold rejections, admissions. rewrite !log_app. cbn. rewrite app_nil_r. rewrite <- !(assoc_L (++)). f_equiv. cbn.
    by rewrite !(assoc (++)), <- Permutation_cons_append.
  - cbn. rewrite (ok_active _ K), E, active_middle, (active_middle l1), active_app. lia.
  - eapply turns_same; [apply K|..]; cbn; try done.
    + unfold begun. by rewrite log_app, app_nil_r.
    + by rewrite E, omap_middle, omap_app, Hws, app_nil_r, omap_middle, Hw, Hwy.
    + intros q' j'. by apply closed_last.
Qed.

(** ** Closing a turn and taking the next *)

Lemma servers_only r q l1 th l2 o : ok r → R_threads r = l1 ++ th :: l2 → serving th = Some (q, o) →
  servers q l1 = [] ∧ servers q l2 = [] ∧ CQ_running (queue_at r q) = true
  ∧ admitted q (R_log r) = closed q (R_log r) ++ option_list o ++ CQ_pending (queue_at r q).
Proof.
  intros K E Hs. destruct (servers_elem r K q o th) as (H & Hr & Ha); [rewrite E; set_solver|done|].
  rewrite E, servers_middle in H. assert (servers q [th] = [o]) as Eo by (cbn; by rewrite Hs, bool_decide_eq_true_2).
  rewrite Eo in H. apply (f_equal length) in H as Hl. rewrite !length_app in Hl. cbn in Hl.
  split_and!; [destruct (servers q l1)|destruct (servers q l2)|done|done]; try done; cbn in Hl; lia.
Qed.

Lemma servers_other q q' th y o o' : q' ≠ q → serving th = Some (q, o) → (serving y = Some (q, o') ∨ serving y = None) →
  servers q' [y] = servers q' [th].
Proof. intros Hne E [E'|E']; cbn; rewrite E, E'; by rewrite bool_decide_eq_false_2. Qed.

Lemma ok_close r l1 c q j err l2 : ok r → R_threads r = l1 ++ Closing c q j err :: l2 →
  ok ((close_ c q j err r).2 <| R_threads := l1 ++ Taking c q :: l2 |>).
Proof.
  intros K E. destruct (servers_only r q l1 _ l2 (Some j) K E eq_refl) as (S1 & S2 & Hr & Ha).
  assert (Closing c q j err ∈ R_threads r) as Hin by (rewrite E; set_solver).
  destruct (served_admitted r K q j _ Hin eq_refl) as [Hadm Hnc]. pose proof (admitted_job r K q j Hadm) as Hj.
  assert (∀ j', job_at ((close_ c q j err r).2 <| R_threads := l1 ++ Taking c q :: l2 |>) j'
    = if bool_decide (j' = j) then job_at r j <| J_err := err |> <| J_Done := true |> else job_at r j') as Hjob.
  { intros j'. unfold close_, emit, job_at. cbn. case_bool_decide as Ej; [subst j'|by rewrite list_lookup_alter_ne].
    rewrite list_lookup_alter_eq. apply lookup_lt_is_Some in Hj as [x ->]. done. }
  split.
  - intros q'. pose proof (ok_queue _ K q') as Hq. unfold queue_ok in *. unfold close_, emit. cbn.
    change (queue_at _ q') with (queue_at r q'). rewrite admitted_app, closed_app, app_nil_r.
    destruct (decide (q' = q)) as [->|Hne].
    + rewrite Hr. exists None. split; [rewrite servers_middle, S1, S2; cbn; by rewrite bool_decide_eq_true_2|].
      rewrite Ha. cbn. rewrite (bool_decide_eq_true_2 (q = q)) by done. by rewrite <- (assoc_L (++)).
    + assert (closed q' [Closed q j] = []) as -> by (cbn; by rewrite bool_decide_eq_false_2).
      rewrite app_nil_r, servers_middle, (servers_other q q' (Closing c q j err) _ (Some j) None), <- servers_middle, <- E; by auto.
  - apply K.
  - cbn. intros th q' [H|[->|H]%elem_of_cons]%elem_of_app Hq'; [apply (ok_address _ K th); [rewrite E; set_solver|done]| |
      apply (ok_address _ K th); [rewrite E; set_solver|done]]. by apply (ok_address _ K (Closing c q j err)).
  - apply K.
  - cbn. rewrite length_alter, <- (ok_jobs _ K), E, !omap_middle. unfold rejections, admissions. by rewrite !log_app, !app_nil_r.
  - cbn. rewrite (ok_active _ K), E, !active_middle. cbn. lia.
  - destruct (ok_turns _ K) as [T1 T2 T3 T4 T5]. split.
    + intros j'. rewrite Hjob. case_bool_decide as Ej; cbn.
      * split; [|done]. intros _. exists q. subst. apply elem_of_app. right. by left.
      * rewrite T1. split; intros [q' H]; exists q'; [apply elem_of_app; by left|].
        apply elem_of_app in H as [H|[= -> ->]%list_elem_of_singleton]; done.
    + cbn. unfold begun. rewrite log_app, app_nil_r. exact T2.
    + intros j'. cbn. unfold begun. rewrite log_app, app_nil_r, omap_middle. intros H.
      destruct (T3 j' H) as [Hw|[q' Hc]]; [|right; exists q'; apply elem_of_app; by left].
      rewrite E, omap_middle in Hw. apply elem_of_app in Hw as [?|[->%list_elem_of_singleton|?]%elem_of_app];
        [left; set_solver|right; exists q; apply elem_of_app; right; by left|left; set_solver].
    + intros q' j'. cbn. unfold begun. rewrite log_app, app_nil_r. intros [H|[= -> ->]%list_elem_of_singleton]%elem_of_app.
      * destruct (T4 q' j' H); [by left|right]. rewrite Hjob. by case_bool_decide; subst.
      * rewrite Hjob, bool_decide_eq_true_2 by done. apply T5. rewrite E, omap_middle. cbn. set_solver.
    + intros j'. cbn. unfold begun. rewrite log_app, app_nil_r, omap_middle. intros H.
      destruct (T5 j'); [rewrite E, omap_middle; set_solver|by left|right; rewrite Hjob; by case_bool_decide; subst].
Qed.

Lemma ok_next r l1 c q l2 : ok r → R_threads r = l1 ++ Taking c q :: l2 →
  ok ((turnqueue.next c q r).2 <| R_threads := l1 ++ (turnqueue.next c q r).1 :: l2 |>).
Proof.
  intros K E. destruct (servers_only r q l1 _ l2 None K E eq_refl) as (S1 & S2 & Hr & Ha).
  assert (q < length (R_heap r))%nat as Hq by (apply (ok_address _ K (Taking c q)); [rewrite E; set_solver|done]).
  set (y := (turnqueue.next c q r).1). set (cq := match CQ_pending (queue_at r q) with
    [] => queue_at r q <| CQ_running := false |> | _ :: pending => queue_at r q <| CQ_pending := pending |> end).
  assert ((turnqueue.next c q r).2 = r <| R_heap := <[q := cq]> (R_heap r) |>) as -> by
    (subst cq; unfold turnqueue.next; by destruct (CQ_pending (queue_at r q))).
  assert (offering y = None ∧ working y = None ∧ counted y = 1 ∧ address y = Some q
    ∧ serving y = match CQ_pending (queue_at r q) with [] => None | j :: _ => Some (q, Some j) end) as (Y1 & Y2 & Y3 & Y4 & Y5).
  { subst y. unfold turnqueue.next. by destruct (CQ_pending (queue_at r q)). }
  split.
  - intros q'. pose proof (ok_queue _ K q') as Hq'. unfold queue_ok in *.
    change (queue_at _ q') with (queue_at (r <| R_heap := <[q := cq]> (R_heap r) |>) q'). rewrite queue_at_insert by done. cbn.
    case_bool_decide as Eq.
    + subst q' cq. rewrite servers_middle, S1, S2. clear Hq'. destruct (CQ_pending (queue_at r q)) as [|j pending] eqn:Ep; cbn.
      * rewrite Y5. split_and!; [done|done|by rewrite Ha, app_nil_r].
      * rewrite Hr. exists (Some j). rewrite Y5, bool_decide_eq_true_2 by done. done.
    + assert (servers q' (l1 ++ y :: l2) = servers q' (R_threads r)) as ->; [|done].
      rewrite E, !servers_middle. do 2 f_equal. destruct (CQ_pending (queue_at r q)) as [|j pending];
        [apply (servers_other q q' _ y None None)|apply (servers_other q q' _ y None (Some j))]; auto.
  - intros q'. change (queue_at _ q') with (queue_at (r <| R_heap := <[q := cq]> (R_heap r) |>) q').
    rewrite queue_at_insert by done. case_bool_decide; [subst q'|apply K]. pose proof (ok_bound _ K q) as Hb.
    subst cq. destruct (CQ_pending (queue_at r q)) eqn:Ep; cbn; [by rewrite Ep|]. cbn in Hb. lia.
  - cbn. intros th q' [H|[->|H]%elem_of_cons]%elem_of_app Hq'; rewrite length_insert;
      [apply (ok_address _ K th); [rewrite E; set_solver|done]| |apply (ok_address _ K th); [rewrite E; set_solver|done]].
    rewrite Y4 in Hq'. by injection Hq' as <-.
  - cbn. intros c' q' Hc'. rewrite length_insert. by eapply (ok_queues _ K).
  - cbn. by rewrite <- (ok_jobs _ K), E, !omap_middle, Y1.
  - cbn. rewrite (ok_active _ K), E, !active_middle, Y3. done.
  - eapply turns_same; [apply K|..]; cbn; try done. by rewrite E, !omap_middle, Y2.
Qed.

(** ** Every action *)

Lemma ok_admits r l1 c j sync l2 : ok r → R_threads r = l1 ++ Submitting c j sync :: l2 →
  ok ((enter c j sync r).2 <| R_threads := l1 ++ (enter c j sync r).1 :: l2 |>).
Proof.
  intros K E. unfold enter. destruct (R_draining r) eqn:Ed; cbn; [by eapply (ok_reject r l1 (Submitting c j sync) l2)|].
  destruct (R_queues r !! c) as [q|] eqn:Eq; cbn.
  - eapply ok_flags; [..|apply (ok_found r l1 c j sync l2 q (R_heap r) (R_queues r) K E)]; try done; intros; by eapply (ok_queues _ K).
  - eapply ok_flags; [..|apply (ok_found r l1 c j sync l2 (length (R_heap r)) (R_heap r ++ [mkConvQueue false []])
      (<[c := length (R_heap r)]> (R_queues r)) K E)]; try done; rewrite ?length_app; cbn; try lia.
    + intros q. unfold queue_at. destruct (Nat.lt_ge_cases q (length (R_heap r))); [by rewrite lookup_app_l|].
      rewrite (lookup_ge_None_2 (R_heap r)) by lia. rewrite lookup_app_r by lia. by destruct (q - _)%nat as [|[]].
    + intros c' q' [[_ <-]|[_ H]]%lookup_insert_Some; [lia|]. apply (ok_queues _ K) in H. lia.
Qed.

Lemma ok_enqueues r l1 c q j sync l2 th started r1 : ok r → R_threads r = l1 ++ Found c q j sync :: l2 →
  enqueue c q j sync r = (th, started, r1) → ok (r1 <| R_threads := l1 ++ th :: l2 ++ started |>).
Proof.
  intros K E H. assert (q < length (R_heap r))%nat as Hq by (apply (ok_address _ K (Found c q j sync)); [rewrite E; set_solver|done]).
  pose proof (ok_queue _ K q) as Hok. unfold queue_ok in Hok.
  assert (∀ q' y started, q' ≠ q → serving y = None → servers q' started = [] →
    servers q' (l1 ++ y :: l2 ++ started) = servers q' (R_threads r)) as Hother.
  { intros q' y st Hne Hy Hst. rewrite E, !servers_middle. unfold servers at 3. rewrite omap_app. fold (servers q' l2).
    change (omap _ st) with (servers q' st). rewrite Hst, app_nil_r. cbn. by rewrite Hy. }
  unfold enqueue in H. destruct (CQ_running (queue_at r q)) eqn:Er.
  - destruct (Z.leb_spec MaxQueued (Z.of_nat (length (CQ_pending (queue_at r q))))) as [Hfull|Hfree]; injection H as <- <- <-.
    + rewrite app_nil_r. by eapply (ok_reject r l1 (Found c q j sync) l2).
    + apply (ok_admit r l1 (Found c q j sync) l2); try done; [by intros th' ?%not_elem_of_nil|cbn; rewrite length_app; cbn; lia|].
      intros q'. unfold queue_ok. change (queue_at _ q') with (queue_at (r <| R_heap :=
        <[q := queue_at r q <| CQ_pending := CQ_pending (queue_at r q) ++ [j] |>]> (R_heap r) |>) q').
      rewrite queue_at_insert by done. cbn. rewrite admitted_app, closed_app, app_nil_r. case_bool_decide as Eq.
      * subst q'. cbn. rewrite Er. destruct Hok as (o & Hs & Ha). exists o. split.
        -- rewrite <- Hs, E, !servers_middle. done.
        -- rewrite Ha, bool_decide_eq_true_2, app_nil_r by done. cbn. by rewrite <- !(assoc_L (++)).
      * match goal with |- context [servers q' (l1 ++ ?y :: l2)] => pose proof (Hother q' y [] Eq eq_refl eq_refl) as Hx end.
        rewrite app_nil_r in Hx. rewrite Hx. cbn. rewrite bool_decide_eq_false_2, !app_nil_r by done. apply K.
  - injection H as <- <- <-. destruct Hok as (Hs & Hp & Ha).
    apply (ok_admit r l1 (Found c q j sync) l2); try done; [by destruct sync..| | |]; [|cbn; rewrite Hp; done|].
    { intros th' ->%list_elem_of_singleton. done. }
    intros q'. unfold queue_ok. change (queue_at _ q') with (queue_at (r <| R_heap :=
      <[q := queue_at r q <| CQ_running := true |>]> (R_heap r) |>) q').
    rewrite queue_at_insert by done. cbn. rewrite admitted_app, closed_app, app_nil_r. case_bool_decide as Eq.
    + subst q'. cbn. exists (Some j). split.
      * rewrite E, servers_middle in Hs. apply app_nil in Hs as [Hs1 Hs2]. apply app_nil in Hs2 as [_ Hs2].
        rewrite servers_middle. unfold servers at 3. rewrite omap_app. fold (servers q l2). rewrite Hs1, Hs2. cbn.
        rewrite bool_decide_eq_true_2 by done. by destruct sync.
      * rewrite Ha, Hp, bool_decide_eq_true_2 by done. done.
    + rewrite Hother; [|done|by destruct sync|cbn; by rewrite bool_decide_eq_false_2]. cbn. rewrite bool_decide_eq_false_2, app_nil_r by done. apply K.
Qed.

Lemma ok_step t a r r' : act (Step t a) r = Some r' → ok r → ok r'.
Proof.
  cbn. destruct (R_threads r !! t) as [th|] eqn:Et; [|done]. destruct (advance a th r) as [[[th' started] r1]|] eqn:Ea; [|done].
  intros [= <-] K. destruct (thread_at _ _ _ Et) as (l1 & l2 & E & ->).
  assert (∀ y es r1, R_threads r1 = R_threads r → R_heap r1 = R_heap r → R_jobs r1 = R_jobs r →
    (∀ c q, R_queues r1 !! c = Some q → R_queues r !! c = Some q) → R_log r1 = R_log r ++ es →
    R_active r1 = R_active r - counted th + counted y → serving y = serving th → offering y = offering th →
    (∀ q, address y = Some q → address th = Some q) → unlisted es → begins r th y es →
    ok (r1 <| R_threads := <[length l1 := y]> (R_threads r1) ++ [] |>)) as Hinert.
  { intros y es r2 E1 E2 E3 E4 E5 E6 E7 E8 E9 E10 E11. eapply (ok_inert r _ l1 th y l2 es); cbn; try done.
    by rewrite app_nil_r, E1, E, insert_middle. }
  destruct th; unfold advance in Ea; cbv beta iota zeta in Ea.
  - injection Ea as <- <- <-. rewrite app_nil_r. cbn. pose proof (ok_admits r l1 conversationID job sync l2 K E) as H.
    assert (R_threads (enter conversationID job sync r).2 = R_threads r) as -> by
      (unfold enter; destruct (R_draining r); [done|]; cbn; by destruct (R_queues r !! conversationID)).
    rewrite E, insert_middle. exact H.
  - destruct (enqueue conversationID q job sync r) as [[th2 started2] r2] eqn:H. injection Ea as <- <- <-. cbn.
    pose proof (ok_enqueues r l1 conversationID q job sync l2 th2 started2 r2 K E H) as Hok.
    assert (R_threads r2 = R_threads r) as ->.
    { revert H. unfold enqueue. destruct (CQ_running _); [destruct (_ <=? _)|]; by intros [= _ _ <-]. }
    by rewrite E, insert_middle, <- app_assoc.
  - injection Ea as <- <- <-. cbn [default]. apply (Hinert (submitted job sync answer) [] (uncount r)); try done;
      try (by destruct sync, answer); try (cbn; by rewrite app_nil_r); [|by left; split; [|left; destruct sync, answer]]. destruct sync, answer; cbn; lia.
  - destruct (J_Done _); [|done]. injection Ea as <- <- <-. apply (Hinert _ []); try done; [by rewrite app_nil_r|cbn; lia|by left; split; [|left]].
  - done.
  - injection Ea as <- <- <-. cbn [default]. unfold begin. destruct (J_Dropped (job_at r job)) eqn:Ed; [|destruct (R_locker r)]; cbn [fst snd].
    + apply (Hinert _ []); try done; [by rewrite app_nil_r|cbn; lia|]. left. split; [done|right]. by exists job.
    + apply (Hinert _ []); try done; [by rewrite app_nil_r|cbn; lia|]. left. split; [done|by left].
    + apply (Hinert (Running conversationID q job None) [Started job 0] (emit (Started job 0) r)); try done; [cbn; lia|]. right. by exists q, job.
  - injection Ea as <- <- <-. cbn [default]. unfold runLocked. destruct a as [lease| |]; cbn [fst snd].
    + apply (Hinert (Running conversationID q job (Some lease)) [Started job (coordination.Ls_fence lease)] (emit (Started job (coordination.Ls_fence lease)) r)); try done; [cbn; lia|]. right. by exists q, job.
    + apply (Hinert _ []); try done; [by rewrite app_nil_r|cbn; lia|]. left. split; [done|by left].
    + apply (Hinert _ [Refused job (if R_lockCanceled r then ErrDraining else ErrCoordinationUnavailable)]
        (emit (Refused job (if R_lockCanceled r then ErrDraining else ErrCoordinationUnavailable)) r)); try done; [cbn; lia|]. right. by exists q, job.
  - injection Ea as <- <- <-. apply (Hinert _ []); try done; [by rewrite app_nil_r|cbn; lia|by left; split; [|left]].
  - injection Ea as <- <- <-. apply (Hinert _ []); try done; [by rewrite app_nil_r|cbn; lia|by left; split; [|left]].
  - injection Ea as <- <- <-. rewrite app_nil_r. cbn [default]. pose proof (ok_close r l1 conversationID q job err l2 K E) as H.
    change (R_threads (emit _ _)) with (R_threads r). rewrite E, insert_middle. exact H.
  - injection Ea as <- <- <-. rewrite app_nil_r. cbn [default]. pose proof (ok_next r l1 conversationID q l2 K E) as H.
    assert (R_threads (turnqueue.next conversationID q r).2 = R_threads r) as -> by
      (unfold turnqueue.next; by destruct (CQ_pending (queue_at r q))).
    rewrite E, insert_middle. exact H.
  - injection Ea as <- <- <-. unfold announce. cbn [default fst snd]. destruct (J_Dropped (job_at r job)).
    + apply (Hinert _ []); try done; [by rewrite app_nil_r|cbn; lia|by left; split; [|left]].
    + apply (Hinert _ [Dequeued job] (emit (Dequeued job) r)); try done; [cbn; lia|by left; split; [|left]].
  - injection Ea as <- <- <-. rewrite app_nil_r. cbn [default]. unfold forget.
    assert (∀ r1, R_threads r1 = R_threads r → R_heap r1 = R_heap r → R_jobs r1 = R_jobs r → R_log r1 = R_log r → R_active r1 = R_active r →
      (∀ c q, R_queues r1 !! c = Some q → R_queues r !! c = Some q) → ok (r1 <| R_threads := <[length l1 := Exiting]> (R_threads r1) |>)) as Hf.
    { intros r1 E1 E2 E3 E4 E5 E6. rewrite <- (app_nil_r (<[_:=_]> _)). apply (Hinert Exiting [] r1); try done; [by rewrite app_nil_r|cbn; lia|by left; split; [|left]]. }
    case_bool_decide; [destruct (_ && _)|]; cbn [fst snd]; apply Hf; try done.
    intros c q' Hq'. cbn in Hq'. by apply lookup_delete_Some in Hq' as [_ ?].
  - injection Ea as <- <- <-. cbn [default]. apply (Hinert (Returned None) [] (uncount r)); try done; [cbn; by rewrite app_nil_r|cbn; lia|by left; split; [|left]].
Qed.

Lemma ok_act x r r' : act x r = Some r' → ok r → ok r'.
Proof.
  destruct x as [c sync|t a|t| |]; [apply ok_arrive|apply ok_step|apply ok_leave|intros [= <-]; by apply ok_flags|].
  cbn. destruct (R_draining r); [|done]. intros [= <-]. by apply ok_flags.
Qed.

Lemma ok_acts xs : ∀ r r', acts xs r = Some r' → ok r → ok r'.
Proof.
  induction xs as [|x xs IH]; intros r r'; cbn; [by intros [= ->]|].
  destruct (act x r) as [r1|] eqn:E; [|done]. intros H K. eapply IH; [exact H|]. by eapply ok_act.
Qed.

(** ** Schedules end *)

Definition weight (th : thread) : nat :=
  match th with
  | Returned _ => 0
  | Awaiting _ | Exiting => 1
  | Leaving _ _ _ | Forgetting _ _ => 2
  | Taking _ _ => 3
  | Closing _ _ _ _ => 4
  | Releasing _ _ _ _ => 5
  | Running _ _ _ _ => 6
  | Acquiring _ _ _ => 7
  | Looping _ _ _ => 8
  | Taken _ _ _ => 9
  | Found _ _ _ _ => 10
  | Submitting _ _ _ => 11
  end.

Definition weights (l : list thread) : nat := sum_list_with weight l.
Definition waiting (heap : list convQueue) : nat := sum_list_with (λ cq, length (CQ_pending cq)) heap.

(** More than the steps that are left. *)
Definition measure (r : Registry) : nat := weights (R_threads r) + 7 * waiting (R_heap r).

#[local] Arguments weights : simpl never.
#[local] Arguments Nat.mul : simpl never.

Lemma weights_nil : weights [] = 0%nat.
Proof. done. Qed.

Lemma weights_cons th l : weights (th :: l) = (weight th + weights l)%nat.
Proof. done. Qed.

Ltac weigh := cbn; rewrite ?weights_cons, ?weights_nil; cbn; lia.

Lemma weights_middle l1 th l2 : weights (l1 ++ th :: l2) = (weights l1 + weight th + weights l2)%nat.
Proof. unfold weights. rewrite sum_list_with_app. cbn. fold (weights l2). lia. Qed.

Lemma waiting_insert heap q cq cq' : heap !! q = Some cq →
  (waiting (<[q := cq']> heap) + length (CQ_pending cq) = waiting heap + length (CQ_pending cq'))%nat.
Proof.
  revert q. induction heap as [|x heap IH]; intros [|q]; cbn; try done.
  - intros [= ->]. lia.
  - intros H. rewrite <- !Nat.add_assoc. f_equal. exact (IH q H).
Qed.

#[local] Arguments waiting : simpl never.

Lemma waiting_set r q cq : (q < length (R_heap r))%nat →
  (waiting (<[q := cq]> (R_heap r)) + length (CQ_pending (queue_at r q)) = waiting (R_heap r) + length (CQ_pending cq))%nat.
Proof.
  intros Hq. apply lookup_lt_is_Some in Hq as [x Hx]. unfold queue_at. rewrite Hx. by apply waiting_insert.
Qed.

Lemma weight_submitted j sync answer : (weight (submitted j sync answer) ≤ 1)%nat.
Proof. destruct sync, answer; cbn; lia. Qed.

(** A goroutine's own step, apart from the others. *)
Lemma advance_decreases a th r th' started r1 :
  ok r → th ∈ R_threads r → a ≠ Held → advance a th r = Some (th', started, r1) →
  R_threads r1 = R_threads r
  ∧ (weight (default (Returned None) th') + weights started + 7 * waiting (R_heap r1) < weight th + 7 * waiting (R_heap r))%nat.
Proof.
  intros K Hin Ha E. destruct th; unfold advance in E; cbv beta iota zeta in E.
  - injection E as <- <- <-. unfold enter. destruct (R_draining r); [split; [done|weigh]|]. cbn.
    destruct (R_queues r !! conversationID); (split; [done|]); [weigh|]. cbn.
    rewrite weights_nil. unfold waiting. rewrite sum_list_with_app. cbn. lia.
  - destruct (enqueue conversationID q job sync r) as [[y st] r2] eqn:H. injection E as <- <- <-. unfold enqueue in H.
    assert (q < length (R_heap r))%nat as Hq by (by apply (ok_address _ K (Found conversationID q job sync))).
    destruct (CQ_running (queue_at r q)); [destruct (_ <=? _)|]; injection H as <- <- <-; (split; [done|]); [weigh| |].
    + pose proof (waiting_set r q (queue_at r q <| CQ_pending := CQ_pending (queue_at r q) ++ [job] |>) Hq) as Hw.
      cbn in Hw. rewrite length_app in Hw. cbn in Hw. weigh.
    + pose proof (waiting_set r q (queue_at r q <| CQ_running := true |>) Hq) as Hw. cbn in Hw. destruct sync; weigh.
  - injection E as <- <- <-. split; [done|]. pose proof (weight_submitted job sync answer). weigh.
  - destruct (J_Done _); [|done]. injection E as <- <- <-. split; [done|weigh].
  - done.
  - injection E as <- <- <-. unfold begin. destruct (J_Dropped _); [|destruct (R_locker r)]; (split; [done|weigh]).
  - injection E as <- <- <-. destruct a; [split; [done|weigh]|done|split; [done|weigh]].
  - injection E as <- <- <-. split; [done|weigh].
  - injection E as <- <- <-. split; [done|weigh].
  - injection E as <- <- <-. split; [done|weigh].
  - injection E as <- <- <-. unfold turnqueue.next.
    assert (q < length (R_heap r))%nat as Hq by (by apply (ok_address _ K (Taking conversationID q))).
    destruct (CQ_pending (queue_at r q)) as [|j pending] eqn:Ep; (split; [done|]).
    + pose proof (waiting_set r q (queue_at r q <| CQ_running := false |>) Hq) as Hw. cbn in Hw. weigh.
    + pose proof (waiting_set r q (queue_at r q <| CQ_pending := pending |>) Hq) as Hw. cbn in Hw. rewrite Ep in Hw. cbn in Hw. weigh.
  - injection E as <- <- <-. unfold announce. cbn. destruct (J_Dropped _); (split; [done|weigh]).
  - injection E as <- <- <-. unfold forget. case_bool_decide; [destruct (_ && _)|]; (split; [done|weigh]).
  - injection E as <- <- <-. split; [done|weigh].
Qed.

(** A goroutine's step that does not wait for a lease. *)
Definition steps_on (x : action) : Prop := match x with Step _ a => a ≠ Held | _ => False end.

Lemma step_decreases x r r' : ok r → steps_on x → act x r = Some r' → (measure r' < measure r)%nat.
Proof.
  intros K Hx. destruct x as [|t a| | |]; try done. cbn.
  destruct (R_threads r !! t) as [th|] eqn:Et; [|done]. destruct (advance a th r) as [[[th' started] r1]|] eqn:Ea; [|done].
  intros [= <-]. destruct (thread_at _ _ _ Et) as (l1 & l2 & E & ->).
  destruct (advance_decreases a th r th' started r1 K) as [Er Hw]; [rewrite E; set_solver|done|done|].
  unfold measure. cbn. rewrite Er, E, insert_middle, <- app_assoc. cbn. rewrite !weights_middle.
  unfold weights at 2. rewrite sum_list_with_app. fold (weights l2) (weights started). lia.
Qed.

(** ** Who waits is waited for *)

Definition expecting (th : thread) : option nat :=
  match th with Awaiting j => Some j | Leaving j _ (Ok _) => Some j | _ => None end.

Definition expected (r : Registry) : Prop :=
  ∀ th j, th ∈ R_threads r → expecting th = Some j → j ∈ admissions (R_log r).

Lemma advance_expects a th r th' started r1 :
  advance a th r = Some (th', started, r1) → R_threads r1 = R_threads r →
  (∀ j, expecting th = Some j → j ∈ admissions (R_log r)) →
  (∃ es, R_log r1 = R_log r ++ es)
  ∧ ∀ y j, y ∈ default (Returned None) th' :: started → expecting y = Some j → j ∈ admissions (R_log r1).
Proof.
  intros E Er He. assert (∀ (y : thread) r1, expecting y = None → (∃ es, R_log r1 = R_log r ++ es) →
    (∃ es, R_log r1 = R_log r ++ es) ∧ ∀ y' j, y' ∈ [y] → expecting y' = Some j → j ∈ admissions (R_log r1)) as Hnone.
  { intros y r2 Hy Hes. split; [done|]. intros y' j ->%list_elem_of_singleton. by rewrite Hy. }
  assert (∃ es, R_log r = R_log r ++ es) as Hsame by (exists []; by rewrite app_nil_r).
  destruct th; unfold advance in E; cbv beta iota zeta in E.
  - injection E as <- <- <-. unfold enter. destruct (R_draining r); [apply Hnone; [done|by eexists]|]. cbv zeta.
    by destruct (R_queues _ !! conversationID); apply Hnone.
  - destruct (enqueue conversationID q job sync r) as [[y st] r2] eqn:H. injection E as <- <- <-. unfold enqueue in H.
    destruct (CQ_running (queue_at r q)); [destruct (_ <=? _)|]; injection H as <- <- <-; cbn [default].
    + apply Hnone; [done|by eexists].
    + split; [by eexists|]. intros y j ->%list_elem_of_singleton [= <-]. cbn. unfold admissions. rewrite log_app. set_solver.
    + split; [by eexists|]. cbn. unfold admissions. rewrite log_app.
      intros y j [->|[->|?%not_elem_of_nil]%elem_of_cons]%elem_of_cons; try done. destruct sync; [|done]. intros [= <-]. set_solver.
  - injection E as <- <- <-. split; [done|]. intros y j ->%list_elem_of_singleton. cbn.
    destruct sync, answer; try done. intros [= <-]. by apply He.
  - destruct (J_Done _); [|done]. injection E as <- <- <-. by apply Hnone.
  - done.
  - injection E as <- <- <-. unfold begin. destruct (J_Dropped _); [|destruct (R_locker r)]; apply Hnone; try done. by eexists.
  - injection E as <- <- <-. destruct a; apply Hnone; try done; by eexists.
  - injection E as <- <- <-. by apply Hnone.
  - injection E as <- <- <-. by apply Hnone.
  - injection E as <- <- <-. apply Hnone; [done|by eexists].
  - injection E as <- <- <-. unfold turnqueue.next. by destruct (CQ_pending (queue_at r q)); apply Hnone.
  - injection E as <- <- <-. unfold announce. cbn [default fst snd]. destruct (J_Dropped _); apply Hnone; try done; by eexists.
  - injection E as <- <- <-. unfold forget. case_bool_decide; [destruct (_ && _)|]; by apply Hnone.
  - injection E as <- <- <-. by apply Hnone.
Qed.

Lemma advance_threads a th r th' started r1 : advance a th r = Some (th', started, r1) → R_threads r1 = R_threads r.
Proof.
  intros E. destruct th; unfold advance in E; cbv beta iota zeta in E; try done; try (by injection E as <- <- <-).
  - injection E as <- <- <-. unfold enter. destruct (R_draining r); [done|]. cbv zeta. by destruct (R_queues _ !! conversationID).
  - destruct (enqueue conversationID q job sync r) as [[y st] r2] eqn:H. injection E as <- <- <-. unfold enqueue in H.
    destruct (CQ_running (queue_at r q)); [destruct (_ <=? _)|]; by injection H as <- <- <-.
  - destruct (J_Done _); [|done]. by injection E as <- <- <-.
  - injection E as <- <- <-. unfold begin. destruct (J_Dropped _); [done|]. by destruct (R_locker r).
  - injection E as <- <- <-. by destruct a.
  - injection E as <- <- <-. unfold turnqueue.next. by destruct (CQ_pending (queue_at r q)).
  - injection E as <- <- <-. unfold announce. cbn. by destruct (J_Dropped _).
  - injection E as <- <- <-. unfold forget. case_bool_decide; [by destruct (_ && _)|done].
Qed.

Lemma step_threads t a r r' : act (Step t a) r = Some r' → ok r →
  ∃ l1 l2 th th' started r1, R_threads r = l1 ++ th :: l2 ∧ advance a th r = Some (th', started, r1)
    ∧ R_threads r1 = R_threads r ∧ R_threads r' = l1 ++ default (Returned None) th' :: l2 ++ started ∧ R_log r' = R_log r1
    ∧ R_draining r' = R_draining r1.
Proof.
  cbn. destruct (R_threads r !! t) as [th|] eqn:Et; [|done]. destruct (advance a th r) as [[[th' started] r1]|] eqn:Ea; [|done].
  intros [= <-] K. destruct (thread_at _ _ _ Et) as (l1 & l2 & E & ->).
  pose proof (advance_threads a th r th' started r1 Ea) as Er.
  exists l1, l2, th, th', started, r1. split_and!; try done. cbn. by rewrite Er, E, insert_middle, <- app_assoc.
Qed.

Lemma expected_act x r r' : act x r = Some r' → ok r → expected r → expected r'.
Proof.
  intros E K He. destruct x as [c sync|t a|t| |].
  - injection E as <-. intros th j. cbn. intros [H| ->%list_elem_of_singleton]%elem_of_app; [by apply He|done].
  - destruct (step_threads t a r r' E K) as (l1 & l2 & th & th' & started & r1 & Er & Ea & Er1 & Er' & El & _).
    destruct (advance_expects a th r th' started r1 Ea Er1) as [[es Hes] Hy].
    { intros j. apply He. rewrite Er. set_solver. }
    intros y j Hin Hj. rewrite El. rewrite Er' in Hin.
    apply elem_of_app in Hin as [Hin|[->|[Hin|Hin]%elem_of_app]%elem_of_cons]; [| | |].
    + rewrite Hes. unfold admissions. rewrite omap_app. apply elem_of_app. left. apply (He y j); [rewrite Er; set_solver|done].
    + apply (Hy (default (Returned None) th')); [by left|done].
    + rewrite Hes. unfold admissions. rewrite omap_app. apply elem_of_app. left. apply (He y j); [rewrite Er; set_solver|done].
    + apply (Hy y); [by right|done].
  - cbn in E. destruct (R_threads r !! t) as [[| | |j| | | | | | | | | |]|]; try done. injection E as <-. intros th j' Hin Hj.
    cbn in Hin. cbn. apply list_elem_of_lookup in Hin as [i Hi].
    apply list_lookup_insert_Some in Hi as [(-> & <- & _)|[_ Hi]]; [done|]. apply (He th j'); [by eapply list_elem_of_lookup_2|done].
  - injection E as <-. exact He.
  - cbn in E. destruct (R_draining r); [|done]. injection E as <-. exact He.
Qed.

Lemma reachable_ok locker xs r : acts xs (NewRegistry locker) = Some r → ok r ∧ expected r.
Proof.
  assert (∀ xs r r', acts xs r = Some r' → ok r → expected r → ok r' ∧ expected r') as H.
  { clear. induction xs as [|x xs IH]; intros r r'; cbn; [by intros [= ->]|].
    destruct (act x r) as [r1|] eqn:E; [|done]. intros H K He. eapply IH; [exact H|by eapply ok_act|by eapply expected_act]. }
  intros E. eapply H; [exact E|apply ok_new|]. by intros th j ?%not_elem_of_nil.
Qed.

(** When nothing can step, everybody is back. *)
Lemma stuck_returned r : ok r → expected r → (∀ t a, a ≠ Held → act (Step t a) r = None) →
  ∀ th, th ∈ R_threads r → ∃ answer, th = Returned answer.
Proof.
  intros K He Hstuck. assert (∀ th, th ∈ R_threads r → advance Failed th r = None) as Hno.
  { intros th [t Ht]%list_elem_of_lookup. specialize (Hstuck t Failed ltac:(done)). cbn in Hstuck. rewrite Ht in Hstuck.
    by destruct (advance Failed th r) as [[[? ?] ?]|]. }
  assert (∀ th, th ∈ R_threads r → (∃ answer, th = Returned answer) ∨ ∃ j, th = Awaiting j ∧ J_Done (job_at r j) = false) as Hcases.
  { intros th Hin. specialize (Hno th Hin). destruct th; unfold advance in Hno; cbv beta iota zeta in Hno; try done.
    - by destruct (enqueue _ _ _ _ r) as [[? ?] ?].
    - right. exists job. by destruct (J_Done (job_at r job)).
    - left. by eexists. }
  intros th Hin. destruct (Hcases th Hin) as [?|(j & -> & Hd)]; [done|]. exfalso.
  assert (j ∈ admissions (R_log r)) as Hj by (apply (He (Awaiting j)); done).
  apply list_elem_of_omap in Hj as (e & Hj & Ee). destruct e as [|q j'| | | |]; try done. injection Ee as ->.
  pose proof (ok_queue _ K q) as Hq. unfold queue_ok in Hq.
  assert (servers q (R_threads r) = []) as Hs.
  { destruct (servers q (R_threads r)) as [|o l] eqn:Es; [done|]. exfalso. assert (o ∈ servers q (R_threads r)) as Ho by (rewrite Es; by left).
    apply list_elem_of_omap in Ho as (th' & Hin' & Ho). destruct (Hcases th' Hin') as [[answer ->]|(j' & -> & _)]; done. }
  destruct (CQ_running (queue_at r q)); [destruct Hq as (o & Ho & _); by rewrite Hs in Ho|]. destruct Hq as (_ & _ & Ha).
  apply elem_of_admitted in Hj. rewrite Ha in Hj. apply elem_of_closed in Hj.
  assert (J_Done (job_at r j) = true) as Ht by (apply (to_done _ (ok_turns _ K)); by exists q). congruence.
Qed.

Lemma acts_measure ys : ∀ r r', ok r → expected r → Forall steps_on ys → acts ys r = Some r' →
  ok r' ∧ expected r' ∧ (length ys + measure r' ≤ measure r)%nat.
Proof.
  induction ys as [|y ys IH]; intros r r' K He Hy; cbn; [intros [= ->]; split_and!; [done|done|lia]|].
  apply Forall_cons in Hy as [Hy Hys]. destruct (act y r) as [r1|] eqn:E; [|done]. intros H.
  pose proof (step_decreases y r r1 K Hy E). destruct (IH r1 r') as (K' & He' & Hm); [by eapply ok_act|by eapply expected_act|done|done|].
  split_and!; [done|done|lia].
Qed.

(** C19: A server serves each queue it makes in order, one turn of that queue at
    a time.  Whatever callers, goroutines and shutdowns interleave, each
    queue has at most one goroutine, and what was let into it is, in order, the
    turns it closed, the one in hand, and those waiting, of which there are never
    more than the cap; every submitted turn is with its caller, turned away, or
    let into exactly one queue; a turn is begun at most once, and only once let in; it counts as done
    exactly when it was closed, and then it was begun or its caller had left. *)
Theorem turns_in_order locker xs r :
  acts xs (NewRegistry locker) = Some r →
  (∀ q, (length (servers q (R_threads r)) ≤ 1)%nat
     ∧ admitted q (R_log r) = closed q (R_log r) ++ omap id (servers q (R_threads r)) ++ CQ_pending (queue_at r q)
     ∧ (Z.of_nat (length (CQ_pending (queue_at r q))) <= MaxQueued)%Z)
  ∧ omap offering (R_threads r) ++ rejections (R_log r) ++ admissions (R_log r) ≡ₚ seq 0 (length (R_jobs r))
  ∧ NoDup (begun (R_log r)) ∧ (∀ j, j ∈ begun (R_log r) → j ∈ admissions (R_log r))
  ∧ (∀ j, J_Done (job_at r j) = true ↔ ∃ q, Closed q j ∈ R_log r)
  ∧ ∀ q j, Closed q j ∈ R_log r → j ∈ begun (R_log r) ∨ J_Dropped (job_at r j) = true.
Proof.
  intros E. destruct (reachable_ok _ _ _ E) as [K _]. split_and!; [|apply K|apply (ok_turns _ K)| |apply (ok_turns _ K)|apply (ok_turns _ K)].
  - intros q. pose proof (ok_queue _ K q) as Hq. unfold queue_ok in Hq. destruct (CQ_running (queue_at r q)).
    + destruct Hq as (o & -> & ->). split_and!; [done|by destruct o|apply K].
    + destruct Hq as (-> & Hp & ->). split_and!; [cbn; lia|by rewrite Hp, app_nil_r|apply K].
  - intros j Hj. apply list_elem_of_omap. destruct (to_begun _ (ok_turns _ K) j Hj) as [Hw|[q Hc]].
    + apply list_elem_of_omap in Hw as (th & Hin & Hw). destruct (working_serving _ _ Hw) as [q Hs].
      destruct (served_admitted r K q j th Hin Hs) as [Ha _]. by exists (Enqueued q j).
    + exists (Enqueued q j). split; [|done]. apply elem_of_admitted. apply elem_of_closed in Hc.
      pose proof (ok_queue _ K q) as Hq. unfold queue_ok in Hq.
      destruct (CQ_running _); [destruct Hq as (o & _ & ->); apply elem_of_app; by left|by destruct Hq as (_ & _ & ->)].
Qed.

(** C20: Every submitted turn is answered.  From any state a server reaches, once
    nobody submits and every attempt at a lease is granted or refused, the
    goroutines take a bounded number of steps, in any order; when none can take
    another, no turn is counted as active and every turn ever submitted was
    turned away or closed. *)
Theorem turns_answered locker xs r ys r' :
  acts xs (NewRegistry locker) = Some r → Forall steps_on ys → acts ys r = Some r' →
  (length ys ≤ measure r)%nat
  ∧ ((∀ t a, a ≠ Held → act (Step t a) r' = None) →
      R_active r' = 0 ∧ ∀ j, (j < length (R_jobs r'))%nat → j ∈ rejections (R_log r') ∨ ∃ q, Closed q j ∈ R_log r').
Proof.
  intros E Hy Ey. destruct (reachable_ok _ _ _ E) as [K He]. destruct (acts_measure ys r r' K He Hy Ey) as (K' & He' & Hm).
  split; [lia|]. intros Hstuck. pose proof (stuck_returned r' K' He' Hstuck) as Hret. split.
  - rewrite (ok_active _ K'). clear -Hret. induction (R_threads r') as [|th l IH]; [done|]. cbn.
    destruct (Hret th) as [answer ->]; [by left|]. apply IH. intros th' ?. apply Hret. by right.
  - intros j Hj. assert (j ∈ seq 0 (length (R_jobs r'))) as Hs by (apply elem_of_seq; lia).
    rewrite <- (ok_jobs _ K') in Hs. apply elem_of_app in Hs as [Ho|[?|Ha]%elem_of_app]; [|by left|right].
    + apply list_elem_of_omap in Ho as (th & Hin & Ho). by destruct (Hret th Hin) as [answer ->].
    + apply list_elem_of_omap in Ha as (e & Hin & Ee). destruct e as [|q j'| | | |]; try done. injection Ee as ->. exists q.
      apply elem_of_closed. pose proof (ok_queue _ K' q) as Hq. unfold queue_ok in Hq. apply elem_of_admitted in Hin.
      assert (servers q (R_threads r') = []) as Hserve.
      { destruct (servers q (R_threads r')) as [|o l] eqn:Es; [done|]. exfalso. assert (o ∈ servers q (R_threads r')) as Ho' by (rewrite Es; by left).
        apply list_elem_of_omap in Ho' as (th' & Hin' & Ho'). by destruct (Hret th' Hin') as [answer ->]. }
      destruct (CQ_running _); [destruct Hq as (o & Ho & _); by rewrite Hserve in Ho|]. destruct Hq as (_ & _ & Ha). by rewrite <- Ha.
Qed.

(** ** Shutdown *)

Lemma counted_nonneg th : 0 <= counted th.
Proof. destruct th; cbn; lia. Qed.

Lemma active_zero l : active l = 0 → ∀ th, th ∈ l → counted th = 0.
Proof.
  intros H th (l1 & l2 & ->)%list_elem_of_split. rewrite active_middle in H.
  assert (∀ l, 0 <= active l) as Hpos by (induction l as [|x l IH]; cbn; [lia|pose proof (counted_nonneg x); unfold active in IH; lia]).
  pose proof (Hpos l1). pose proof (Hpos l2). pose proof (counted_nonneg th). lia.
Qed.

Lemma quiet_act x r r' : ok r → R_draining r = true → R_active r = 0 → act x r = Some r' →
  R_draining r' = true ∧ R_active r' = 0 ∧ begun (R_log r') = begun (R_log r).
Proof.
  intros K Hd Ha E. rewrite (ok_active _ K) in Ha. pose proof (active_zero _ Ha) as Hc.
  destruct x as [c sync|t a|t| |].
  - injection E as <-. cbn. by rewrite (ok_active _ K).
  - cbn in E. destruct (R_threads r !! t) as [th|] eqn:Et; [|done]. assert (th ∈ R_threads r) as Hin by (by eapply list_elem_of_lookup_2).
    specialize (Hc th Hin). destruct th; try done; cbn in E.
    + unfold enter in E. rewrite Hd in E. injection E as <-. cbn. split_and!; [done|by rewrite (ok_active _ K)|].
      unfold begun. by rewrite log_app, app_nil_r.
    + destruct (J_Done _); [|done]. injection E as <-. cbn. by rewrite (ok_active _ K).
  - cbn in E. destruct (R_threads r !! t) as [[| | |j| | | | | | | | | |]|]; try done. injection E as <-. cbn. by rewrite (ok_active _ K).
  - injection E as <-. cbn. by rewrite (ok_active _ K).
  - cbn in E. rewrite Hd in E. injection E as <-. cbn. by rewrite (ok_active _ K).
Qed.

(** C21: A shutdown that saw its turns finish can rely on it.  Once a registry
    refuses new turns and [Wait] has returned true, no turn is running or ever
    runs again, whoever still submits. *)
Theorem drained_stays_quiet locker xs r ys r' :
  acts xs (NewRegistry locker) = Some r → R_draining r = true → Waited r = true → acts ys r = Some r' →
  Waited r' = true ∧ begun (R_log r') = begun (R_log r) ∧ ∀ th, th ∈ R_threads r' → serving th = None.
Proof.
  intros E Hd Hw%Z.eqb_eq Ey. destruct (reachable_ok _ _ _ E) as [K _].
  assert (∀ ys r r', ok r → R_draining r = true → R_active r = 0 → acts ys r = Some r' →
    ok r' ∧ R_active r' = 0 ∧ begun (R_log r') = begun (R_log r)) as H.
  { clear. induction ys as [|y ys IH]; intros r r' K Hd Ha; cbn; [by intros [= ->]|].
    destruct (act y r) as [r1|] eqn:Ey; [|done]. destruct (quiet_act y r r1 K Hd Ha Ey) as (Hd1 & Ha1 & <-).
    apply IH; [by eapply ok_act|done|done]. }
  destruct (H ys r r' K Hd Hw Ey) as (K' & Ha' & Hb). split_and!; [by apply Z.eqb_eq|done|].
  intros th Hin. rewrite (ok_active _ K') in Ha'. pose proof (active_zero _ Ha' th Hin) as Hc. by destruct th.
Qed.
