(* ===== verification/TurnCluster.v ===== *)
(** * TurnCluster: the turns of a conversation across replicas

    Replicas of the turn queue over one Redis and one database: leases expire,
    Redis can lose its data, replicas crash, and a turn whose lease is gone goes
    on writing.  The stored transcript of a conversation still is one turn after
    the other. *)

From Stdlib Require Import Ascii String.
From S2P Require Import Prelude EffLogic Text Json TaskCore WorkflowCore LedgerCore Store TaskStore AgentContext TurnQueue TurnLaws.
From stdpp Require Import gmap strings pretty sorting.
Import Prelude.
Import db coreconv conversationdb coordination turnqueue servercoord.
Local Open Scope Z_scope.
Local Open Scope buildmax_scope.

#[local] Arguments acquireScript : simpl never.

(** ** Appending a message *)

Lemma insertMessage_ok gen in_ at_ s m s' : insertMessage gen in_ at_ s = (Ok m, s') →
  st_messages s' = st_messages s ++ [m] ∧ CM_ConversationID m = AI_ConversationID in_ ∧ st_turn_fence s' = st_turn_fence s.
Proof.
  unfold insertMessage. intros (id & s1 & (_ & n & ->)%createWithPublicID_ok & E)%eff_bind_ok.
  apply eff_bind_ok in E as (s2 & s3 & [-> ->]%get_ok & E). apply eff_bind_ok in E as (u & s4 & ->%put_ok & E).
  apply ret_ok in E as [-> ->]. done.
Qed.

(** A fenced append: refused when the conversation has seen a newer fence. *)
Lemma AppendMessage_ok gen in_ s m s' : AI_Fence in_ ≠ 0 → AppendMessage gen in_ s = (Ok m, s') →
  turnFence s (AI_ConversationID in_) <= AI_Fence in_
  ∧ st_messages s' = st_messages s ++ [m] ∧ CM_ConversationID m = AI_ConversationID in_
  ∧ ∀ c, turnFence s' c = if bool_decide (c = AI_ConversationID in_) then AI_Fence in_ else turnFence s c.
Proof.
  intros H0. unfold AppendMessage. intros (at_ & s1 & [_ ->]%gets_ok & E)%eff_bind_ok.
  rewrite (proj2 (Z.eqb_neq _ _) H0) in E. apply transaction_ok in E.
  apply eff_bind_ok in E as (k & s2 & [_ ->]%lookupKey_ok & E). apply eff_bind_ok in E as (s3 & s4 & [-> ->]%get_ok & E).
  destruct (Z.ltb_spec (AI_Fence in_) (turnFence s (AI_ConversationID in_))) as [Hlt|Hle]; [by apply fail_ok in E|].
  apply eff_bind_ok in E as (u & s5 & E5 & (-> & -> & Ef)%insertMessage_ok). split; [done|].
  destruct (Z.ltb_spec (turnFence s (AI_ConversationID in_)) (AI_Fence in_)) as [Hlt|Hge].
  - apply put_ok in E5 as ->. split_and!; [done..|]. intros c. unfold turnFence at 1. rewrite Ef. cbn.
    case_bool_decide as Ec; [subst c; by rewrite lookup_insert_eq|by rewrite lookup_insert_ne].
  - apply ret_ok in E5 as [_ ->]. split_and!; [done..|]. intros c. unfold turnFence at 1. rewrite Ef.
    case_bool_decide as Ec; [subst c; unfold turnFence in *; lia|done].
Qed.

Lemma AppendMessage_err gen in_ s e s' : AI_Fence in_ ≠ 0 → AppendMessage gen in_ s = (Err e, s') → ∃ n, s' = s <| st_fresh := n |>.
Proof.
  intros H0 E. unfold AppendMessage in E. change (mbind ?f now s) with (f (st_clock s) s) in E. cbn beta in E.
  rewrite (proj2 (Z.eqb_neq _ _) H0) in E. by eapply transaction_err.
Qed.

(** ** A cluster *)

(** [C_log] is the messages turns appended, with the conversation and the fence
    they were written with; [C_grants] the fences granted for a conversation. *)
Record Cluster : Type := mkCluster {
  C_now : Z;
  C_redis : Redis;
  C_store : Store;
  C_replicas : list Registry;
  C_log : list (string * Z * string);
  C_grants : list (string * Z)
}.
#[export] Instance Cluster_updatable : Updatable Cluster := λ c,
  mkCluster (C_now c) (C_redis c) (C_store c) (C_replicas c) (C_log c) (C_grants c).

Definition start (n : nat) (now_ : Z) (s : Store) : Cluster := {|
  C_now := now_; C_redis := mkRedis ∅ ∅; C_store := s; C_replicas := replicate n (NewRegistry true);
  C_log := []; C_grants := [] |}.

(** The queue of replica [i] does something of its own; its goroutine [t] tries
    for the lease, appends a message (its clock showing [at_]), renews or releases its lease; time passes;
    a replica restarts; Redis loses its data; something else changes the database. *)
Inductive move : Type :=
| Local_ (i : nat) (x : action)
| TryLock (i t : nat) (nonce : string)
| Append (i t : nat) (in_ : AppendInput) (at_ : Z)
| Renew (i t : nat) (reachable : bool)
| Unlock (i t : nat) (reachable : bool)
| Pass (dt : Z)
| Restart_ (i : nat)
| Lose
| Elsewhere (f : Store → Store).

Definition own (x : action) : bool := match x with Step _ (Granted _) => false | _ => true end.

Definition with_lease (l : Lease) (th : thread) : thread :=
  match th with
  | Running c q j (Some _) => Running c q j (Some l)
  | Releasing c q j (Some _) => Releasing c q j (Some l)
  | _ => th
  end.

Definition replica (i : nat) (r : Registry) (c : Cluster) : Cluster := c <| C_replicas := <[i := r]> (C_replicas c) |>.

Definition elsewhere (f : Store → Store) (s : Store) : Store :=
  f s <| st_messages := st_messages s |> <| st_turn_fence := st_turn_fence s |>.

Section Moves.
Context (luaText : Z → string) (gen : nat → string).

Definition tryLock (i t : nat) (nonce : string) (r : Registry) (c : Cluster) : option Cluster :=
  match R_threads r !! t with
  | Some (Acquiring conv q j) =>
      let '(l, redis) := Acquire luaText conv nonce (C_now c) (C_redis c) in
      r' ← act (Step t (match l with Some l => Granted l | None => Held end)) r;
      Some (replica i r' c <| C_redis := redis |>
              <| C_grants := C_grants c ++ match l with Some l => [(conv, Ls_fence l)] | None => [] end |>)
  | _ => None
  end.

Definition append (t : nat) (in_ : AppendInput) (at_ : Z) (r : Registry) (c : Cluster) : option Cluster :=
  match R_threads r !! t with
  | Some (Running conv q j (Some l)) =>
      let in_ := in_ <| AI_ConversationID := conv |> <| AI_Fence := Ls_fence l |> in
      let '(res, s) := AppendMessage gen in_ (C_store c <| st_clock := at_ |>) in
      Some (c <| C_store := s |>
              <| C_log := C_log c ++ match res with Ok m => [(conv, Ls_fence l, CM_ID m)] | Err _ => [] end |>)
  | _ => None
  end.

Definition moved (m : move) (c : Cluster) : option Cluster :=
  match m with
  | Local_ i x =>
      r ← C_replicas c !! i;
      r' ← (if own x then act x r else None);
      Some (replica i r' c)
  | TryLock i t nonce => r ← C_replicas c !! i; tryLock i t nonce r c
  | Append i t in_ at_ => r ← C_replicas c !! i; append t in_ at_ r c
  | Renew i t reachable =>
      r ← C_replicas c !! i;
      match R_threads r !! t with
      | Some (Running _ _ _ (Some l) as th) | Some (Releasing _ _ _ (Some l) as th) =>
          let '(l, redis) := renewTick reachable (C_now c) l (C_redis c) in
          Some (replica i (r <| R_threads := <[t := with_lease l th]> (R_threads r) |>) c <| C_redis := redis |>)
      | _ => None
      end
  | Unlock i t reachable =>
      r ← C_replicas c !! i;
      match R_threads r !! t with
      | Some (Releasing _ _ _ (Some l)) =>
          r' ← act (Step t Held) r;
          Some (replica i r' c <| C_redis := Release reachable (C_now c) l (C_redis c) |>)
      | _ => None
      end
  | Pass dt => Some (c <| C_now := C_now c + Z.max 0 dt |>)
  | Restart_ i => Some (replica i (NewRegistry true) c)
  | Lose =>
      if bool_decide (map_Forall (λ _ n, n <= fenceFloor (C_now c)) (Rd_counters (C_redis c)))
      then Some (c <| C_redis := mkRedis ∅ ∅ |>) else None
  | Elsewhere f => Some (c <| C_store := elsewhere f (C_store c) |>)
  end.

Fixpoint moves (ms : list move) (c : Cluster) : option Cluster :=
  match ms with [] => Some c | m :: ms => c ← moved m c; moves ms c end.

End Moves.

(** ** The invariant *)

Definition turn_key (conv : string) : string := "fence:" +:+ (convLockPrefix +:+ conv).

(** No fence above it was issued for [conv]; the next one is. *)
Definition bound (c : Cluster) (conv : string) : Z := default (fenceFloor (C_now c)) (Rd_counters (C_redis c) !! turn_key conv).

Definition lease_of (th : thread) : option (string * Z) :=
  match th with
  | Running conv _ _ (Some l) | Releasing conv _ _ (Some l) => Some (conv, Ls_fence l)
  | _ => None
  end.

Definition leases (r : Registry) : list (string * Z) := omap lease_of (R_threads r).

Definition fences (conv : string) (log : list (string * Z * string)) : list Z :=
  omap (λ x, if bool_decide (x.1.1 = conv) then Some x.1.2 else None) log.

#[local] Arguments fences : simpl never.

Definition transcript (s : Store) : list (string * string) := map (λ m, (CM_ConversationID m, CM_ID m)) (st_messages s).

Record fenced (s0 : Store) (c : Cluster) : Prop := {
  f_now : 0 <= C_now c;
  f_counters k n : Rd_counters (C_redis c) !! k = Some n → 0 <= n;
  f_grants conv f : (conv, f) ∈ C_grants c → 0 < f <= bound c conv;
  f_once : NoDup (C_grants c);
  f_stored conv : turnFence (C_store c) conv <= bound c conv;
  f_leases r x : r ∈ C_replicas c → x ∈ leases r → x ∈ C_grants c;
  f_logged conv f id : (conv, f, id) ∈ C_log c → (conv, f) ∈ C_grants c ∧ f <= turnFence (C_store c) conv;
  f_sorted conv : StronglySorted Z.le (fences conv (C_log c));
  f_transcript : transcript (C_store c) = transcript s0 ++ map (λ x, (x.1.1, x.2)) (C_log c)
}.

(** ** Leases under the steps of a registry *)

Lemma advance_lease a th r th' started r1 : advance a th r = Some (th', started, r1) →
  omap lease_of started = [] ∧
  ∀ y f, th' = Some y → lease_of y = Some f →
    lease_of th = Some f ∨ ∃ l conv q j, a = Granted l ∧ th = Acquiring conv q j ∧ f = (conv, Ls_fence l).
Proof.
  intros E. destruct th; unfold advance in E; cbv beta iota zeta in E; try done;
    try (injection E as <- <- <-; split; [done|]; intros y f [= <-] Hy; by first [discriminate Hy|left]).
  - injection E as <- <- <-. split; [done|]. intros y f [= <-] Hy. exfalso. revert Hy. unfold enter.
    destruct (R_draining r); [done|]. cbv zeta. by destruct (R_queues _ !! conversationID).
  - destruct (enqueue conversationID q job sync r) as [[y st] r2] eqn:H. injection E as <- <- <-. unfold enqueue in H.
    destruct (CQ_running (queue_at r q)); [destruct (_ <=? _)|]; injection H as <- <- <-;
      (split; [done|]; intros y' f [= <-] Hy; by destruct sync).
  - injection E as <- <- <-. split; [done|]. intros y f [= <-] Hy. destruct sync, answer; done.
  - destruct (J_Done _); [|done]. injection E as <- <- <-. by split; [|intros y f [= <-]].
  - injection E as <- <- <-. split; [done|]. intros y f [= <-] Hy. exfalso. revert Hy. unfold begin.
    destruct (J_Dropped _); [done|]. by destruct (R_locker r).
  - injection E as <- <- <-. split; [done|]. intros y f [= <-] Hy. destruct a as [l| |]; [|done..].
    right. exists l, conversationID, q, job. by injection Hy.
  - injection E as <- <- <-. split; [done|]. intros y f [= <-] Hy. exfalso. revert Hy. unfold turnqueue.next.
    by destruct (CQ_pending (queue_at r q)).
  - injection E as <- <- <-. split; [done|]. intros y f [= <-] Hy. exfalso. revert Hy. unfold forget.
    case_bool_decide; [by destruct (_ && _)|done].
Qed.

Lemma elem_of_leases r f : f ∈ leases r ↔ ∃ t th, R_threads r !! t = Some th ∧ lease_of th = Some f.
Proof. unfold leases. rewrite list_elem_of_omap. setoid_rewrite list_elem_of_lookup. naive_solver. Qed.

Lemma act_leases x r r' f : act x r = Some r' → f ∈ leases r' →
  f ∈ leases r ∨ ∃ t l conv q j, x = Step t (Granted l) ∧ R_threads r !! t = Some (Acquiring conv q j) ∧ f = (conv, Ls_fence l).
Proof.
  assert (∀ t y, lease_of y = None → f ∈ omap lease_of (<[t := y]> (R_threads r)) → f ∈ leases r) as Hset.
  { intros t y Hy (th & Hin & Hf)%list_elem_of_omap. apply list_elem_of_omap. exists th. split; [|done].
    apply list_elem_of_lookup in Hin as [i Hi]. apply list_lookup_insert_Some in Hi as [(_ & <- & _)|[_ Hi]]; [congruence|].
    by eapply list_elem_of_lookup_2. }
  destruct x as [c sync|t a|t| |]; cbn.
  - intros [= <-]. unfold leases. cbn. rewrite omap_app, app_nil_r. by left.
  - destruct (R_threads r !! t) as [th|] eqn:Et; [|done].
    destruct (advance a th r) as [[[th' started] r1]|] eqn:Ea; [|done]. intros [= <-]. unfold leases. cbn.
    rewrite (advance_threads _ _ _ _ _ _ Ea), omap_app. destruct (advance_lease _ _ _ _ _ _ Ea) as [-> Hy]. rewrite app_nil_r.
    intros (y & Hin & Hf)%list_elem_of_omap. apply list_elem_of_lookup in Hin as [i Hi].
    apply list_lookup_insert_Some in Hi as [(-> & <- & _)|[_ Hi]]; [|left; apply elem_of_leases; by exists i, y].
    destruct th' as [y|]; [|done]. destruct (Hy y f eq_refl Hf) as [Hl|(l & conv & q & j & -> & -> & ->)].
    + left. apply elem_of_leases. by exists i, th.
    + right. by exists i, l, conv, q, j.
  - destruct (R_threads r !! t) as [[| | |j| | | | | | | | | |]|]; try done. intros [= <-] H. left. by apply (Hset t (Returned None)).
  - intros [= <-]. by left.
  - destruct (R_draining r); [|done]. intros [= <-]. by left.
Qed.

Lemma with_lease_leases l l' t th r f : R_threads r !! t = Some th → lease_of (with_lease l th) = lease_of th → l' = l →
  f ∈ leases (r <| R_threads := <[t := with_lease l' th]> (R_threads r) |>) → f ∈ leases r.
Proof.
  intros Et E -> (y & Hin & Hf)%list_elem_of_omap. apply list_elem_of_lookup in Hin as [i Hi]. apply elem_of_leases.
  apply list_lookup_insert_Some in Hi as [(-> & <- & _)|[_ Hi]]; [exists i, th; by rewrite <- E|by exists i, y].
Qed.

(** ** Redis *)

Lemma renewTick_keeps reachable now_ l r l' r' : renewTick reachable now_ l r = (l', r') →
  Ls_fence l' = Ls_fence l ∧ Rd_counters r' = Rd_counters r.
Proof.
  unfold renewTick, renewScript. destruct (Ls_renewing l); cbn; [|by intros [= <- <-]]. destruct reachable.
  - case_bool_decide; cbn; by intros [= <- <-].
  - destruct (_ <=? _); by intros [= <- <-].
Qed.

Lemma Release_keeps reachable now_ l r : Rd_counters (Release reachable now_ l r) = Rd_counters r.
Proof. unfold Release, releaseScript. destruct reachable; [|done]. by case_bool_decide. Qed.

Lemma Acquire_grant luaText conv nonce now_ r l r' : Acquire luaText conv nonce now_ r = (l, r') →
  0 <= default (fenceFloor now_) (Rd_counters r !! turn_key conv) →
  match l with
  | None => r' = r
  | Some l => Ls_fence l = default (fenceFloor now_) (Rd_counters r !! turn_key conv) + 1
              ∧ Rd_counters r' = <[turn_key conv := Ls_fence l]> (Rd_counters r)
  end.
Proof.
  unfold Acquire, TryAcquireLock, acquireScript. change ("fence:" +:+ (convLockPrefix +:+ conv)) with (turn_key conv).
  case_bool_decide; cbn; [by intros [= <- <-]|].
  intros E Hp. revert E. rewrite (proj2 (Z.ltb_lt _ _)) by lia. by intros [= <- <-].
Qed.

Lemma turn_key_inj c1 c2 : turn_key c1 = turn_key c2 → c1 = c2.
Proof. unfold turn_key. by intros ?%(inj _)%(inj _). Qed.

(** ** Moves *)

Section Invariant.
Context (luaText : Z → string) (gen : nat → string) (s0 : Store).

Lemma fenced_frame c c' : fenced s0 c →
  0 <= C_now c' → (∀ k n, Rd_counters (C_redis c') !! k = Some n → 0 <= n) → C_grants c' = C_grants c → C_log c' = C_log c →
  (∀ conv, bound c conv <= bound c' conv) → (∀ conv, turnFence (C_store c') conv = turnFence (C_store c) conv) →
  transcript (C_store c') = transcript (C_store c) → (∀ r x, r ∈ C_replicas c' → x ∈ leases r → x ∈ C_grants c) → fenced s0 c'.
Proof.
  intros K Hn Hc Hg Hl Hb Hf Ht Hr. split; [done..| | | | | | |]; rewrite ?Hg, ?Hl, ?Ht; try apply K.
  - intros conv f Hin. specialize (Hb conv). pose proof (f_grants _ _ K conv f Hin). lia.
  - intros conv. rewrite Hf. specialize (Hb conv). pose proof (f_stored _ _ K conv). lia.
  - done.
  - intros conv f id Hin. rewrite Hf. by apply (f_logged _ _ K _ _ id).
Qed.

Lemma replica_leases c i r' (G : list (string * Z)) : (∀ r x, r ∈ C_replicas c → x ∈ leases r → x ∈ G) →
  (∀ x, x ∈ leases r' → x ∈ G) → ∀ r x, r ∈ <[i := r']> (C_replicas c) → x ∈ leases r → x ∈ G.
Proof.
  intros H H' r x Hin Hx. apply list_elem_of_lookup in Hin as [k Hk].
  apply list_lookup_insert_Some in Hk as [(-> & <- & _)|[_ Hk]]; [by apply H'|]. eapply H; [by eapply list_elem_of_lookup_2|done].
Qed.

(** A replica does something; Redis keeps its counters. *)
Lemma fenced_replica c i r r' redis : fenced s0 c → C_replicas c !! i = Some r → (∀ x, x ∈ leases r' → x ∈ leases r) →
  Rd_counters redis = Rd_counters (C_redis c) → fenced s0 (replica i r' c <| C_redis := redis |>).
Proof.
  intros K Hi Hl E. eapply fenced_frame; [exact K|apply K|cbn; rewrite E; apply K|done|done| |done|done|].
  - intros conv. unfold bound. cbn. by rewrite E.
  - cbn. apply replica_leases; [apply K|]. intros x Hx. eapply (f_leases _ _ K); [by eapply list_elem_of_lookup_2|by apply Hl].
Qed.

Lemma fenced_tryLock i t nonce r c c' : C_replicas c !! i = Some r → tryLock luaText i t nonce r c = Some c' →
  fenced s0 c → fenced s0 c'.
Proof.
  intros Hi E K. unfold tryLock in E. destruct (R_threads r !! t) as [th|] eqn:Et; [|done]. destruct th; try done.
  destruct (Acquire luaText conversationID nonce (C_now c) (C_redis c)) as [l redis] eqn:Ea.
  assert (0 <= bound c conversationID) as Hb0.
  { unfold bound. destruct (Rd_counters (C_redis c) !! turn_key conversationID) eqn:Ek; cbn; [by eapply (f_counters _ _ K)|]. pose proof (f_now _ _ K). apply Z.div_pos; [done|]. unfold Microsecond. lia. }
  pose proof (Acquire_grant _ _ _ _ _ _ _ Ea Hb0) as Hg. clear Ea.
  destruct (act _ r) as [r'|] eqn:Er in E; [|done]. cbn [mbind option_bind] in E. injection E as <-.
  assert (∀ x, x ∈ leases r → x ∈ C_grants c) as Hold by (intros x; eapply (f_leases _ _ K); by eapply list_elem_of_lookup_2).
  destruct l as [l|].
  2:{ subst redis. rewrite app_nil_r. apply (fenced_replica c i r r' (C_redis c)); [done..| |done]. intros x Hx.
      by destruct (act_leases _ _ _ _ Er Hx) as [?|(?&?&?&?&?&[=]&_)]. }
  destruct Hg as [Hf Hc]. fold (bound c conversationID) in Hf. set (conv := conversationID) in *.
  assert (∀ c', bound (replica i r' c <| C_redis := redis |> <| C_grants := C_grants c ++ [(conv, Ls_fence l)] |>) c'
                = if bool_decide (c' = conv) then bound c conv + 1 else bound c c') as Hb.
  { intros c'. unfold bound at 1. cbn. rewrite Hc. case_bool_decide as Ec; [subst c'; by rewrite lookup_insert_eq|].
    by rewrite lookup_insert_ne by (by intros ?%turn_key_inj). }
  split; cbn; try apply K.
  - intros k n. rewrite Hc. intros [(_ & <-)|[_ Hk]]%lookup_insert_Some; [lia|by eapply (f_counters _ _ K)].
  - intros c' f Hin. rewrite Hb. apply elem_of_app in Hin as [Hin|[= -> ->]%list_elem_of_singleton].
    + pose proof (f_grants _ _ K c' f Hin). case_bool_decide; subst; lia.
    + rewrite bool_decide_eq_true_2 by done. lia.
  - apply NoDup_app. split_and!; [apply K| |apply NoDup_singleton]. intros x Hx ->%list_elem_of_singleton.
    pose proof (f_grants _ _ K _ _ Hx). lia.
  - intros c'. rewrite Hb. pose proof (f_stored _ _ K c'). case_bool_decide; subst; lia.
  - apply replica_leases.
    + intros r1 x H1 H2. apply elem_of_app. left. by eapply (f_leases _ _ K).
    + intros x Hx. apply elem_of_app. destruct (act_leases _ _ _ _ Er Hx) as [?|(t' & l' & cv & q' & j' & [= <- <-] & Et' & ->)]; [left; by apply Hold|].
      right. rewrite Et in Et'. injection Et' as <- _ _. by left.
  - intros c' f id Hin. destruct (f_logged _ _ K _ _ _ Hin). split; [apply elem_of_app; by left|done].
Qed.

Lemma fences_snoc conv log x : fences conv (log ++ [x]) = fences conv log ++ (if bool_decide (x.1.1 = conv) then [x.1.2] else []).
Proof. unfold fences. rewrite omap_app. f_equal. cbn. by case_bool_decide. Qed.

Lemma StronglySorted_snoc (l : list Z) x : StronglySorted Z.le l → (∀ y, y ∈ l → y <= x) → StronglySorted Z.le (l ++ [x]).
Proof.
  induction 1 as [|a l Hl IH Ha]; intros Hx; cbn; [by repeat constructor|]. constructor.
  - apply IH. intros y Hy. apply Hx. by right.
  - apply Forall_app. split; [done|]. constructor; [|done]. apply Hx. by left.
Qed.

Lemma elem_of_fences conv log f : f ∈ fences conv log → ∃ id, (conv, f, id) ∈ log.
Proof.
  intros ([[c f'] id] & Hin & E)%list_elem_of_omap. cbn in E. case_bool_decide; [|done]. injection E as ->. subst. by exists id.
Qed.

Lemma fenced_append i t in_ at_ r c c' : C_replicas c !! i = Some r → append gen t in_ at_ r c = Some c' →
  fenced s0 c → fenced s0 c'.
Proof.
  intros Hi E K. unfold append in E. destruct (R_threads r !! t) as [th|] eqn:Et; [|done]. destruct th as [| | | | | | |conv q j [l|]| | | | | |]; try done.
  assert ((conv, Ls_fence l) ∈ C_grants c) as Hg.
  { eapply (f_leases _ _ K); [by eapply list_elem_of_lookup_2|]. apply elem_of_leases. by exists t, (Running conv q j (Some l)). }
  pose proof (f_grants _ _ K _ _ Hg) as [Hpos Hb].
  destruct (AppendMessage gen _ _) as [[m|e] s] eqn:Ea in E; injection E as <-.
  - apply AppendMessage_ok in Ea as (Hle & Hm & Hc & Hf); [|cbn; lia]. cbn in Hle, Hc, Hf.
    change (turnFence (C_store c) conv <= Ls_fence l) in Hle.
    assert (∀ c', turnFence s c' = if bool_decide (c' = conv) then Ls_fence l else turnFence (C_store c) c') as Hf' by exact Hf. clear Hf.
    split; cbn; try apply K.
    + intros c'. rewrite Hf'. change (bound _ c') with (bound c c'). case_bool_decide; [subst; exact Hb|apply (f_stored _ _ K)].
    + intros c' f id [Hin|[= -> -> ->]%list_elem_of_singleton]%elem_of_app; rewrite Hf'.
      * destruct (f_logged _ _ K _ _ _ Hin). split; [done|]. case_bool_decide; [subst; lia|done].
      * by rewrite bool_decide_eq_true_2.
    + intros c'. rewrite fences_snoc. cbn. case_bool_decide as Ec; [subst c'|rewrite app_nil_r; apply K].
      apply StronglySorted_snoc; [apply K|]. intros y [id Hy]%elem_of_fences. destruct (f_logged _ _ K _ _ _ Hy). lia.
    + unfold transcript. rewrite Hm, map_app. change (map _ (st_messages (C_store c <| st_clock := at_ |>))) with (transcript (C_store c)).
      rewrite (f_transcript _ _ K), map_app, <- app_assoc. cbn. by rewrite Hc.
  - apply AppendMessage_err in Ea as [n ->]; [|cbn; lia]. rewrite app_nil_r. eapply fenced_frame; [exact K|apply K..|done|done|done|done|done|apply K].
Qed.

Lemma fenced_moved m c c' : moved luaText gen m c = Some c' → fenced s0 c → fenced s0 c'.
Proof.
  intros E K. destruct m as [i x|i t nonce|i t in_ at_|i t reachable|i t reachable|dt|i| |f]; cbn [moved mbind option_bind] in E.
  - destruct (C_replicas c !! i) as [r|] eqn:Hi; [|done]. cbn [moved mbind option_bind] in E. destruct (own x) eqn:Ho; [|done].
    destruct (act x r) as [r'|] eqn:Er in E; [|done]. cbn [mbind option_bind] in E. injection E as <-.
    apply (fenced_replica c i r r' (C_redis c)); [done..| |done].
    intros y Hy. by destruct (act_leases _ _ _ _ Er Hy) as [?|(?&?&?&?&?&->&_)].
  - destruct (C_replicas c !! i) as [r|] eqn:Hi; [|done]. by eapply fenced_tryLock.
  - destruct (C_replicas c !! i) as [r|] eqn:Hi; [|done]. by eapply fenced_append.
  - destruct (C_replicas c !! i) as [r|] eqn:Hi; [|done]. cbn [moved mbind option_bind] in E. destruct (R_threads r !! t) as [th|] eqn:Et; [|done].
    assert (∀ l l' redis, lease_of th = lease_of (with_lease l th) → Ls_fence l' = Ls_fence l → lease_of (with_lease l' th) = lease_of (with_lease l th) →
      Rd_counters redis = Rd_counters (C_redis c) →
      fenced s0 (replica i (r <| R_threads := <[t := with_lease l' th]> (R_threads r) |>) c <| C_redis := redis |>)) as Hgo.
    { intros l l' redis E1 E2 E3 E4. apply (fenced_replica c i r); [done..| |done]. intros y (z & Hin & Hz)%list_elem_of_omap.
      apply elem_of_leases. apply list_elem_of_lookup in Hin as [k Hk]. cbn in Hk.
      apply list_lookup_insert_Some in Hk as [(-> & <- & _)|[_ Hk]]; [exists k, th; by rewrite E1, <- E3|by exists k, z]. }
    destruct th as [| | | | | | |cv q j [l|]|cv q j [l|]| | | | |]; try done;
      destruct (renewTick reachable (C_now c) l (C_redis c)) as [l' redis] eqn:El; injection E as <-;
      apply renewTick_keeps in El as [Ef Ec]; apply (Hgo l); cbn; congruence.
  - destruct (C_replicas c !! i) as [r|] eqn:Hi; [|done]. cbn [moved mbind option_bind] in E. destruct (R_threads r !! t) as [th|] eqn:Et; [|done].
    destruct th as [| | | | | | | |cv q j [l|]| | | | |]; try done.
    destruct (act (Step t Held) r) as [r'|] eqn:Er in E; [|done]. cbn [mbind option_bind] in E. injection E as <-.
    apply (fenced_replica c i r); [done..| |apply Release_keeps]. intros y Hy.
    by destruct (act_leases (Step t Held) _ _ _ Er Hy) as [?|(?&?&?&?&?&?&_)].
  - injection E as <-. eapply fenced_frame; [exact K| |apply K|done..| |done|done|apply K]; cbn; [pose proof (f_now _ _ K); lia|].
    intros conv. unfold bound. cbn. destruct (_ !! turn_key conv); cbn; [done|]. apply Z.div_le_mono; [unfold Microsecond|]; lia.
  - injection E as <-. eapply fenced_frame; [exact K|apply K..|done|done|done|done|done|]. cbn.
    apply replica_leases; [apply K|]. cbn. by intros x ?%not_elem_of_nil.
  - case_bool_decide as Hl; [|done]. injection E as <-. eapply fenced_frame; [exact K|apply K| |done..| |done|done|apply K]; cbn; [done|].
    intros conv. unfold bound. cbn. destruct (_ !! turn_key conv) eqn:Ek; cbn; [|done]. by apply (Hl _ _ Ek).
  - injection E as <-. eapply fenced_frame; [exact K|apply K..|done|done|done|done|done|apply K].
Qed.

Lemma fenced_moves ms : ∀ c c', moves luaText gen ms c = Some c' → fenced s0 c → fenced s0 c'.
Proof.
  induction ms as [|m ms IH]; intros c c'; cbn; [by intros [= ->]|].
  destruct (moved luaText gen m c) as [c1|] eqn:E; [|done]. intros Em K. eapply IH; [exact Em|]. by eapply fenced_moved.
Qed.

Lemma fenced_start n now_ : 0 <= now_ → (∀ conv, turnFence s0 conv <= fenceFloor now_) → fenced s0 (start n now_ s0).
Proof.
  intros Hn Hf. split; cbn; try done; try (by intros; exfalso; eapply not_elem_of_nil).
  - constructor.
  - intros r x Hr Hx. apply elem_of_replicate in Hr as [-> _]. by apply not_elem_of_nil in Hx.
  - constructor.
  - by rewrite app_nil_r.
Qed.
End Invariant.

(** C18: Turns of a conversation never interleave in its transcript, whichever
    replicas run them: leases expire under a running turn, replicas restart,
    Redis loses its data.  Every fence is granted once per conversation; a
    message is only stored under a fence that was granted for its conversation;
    and a conversation's messages are stored, after those it had, in the order of
    their fences, so the messages of one grant stand together. *)
Theorem fenced_turns_contiguous luaText gen n now_ s0 ms c :
  0 <= now_ → (∀ conv, turnFence s0 conv <= fenceFloor now_) → moves luaText gen ms (start n now_ s0) = Some c →
  NoDup (C_grants c)
  ∧ (∀ conv f id, (conv, f, id) ∈ C_log c → (conv, f) ∈ C_grants c)
  ∧ (∀ conv, StronglySorted Z.le (fences conv (C_log c)))
  ∧ transcript (C_store c) = transcript s0 ++ map (λ x, (x.1.1, x.2)) (C_log c).
Proof.
  intros Hn Hf E. pose proof (fenced_moves luaText gen s0 _ _ _ E (fenced_start s0 n now_ Hn Hf)) as K.
  split_and!; [apply K| |apply K..]. intros conv f id Hin. by apply (f_logged _ _ K _ _ _ Hin).
Qed.
