(* ===== verification/TurnExample.v ===== *)
(** * TurnExample: turns of one conversation, on one replica and on two

    The theorems about the turn queue applied to small schedules, and what its
    lock does when Redis writes a fence another way than Go. *)

From Stdlib Require Import Ascii String.
From S2P Require Import Prelude EffLogic Text Json TaskCore WorkflowCore LedgerCore Store TaskStore AgentContext TurnQueue TurnLaws TurnCluster.
From stdpp Require Import gmap strings pretty sorting.
Import Prelude.
Import db coreconv conversationdb coordination turnqueue servercoord.
Local Open Scope string_scope.
Local Open Scope Z_scope.

(** ** One process *)

(** Two callers ask for a turn of "c"; the second waits, and leaves. *)
Definition two_callers : list action :=
  [Arrive "c" false; Step 0 Held; Step 0 Held; Step 1 Held; Arrive "c" true; Step 2 Held; Step 2 Held; Step 2 Held; Leave 2].

Definition after_callers : Registry := default (NewRegistry false) (acts two_callers (NewRegistry false)).

Definition rest : list action := repeat (Step 1 Failed) 10.

Definition after_rest : Registry := default (NewRegistry false) (acts rest after_callers).

Lemma turns_in_order_witness :
  acts two_callers (NewRegistry false) = Some after_callers ∧ CQ_pending (queue_at after_callers 0) = [1%nat]
  ∧ NoDup (begun (R_log after_callers)).
Proof.
  assert (acts two_callers (NewRegistry false) = Some after_callers) as E by (vm_compute; reflexivity).
  split_and!; [exact E|vm_compute; reflexivity|]. apply (turns_in_order false two_callers after_callers E).
Defined.

(** The turn that runs ends, and the one whose caller left is passed over. *)
Lemma turns_answered_witness :
  acts rest after_callers = Some after_rest ∧ (length rest ≤ measure after_callers)%nat
  ∧ R_log after_rest = [Enqueued 0 0; Started 0 0; Enqueued 0 1; Closed 0 0; Closed 0 1].
Proof.
  assert (acts two_callers (NewRegistry false) = Some after_callers) as E by (vm_compute; reflexivity).
  assert (Forall steps_on rest) as Hs by (repeat constructor; discriminate).
  assert (acts rest after_callers = Some after_rest) as E' by (vm_compute; reflexivity).
  split_and!; [exact E'|apply (turns_answered false two_callers after_callers rest after_rest E Hs E')|vm_compute; reflexivity].
Defined.

Definition late : list action := [Arrive "c" true; Step 3 Held; Arrive "d" false; Step 4 Held].

Lemma drained_stays_quiet_witness :
  ∃ r', acts late (Drain after_rest) = Some r' ∧ Waited r' = true
  ∧ R_log r' = (R_log after_rest ++ [Rejected 2 ErrDraining; Rejected 3 ErrDraining])%list.
Proof.
  assert (acts (two_callers ++ rest ++ [BeginDrain]) (NewRegistry false) = Some (Drain after_rest)) as E by (vm_compute; reflexivity).
  destruct (acts late (Drain after_rest)) as [r'|] eqn:E'; [|vm_compute in E'; discriminate].
  exists r'. split_and!; [reflexivity| |].
  - apply (drained_stays_quiet false _ _ late r' E); [reflexivity|vm_compute; reflexivity|exact E'].
  - vm_compute in E'. injection E' as <-. vm_compute. reflexivity.
Defined.

(** [Submit] lets go of [r.mu] before it takes [q.mu].  A caller that found the
    queue, and is overtaken while the queue's last turn ends and [forget] removes it, starts its turn on
    a queue the registry no longer knows; the next caller makes another, and two
    turns of one conversation run at once. *)
Definition overtaken : list action :=
  [Arrive "c" false; Step 0 Held; Step 0 Held; Step 1 Held; Step 1 Held; Step 1 Held; Step 1 Held;
   Arrive "c" false; Step 2 Held; Step 1 Held; Step 1 Held;
   Arrive "c" false; Step 3 Held; Step 3 Held; Step 4 Held; Step 2 Held; Step 5 Held].

Lemma two_turns_overlap :
  ∃ r, acts overtaken (NewRegistry false) = Some r
  ∧ R_threads r !! 4%nat = Some (Running "c" 1 2 None) ∧ R_threads r !! 5%nat = Some (Running "c" 0 1 None).
Proof. eexists. split_and!; vm_compute; reflexivity. Qed.

(** ** The lock *)

Lemma append_cancel a : ∀ b s, a +:+ s = b +:+ s → a = b.
Proof.
  assert (∀ a s, String.length (a +:+ s) = (String.length a + String.length s)%nat) as Hlen.
  { intros a' s. induction a' as [|x a' IH]; [done|]. exact (f_equal S IH). }
  induction a as [|x a IH]; intros [|y b] s E; [done| | |].
  - apply (f_equal String.length) in E. rewrite !Hlen in E. cbn in E. lia.
  - apply (f_equal String.length) in E. rewrite !Hlen in E. cbn in E. lia.
  - injection E as -> E. by rewrite (IH b s).
Qed.

(** The holder of a lease, and what Redis stores for it, differ as soon as Lua
    writes the fence otherwise than [strconv.FormatInt]: the lease is then never renewed
    or released, and ends when its key expires. *)
Lemma lease_never_renewed luaText key nonce now_ r l r' :
  TryAcquireLock luaText key turnLeaseTTL nonce now_ r = (Some l, r') →
  luaText (Ls_fence l) ≠ pretty (Ls_fence l) →
  ∀ at_, renewScript (Ls_lockKey l) (Ls_holder l) (Ls_ttl l / Millisecond) at_ r' = (0, r') ∧ Release true at_ l r' = r'.
Proof.
  unfold TryAcquireLock, acquireScript. case_bool_decide; cbn; [done|]. destruct (0 <? _); [|done].
  intros [= <- <-] Hne at_. cbn in Hne |- *. unfold renewScript, releaseScript. rewrite bool_decide_eq_false_2; [done|].
  unfold GET. cbn. rewrite lookup_insert_eq. destruct (_ <? _); [|done]. intros [= E]. by apply Hne, (append_cancel _ _ (":" +:+ nonce)).
Qed.

(** ** Two replicas *)

Definition sample_ids (n : nat) : string := pretty n.

Definition user_message (text : string) : AppendInput :=
  mkAppendInput "" "user" text None None None None None 0 0.

Definition conversation_store : Store := empty_store <| st_conversations := [("c", "spc")] |>.

(** Replica [i] is handed a turn of "c" and takes its lease. *)
Definition serve (i : nat) (nonce : string) : list move :=
  [Local_ i (Arrive "c" false); Local_ i (Step 0 Held); Local_ i (Step 0 Held); Local_ i (Step 1 Held); TryLock i 1 nonce].

(** The lease of replica 0 expires under its turn; replica 1 takes over, and
    then both write. *)
Definition takeover : list move :=
  serve 0 "n0" ++ [Append 0 1 (user_message "one") 5] ++ serve 1 "n1"
  ++ [Pass (31 * 1000 * Millisecond)] ++ [TryLock 1 1 "n2"; Append 1 1 (user_message "two") 3; Append 0 1 (user_message "three") 9].

Lemma fenced_turns_contiguous_witness :
  ∃ c, moves pretty sample_ids takeover (start 2 1000000 conversation_store) = Some c
  ∧ map CM_Content (st_messages (C_store c)) = ["one"; "two"] ∧ C_grants c = [("c", 1001); ("c", 1002)]
  ∧ StronglySorted Z.le (fences "c" (C_log c)).
Proof.
  destruct (moves pretty sample_ids takeover (start 2 1000000 conversation_store)) as [c|] eqn:E; [|vm_compute in E; discriminate].
  exists c. split_and!; [reflexivity| | |].
  - vm_compute in E. injection E as <-. reflexivity.
  - vm_compute in E. injection E as <-. reflexivity.
  - apply (fenced_turns_contiguous pretty sample_ids 2 1000000 conversation_store takeover c); [lia| |exact E].
    intros conv. vm_compute. destruct conv; discriminate.
Defined.

(** A conversation is listed by the clocks of the replicas that wrote its
    messages, not in the order its turns appended them. *)
Lemma listed_by_clocks :
  ∃ c, moves pretty sample_ids takeover (start 2 1000000 conversation_store) = Some c
  ∧ map CM_Content (st_messages (C_store c)) = ["one"; "two"]
  ∧ ∃ l s, ListMessages "c" (C_store c) = (Ok l, s) ∧ map CM_Content l = ["two"; "one"].
Proof.
  eexists. split_and!; [vm_compute; reflexivity|vm_compute; reflexivity|].
  eexists _, _. split; [vm_compute; reflexivity|reflexivity].
Qed.
