(* ===== verification/AgentNotesLaws.v ===== *)
(** * AgentNotesLaws: the anchoring block within its budget

    Sorting is stable; admission keeps a sublist of the entries within the
    budget and gives an entry up only when the entries of no lower priority it
    kept leave no room for it; so the rendered block is bounded, and shows every
    entry when they all fit, as the memory index shows its memories.  Notes and
    todos pass validation exactly when they are within their bounds. *)

From Stdlib Require Import Ascii String.
From S2P Require Import Prelude Text Json SessionCore Pricing SessionMeta AgentContext AgentNotes.
From stdpp Require Import strings pretty.
Import Prelude.
Import notes.
Local Open Scope Z_scope.
Local Open Scope buildmax_scope.

(** ** Stable sorting *)

Section Sorting.
Context {A : Type} (key : A → Z).

Definition ordered (l : list A) : Prop := StronglySorted (λ x y, key x ≤ key y) l.

Lemma insertBy_perm x l : insertBy key x l ≡ₚ x :: l.
Proof.
  induction l as [|y l IH]; cbn; [done|]. destruct (key x <=? key y); [done|].
  rewrite IH. apply perm_swap.
Qed.

Lemma stableSort_perm l : stableSort key l ≡ₚ l.
Proof. induction l as [|x l IH]; cbn; [done|]. by rewrite insertBy_perm, IH. Qed.

Lemma insertBy_ordered x l : ordered l → ordered (insertBy key x l).
Proof.
  unfold ordered. induction 1 as [|y l Hl IH Hy]; cbn; [by repeat constructor|].
  destruct (Z.leb_spec (key x) (key y)) as [Hle|Hgt].
  - repeat constructor; try done. eapply Forall_impl; [exact Hy|]. intros z Hz. cbn in *. lia.
  - constructor; [done|]. rewrite insertBy_perm. constructor; [lia|done].
Qed.

Lemma stableSort_ordered l : ordered (stableSort key l).
Proof. induction l as [|x l IH]; cbn; [constructor|]. by apply insertBy_ordered. Qed.

Definition increasing (l : list A) : Prop := StronglySorted (λ x y, key x < key y) l.

Lemma increasing_sublist l k : k `sublist_of` l → increasing l → increasing k.
Proof.
  unfold increasing. induction 1 as [|x l k H IH|x l k H IH]; [done| |].
  - intros [Hl Hx]%StronglySorted_inv. constructor; [by apply IH|].
    rewrite Forall_forall in Hx |- *. intros y Hy. apply Hx.
    eapply elem_of_submseteq; [exact Hy|by apply sublist_submseteq].
  - intros [Hl Hx]%StronglySorted_inv. by apply IH.
Qed.

Lemma increasing_inj l x y : increasing l → x ∈ l → y ∈ l → key x ≤ key y → key y ≤ key x → x = y.
Proof.
  unfold increasing. induction 1 as [|z l Hl IH Hz]; [by intros ?%not_elem_of_nil|].
  rewrite Forall_forall in Hz. rewrite !elem_of_cons.
  intros [-> | Hx] [-> | Hy] H1 H2; [done| | |by apply IH].
  - specialize (Hz y Hy). cbn in Hz. lia.
  - specialize (Hz x Hx). cbn in Hz. lia.
Qed.

(** Sorting a choice of elements back gives the sublist that was chosen. *)
Lemma stableSort_sublist l k : increasing l → k ⊆+ l → stableSort key k `sublist_of` l.
Proof.
  intros Hl (k' & Hk & Hs)%submseteq_sublist_r.
  replace (stableSort key k) with k'; [done|].
  pose proof (increasing_sublist _ _ Hs Hl) as Hk'.
  assert (k' ≡ₚ stableSort key k) as Hp by by rewrite stableSort_perm.
  apply (StronglySorted_unique_strong (λ x y, key x ≤ key y)).
  - intros x y Hx Hy. rewrite <- Hp in Hy. by apply (increasing_inj k').
  - clear -Hk'. induction Hk' as [|x l H IH Hx]; constructor; [done|].
    eapply Forall_impl; [exact Hx|]. intros y Hy. cbn in *. lia.
  - apply stableSort_ordered.
  - done.
Qed.
End Sorting.

(** ** Admission *)

Definition total (entries : list anchorEntry) : Z := context.sum (map cost entries).

Lemma total_cons e l : total (e :: l) = cost e + total l.
Proof. done. Qed.

Lemma total_perm l k : l ≡ₚ k → total l = total k.
Proof. unfold total, context.sum. induction 1; cbn; lia. Qed.

Lemma cost_pos e : 0 < cost e.
Proof. unfold cost, meta.len. lia. Qed.

Lemma total_nonneg l : 0 ≤ total l.
Proof. induction l as [|e l IH]; [done|]. rewrite total_cons. pose proof (cost_pos e). lia. Qed.

Definition atMost (p : Z) (e : anchorEntry) : bool := An_priority e <=? p.

Lemma admitFrom_spec budget l : ∀ used, used ≤ budget → ordered An_priority l →
  let '(kept, dropped) := admitFrom budget used l in
  kept `sublist_of` l ∧ (length kept + dropped)%nat = length l ∧ used + total kept ≤ budget ∧
  (∀ e, e ∈ l → e ∉ kept →
     budget < used + total (List.filter (atMost (An_priority e)) kept) + cost e).
Proof.
  induction l as [|x l IH]; intros used Hused Ho; cbn [admitFrom].
  { split_and!; [done|done|unfold total; cbn; lia|by intros e ?%not_elem_of_nil]. }
  apply StronglySorted_inv in Ho as [Ho Hx].
  destruct (Z.ltb_spec budget (used + cost x)) as [Hgt|Hle].
  - specialize (IH used Hused Ho). destruct (admitFrom budget used l) as [kept dropped].
    destruct IH as (H1 & H2 & H3 & H4). split_and!; [by constructor|cbn; lia|done|].
    intros e [-> |He]%elem_of_cons Hn; [|by apply H4].
    pose proof (total_nonneg (List.filter (atMost (An_priority x)) kept)). lia.
  - specialize (IH (used + cost x) Hle Ho). destruct (admitFrom budget (used + cost x) l) as [kept dropped].
    destruct IH as (H1 & H2 & H3 & H4). split_and!; [by constructor|cbn; lia|rewrite total_cons; lia|].
    intros e [-> |He]%elem_of_cons Hn; [by destruct Hn; left|].
    specialize (H4 e He ltac:(intros H; apply Hn; by right)). cbn [List.filter].
    rewrite Forall_forall in Hx. specialize (Hx e He). cbn in Hx.
    unfold atMost at 1. rewrite (proj2 (Z.leb_le _ _) Hx), total_cons. lia.
Qed.

Lemma list_filter_perm {A} (f : A → bool) l k : l ≡ₚ k → List.filter f l ≡ₚ List.filter f k.
Proof.
  induction 1 as [|x l k H IH|x y l|]; cbn; [done| | |by etransitivity].
  - destruct (f x); [by rewrite IH|done].
  - destruct (f x), (f y); try done. apply perm_swap.
Qed.

Lemma numbered_increasing (l : list (Z * Z * string)) : ∀ n : nat, increasing An_order
  (imap (λ i e, mkAnchorEntry e.1.1 e.1.2 (Z.of_nat (i + n)) e.2) l).
Proof.
  induction l as [|e l IH]; intros n; cbn; [constructor|]. constructor.
  - erewrite imap_ext; [exact (IH (S n))|]. intros i x Hx. cbn.
    by replace (S (i + n)) with (i + S n)%nat by lia.
  - apply Forall_forall. intros e' (i & x & E & _)%elem_of_lookup_imap. subst e'. cbn. lia.
Qed.

Lemma number_increasing l : increasing An_order (number l).
Proof.
  unfold number. erewrite imap_ext; [exact (numbered_increasing l 0)|].
  intros i x Hx. cbn. by rewrite Nat.add_0_r.
Qed.

(** the anchoring block keeps its entries in the order they were written
    and within the budget, counts every entry it leaves out, and leaves one out
    only when the entries of no lower priority that it keeps leave too little
    room for it. *)
Lemma admit_spec es budget : 0 ≤ budget →
  let entries := number es in
  let '(kept, dropped) := admit_ entries budget in
  kept `sublist_of` entries ∧ (length kept + dropped)%nat = length entries ∧ total kept ≤ budget ∧
  (∀ e, e ∈ entries → e ∉ kept →
     budget < total (List.filter (atMost (An_priority e)) kept) + cost e).
Proof.
  intros Hb. cbn zeta. unfold admit_.
  pose proof (stableSort_perm An_priority (number es)) as Hp.
  pose proof (admitFrom_spec budget _ 0 Hb (stableSort_ordered An_priority (number es))) as H.
  destruct (admitFrom _ _ _) as [kept dropped]. destruct H as (H1 & H2 & H3 & H4).
  pose proof (stableSort_perm An_order kept) as Hk.
  split_and!.
  - apply stableSort_sublist; [apply number_increasing|]. etransitivity; [by apply sublist_submseteq|].
    by rewrite Hp.
  - rewrite Hk, H2. by rewrite Hp.
  - rewrite (total_perm _ _ Hk). lia.
  - intros e He Hn. rewrite <- Hp in He. rewrite Hk in Hn.
    rewrite (total_perm _ _ (list_filter_perm _ _ _ Hk)). apply (H4 e He Hn).
Qed.

Lemma admit_spec_witness : 0 ≤ 6 ∧
  (let entries := number [(3, 2, "aa"); (0, 0, "bbb"); (2, 1, "c")] in
   let '(kept, dropped) := admit_ entries 6 in
   kept `sublist_of` entries ∧ (length kept + dropped)%nat = length entries ∧ total kept ≤ 6 ∧
   (∀ e, e ∈ entries → e ∉ kept →
      6 < total (List.filter (atMost (An_priority e)) kept) + cost e)).
Proof.
  split; [lia|].
  exact (admit_spec [(3, 2, "aa"); (0, 0, "bbb"); (2, 1, "c")] 6 ltac:(lia)).
Defined.

(** ** The size of the block *)

Lemma len_app a b : meta.len (a +:+ b) = meta.len a + meta.len b.
Proof.
  unfold meta.len. enough (String.length (a +:+ b) = (String.length a + String.length b)%nat) as -> by lia.
  induction a as [|c a IH]; [done|]. exact (f_equal S IH).
Qed.

Lemma lines_len l :
  meta.len (String.concat "" (map (λ e, newline +:+ An_text e) l)) = total l.
Proof.
  induction l as [|e l IH]; [done|]. rewrite total_cons, <- IH.
  assert (∀ s, String.concat "" (map (λ e, newline +:+ An_text e) (s :: l))
           = (newline +:+ An_text s) +:+ String.concat "" (map (λ e, newline +:+ An_text e) l)) as ->.
  { intros s. destruct l as [|e' l]; [|done]. symmetry. apply append_nil_r. }
  rewrite !len_app. unfold cost. change (meta.len newline) with 1. lia.
Qed.

Definition inSection (section : Z) (e : anchorEntry) : bool := An_section e =? section.

Lemma writeSection_len title kept section :
  meta.len (writeSection title kept section)
  ≤ 5 + meta.len title + total (List.filter (inSection section) kept).
Proof.
  unfold writeSection. fold (inSection section).
  destruct (List.filter _ kept) as [|e rest]; [unfold meta.len; cbn; lia|].
  rewrite !len_app, lines_len, total_cons. unfold cost.
  change (meta.len blankLine) with 2. change (meta.len "## ") with 3. change (meta.len newline) with 1. lia.
Qed.

Lemma total_sections kept :
  total (List.filter (inSection sectionInvariants) kept)
  + total (List.filter (inSection sectionNotes) kept)
  + total (List.filter (inSection sectionTodo) kept) ≤ total kept.
Proof.
  induction kept as [|e kept IH]; [done|]. cbn [List.filter]. rewrite total_cons.
  pose proof (cost_pos e).
  assert (∀ n, inSection n e = (An_section e =? n)) as E by done. rewrite !E.
  unfold sectionInvariants, sectionNotes, sectionTodo in *.
  destruct (Z.eqb_spec (An_section e) 0), (Z.eqb_spec (An_section e) 1), (Z.eqb_spec (An_section e) 2);
    rewrite ?total_cons; lia.
Qed.

(** Whatever a session holds, the block rendered into every request is at
    most 3308 bytes and the digits of the number of entries it left out. *)
Theorem RenderSessionState_bounded invariants notes todos :
  let block := RenderSessionState invariants notes todos in
  let dropped := (admit_ (stateEntries invariants notes todos) anchorBlockBudgetChars).2 in
  meta.len block ≤ 3308 + meta.len (Itoa (Z.of_nat dropped)).
Proof.
  cbn zeta. unfold RenderSessionState.
  pose proof (admitFrom_spec anchorBlockBudgetChars _ 0 ltac:(done)
    (stableSort_ordered An_priority (stateEntries invariants notes todos))) as H.
  unfold admit_ in *. destruct (admitFrom _ _ _) as [k dropped]. destruct H as (_ & _ & H & _).
  rewrite <- (total_perm _ _ (stableSort_perm An_order k)) in H. cbn [snd].
  set (kept := stableSort An_order k) in *. unfold anchorBlockBudgetChars in H.
  assert (0 ≤ meta.len (Itoa (Z.of_nat dropped))) by (unfold meta.len; lia).
  destruct (_ =? 0)%nat; [change (meta.len "") with 0; lia|].
  pose proof (total_sections kept).
  pose proof (writeSection_len "Invariants" kept sectionInvariants).
  pose proof (writeSection_len "Notes" kept sectionNotes).
  pose proof (writeSection_len "Todo" kept sectionTodo).
  rewrite !len_app. destruct (0 <? dropped)%nat; rewrite ?len_app; cbn [meta.len String.length] in *;
    change (meta.len "<session-state>") with 15; change (meta.len newline) with 1;
    change (meta.len "</session-state>") with 16; change (meta.len blankLine) with 2;
    change (meta.len "(") with 1; change (meta.len "") with 0;
    change (meta.len " lower-priority entries omitted to fit)") with 39;
    change (meta.len "Invariants") with 10 in *; change (meta.len "Notes") with 5 in *;
    change (meta.len "Todo") with 4 in *; lia.
Qed.

(** ** What the blocks show *)

(** [line] is a line of the block, between two others. *)
Definition shows (block line : string) : Prop :=
  ∃ before after, block = before +:+ newline +:+ line +:+ newline +:+ after.

Definition startsLine (s : string) : Prop := ∃ rest, s = newline +:+ rest.

Lemma shows_l a b line : shows b line → shows (a +:+ b) line.
Proof. intros (before & after & ->). exists (a +:+ before), after. by rewrite append_assoc. Qed.

Lemma shows_here line rest : startsLine rest → shows (newline +:+ line +:+ rest) line.
Proof. intros [after ->]. by exists "", after. Qed.

Lemma startsLine_app title kept section rest :
  startsLine rest → startsLine (writeSection title kept section +:+ rest).
Proof.
  unfold writeSection. intros Hr. destruct (List.filter _ _) as [|e es]; [done|].
  rewrite append_assoc. by eexists (newline +:+ _).
Qed.

Lemma concat_cons s l : String.concat "" (s :: l) = s +:+ String.concat "" l.
Proof. destruct l; [symmetry; apply append_nil_r|done]. Qed.

Lemma lines_show es e rest : e ∈ es → startsLine rest →
  shows (String.concat "" (map (λ e, newline +:+ An_text e) es) +:+ rest) (An_text e).
Proof.
  intros He Hr. induction es as [|x es IH]; [by apply not_elem_of_nil in He|].
  cbn [map]. rewrite concat_cons, !append_assoc. apply elem_of_cons in He as [-> |He].
  - apply shows_here. destruct es as [|y es]; [done|]. cbn [map]. rewrite concat_cons, !append_assoc. by eexists.
  - rewrite <- append_assoc. by apply shows_l, IH.
Qed.

Lemma writeSection_shows title kept section e rest :
  e ∈ kept → An_section e = section → startsLine rest →
  shows (writeSection title kept section +:+ rest) (An_text e).
Proof.
  intros He Hs Hr. unfold writeSection.
  assert (e ∈ List.filter (λ e, An_section e =? section) kept) as Hin.
  { apply list_elem_of_In, filter_In. split; [by apply list_elem_of_In|]. by apply Z.eqb_eq. }
  destruct (List.filter _ _) as [|x es]; [by apply not_elem_of_nil in Hin|].
  pose proof (lines_show (x :: es) e rest Hin Hr) as H. cbn [map] in H. rewrite concat_cons in H.
  rewrite !append_assoc in *. by do 3 apply shows_l.
Qed.

Lemma admitFrom_all budget l : ∀ used, used + total l ≤ budget → admitFrom budget used l = (l, 0%nat).
Proof.
  induction l as [|e l IH]; intros used Hb; [done|]. rewrite total_cons in Hb. pose proof (total_nonneg l).
  cbn [admitFrom]. rewrite (proj2 (Z.ltb_ge _ _)) by lia. by rewrite IH by lia.
Qed.

Lemma admit_all entries budget : total entries ≤ budget →
  ∃ kept, admit_ entries budget = (kept, 0%nat) ∧ kept ≡ₚ entries.
Proof.
  intros Hb. unfold admit_. rewrite admitFrom_all.
  - eexists. split; [done|]. by rewrite !stableSort_perm.
  - rewrite (total_perm _ _ (stableSort_perm An_priority entries)). lia.
Qed.

(** A block whose entries fit the budget shows each of them. *)
Lemma RenderSessionState_shows invariants notes todos e :
  total (stateEntries invariants notes todos) ≤ 3200 → e ∈ stateEntries invariants notes todos →
  An_section e ∈ [sectionInvariants; sectionNotes; sectionTodo] →
  shows (RenderSessionState invariants notes todos) (An_text e).
Proof.
  intros Hb He Hs. unfold RenderSessionState.
  destruct (admit_all _ anchorBlockBudgetChars Hb) as (kept & -> & Hp). rewrite <- Hp in He.
  destruct (Nat.eqb_spec (length kept) 0) as [E|_].
  { destruct kept; [by apply not_elem_of_nil in He|done]. }
  change (if (0 <? 0)%nat then _ else "") with "".
  assert (startsLine (newline +:+ "</session-state>")) as Hend by by eexists.
  set (tail := newline +:+ "</session-state>") in *. change ("" +:+ tail) with tail.
  rewrite !elem_of_cons in Hs. apply shows_l. destruct Hs as [Hs|[Hs|[Hs|[]%not_elem_of_nil]]].
  - apply writeSection_shows; [done..|]. by do 2 apply startsLine_app.
  - apply shows_l, writeSection_shows; [done..|]. by apply startsLine_app.
  - by apply shows_l, shows_l, writeSection_shows.
Qed.

Lemma number_elem (l : list (Z * Z * string)) x : x ∈ l →
  ∃ e, e ∈ number l ∧ An_section e = x.1.2 ∧ An_text e = x.2.
Proof.
  intros [i Hi]%list_elem_of_lookup. eexists (mkAnchorEntry x.1.1 x.1.2 (Z.of_nat i) x.2).
  split; [|done]. apply elem_of_lookup_imap. by exists i, x.
Qed.

(** The line of an entry of the memory index. *)
Definition memoryLine (e : memory.MemoryIndexEntry) : string :=
  "- " +:+ memory.escapeMemoryDelimiters (TrimSpace (memory.Mem_Name e))
  +:+ " — " +:+ memory.escapeMemoryDelimiters (TrimSpace (memory.Mem_Description e)).

Definition memorySize (entries : list memory.MemoryIndexEntry) : Z :=
  context.sum (map (λ e, RuneCountInString (memoryLine e) + 1) entries).

Lemma memorySize_cons e l : memorySize (e :: l) = RuneCountInString (memoryLine e) + 1 + memorySize l.
Proof. done. Qed.

Lemma RuneCountInString_nonneg s : 0 ≤ RuneCountInString s.
Proof. unfold RuneCountInString. lia. Qed.

Lemma memorySize_nonneg l : 0 ≤ memorySize l.
Proof. induction l as [|e l IH]; [done|]. rewrite memorySize_cons. pose proof (RuneCountInString_nonneg (memoryLine e)). lia. Qed.

Definition namedMemory (e : memory.MemoryIndexEntry) : Prop :=
  TrimSpace (memory.Mem_Name e) ≠ "" ∧ TrimSpace (memory.Mem_Description e) ≠ "".

Lemma memoryLines_all l e : e ∈ l → namedMemory e → ∀ used, used + memorySize l ≤ 3200 →
  memoryLine e ∈ memory.memoryLines used l.
Proof.
  intros He [Hn Hd]. induction l as [|x l IH]; [by apply not_elem_of_nil in He|]. intros used Hb.
  rewrite memorySize_cons in Hb. pose proof (memorySize_nonneg l). pose proof (RuneCountInString_nonneg (memoryLine x)).
  cbn [memory.memoryLines]. fold (memoryLine x). apply elem_of_cons in He.
  destruct ((TrimSpace (memory.Mem_Name x) == "") || (TrimSpace (memory.Mem_Description x) == "")) eqn:E.
  - destruct He as [-> |He]; [|apply IH; [done|lia]]. exfalso.
    apply orb_true_iff in E as [E|E]; by apply bool_decide_eq_true in E.
  - rewrite (proj2 (Z.ltb_ge _ _)) by (unfold memory.MaxMemoryIndexChars, anchorBlockBudgetChars; lia).
    destruct He as [-> |He]; [by left|]. right. apply IH; [done|lia].
Qed.

Lemma concat_shows lines line rest : line ∈ lines → startsLine rest →
  shows (newline +:+ String.concat newline lines +:+ rest) line.
Proof.
  intros He Hr. induction lines as [|x lines IH]; [by apply not_elem_of_nil in He|].
  destruct lines as [|y lines].
  - apply elem_of_cons in He as [-> |He]; [by apply shows_here|by apply not_elem_of_nil in He].
  - change (String.concat newline (x :: y :: lines)) with (x +:+ newline +:+ String.concat newline (y :: lines)).
    rewrite !append_assoc. apply elem_of_cons in He as [-> |He]; [by apply shows_here; eexists|].
    apply (shows_l newline), (shows_l x). by apply IH.
Qed.

(** An index that fits its budget shows each of its memories. *)
Lemma RenderMemoryIndex_shows index e :
  memorySize (memory.Ix_Entries index) ≤ 3200 → e ∈ memory.Ix_Entries index → namedMemory e →
  shows (memory.RenderMemoryIndex index) (memoryLine e).
Proof.
  intros Hb He Hn. pose proof (memoryLines_all _ _ He Hn 0 ltac:(lia)) as Hin. unfold memory.RenderMemoryIndex.
  destruct (Nat.eqb_spec (length (memory.memoryLines 0 (memory.Ix_Entries index))) 0) as [E|_].
  { destruct (memory.memoryLines _ _); [by apply not_elem_of_nil in Hin|done]. }
  set (dropped := (_ - _)%nat). set (lines := memory.memoryLines _ _) in *.
  do 5 apply shows_l. change blankLine with (newline +:+ newline). rewrite append_assoc. do 2 apply shows_l.
  apply concat_shows; [done|]. destruct (0 <? dropped)%nat; by eexists.
Qed.

(** ** Validation *)

Lemma checkNotes_ok texts : ∀ i, checkNotes i texts = Ok tt ↔
  Forall (λ t, TrimSpace t ≠ "" ∧ RuneCountInString t ≤ MaxNoteChars) texts.
Proof.
  induction texts as [|t texts IH]; intros i; cbn [checkNotes]; [split; [constructor|done]|].
  rewrite Forall_cons. case_bool_decide; [split; [done|naive_solver]|].
  destruct (Z.ltb_spec MaxNoteChars (RuneCountInString t)); [split; [done|intros [[_ ?] _]; lia]|].
  rewrite IH. naive_solver.
Qed.

Lemma ValidateNotes_ok texts : ValidateNotes texts = Ok tt ↔
  (length texts ≤ 15)%nat ∧ Forall (λ t, TrimSpace t ≠ "" ∧ RuneCountInString t ≤ 200) texts.
Proof.
  unfold ValidateNotes, MaxNotes.
  destruct (Z.ltb_spec 15 (Z.of_nat (length texts))); [split; [done|]; intros [? _]; lia|].
  rewrite checkNotes_ok. unfold MaxNoteChars. split; [intros ?; split; [lia|done]|by intros [_ ?]].
Qed.

Definition okTodo (td : agent.Todo) : Prop :=
  TrimSpace (agent.Todo_Content td) ≠ "" ∧ agent.Todo_Status td ∈ [TodoPending; TodoInProgress; TodoCompleted].

Definition inProgress (td : agent.Todo) : bool := agent.Todo_Status td == TodoInProgress.

Lemma checkTodos_ok todos : ∀ i n k, checkTodos i n todos = Ok k ↔
  Forall okTodo todos ∧ k = (n + length (List.filter inProgress todos))%nat.
Proof.
  induction todos as [|td todos IH]; intros i n k; cbn [checkTodos List.filter].
  { split; [intros [= <-]; split; [constructor|cbn; lia]|]. intros [_ ->]. f_equal. cbn. lia. }
  rewrite Forall_cons. unfold okTodo at 1. case_bool_decide; [split; [done|naive_solver]|].
  case_bool_decide; [|split; [done|naive_solver]].
  rewrite IH. unfold inProgress at 2. case_bool_decide; cbn [length]; naive_solver lia.
Qed.

Lemma ValidateTodos_ok todos : ValidateTodos todos = Ok tt ↔
  (length todos ≤ 30)%nat ∧ Forall okTodo todos ∧ (length (List.filter inProgress todos) ≤ 1)%nat.
Proof.
  unfold ValidateTodos, MaxTodos.
  destruct (Z.ltb_spec 30 (Z.of_nat (length todos))); [split; [done|]; intros [? _]; lia|].
  destruct (checkTodos 0 0 todos) as [k|e] eqn:E; unfold mbind, res_bind.
  - apply checkTodos_ok in E as [Hf ->]. cbn [Nat.add].
    destruct (Nat.ltb_spec 1 (length (List.filter inProgress todos))); split; try done.
    + intros (_ & _ & ?). lia.
    + intros _. split_and!; [lia|done|done].
  - split; [done|]. intros (_ & Hf & _). exfalso.
    assert (checkTodos 0 0 todos = Ok (length (List.filter inProgress todos))) as E' by by apply checkTodos_ok.
    congruence.
Qed.
