(* ===== verification/AgentCore.v ===== *)
(** * AgentCore: what an agent run is made of

    The types of internal/core/agent and internal/core/llm a run works with and
    their pure operations.  [Module runstats] mirrors the accounting of agent.go
    and delegation.go, [Module llmapi] the requests of llm.go, [Module tools] the
    tool contract of tool.go and policy.go with the permission layers of
    agent.go, policy.go and grant.go, and [Module hooks] the hook payloads of
    hook.go. *)

From Stdlib Require Import Ascii String.
From S2P Require Import Prelude Text Json SessionCore Pricing SessionMeta AgentContext AgentNotes.
From stdpp Require Import gmap strings.
Import Prelude.
Local Open Scope Z_scope.
Local Open Scope buildmax_scope.

Module runstats.
Import pricing.

Record DelegatedStats : Type := mkDelegatedStats {
  Del_Runs : Z;
  Del_PromptTokens : Z;
  Del_CompletionTokens : Z;
  Del_CacheReadTokens : Z;
  Del_CacheWriteTokens : Z;
  Del_ToolCalls : Z;
  Del_Cost : option Cost;
  Del_CostIncomplete : bool
}.
#[export] Instance DelegatedStats_updatable : Updatable DelegatedStats := λ r,
  mkDelegatedStats (Del_Runs r) (Del_PromptTokens r) (Del_CompletionTokens r) (Del_CacheReadTokens r)
    (Del_CacheWriteTokens r) (Del_ToolCalls r) (Del_Cost r) (Del_CostIncomplete r).

Definition DelegatedStats0 : DelegatedStats := mkDelegatedStats 0 0 0 0 0 0 None false.

Record RunStats : Type := mkRunStats {
  Sta_ToolCalls : Z;
  Sta_WriteToolCalls : Z;
  Sta_PromptTokens : Z;
  Sta_CompletionTokens : Z;
  Sta_CacheReadTokens : Z;
  Sta_CacheWriteTokens : Z;
  Sta_Cost : option Cost;
  Sta_CostIncomplete : bool;
  Sta_Delegated : option DelegatedStats
}.
#[export] Instance RunStats_updatable : Updatable RunStats := λ r,
  mkRunStats (Sta_ToolCalls r) (Sta_WriteToolCalls r) (Sta_PromptTokens r) (Sta_CompletionTokens r)
    (Sta_CacheReadTokens r) (Sta_CacheWriteTokens r) (Sta_Cost r) (Sta_CostIncomplete r)
    (Sta_Delegated r).

Definition RunStats0 : RunStats := mkRunStats 0 0 0 0 0 0 None false None.

(** One completed call: its cost, if it could be priced, and the totals. *)
Definition addCall (usage : Usage) (pricing : Pricing) (s : RunStats) : option Cost * RunStats :=
  let s := s <| Sta_PromptTokens := wrap64 (Sta_PromptTokens s + Use_PromptTokens usage) |>
             <| Sta_CompletionTokens := wrap64 (Sta_CompletionTokens s + Use_CompletionTokens usage) |>
             <| Sta_CacheReadTokens := wrap64 (Sta_CacheReadTokens s + Use_CacheReadTokens usage) |>
             <| Sta_CacheWriteTokens := wrap64 (Sta_CacheWriteTokens s + Use_CacheWriteTokens usage) |> in
  match EstimateCost usage pricing with
  | None =>
      (None, if (Use_PromptTokens usage != 0) || (Use_CompletionTokens usage != 0)
             then s <| Sta_CostIncomplete := true |> else s)
  | Some call =>
      (Some call,
       match Sta_Cost s with
       | None => s <| Sta_Cost := Some call |>
       | Some total =>
           let '(summed, ok) := Add total call in
           if ok then s <| Sta_Cost := Some summed |> else s <| Sta_CostIncomplete := true |>
       end)
  end.

Definition mergeCost (dst : option Cost) (incomplete : bool) (add : option Cost)
    (addIncomplete : bool) : option Cost * bool :=
  let incomplete := incomplete || addIncomplete in
  match add with
  | None => (dst, incomplete)
  | Some add =>
      match dst with
      | None => (Some add, incomplete)
      | Some total =>
          let '(summed, ok) := Add total add in
          if ok then (Some summed, incomplete) else (dst, true)
      end
  end.

(** [Report]: one finished delegated run. *)
Definition Report (stats : RunStats) (acc : DelegatedStats) : DelegatedStats :=
  let calls := wrap64 (Del_ToolCalls acc + Sta_ToolCalls stats) in
  let calls := match Sta_Delegated stats with
               | Some d => wrap64 (calls + Del_ToolCalls d)
               | None => calls
               end in
  let '(cost, incomplete) := mergeCost (Del_Cost acc) (Del_CostIncomplete acc)
                               (Sta_Cost stats) (Sta_CostIncomplete stats) in
  mkDelegatedStats (wrap64 (Del_Runs acc + 1))
    (wrap64 (Del_PromptTokens acc + Sta_PromptTokens stats))
    (wrap64 (Del_CompletionTokens acc + Sta_CompletionTokens stats))
    (wrap64 (Del_CacheReadTokens acc + Sta_CacheReadTokens stats))
    (wrap64 (Del_CacheWriteTokens acc + Sta_CacheWriteTokens stats))
    calls cost incomplete.

Definition Drain (acc : DelegatedStats) : DelegatedStats * DelegatedStats := (acc, DelegatedStats0).

(** Delegated spend enters the totals and their breakdown. *)
Definition absorb (d : DelegatedStats) (s : RunStats) : RunStats :=
  if Del_Runs d == 0 then s
  else
    let '(cost, incomplete) := mergeCost (Sta_Cost s) (Sta_CostIncomplete s)
                                 (Del_Cost d) (Del_CostIncomplete d) in
    let b := default DelegatedStats0 (Sta_Delegated s) in
    let '(bcost, bincomplete) := mergeCost (Del_Cost b) (Del_CostIncomplete b)
                                   (Del_Cost d) (Del_CostIncomplete d) in
    mkRunStats (Sta_ToolCalls s) (Sta_WriteToolCalls s)
      (wrap64 (Sta_PromptTokens s + Del_PromptTokens d))
      (wrap64 (Sta_CompletionTokens s + Del_CompletionTokens d))
      (wrap64 (Sta_CacheReadTokens s + Del_CacheReadTokens d))
      (wrap64 (Sta_CacheWriteTokens s + Del_CacheWriteTokens d))
      cost incomplete
      (Some (mkDelegatedStats (wrap64 (Del_Runs b + Del_Runs d))
        (wrap64 (Del_PromptTokens b + Del_PromptTokens d))
        (wrap64 (Del_CompletionTokens b + Del_CompletionTokens d))
        (wrap64 (Del_CacheReadTokens b + Del_CacheReadTokens d))
        (wrap64 (Del_CacheWriteTokens b + Del_CacheWriteTokens d))
        (wrap64 (Del_ToolCalls b + Del_ToolCalls d))
        bcost bincomplete)).

End runstats.

Module llmapi.

(** ** Requests and completions: internal/core/llm/llm.go *)

Record OutputSchema : Type := mkOutputSchema {
  OS_Name : string;
  OS_Schema : string
}.

(** [Err] is the message of the [StructuredError], if there is one. *)
Record Structured : Type := mkStructured {
  Str_Value : option string;
  Str_Mode : string;
  Str_Enforced : bool;
  Str_Err : option string
}.

Record Completion : Type := mkCompletion {
  Com_Content : string;
  Com_ToolCalls : list llm.ToolCall;
  Com_Usage : pricing.Usage;
  Com_ProviderState : option llm.ProviderState;
  Com_Structured : option Structured
}.

Definition AssistantMessage (c : Completion) : llm.Message :=
  llm.mkMessage "assistant" (Com_Content c) "" (Com_ToolCalls c) "" (Com_ProviderState c) [].

Record ToolDef : Type := mkToolDef {
  Def_Name : string;
  Def_Description : string;
  Def_Parameters : json
}.

Definition ProfileAgentTurn : string := "agent_turn".
Definition ProfileTitle : string := "title".
Definition ProfileCompaction : string := "compaction".
Definition ProfileEvaluation : string := "evaluation".
Definition ProfileProbe : string := "probe".

Definition Valid (p : string) : bool :=
  bool_decide (p ∈ [ProfileAgentTurn; ProfileTitle; ProfileCompaction; ProfileEvaluation; ProfileProbe]).

Record Request : Type := mkRequest {
  Req_Messages : list llm.Message;
  Req_Tools : list ToolDef;
  Req_Profile : string;
  Req_CacheScope : string;
  Req_Output : option OutputSchema
}.

End llmapi.

Module tools.

(** ** Tools: internal/core/llm/tool.go and policy.go *)

(** A decoded [map[string]any]. *)
Definition Args : Type := list (string * json).

(** The decoding and encoding of arguments, and the [%q] verb of fmt.  A nil
    map is what the text [null] decodes to. *)
Class Lib : Type := {
  UnmarshalArgs : string → res string (option Args);
  MarshalArgs : Args → string;
  quote : string → string
}.

Inductive ToolAction : Type :=
| ToolActionAllow
| ToolActionAsk
| ToolActionDeny
| ToolActionOther (n : Z).

#[export] Instance ToolAction_eq_dec : EqDecision ToolAction.
Proof. solve_decision. Defined.

Inductive Access : Type := AccessWrite | AccessReadOnly.

#[export] Instance Access_eq_dec : EqDecision Access.
Proof. solve_decision. Defined.

(** What a tool does when it is executed, over a host state [S]: it takes steps,
    asks the run's questioner (the answer is [None] when there is none), reports
    the totals of a run it delegated, and returns or panics. *)
Inductive toolProg (S A : Type) : Type :=
| Returns (result : res string A)
| Panics (v : string)
| Steps (step : S → S) (k : S → toolProg S A)
| Asks (questions : list question.Question)
    (k : option (res string question.Answer) → toolProg S A)
| Reports (stats : runstats.RunStats) (k : toolProg S A).
Arguments Returns {S A} result.
Arguments Panics {S A} v.
Arguments Steps {S A} step k.
Arguments Asks {S A} questions k.
Arguments Reports {S A} stats k.

Fixpoint mapResult {S A B : Type} (f : A → B) (p : toolProg S A) : toolProg S B :=
  match p with
  | Returns r => Returns (r ← r; Ok (f r))
  | Panics v => Panics v
  | Steps step k => Steps step (λ s, mapResult f (k s))
  | Asks questions k => Asks questions (λ a, mapResult f (k a))
  | Reports stats k => Reports stats (mapResult f k)
  end.

(** What a tool finds on its context: the iteration and the executing call. *)
Record ToolCtx : Type := mkToolCtx {
  Ctx_Iteration : Z;
  Ctx_ToolCall : string
}.

(** The optional interfaces of a tool are options. *)
Record Tool (S : Type) : Type := mkTool {
  Tool_Name : string;
  Tool_Description : string;
  Tool_Parameters : json;
  Tool_Execute : ToolCtx → Args → toolProg S string;
  Tool_ExecuteMultimodal : option (ToolCtx → Args → toolProg S (string * list llm.ContentPart));
  Tool_Access : option (Args → Access);
  Tool_GrantScope : option (Args → string);
  Tool_CheckArgs : option (Args → ToolAction);
  Tool_DefaultAction : option ToolAction
}.
Arguments Tool_Name {S}.
Arguments Tool_Description {S}.
Arguments Tool_Parameters {S}.
Arguments Tool_Execute {S}.
Arguments Tool_ExecuteMultimodal {S}.
Arguments Tool_Access {S}.
Arguments Tool_GrantScope {S}.
Arguments Tool_CheckArgs {S}.
Arguments Tool_DefaultAction {S}.

Definition ToolRegistry (S : Type) : Type := list (Tool S).

Definition GetDefs {S : Type} (r : ToolRegistry S) : list llmapi.ToolDef :=
  map (λ t, llmapi.mkToolDef (Tool_Name t) (Tool_Description t) (Tool_Parameters t)) r.

Definition Lookup {S : Type} (r : ToolRegistry S) (name : string) : option (Tool S) :=
  List.find (λ t, Tool_Name t == name) r.

(** ** Permissions: agent.go, policy.go and grant.go *)

(** [ToolPolicy]: an action, and whether the policy has an opinion. *)
Definition ToolPolicy : Type := string → string → Args → ToolAction * bool.

Definition AllowAllPolicy : ToolPolicy := λ _ _ _, (ToolActionAllow, false).

Inductive ApprovalDecision : Type :=
| ApprovalDeny
| ApprovalAllowOnce
| ApprovalAllowSession.

#[export] Instance ApprovalDecision_eq_dec : EqDecision ApprovalDecision.
Proof. solve_decision. Defined.

(** [*SessionGrants]: nil grants nothing and keeps nothing. *)
Definition SessionGrants : Type := option (gset string).

Definition granted (g : SessionGrants) (scope : string) : bool :=
  match g with None => false | Some scopes => bool_decide (scope ∈ scopes) end.

Definition grant (g : SessionGrants) (scope : string) : SessionGrants :=
  (λ scopes, {[scope]} ∪ scopes) <$> g.

Section Permissions.
Context {S : Type}.

Definition DeclaredAccess (tool : Tool S) (args : Args) : Access :=
  match Tool_Access tool with Some access => access args | None => AccessWrite end.

Definition grantTarget (tool : Tool S) (args : Args) : string :=
  match Tool_GrantScope tool with Some scope => scope args | None => "" end.

Definition grantScope (name target : string) : string :=
  if target != "" then name +:+ ":" +:+ target else name.

Definition resolveAction (policy : option ToolPolicy) (tool : Tool S) (name scope : string)
    (args : Args) (interactive : bool) : ToolAction :=
  let '(configured, hasConfig) :=
    match policy with Some check => check name scope args | None => (ToolActionAllow, false) end in
  if hasConfig && (configured == ToolActionDeny) then ToolActionDeny
  else
    let checked := match Tool_CheckArgs tool with
                   | Some check => check args
                   | None => ToolActionAllow
                   end in
    if checked != ToolActionAllow then checked
    else if hasConfig then configured
    else match Tool_DefaultAction tool with
    | Some action => action
    | None =>
        if interactive && (DeclaredAccess tool args == AccessWrite) then ToolActionAsk
        else ToolActionAllow
    end.

Definition ResolveToolAction (policy : option ToolPolicy) (tool : Tool S) (args : Args)
    (interactive : bool) : ToolAction :=
  let name := Tool_Name tool in
  resolveAction policy tool name (grantScope name (grantTarget tool args)) args interactive.

Definition executeTool (ctx : ToolCtx) (tool : Tool S) (args : Args) :
    toolProg S (string * list llm.ContentPart) :=
  match Tool_ExecuteMultimodal tool with
  | Some execute => execute ctx args
  | None => mapResult (λ text, (text, [])) (Tool_Execute tool ctx args)
  end.
End Permissions.

(** ** The loop guard: policy.go

    The fingerprint is the text whose digest the code keys its counts by; a
    count grows by one per call and is an unbounded [Z]. *)

Definition defaultMaxRepeatedCalls : Z := 3.

Definition toolFingerprint `{Lib} (name : string) (args : Args) : string :=
  name +:+ ":" +:+ MarshalArgs args.

Definition count (counts : gmap string Z) (fp : string) : Z := default 0 (counts !! fp).

Definition exceeded `{Lib} (max : Z) (name : string) (args : Args) (counts : gmap string Z) :
    bool * gmap string Z :=
  let fp := toolFingerprint name args in
  let counts := <[fp := count counts fp + 1]> counts in
  (max <? count counts fp, counts).

End tools.

Module hooks.

(** ** Hook payloads: internal/core/agent/hook.go *)

Inductive HookEvent : Type :=
| HookSessionStart
| HookSessionEnd
| HookUserPromptSubmit
| HookPreToolUse
| HookPostToolUse
| HookPostToolUseFailure
| HookNotification
| HookPreCompact
| HookPostCompact
| HookSubagentStart
| HookSubagentStop
| HookStop
| HookStopFailure
| HookWorktreeCreate
| HookWorktreeRemove
| HookCwdChanged.

#[export] Instance HookEvent_eq_dec : EqDecision HookEvent.
Proof. solve_decision. Defined.

Definition NotificationApprovalRequired : string := "approval_required".
Definition NotificationPermissionDenied : string := "permission_denied".
Definition NotificationUserQuestion : string := "user_question".

(** Why a run ended; the texts of the errors are not modelled.  [RunPanicked] is
    a panic that leaves the loop, and [Starved] is the model's own: the pending
    input did not run dry within its patience. *)
Inductive runError : Type :=
| ErrMaxIterations
| ErrCompactionNotPersisted (e : string)
| ErrHistory (e : string)
| ErrQueuedMessage (e : string)
| ErrLLM (e : string)
| ErrNoHistory
| ErrNoCompactor
| ErrSummarize (e : string)
| RunPanicked (v : string)
| Starved.

#[export] Instance runError_eq_dec : EqDecision runError.
Proof. solve_decision. Defined.

Record SandboxInfo : Type := mkSandboxInfo {
  Sbx_Enabled : bool;
  Sbx_Mode : string;
  Sbx_Backend : string;
  Sbx_Sources : list string;
  Sbx_Downgraded : bool;
  Sbx_NetworkIsolated : bool
}.

Record HookInput : Type := mkHookInput {
  In_Event : HookEvent;
  In_SessionID : string;
  In_Workspace : string;
  In_IsSubagent : bool;
  In_AgentType : string;
  In_Prompt : string;
  In_ToolName : string;
  In_ToolCallID : string;
  In_ToolArgs : tools.Args;
  In_ToolResult : string;
  In_ToolError : string;
  In_NotificationKind : string;
  In_NotificationReason : string;
  In_Summarized : nat;
  In_Kept : nat;
  In_Summary : string;
  In_Stats : option runstats.RunStats;
  In_Error : option runError;
  In_WorktreePath : string;
  In_WorktreeBranch : string;
  In_PreviousWorkspace : string;
  In_Sandbox : option SandboxInfo
}.
#[export] Instance HookInput_updatable : Updatable HookInput := λ r,
  mkHookInput (In_Event r) (In_SessionID r) (In_Workspace r) (In_IsSubagent r) (In_AgentType r)
    (In_Prompt r) (In_ToolName r) (In_ToolCallID r) (In_ToolArgs r) (In_ToolResult r)
    (In_ToolError r) (In_NotificationKind r) (In_NotificationReason r) (In_Summarized r)
    (In_Kept r) (In_Summary r) (In_Stats r) (In_Error r) (In_WorktreePath r)
    (In_WorktreeBranch r) (In_PreviousWorkspace r) (In_Sandbox r).

Record HookOutput : Type := mkHookOutput {
  HO_Decision : string;
  HO_Reason : string
}.

Definition HookDecisionAllow : string := "".
Definition HookDecisionBlock : string := "block".

Definition HookOutput0 : HookOutput := mkHookOutput HookDecisionAllow "".

Definition Blocked (o : HookOutput) : bool := HO_Decision o == HookDecisionBlock.

End hooks.
