(* ===== verification/Gateway.v ===== *)
(** * Gateway: one managed model call

    router.go, service.go and server_model.go of internal/service/llmgateway,
    and the wiring of internal/bootstrap/llmgateway.go.  A [Gateway] is the
    database, the router's client cache, the state [S] of everything outside
    the program (the providers, the caller), and two records that only proofs
    read: the calls of the routed provider client, and which request opened which
    ledger row.  [others] is what other requests, workers and operators do before
    every step that reads shared state. *)

From Stdlib Require Import Ascii String.
From S2P Require Import Prelude Text Json TaskCore WorkflowCore LedgerCore Store LedgerStore SessionCore Pricing GatewayCatalog.
From S2P Require Import SessionMeta AgentContext AgentNotes AgentCore.
From stdpp Require Import gmap strings.
Import Prelude.
Import db.
Local Open Scope Z_scope.
Local Open Scope buildmax_scope.

Module gateway.
Import coregw.
Import llmgateway.
Local Open Scope string_scope.
Local Open Scope list_scope.
Local Open Scope Z_scope.

(** ** The origin of a call: internal/core/llm/call_origin.go *)

Record CallOrigin : Type := mkCallOrigin {
  Org_Surface : string;
  Org_ViaGateway : bool
}.

(** ** Clients and their cache: router.go *)

Record clientKey : Type := mkClientKey {
  Key_providerType : string;
  Key_endpoint : string;
  Key_credentialRef : string;
  Key_upstreamModel : string;
  Key_contextWindow : Z;
  Key_callTimeout : Z;
  Key_maxTokens : Z;
  Key_reasoning : string;
  Key_cacheMode : string;
  Key_cacheTTL : string;
  Key_vision : bool;
  Key_revision : Z
}.

#[export] Instance clientKey_eq_dec : EqDecision clientKey.
Proof. solve_decision. Defined.

Definition keyOf (target : Target) : clientKey := {|
  Key_providerType := Tgt_ProviderType target; Key_endpoint := Tgt_Endpoint target;
  Key_credentialRef := Tgt_CredentialRef target; Key_upstreamModel := Tgt_UpstreamModel target;
  Key_contextWindow := Tgt_ContextWindow target; Key_callTimeout := Tgt_CallTimeout target;
  Key_maxTokens := Tgt_MaxTokens target; Key_reasoning := Tgt_Reasoning target;
  Key_cacheMode := Tgt_CacheMode target; Key_cacheTTL := Tgt_CacheTTL target;
  Key_vision := Tgt_Vision target; Key_revision := Tgt_Revision target |}.

(** ** Requests and results: service.go *)

Record CompleteRequest : Type := mkCompleteRequest {
  CR_SpaceID : string;
  CR_UserID : option string;
  CR_TaskRunID : option string;
  CR_TaskID : option string;
  CR_ConversationID : option string;
  CR_ClientCallID : option string;
  CR_Surface : string;
  CR_SessionID : option string;
  CR_Model : string;
  CR_TargetID : string;
  CR_Messages : list llm.Message;
  CR_Tools : list llmapi.ToolDef;
  CR_CallProfile : string;
  CR_Output : option llmapi.OutputSchema
}.
#[export] Instance CompleteRequest_updatable : Updatable CompleteRequest := λ r,
  mkCompleteRequest (CR_SpaceID r) (CR_UserID r) (CR_TaskRunID r) (CR_TaskID r) (CR_ConversationID r)
    (CR_ClientCallID r) (CR_Surface r) (CR_SessionID r) (CR_Model r) (CR_TargetID r) (CR_Messages r)
    (CR_Tools r) (CR_CallProfile r) (CR_Output r).

Record CompleteResult : Type := mkCompleteResult {
  Cmp_LLMCallID : string;
  Cmp_Model : string;
  Cmp_Content : string;
  Cmp_ToolCalls : list llm.ToolCall;
  Cmp_Usage : pricing.Usage;
  Cmp_UsageReported : bool;
  Cmp_ProviderState : option llm.ProviderState;
  Cmp_Structured : option llmapi.Structured
}.

Definition requiredCapabilities (req : CompleteRequest) (streaming : bool) : list Capability :=
  [CapabilityTextChat]
  ++ (match CR_Tools req with [] => [] | _ => [CapabilityToolCalls] end)
  ++ (if streaming then [CapabilityStreamingText] else []).

Definition upstreamCallOrigin (surface : string) : CallOrigin :=
  if bool_decide (surface ∈ [CallSurfaceCLI; CallSurfaceDesktop; CallSurfaceWorker])
  then mkCallOrigin surface true
  else mkCallOrigin CallSurfaceServer false.

(** The request the provider gets: the space separates the provider's caches. *)
Definition upstreamCall (req : CompleteRequest) : llmapi.Request := {|
  llmapi.Req_Messages := CR_Messages req; llmapi.Req_Tools := CR_Tools req;
  llmapi.Req_Profile := CR_CallProfile req; llmapi.Req_CacheScope := CR_SpaceID req;
  llmapi.Req_Output := CR_Output req |}.

Definition applyRateSnapshot (target : Target) (call : Call) : Call :=
  if Tgt_Currency target == "" then call
  else call <| Cl_Currency := Tgt_Currency target |>
            <| Cl_RateInputPerMTok := Some (Tgt_InputPerMTok target) |>
            <| Cl_RateCacheReadPerMTok := Some (Tgt_CacheReadPerMTok target) |>
            <| Cl_RateCacheWritePerMTok := Some (Tgt_CacheWritePerMTok target) |>
            <| Cl_RateOutputPerMTok := Some (Tgt_OutputPerMTok target) |>.

(** The row [run] opens. *)
Definition ledgerEntry (req : CompleteRequest) (res : Resolution) (streaming : bool) (acceptedAt : Z)
    : Call :=
  applyRateSnapshot (Res_Target res) {|
    Cl_ID := ""; Cl_ClientCallID := CR_ClientCallID req; Cl_UserID := CR_UserID req;
    Cl_TaskRunID := CR_TaskRunID req; Cl_ConversationID := CR_ConversationID req;
    Cl_Surface := CR_Surface req; Cl_SessionID := CR_SessionID req;
    Cl_TaskID := CR_TaskID req; Cl_Model := Res_Name res;
    Cl_TargetID := Tgt_ID (Res_Target res); Cl_ProviderType := Tgt_ProviderType (Res_Target res);
    Cl_UpstreamModel := Tgt_UpstreamModel (Res_Target res); Cl_Streaming := streaming;
    Cl_AcceptedAt := acceptedAt; Cl_UpstreamStartedAt := None; Cl_FirstDeltaAt := None;
    Cl_CompletedAt := None; Cl_Status := CallStatusAccepted;
    Cl_ErrorClass := None; Cl_Attempts := 0; Cl_PromptTokens := None;
    Cl_CompletionTokens := None; Cl_TotalTokens := None; Cl_CacheReadTokens := None;
    Cl_CacheWriteTokens := None; Cl_UsageSource := ""; Cl_Currency := "";
    Cl_RateInputPerMTok := None; Cl_RateCacheReadPerMTok := None;
    Cl_RateCacheWritePerMTok := None; Cl_RateOutputPerMTok := None |}.

(** Whether the provider returned token counts. *)
Definition reported (usage : pricing.Usage) : bool :=
  (0 <? pricing.Use_TotalTokens usage) || (0 <? pricing.Use_PromptTokens usage)
  || (0 <? pricing.Use_CompletionTokens usage).

Definition callUsage (usage : pricing.Usage) : option CallUsage :=
  if reported usage then
    Some (mkCallUsage (pricing.Use_PromptTokens usage) (pricing.Use_CompletionTokens usage)
            (pricing.Use_TotalTokens usage) (pricing.Use_CacheReadTokens usage)
            (pricing.Use_CacheWriteTokens usage) UsageSourceReported)
  else None.

Definition failedStatus (class : string) : string :=
  if class == ErrorClassCanceled then CallStatusCanceled else CallStatusFailed.

(** The narrow surfaces the service uses. *)
Record CallStore : Type := mkCallStore {
  CS_OpenLLMCall : Call → DB Call;
  CS_CompleteLLMCall : string → CallOutcome → DB unit;
  CS_GetLLMCallByClientID : string → string → DB (option Call)
}.

Definition ledger (gen : nat → string) : CallStore :=
  mkCallStore (λ call, ledgerdb.OpenLLMCall gen (Some call)) ledgerdb.CompleteLLMCall
    ledgerdb.GetLLMCallByClientID.

Definition QuotaChecker : Type := string → Z → Z → CR (option corequota.Refusal).

(** ** The gateway *)

Section Gateway.
Context {Client S : Type}.

Record cachedClient : Type := mkCachedClient {
  Cac_key : clientKey;
  Cac_client : Client
}.

(** A call of the client a request was routed to, under the ledger row opened
    for it. *)
Record upcall : Type := mkUpcall {
  Up_LLMCallID : string;
  Up_Client : Client;
  Up_Streaming : bool;
  Up_Origin : CallOrigin;
  Up_Request : llmapi.Request
}.

Record Gateway : Type := mkGateway {
  G_Store : Store;
  G_Clients : gmap string cachedClient;
  G_Host : S;
  G_Calls : list upcall;
  G_Owners : gmap string nat
}.
#[export] Instance Gateway_updatable : Updatable Gateway := λ r,
  mkGateway (G_Store r) (G_Clients r) (G_Host r) (G_Calls r) (G_Owners r).

(** What a provider client does with one call, retries of its own included
    (internal/infra/llm/client.go): the deltas it delivers, each with the
    time it arrives, and the completion; and whether the caller is gone when it
    returns. *)
Class Upstream : Type := {
  ChatCompletion : Client → bool → CallOrigin → llmapi.Request → S →
    list (Z * string) * res fault llmapi.Completion * S;
  callerGone : S → bool
}.

(** An operation of the gateway; a failure carries the [LLMCallID] of the result
    returned beside the error. *)
Definition GW (A : Type) : Type := Eff (string * error) Gateway A.

Definition refuse {A} (e : error) : GW A := fail ("", e).

Record Router : Type := mkRouter {
  Rt_Resolver : option Resolver;
  Rt_Factory : option (Target → CR (option Client))
}.

Record RoutedClient : Type := mkRoutedClient {
  Rtd_Resolution : Resolution;
  Rtd_Client : Client
}.

Record Service : Type := mkService {
  Svc_Router : option Router;
  Svc_Ledger : option CallStore;
  Svc_Quota : option QuotaChecker
}.

Context `{Faults} `{Upstream} (others : Gateway → Gateway).
(** The number of the request that is being served. *)
Context (me : nat).

Definition on_store {A} (m : CR A) : GW A := λ g,
  match m (G_Store g) with
  | (Ok a, s') => (Ok a, g <| G_Store := s' |>)
  | (Err e, s') => (Err ("", e), g <| G_Store := s' |>)
  end.

(** A step on shared state, after whatever others did meanwhile. *)
Definition meanwhile {A} (m : GW A) : GW A := λ g, m (others g).

Definition clock : GW Z := meanwhile (gets (λ g, st_clock (G_Store g))).

(** [clientForTarget]: one step, under the router's lock. *)
Definition clientForTarget (factory : Target → CR (option Client)) (target : Target) : GW Client :=
  meanwhile
    (g ← get;
     let key := keyOf target in
     let build :=
       client ← on_store (factory target);
       match client with
       | None => refuse ErrFactoryNotConfigured
       | Some client =>
           g ← get;
           _ ← put (g <| G_Clients := <[Tgt_ID target := mkCachedClient key client]> (G_Clients g) |>);
           mret client
       end in
     match G_Clients g !! Tgt_ID target with
     | Some cached => if Cac_key cached == key then mret (Cac_client cached) else build
     | None => build
     end).

Definition ClientFor (r : Router) (req : ResolveRequest) : GW RoutedClient :=
  match Rt_Factory r with
  | None => refuse ErrFactoryNotConfigured
  | Some factory =>
      resolution ← meanwhile (on_store (Resolve (Rt_Resolver r) req));
      client ← clientForTarget factory (Res_Target resolution);
      mret (mkRoutedClient resolution client)
  end.

Definition ClientForTarget (r : Router) (targetID : string) (requires : list Capability) : GW RoutedClient :=
  match Rt_Factory r with
  | None => refuse ErrFactoryNotConfigured
  | Some factory =>
      target ← meanwhile (on_store (ResolveTargetByID (Rt_Resolver r) targetID requires));
      client ← clientForTarget factory target;
      mret (mkRoutedClient (mkResolution "" target) client)
  end.

(** [Service.Models] and [Router.Available] *)
Definition Models (svc : Service) : GW (list AvailableModel) :=
  match Svc_Router svc with
  | None => refuse ErrCatalogNotConfigured
  | Some r => meanwhile (on_store (Available (Rt_Resolver r)))
  end.

Definition ModelNames (svc : Service) : GW (list string) :=
  models ← Models svc;
  mret (map AM_Name models).

Definition route (r : Router) (req : CompleteRequest) (streaming : bool) : GW RoutedClient :=
  let requires := requiredCapabilities req streaming in
  if CR_TargetID req == "" then ClientFor r (mkResolveRequest (CR_Model req) requires)
  else
    routed ← ClientForTarget r (CR_TargetID req) requires;
    let target := Res_Target (Rtd_Resolution routed) in
    mret (mkRoutedClient (mkResolution (Tgt_Name target) target) (Rtd_Client routed)).

(** A key is scoped to a user; a lookup that fails is not fatal. *)
Definition rejectDuplicate (l : CallStore) (req : CompleteRequest) : GW unit :=
  match ref_of (CR_ClientCallID req), ref_of (CR_UserID req) with
  | Some key, Some user =>
      existing ← catch (meanwhile (on_store (stored_ (CS_GetLLMCallByClientID l user key))))
                   (λ _, mret None);
      match existing with
      | None => mret tt
      | Some call => refuse (DuplicateCallError (Cl_ID call) (Cl_Status call))
      end
  | _, _ => mret tt
  end.

Definition checkQuota (quota : option QuotaChecker) (spaceID : string) : GW unit :=
  match quota with
  | None => mret tt
  | Some Check =>
      if spaceID == "" then mret tt
      else
        refusal ← meanwhile (on_store (Check spaceID 0 0));
        match refusal with None => mret tt | Some r => refuse (QuotaError r) end
  end.

Definition openLedger (l : CallStore) (entry : Call) : GW Call :=
  meanwhile
    (call ← on_store (λ s,
       match CS_OpenLLMCall l entry s with
       | (Ok call, s') => (Ok call, s')
       | (Err e, s') =>
           (Err (if e == ledgerdb.ErrDuplicateCall then DuplicateCallError "" "" else Foreign (fault_of e)), s')
       end);
     g ← get;
     _ ← put (g <| G_Owners := <[Cl_ID call := me]> (G_Owners g) |>);
     mret call).

(** A write that fails is logged: the row stays ACCEPTED. *)
Definition closeLedger (l : CallStore) (llmCallID : string) (outcome : CallOutcome) : GW unit :=
  catch (meanwhile (on_store (stored_ (CS_CompleteLLMCall l llmCallID outcome)))) (λ _, mret tt).

(** One call of the provider client, [ChatCompletionBlocking] or
    [ChatCompletionStreaming], and its record.  Others go on while the provider
    answers; [onDelta] gets each delta of a streamed call. *)
Definition chat (llmCallID : string) (client : Client) (streaming : bool) (origin : CallOrigin) (req : llmapi.Request)
    (onDelta : string → S → S) : GW (list (Z * string) * res fault llmapi.Completion) :=
  g ← get;
  _ ← put (g <| G_Calls := G_Calls g ++ [mkUpcall llmCallID client streaming origin req] |>);
  meanwhile
    (g ← get;
     let '(deltas, answer, host) := ChatCompletion client streaming origin req (G_Host g) in
     let deltas := if streaming then deltas else [] in
     _ ← put (g <| G_Host := foldl (λ host delta, onDelta delta host) host (map snd deltas) |>);
     mret (deltas, answer)).

(** The provider's part of [run]: the time of the first delta and the answer. *)
Definition callUpstream (llmCallID : string) (client : Client) (req : CompleteRequest)
    (onDelta : option (string → S → S)) : GW (option Z * res fault llmapi.Completion) :=
  let origin := upstreamCallOrigin (CR_Surface req) in
  match onDelta with
  | Some onDelta =>
      '(deltas, answer) ← chat llmCallID client true origin (upstreamCall req) onDelta;
      mret (fst <$> head deltas, answer)
  | None =>
      '(_, answer) ← chat llmCallID client false origin (upstreamCall req) (λ _ host, host);
      mret (None, answer)
  end.

(** [errors.Is(callErr, …)] decides the class, and the class the status. *)
Definition settle (l : CallStore) (llmCallID : string) (res : Resolution) (startedAt : Z) (firstDeltaAt : option Z)
    (completedAt : Z) (gone : bool) (answer : Prelude.res fault llmapi.Completion) : GW CompleteResult :=
  let outcome status class usage :=
    mkCallOutcome status class 1 (Some startedAt) firstDeltaAt completedAt usage in
  match answer with
  | Err callErr =>
      let class := upstreamClass gone callErr in
      _ ← closeLedger l llmCallID (outcome (failedStatus class) (Some class) None);
      fail (llmCallID, UpstreamError class callErr)
  | Ok completion =>
      let usage := llmapi.Com_Usage completion in
      _ ← closeLedger l llmCallID (outcome CallStatusSucceeded None (callUsage usage));
      mret {| Cmp_LLMCallID := llmCallID; Cmp_Model := Res_Name res;
              Cmp_Content := llmapi.Com_Content completion; Cmp_ToolCalls := llmapi.Com_ToolCalls completion;
              Cmp_Usage := usage; Cmp_UsageReported := reported usage;
              Cmp_ProviderState := llmapi.Com_ProviderState completion;
              Cmp_Structured := llmapi.Com_Structured completion |}
  end.

(** [run]: refuse, or open a row, call the provider once and close the row. *)
Definition run (svc : Service) (req : CompleteRequest) (onDelta : option (string → S → S)) : GW CompleteResult :=
  match Svc_Router svc, Svc_Ledger svc with
  | None, _ => refuse ErrCatalogNotConfigured
  | Some _, None => refuse ErrLedgerNotConfigured
  | Some router, Some l =>
      match CR_Messages req with
      | [] => refuse ErrMessagesRequired
      | _ =>
          let streaming := bool_decide (is_Some onDelta) in
          _ ← rejectDuplicate l req;
          routed ← route router req streaming;
          _ ← checkQuota (Svc_Quota svc) (CR_SpaceID req);
          acceptedAt ← clock;
          call ← openLedger l (ledgerEntry req (Rtd_Resolution routed) streaming acceptedAt);
          startedAt ← clock;
          '(firstDeltaAt, answer) ← callUpstream (Cl_ID call) (Rtd_Client routed) req onDelta;
          completedAt ← clock;
          gone ← gets (λ g, callerGone (G_Host g));
          settle l (Cl_ID call) (Rtd_Resolution routed) startedAt firstDeltaAt completedAt gone answer
      end
  end.

Definition Complete (svc : Service) (req : CompleteRequest) : GW CompleteResult := run svc req None.

Definition Stream (svc : Service) (req : CompleteRequest) (onDelta : option (string → S → S)) : GW CompleteResult :=
  run svc req (Some (default (λ _ host, host) onDelta)).

(** ** The server's own model: server_model.go *)

Record serverModelClient : Type := mkServerModelClient {
  Smc_contextWindow : Z;
  Smc_request : CompleteRequest
}.

(** [ForConversation]: [targetID] is the deployment's conversation model. *)
Definition ForConversation (svc : option Service) (targetID userID spaceID conversationID model : string)
    : GW serverModelClient :=
  match svc with
  | None => refuse ErrCatalogNotConfigured
  | Some svc =>
      match Svc_Router svc with
      | None => refuse ErrCatalogNotConfigured
      | Some router =>
          match Rt_Resolver router with
          | None => refuse ErrCatalogNotConfigured
          | Some resolver =>
              target ← meanwhile (on_store
                (if model == "" then ResolveTargetByID (Some resolver) targetID BaselineCapabilities
                 else r ← Resolve (Some resolver) (mkResolveRequest model BaselineCapabilities);
                      mret (Res_Target r)));
              mret (mkServerModelClient (Tgt_ContextWindow target)
                {| CR_SpaceID := spaceID; CR_UserID := Some userID; CR_TaskRunID := None; CR_TaskID := None;
                   CR_ConversationID := Some conversationID; CR_ClientCallID := None;
                   CR_Surface := CallSurfaceConversation; CR_SessionID := None; CR_Model := "";
                   CR_TargetID := Tgt_ID target; CR_Messages := []; CR_Tools := []; CR_CallProfile := "";
                   CR_Output := None |})
          end
      end
  end.

Definition bind (c : serverModelClient) (req : llmapi.Request) : CompleteRequest :=
  Smc_request c <| CR_Messages := llmapi.Req_Messages req |> <| CR_Tools := llmapi.Req_Tools req |>
                <| CR_CallProfile := llmapi.Req_Profile req |> <| CR_Output := llmapi.Req_Output req |>.

Definition completionOf (result : CompleteResult) : llmapi.Completion := {|
  llmapi.Com_Content := Cmp_Content result; llmapi.Com_ToolCalls := Cmp_ToolCalls result;
  llmapi.Com_Usage := Cmp_Usage result; llmapi.Com_ProviderState := Cmp_ProviderState result;
  llmapi.Com_Structured := Cmp_Structured result |}.

Definition serverModelError (err : error) : error :=
  match err with QuotaError r => QuotaRefused (corequota.Reason r) | e => e end.

Definition as_completion (m : GW CompleteResult) : GW llmapi.Completion :=
  result ← catch m (λ e, refuse (serverModelError e.2));
  mret (completionOf result).

Definition ChatCompletionBlocking (svc : Service) (c : serverModelClient) (req : llmapi.Request)
    : GW llmapi.Completion := as_completion (Complete svc (bind c req)).

Definition ChatCompletionStreaming (svc : Service) (c : serverModelClient) (req : llmapi.Request)
    (onDelta : option (string → S → S)) : GW llmapi.Completion := as_completion (Stream svc (bind c req) onDelta).

End Gateway.
Arguments Gateway : clear implicits.
Arguments Router : clear implicits.
Arguments Service : clear implicits.
Arguments Upstream : clear implicits.
Arguments GW : clear implicits.
Arguments upcall : clear implicits.
Arguments cachedClient : clear implicits.

End gateway.
