(* ===== verification/GatewayLaws.v ===== *)
(** * GatewayLaws: a managed call is made once and accounted for

    One request is followed through [run] while others do anything that
    respects it ([rely]): they may open rows, call providers under rows of their
    own and declare runs lost.  The ledger is used through [CallStoreLaws], which
    internal/infra/db meets. *)

From Stdlib Require Import Ascii String.
From S2P Require Import Prelude EffLogic Text Json TaskCore WorkflowCore LedgerCore Store TaskStore LedgerStore.
From S2P Require Import SessionCore Pricing GatewayCatalog SessionMeta AgentContext AgentNotes AgentCore Gateway.
From stdpp Require Import gmap strings.
Import Prelude.
Import db coregw ledgerdb llmgateway gateway.
Local Open Scope Z_scope.
Local Open Scope buildmax_scope.

(** ** The interfaces *)

Class CallStoreLaws (l : CallStore) : Prop := {
  open_ok call s row s' : CS_OpenLLMCall l call s = (Ok row, s') →
    st_calls s' = st_calls s ++ [row] ∧ Cl_ID row ∉ call_ids s ∧
    (∀ r, r ∈ st_calls s → same_client row r = false) ∧ recorded call row;
  open_err call s e s' : CS_OpenLLMCall l call s = (Err e, s') → st_calls s' = st_calls s;
  complete_ok id o s u s' : CS_CompleteLLMCall l id o s = (Ok u, s') →
    st_calls s' = update_where (λ r, Cl_ID r == id) (completed o) (st_calls s);
  complete_err id o s e s' : CS_CompleteLLMCall l id o s = (Err e, s') → st_calls s' = st_calls s;
  get_keeps user key : steps same_calls (CS_GetLLMCallByClientID l user key)
}.

(** A ledger whose outcomes are always written. *)
Definition reliable (l : CallStore) : Prop := ∀ id o s, is_ok (CS_CompleteLLMCall l id o s).1 = true.

#[export] Instance ledger_laws gen : CallStoreLaws (ledger gen).
Proof.
  split; cbn.
  - apply OpenLLMCall_ok.
  - apply OpenLLMCall_err.
  - intros id o s u s'. by intros [= _ <-].
  - done.
  - intros user key s. reflexivity.
Qed.

Lemma ledger_reliable gen : reliable (ledger gen).
Proof. done. Qed.

(** The catalog, the client factory and the quota leave the ledger alone. *)
Definition tame_catalog (c : Catalog) : Prop :=
  (∀ id, steps same_calls (Cat_Target c id)) ∧ (∀ name, steps same_calls (Cat_TargetByName c name)) ∧
  steps same_calls (Cat_List c).

Record tame {Client} (svc : Service Client) : Prop := {
  tame_catalogs rt rs c : Svc_Router svc = Some rt → Rt_Resolver rt = Some rs → Rsv_Catalog rs = Some c →
    tame_catalog c;
  tame_factory rt f t : Svc_Router svc = Some rt → Rt_Factory rt = Some f → steps same_calls (f t);
  tame_quota q sp a b : Svc_Quota svc = Some q → steps same_calls (q sp a b)
}.

Lemma steps_stored_ `{Faults} {A} R `{!PreOrder R} (m : DB A) : steps R m → steps R (stored_ m).
Proof. intros Hm s. unfold stored_. specialize (Hm s). by destruct (m s) as [[a|e] s']. Qed.

Lemma StoreCatalog_tame `{Faults} : tame_catalog StoreCatalog.
Proof.
  assert (∀ o, steps same_calls (from_row o)) as Hf.
  { intros [m|]; [apply steps_lift, _|apply steps_fail, _]. }
  split_and!; cbn.
  - intros id. apply steps_bind; [apply _|apply steps_stored_; [apply _|]|done].
    unfold modeldb.GetLLMModel. case_bool_decide; [apply steps_ret, _|apply steps_gets, _].
  - intros name. apply steps_bind; [apply _|apply steps_stored_; [apply _|]|done].
    unfold modeldb.GetLLMModelByName. case_bool_decide; [apply steps_ret, _|apply steps_gets, _].
  - apply steps_bind; [apply _|apply steps_stored_; [apply _|apply steps_gets, _]|].
    intros ms. apply steps_ret, _.
Qed.

Section Laws.
Context {Client S : Type} `{Faults} `{Upstream Client S}.
Notation Gateway := (gateway.Gateway Client S).
Implicit Types g : Gateway.

(** ** What requests may rely on *)

Definition rows g : list Call := st_calls (G_Store g).
Definition called g : list string := map Up_LLMCallID (G_Calls g).

(** No two calls under one row, and a call only under a row someone opened. *)
Record Ledgered g : Prop := {
  ld_ok : ledger_ok (G_Store g);
  ld_owned id : is_Some (G_Owners g !! id) → id ∈ call_ids (G_Store g);
  ld_once : NoDup (called g);
  ld_called id : id ∈ called g → is_Some (G_Owners g !! id)
}.

Definition mine (me : nat) g (id : string) : Prop := G_Owners g !! id = Some me.

(** A row, or the row after its run was declared lost. *)
Definition lost_or_same (r r' : Call) : Prop :=
  r' = r ∨ Cl_Status r = CallStatusAccepted ∧ ∃ t, r' = run_lost t r.

Record respects (me : nat) g g' : Prop := {
  rl_ledgered : Ledgered g';
  rl_rows : grows (G_Store g) (G_Store g');
  rl_calls : G_Calls g `prefix_of` G_Calls g';
  rl_mine id : mine me g id ↔ mine me g' id;
  rl_uncalled id : mine me g id → id ∈ called g' → id ∈ called g;
  rl_outcome r : r ∈ rows g → mine me g (Cl_ID r) → ∃ r', r' ∈ rows g' ∧ lost_or_same r r'
}.

Definition rely (me : nat) : relation Gateway := λ g g', Ledgered g → respects me g g'.

Lemma lost_or_same_trans a b c : lost_or_same a b → lost_or_same b c → lost_or_same a c.
Proof.
  intros [->|(E & t & ->)] [->|(E' & t' & ->)]; [by left|right; eauto|right; eauto|done].
Qed.

Lemma lost_or_same_id a b : lost_or_same a b → Cl_ID b = Cl_ID a.
Proof. by intros [-> |(_ & t & ->)]. Qed.

Lemma lost_or_same_frozen a b : lost_or_same a b → frozen b = frozen a.
Proof. by intros [-> |(_ & t & ->)]. Qed.

Lemma respects_refl me g : Ledgered g → respects me g g.
Proof. intros L. split; [done|reflexivity|done..|]. intros r Hr _. exists r. split; [done|by left]. Qed.

Lemma respects_trans me g1 g2 g3 : respects me g1 g2 → respects me g2 g3 → respects me g1 g3.
Proof.
  intros [L1 R1 C1 M1 U1 O1] [L2 R2 C2 M2 U2 O2]. split.
  - done.
  - by etransitivity.
  - by etransitivity.
  - intros id. by rewrite M1.
  - intros id Hm Hc. apply U1; [done|]. apply U2; [by apply M1|done].
  - intros r Hr Hm. destruct (O1 r Hr Hm) as (r1 & Hr1 & E1).
    destruct (O2 r1 Hr1) as (r2 & Hr2 & E2).
    { apply M1. by rewrite (lost_or_same_id _ _ E1). }
    exists r2. split; [done|by eapply lost_or_same_trans].
Qed.

#[export] Instance rely_preorder me : PreOrder (rely me).
Proof.
  split; [by intros g L; apply respects_refl|].
  intros g1 g2 g3 R1 R2 L. eapply respects_trans; [by apply R1|]. by apply R2, R1.
Qed.

Lemma rely_same me g g' :
  rows g' = rows g → G_Calls g' = G_Calls g → G_Owners g' = G_Owners g → rely me g g'.
Proof.
  unfold rows. intros E1 E2 E3 [A B C D]. split.
  - split.
    + eapply ledger_ok_frozen; [by rewrite E1|done].
    + unfold call_ids. rewrite E1, E3. done.
    + unfold called. by rewrite E2.
    + unfold called. by rewrite E2, E3.
  - unfold grows. by rewrite E1.
  - by rewrite E2.
  - intros id. unfold mine. by rewrite E3.
  - intros id _. unfold called. by rewrite E2.
  - intros r Hr _. exists r. unfold rows. rewrite E1. split; [done|by left].
Qed.

(** ** Following one request *)

Context (others : Gateway → Gateway) (me : nat).
Hypothesis Hothers : ∀ g, rely me g (others g).

Lemma steps_meanwhile {A} (m : GW Client S A) : steps (rely me) m → steps (rely me) (meanwhile others m).
Proof using Hothers. intros Hm g. unfold meanwhile. etransitivity; [apply Hothers|apply Hm]. Qed.

Lemma rely_on_store {A} (m : CR A) : steps same_calls m → steps (rely me) (on_store (S := S) (Client := Client) m).
Proof.
  intros Hm g. unfold on_store. specialize (Hm (G_Store g)).
  destruct (m (G_Store g)) as [[a|e] s']; by apply rely_same.
Qed.

Lemma steps_refuse {A} (e : error) : steps (rely me) (refuse (S := S) (Client := Client) (A := A) e).
Proof. apply steps_fail, _. Qed.

Lemma steps_clock : steps (rely me) (clock others).
Proof using Hothers. apply steps_meanwhile, steps_gets, _. Qed.

Lemma steps_Resolve rs req : (∀ r c, rs = Some r → Rsv_Catalog r = Some c → tame_catalog c) →
  steps same_calls (Resolve rs req).
Proof.
  intros Hc. unfold Resolve, catalog_of. destruct rs as [r|]; [|apply steps_fail, _].
  destruct (Rsv_Catalog r) as [c|] eqn:E; [|apply steps_fail, _]. destruct (Hc r c eq_refl E) as (_ & Hn & Hl).
  apply steps_bind; [apply _| |].
  - case_bool_decide; [|apply steps_ret, _]. unfold defaultName. case_bool_decide; cbn [negb]; [|apply steps_ret, _].
    apply steps_bind; [apply _|done|]. intros ts. apply steps_or_fail, _.
  - intros name. apply steps_bind; [apply _|done|]. intros t.
    apply steps_bind; [apply _|apply steps_lift, _|]. intros _. apply steps_ret, _.
Qed.

Lemma steps_ResolveTargetByID rs id caps : (∀ r c, rs = Some r → Rsv_Catalog r = Some c → tame_catalog c) →
  steps same_calls (ResolveTargetByID rs id caps).
Proof.
  intros Hc. unfold ResolveTargetByID, catalog_of. destruct rs as [r|]; [|apply steps_fail, _].
  destruct (Rsv_Catalog r) as [c|] eqn:E; [|apply steps_fail, _]. destruct (Hc r c eq_refl E) as (Ht & _ & _).
  case_bool_decide; [apply steps_fail, _|]. apply steps_bind; [apply _|done|]. intros t.
  apply steps_bind; [apply _|apply steps_lift, _|]. intros _. apply steps_ret, _.
Qed.

Lemma steps_clientForTarget f t : steps same_calls (f t) → steps (rely me) (clientForTarget others f t).
Proof using Hothers.
  intros Hf. unfold clientForTarget. apply steps_meanwhile.
  apply steps_bind; [apply _|by intros g|]. intros g0. cbv zeta.
  assert (steps (rely me) (client ← on_store (S := S) (f t);
    match client with
    | None => refuse ErrFactoryNotConfigured
    | Some client =>
        g ← get;
        _ ← put (g <| G_Clients := <[Tgt_ID t := mkCachedClient (keyOf t) client]> (G_Clients g) |>);
        mret client
    end)) as Hb.
  { apply steps_bind; [apply _|by apply rely_on_store|]. intros [c|]; [|apply steps_refuse].
    intros g. by apply rely_same. }
  destruct (_ !! _) as [c|]; [|done]. case_bool_decide; [apply steps_ret, _|done].
Qed.

Context (svc : Service Client) (Htame : tame svc).

Lemma steps_route rt req streaming : Svc_Router svc = Some rt → steps (rely me) (route others rt req streaming).
Proof using Hothers Htame.
  intros Hrt. assert (∀ r c, Rt_Resolver rt = Some r → Rsv_Catalog r = Some c → tame_catalog c) as Hc
    by (intros; by eapply tame_catalogs).
  unfold route. case_bool_decide.
  - unfold ClientFor. destruct (Rt_Factory rt) as [f|] eqn:Ef; [|apply steps_refuse].
    apply steps_bind; [apply _|by apply steps_meanwhile, rely_on_store, steps_Resolve|]. intros r.
    apply steps_bind; [apply _|eapply steps_clientForTarget, tame_factory; done|]. intros c. apply steps_ret, _.
  - apply steps_bind; [apply _| |intros; apply steps_ret, _].
    unfold ClientForTarget. destruct (Rt_Factory rt) as [f|] eqn:Ef; [|apply steps_refuse].
    apply steps_bind; [apply _|by apply steps_meanwhile, rely_on_store, steps_ResolveTargetByID|]. intros r.
    apply steps_bind; [apply _|eapply steps_clientForTarget, tame_factory; done|]. intros c. apply steps_ret, _.
Qed.

Context (l : CallStore) `{!CallStoreLaws l}.

Lemma steps_rejectDuplicate req : steps (rely me) (rejectDuplicate others l req).
Proof using Hothers CallStoreLaws0.
  unfold rejectDuplicate. destruct (ref_of _) as [k|]; [|apply steps_ret, _].
  destruct (ref_of _) as [u|]; [|apply steps_ret, _].
  apply steps_bind; [apply _| |intros [c|]; [apply steps_refuse|apply steps_ret, _]].
  apply steps_catch; [apply _| |intros e; apply steps_ret, _].
  apply steps_meanwhile, rely_on_store, steps_stored_; [apply _|apply get_keeps].
Qed.

Lemma steps_checkQuota sp : steps (rely me) (checkQuota others (Svc_Quota svc) sp).
Proof using Hothers Htame.
  unfold checkQuota. destruct (Svc_Quota svc) as [q|] eqn:E; [|apply steps_ret, _].
  case_bool_decide; [apply steps_ret, _|].
  apply steps_bind; [apply _|by eapply steps_meanwhile, rely_on_store, tame_quota|].
  intros [r|]; [apply steps_refuse|apply steps_ret, _].
Qed.

(** ** Between opening a row and closing it *)

(** The request holds the row [row0] it opened, which now is as [φ] says; [c] is
    the call it has made under it. *)
Record held_at (φ : Call → Prop) g0 (row0 : Call) (c : option (upcall Client)) g : Prop := {
  hd_ledgered : Ledgered g;
  hd_rows : grows (G_Store g0) (G_Store g);
  hd_calls : G_Calls g0 `prefix_of` G_Calls g;
  hd_mine : mine me g (Cl_ID row0);
  hd_new : ¬ mine me g0 (Cl_ID row0);
  hd_rest id : id ≠ Cl_ID row0 → mine me g0 id ↔ mine me g id;
  hd_called : Cl_ID row0 ∈ called g ↔ is_Some c;
  hd_up u : c = Some u → u ∈ G_Calls g;
  hd_row : ∃ r, r ∈ rows g ∧ Cl_ID r = Cl_ID row0 ∧ φ r
}.

Definition held g0 row0 := held_at (lost_or_same row0) g0 row0.

Lemma held_rely g0 row0 c g g' : held g0 row0 c g → rely me g g' → held g0 row0 c g'.
Proof.
  intros [A B C D E F G U (r & Hr & Hid & Hl)] R. destruct (R A) as [A' B' C' D' E' F']. split.
  - done.
  - by etransitivity.
  - by etransitivity.
  - by apply D'.
  - done.
  - intros id Hne. rewrite F by done. apply D'.
  - rewrite <- G. split; [by apply E'|]. intros Hc. unfold called in *.
    destruct C' as [k ->]. rewrite map_app. apply elem_of_app. by left.
  - intros u Hu. destruct C' as [k ->]. apply elem_of_app. left. by apply U.
  - destruct (F' r Hr) as (r' & Hr' & Hl').
    { by rewrite Hid. }
    exists r'. split_and!; [done|by rewrite (lost_or_same_id _ _ Hl')|by eapply lost_or_same_trans].
Qed.

Definition started : Gateway → Gateway → Prop := respects me.

Lemma started_rely g0 g g' : started g0 g → rely me g g' → started g0 g'.
Proof. intros A R. eapply respects_trans; [exact A|]. apply R, A. Qed.

(** A refusal leaves nothing behind that is the request's. *)
Definition refused g0 (e : string * error) g : Prop := e.1 = "" ∧ started g0 g.

(** Errors that carry no call. *)
Definition blank {A} (m : GW Client S A) : Prop := ∀ g e g', m g = (Err e, g') → e.1 = "".

Lemma blank_bind {A B} (m : GW Client S A) (f : A → GW Client S B) :
  blank m → (∀ a, blank (f a)) → blank (m ≫= f).
Proof.
  intros Hm Hf g e g'. unfold mbind, eff_bind. destruct (m g) as [[a|e'] g1] eqn:E; [apply Hf|].
  intros [= <- <-]. by eapply Hm.
Qed.

Lemma blank_on_store {A} (m : CR A) : blank (on_store m).
Proof. intros g e g'. unfold on_store. destruct (m _) as [[a|e'] s']; naive_solver. Qed.

Lemma blank_meanwhile {A} (m : GW Client S A) : blank m → blank (meanwhile others m).
Proof. intros Hm g e g'. apply Hm. Qed.

Lemma blank_ret {A} (a : A) : blank (mret a).
Proof. by intros g e g' [=]. Qed.

Lemma blank_refuse {A} e : blank (refuse (A := A) e).
Proof. by intros g e' g' [= <- <-]. Qed.

Lemma blank_catch {A} (m : GW Client S A) h : (∀ e, blank (h e)) → blank (catch m h).
Proof. intros Hh g e g'. unfold catch. destruct (m g) as [[a|e'] g1]; [done|apply Hh]. Qed.

Lemma blank_state {A} (m : GW Client S A) : always m → blank m.
Proof. intros Ha g e g' E. specialize (Ha g). by rewrite E in Ha. Qed.

Ltac blank_walk :=
  repeat first
    [ apply blank_bind; [|intros ?]
    | apply blank_on_store
    | apply blank_meanwhile
    | apply blank_ret
    | apply blank_refuse
    | apply blank_catch; intros ?
    | case_match
    | apply blank_state; done ].

Lemma triple_started {A} g0 (m : GW Client S A) : steps (rely me) m → blank m →
  triple (started g0) m (λ _, started g0) (refused g0).
Proof.
  intros Hm He g Hg. specialize (Hm g). pose proof (He g) as He'. destruct (m g) as [[a|e] g']; cbn in Hm.
  - by eapply started_rely.
  - split; [by eapply He'|by eapply started_rely].
Qed.

Lemma triple_held {A} g0 row0 c (m : GW Client S A) X : steps (rely me) m → always m →
  triple (held g0 row0 c) m (λ _, held g0 row0 c) X.
Proof.
  intros Hm Ha g Hg. specialize (Hm g). specialize (Ha g). destruct (m g) as [[a|e] g']; [|done].
  by eapply held_rely.
Qed.

Lemma triple_openLedger g0 entry :
  triple (started g0) (openLedger others me l entry)
    (λ row g, recorded entry row ∧ held g0 row None g) (refused g0).
Proof using Hothers CallStoreLaws0.
  intros g Hg. apply (started_rely _ _ (others g)) in Hg; [|done].
  unfold openLedger, meanwhile, mbind, eff_bind, on_store. generalize dependent (others g). clear g. intros g R. pose proof (rl_ledgered _ _ _ R) as L.
  destruct (CS_OpenLLMCall l entry (G_Store g)) as [[row|e] s'] eqn:E; cbn.
  2: { split; [done|]. eapply started_rely; [exact R|]. apply rely_same; [by eapply open_err|done|done]. }
  apply open_ok in E as (Es & Hid & Hc & Hrec). split; [done|].
  assert (G_Owners g !! Cl_ID row = None) as Hnone.
  { destruct (_ !! _) eqn:X; [|done]. exfalso. apply Hid. by apply (ld_owned _ L); eauto. }
  split.
  - split; cbn.
    + eapply ledger_ok_open; [done..|]. apply L.
    + intros id. unfold call_ids. cbn. rewrite Es, map_app. intros [?|[Hne Ho]]%lookup_insert_is_Some.
      * subst. apply elem_of_app. right. cbn. by left.
      * apply elem_of_app. left. by apply (ld_owned _ L).
    + apply L.
    + intros id Hin. apply lookup_insert_is_Some. destruct (decide (Cl_ID row = id)); [by left|right].
      split; [done|]. by apply (ld_called _ L).
  - etransitivity; [apply R|]. unfold grows. cbn. rewrite Es, map_app. by apply prefix_app_r.
  - apply R.
  - unfold mine. cbn. by rewrite lookup_insert_eq.
  - unfold mine. intros X. apply (rl_mine _ _ _ R) in X. unfold mine in X. congruence.
  - intros id Hne. rewrite (rl_mine _ _ _ R). unfold mine. cbn. by rewrite lookup_insert_ne.
  - cbn. split; [|by intros [? ?]]. intros Hin. apply (ld_called _ L) in Hin as [? ?]. congruence.
  - done.
  - exists row. split_and!; [|done|by left]. unfold rows. cbn. rewrite Es. apply elem_of_app. right. by left.
Qed.

Definition theCall (row0 : Call) client (od : option (string → S → S)) req : upcall Client :=
  mkUpcall (Cl_ID row0) client (bool_decide (is_Some od)) (upstreamCallOrigin (CR_Surface req)) (upstreamCall req).

Lemma triple_chat g0 row0 client streaming origin r onDelta X :
  triple (held g0 row0 None) (chat others (Cl_ID row0) client streaming origin r onDelta)
    (λ _, held g0 row0 (Some (mkUpcall (Cl_ID row0) client streaming origin r))) X.
Proof using Hothers.
  intros g [A B C D E F G U R]. unfold chat.
  set (u := mkUpcall _ _ _ _ _). set (g1 := g <| G_Calls := G_Calls g ++ [u] |>).
  assert (held g0 row0 (Some u) g1) as H1.
  { assert (called g1 = called g ++ [Cl_ID row0]) as Ec by (unfold called; cbn; by rewrite map_app).
    split; try done.
    - destruct A as [A1 A2 A3 A4]. split; [done|done| |].
      + rewrite Ec. apply NoDup_app. split_and!; [done| |apply NoDup_singleton].
        intros x Hx Hx'. apply list_elem_of_singleton in Hx' as ->. apply G in Hx as [? ?]. done.
      + intros id. rewrite Ec. intros [?|Hx']%elem_of_app; [by apply A4|].
        apply list_elem_of_singleton in Hx' as ->. by exists me.
    - cbn. by apply prefix_app_r.
    - rewrite Ec. split; [by eauto|]. intros _. apply elem_of_app. right. by left.
    - intros u' [= <-]. cbn. apply elem_of_app. right. by left. }
  unfold mbind, eff_bind, get, put, meanwhile. cbn.
  apply (held_rely _ _ _ _ (others g1)) in H1; [|done].
  change (g <| G_Calls := G_Calls g ++ [u] |>) with g1.
  destruct (ChatCompletion _ _ _ _ _) as [[ds a] h]. cbn. eapply held_rely; [exact H1|]. by apply rely_same.
Qed.

Lemma triple_callUpstream g0 row0 client req od X :
  triple (held g0 row0 None) (callUpstream others (Cl_ID row0) client req od)
    (λ _, held g0 row0 (Some (theCall row0 client od req))) X.
Proof using Hothers.
  unfold callUpstream. destruct od as [onDelta|];
    (eapply triple_bind; [apply triple_chat|]); intros [ds a]; by apply triple_ret.
Qed.

(** ** Closing the row *)

Lemma completed_lost o r r' : lost_or_same r r' → completed o r' = completed o r.
Proof.
  intros [->|(_ & t & ->)]; [done|]. unfold completed.
  destruct (Out_UpstreamStartedAt o), (Out_FirstDeltaAt o), (Out_Usage o); reflexivity.
Qed.

Lemma completed_id o r : Cl_ID (completed o r) = Cl_ID r.
Proof. apply frozen_id, frozen_completed. Qed.

(** The request is over: its row is [row], and it made the call [u]. *)
Record closed g0 (row : Call) (u : upcall Client) g : Prop := {
  cd_ledgered : Ledgered g;
  cd_rows : grows (G_Store g0) (G_Store g);
  cd_calls : G_Calls g0 `prefix_of` G_Calls g;
  cd_mine id : mine me g id ↔ mine me g0 id ∨ id = Cl_ID row;
  cd_new : ¬ mine me g0 (Cl_ID row);
  cd_up : u ∈ G_Calls g;
  cd_row : row ∈ rows g
}.

Definition closing row0 o : Call → Prop := λ row, row = completed o row0 ∨ (¬ reliable l ∧ lost_or_same row0 row).

Lemma held_closed φ g0 row0 u g : held_at φ g0 row0 (Some u) g → ∃ row, φ row ∧ closed g0 row u g.
Proof.
  intros [A B C D E F G U (row & Hr & Hid & Hφ)]. exists row. split; [done|]. split; try done.
  - intros id. rewrite Hid. destruct (decide (id = Cl_ID row0)) as [->|Hne].
    + split; [by right|done].
    + rewrite <- F by done. naive_solver.
  - by rewrite Hid.
  - by apply U.
Qed.

(** The store moved on, with the written columns of every row as they were. *)
Lemma held_store φ ψ g0 row0 c g s' : held_at φ g0 row0 c g →
  map frozen (st_calls s') = map frozen (rows g) →
  (∀ r, r ∈ rows g → Cl_ID r = Cl_ID row0 → φ r → ∃ r', r' ∈ st_calls s' ∧ Cl_ID r' = Cl_ID row0 ∧ ψ r') →
  held_at ψ g0 row0 c (g <| G_Store := s' |>).
Proof.
  intros [[A1 A2 A3 A4] B C D E F G U (r & Hr & Hid & Hφ)] Hf Hr'. split; try done.
  - split; [by eapply ledger_ok_frozen|cbn|done|done]. intros id Ho. unfold call_ids.
    rewrite <- ids_frozen, Hf, ids_frozen. by apply A2.
  - unfold grows in *. cbn. by rewrite Hf.
  - by eapply Hr'.
Qed.

Lemma triple_closeLedger g0 row0 u o X :
  triple (held g0 row0 (Some u)) (closeLedger others l (Cl_ID row0) o)
    (λ _ g, ∃ row, closing row0 o row ∧ closed g0 row u g) X.
Proof using Hothers CallStoreLaws0.
  intros g Hg. apply (held_rely _ _ _ _ (others g)) in Hg; [|done].
  unfold closeLedger, meanwhile, catch, on_store, stored_. generalize dependent (others g). clear g. intros g Hg.
  destruct (CS_CompleteLLMCall l (Cl_ID row0) o (G_Store g)) as [[x|e] s'] eqn:E; cbn.
  - apply complete_ok in E. apply (held_store _ (λ row, row = completed o row0) _ _ _ _ s') in Hg as Hg'.
    + apply held_closed in Hg' as (row & -> & Hc). exists (completed o row0). split; [by left|done].
    + rewrite E. apply update_frozen. intros. apply frozen_completed.
    + intros r Hr Hid Hl. exists (completed o row0). rewrite completed_id. split_and!; [|done..].
      rewrite E. apply elem_of_update_where. exists r. split; [done|].
      by rewrite bool_decide_true, (completed_lost _ _ _ Hl).
  - assert (¬ reliable l) as Hnr.
    { intros Hrel. specialize (Hrel (Cl_ID row0) o (G_Store g)). by rewrite E in Hrel. }
    apply complete_err in E. apply (held_store _ (lost_or_same row0) _ _ _ _ s') in Hg as Hg'.
    + apply held_closed in Hg' as (row & Hl & Hc). exists row. split; [by right|done].
    + by rewrite E.
    + intros r Hr Hid Hl. exists r. by rewrite E.
Qed.

(** What a served request returns, against its row. *)
Definition agrees (row : Call) (o : res (string * error) CompleteResult) : Prop :=
  match o with
  | Ok r =>
      Cmp_LLMCallID r = Cl_ID row ∧ Cmp_Model r = Cl_Model row ∧ Cl_Status row = CallStatusSucceeded ∧ Cl_ErrorClass row = None ∧
      (if Cmp_UsageReported r
       then Cl_PromptTokens row = Some (pricing.Use_PromptTokens (Cmp_Usage r)) ∧
            Cl_CompletionTokens row = Some (pricing.Use_CompletionTokens (Cmp_Usage r)) ∧
            Cl_TotalTokens row = Some (pricing.Use_TotalTokens (Cmp_Usage r)) ∧
            Cl_CacheReadTokens row = Some (pricing.Use_CacheReadTokens (Cmp_Usage r)) ∧
            Cl_CacheWriteTokens row = Some (pricing.Use_CacheWriteTokens (Cmp_Usage r)) ∧
            Cl_UsageSource row = UsageSourceReported
       else Cl_PromptTokens row = None ∧ Cl_CompletionTokens row = None ∧ Cl_TotalTokens row = None ∧
            Cl_UsageSource row = UsageSourceUnavailable)
  | Err (id, e) =>
      id = Cl_ID row ∧ (∃ class err, e = UpstreamError class err) ∧
      Cl_ErrorClass row = Some (ErrorClassFor (Some e)) ∧
      Cl_Status row = failedStatus (ErrorClassFor (Some e)) ∧
      Cl_PromptTokens row = None ∧ Cl_CompletionTokens row = None ∧ Cl_TotalTokens row = None ∧
      Cl_UsageSource row = UsageSourceUnavailable
  end.

Lemma ledgerEntry_frozen_row entry row : recorded entry row → Cl_UsageSource entry = "" →
  Cl_PromptTokens entry = None → Cl_CompletionTokens entry = None → Cl_TotalTokens entry = None →
  Cl_PromptTokens row = None ∧ Cl_CompletionTokens row = None ∧ Cl_TotalTokens row = None ∧
  Cl_UsageSource row = UsageSourceUnavailable.
Proof.
  intros (at_ & id & ->) E1 E2 E3 E4. cbn. unfold opened.
  repeat case_match; cbn in *; try (rewrite E1 in *); naive_solver.
Qed.

Lemma ledgerEntry_blank req r st at_ :
  let entry := ledgerEntry req r st at_ in
  Cl_UsageSource entry = "" ∧ Cl_PromptTokens entry = None ∧ Cl_CompletionTokens entry = None ∧
  Cl_TotalTokens entry = None.
Proof. unfold ledgerEntry, applyRateSnapshot. cbv zeta. case_bool_decide; done. Qed.

Lemma recorded_frozen entry row0 row : recorded entry row0 → frozen row = frozen row0 →
  Cl_Model row = Cl_Model entry.
Proof.
  intros (at_ & id & ->) E. change (Cl_Model (frozen row) = Cl_Model entry). rewrite E. cbn.
  unfold opened. repeat case_match; reflexivity.
Qed.

Lemma ledgerEntry_model req r st at_ : Cl_Model (ledgerEntry req r st at_) = Res_Name r.
Proof. unfold ledgerEntry, applyRateSnapshot. case_bool_decide; reflexivity. Qed.

(** The row says who called, what the call was routed to, and the rates of that
    target; an empty reference is none, and a target without a currency has no
    rates. *)
Record billed req (streaming : bool) (res : Resolution) (row : Call) : Prop := {
  bl_model : Cl_Model row = Res_Name res;
  bl_target : Cl_TargetID row = Tgt_ID (Res_Target res);
  bl_provider : Cl_ProviderType row = Tgt_ProviderType (Res_Target res);
  bl_upstream : Cl_UpstreamModel row = Tgt_UpstreamModel (Res_Target res);
  bl_streaming : Cl_Streaming row = streaming;
  bl_caller : Cl_UserID row = ref_of (CR_UserID req) ∧ Cl_ClientCallID row = CR_ClientCallID req ∧
    Cl_Surface row = CR_Surface req ∧ Cl_SessionID row = CR_SessionID req;
  bl_work : Cl_TaskRunID row = ref_of (CR_TaskRunID req) ∧ Cl_TaskID row = ref_of (CR_TaskID req) ∧
    Cl_ConversationID row = ref_of (CR_ConversationID req);
  bl_currency : Cl_Currency row = Tgt_Currency (Res_Target res);
  bl_rates :
    (Cl_RateInputPerMTok row, Cl_RateCacheReadPerMTok row, Cl_RateCacheWritePerMTok row, Cl_RateOutputPerMTok row)
    = if decide (Tgt_Currency (Res_Target res) = "") then (None, None, None, None)
      else (Some (Tgt_InputPerMTok (Res_Target res)), Some (Tgt_CacheReadPerMTok (Res_Target res)),
            Some (Tgt_CacheWritePerMTok (Res_Target res)), Some (Tgt_OutputPerMTok (Res_Target res)))
}.

Lemma billed_frozen req streaming r row row' :
  frozen row' = frozen row → billed req streaming r row → billed req streaming r row'.
Proof.
  assert (∀ row, billed req streaming r row ↔ billed req streaming r (frozen row)) as K
    by (intros x; split; intros []; by split).
  intros E Hb. apply K. rewrite E. by apply K in Hb.
Qed.

(** The columns opening a row leaves as they were given. *)
Definition given (call row : Call) : Prop :=
  (Cl_Model row, Cl_TargetID row, Cl_ProviderType row, Cl_UpstreamModel row, Cl_Streaming row)
  = (Cl_Model call, Cl_TargetID call, Cl_ProviderType call, Cl_UpstreamModel call, Cl_Streaming call)
  ∧ (Cl_ClientCallID row, Cl_Surface row, Cl_SessionID row, Cl_Currency row)
    = (Cl_ClientCallID call, Cl_Surface call, Cl_SessionID call, Cl_Currency call)
  ∧ (Cl_UserID row, Cl_TaskRunID row, Cl_TaskID row, Cl_ConversationID row)
    = (ref_of (Cl_UserID call), ref_of (Cl_TaskRunID call), ref_of (Cl_TaskID call), ref_of (Cl_ConversationID call))
  ∧ (Cl_RateInputPerMTok row, Cl_RateCacheReadPerMTok row, Cl_RateCacheWritePerMTok row, Cl_RateOutputPerMTok row)
    = (Cl_RateInputPerMTok call, Cl_RateCacheReadPerMTok call, Cl_RateCacheWritePerMTok call, Cl_RateOutputPerMTok call).

Lemma recorded_given call row : recorded call row → given call row.
Proof.
  intros (t & id & ->). destruct call. unfold opened. cbv zeta. cbn.
  repeat match goal with |- context [if ?b then _ else _] => destruct b; cbn end; by split_and!.
Qed.

Lemma applyRateSnapshot_given t call : Cl_Currency call = "" →
  Cl_RateInputPerMTok call = None → Cl_RateCacheReadPerMTok call = None →
  Cl_RateCacheWritePerMTok call = None → Cl_RateOutputPerMTok call = None →
  let call' := applyRateSnapshot t call in
  Cl_Currency call' = Tgt_Currency t ∧
  (Cl_RateInputPerMTok call', Cl_RateCacheReadPerMTok call', Cl_RateCacheWritePerMTok call', Cl_RateOutputPerMTok call')
  = if decide (Tgt_Currency t = "") then (None, None, None, None)
    else (Some (Tgt_InputPerMTok t), Some (Tgt_CacheReadPerMTok t),
          Some (Tgt_CacheWritePerMTok t), Some (Tgt_OutputPerMTok t)).
Proof.
  intros E1 E2 E3 E4 E5. cbn zeta. unfold applyRateSnapshot.
  case_bool_decide as Ec; destruct (decide _); try done. by rewrite E1, E2, E3, E4, E5, Ec.
Qed.

Lemma applyRateSnapshot_rest t call : let call' := applyRateSnapshot t call in
  (Cl_Model call', Cl_TargetID call', Cl_ProviderType call', Cl_UpstreamModel call', Cl_Streaming call')
  = (Cl_Model call, Cl_TargetID call, Cl_ProviderType call, Cl_UpstreamModel call, Cl_Streaming call)
  ∧ (Cl_ClientCallID call', Cl_Surface call', Cl_SessionID call')
    = (Cl_ClientCallID call, Cl_Surface call, Cl_SessionID call)
  ∧ (Cl_UserID call', Cl_TaskRunID call', Cl_TaskID call', Cl_ConversationID call')
    = (Cl_UserID call, Cl_TaskRunID call, Cl_TaskID call, Cl_ConversationID call).
Proof. cbn zeta. unfold applyRateSnapshot. case_bool_decide; by destruct call. Qed.

Lemma ledgerEntry_billed req r streaming at_ row :
  recorded (ledgerEntry req r streaming at_) row → billed req streaming r row.
Proof.
  intros (G1 & G2 & G3 & G4)%recorded_given. unfold ledgerEntry in *.
  match type of G1 with context [applyRateSnapshot ?t ?c] =>
    destruct (applyRateSnapshot_rest t c) as (R1 & R2 & R3);
    destruct (applyRateSnapshot_given t c) as [R4 R5]; [done..|]; set (entry := applyRateSnapshot t c) in * end.
  clearbody entry. cbn in R1, R2, R3. simplify_eq. split; try congruence; split_and!; congruence.
Qed.

(** What the router gave the request, at a state it came to. *)
Definition routedBy req streaming g0 routed : Prop :=
  ∃ rt g1 g2, Svc_Router svc = Some rt ∧ started g0 g1 ∧ route others rt req streaming g1 = (Ok routed, g2).

(** The row and the call of a request that was served. *)
Definition served req streaming g0 (o : res (string * error) CompleteResult) g : Prop :=
  ∃ row u routed, closed g0 row u g ∧ Up_LLMCallID u = Cl_ID row ∧ Up_Request u = upstreamCall req ∧
    Up_Streaming u = streaming ∧ Up_Client u = Rtd_Client routed ∧ routedBy req streaming g0 routed ∧
    billed req streaming (Rtd_Resolution routed) row ∧ (reliable l → agrees row o).

Lemma closing_frozen row0 o row : closing row0 o row → frozen row = frozen row0.
Proof. intros [->|[_ Hl]]; [apply frozen_completed|by apply lost_or_same_frozen]. Qed.

Lemma served_intro req streaming routed at_ row0 g0 o out row u g :
  recorded (ledgerEntry req (Rtd_Resolution routed) streaming at_) row0 → closed g0 row u g → closing row0 out row →
  Up_LLMCallID u = Cl_ID row0 → Up_Request u = upstreamCall req → Up_Streaming u = streaming →
  Up_Client u = Rtd_Client routed → routedBy req streaming g0 routed →
  (reliable l → agrees (completed out row0) o) → served req streaming g0 o g.
Proof.
  intros Hrec Hc Hcl Eu Er Es Ecl Hro Ha. exists row, u, routed. pose proof (closing_frozen _ _ _ Hcl) as Hf. split_and!; try done.
  - rewrite Eu. symmetry. by apply frozen_id.
  - eapply billed_frozen; [exact Hf|]. by eapply ledgerEntry_billed.
  - intros Hrel. destruct Hcl as [->|[? _]]; [by apply Ha|done].
Qed.

Lemma triple_settle req streaming routed at_ g0 row0 od t1 t2 t3 gone answer :
  let r := Rtd_Resolution routed in
  recorded (ledgerEntry req r streaming at_) row0 → streaming = bool_decide (is_Some od) →
  routedBy req streaming g0 routed →
  triple (held g0 row0 (Some (theCall row0 (Rtd_Client routed) od req)))
    (settle others l (Cl_ID row0) r t1 t2 t3 gone answer)
    (λ a g, served req streaming g0 (Ok a) g) (λ e g, served req streaming g0 (Err e) g).
Proof using Hothers CallStoreLaws0.
  intros r Hrec Hst Hro. destruct (ledgerEntry_blank req r streaming at_) as (B1 & B2 & B3 & B4).
  destruct (ledgerEntry_frozen_row _ _ Hrec B1 B2 B3 B4) as (R1 & R2 & R3 & R4).
  unfold settle. destruct answer as [comp|err].
  - eapply triple_bind; [apply triple_closeLedger|]. intros ?. apply triple_ret. intros g (row & Hcl & Hc).
    eapply served_intro; try done. intros _. cbn. rewrite !completed_id. split_and!; [done| | | |].
    + by rewrite (recorded_frozen _ _ _ Hrec (frozen_completed _ _)), ledgerEntry_model.
    + unfold completed. by destruct t2, (callUsage _).
    + unfold completed. by destruct t2, (callUsage _).
    + unfold callUsage. destruct (reported _); unfold completed; destruct t2; by cbn.
  - eapply triple_bind; [apply triple_closeLedger|]. intros ?. apply triple_fail. intros g (row & Hcl & Hc).
    eapply served_intro; try done. intros _. unfold agrees.
    rewrite completed_id. split_and!; [done|by eauto|..]; unfold completed; destruct t2; by cbn.
Qed.

(** ** A whole request *)

Lemma triple_route g0 rt req streaming : Svc_Router svc = Some rt →
  triple (started g0) (route others rt req streaming)
    (λ routed g, routedBy req streaming g0 routed ∧ started g0 g) (refused g0).
Proof using Hothers Htame.
  intros Hrt g Hg. assert (blank (route others rt req streaming)) as Hb
    by (unfold route, ClientFor, ClientForTarget, clientForTarget; blank_walk).
  pose proof (triple_started g0 _ (steps_route rt req streaming Hrt) Hb g Hg) as T. destruct (route _ _ _ _ _) as [[routed|e] g'] eqn:E; [|done]. split; [|done]. by exists rt, g, g'.
Qed.

Lemma triple_run req od g0 : Svc_Ledger svc = Some l →
  triple (started g0) (run others me svc req od)
    (λ a g, served req (bool_decide (is_Some od)) g0 (Ok a) g)
    (λ e g, refused g0 e g ∨ served req (bool_decide (is_Some od)) g0 (Err e) g).
Proof using Hothers Htame CallStoreLaws0.
  intros Hl. unfold run. rewrite Hl.
  assert (∀ A (m : GW Client S A), steps (rely me) m → blank m →
    triple (started g0) m (λ _, started g0)
      (λ e g, refused g0 e g ∨ served req (bool_decide (is_Some od)) g0 (Err e) g)) as K.
  { intros A m Hm Hb. eapply triple_err; [by apply triple_started|]. by left. }
  assert (∀ e, triple (started g0) (refuse e : GW Client S CompleteResult)
    (λ a g, served req (bool_decide (is_Some od)) g0 (Ok a) g)
    (λ e g, refused g0 e g ∨ served req (bool_decide (is_Some od)) g0 (Err e) g)) as Kr.
  { intros e. apply triple_fail. intros g Hg. left. by split. }
  destruct (Svc_Router svc) as [rt|] eqn:Hrt; [|apply Kr]. destruct (CR_Messages req); [apply Kr|].
  cbv zeta. eapply triple_bind; [apply K; [apply steps_rejectDuplicate|unfold rejectDuplicate; blank_walk]|]. intros ?.
  eapply triple_bind; [eapply triple_err; [by apply triple_route|by left]|].
  intros routed. apply triple_pure. intros Hro. eapply triple_bind; [apply K; [apply steps_checkQuota|unfold checkQuota; blank_walk]|]. intros ?.
  eapply triple_bind; [apply K; [apply steps_clock|unfold clock; blank_walk]|]. intros at_.
  eapply triple_bind; [eapply triple_err; [apply triple_openLedger|by left]|]. intros row0.
  apply triple_pure. intros Hrec.
  eapply triple_bind; [apply triple_held; [apply steps_clock|done]|]. intros t1.
  eapply triple_bind; [apply triple_callUpstream|]. intros [t2 answer].
  eapply triple_bind; [apply triple_held; [apply steps_clock|done]|]. intros t3.
  eapply triple_bind; [apply triple_held; [apply steps_gets, _|done]|]. intros gone.
  eapply triple_err; [by eapply triple_settle|]. by right.
Qed.
End Laws.

(** ** What others do *)

Section Others.
Context {Client S : Type}.
Notation Gateway := (gateway.Gateway Client S).
Implicit Types g : Gateway.

(** A step of the request [he], or of a sweep that declares a run lost. *)
Inductive other_step (he : nat) : relation Gateway :=
| other_quiet g g' :
    rows g' = rows g → G_Calls g' = G_Calls g → G_Owners g' = G_Owners g → other_step he g g'
| other_open g l call row s' : CallStoreLaws l → CS_OpenLLMCall l call (G_Store g) = (Ok row, s') →
    other_step he g (g <| G_Store := s' |> <| G_Owners := <[Cl_ID row := he]> (G_Owners g) |>)
| other_call g u : mine he g (Up_LLMCallID u) → Up_LLMCallID u ∉ called g →
    other_step he g (g <| G_Calls := G_Calls g ++ [u] |>)
| other_close g id o :
    mine he g id → other_step he g (g <| G_Store := (CompleteLLMCall id o (G_Store g)).2 |>)
| other_lost g run t :
    other_step he g (g <| G_Store := (SettleOrphanedLLMCallsForRun run t (G_Store g)).2 |>).

(** Rows others update, with the written columns kept. *)
Lemma rely_update me g s' : map frozen (st_calls s') = map frozen (rows g) →
  (∀ r, r ∈ rows g → mine me g (Cl_ID r) → ∃ r', r' ∈ st_calls s' ∧ lost_or_same r r') →
  rely me g (g <| G_Store := s' |>).
Proof.
  intros Hf Ho [A1 A2 A3 A4]. split; try done.
  - split; [by eapply ledger_ok_frozen|cbn|done|done]. intros id Hid. unfold call_ids.
    rewrite <- ids_frozen, Hf, ids_frozen. by apply A2.
  - unfold grows. cbn. by rewrite Hf.
Qed.

Lemma other_step_rely me he g g' : he ≠ me → other_step he g g' → rely me g g'.
Proof.
  intros Hne. destruct 1 as [g g' E1 E2 E3|g l call row s' Hl E|g u Hu Hc|g id o Hid|g run t].
  - by apply rely_same.
  - intros [A1 A2 A3 A4]. apply open_ok in E as (Es & Hid & Hc & _).
    assert (G_Owners g !! Cl_ID row = None) as Hnone.
    { destruct (_ !! _) eqn:X; [|done]. exfalso. apply Hid, A2. eauto. }
    split; try done.
    + split; cbn; [by eapply ledger_ok_open| |done|].
      * intros id. unfold call_ids. cbn. rewrite Es, map_app. intros [?|[_ Ho]]%lookup_insert_is_Some.
        -- subst. apply elem_of_app. right. by left.
        -- apply elem_of_app. left. by apply A2.
      * intros id Hin. apply lookup_insert_is_Some. destruct (decide (Cl_ID row = id)); [by left|right; auto].
    + unfold grows. cbn. rewrite Es, map_app. by apply prefix_app_r.
    + intros id. unfold mine. cbn. destruct (decide (Cl_ID row = id)) as [<-|Hn]; [|by rewrite lookup_insert_ne].
      rewrite lookup_insert_eq, Hnone. split; congruence.
    + intros r Hr _. exists r. split; [|by left]. unfold rows. cbn. rewrite Es. apply elem_of_app. by left.
  - intros [A1 A2 A3 A4]. assert (called (g <| G_Calls := G_Calls g ++ [u] |>) = called g ++ [Up_LLMCallID u]) as Ec
      by (unfold called; cbn; by rewrite map_app).
    split; try done.
    + split; [done|done| |]; rewrite Ec.
      * apply NoDup_app. split_and!; [done| |apply NoDup_singleton].
        intros x Hx Hx'. apply list_elem_of_singleton in Hx' as ->. done.
      * intros id [Hin|Hin]%elem_of_app; [by apply A4|]. apply list_elem_of_singleton in Hin as ->. by exists he.
    + cbn. by apply prefix_app_r.
    + intros id Hm. rewrite Ec. intros [Hin|Hin]%elem_of_app; [done|].
      apply list_elem_of_singleton in Hin as ->. unfold mine in *. congruence.
    + intros r Hr _. exists r. split; [done|by left].
  - rewrite CompleteLLMCall_calls. apply rely_update; cbn.
    + apply update_frozen. intros. apply frozen_completed.
    + intros r Hr Hm. exists r. split; [|by left]. apply elem_of_update_where. exists r. split; [done|].
      case_bool_decide as E; [|done]. subst. unfold mine in *. congruence.
  - apply rely_update; [apply SettleOrphaned_frozen|]. intros r Hr _.
    unfold SettleOrphanedLLMCallsForRun. eff_unfold. destruct (resolves _ _ run); cbn; [|exists r; by split; [|left]].
    exists (if orphaned run r then run_lost t r else r). split; [apply elem_of_update_where; by exists r|].
    destruct (orphaned run r) eqn:E; [|by left]. right.
    unfold orphaned in E. apply andb_true_iff in E as [_ E%bool_decide_eq_true]. by split; [|exists t].
Qed.
End Others.
