(* ===== verification/GatewayClients.v ===== *)
(** * GatewayClients: how a catalog target becomes a provider client

    The wiring of internal/bootstrap/llmgateway.go: the catalog that serves the
    configured conversation model beside the stored ones, and the factory that
    turns a credential reference into a credential.  The theorem is about key
    rotation: a cached client never outlives the key it was built with. *)

From Stdlib Require Import Ascii String.
From S2P Require Import Prelude EffLogic Text Json TaskCore WorkflowCore LedgerCore Store TaskStore LedgerStore.
From S2P Require Import SessionCore Pricing GatewayCatalog SessionMeta AgentContext AgentNotes AgentCore Gateway LedgerStore GatewayLaws.
From stdpp Require Import gmap strings.
Import Prelude.
Import db coregw llmgateway gateway.
Local Open Scope Z_scope.
Local Open Scope buildmax_scope.

Module bootstrap.
Local Open Scope string_scope.
Local Open Scope list_scope.
Local Open Scope Z_scope.

(** ** Providers: internal/core/llm/provider.go *)

Definition ProviderOpenAICompatible : string := "openai_compatible".
Definition ProviderOpenAI : string := "openai".
Definition ProviderAnthropic : string := "anthropic".
Definition ProviderOllama : string := "ollama".

Definition Providers : list string := [ProviderOpenAICompatible; ProviderOpenAI; ProviderAnthropic; ProviderOllama].

Definition KnownProvider (name : string) : bool := bool_decide (name ∈ Providers).
Definition ProviderNeedsCredential (name : string) : bool := name != ProviderOllama.

(** ** The catalog of a server *)

Definition conversationTargetID : string := "conversation".
Definition conversationCredentialRef : string := "conversation.model.api_key".

Record bootstrapCatalog : Type := mkBootstrapCatalog {
  BC_derived : option Target;
  BC_stored : option Catalog
}.

Definition unlessStored (c : bootstrapCatalog) (f : Catalog → CR Target) : CR Target :=
  match BC_stored c with None => fail ErrTargetNotFound | Some s => f s end.

Definition catalog (c : bootstrapCatalog) : Catalog := mkCatalog
  (λ id,
    match BC_derived c with
    | Some d => if id == conversationTargetID then mret d else unlessStored c (λ s, Cat_Target s id)
    | None => unlessStored c (λ s, Cat_Target s id)
    end)
  (λ name,
    match BC_derived c with
    | Some d => if Tgt_Name d == name then mret d else unlessStored c (λ s, Cat_TargetByName s name)
    | None => unlessStored c (λ s, Cat_TargetByName s name)
    end)
  (let out := option_list (BC_derived c) in
   match BC_stored c with
   | None => mret out
   | Some s =>
       stored ← Cat_List s;
       mret (out ++ List.filter (λ t, match BC_derived c with Some d => Tgt_Name t != Tgt_Name d | None => true end)
                      stored)
   end).

(** ** Clients *)

(** The [llm.Config] a client is built from. *)
Record ClientConfig : Type := mkClientConfig {
  Cfg_Provider : string;
  Cfg_APIKey : string;
  Cfg_BaseURL : string;
  Cfg_Model : string;
  Cfg_ContextWindow : Z;
  Cfg_MaxTokens : Z;
  Cfg_Reasoning : string;
  Cfg_CacheMode : string;
  Cfg_CacheTTL : string;
  Cfg_Vision : bool;
  Cfg_Surface : string;
  Cfg_CallTimeout : Z
}.

Section Factory.
Context {Client : Type} `{Faults}.
(** [llm.NewClient]; the store's cipher; the key of server.yaml. *)
Context (NewClient : ClientConfig → res fault Client) (credentialCipher : option modeldb.Cipher).
Context (conversationKey : string).

(** An error of this package: no [errors.Is] finds anything in it. *)
Definition plain (text : string) : error := Foreign (mkFault false false false false false text).

Definition resolveCredential (target : Target) : CR string :=
  let required := ProviderNeedsCredential (Tgt_ProviderType target) in
  if Tgt_CredentialRef target == conversationCredentialRef then
    if (conversationKey == "") && required then fail (plain "conversation.model.api_key is not set")
    else mret conversationKey
  else
    key ← stored_ (modeldb.LLMModelCredential credentialCipher (Tgt_CredentialRef target));
    if (key == "") && required then fail (plain "no credential stored") else mret key.

Definition clientConfig (target : Target) (apiKey : string) : ClientConfig := {|
  Cfg_Provider := Tgt_ProviderType target; Cfg_APIKey := apiKey; Cfg_BaseURL := Tgt_Endpoint target;
  Cfg_Model := Tgt_UpstreamModel target; Cfg_ContextWindow := Tgt_ContextWindow target;
  Cfg_MaxTokens := Tgt_MaxTokens target; Cfg_Reasoning := Tgt_Reasoning target;
  Cfg_CacheMode := Tgt_CacheMode target; Cfg_CacheTTL := Tgt_CacheTTL target; Cfg_Vision := Tgt_Vision target;
  Cfg_Surface := CallSurfaceServer; Cfg_CallTimeout := Tgt_CallTimeout target |}.

Definition newClientFactory (target : Target) : CR (option Client) :=
  if negb (KnownProvider (Tgt_ProviderType target)) then fail (plain "unsupported provider")
  else
    apiKey ← resolveCredential target;
    match NewClient (clientConfig target apiKey) with
    | Ok client => mret (Some client)
    | Err e => fail (Foreign e)
    end.

End Factory.
End bootstrap.
Import bootstrap.

(** ** Keys and clients *)

Section Rotation.
Context {Client S : Type} `{Faults} (NewClient : ClientConfig → res fault Client).
Context (cipher : modeldb.Cipher) (conversationKey : string).
Notation Gateway := (gateway.Gateway Client S).
Implicit Types g : Gateway.

Definition models g : list llmModelRow := st_models (G_Store g).
Definition row_id (r : llmModelRow) : string := Mod_ID (LM_Model r).
Definition row_revision (r : llmModelRow) : Z := Mod_UpdatedAt (LM_Model r).

(** The key a row's sealed credential opens to. *)
Definition row_key (r : llmModelRow) : res string string :=
  match LM_APIKeySealed r with None => Ok ""%string | Some blob => modeldb.OpenValue blob end.

(** A client that was built for a target with this key. *)
Definition built (c : Client) (k : clientKey) (apiKey : string) : Prop :=
  ∃ t, keyOf t = k ∧ NewClient (clientConfig t apiKey) = Ok c.

(** A cached client belongs to a stored row, is never ahead of it, and holds the
    row's key unless the row has moved on. *)
Record current g : Prop := {
  cu_ids : NoDup (map row_id (models g));
  cu_names : ∀ r, r ∈ models g → row_id r ≠ conversationCredentialRef;
  cu_cached id e : G_Clients g !! id = Some e → ∃ r, r ∈ models g ∧ row_id r = id ∧
    Key_revision (Cac_key e) ≤ row_revision r ∧
    (Key_revision (Cac_key e) = row_revision r → ∃ k, row_key r = Ok k ∧ built (Cac_client e) (Cac_key e) k)
}.

Lemma row_unique g r r' : current g → r ∈ models g → r' ∈ models g → row_id r = row_id r' → r = r'.
Proof.
  intros [Hn _ _] Hr Hr' E. apply list_elem_of_lookup in Hr as [i Hi], Hr' as [j Hj].
  assert (i = j) as ->; [|congruence].
  eapply (NoDup_lookup _ i j (row_id r) Hn); rewrite list_lookup_fmap; [by rewrite Hi|by rewrite Hj, E].
Qed.

(** Reads. *)
Definition unchanged : relation Store := λ s s', s' = s.

#[export] Instance unchanged_preorder : PreOrder unchanged.
Proof. split; [by intros s|]. unfold unchanged. intros a b c E1 E2. congruence. Qed.

(** *** The stored catalog *)

Lemma targetFromModel_ok m t : targetFromModel m = Ok t →
  Tgt_ID t = Mod_ID m ∧ Tgt_CredentialRef t = Mod_ID m ∧ Tgt_Revision t = Mod_UpdatedAt m ∧ Tgt_Name t = Mod_Name m.
Proof. unfold targetFromModel. destruct (validateTarget _); [|done]. by intros [= <-]. Qed.

Definition from_store (s : Store) (t : Target) : Prop := ∃ r, r ∈ st_models s ∧ row_id r = Tgt_ID t ∧
  Tgt_CredentialRef t = Tgt_ID t ∧ Tgt_Revision t = row_revision r.

Lemma stored_find p s t s' :
  (m ← stored_ (modeldb.find_model p); from_row m) s = (Ok t, s') → s' = s ∧ from_store s t.
Proof.
  unfold stored_, modeldb.find_model, gets, mbind, eff_bind.
  destruct (take_where _ (st_models s)) as [r|] eqn:E; cbn; [|by intros X%fail_ok].
  unfold lift. intros [= Ht <-]. split; [done|].
  apply take_where_Some in E as [Hr _]. apply targetFromModel_ok in Ht as (E1 & E2 & E3 & _).
  exists r. split_and!; [done|by rewrite E1|congruence|by rewrite E3].
Qed.

Lemma StoreTarget_ok id s t s' : StoreTarget id s = (Ok t, s') → s' = s ∧ from_store s t.
Proof.
  unfold StoreTarget, modeldb.GetLLMModel. case_bool_decide; [|apply stored_find].
  unfold stored_, mret, eff_ret, mbind, eff_bind. intros X. by apply fail_ok in X.
Qed.

Lemma StoreTargetByName_ok name s t s' : StoreTargetByName name s = (Ok t, s') → s' = s ∧ from_store s t.
Proof.
  unfold StoreTargetByName, modeldb.GetLLMModelByName. case_bool_decide; [|apply stored_find].
  unfold stored_, mret, eff_ret, mbind, eff_bind. intros X. by apply fail_ok in X.
Qed.

Lemma StoreList_pure s r s' : StoreList s = (r, s') → s' = s.
Proof. unfold StoreList, stored_, modeldb.ListLLMModels, gets, mbind, eff_bind. by intros [= _ <-]. Qed.

Definition stored_resolver (dflt : string) : option Resolver := Some (mkResolver (Some StoreCatalog) dflt).

Lemma Resolve_stored dflt req s res s' : Resolve (stored_resolver dflt) req s = (Ok res, s') →
  s' = s ∧ from_store s (Res_Target res) ∧ Tgt_Enabled (Res_Target res) = true.
Proof.
  unfold Resolve, stored_resolver, catalog_of. cbn. intros H1.
  apply eff_bind_ok in H1 as (name & s1 & Hn & H1).
  assert (s1 = s) as ->.
  { revert Hn. case_bool_decide; [|by intros [-> ->]%ret_ok]. unfold defaultName. cbn.
    case_bool_decide; cbn; [|by intros [-> ->]%ret_ok].
    rewrite eff_bind_ok. intros (ts & s2 & ->%StoreList_pure & [_ ->]%or_fail_ok). done. }
  apply eff_bind_ok in H1 as (t & s1 & [-> Ht]%StoreTargetByName_ok & H1).
  apply eff_bind_ok in H1 as ([] & s1 & Hc & [-> ->]%ret_ok). unfold lift in Hc. injection Hc as Hc ->.
  split_and!; [done..|]. cbn. unfold checkTarget in Hc. by destruct (Tgt_Enabled t).
Qed.

(** *** The factory *)

Definition factory : Target → CR (option Client) := newClientFactory NewClient (Some cipher) conversationKey.

Lemma credential_ok id s k s' r : NoDup (map row_id (st_models s)) → r ∈ st_models s → row_id r = id →
  stored_ (modeldb.LLMModelCredential (Some cipher) id) s = (Ok k, s') → s' = s ∧ row_key r = Ok k.
Proof.
  intros Hn Hr Hid. unfold stored_, modeldb.LLMModelCredential. case_bool_decide; [done|].
  unfold gets, mbind, eff_bind. destruct (take_where _ (st_models s)) as [r'|] eqn:E; [|done].
  apply take_where_Some in E as [Hr' Hid'%bool_decide_eq_true].
  assert (r' = r) as ->.
  { apply list_elem_of_lookup in Hr as [i Hi], Hr' as [j Hj]. assert (i = j) as ->; [|congruence].
    eapply (NoDup_lookup _ i j id Hn); rewrite list_lookup_fmap; [by rewrite Hi, <- Hid|].
    rewrite Hj. cbn. by rewrite <- Hid'. }
  unfold row_key. destruct (LM_APIKeySealed r) as [blob|]; [|by intros [= <- <-]].
  destruct (modeldb.OpenValue blob); by intros [= <- <-].
Qed.

Lemma factory_ok t s oc s' r : NoDup (map row_id (st_models s)) → r ∈ st_models s → row_id r = Tgt_ID t →
  Tgt_CredentialRef t = Tgt_ID t → Tgt_ID t ≠ conversationCredentialRef →
  factory t s = (Ok oc, s') →
  s' = s ∧ ∃ c k, oc = Some c ∧ row_key r = Ok k ∧ NewClient (clientConfig t k) = Ok c.
Proof.
  intros Hn Hr Hid Href Hne. unfold factory, newClientFactory. destruct (KnownProvider _); cbn; [|done].
  intros H1. apply eff_bind_ok in H1 as (k & s1 & Hk & H1). unfold resolveCredential in Hk.
  rewrite Href, bool_decide_false in Hk by done.
  apply eff_bind_ok in Hk as (k' & s2 & Hk & Hk').
  eapply credential_ok in Hk as [-> Hk]; [|done..].
  destruct (_ && _); [by apply fail_ok in Hk'|]. apply ret_ok in Hk' as [-> ->].
  destruct (NewClient _) as [c|] eqn:Ec; [|by apply fail_ok in H1]. apply ret_ok in H1 as [-> ->].
  split; [done|]. by exists c, k'.
Qed.
Lemma factory_same t s o s' : factory t s = (o, s') → s' = s.
Proof.
  assert (steps unchanged (factory t)) as K; [|intros E; specialize (K s); by rewrite E in K].
  unfold factory, newClientFactory, resolveCredential, modeldb.LLMModelCredential.
  repeat first [apply steps_bind; [apply _| |intros ?] | apply steps_stored_; [apply _|] | apply steps_ret, _
               | apply steps_fail, _ | apply steps_gets, _ | case_match].
Qed.

Lemma Resolve_err dflt req s e s' : Resolve (stored_resolver dflt) req s = (Err e, s') → s' = s.
Proof.
  assert (steps unchanged (Resolve (stored_resolver dflt) req)) as K; [|intros E; specialize (K s); by rewrite E in K].
  unfold Resolve, stored_resolver, catalog_of. cbn.
  unfold defaultName, StoreTargetByName, modeldb.GetLLMModelByName, modeldb.find_model, StoreList,
    modeldb.ListLLMModels, from_row. cbn. unfold StoreList, modeldb.ListLLMModels.
  repeat first [apply steps_bind; [apply _| |intros ?] | apply steps_stored_; [apply _|] | apply steps_ret, _
               | apply steps_fail, _ | apply steps_gets, _ | apply steps_lift, _ | apply steps_or_fail, _ | case_match].
Qed.

(** *** Requests *)

(** Stored rows stay, and their revisions do not go back. *)
Definition moves : relation Gateway := λ g g', ∀ r, r ∈ models g →
  ∃ r', r' ∈ models g' ∧ row_id r' = row_id r ∧ row_revision r ≤ row_revision r'.

(** A target some row stood for: the row is there, at that revision or later. *)
Definition resolved (t : Target) g : Prop := Tgt_CredentialRef t = Tgt_ID t ∧
  ∃ r, r ∈ models g ∧ row_id r = Tgt_ID t ∧ Tgt_Revision t ≤ row_revision r.

(** The client has the key of the row, if the row is as it was resolved. *)
Definition holds_key (t : Target) (c : Client) g : Prop := ∃ r, r ∈ models g ∧ row_id r = Tgt_ID t ∧
  (row_revision r = Tgt_Revision t → ∃ k, row_key r = Ok k ∧ built c (keyOf t) k).

Context (others : Gateway → Gateway).
Hypothesis Hothers : ∀ g, current g → current (others g) ∧ moves g (others g).

Lemma resolved_moves t g g' : resolved t g → moves g g' → resolved t g'.
Proof.
  intros [E (r & Hr & Hid & Hrev)] Hm. destruct (Hm r Hr) as (r' & Hr' & Hid' & Hrev').
  split; [done|]. exists r'. split_and!; [done|congruence|lia].
Qed.

Lemma from_store_resolved t g : from_store (G_Store g) t → resolved t g.
Proof. intros (r & Hr & Hid & Href & Hrev). split; [done|]. exists r. split_and!; [done..|lia]. Qed.

Lemma current_cached g t c k : current g → resolved t g →
  (∀ r, r ∈ models g → row_id r = Tgt_ID t → row_key r = Ok k) → built c (keyOf t) k →
  current (g <| G_Clients := <[Tgt_ID t := mkCachedClient (keyOf t) c]> (G_Clients g) |>).
Proof.
  intros [A B C] [_ (r & Hr & Hid & Hrev)] Hk Hb. split; [done..|]. intros id e. cbn.
  destruct (decide (Tgt_ID t = id)) as [<-|Hne].
  - rewrite lookup_insert_eq. intros [= <-]. exists r. split_and!; [done..|]. intros _. exists k. auto.
  - rewrite lookup_insert_ne by done. apply C.
Qed.

Lemma store_self g : g <| G_Store := G_Store g |> = g.
Proof. by destruct g. Qed.

Lemma triple_clientForTarget t :
  triple (λ g, current g ∧ resolved t g) (clientForTarget others factory t)
    (λ c g, current g ∧ holds_key t c g) (λ _, current).
Proof using Hothers.
  intros g [Hc Hres]. destruct (Hothers g Hc) as [Hc' Hm]. apply (resolved_moves _ _ (others g)) in Hres; [|done].
  clear Hm. unfold clientForTarget, meanwhile. generalize dependent (others g). clear g Hc. intros g Hres Hc.
  unfold mbind, eff_bind, get. cbn.
  pose proof Hres as [Href (r & Hr & Hid & Hrev)].
  assert (match factory t (G_Store g) with
    | (Ok oc, s') => s' = G_Store g ∧ ∃ c k, oc = Some c ∧ row_key r = Ok k ∧ NewClient (clientConfig t k) = Ok c
    | (Err _, s') => s' = G_Store g end) as Hf.
  { destruct (factory t (G_Store g)) as [[oc|e] s'] eqn:Ef.
    - eapply factory_ok; [apply Hc|exact Hr|done|done| |exact Ef]. rewrite <- Hid. by apply Hc.
    - by eapply factory_same. }
  pose proof (store_self g) as Eg.
  destruct (G_Clients g !! Tgt_ID t) as [e|] eqn:Ee; [case_bool_decide as Ek|].
  1: { cbn. split; [done|]. destruct (cu_cached _ Hc _ _ Ee) as (r' & Hr' & Hid' & _ & Hb).
       exists r'. split_and!; [done..|]. rewrite <- Ek. intros Er. apply Hb. by rewrite Ek. }
  all: unfold on_store; destruct (factory t (G_Store g)) as [[oc|e'] s']; [|subst; by rewrite Eg].
  all: destruct Hf as (-> & c & k & -> & Hk & Hb); rewrite Eg; cbn; split;
    [eapply current_cached; [done|done| |by exists t]; intros r' Hr' Hid';
       rewrite (row_unique g r' r); [done..|congruence]
    |exists r; split_and!; [done..|]; intros _; exists k; split; [done|by exists t]].
Qed.

Definition router dflt : Router Client := mkRouter (stored_resolver dflt) (Some factory).

Lemma triple_ClientFor dflt req :
  triple current (ClientFor others (router dflt) req)
    (λ routed g, current g ∧ holds_key (Res_Target (Rtd_Resolution routed)) (Rtd_Client routed) g)
    (λ _, current).
Proof using Hothers.
  unfold ClientFor. cbn [Rt_Factory Rt_Resolver router].
  eapply triple_bind with (R := λ res g, current g ∧ resolved (Res_Target res) g).
  - intros g Hc. destruct (Hothers g Hc) as [Hc' _]. unfold meanwhile, on_store. cbv beta.
    generalize dependent (others g). clear g Hc. intros g Hc.
    pose proof (store_self g) as Eg.
    destruct (Resolve _ req (G_Store g)) as [[res|e] s'] eqn:E.
    + apply Resolve_stored in E as (-> & Hf & _). rewrite Eg. split; [done|by apply from_store_resolved].
    + apply Resolve_err in E as ->. by rewrite Eg.
  - intros res. eapply triple_bind; [apply triple_clientForTarget|]. intros c. by apply triple_ret.
Qed.

(** *** Key rotation *)

(** What an edit of one row at a later time keeps. *)
Lemma current_update g s' id f : current g →
  (∀ r, row_id (f r) = row_id r) →
  (∀ r, r ∈ models g → row_id r = id → row_revision r < row_revision (f r)) →
  st_models s' = update_where (λ r, row_id r == id) f (models g) →
  current (g <| G_Store := s' |>).
Proof.
  intros [A B C] Hid Hrev E. split; unfold models; cbn; rewrite E.
  - by rewrite update_where_map.
  - intros r (r0 & Hr0 & ->)%elem_of_update_where. case_bool_decide; [rewrite Hid|]; by apply B.
  - intros id' e He. destruct (C id' e He) as (r & Hr & Hr' & Hle & Hb).
    destruct (decide (row_id r = id)) as [Eid|Hne].
    + exists (f r). split_and!.
      * apply elem_of_update_where. exists r. by rewrite bool_decide_true.
      * by rewrite Hid.
      * specialize (Hrev r Hr Eid). lia.
      * specialize (Hrev r Hr Eid). lia.
    + exists r. split_and!; [|done..]. apply elem_of_update_where. exists r. by rewrite bool_decide_false.
Qed.

Definition newer id g : Prop := ∀ r, r ∈ models g → row_id r = id → row_revision r < st_clock (G_Store g).

Lemma sealCredential_ok c k s o s' : modeldb.sealCredential c k s = (Ok o, s') →
  ∃ n, s' = s <| st_fresh := n |> ∧
  match o with None => k = ""%string | Some b => ∃ ci m, c = Some ci ∧ modeldb.SealValue m k = Ok b end.
Proof.
  unfold modeldb.sealCredential. case_bool_decide as E.
  - intros [-> ->]%ret_ok. exists (st_fresh s). split; [by destruct s|done].
  - destruct c as [ci|]; [|by intros X%fail_ok]. intros X. apply eff_bind_ok in X as (s1 & s2 & [-> ->]%get_ok & X).
    apply eff_bind_ok in X as ([] & s3 & ->%put_ok & X).
    destruct (modeldb.SealValue _ k) as [b|] eqn:Eb; [|by apply fail_ok in X]. apply ret_ok in X as [-> ->].
    eauto 10.
Qed.

Lemma update_models_ok id f s u s' : modeldb.update_models id f s = (Ok u, s') →
  st_models s' = update_where (λ r, row_id r == id) f (st_models s) ∧ ∃ r, r ∈ st_models s ∧ row_id r = id.
Proof.
  unfold modeldb.update_models. eff_unfold. destruct (_ =? 0)%nat eqn:E; cbn; [done|]. intros [= _ <-]. split; [done|].
  apply Nat.eqb_neq in E. unfold matching in E.
  destruct (List.filter _ (st_models s)) as [|r rs] eqn:Ef; [done|].
  assert (In r (List.filter (λ r, Mod_ID (LM_Model r) == id) (st_models s))) as Hin by (rewrite Ef; by left).
  apply filter_In in Hin as [Hin Hid%bool_decide_eq_true]. exists r. split; [by apply list_elem_of_In|done].
Qed.

Definition opens : Prop := ∀ n k b, modeldb.SealValue n k = Ok b → modeldb.OpenValue b = Ok k.

Lemma SetLLMModelCredential_current id apiKey g u s' : opens → current g → newer id g →
  modeldb.SetLLMModelCredential (Some cipher) id apiKey (G_Store g) = (Ok u, s') →
  current (g <| G_Store := s' |>) ∧ ∃ r, r ∈ st_models s' ∧ row_id r = id ∧ row_key r = Ok apiKey.
Proof.
  intros Ho Hc Hn H1. unfold modeldb.SetLLMModelCredential in H1.
  apply eff_bind_ok in H1 as (o & s1 & (n & -> & Hs)%sealCredential_ok & H1).
  apply eff_bind_ok in H1 as (at_ & s1 & [-> ->]%gets_ok & H1).
  apply update_models_ok in H1 as (E & r & Hr & Hid). cbn in E, Hr. split.
  - eapply current_update; [done| | |exact E]; cbn; [done|]. intros r' Hr' Hid'. by apply (Hn r').
  - exists (r <| LM_Model := LM_Model r <| Mod_UpdatedAt := st_clock (G_Store g) |> |> <| LM_APIKeySealed := o |>).
    split_and!; [|done|].
    + rewrite E. apply elem_of_update_where. exists r. by rewrite bool_decide_true.
    + unfold row_key. cbn. destruct o as [b|]; [|by rewrite Hs]. destruct Hs as (ci & m & [= <-] & Hb).
      by eapply Ho.
Qed.

Lemma SetLLMModelEnabled_current id enabled g u s' : current g → newer id g →
  modeldb.SetLLMModelEnabled id enabled (G_Store g) = (Ok u, s') → current (g <| G_Store := s' |>).
Proof.
  intros Hc Hn H1. unfold modeldb.SetLLMModelEnabled in H1.
  apply eff_bind_ok in H1 as (at_ & s1 & [-> ->]%gets_ok & H1).
  apply update_models_ok in H1 as (E & _). eapply current_update; [done| | |exact E]; cbn; [done|].
  intros r' Hr' Hid'. by apply (Hn r').
Qed.

(** A row no one edits is resolved as it is. *)
Lemma triple_ClientFor_row dflt req r : (∀ g, r ∈ models g → r ∈ models (others g)) →
  triple (λ g, current g ∧ r ∈ models g) (ClientFor others (router dflt) req)
    (λ routed g, r ∈ models g ∧ let t := Res_Target (Rtd_Resolution routed) in
       Tgt_ID t = row_id r → Tgt_Revision t = row_revision r) (λ _ _, True).
Proof using Hothers.
  intros Hkeep. unfold ClientFor. cbn [Rt_Factory Rt_Resolver router].
  eapply triple_bind with (R := λ res g, (current g ∧ r ∈ models g) ∧
    (Tgt_ID (Res_Target res) = row_id r → Tgt_Revision (Res_Target res) = row_revision r)).
  - intros g [Hc Hr]. destruct (Hothers g Hc) as [Hc' _]. apply Hkeep in Hr. unfold meanwhile, on_store.
    destruct (Resolve _ req _) as [[res|e] s'] eqn:E; [|done].
    apply Resolve_stored in E as (-> & (r' & Hr' & Hid' & _ & Hrev) & _). rewrite store_self. split; [done|].
    intros Et. rewrite Hrev. f_equal. eapply row_unique; [done..|congruence].
  - intros res. eapply triple_bind with (R := λ _ g, r ∈ models g ∧
      (Tgt_ID (Res_Target res) = row_id r → Tgt_Revision (Res_Target res) = row_revision r)); [|intros; by apply triple_ret].
    intros g [[Hc Hr] Ht]. apply Hkeep in Hr. unfold clientForTarget, meanwhile, mbind, eff_bind, get, on_store. cbn.
    destruct (G_Clients (others g) !! _) as [e|]; [case_bool_decide; [done|]|].
    all: destruct (factory _ _) as [[oc|e'] s'] eqn:Ef; [|done]; destruct oc as [c|]; [|done]; cbn; split; [|done].
    all: apply factory_same in Ef as ->; done.
Qed.
End Rotation.
