(* ===== verification/GatewayRun.v ===== *)
(** * GatewayRun: what holds of every managed call

    The theorems of the gateway, from the lemmas of [GatewayLaws] and
    [GatewayClients]. *)

From Stdlib Require Import Ascii String.
From S2P Require Import Prelude EffLogic Text Json TaskCore WorkflowCore LedgerCore Store TaskStore LedgerStore.
From S2P Require Import SessionCore Pricing GatewayCatalog SessionMeta AgentContext AgentNotes AgentCore Gateway GatewayLaws GatewayClients.
From stdpp Require Import gmap strings.
Import Prelude.
Import db coregw ledgerdb llmgateway gateway bootstrap.
Local Open Scope Z_scope.
Local Open Scope buildmax_scope.

(** Two provider calls whose rows carry one user's one client call id are one. *)
Definition once {Client S} (g : Gateway Client S) : Prop := ∀ i j u v a b,
  G_Calls g !! i = Some u → G_Calls g !! j = Some v →
  a ∈ rows g → b ∈ rows g → Cl_ID a = Up_LLMCallID u → Cl_ID b = Up_LLMCallID v →
  a = b ∨ (is_Some (Cl_UserID a) ∧ is_Some (Cl_ClientCallID a) ∧
           Cl_UserID b = Cl_UserID a ∧ Cl_ClientCallID b = Cl_ClientCallID a) → i = j.

Lemma Ledgered_once {Client S} (g : Gateway Client S) : Ledgered g → once g.
Proof.
  intros [[Hn Hu] _ Honce _] i j u v a b Hi Hj Ha Hb Ea Eb Hs.
  assert (a = b) as <-.
  { destruct Hs as [?|Hs]; [done|]. apply list_elem_of_lookup in Ha as [x Hx], Hb as [y Hy].
    assert (x = y) as ->; [|congruence]. eapply Hu; [done..|]. by apply same_client_spec. }
  eapply (NoDup_lookup _ i j (Up_LLMCallID u) Honce); unfold called; rewrite list_lookup_fmap; [by rewrite Hi|].
  rewrite Hj. cbn. congruence.
Qed.

(** C11: A managed call calls the routed provider client at most once per client
    call id, whatever other requests, sweeps and operators interleave with it:
    after the request every call of a client stands under a ledger row of its own,
    no user has two such rows with one client call id, and no row written before is
    lost or has a written column changed.  (The client's own transport retries,
    internal/infra/llm/client.go, are within the one call.) *)
Theorem managed_call_once {Client S} `{Faults} `{Upstream Client S} others me (svc : Service Client) l req od
    (g : Gateway Client S) :
  (∀ g, rely me g (others g)) → tame svc → CallStoreLaws l → Svc_Ledger svc = Some l → Ledgered g →
  let g' := (run others me svc req od g).2 in
  Ledgered g' ∧ once g' ∧ grows (G_Store g) (G_Store g') ∧ G_Calls g `prefix_of` G_Calls g'.
Proof.
  intros Ho Ht Hl E L g'. pose proof (triple_run others me Ho svc Ht l req od g E g (respects_refl me g L)) as T.
  subst g'. destruct (run others me svc req od g) as [[a|e] g'].
  - destruct T as (row & u & routed & [A B C _ _ _ _] & _). split_and!; [done|by apply Ledgered_once|done..].
  - destruct T as [[_ [A B C _ _ _]]|(row & u & routed & [A B C _ _ _ _] & _)]; (split_and!; [done|by apply Ledgered_once|done..]).
Qed.


