(* ===== verification/GatewayExample.v ===== *)
(** * GatewayExample: a gateway with one model, and the edges of the ledger

    A deployment with one stored model and one user, on which the theorems of
    [GatewayRun] are used, and runs that show where the code and its comments
    differ. *)

From Stdlib Require Import Ascii String.
From S2P Require Import Prelude EffLogic Text Json TaskCore WorkflowCore LedgerCore Store TaskStore LedgerStore.
From S2P Require Import SessionCore Pricing GatewayCatalog SessionMeta AgentContext AgentNotes AgentCore Gateway GatewayLaws GatewayClients GatewayRun.
From stdpp Require Import gmap strings pretty.
Import Prelude.
Import db coregw ledgerdb llmgateway gateway bootstrap.
Local Open Scope string_scope.
Local Open Scope list_scope.
Local Open Scope Z_scope.
Local Open Scope buildmax_scope.

#[export] Instance no_faults : Faults := λ _, mkFault false false false false false "".

(** A provider that answers with ten tokens after one delta; its state counts
    the calls. *)
#[export] Instance provider : Upstream ClientConfig nat := {
  ChatCompletion client streaming origin req n :=
    ([(7, "hi")], Ok (llmapi.mkCompletion "hi" [] (pricing.mkUsage 8 2 10 0 0) None None), S n);
  callerGone _ := false
}.

(** A cipher that marks what it seals. *)
Definition marking : modeldb.Cipher := {|
  modeldb.SealValue _ k := Ok (String "#" k);
  modeldb.OpenValue b := match b with String "#" k => Ok k | _ => Err "not sealed" end |}.


Definition gpt : llmModelRow := mkLLMModelRow
  (mkModel "m1" "gpt" "openai" "https://api" "gpt-1" 1000 60 0 "" "" "" "USD" 5 1 2 9 false [] true 10 10)
  "text_chat,tool_calls,streaming_text,usage_reporting" (Some "#key1").

Definition base : Store := empty_store <| st_models := [gpt] |>.

Definition factory0 : Target → CR (option ClientConfig) := newClientFactory (λ c, Ok c) (Some marking) "".

Definition router0 : Router ClientConfig := mkRouter (stored_resolver "") (Some factory0).

Definition svc0 : Service ClientConfig := mkService (Some router0) (Some (ledger sample_gen)) None.

Definition g0 : Gateway ClientConfig nat := mkGateway base ∅ 0%nat [] ∅.

Definition hello : llm.Message := llm.mkMessage "user" "hello" "" [] "" None [].

Definition request (key : option string) : CompleteRequest :=
  mkCompleteRequest "" (Some "usr") None None None key "cli" None "gpt" "" [hello] [] "agent_turn" None.

(** The sweep that declares the run [r] lost goes on meanwhile. *)
Definition sweep (g : Gateway ClientConfig nat) : Gateway ClientConfig nat :=
  g <| G_Store := (SettleOrphanedLLMCallsForRun "r" 5 (G_Store g)).2 |>.

Lemma sweep_rely g : rely 1 g (sweep g).
Proof. by eapply (other_step_rely 1 2); [|apply other_lost]. Qed.

Lemma factory0_calls t : steps same_calls (factory0 t).
Proof. intros s. destruct (factory0 t s) as [o s'] eqn:E. apply factory_same in E. by subst. Qed.

Lemma tame0 : tame svc0.
Proof.
  split; cbn.
  - intros rt rs c [= <-] [= <-] [= <-]. apply StoreCatalog_tame.
  - intros rt f t [= <-] [= <-]. apply factory0_calls.
  - done.
Qed.

Lemma Ledgered0 : Ledgered g0.
Proof.
  split; cbn.
  - split; [constructor|]. by intros i j a b H%list_elem_of_lookup_2%not_elem_of_nil.
  - intros id [? H]. by rewrite lookup_empty in H.
  - constructor.
  - by intros id ?%not_elem_of_nil.
Qed.

Lemma managed_call_once_witness :
  (∀ g, rely 1 g (sweep g)) ∧ Ledgered g0 ∧
  let g' := (run sweep 1 svc0 (request (Some "k")) None g0).2 in
  (List.length (G_Calls g') = 1%nat ∧ Ledgered g' ∧ once g' ∧
   grows (G_Store g0) (G_Store g') ∧ G_Calls g0 `prefix_of` G_Calls g').
Proof.
  split; [apply sweep_rely|]. split; [apply Ledgered0|]. split; [vm_compute; reflexivity|].
  apply (managed_call_once sweep 1 svc0 (ledger sample_gen) (request (Some "k")) None g0 sweep_rely tame0 _
    eq_refl Ledgered0).
Defined.


(** The request is served, and its row carries the usage and the rates. *)
Example served0 :
  let '(o, g') := run sweep 1 svc0 (request (Some "k")) None g0 in
  is_ok o = true ∧
  map (λ r, (Cl_Status r, Cl_Model r, Cl_TargetID r, Cl_TotalTokens r, Cl_RateOutputPerMTok r)) (rows g')
  = [("SUCCEEDED", "gpt", "m1", Some 10, Some 9)].
Proof. vm_compute. done. Qed.

(** A second request with the key is refused, and told which call it was. *)
Example refused0 :
  let g1 := (run (λ g, g) 1 svc0 (request (Some "k")) None g0).2 in
  let '(o, g2) := run (λ g, g) 2 svc0 (request (Some "k")) None g1 in
  (match o with Err (_, DuplicateCallError id _) => bool_decide (id = "id_0") | _ => false end) = true ∧
  G_Calls g2 = G_Calls g1.
Proof. vm_compute. done. Qed.

(** ** Rotation *)

Definition cached0 : Gateway ClientConfig nat :=
  (ClientFor (λ g, g) router0 (mkResolveRequest "gpt" []) g0).2.




Definition rotated : Store := (modeldb.SetLLMModelCredential (Some marking) "m1" "key2" (G_Store cached0)).2.


(** The key a routed client was built with. *)
Definition key_of {A} (o : res A (RoutedClient (Client := ClientConfig))) : string :=
  match o with Ok r => Cfg_APIKey (Rtd_Client r) | Err _ => "" end.

Example rotation0 :
  key_of (ClientFor (λ g, g) router0 (mkResolveRequest "gpt" []) (cached0 <| G_Store := rotated |>)).1 = "key2".
Proof. vm_compute. reflexivity. Qed.

(** Two edits at one reading of the clock carry one revision: the second key does
    not reach a client cached with the first. *)
Lemma same_instant_rotation_missed :
  let next g := ClientFor (λ g, g) router0 (mkResolveRequest "gpt" []) g in
  let set key g := g <| G_Store := (modeldb.SetLLMModelCredential (Some marking) "m1" key (G_Store g)).2 |> in
  key_of (next (set "key3" (next (set "key2" cached0)).2)).1 = "key2".
Proof. vm_compute. reflexivity. Qed.

(** ** The ledger's edges *)

(** An empty key is no key to [rejectDuplicate], but the index counts it: the
    user's second call with one is refused as a duplicate. *)
Lemma empty_key_collides :
  let first := run (λ g, g) 1 svc0 (request (Some "")) None g0 in
  let second := run (λ g, g) 2 svc0 (request (Some "")) None first.2 in
  is_ok first.1 = true ∧
  (match second.1 with Err (_, e) => ErrorClassFor (Some e) | Ok _ => "" end) = ErrorClassDuplicateCall.
Proof. vm_compute. done. Qed.

(** A late outcome overwrites a row its run's loss had settled. *)
Lemma late_outcome_overwrites_lost :
  let open := ledgerEntry (request None <| CR_TaskRunID := Some "r" |>)
    (mkResolution "gpt" (mkTarget "m1" "gpt" "openai" "u" "m1" 10 "gpt-1" 0 0 0 "" "" "" "" 0 0 0 0 false ∅ true))
    false 100 in
  let s0 := base <| st_taskruns := [taskdb.newRun "r" "t" "in" "usr" "user" "chat" 0] |> in
  let s1 := (OpenLLMCall sample_gen (Some open) s0).2 in
  let s2 := (SettleOrphanedLLMCallsForRun "r" 200 s1).2 in
  let s3 := (CompleteLLMCall "id_0" (mkCallOutcome CallStatusSucceeded None 1 None None 300 None) s2).2 in
  map Cl_Status (st_calls s2) = [CallStatusFailed] ∧
  map Cl_Status (st_calls s3) = [CallStatusSucceeded] ∧ map Cl_CompletedAt (st_calls s3) = [Some 300].
Proof. vm_compute. done. Qed.
