(* ===== verification/AgentLoop.v ===== *)
(** * AgentLoop: the agent run

    [Module runloop] mirrors agent.go, compaction.go and tool_boundary.go of
    internal/core/agent: one run calls a model, executes the tools it asks for
    and records both in a history until it answers.  Everything outside the loop
    (the history, the model, hooks, approvals, the questioner, queued input, the
    compactor and the tools) is a function of a host state [S]; a run carries
    that state, the totals, and a log of what it did in order. *)

From Stdlib Require Import SpecFloat Ascii String.
From S2P Require Import Prelude Text Json SessionCore Pricing SessionMeta AgentContext AgentNotes AgentCore.
From stdpp Require Import gmap strings.
Import Prelude.
Import runstats llmapi tools hooks.
Local Open Scope Z_scope.
Local Open Scope buildmax_scope.

Module runloop.

Definition ToolErrorInvalidArgs : string := "invalid_args".
Definition ToolErrorFailed : string := "tool_error".
Definition ToolErrorPanic : string := "panic".

Definition DenyReasonPolicy : string := "policy".
Definition DenyReasonUser : string := "user".
Definition DenyReasonLoopGuard : string := "loop_guard".
Definition DenyReasonHook : string := "hook".
Definition DenyReasonUnknown : string := "unknown_tool".

Definition ToolNameAskUser : string := "AskUser".

(** ** Events: event.go

    One constructor per kind, with the fields the kind sets. *)

Inductive Event : Type :=
| EventIterStart (iter : Z)
| EventLLMStart (iter contextTokens contextWindow : Z) (stats : RunStats)
| EventLLMDelta (content : string)
| EventLLMEnd (iter : Z) (content : string) (hasToolCalls : bool) (stats : RunStats)
    (callUsage : pricing.Usage) (callCost : option pricing.Cost)
| EventToolStart (name id args : string)
| EventToolEnd (name id result errorKind : string)
| EventToolDenied (name id reason : string)
| EventContextCompacted (iter : Z) (summarized kept : nat) (callUsage : pricing.Usage)
    (callCost : option pricing.Cost)
| EventRunEnd (stats : RunStats) (err : option runError)
| EventUserInput (iter : Z) (content : string)
| EventUserInputBlocked (iter : Z) (content reason : string).

(** What a run did, in order. *)
Inductive entry : Type :=
| Emitted (e : Event)
| Hooked (input : HookInput) (output : HookOutput)
| Called (req : Request) (result : res string Completion)
| Delta (text : string)
| StreamEnded
| Approval (call : llm.ToolCall) (args : Args) (target : string) (d : ApprovalDecision)
| Started (calls : list agent.ToolCallStart)
| Executed (call : llm.ToolCall) (args : Args)
| Committed (m : llm.Message).

(** ** The host *)

(** [MessageHistory] and its optional extensions [CompactionHistory],
    [NotesHistory] and [ToolBoundaryHistory]. *)
Record CompactionHistory (S : Type) : Type := mkCompactionHistory {
  PriorSummary : S → string;
  AddCompaction : string → nat → Eff string S unit
}.
Arguments PriorSummary {S}.
Arguments AddCompaction {S}.

Record NotesHistory (S : Type) : Type := mkNotesHistory {
  Notes : S → list agent.Note;
  Todos : S → list agent.Todo
}.
Arguments Notes {S}.
Arguments Todos {S}.

Record ToolBoundaryHistory (S : Type) : Type := mkToolBoundaryHistory {
  ToolExecutionStarted : list agent.ToolCallStart → Eff string S unit;
  AppendToolResult : agent.ToolOutcome → Eff string S unit
}.
Arguments ToolExecutionStarted {S}.
Arguments AppendToolResult {S}.

Class History (S : Type) : Type := {
  HistoryMessages : S → list llm.Message;
  Append : llm.Message → Eff string S unit;
  compactions : option (CompactionHistory S);
  durableNotes : option (NotesHistory S);
  toolBoundary : option (ToolBoundaryHistory S)
}.

(** [LLMClient].  A streamed call delivers its deltas and then its result. *)
Record LLMClient (S : Type) : Type := mkLLMClient {
  ChatCompletionBlocking : Request → Eff string S Completion;
  ChatCompletionStreaming : Request → S → (list string * res string Completion) * S;
  ContextWindow : Z
}.
Arguments ChatCompletionBlocking {S}.
Arguments ChatCompletionStreaming {S}.
Arguments ContextWindow {S}.

(** [StreamSink] is whether the sink is a [StreamEnder]; the deltas it is given
    are in the log. *)
Record RunLoopOpts (S : Type) : Type := mkRunLoopOpts {
  Client : option (LLMClient S);
  SystemPrompt : string;
  Pricing_ : pricing.Pricing;
  Registry : ToolRegistry S;
  MaxIter : Z;
  StreamSink : option bool;
  Policy : option ToolPolicy;
  ApprovalHandler : option (string → Args → string → S → ApprovalDecision * S);
  Questioner : option (list question.Question → Eff string S question.Answer);
  PendingInput : option (S → option string * S);
  MaxParallelTools : Z;
  Compactor : option (list llm.Message → Eff string S (string * pricing.Usage));
  Checkpointer : option (Z → list llm.Message → Eff string S unit);
  Invariants : string;
  Memory : option (S → memory.MemoryIndex);
  Hooks : option (HookInput → S → HookOutput * S);
  SessionID : string;
  Workspace : string;
  IsSubagent : bool;
  AgentType : string;
  RedactResult : option (string → string);
  Output : option OutputSchema;
  Cancelled : S → bool
}.
Arguments Client {S}. Arguments SystemPrompt {S}. Arguments Pricing_ {S}. Arguments Registry {S}.
Arguments MaxIter {S}. Arguments StreamSink {S}. Arguments Policy {S}. Arguments ApprovalHandler {S}.
Arguments Questioner {S}. Arguments PendingInput {S}. Arguments MaxParallelTools {S}.
Arguments Compactor {S}. Arguments Checkpointer {S}. Arguments Invariants {S}. Arguments Memory {S}.
Arguments Hooks {S}. Arguments SessionID {S}. Arguments Workspace {S}. Arguments IsSubagent {S}.
Arguments AgentType {S}. Arguments RedactResult {S}. Arguments Output {S}. Arguments Cancelled {S}.

Definition interactive {S : Type} (o : RunLoopOpts S) : bool :=
  match ApprovalHandler o with Some _ => true | None => false end.

(** One run.  [Rn_stats] is the [s] of the loop, [Rn_guard] its loop guard,
    [Rn_grants] the grants of its options, [Rn_delegated] the accumulator and
    [Rn_yielded] the flag its context carries. *)
Record Run (S : Type) : Type := mkRun {
  Rn_host : S;
  Rn_log : list entry;
  Rn_stats : RunStats;
  Rn_guard : gmap string Z;
  Rn_grants : SessionGrants;
  Rn_delegated : DelegatedStats;
  Rn_yielded : bool
}.
Arguments mkRun {S}. Arguments Rn_host {S}. Arguments Rn_log {S}. Arguments Rn_stats {S}.
Arguments Rn_guard {S}. Arguments Rn_grants {S}. Arguments Rn_delegated {S}. Arguments Rn_yielded {S}.
#[export] Instance Run_updatable {S} : Updatable (Run S) := λ r,
  mkRun (Rn_host r) (Rn_log r) (Rn_stats r) (Rn_guard r) (Rn_grants r) (Rn_delegated r) (Rn_yielded r).

Definition Run0 {S : Type} (grants : SessionGrants) (host : S) : Run S :=
  mkRun host [] RunStats0 ∅ grants DelegatedStats0 false.

(** [panic] aborts the loop, as every error it returns does. *)
Definition Loop (S A : Type) : Type := Eff runError (Run S) A.

(** One tool call moving through the stages; [tool] is nil when the registry has
    no such tool. *)
Record pendingCall (S : Type) : Type := mkPendingCall {
  Pc_call : llm.ToolCall;
  Pc_args : Args;
  Pc_tool : option (Tool S);
  Pc_result : string;
  Pc_decided : bool;
  Pc_parts : list llm.ContentPart;
  Pc_executed : bool;
  Pc_errKind : string
}.
Arguments mkPendingCall {S}. Arguments Pc_call {S}. Arguments Pc_args {S}. Arguments Pc_tool {S}.
Arguments Pc_result {S}. Arguments Pc_decided {S}. Arguments Pc_parts {S}.
Arguments Pc_executed {S}. Arguments Pc_errKind {S}.
#[export] Instance pendingCall_updatable {S} : Updatable (pendingCall S) := λ r,
  mkPendingCall (Pc_call r) (Pc_args r) (Pc_tool r) (Pc_result r) (Pc_decided r) (Pc_parts r)
    (Pc_executed r) (Pc_errKind r).

Section Loop.
Context {S : Type} `{Lib} {Hist : History S} (opts : RunLoopOpts S).

Definition modifyRun (f : Run S → Run S) : Loop S unit := λ r, (Ok tt, f r).

Definition record (e : entry) : Loop S unit := modifyRun (λ r, r <| Rn_log := Rn_log r ++ [e] |>).

Definition emit (e : Event) : Loop S unit := record (Emitted e).

(** A call of the host. *)
Definition host {A : Type} (f : S → A * S) : Loop S A := λ r,
  let '(a, s) := f (Rn_host r) in (Ok a, r <| Rn_host := s |>).

Definition look {A : Type} (f : S → A) : Loop S A := gets (λ r, f (Rn_host r)).

Definition theClient : Loop S (LLMClient S) := or_fail (RunPanicked "nil LLMClient") (Client opts).

(** ** Hooks *)

Definition baseHookInput (event : HookEvent) : HookInput :=
  mkHookInput event (SessionID opts) (Workspace opts) (IsSubagent opts) (AgentType opts)
    "" "" "" [] "" "" "" "" 0 0 "" None None "" "" "" None.

Definition runHook (input : HookInput) : Loop S HookOutput :=
  match Hooks opts with
  | None => mret HookOutput0
  | Some run => out ← host (run input); _ ← record (Hooked input out); mret out
  end.

Definition fireNotification (kind toolName callID : string) (args : Args) (reason : string) : Loop S unit :=
  match Hooks opts with
  | None => mret tt
  | Some _ =>
      _ ← runHook (baseHookInput HookNotification <| In_NotificationKind := kind |>
                   <| In_NotificationReason := reason |> <| In_ToolName := toolName |>
                   <| In_ToolCallID := callID |> <| In_ToolArgs := args |>);
      mret tt
  end.

Definition fireRunEndHook (stats : RunStats) (err : option runError) : Loop S unit :=
  match Hooks opts with
  | None => mret tt
  | Some _ =>
      let event := match err with
                   | Some _ => HookStopFailure
                   | None => if IsSubagent opts then HookSubagentStop else HookStop
                   end in
      _ ← runHook (baseHookInput event <| In_Stats := Some stats |> <| In_Error := err |>);
      mret tt
  end.

Definition orElse (reason fallback : string) : string := if reason == "" then fallback else reason.

(** ** Commits to the history *)

Definition appendMessage (m : llm.Message) : Loop S (res string unit) :=
  r ← host (Append m);
  match r with
  | Ok _ => _ ← record (Committed m); mret (Ok tt)
  | Err e => mret (Err e)
  end.

(** ** The questioner of the run: question.go *)

Definition questionArgs (qs : list question.Question) : Args :=
  [("questions", JArr (map (λ q, JStr (question.Qu_Text q)) qs))].

Definition AskUser (callID : string) (qs : list question.Question) :
    Loop S (option (res string question.Answer)) :=
  match Questioner opts with
  | None => mret None
  | Some inner =>
      _ ← fireNotification NotificationUserQuestion ToolNameAskUser callID (questionArgs qs) "";
      a ← host (inner qs);
      _ ← (match a with
           | Ok a => if question.Ans_Deferred a
                     then modifyRun (λ r, r <| Rn_yielded := true |>) else mret tt
           | Err _ => mret tt
           end);
      mret (Some a)
  end.

(** ** Queued input

    [patience] bounds the messages one iteration drains. *)
Fixpoint injectPendingInput (patience : nat) (iter : Z) : Loop S unit :=
  match PendingInput opts with
  | None => mret tt
  | Some dequeue =>
      match patience with
      | O => fail Starved
      | Datatypes.S patience =>
          text ← host dequeue;
          match text with
          | None => mret tt
          | Some text =>
              if TrimSpace text == "" then injectPendingInput patience iter
              else
                out ← runHook (baseHookInput HookUserPromptSubmit <| In_Prompt := text |>);
                if Blocked out then
                  _ ← emit (EventUserInputBlocked iter text
                              (orElse (HO_Reason out) "prompt blocked by hook"));
                  injectPendingInput patience iter
                else
                  r ← appendMessage (context.userMessage text);
                  match r with
                  | Err e => fail (ErrQueuedMessage e)
                  | Ok _ => _ ← emit (EventUserInput iter text); injectPendingInput patience iter
                  end
          end
      end
  end.

(** ** Compaction: compaction.go *)

Record CompactResult : Type := mkCompactResult {
  CR_Summarized : nat;
  CR_Kept : nat;
  CR_Summary : string;
  CR_Reason : string
}.

Definition Compacted (r : CompactResult) : bool := (0 <? CR_Summarized r)%nat.

Definition addStats (usage : pricing.Usage) : Loop S (option pricing.Cost) := λ r,
  let '(cost, stats) := addCall usage (Pricing_ opts) (Rn_stats r) in
  (Ok cost, r <| Rn_stats := stats |>).

(** A checkpoint that fails is only logged. *)
Definition checkpointAndCompact (compact : list llm.Message → Eff string S (string * pricing.Usage))
    (iter : Z) (priorSummary : string) (toSummarize : list llm.Message) :
    Loop S (res string (string * pricing.Usage)) :=
  _ ← (match Checkpointer opts with
       | Some checkpoint => _ ← host (checkpoint iter toSummarize); mret tt
       | None => mret tt
       end);
  host (compact (context.withPriorSummary priorSummary toSummarize)).

Definition window : Z := match Client opts with Some c => ContextWindow c | None => 0 end.

(** The boundary a durable history records. *)
Definition addCompaction (summary : string) (summarized : nat) : Loop S (res string unit) :=
  match compactions with
  | Some ch => host (AddCompaction ch summary summarized)
  | None => mret (Ok tt)
  end.

Definition compactOnce (compact : list llm.Message → Eff string S (string * pricing.Usage))
    (iter : Z) (priorSummary : string) (history : list llm.Message) (reserveTokens : Z) :
    Loop S (list llm.Message * CompactResult * option runError) :=
  let '(toSummarize, toKeep) := context.splitForCompaction history reserveTokens in
  let summarized := List.length toSummarize in
  let kept := List.length toKeep in
  let unchanged reason err := mret (history, mkCompactResult 0 (List.length history) "" reason, err) in
  if (summarized =? 0)%nat then unchanged "nothing old enough to summarize" None
  else
    preOut ← runHook (baseHookInput HookPreCompact <| In_Summarized := summarized |> <| In_Kept := kept |>);
    if Blocked preOut
    then unchanged (orElse (HO_Reason preOut) "blocked by a PreCompact hook") None
    else
      r ← checkpointAndCompact compact iter priorSummary toSummarize;
      match r with
      | Err e => unchanged "" (Some (ErrSummarize e))
      | Ok (summary, usage) =>
          let summary := context.clampSummary summary (context.maxSummaryChars window) in
          stored ← addCompaction summary summarized;
          match stored with
          | Err e => unchanged "" (Some (ErrCompactionNotPersisted e))
          | Ok _ =>
              callCost ← addStats usage;
              _ ← emit (EventContextCompacted iter summarized kept usage callCost);
              _ ← runHook (baseHookInput HookPostCompact <| In_Summarized := summarized |>
                           <| In_Kept := kept |> <| In_Summary := summary |>);
              mret (toKeep, mkCompactResult summarized kept summary "", None)
          end
      end.

Definition manualReserveTokens : Z :=
  if window <=? 0 then context.defaultReserveTokens
  else fraction context.manualCompactionReserve window.

Definition priorSummary : Loop S string :=
  match compactions with Some ch => look (PriorSummary ch) | None => mret ""%string end.

(** ** The model call *)

Definition sessionStateMessages (s : S) : list llm.Message :=
  let block text := if text == "" then [] else [context.userMessage text] in
  (match Memory opts with Some index => block (memory.RenderMemoryIndex (index s)) | None => [] end)
  ++ block (match durableNotes with
            | Some nh => notes.RenderSessionState (Invariants opts) (Notes nh s) (Todos nh s)
            | None => notes.RenderSessionState (Invariants opts) [] []
            end).

Definition systemMessage (content : string) : llm.Message := llm.mkMessage "system" content "" [] "" None [].

Definition assembleMessages (systemPrompt : string) (history stateMsg : list llm.Message) :
    list llm.Message :=
  (systemMessage systemPrompt :: history) ++ stateMsg.

Definition streamDelta (d : string) : Loop S unit :=
  _ ← record (Delta d); emit (EventLLMDelta d).

Fixpoint streamAll (deltas : list string) : Loop S unit :=
  match deltas with
  | [] => mret tt
  | d :: deltas => _ ← streamDelta d; streamAll deltas
  end.

Definition callLLM (history : list llm.Message) (systemPrompt : string) (iter : Z) (stats : RunStats) :
    Loop S (res string Completion) :=
  stateMsg ← look sessionStateMessages;
  let systemTokens := context.EstimateMessageTokens (systemMessage systemPrompt)
                      + context.EstimateTokens stateMsg in
  client ← theClient;
  let contextWindow := ContextWindow client in
  let history := if 0 <? contextWindow
                 then context.TrimHistory history systemTokens contextWindow 0 else history in
  let contextTokens := systemTokens + context.EstimateTokens history in
  _ ← emit (EventLLMStart iter contextTokens contextWindow stats);
  let req := mkRequest (assembleMessages systemPrompt history stateMsg) (GetDefs (Registry opts))
               ProfileAgentTurn "" None in
  match StreamSink opts with
  | Some ender =>
      out ← host (ChatCompletionStreaming client req);
      _ ← streamAll out.1;
      _ ← (if ender : bool then record StreamEnded else mret tt);
      _ ← record (Called req out.2);
      mret out.2
  | None =>
      out ← host (ChatCompletionBlocking client req);
      _ ← record (Called req out);
      mret out
  end.

Definition extractStructured (systemPrompt : string) : Loop S Structured :=
  let failed message := mkStructured None "" false (Some message) in
  history ← look HistoryMessages;
  client ← theClient;
  let cw := ContextWindow client in
  let sysTokens := context.EstimateMessageTokens (systemMessage systemPrompt) in
  let history := if 0 <? cw then context.TrimHistory history sysTokens cw 0 else history in
  stateMsg ← look sessionStateMessages;
  let req := mkRequest (assembleMessages systemPrompt history stateMsg) [] ProfileProbe ""
               (Output opts) in
  out ← host (ChatCompletionBlocking client req);
  _ ← record (Called req out);
  match out with
  | Err e => mret (failed ("structured-output extraction call failed: " +:+ e))
  | Ok completion =>
      _ ← addStats (Com_Usage completion);
      match Com_Structured completion with
      | None => mret (failed "provider returned no structured value"%string)
      | Some structured => mret structured
      end
  end.

(** ** The four stages of a batch of calls *)

Definition parseCall (tc : llm.ToolCall) : pendingCall S :=
  let c := mkPendingCall tc [] None "" false [] false "" in
  let decoded := if llm.TC_Arguments tc == "" then Ok None else UnmarshalArgs (llm.TC_Arguments tc) in
  match decoded with
  | Err e => c <| Pc_result := "error: invalid arguments: " +:+ e |> <| Pc_decided := true |>
               <| Pc_errKind := ToolErrorInvalidArgs |>
  | Ok args => c <| Pc_args := default [] args |>
                 <| Pc_tool := Lookup (Registry opts) (llm.TC_Name tc) |>
  end.

Definition parseCalls (toolCalls : list llm.ToolCall) : list (pendingCall S) := map parseCall toolCalls.

Definition eligibleForGroup (c : pendingCall S) : bool :=
  if Pc_decided c then false
  else match Pc_tool c with
  | None => false
  | Some tool => DeclaredAccess tool (Pc_args c) == AccessReadOnly
  end.

(** The loop of [groupCalls]; [group] is [calls[start:i]]. *)
Fixpoint groupFrom (group calls : list (pendingCall S)) : list (list (pendingCall S)) :=
  match calls with
  | [] => []
  | c :: calls =>
      let group := group ++ [c] in
      if eligibleForGroup c && match calls with next :: _ => eligibleForGroup next | [] => false end
      then groupFrom group calls
      else group :: groupFrom [] calls
  end.

Definition groupCalls (calls : list (pendingCall S)) (maxParallel : Z) : list (list (pendingCall S)) :=
  if maxParallel <=? 1 then map (λ c, [c]) calls else groupFrom [] calls.

Definition toolEnd (c : pendingCall S) : Event :=
  EventToolEnd (llm.TC_Name (Pc_call c)) (llm.TC_ID (Pc_call c)) (Pc_result c) (Pc_errKind c).

Definition deny (c : pendingCall S) (reason result : string) : Loop S (pendingCall S) :=
  _ ← emit (EventToolDenied (llm.TC_Name (Pc_call c)) (llm.TC_ID (Pc_call c)) reason);
  mret (c <| Pc_result := result |> <| Pc_decided := true |>).

Definition denied (name reason : string) : string := "error: tool call " +:+ quote name +:+ reason.

Definition guardExceeded (name : string) (args : Args) : Loop S bool := λ r,
  let '(over, counts) := exceeded defaultMaxRepeatedCalls name args (Rn_guard r) in
  (Ok over, r <| Rn_guard := counts |>).

Definition hookGate (c : pendingCall S) : Loop S (pendingCall S) :=
  let name := llm.TC_Name (Pc_call c) in
  preOut ← runHook (baseHookInput HookPreToolUse <| In_ToolName := name |>
                    <| In_ToolCallID := llm.TC_ID (Pc_call c) |> <| In_ToolArgs := Pc_args c |>);
  if Blocked preOut then
    deny c DenyReasonHook
      (denied name (" denied by hook: " +:+ orElse (HO_Reason preOut) "blocked by hook"))
  else mret c.

Definition approvalGate (c : pendingCall S) (target scope : string) : Loop S (pendingCall S) :=
  let name := llm.TC_Name (Pc_call c) in
  let callID := llm.TC_ID (Pc_call c) in
  _ ← fireNotification NotificationApprovalRequired name callID (Pc_args c) "";
  match ApprovalHandler opts with
  | None =>
      c' ← deny c DenyReasonPolicy (denied name " denied by policy");
      _ ← fireNotification NotificationPermissionDenied name callID (Pc_args c)
            "no approval handler configured";
      mret c'
  | Some request =>
      d ← host (request name (Pc_args c) target);
      _ ← record (Approval (Pc_call c) (Pc_args c) target d);
      match d with
      | ApprovalDeny =>
          c' ← deny c DenyReasonUser (denied name " denied by user");
          _ ← fireNotification NotificationPermissionDenied name callID (Pc_args c) "denied by user";
          mret c'
      | ApprovalAllowSession =>
          _ ← modifyRun (λ r, r <| Rn_grants := grant (Rn_grants r) scope |>);
          hookGate c
      | ApprovalAllowOnce => hookGate c
      end
  end.

Definition gateCall (policy : ToolPolicy) (c : pendingCall S) : Loop S (pendingCall S) :=
  let name := llm.TC_Name (Pc_call c) in
  let callID := llm.TC_ID (Pc_call c) in
  let start := EventToolStart name callID (llm.TC_Arguments (Pc_call c)) in
  if Pc_decided c then
    _ ← (if Pc_errKind c != "" then _ ← emit start; emit (toolEnd c) else mret tt);
    mret c
  else
    _ ← emit start;
    match Pc_tool c with
    | None => deny c DenyReasonUnknown ("error: unknown tool " +:+ quote name)
    | Some tool =>
        over ← guardExceeded name (Pc_args c);
        if over : bool then
          deny c DenyReasonLoopGuard
            (denied name " blocked — repeated identical call detected (loop guard)")
        else
          let target := grantTarget tool (Pc_args c) in
          let scope := grantScope name target in
          let action := resolveAction (Some policy) tool name scope (Pc_args c) (interactive opts) in
          grants ← gets Rn_grants;
          let action := if (action == ToolActionAsk) && granted grants scope
                        then ToolActionAllow else action in
          match action with
          | ToolActionDeny => deny c DenyReasonPolicy (denied name " denied by policy")
          | ToolActionAsk => approvalGate c target scope
          | ToolActionAllow => hookGate c
          | ToolActionOther _ =>
              mret (c <| Pc_result := "error: unknown policy action for " +:+ quote name |>
                      <| Pc_decided := true |>)
          end
    end.

(** Between gate and run: tool_boundary.go. *)
Definition recordToolBoundary (group : list (pendingCall S)) : Loop S (res string unit) :=
  match toolBoundary with
  | None => mret (Ok tt)
  | Some h =>
      let starts := map (λ c, agent.mkToolCallStart (llm.TC_ID (Pc_call c)) (llm.TC_Name (Pc_call c)))
                      (List.filter (λ c, negb (Pc_decided c)) group) in
      if (List.length starts =? 0)%nat then mret (Ok tt)
      else
        r ← host (ToolExecutionStarted h starts);
        match r with
        | Ok _ => _ ← record (Started starts); mret (Ok tt)
        | Err e => mret (Err e)
        end
  end.

(** What a tool does, on the run it belongs to: [Err] of the result is a panic. *)
Fixpoint runTool {A : Type} (callID : string) (p : toolProg S A) : Loop S (res string (res string A)) :=
  match p with
  | Returns result => mret (Ok result)
  | Panics v => mret (Err v)
  | Steps step k =>
      s ← look (λ s, s);
      _ ← host (λ s, (tt, step s));
      runTool callID (k s)
  | Asks questions k => a ← AskUser callID questions; runTool callID (k a)
  | Reports stats k =>
      _ ← modifyRun (λ r, r <| Rn_delegated := Report stats (Rn_delegated r) |>);
      runTool callID k
  end.

Definition redact (c : pendingCall S) : pendingCall S :=
  match RedactResult opts with
  | Some f => c <| Pc_result := f (Pc_result c) |>
  | None => c
  end.

(** [Err] is a panic of the tool. *)
Definition executeCall (iter : Z) (c : pendingCall S) : Loop S (res string (pendingCall S)) :=
  if Pc_decided c then mret (Ok c)
  else match Pc_tool c with
  | None => mret (Err "nil tool"%string)
  | Some tool =>
      let callID := llm.TC_ID (Pc_call c) in
      _ ← record (Executed (Pc_call c) (Pc_args c));
      out ← runTool callID (executeTool (mkToolCtx iter callID) tool (Pc_args c));
      match out with
      | Err v => mret (Err v)
      | Ok result =>
          let c := c <| Pc_executed := true |> in
          let c := match result with
                   | Err e => c <| Pc_errKind := ToolErrorFailed |> <| Pc_result := "error: " +:+ e |>
                   | Ok (text, parts) => c <| Pc_result := text |> <| Pc_parts := parts |>
                   end in
          let c := redact c in
          _ ← emit (toolEnd c);
          mret (Ok c)
      end
  end.

(** One worker of a parallel group: a panic stays with its call. *)
Definition worker (iter : Z) (c : pendingCall S) : Loop S (pendingCall S) :=
  r ← executeCall iter c;
  match r with
  | Ok c => mret c
  | Err v => mret (c <| Pc_result := "error: tool " +:+ quote (llm.TC_Name (Pc_call c))
                                     +:+ " panicked: " +:+ v |>
                     <| Pc_executed := true |> <| Pc_errKind := ToolErrorPanic |>)
  end.

(** Without workers a panic leaves the loop. *)
Definition inline (iter : Z) (c : pendingCall S) : Loop S (pendingCall S) :=
  r ← executeCall iter c;
  match r with Ok c => mret c | Err v => fail (RunPanicked v) end.

(** The workers of a group run one after the other in the order [order] gives;
    each writes its own element. *)
Context (order : nat → list nat).

Fixpoint runWorkers (iter : Z) (turns : list nat) (group : list (pendingCall S)) :
    Loop S (list (pendingCall S)) :=
  match turns with
  | [] => mret group
  | i :: turns =>
      match group !! i with
      | Some c => c ← worker iter c; runWorkers iter turns (<[i := c]> group)
      | None => runWorkers iter turns group
      end
  end.

Definition runGroup (iter : Z) (group : list (pendingCall S)) : Loop S (list (pendingCall S)) :=
  if (MaxParallelTools opts <? 1) || (List.length group =? 1)%nat then mapM (inline iter) group
  else runWorkers iter (order (List.length group)) group.

Definition firePostHook (c : pendingCall S) : Loop S unit :=
  if Pc_executed c then
    let failed := Pc_errKind c != "" in
    let input := baseHookInput (if failed then HookPostToolUseFailure else HookPostToolUse)
      <| In_ToolName := llm.TC_Name (Pc_call c) |> <| In_ToolCallID := llm.TC_ID (Pc_call c) |>
      <| In_ToolArgs := Pc_args c |> in
    _ ← runHook (if failed then input <| In_ToolError := Pc_result c |>
                 else input <| In_ToolResult := Pc_result c |>);
    mret tt
  else mret tt.

Definition outcomeOf (c : pendingCall S) : agent.ToolOutcome :=
  agent.mkToolOutcome (llm.TC_ID (Pc_call c)) (llm.TC_Name (Pc_call c))
    (if negb (Pc_executed c) then agent.ToolStatusDenied
     else if Pc_errKind c != "" then agent.ToolStatusFailed else agent.ToolStatusCompleted)
    (Pc_result c) (Pc_parts c).

Definition resultMessage (c : pendingCall S) : llm.Message :=
  session.toolMessage (llm.TC_ID (Pc_call c)) (Pc_result c) (Pc_parts c).

Definition appendToolOutcome (c : pendingCall S) : Loop S (res string unit) :=
  r ← host (match toolBoundary with
            | Some h => AppendToolResult h (outcomeOf c)
            | None => Append (resultMessage c)
            end);
  match r with
  | Ok _ => _ ← record (Committed (resultMessage c)); mret (Ok tt)
  | Err e => mret (Err e)
  end.

Definition isWrite (c : pendingCall S) : bool :=
  Pc_executed c && match Pc_tool c with
                   | Some tool => DeclaredAccess tool (Pc_args c) == AccessWrite
                   | None => true
                   end.

(** The commit stage of a group: the counts, and the error it stopped at. *)
Fixpoint commitCalls (group : list (pendingCall S)) (count writes : Z) :
    Loop S (Z * Z * option runError) :=
  match group with
  | [] => mret (count, writes, None)
  | c :: group =>
      _ ← firePostHook c;
      r ← appendToolOutcome c;
      match r with
      | Err e => mret (count, writes, Some (ErrHistory e))
      | Ok _ => commitCalls group (count + 1) (if isWrite c then writes + 1 else writes)
      end
  end.

Fixpoint runGroups (policy : ToolPolicy) (iter : Z) (groups : list (list (pendingCall S)))
    (count writes : Z) : Loop S (Z * Z * option runError) :=
  match groups with
  | [] => mret (count, writes, None)
  | group :: groups =>
      group ← mapM (gateCall policy) group;
      started ← recordToolBoundary group;
      match started with
      | Err e => mret (count, writes, Some (ErrHistory e))
      | Ok _ =>
          group ← runGroup iter group;
          out ← commitCalls group count writes;
          match out with
          | (count, writes, None) => runGroups policy iter groups count writes
          | (count, writes, Some e) => mret (count, writes, Some e)
          end
      end
  end.

Definition executeToolCalls (iter : Z) (toolCalls : list llm.ToolCall) :
    Loop S (Z * Z * option runError) :=
  let policy := default AllowAllPolicy (Policy opts) in
  runGroups policy iter (groupCalls (parseCalls toolCalls) (MaxParallelTools opts)) 0 0.

(** ** The loop *)

(** The compaction at the top of an iteration: the history to continue with and
    the summary that stands for the rest. *)
Definition fillTest (history : list llm.Message) (cw : Z) : bool :=
  fraction context.compactionThreshold cw
  <? context.EstimateMessageTokens (systemMessage (SystemPrompt opts)) + context.EstimateTokens history.

Definition autoCompact (iter : Z) (summary : string) (history : list llm.Message) :
    Loop S (list llm.Message * string) :=
  match Compactor opts with
  | None => mret (history, summary)
  | Some compact =>
      client ← theClient;
      let cw := ContextWindow client in
      if (0 <? cw) && fillTest history cw then
        out ← compactOnce compact iter summary history (fraction context.compactionReserve cw);
        match out with
        | (_, _, Some (ErrCompactionNotPersisted e)) => fail (ErrCompactionNotPersisted e)
        | (_, _, Some _) => mret (history, summary)
        | (kept, result, None) =>
            if Compacted result then mret (kept, CR_Summary result) else mret (history, summary)
        end
      else mret (history, summary)
  end.

(** The end of a run that is reported. *)
Definition finish (err : option runError) : Loop S unit :=
  stats ← gets Rn_stats;
  _ ← emit (EventRunEnd stats err);
  fireRunEndHook stats err.

(** [if err := opts.History.Append(m); err != nil { return err }] *)
Definition mustAppend (m : llm.Message) : Loop S unit :=
  r ← appendMessage m;
  match r with Ok _ => mret tt | Err e => fail (ErrHistory e) end.

Definition joined (texts : list string) : string := String.concat context.blankLine texts.

Definition addToolCounts (count writes : Z) : Loop S unit := modifyRun (λ r,
  let '(delegated, rest) := Drain (Rn_delegated r) in
  r <| Rn_stats := absorb delegated (Rn_stats r
                     <| Sta_ToolCalls := wrap64 (Sta_ToolCalls (Rn_stats r) + count) |>
                     <| Sta_WriteToolCalls := wrap64 (Sta_WriteToolCalls (Rn_stats r) + writes) |>) |>
    <| Rn_delegated := rest |>).

(** How an iteration ends: the reply and the structured value of the run, or
    the summary and the texts the next iteration starts with. *)
Inductive turn : Type :=
| Reply (reply : string) (structured : option Structured)
| Next (summary : string) (texts : list string).

Definition iteration (patience : nat) (iter : Z) (summary : string) (texts : list string) : Loop S turn :=
  _ ← emit (EventIterStart iter);
  _ ← injectPendingInput patience iter;
  history ← look HistoryMessages;
  compacted ← autoCompact iter summary history;
  let history := compacted.1 in
  let summary := compacted.2 in
  let effectiveSysPrompt := SystemPrompt opts +:+ context.RenderCompactionBlock summary in
  stats ← gets Rn_stats;
  completion ← callLLM history effectiveSysPrompt iter stats;
  match completion with
  | Err e =>
      cancelled ← look (Cancelled opts);
      if cancelled : bool then _ ← finish None; mret (Reply (joined texts) None)
      else _ ← finish (Some (ErrLLM e)); fail (ErrLLM e)
  | Ok completion =>
      let content := Com_Content completion in
      let toolCalls := Com_ToolCalls completion in
      let asks := (0 <? List.length toolCalls)%nat in
      callCost ← addStats (Com_Usage completion);
      let texts := if content != "" then texts ++ [content] else texts in
      _ ← (match StreamSink opts with
           | Some _ => if (content != "") && asks then record (Delta context.blankLine) else mret tt
           | None => mret tt
           end);
      stats ← gets Rn_stats;
      _ ← emit (EventLLMEnd iter content asks stats (Com_Usage completion) callCost);
      _ ← mustAppend (AssistantMessage completion);
      if asks then
        out ← executeToolCalls iter toolCalls;
        let '(count, writes, err) := out in
        _ ← addToolCounts count writes;
        match err with
        | Some e => fail e
        | None =>
            yielded ← gets Rn_yielded;
            if yielded : bool then _ ← finish None; mret (Reply (joined texts) None)
            else mret (Next summary texts)
        end
      else
        structured ← (match Output opts with
                      | Some _ => value ← extractStructured effectiveSysPrompt; mret (Some value)
                      | None => mret None
                      end);
        _ ← finish None;
        mret (Reply (joined texts) structured)
  end.

(** The iterations left of [MaxIter]. *)
Fixpoint iterations (patience turns : nat) (iter : Z) (summary : string) (texts : list string) :
    Loop S (string * option Structured) :=
  match turns with
  | O => _ ← finish (Some ErrMaxIterations); fail ErrMaxIterations
  | Datatypes.S turns =>
      t ← iteration patience iter summary texts;
      match t with
      | Reply reply structured => mret (reply, structured)
      | Next summary texts => iterations patience turns (iter + 1) summary texts
      end
  end.

Definition RunLoop (patience : nat) : Loop S (string * option Structured) :=
  summary ← priorSummary;
  iterations patience (Z.to_nat (MaxIter opts)) 1 summary [].

End Loop.

Section OnDemand.
Context {S : Type}.

(** [Compact] of compaction.go: a pass outside a run.  A nil history has no
    instance. *)
Definition Compact (history : option (History S)) (opts : RunLoopOpts S) : Loop S (CompactResult * option runError) :=
  match history with
  | None => fail ErrNoHistory
  | Some Hist =>
      match Compactor opts with
      | None => fail ErrNoCompactor
      | Some compact =>
          summary ← priorSummary;
          messages ← look HistoryMessages;
          out ← compactOnce opts compact 0 summary messages (manualReserveTokens opts);
          mret (out.1.2, out.2)
      end
  end.

(** [ExecuteTool]: one call past the policy layer; its result is the text. *)
Definition ExecuteTool `{Lib} (opts : RunLoopOpts S) (ctx : ToolCtx) (t : Tool S) (tc : llm.ToolCall) :
    Loop S (res string string) :=
  let decoded := if llm.TC_Arguments tc == "" then Ok None else UnmarshalArgs (llm.TC_Arguments tc) in
  match decoded with
  | Err e => mret (Ok ("error: invalid arguments: " +:+ e))
  | Ok args =>
      out ← runTool opts (Ctx_ToolCall ctx) (Tool_Execute t ctx (default [] args));
      match out with
      | Err v => mret (Err v)
      | Ok (Err e) => mret (Ok ("error: " +:+ e))
      | Ok (Ok result) => mret (Ok result)
      end
  end.
End OnDemand.

End runloop.
