(* ===== verification/AgentRunLogic.v ===== *)
(** * AgentRunLogic: rules for reasoning about agent runs

    A run program is reasoned about with [triple]s (a precondition, a
    postcondition per result and one for the errors) and with [steps] of a
    preorder.  [Quiet R] says that [R] contains every step of the host that does
    not commit to the history, and the records and totals that go with it; the
    parts of the loop built from those are steps of [R] once and for all. *)

From Stdlib Require Import Ascii String.
From S2P Require Import Prelude EffLogic Text Json SessionCore Pricing SessionMeta AgentContext AgentNotes AgentCore AgentLoop.
From stdpp Require Import gmap strings.
Import Prelude.
Import runstats llmapi tools hooks runloop.
Local Open Scope buildmax_scope.

(** ** Quiet steps *)

Section Quiet.
Context {S : Type} `{Lib} {Hist : History S} (opts : RunLoopOpts S).

(** Every step of a tool's program is one. *)
Fixpoint toolSteps {A} (P : (S → S) → Prop) (p : toolProg S A) : Prop :=
  match p with
  | Returns _ | Panics _ => True
  | Steps step k => P step ∧ ∀ s, toolSteps P (k s)
  | Asks _ k => ∀ a, toolSteps P (k a)
  | Reports _ k => toolSteps P k
  end.

Lemma toolSteps_mapResult {A B} P (f : A → B) p : toolSteps P p → toolSteps P (mapResult f p).
Proof.
  induction p as [r|v|step k IH|qs k IH|st k IH]; cbn; [done|done| | |done].
  - intros [Hs Hk]. split; [done|]. intros s. by apply IH.
  - intros Hk a. by apply IH.
Qed.

(** Both entry points of a tool. *)
Definition toolHost (P : (S → S) → Prop) (tool : Tool S) : Prop :=
  ∀ ctx args, toolSteps P (Tool_Execute tool ctx args) ∧
    (∀ execute, Tool_ExecuteMultimodal tool = Some execute → toolSteps P (execute ctx args)).

Lemma executeTool_host P ctx tool args : toolHost P tool → toolSteps P (executeTool ctx tool args).
Proof.
  intros Ht. destruct (Ht ctx args) as [H1 H2]. unfold executeTool.
  destruct (Tool_ExecuteMultimodal tool); [by apply H2|by apply toolSteps_mapResult].
Qed.

Lemma Lookup_elem (r : ToolRegistry S) name tool : Lookup r name = Some tool → tool ∈ r ∧ Tool_Name tool = name.
Proof.
  intros [Hin Hn]%find_some. split; [by apply list_elem_of_In|]. by apply bool_decide_eq_true in Hn.
Qed.

(** [allowed] are the records [R] admits. *)
Class Quiet (R : relation (Run S)) (allowed : entry → Prop) : Prop := {
  quiet_preorder :: PreOrder R;
  quiet_record e : allowed e → steps R (record e);
  quiet_stats f : steps R (modifyRun (λ r, r <| Rn_stats := f (Rn_stats r) |>));
  quiet_delegated f : steps R (modifyRun (λ r, r <| Rn_delegated := f (Rn_delegated r) |>));
  quiet_yielded : steps R (modifyRun (λ r, r <| Rn_yielded := true |>));
  quiet_hooks run input : Hooks opts = Some run → steps R (host (run input));
  quiet_ask ask qs : Questioner opts = Some ask → steps R (host (ask qs));
  quiet_dequeue dequeue : PendingInput opts = Some dequeue → steps R (host dequeue);
  quiet_approval ask name args target :
    ApprovalHandler opts = Some ask → steps R (host (ask name args target));
  quiet_compactor compact msgs : Compactor opts = Some compact → steps R (host (compact msgs));
  quiet_checkpoint checkpoint iter msgs :
    Checkpointer opts = Some checkpoint → steps R (host (checkpoint iter msgs));
  quiet_blocking client req : Client opts = Some client → steps R (host (ChatCompletionBlocking client req));
  quiet_streaming client req :
    Client opts = Some client → steps R (host (ChatCompletionStreaming client req));
  quiet_tools tool : tool ∈ Registry opts → toolHost (λ step, steps R (host (λ s, (tt, step s)))) tool
}.

(** Records every relation of this development admits. *)
Definition ordinary (e : entry) : Prop :=
  match e with
  | Emitted _ | Hooked _ _ | Delta _ | StreamEnded => True
  | _ => False
  end.

Section Steps.
Context (R : relation (Run S)) (allowed : entry → Prop) {Q : Quiet R allowed}.
Context (Hord : ∀ e, ordinary e → allowed e).

Lemma record_ordinary_steps e : ordinary e → steps R (record e).
Proof using Q Hord. intros He. by apply (quiet_record (R := R)), Hord. Qed.

Lemma emit_steps e : steps R (emit e).
Proof using Q Hord. by apply record_ordinary_steps. Qed.

Lemma look_steps {A} (f : S → A) : steps R (look f).
Proof using Q. unfold look. apply steps_gets, _. Qed.

Lemma runHook_steps input : steps R (runHook opts input).
Proof using Q Hord.
  unfold runHook. destruct (Hooks opts) as [run|] eqn:E; [|apply steps_ret, _].
  apply steps_bind; [apply _|by apply quiet_hooks|]. intros out.
  apply steps_bind; [apply _|by apply record_ordinary_steps|]. intros _. apply steps_ret, _.
Qed.

Lemma fireNotification_steps kind name id args reason : steps R (fireNotification opts kind name id args reason).
Proof using Q Hord.
  unfold fireNotification. destruct (Hooks opts); [|apply steps_ret, _].
  apply steps_bind; [apply _|apply runHook_steps|]. intros _. apply steps_ret, _.
Qed.

Lemma fireRunEndHook_steps stats err : steps R (fireRunEndHook opts stats err).
Proof using Q Hord.
  unfold fireRunEndHook. destruct (Hooks opts); [|apply steps_ret, _].
  apply steps_bind; [apply _|apply runHook_steps|]. intros _. apply steps_ret, _.
Qed.

Lemma theClient_steps : steps R (theClient opts).
Proof using Q. apply steps_or_fail, _. Qed.

Lemma addStats_steps usage : steps R (addStats opts usage).
Proof using Q.
  intros r. unfold addStats.
  pose proof (quiet_stats (λ _, (addCall usage (Pricing_ opts) (Rn_stats r)).2) r) as Hs. cbn in Hs.
  by destruct (addCall usage (Pricing_ opts) (Rn_stats r)).
Qed.

Lemma finish_steps err : steps R (finish opts err).
Proof using Q Hord.
  unfold finish. apply steps_bind; [apply _|apply steps_gets, _|]. intros stats.
  apply steps_bind; [apply _|apply emit_steps|]. intros _. apply fireRunEndHook_steps.
Qed.

Lemma AskUser_steps id qs : steps R (AskUser opts id qs).
Proof using Q Hord.
  unfold AskUser. destruct (Questioner opts) as [ask|] eqn:E; [|apply steps_ret, _].
  apply steps_bind; [apply _|apply fireNotification_steps|]. intros _.
  apply steps_bind; [apply _|by apply quiet_ask|]. intros a.
  apply steps_bind; [apply _| |intros _; apply steps_ret, _].
  destruct a as [a|e]; [|apply steps_ret, _].
  destruct (question.Ans_Deferred a); [apply quiet_yielded|apply steps_ret, _].
Qed.

Lemma runTool_steps {A} id (p : toolProg S A) :
  toolSteps (λ step, steps R (host (λ s, (tt, step s)))) p → steps R (runTool opts id p).
Proof using Q Hord.
  induction p as [r|v|step k IH|qs k IH|st k IH]; cbn; intros Hp.
  - apply steps_ret, _.
  - apply steps_ret, _.
  - destruct Hp as [Hs Hk]. apply steps_bind; [apply _|apply look_steps|]. intros s.
    apply steps_bind; [apply _|apply Hs|]. intros _. by apply IH.
  - apply steps_bind; [apply _|apply AskUser_steps|]. intros a. by apply IH.
  - apply steps_bind; [apply _|apply quiet_delegated|]. intros _. by apply IH.
Qed.

Lemma streamAll_steps deltas : steps R (streamAll deltas).
Proof using Q Hord.
  induction deltas as [|d deltas IH]; cbn; [apply steps_ret, _|].
  apply steps_bind; [apply _| |intros _; apply IH].
  apply steps_bind; [apply _|by apply record_ordinary_steps|]. intros _. apply emit_steps.
Qed.

Lemma checkpointAndCompact_steps compact iter prior msgs :
  Compactor opts = Some compact → steps R (checkpointAndCompact opts compact iter prior msgs).
Proof using Q.
  intros Hc. unfold checkpointAndCompact. apply steps_bind; [apply _| |intros _; by apply quiet_compactor].
  destruct (Checkpointer opts) as [checkpoint|] eqn:E; [|apply steps_ret, _].
  apply steps_bind; [apply _|by apply quiet_checkpoint|]. intros _. apply steps_ret, _.
Qed.

Lemma firePostHook_steps c : steps R (firePostHook opts c).
Proof using Q Hord.
  unfold firePostHook. destruct (Pc_executed c); [|apply steps_ret, _].
  apply steps_bind; [apply _|apply runHook_steps|]. intros _. apply steps_ret, _.
Qed.

Lemma deny_steps c reason result : steps R (deny c reason result).
Proof using Q Hord.
  unfold deny. apply steps_bind; [apply _|apply emit_steps|]. intros _. apply steps_ret, _.
Qed.

Lemma hookGate_steps c : steps R (hookGate opts c).
Proof using Q Hord.
  unfold hookGate. apply steps_bind; [apply _|apply runHook_steps|]. intros out.
  destruct (Blocked out); [apply deny_steps|apply steps_ret, _].
Qed.

Lemma addToolCounts_steps count writes : steps R (addToolCounts (S := S) count writes).
Proof using Q.
  intros r. unfold addToolCounts, modifyRun. cbn.
  pose proof (quiet_delegated (λ _, DelegatedStats0) r) as H1.
  etransitivity; [exact H1|].
  exact (quiet_stats (λ _, absorb (Rn_delegated r) (Rn_stats r
    <| Sta_ToolCalls := wrap64 (Sta_ToolCalls (Rn_stats r) + count) |>
    <| Sta_WriteToolCalls := wrap64 (Sta_WriteToolCalls (Rn_stats r) + writes) |>))
    (r <| Rn_delegated := DelegatedStats0 |>)).
Qed.

(** Parts that record a model call. *)
Lemma callLLM_steps history prompt iter stats :
  (∀ req out, allowed (Called req out)) → steps R (callLLM opts history prompt iter stats).
Proof using Q Hord.
  intros Hcall. unfold callLLM. apply steps_bind; [apply _|apply look_steps|]. intros stateMsg.
  eapply steps_bind_ok; [apply _|apply theClient_steps|]. intros s client s' Hc. cbn zeta.
  apply or_fail_ok in Hc as [Hc ->].
  apply steps_bind; [apply _|apply emit_steps|]. intros _.
  destruct (StreamSink opts) as [ender|].
  - apply steps_bind; [apply _|by apply quiet_streaming|]. intros out.
    apply steps_bind; [apply _|apply streamAll_steps|]. intros _.
    apply steps_bind; [apply _| |].
    { destruct ender; [by apply record_ordinary_steps|apply steps_ret, _]. }
    intros _. apply steps_bind; [apply _|by apply (quiet_record (R := R))|]. intros _. apply steps_ret, _.
  - apply steps_bind; [apply _|by apply quiet_blocking|]. intros out.
    apply steps_bind; [apply _|by apply (quiet_record (R := R))|]. intros _. apply steps_ret, _.
Qed.

Lemma extractStructured_steps prompt :
  (∀ req out, allowed (Called req out)) → steps R (extractStructured opts prompt).
Proof using Q Hord.
  intros Hcall. unfold extractStructured. apply steps_bind; [apply _|apply look_steps|]. intros history.
  eapply steps_bind_ok; [apply _|apply theClient_steps|]. intros s client s' Hc.
  apply or_fail_ok in Hc as [Hc ->].
  apply steps_bind; [apply _|apply look_steps|]. intros stateMsg.
  apply steps_bind; [apply _|by apply quiet_blocking|]. intros out.
  apply steps_bind; [apply _|by apply (quiet_record (R := R))|]. intros _.
  destruct out as [completion|e]; [|apply steps_ret, _].
  apply steps_bind; [apply _|apply addStats_steps|]. intros _.
  destruct (Com_Structured completion); apply steps_ret, _.
Qed.

(** Parts that execute tools, under a registry lookup. *)
Lemma executeCall_steps iter c :
  (∀ call args, allowed (Executed call args)) →
  (∀ tool, Pc_tool c = Some tool → tool ∈ Registry opts) → steps R (executeCall opts iter c).
Proof using Q Hord.
  intros Hex Ht. unfold executeCall. destruct (Pc_decided c); [apply steps_ret, _|].
  destruct (Pc_tool c) as [tool|]; [|apply steps_ret, _].
  apply steps_bind; [apply _|by apply (quiet_record (R := R))|]. intros _.
  apply steps_bind; [apply _| |].
  { apply runTool_steps, executeTool_host. apply (quiet_tools (R := R)). by apply Ht. }
  intros out. destruct out as [result|v]; [|apply steps_ret, _].
  apply steps_bind; [apply _|apply emit_steps|]. intros _. apply steps_ret, _.
Qed.
(** Parts that store a compaction. *)
Section Compaction.
Context (Hstore : ∀ ch summary n, compactions = Some ch → steps R (host (AddCompaction ch summary n))).

Lemma addCompaction_steps summary n : steps R (addCompaction summary n).
Proof using Q Hstore.
  unfold addCompaction. destruct compactions as [ch|] eqn:E; [by apply Hstore|apply steps_ret, _].
Qed.

Lemma compactOnce_steps compact iter prior history reserve :
  Compactor opts = Some compact → steps R (compactOnce opts compact iter prior history reserve).
Proof using Q Hord Hstore.
  intros Hc. unfold compactOnce. destruct (context.splitForCompaction _ _) as [toSummarize toKeep]. cbn zeta.
  destruct (_ =? 0)%nat; [apply steps_ret, _|].
  apply steps_bind; [apply _|apply runHook_steps|]. intros out. destruct (Blocked out); [apply steps_ret, _|].
  apply steps_bind; [apply _|by apply checkpointAndCompact_steps|]. intros [[summary usage]|e]; [|apply steps_ret, _].
  apply steps_bind; [apply _|apply addCompaction_steps|]. intros [u|e]; [|apply steps_ret, _].
  apply steps_bind; [apply _|apply addStats_steps|]. intros cost.
  apply steps_bind; [apply _|apply emit_steps|]. intros _.
  apply steps_bind; [apply _|apply runHook_steps|]. intros _. apply steps_ret, _.
Qed.

Lemma autoCompact_steps iter summary history : steps R (autoCompact opts iter summary history).
Proof using Q Hord Hstore.
  unfold autoCompact. destruct (Compactor opts) as [compact|] eqn:E; [|apply steps_ret, _].
  apply steps_bind; [apply _|apply theClient_steps|]. intros client. destruct (_ && _); [|apply steps_ret, _].
  apply steps_bind; [apply _|by apply compactOnce_steps|]. intros [[kept result] [e|]].
  - destruct e; first [apply steps_fail, _|apply steps_ret, _].
  - destruct (Compacted result); apply steps_ret, _.
Qed.
End Compaction.

(** Parts that append to the history. *)
Section Appends.
Context (Happend : ∀ m, steps R (host (Append m))) (Hcommit : ∀ m, allowed (Committed m)).

Lemma appendMessage_steps m : steps R (appendMessage m).
Proof using Q Happend Hcommit.
  unfold appendMessage. apply steps_bind; [apply _|apply Happend|]. intros [u|e]; [|apply steps_ret, _].
  apply steps_bind; [apply _|by apply (quiet_record (R := R))|]. intros _. apply steps_ret, _.
Qed.

Lemma mustAppend_steps m : steps R (mustAppend m).
Proof using Q Happend Hcommit.
  unfold mustAppend. apply steps_bind; [apply _|apply appendMessage_steps|].
  intros [u|e]; [apply steps_ret, _|apply steps_fail, _].
Qed.

Lemma injectPendingInput_steps iter patience : steps R (injectPendingInput opts patience iter).
Proof using Q Hord Happend Hcommit.
  induction patience as [|patience IH]; cbn; destruct (PendingInput opts) as [dequeue|] eqn:E;
    first [apply steps_ret, _|apply steps_fail, _|idtac].
  apply steps_bind; [apply _|by apply quiet_dequeue|]. intros [text|]; [|apply steps_ret, _].
  destruct (_ == _); [apply IH|].
  apply steps_bind; [apply _|apply runHook_steps|]. intros out. destruct (Blocked out).
  - apply steps_bind; [apply _|apply emit_steps|]. intros _. apply IH.
  - apply steps_bind; [apply _|apply appendMessage_steps|]. intros [u|e]; [|apply steps_fail, _].
    apply steps_bind; [apply _|apply emit_steps|]. intros _. apply IH.
Qed.
End Appends.

Lemma priorSummary_steps : steps R priorSummary.
Proof using Q. unfold priorSummary. destruct compactions; [apply look_steps|apply steps_ret, _]. Qed.
End Steps.
End Quiet.
