(* ===== verification/AgentRunParts.v ===== *)
(** * AgentRunParts: facts about the stages of a batch that hold in every state

    What a stage returns belongs to the call it was given; the steps of a stage
    are those of the relation of [AgentRunLogic.Quiet] with the changes of its
    own; and a stage returns unless a tool panics outside a worker. *)

From Stdlib Require Import Ascii String.
From S2P Require Import Prelude EffLogic Text Json SessionCore Pricing SessionMeta AgentContext AgentNotes AgentCore AgentLoop AgentRunLogic.
From stdpp Require Import gmap strings.
Import Prelude.
Import runstats llmapi tools hooks runloop.
Local Open Scope buildmax_scope.

Section Parts.
Context {S : Type} `{Lib} {Hist : History S} (opts : RunLoopOpts S) (order : nat → list nat).

(** ** A stage keeps the call it was given *)

Definition same (c c' : pendingCall S) : Prop := Pc_call c' = Pc_call c ∧ Pc_tool c' = Pc_tool c.

#[export] Instance same_preorder : PreOrder same.
Proof. split; [done|]. intros c1 c2 c3 [] []. split; congruence. Qed.

Ltac ret_same := apply returns_ret; by split.

Lemma deny_same c reason result : returns (deny c reason result) (same c).
Proof. unfold deny. apply returns_bind. intros _. ret_same. Qed.

Lemma hookGate_same c : returns (hookGate opts c) (same c).
Proof.
  unfold hookGate. apply returns_bind. intros out.
  destruct (Blocked out); [apply deny_same|ret_same].
Qed.

Lemma deny_then_same c reason result (m : Loop S unit) :
  returns (c' ← deny c reason result; _ ← m; mret c') (same c).
Proof.
  eapply returns_bind_of; [apply deny_same|]. intros c' Hc. apply returns_bind. intros _. by apply returns_ret.
Qed.

Lemma approvalGate_same c target scope : returns (approvalGate opts c target scope) (same c).
Proof.
  unfold approvalGate. apply returns_bind. intros _.
  destruct (ApprovalHandler opts) as [request|]; [|apply deny_then_same].
  apply returns_bind. intros d. apply returns_bind. intros _. destruct d.
  - apply deny_then_same.
  - apply hookGate_same.
  - apply returns_bind. intros _. apply hookGate_same.
Qed.

Lemma gateCall_same policy c : returns (gateCall opts policy c) (same c).
Proof.
  unfold gateCall. destruct (Pc_decided c); apply returns_bind; intros _; [ret_same|].
  destruct (Pc_tool c) as [tool|] eqn:Et; [|apply deny_same].
  apply returns_bind. intros over. destruct over; [apply deny_same|].
  apply returns_bind. intros grants. cbv zeta. destruct (if _ && _ then _ else _).
  - apply hookGate_same.
  - apply approvalGate_same.
  - apply deny_same.
  - ret_same.
Qed.

Lemma executeCall_same iter c :
  returns (executeCall opts iter c) (λ res, match res with Ok c' => same c c' | Err _ => True end).
Proof.
  unfold executeCall. destruct (Pc_decided c); [ret_same|].
  destruct (Pc_tool c) as [tool|] eqn:Et; [|by apply returns_ret].
  apply returns_bind. intros _. apply returns_bind. intros [result|v]; [|by apply returns_ret].
  apply returns_bind. intros _. apply returns_ret.
  unfold redact. destruct (RedactResult opts), result as [[text parts]|e]; by split.
Qed.

Lemma worker_same iter c : returns (worker opts iter c) (same c).
Proof.
  unfold worker. eapply returns_bind_of; [apply executeCall_same|]. intros [c'|v] Hc; [by apply returns_ret|ret_same].
Qed.

Lemma inline_same iter c : returns (inline opts iter c) (same c).
Proof.
  unfold inline. eapply returns_bind_of; [apply executeCall_same|]. intros [c'|v] Hc; [by apply returns_ret|].
  apply returns_fail.
Qed.

Lemma runWorkers_same iter turns : ∀ group, returns (runWorkers opts iter turns group) (Forall2 same group).
Proof.
  induction turns as [|i turns IH]; intros group; cbn.
  { apply returns_ret, Forall_Forall2_diag, Forall_true. intros c. split; done. }
  destruct (group !! i) as [c|] eqn:Ec; [|apply IH].
  eapply returns_bind_of; [apply worker_same|]. intros c' Hc. eapply returns_weaken; [apply IH|].
  intros group' Hg. etransitivity; [|exact Hg].
  rewrite <- (list_insert_id group i c Ec) at 1. by apply Forall2_insert.
Qed.

Lemma runGroup_same iter group : returns (runGroup opts order iter group) (Forall2 same group).
Proof.
  unfold runGroup. destruct (_ || _); [|apply runWorkers_same].
  apply returns_mapM. intros c _. apply inline_same.
Qed.

(** ** Groups are the batch *)

Lemma groupFrom_concat (calls : list (pendingCall S)) : ∀ group, calls ≠ [] → concat (groupFrom group calls) = group ++ calls.
Proof.
  induction calls as [|c calls IH]; intros group Hne; [done|]. cbn [groupFrom].
  destruct calls as [|c' calls].
  - rewrite andb_false_r. cbn. by rewrite app_nil_r.
  - destruct (_ && _).
    + rewrite IH by done. by rewrite <- app_assoc.
    + cbn [concat]. rewrite IH by done. by rewrite <- app_assoc.
Qed.

Lemma groupCalls_concat (calls : list (pendingCall S)) maxParallel : concat (groupCalls calls maxParallel) = calls.
Proof.
  unfold groupCalls. destruct (_ <=? _)%Z.
  - induction calls as [|c calls IH]; [done|]. cbn. by f_equal.
  - destruct calls as [|c calls]; [done|]. by apply groupFrom_concat.
Qed.

(** ** The steps of the stages *)

Definition known (c : pendingCall S) : Prop := ∀ tool, Pc_tool c = Some tool → tool ∈ Registry opts.

Lemma same_known c c' : same c c' → known c → known c'.
Proof. intros [_ E] Hk tool Ht. apply Hk. congruence. Qed.

Lemma Forall2_same_known group group' : Forall2 same group group' → Forall known group → Forall known group'.
Proof.
  induction 1 as [|c c' group group' Hc Hg IH]; [done|]. intros [Hk Hks]%Forall_cons.
  constructor; [by eapply same_known|by apply IH].
Qed.

Lemma parseCalls_known toolCalls : Forall known (parseCalls opts toolCalls).
Proof.
  unfold parseCalls. apply Forall_map, Forall_forall. intros tc _ tool. unfold parseCall.
  destruct (llm.TC_Arguments tc == ""); [intros Ht; by apply Lookup_elem in Ht as []|].
  destruct (UnmarshalArgs _); [|done]. intros Ht. by apply Lookup_elem in Ht as [].
Qed.

Lemma groups_known toolCalls :
  Forall (Forall known) (groupCalls (parseCalls opts toolCalls) (MaxParallelTools opts)).
Proof. apply Forall_concat. rewrite groupCalls_concat. apply parseCalls_known. Qed.

(** The identifiers of the calls. *)
Definition ids_of (g : list (pendingCall S)) : list string := map (λ c, llm.TC_ID (Pc_call c)) g.

Lemma same_callIDs g g' : Forall2 same g g' → ids_of g' = ids_of g.
Proof. induction 1 as [|c c' g g' [E _] Hg IH]; [done|]. unfold ids_of in *. cbn. by rewrite E, IH. Qed.

Lemma parseCalls_ids toolCalls : ids_of (parseCalls opts toolCalls) = map llm.TC_ID toolCalls.
Proof.
  unfold ids_of, parseCalls. rewrite map_map. apply map_ext. intros tc. unfold parseCall.
  destruct (llm.TC_Arguments tc == ""); [done|]. by destruct (UnmarshalArgs _).
Qed.

Section Steps.
Context (R : relation (Run S)) (allowed : entry → Prop) {Q : Quiet opts R allowed}.
Context (Hord : ∀ e, ordinary e → allowed e).
Context (Hguard : ∀ f, steps R (modifyRun (λ r, r <| Rn_guard := f (Rn_guard r) |>))).
Context (Hgrants : ∀ f, steps R (modifyRun (λ r, r <| Rn_grants := f (Rn_grants r) |>))).
Context (Happroval : ∀ call args target d, allowed (Approval call args target d)).
Context (Hstarted : ∀ starts, allowed (Started starts)).
Context (Hexecuted : ∀ call args, allowed (Executed call args)).
Context (Hboundary : ∀ h starts, toolBoundary = Some h → steps R (host (ToolExecutionStarted h starts))).

Lemma deny_then_steps c reason result (m : Loop S unit) :
  steps R m → steps R (c' ← deny c reason result; _ ← m; mret c').
Proof using Q Hord.
  intros Hm. apply steps_bind; [apply _|by apply (deny_steps opts R allowed)|]. intros c'.
  apply steps_bind; [apply _|done|]. intros _. apply steps_ret, _.
Qed.

Lemma approvalGate_steps c target scope : steps R (approvalGate opts c target scope).
Proof using Q Hord Hgrants Happroval.
  unfold approvalGate. apply steps_bind; [apply _|by apply (fireNotification_steps opts R allowed)|]. intros _.
  destruct (ApprovalHandler opts) as [request|] eqn:E.
  2: { apply deny_then_steps. by apply (fireNotification_steps opts R allowed). }
  apply steps_bind; [apply _|by apply (quiet_approval opts)|]. intros d.
  apply steps_bind; [apply _|by apply (quiet_record opts)|]. intros _. destruct d.
  - apply deny_then_steps. by apply (fireNotification_steps opts R allowed).
  - by apply (hookGate_steps opts R allowed).
  - apply steps_bind; [apply _|apply (Hgrants (λ g, grant g scope))|]. intros _.
    by apply (hookGate_steps opts R allowed).
Qed.

Lemma gateCall_steps policy c : steps R (gateCall opts policy c).
Proof using Q Hord Hguard Hgrants Happroval.
  unfold gateCall. destruct (Pc_decided c).
  - apply steps_bind; [apply _| |intros _; apply steps_ret, _]. destruct (_ != _); [|apply steps_ret, _].
    apply steps_bind; [apply _| |intros _]; by apply (emit_steps opts R allowed).
  - apply steps_bind; [apply _|by apply (emit_steps opts R allowed)|]. intros _.
    destruct (Pc_tool c) as [tool|]; [|by apply (deny_steps opts R allowed)].
    apply steps_bind; [apply _| |].
    { intros r. exact (Hguard (λ counts, (exceeded defaultMaxRepeatedCalls (llm.TC_Name (Pc_call c)) (Pc_args c) counts).2) r). }
    intros over. destruct over; [by apply (deny_steps opts R allowed)|].
    apply steps_bind; [apply _|apply steps_gets, _|]. intros grants. cbv zeta. destruct (if _ && _ then _ else _).
    + by apply (hookGate_steps opts R allowed).
    + apply approvalGate_steps.
    + by apply (deny_steps opts R allowed).
    + apply steps_ret, _.
Qed.

Lemma recordToolBoundary_steps group : steps R (recordToolBoundary group).
Proof using Q Hstarted Hboundary.
  unfold recordToolBoundary. destruct toolBoundary as [h|] eqn:E; [|apply steps_ret, _]. cbv zeta.
  destruct (_ =? 0); [apply steps_ret, _|].
  apply steps_bind; [apply _|by apply Hboundary|]. intros [u|e]; [|apply steps_ret, _].
  apply steps_bind; [apply _|by apply (quiet_record opts)|]. intros _. apply steps_ret, _.
Qed.

Lemma worker_steps iter c : known c → steps R (worker opts iter c).
Proof using Q Hord Hexecuted.
  intros Hk. unfold worker. apply steps_bind; [apply _|by apply (executeCall_steps opts R allowed)|].
  intros [c'|v]; apply steps_ret, _.
Qed.

Lemma inline_steps iter c : known c → steps R (inline opts iter c).
Proof using Q Hord Hexecuted.
  intros Hk. unfold inline. apply steps_bind; [apply _|by apply (executeCall_steps opts R allowed)|].
  intros [c'|v]; [apply steps_ret, _|apply steps_fail, _].
Qed.

Lemma runWorkers_steps iter turns : ∀ group, Forall known group → steps R (runWorkers opts iter turns group).
Proof using Q Hord Hexecuted.
  induction turns as [|i turns IH]; intros group Hk; cbn; [apply steps_ret, _|].
  destruct (group !! i) as [c|] eqn:Ec; [|by apply IH].
  assert (known c) as Hc by by (rewrite Forall_lookup in Hk; eapply Hk).
  eapply steps_returns_bind; [apply _|by apply worker_steps|apply worker_same|].
  intros c' Hs. apply IH. apply Forall_insert; [done|]. by eapply same_known.
Qed.

Lemma steps_mapM_known {B} (f : pendingCall S → Loop S B) group :
  (∀ c, known c → steps R (f c)) → Forall known group → steps R (mapM f group).
Proof using Q.
  intros Hf. induction 1 as [|c group Hc Hg IH]; cbn; [apply steps_ret, _|].
  apply steps_bind; [apply _|by apply Hf|]. intros b. apply steps_bind; [apply _|apply IH|].
  intros bs. apply steps_ret, _.
Qed.

Lemma runGroup_steps iter group : Forall known group → steps R (runGroup opts order iter group).
Proof using Q Hord Hexecuted.
  intros Hk. unfold runGroup. destruct (_ || _); [|by apply runWorkers_steps].
  apply steps_mapM_known; [|done]. intros c. apply inline_steps.
Qed.
End Steps.

(** ** The parts that always return *)

Lemma host_always {A} (f : S → A * S) : always (host f).
Proof. intros r. unfold host. by destruct (f (Rn_host r)). Qed.

Lemma streamAll_always deltas : always (streamAll (S := S) deltas).
Proof.
  induction deltas as [|d deltas IH]; cbn; [done|]. apply always_bind; [by apply always_bind|].
  intros _. apply IH.
Qed.

Lemma runHook_always input : always (runHook opts input).
Proof.
  unfold runHook. destruct (Hooks opts); [|done]. apply always_bind.
  - apply host_always.
  - intros out. by apply always_bind.
Qed.

Lemma fireNotification_always kind name id args reason : always (fireNotification opts kind name id args reason).
Proof. unfold fireNotification. destruct (Hooks opts); [|done]. by apply always_bind; [apply runHook_always|]. Qed.

Lemma fireRunEndHook_always stats err : always (fireRunEndHook opts stats err).
Proof. unfold fireRunEndHook. destruct (Hooks opts); [|done]. by apply always_bind; [apply runHook_always|]. Qed.

Lemma finish_always err : always (finish opts err).
Proof.
  unfold finish. apply always_bind; [done|]. intros stats. apply always_bind; [done|]. intros _.
  apply fireRunEndHook_always.
Qed.

Lemma hookGate_always c : always (hookGate opts c).
Proof.
  unfold hookGate. apply always_bind; [apply runHook_always|]. intros out. by destruct (Blocked out).
Qed.

Lemma deny_then_always c reason result (m : Loop S unit) :
  always m → always (c' ← deny c reason result; _ ← m; mret c').
Proof. intros Hm. apply always_bind; [done|]. intros c'. by apply always_bind. Qed.

Lemma gateCall_always policy c : always (gateCall opts policy c).
Proof.
  unfold gateCall. destruct (Pc_decided c).
  - apply always_bind; [|done]. by destruct (_ != _).
  - apply always_bind; [done|]. intros _. destruct (Pc_tool c) as [tool|]; [|done].
    apply always_bind; [by intros r|]. intros over. destruct over; [done|].
    apply always_bind; [done|]. intros grants. cbv zeta. destruct (if _ && _ then _ else _); [|..|done].
    + apply hookGate_always.
    + unfold approvalGate. apply always_bind; [apply fireNotification_always|]. intros _.
      destruct (ApprovalHandler opts) as [request|]; [|apply deny_then_always, fireNotification_always].
      apply always_bind; [apply host_always|]. intros d. apply always_bind; [done|]. intros _. destruct d.
      * apply deny_then_always, fireNotification_always.
      * apply hookGate_always.
      * apply always_bind; [done|]. intros _. apply hookGate_always.
    + done.
Qed.

Lemma AskUser_always id qs : always (AskUser opts id qs).
Proof.
  unfold AskUser. destruct (Questioner opts); [|done]. apply always_bind; [apply fireNotification_always|]. intros _.
  apply always_bind; [apply host_always|]. intros a. apply always_bind; [|done].
  destruct a as [a|?]; [by destruct (question.Ans_Deferred a)|done].
Qed.

Lemma runTool_always {A} id (p : toolProg S A) : always (runTool opts id p).
Proof.
  induction p as [r|v|step k IH|qs k IH|st k IH]; cbn; try done.
  - apply always_bind; [done|]. intros s. apply always_bind; [apply host_always|]. intros _. apply IH.
  - apply always_bind; [apply AskUser_always|]. intros a. apply IH.
  - apply always_bind; [done|]. intros _. apply IH.
Qed.

Lemma executeCall_always iter c : always (executeCall opts iter c).
Proof.
  unfold executeCall. destruct (Pc_decided c); [done|]. destruct (Pc_tool c); [|done].
  apply always_bind; [done|]. intros _. apply always_bind; [apply runTool_always|]. by intros [result|v].
Qed.

Lemma worker_always iter c : always (worker opts iter c).
Proof. unfold worker. apply always_bind; [apply executeCall_always|]. by intros [c'|v]. Qed.

Lemma runWorkers_always iter turns : ∀ group, always (runWorkers opts iter turns group).
Proof.
  induction turns as [|i turns IH]; intros group; cbn; [done|]. destruct (group !! i); [|apply IH].
  apply always_bind; [apply worker_always|]. intros c'. apply IH.
Qed.

Lemma firePostHook_always c : always (firePostHook opts c).
Proof. unfold firePostHook. destruct (Pc_executed c); [|done]. by apply always_bind; [apply runHook_always|]. Qed.

Lemma appendToolOutcome_always c : always (appendToolOutcome (S := S) c).
Proof.
  unfold appendToolOutcome. apply always_bind; [apply host_always|]. by intros [u|e].
Qed.

Lemma commitCalls_always group : ∀ count writes, always (commitCalls opts group count writes).
Proof.
  induction group as [|c group IH]; intros count writes; cbn; [done|].
  apply always_bind; [apply firePostHook_always|]. intros _.
  apply always_bind; [apply appendToolOutcome_always|]. intros [u|e]; [apply IH|done].
Qed.

Lemma recordToolBoundary_always group : always (recordToolBoundary (S := S) group).
Proof.
  unfold recordToolBoundary. destruct toolBoundary; [|done]. cbv zeta. destruct (_ =? 0); [done|].
  apply always_bind; [apply host_always|]. by intros [u|e].
Qed.
End Parts.
