(* ===== verification/AgentLoopSafety.v ===== *)
(** * AgentLoopSafety: no call runs unless it was let through

    Whatever the model asks and the host does, a tool is executed only when the
    permission layers resolved its call to Allow, or to Ask with an approval or a
    grant; when no hook blocked it; and after the boundary that names it was
    recorded; and a call is executed at most three times with the same
    arguments. *)

From Stdlib Require Import Ascii String.
From S2P Require Import Prelude EffLogic Text Json SessionCore Pricing SessionMeta AgentContext AgentNotes AgentCore AgentLoop AgentRunLogic AgentRunParts.
From stdpp Require Import gmap strings.
Import Prelude.
Import runstats llmapi tools hooks runloop.
Local Open Scope Z_scope.
Local Open Scope buildmax_scope.

Section Safety.
Context {S : Type} `{Lib} {Hist : History S} (opts : RunLoopOpts S).
Context (order : nat → list nat) (grants0 : SessionGrants).

(** ** What the log of a run must show before a call is executed *)

Notation policy := (default AllowAllPolicy (Policy opts)).
Notation name_of c := (llm.TC_Name c).

Definition sessionGrant (l : list entry) (scope : string) : Prop :=
  ∃ call args target, Approval call args target ApprovalAllowSession ∈ l ∧
    scope = grantScope (name_of call) target.

Definition approved (l : list entry) (call : llm.ToolCall) (args : Args) (scope : string) : Prop :=
  granted grants0 scope = true ∨ sessionGrant l scope ∨
  ∃ target d, Approval call args target d ∈ l ∧ d ≠ ApprovalDeny.

Definition preToolUse (call : llm.ToolCall) (args : Args) : HookInput :=
  baseHookInput opts HookPreToolUse <| In_ToolName := name_of call |>
    <| In_ToolCallID := llm.TC_ID call |> <| In_ToolArgs := args |>.

(** The part the gate decides. *)
Definition cleared (l : list entry) (tool : Tool S) (call : llm.ToolCall) (args : Args) : Prop :=
  Lookup (Registry opts) (name_of call) = Some tool ∧
  (let scope := grantScope (name_of call) (grantTarget tool args) in
   let action := resolveAction (Some policy) tool (name_of call) scope args (interactive opts) in
   action = ToolActionAllow ∨ action = ToolActionAsk ∧ approved l call args scope) ∧
  (Hooks opts ≠ None → ∃ out, Hooked (preToolUse call args) out ∈ l ∧ Blocked out = false).

Definition permitted (l : list entry) (call : llm.ToolCall) (args : Args) : Prop :=
  (∃ tool, cleared l tool call args) ∧
  (toolBoundary ≠ None →
   ∃ starts, Started starts ∈ l ∧ agent.mkToolCallStart (llm.TC_ID call) (name_of call) ∈ starts).

Definition safeLog (l : list entry) : Prop :=
  ∀ l1 call args l2, l = l1 ++ Executed call args :: l2 → permitted l1 call args.

Definition isExecution (fp : string) (e : entry) : bool :=
  match e with Executed call args => toolFingerprint (name_of call) args == fp | _ => false end.

Definition executions (fp : string) (l : list entry) : Z :=
  Z.of_nat (length (List.filter (isExecution fp) l)).

(** ** Facts that stay *)

Definition mono (F : list entry → Prop) : Prop := ∀ l l', F l → F (l ++ l').

Lemma mono_in e : mono (λ l, e ∈ l).
Proof. intros l l' H'. apply elem_of_app. by left. Qed.

Lemma sessionGrant_mono scope : mono (λ l, sessionGrant l scope).
Proof. intros l l' (c & a & t & He & E). exists c, a, t. split; [by apply mono_in|done]. Qed.

Lemma approved_mono call args scope : mono (λ l, approved l call args scope).
Proof.
  intros l l' [Hg|[Hg|(t & d & He & Hd)]]; [by left| |].
  - right; left. by apply sessionGrant_mono.
  - right; right. exists t, d. split; [by apply mono_in|done].
Qed.

Lemma cleared_mono tool call args : mono (λ l, cleared l tool call args).
Proof.
  intros l l' (Hl & Ha & Hh). split_and!; [done| |].
  - destruct Ha as [Ha|[Ha Hap]]; [by left|]. right. split; [done|]. by apply approved_mono.
  - intros Hne. destruct (Hh Hne) as (out & Ho & Hb). exists out. split; [by apply mono_in|done].
Qed.

Lemma permitted_mono call args : mono (λ l, permitted l call args).
Proof.
  intros l l' ((tool & Ht) & Hb). split; [exists tool; by apply cleared_mono|].
  intros Hne. destruct (Hb Hne) as (starts & Hs & Hin). exists starts. split; [by apply mono_in|done].
Qed.

Lemma safeLog_snoc l e :
  safeLog l → (∀ call args, e = Executed call args → permitted l call args) → safeLog (l ++ [e]).
Proof.
  intros Hs He l1 call args l2 E.
  destruct l2 as [|e' l2 _] using rev_ind.
  - apply app_inj_tail in E as [-> ->]. by apply He.
  - rewrite app_comm_cons, app_assoc in E. apply app_inj_tail in E as [-> _]. by eapply Hs.
Qed.

Lemma executions_app fp l l' : executions fp (l ++ l') = executions fp l + executions fp l'.
Proof. unfold executions. rewrite List.filter_app, length_app. lia. Qed.

(** ** The invariant of a run, with the calls of its group in flight *)

Definition grantsOK (r : Run S) : Prop :=
  ∀ scope, granted (Rn_grants r) scope = true → granted grants0 scope = true ∨ sessionGrant (Rn_log r) scope.

Definition inflightCall (fp : string) (c : pendingCall S) : bool :=
  negb (Pc_decided c) && negb (Pc_executed c)
  && (toolFingerprint (name_of (Pc_call c)) (Pc_args c) == fp).

Definition inflight (fp : string) (group : list (pendingCall S)) : Z :=
  Z.of_nat (length (List.filter (inflightCall fp) group)).

Record safe (group : list (pendingCall S)) (r : Run S) : Prop := {
  safe_log : safeLog (Rn_log r);
  safe_grants : grantsOK r;
  safe_guard fp : executions fp (Rn_log r) + inflight fp group
                  ≤ Z.min defaultMaxRepeatedCalls (count (Rn_guard r) fp)
}.

Lemma inflight_app fp g g' : inflight fp (g ++ g') = inflight fp g + inflight fp g'.
Proof. unfold inflight. rewrite List.filter_app, length_app. lia. Qed.

Lemma inflight_nonneg fp g : 0 ≤ inflight fp g.
Proof. unfold inflight. lia. Qed.

Lemma safe_group g g' r : (∀ fp, inflight fp g' ≤ inflight fp g) → safe g r → safe g' r.
Proof. intros Hle [H1 H2 H3]. split; [done|done|]. intros fp. specialize (H3 fp). specialize (Hle fp). lia. Qed.

Lemma safe_drop g r : safe g r → safe [] r.
Proof. apply safe_group. intros fp. apply inflight_nonneg. Qed.

(** The group in flight, and facts about the log that stay. *)
Definition At (F : list entry → Prop) (g : list (pendingCall S)) (r : Run S) : Prop :=
  safe g r ∧ F (Rn_log r).

Notation failed := (λ (_ : runError) r, safe [] r).

(** ** Steps that neither execute, approve nor start *)

Definition calmEntry (e : entry) : Prop :=
  match e with Executed _ _ | Approval _ _ _ _ | Started _ => False | _ => True end.

Definition calm : relation (Run S) := λ r r',
  Rn_guard r' = Rn_guard r ∧ Rn_grants r' = Rn_grants r ∧
  ∃ l, Rn_log r' = Rn_log r ++ l ∧ Forall calmEntry l.

#[local] Instance calm_preorder : PreOrder calm.
Proof.
  split.
  - intros r. split_and!; [done..|]. exists []. by rewrite app_nil_r.
  - intros r1 r2 r3 (G1 & S1 & l1 & E1 & F1) (G2 & S2 & l2 & E2 & F2).
    split_and!; [congruence..|]. exists (l1 ++ l2). rewrite E2, E1, app_assoc. split; [done|]. by apply Forall_app.
Qed.

Lemma calm_same r r' :
  Rn_guard r' = Rn_guard r → Rn_grants r' = Rn_grants r → Rn_log r' = Rn_log r → calm r r'.
Proof. intros ? ? E. split_and!; [done..|]. exists []. by rewrite E, app_nil_r. Qed.

Lemma calm_host {A} (f : S → A * S) : steps calm (host f).
Proof. intros r. unfold host. destruct (f (Rn_host r)). by apply calm_same. Qed.

Lemma calm_record e : calmEntry e → steps calm (record (S := S) e).
Proof. intros He r. split_and!; [done..|]. exists [e]. split; [done|]. by constructor. Qed.

Lemma toolSteps_all {A} (P : (S → S) → Prop) (p : toolProg S A) : (∀ step, P step) → toolSteps P p.
Proof. intros HP. induction p; cbn; auto. Qed.

#[local] Instance calm_quiet : Quiet opts calm calmEntry.
Proof.
  split; try (intros; by apply calm_host); try (intros; intros r; by apply calm_same).
  - apply _.
  - intros e He. by apply calm_record.
  - intros tool _ ctx args. split.
    + apply toolSteps_all. intros step. apply calm_host.
    + intros execute _. apply toolSteps_all. intros step. apply calm_host.
Qed.

Lemma ordinary_calm e : ordinary e → calmEntry e.
Proof. by destruct e. Qed.

Lemma safe_calm g r r' : calm r r' → safe g r → safe g r'.
Proof.
  intros (HG & HS & l & E & Hl) [H1 H2 H3]. split.
  - rewrite E. clear -Hl H1. revert H1. induction l as [|e l IH] using rev_ind; intros H1; [by rewrite app_nil_r|].
    apply Forall_app in Hl as [Hl He]. rewrite Forall_singleton in He.
    rewrite app_assoc. apply safeLog_snoc; [by apply IH|]. intros call args ->. destruct He.
  - intros scope Hg. rewrite HS in Hg. destruct (H2 scope Hg); [by left|].
    right. rewrite E. by apply sessionGrant_mono.
  - intros fp. rewrite HG, E, executions_app. specialize (H3 fp).
    enough (executions fp l = 0) by lia. unfold executions. clear -Hl.
    induction Hl as [|e l He Hl IH]; [done|]. destruct e; first [exact IH|destruct He].
Qed.

Lemma calm_triple {A} (m : Loop S A) F g :
  steps calm m → mono F → triple (At F g) m (λ _, At F g) failed.
Proof.
  intros Hm HF r [Hs Hf]. specialize (Hm r). destruct (m r) as [[a|e] r']; cbn in Hm.
  - split; [by eapply safe_calm|]. destruct Hm as (_ & _ & l & E & _). rewrite E. by apply HF.
  - eapply safe_drop, safe_calm; [exact Hm|done].
Qed.

Lemma runHook_triple input F g : mono F →
  triple (At F g) (runHook opts input)
    (λ out, At (λ l, F l ∧ (Hooks opts ≠ None → Hooked input out ∈ l)) g) failed.
Proof.
  intros HF. unfold runHook. destruct (Hooks opts) as [run|] eqn:E.
  - eapply triple_bind; [apply calm_triple; [apply calm_host|done]|]. intros out.
    eapply triple_bind with (R := λ _, At (λ l, F l ∧ Hooked input out ∈ l) g).
    + intros r [Hs Hf]. cbn. split.
      * eapply safe_calm; [|exact Hs]. by apply (calm_record (Hooked input out)).
      * cbn. split; [by apply HF|]. apply elem_of_app. right. by left.
    + intros _. apply triple_ret. intros r [Hs [Hf Hin]]. split; [done|]. by split.
  - apply triple_ret. intros r [Hs Hf]. split; [done|]. split; [done|]. by intros [].
Qed.

(** ** The gate *)

Definition gated (l : list entry) (c : pendingCall S) : Prop :=
  Pc_decided c = false →
  Pc_executed c = false ∧ ∃ tool, Pc_tool c = Some tool ∧ cleared l tool (Pc_call c) (Pc_args c).

Lemma gated_mono c : mono (λ l, gated l c).
Proof.
  intros l l' Hg Hd. destruct (Hg Hd) as (He & tool & Ht & Hc). split; [done|].
  exists tool. split; [done|]. by apply cleared_mono.
Qed.

Lemma decided_gated l c : Pc_decided c = true → gated l c.
Proof. intros E E'. congruence. Qed.

Lemma inflight_decided fp g c : Pc_decided c = true → inflight fp (g ++ [c]) = inflight fp g.
Proof.
  intros E. rewrite inflight_app. unfold inflight at 2, inflightCall. cbn. rewrite E. cbn. lia.
Qed.

Lemma safe_decided g c' r : safe g r → Pc_decided c' = true → safe (g ++ [c']) r.
Proof.
  intros Hs E. eapply safe_group; [|exact Hs]. intros fp. by rewrite inflight_decided.
Qed.

Notation gateFor F g := (λ c' r, At F (g ++ [c']) r ∧ gated (Rn_log r) c').

Lemma deny_triple F g c reason result : mono F →
  triple (At F g) (deny c reason result) (gateFor F g) failed.
Proof.
  intros HF. unfold deny. eapply triple_bind.
  { apply calm_triple; [|done]. by apply (emit_steps opts calm calmEntry ordinary_calm). }
  intros ?. apply triple_ret. intros r [Hs Hf].
  split; [|by apply decided_gated]. split; [|done]. by apply safe_decided.
Qed.

Lemma At_less F g c r : At F (g ++ [c]) r → At F g r.
Proof.
  intros [Hs Hf]. split; [|done]. eapply safe_group; [|exact Hs]. intros fp.
  rewrite inflight_app. pose proof (inflight_nonneg fp [c]). lia.
Qed.

Lemma deny_counted F g c reason result : mono F →
  triple (At F (g ++ [c])) (deny c reason result) (gateFor F g) failed.
Proof. intros HF. eapply triple_pre; [by apply (deny_triple F g)|]. intros r. apply At_less. Qed.

Definition actionOK (l : list entry) (tool : Tool S) (call : llm.ToolCall) (args : Args) : Prop :=
  let scope := grantScope (name_of call) (grantTarget tool args) in
  let action := resolveAction (Some policy) tool (name_of call) scope args (interactive opts) in
  action = ToolActionAllow ∨ action = ToolActionAsk ∧ approved l call args scope.

Lemma actionOK_mono tool call args : mono (λ l, actionOK l tool call args).
Proof. intros l l' [Ha|[Ha Hp]]; [by left|]. right. split; [done|]. by apply approved_mono. Qed.

(** A call on its way: looked up, not yet decided or executed. *)
Record fresh (c : pendingCall S) (tool : Tool S) : Prop := {
  fresh_decided : Pc_decided c = false;
  fresh_executed : Pc_executed c = false;
  fresh_tool : Pc_tool c = Some tool;
  fresh_lookup : Lookup (Registry opts) (name_of (Pc_call c)) = Some tool
}.

Lemma hookGate_triple F g c tool : mono F → fresh c tool →
  triple (At (λ l, F l ∧ actionOK l tool (Pc_call c) (Pc_args c)) (g ++ [c])) (hookGate opts c)
    (gateFor F g) failed.
Proof.
  intros HF Hc. unfold hookGate.
  assert (mono (λ l, F l ∧ actionOK l tool (Pc_call c) (Pc_args c))) as HF'.
  { intros l l' [H1 H2]. split; [by apply HF|by apply actionOK_mono]. }
  eapply triple_bind; [by apply runHook_triple|]. intros out. destruct (Blocked out) eqn:Eb.
  - eapply triple_pre; [by apply (deny_counted F)|].
    intros r [Hs [[Hf _] _]]. by split.
  - apply triple_ret. intros r [Hs [[Hf Ha] Hh]]. split; [by split|]. intros _.
    destruct Hc. split; [done|]. exists tool. split; [done|]. split_and!; [done|exact Ha|].
    intros Hne. exists out. split; [by apply Hh|done].
Qed.

Lemma approvalGate_triple F g c tool : mono F → fresh c tool →
  let scope := grantScope (name_of (Pc_call c)) (grantTarget tool (Pc_args c)) in
  resolveAction (Some policy) tool (name_of (Pc_call c)) scope (Pc_args c) (interactive opts) = ToolActionAsk →
  triple (At F (g ++ [c])) (approvalGate opts c (grantTarget tool (Pc_args c)) scope) (gateFor F g) failed.
Proof.
  intros HF Hc scope Hask. unfold approvalGate.
  eapply triple_bind.
  { apply calm_triple; [|done]. by apply (fireNotification_steps opts calm calmEntry ordinary_calm). }
  intros ?. destruct (ApprovalHandler opts) as [request|] eqn:Eh.
  2: { eapply triple_bind; [by apply deny_counted|]. intros c'.
       eapply triple_bind; [|intros ?; apply triple_ret; intros ? Hr; exact Hr].
       eapply triple_conseq with (P' := At (λ l, F l ∧ gated l c') (g ++ [c'])).
       - apply calm_triple; [by apply (fireNotification_steps opts calm calmEntry ordinary_calm)|].
         intros l l' [H1 H2]. split; [by apply HF|by apply gated_mono].
       - intros r [[Hs Hf] Hg]. by split.
       - intros _ r [Hs [Hf Hg]]. by split.
       - done. }
  eapply triple_bind; [apply calm_triple; [apply calm_host|done]|]. intros d.
  eapply triple_bind with
    (R := λ _, At (λ l, F l ∧ Approval (Pc_call c) (Pc_args c) (grantTarget tool (Pc_args c)) d ∈ l) (g ++ [c])).
  { intros r [[H1 H2 H3] Hf]. cbn. split; [split|]; cbn.
    - by apply safeLog_snoc.
    - intros s Hg. destruct (H2 s Hg); [by left|]. right. by apply sessionGrant_mono.
    - intros fp. rewrite executions_app. unfold executions at 2. cbn. specialize (H3 fp). lia.
    - split; [by apply HF|]. apply elem_of_app. right. by left. }
  intros ?. destruct d.
  - eapply triple_bind.
    { eapply triple_pre; [by apply (deny_counted F)|]. intros r [Hs [Hf _]]. by split. }
    intros c'. eapply triple_bind; [|intros ?; apply triple_ret; intros ? Hr; exact Hr].
    eapply triple_conseq with (P' := At (λ l, F l ∧ gated l c') (g ++ [c'])).
    + apply calm_triple; [by apply (fireNotification_steps opts calm calmEntry ordinary_calm)|].
      intros l l' [H1 H2]. split; [by apply HF|by apply gated_mono].
    + intros r [[Hs Hf] Hg]. by split.
    + intros _ r [Hs [Hf Hg]]. by split.
    + done.
  - eapply triple_pre; [by apply (hookGate_triple F)|].
    intros r [Hs [Hf Hin]]. split; [done|]. split; [done|]. right. split; [done|].
    right; right. by exists (grantTarget tool (Pc_args c)), ApprovalAllowOnce.
  - eapply triple_bind with (R := λ _, At (λ l, F l ∧ actionOK l tool (Pc_call c) (Pc_args c)) (g ++ [c])).
    + intros r [[H1 H2 H3] [Hf Hin]]. cbn.
      assert (sessionGrant (Rn_log r) scope) as Hsg.
      { by exists (Pc_call c), (Pc_args c), (grantTarget tool (Pc_args c)). }
      split; [split; cbn; [done| |done]|].
      * intros s Hg. unfold grant in Hg. cbn in Hg. specialize (H2 s).
        destruct (Rn_grants r) as [scopes|]; cbn in *; [|done].
        apply bool_decide_eq_true in Hg. apply elem_of_union in Hg as [->%elem_of_singleton | Hg]; [by right|].
        apply H2. by apply bool_decide_eq_true.
      * split; [done|]. right. split; [done|]. right; by left.
    + intros ?. by apply hookGate_triple.
Qed.

Lemma count_insert counts fp n fp' :
  count (<[fp := n]> counts) fp' = if decide (fp = fp') then n else count counts fp'.
Proof.
  unfold count. destruct (decide (fp = fp')) as [-> |Hne].
  - by rewrite lookup_insert_eq.
  - by rewrite lookup_insert_ne.
Qed.

Lemma safe_counted g g' r r' fp n :
  Rn_log r' = Rn_log r → Rn_grants r' = Rn_grants r → Rn_guard r' = <[fp := n]> (Rn_guard r) → safe g r →
  (∀ fp', executions fp' (Rn_log r) + inflight fp' g'
          ≤ Z.min defaultMaxRepeatedCalls (if decide (fp = fp') then n else count (Rn_guard r) fp')) →
  safe g' r'.
Proof.
  intros El Es Eg [H1 H2 H3] Hn. split.
  - by rewrite El.
  - intros scope. rewrite Es, El. apply H2.
  - intros fp'. rewrite Eg, El, count_insert. apply Hn.
Qed.

(** A call that passes the guard is counted and in flight. *)
Lemma guard_triple F g c : Pc_decided c = false → Pc_executed c = false →
  triple (At F g) (guardExceeded (name_of (Pc_call c)) (Pc_args c))
    (λ over r, At F (if over : bool then g else g ++ [c]) r) failed.
Proof.
  intros Hd He r [Hs Hf]. unfold guardExceeded, exceeded.
  set (fp := toolFingerprint _ _). rewrite count_insert, decide_True by done.
  destruct (Z.ltb_spec defaultMaxRepeatedCalls (count (Rn_guard r) fp + 1)) as [Hlt|Hle];
    (split; [|exact Hf]); (apply (safe_counted g _ r _ fp (count (Rn_guard r) fp + 1)); [done|done|done|exact Hs|]);
    intros fp'; pose proof (safe_guard _ _ Hs fp') as H3.
  - destruct (decide (fp = fp')); subst; lia.
  - rewrite inflight_app. unfold inflight at 2, inflightCall. cbn. rewrite Hd, He. cbn. fold fp.
    destruct (decide (fp = fp')) as [<- |Hne].
    + rewrite bool_decide_eq_true_2 by done. cbn. lia.
    + rewrite bool_decide_eq_false_2 by done. cbn. lia.
Qed.

(** What parsing leaves. *)
Definition parsed (c : pendingCall S) : Prop :=
  Pc_executed c = false ∧
  (Pc_decided c = false → Pc_tool c = Lookup (Registry opts) (name_of (Pc_call c))).

Lemma gateCall_triple F g c : mono F → parsed c →
  triple (At F g) (gateCall opts policy c) (gateFor F g) failed.
Proof.
  intros HF [He Hp]. unfold gateCall. destruct (Pc_decided c) eqn:Ed.
  - eapply triple_bind with (R := λ _, At F g).
    + apply calm_triple; [|done]. destruct (_ != _); [|apply steps_ret, _].
      apply steps_bind; [apply _| |intros ?]; by apply (emit_steps opts calm calmEntry ordinary_calm).
    + intros ?. apply triple_ret. intros r [Hs Hf]. split; [|by apply decided_gated].
      split; [by apply safe_decided|done].
  - eapply triple_bind.
    { apply calm_triple; [|done]. by apply (emit_steps opts calm calmEntry ordinary_calm). }
    intros ?. specialize (Hp eq_refl). destruct (Pc_tool c) as [tool|] eqn:Et; [|by apply deny_triple].
    assert (fresh c tool) as Hc by by split.
    eapply triple_bind; [by apply (guard_triple F g c)|]. intros over. destruct over; [by apply deny_triple|].
    cbn beta iota.
    eapply triple_bind with (R := λ grants r, (∀ scope, granted grants scope = true →
      granted grants0 scope = true ∨ sessionGrant (Rn_log r) scope) ∧ At F (g ++ [c]) r).
    { apply triple_gets. intros r [Hs Hf]. split; [by apply (safe_grants _ _ Hs)|by split]. }
    intros grants. cbv zeta.
    set (scope := grantScope _ _). destruct (resolveAction _ _ _ _ _ _) eqn:Ea; cbn [andb].
    + eapply triple_pre; [by apply (hookGate_triple F)|]. intros r [_ [Hs Hf]].
      split; [done|]. split; [done|]. by left.
    + rewrite bool_decide_eq_true_2 by done. cbn [andb]. destruct (granted grants scope) eqn:Eg.
      * eapply triple_pre; [by apply (hookGate_triple F)|]. intros r [Hg [Hs Hf]].
        split; [done|]. split; [done|]. right. split; [done|].
        destruct (Hg _ Eg) as [?|?]; [by left|right; by left].
      * eapply triple_pre; [by apply (approvalGate_triple F g c tool)|]. by intros r [_ ?].
    + eapply triple_pre; [by apply (deny_counted F)|]. by intros r [_ ?].
    + apply triple_ret. intros r [_ Hat]. apply At_less in Hat as [Hs Hf].
      split; [|by apply decided_gated]. split; [by apply safe_decided|done].
Qed.

Lemma gateAll_triple group : Forall parsed group →
  triple (safe []) (mapM (gateCall opts policy) group)
    (λ group', At (λ l, Forall (gated l) group') group') failed.
Proof.
  intros Hp. rewrite Forall_forall in Hp.
  eapply triple_pre; [apply (triple_mapM _ (λ g, At (λ l, Forall (gated l) g) g))|].
  - intros done c Hc. eapply triple_conseq.
    + apply (gateCall_triple (λ l, Forall (gated l) done) done c); [|by apply Hp].
      intros l l' Hl. eapply Forall_impl; [exact Hl|]. intros x Hx. by apply gated_mono.
    + auto.
    + intros c' r [[Hs Hf] Hg]. split; [done|]. apply Forall_app. split; [done|]. by constructor.
    + auto.
  - intros r Hs. split; [done|]. constructor.
Qed.

(** ** The boundary and the execution of a group *)

Definition ready (l : list entry) (c : pendingCall S) : Prop :=
  Pc_decided c = false →
  Pc_executed c = false ∧ (∃ tool, Pc_tool c = Some tool) ∧ permitted l (Pc_call c) (Pc_args c).

Lemma ready_mono c : mono (λ l, ready l c).
Proof.
  intros l l' Hr Hd. destruct (Hr Hd) as (He & Ht & Hp). split_and!; [done..|]. by apply permitted_mono.
Qed.

Lemma Forall_mono (P : list entry → pendingCall S → Prop) group :
  (∀ c, mono (λ l, P l c)) → mono (λ l, Forall (P l) group).
Proof. intros HP l l' Hf. eapply Forall_impl; [exact Hf|]. intros c Hc. by apply HP. Qed.

Lemma gated_ready l c :
  gated l c →
  (Pc_decided c = false → toolBoundary ≠ None →
   ∃ starts, Started starts ∈ l
     ∧ agent.mkToolCallStart (llm.TC_ID (Pc_call c)) (name_of (Pc_call c)) ∈ starts) →
  ready l c.
Proof.
  intros Hg Hb Hd. destruct (Hg Hd) as (He & tool & Ht & Hc).
  split_and!; [done|by exists tool|]. split; [by exists tool|]. by apply Hb.
Qed.

Lemma recordToolBoundary_triple group :
  triple (At (λ l, Forall (gated l) group) group) (recordToolBoundary group)
    (λ res r, match res with
              | Ok _ => At (λ l, Forall (ready l) group) group r
              | Err _ => safe [] r
              end) failed.
Proof.
  unfold recordToolBoundary. destruct toolBoundary as [h|] eqn:Eb.
  2: { apply triple_ret. intros r [Hs Hf]. split; [done|].
       eapply Forall_impl; [exact Hf|]. intros c Hc. apply gated_ready; [done|]. by rewrite Eb. }
  set (starts := map _ _).
  assert (∀ c, c ∈ group → Pc_decided c = false →
    agent.mkToolCallStart (llm.TC_ID (Pc_call c)) (name_of (Pc_call c)) ∈ starts) as Hstarts.
  { intros c Hc Hd. subst starts. apply list_elem_of_fmap. exists c. split; [done|].
    apply list_elem_of_In, filter_In. split; [by apply list_elem_of_In|]. by rewrite Hd. }
  destruct (Nat.eqb_spec (length starts) 0) as [E|Hne].
  - apply triple_ret. intros r [Hs Hf]. split; [done|]. apply nil_length_inv in E. rewrite E in Hstarts.
    apply Forall_forall. intros c Hc Hd. exfalso. specialize (Hstarts c Hc Hd).
    by apply not_elem_of_nil in Hstarts.
  - eapply triple_bind.
    { apply (calm_triple _ (λ l, Forall (gated l) group) group); [apply calm_host|].
      apply Forall_mono. intros c. apply gated_mono. }
    intros [u|e].
    + eapply triple_bind with (R := λ _, At (λ l, Forall (ready l) group) group).
      * intros r [[H1 H2 H3] Hf]. cbn. split; [split|]; cbn.
        -- by apply safeLog_snoc.
        -- intros s Hg. destruct (H2 s Hg); [by left|]. right. by apply sessionGrant_mono.
        -- intros fp. rewrite executions_app. unfold executions at 2. cbn. specialize (H3 fp). lia.
        -- rewrite Forall_forall in Hf |- *. intros c Hc. apply gated_ready; [by apply gated_mono, Hf|].
           intros Hd _. exists starts. split; [|by apply Hstarts]. apply elem_of_app. right. by left.
      * intros ?. apply triple_ret. intros r Hr. exact Hr.
    + apply triple_ret. intros r [Hs _]. by eapply safe_drop.
Qed.

Lemma inflight_split fp g1 c g2 : inflight fp (g1 ++ c :: g2) = inflight fp (g1 ++ g2) + inflight fp [c].
Proof. change (c :: g2) with ([c] ++ g2). rewrite !inflight_app. lia. Qed.

Lemma safe_replace g1 c c' g2 r :
  safe (g1 ++ c :: g2) r → (∀ fp, inflight fp [c'] = 0) → safe (g1 ++ c' :: g2) r.
Proof.
  intros Hs E. eapply safe_group; [|exact Hs]. intros fp.
  rewrite !inflight_split, E. pose proof (inflight_nonneg fp [c]). lia.
Qed.

Lemma inflight_done fp c : Pc_executed c = true → inflight fp [c] = 0.
Proof. intros E. unfold inflight, inflightCall. cbn. rewrite E, andb_false_r. done. Qed.

(** Recording the execution moves the call from in flight to executed. *)
Lemma record_execution F g1 c g2 : mono F → Pc_decided c = false → Pc_executed c = false →
  triple (At (λ l, F l ∧ permitted l (Pc_call c) (Pc_args c)) (g1 ++ c :: g2))
    (record (Executed (Pc_call c) (Pc_args c)))
    (λ _, At F (g1 ++ g2)) failed.
Proof.
  intros HF Hd He r [[H1 H2 H3] [Hf Hp]]. cbn. split; [split|]; cbn.
  - apply safeLog_snoc; [done|]. by intros call args [= <- <-].
  - intros s Hg. destruct (H2 s Hg); [by left|]. right. by apply sessionGrant_mono.
  - intros fp. rewrite executions_app. specialize (H3 fp). rewrite inflight_split in H3.
    enough (executions fp [Executed (Pc_call c) (Pc_args c)] = inflight fp [c]) by lia.
    unfold executions, inflight, inflightCall. cbn. rewrite Hd, He. cbn. by case_bool_decide.
  - by apply HF.
Qed.

Lemma executeCall_triple F iter g1 c g2 : mono F →
  triple (At (λ l, F l ∧ ready l c) (g1 ++ c :: g2)) (executeCall opts iter c)
    (λ res r, match res with
              | Ok c' => At F (g1 ++ c' :: g2) r
              | Err _ => At F (g1 ++ g2) r
              end) failed.
Proof.
  intros HF. unfold executeCall. destruct (Pc_decided c) eqn:Ed.
  { apply triple_ret. intros r [Hs [Hf _]]. by split. }
  destruct (Pc_tool c) as [tool|] eqn:Et.
  2: { apply triple_ret. intros r [Hs [Hf Hr]]. destruct (Hr Ed) as (_ & [tool Ht] & _). congruence. }
  destruct (Pc_executed c) eqn:Ee.
  { intros r [_ [_ Hr]]. destruct (Hr Ed) as (He & _). congruence. }
  eapply triple_bind.
  { eapply triple_pre; [by apply (record_execution F g1 c g2)|].
    intros r [Hs [Hf Hr]]. destruct (Hr Ed) as (_ & _ & Hp). by split. }
  intros ?. eapply triple_bind.
  { apply calm_triple; [|done]. apply (runTool_steps opts calm calmEntry ordinary_calm), executeTool_host.
    intros ctx args. split; [|intros execute _]; apply toolSteps_all; intros step; apply calm_host. }
  intros [result|v]; [|apply triple_ret; intros r Hr; exact Hr].
  eapply triple_bind.
  { apply calm_triple; [|done]. by apply (emit_steps opts calm calmEntry ordinary_calm). }
  intros ?. apply triple_ret. intros r [Hs Hf]. split; [|done].
  eapply safe_group; [|exact Hs]. intros fp. rewrite inflight_split, inflight_done; [lia|].
  unfold redact. destruct (RedactResult opts), result as [[text parts]|e]; done.
Qed.

Lemma worker_triple F iter g1 c g2 : mono F →
  triple (At (λ l, F l ∧ ready l c) (g1 ++ c :: g2)) (worker opts iter c)
    (λ c' r, At F (g1 ++ c' :: g2) r) failed.
Proof.
  intros HF. unfold worker. eapply triple_bind; [by apply executeCall_triple|].
  intros [c'|v]; apply triple_ret; intros r; [done|]. intros [Hs Hf]. split; [|done].
  eapply safe_group; [|exact Hs]. intros fp. rewrite inflight_split, inflight_done; [lia|done].
Qed.

Lemma runWorkers_triple iter turns : ∀ group, NoDup turns →
  triple (At (λ l, ∀ i c, i ∈ turns → group !! i = Some c → ready l c) group)
    (runWorkers opts iter turns group) (λ group' r, safe group' r) failed.
Proof.
  induction turns as [|i turns IH]; intros group Hnd; cbn.
  { apply triple_ret. by intros r [Hs _]. }
  apply NoDup_cons in Hnd as [Hi Hnd]. destruct (group !! i) as [c|] eqn:Ec.
  2: { eapply triple_pre; [by apply IH|]. intros r [Hs Hf]. split; [done|].
       intros j c Hj. apply Hf. by right. }
  pose proof (take_drop_middle _ _ _ Ec) as Eg.
  set (F := λ l : list entry, ∀ j c, j ∈ turns → group !! j = Some c → ready l c).
  assert (mono F) as HF.
  { intros l l' Hl j c' Hj Hc'. apply ready_mono. by apply (Hl j). }
  eapply triple_bind.
  { eapply triple_pre; [apply (worker_triple F iter (take i group) c (drop (Datatypes.S i) group) HF)|].
    intros r [Hs Hf]. rewrite Eg. split; [done|]. split; [intros j c' Hj; apply Hf; by right|].
    apply (Hf i); [by left|done]. }
  intros c'. eapply triple_pre; [by apply IH|]. intros r [Hs Hf].
  rewrite insert_take_drop by by eapply lookup_lt_Some. split; [done|].
  intros j x Hj. rewrite <- insert_take_drop by by eapply lookup_lt_Some.
  rewrite list_lookup_insert_ne by (intros ->; done). by apply Hf.
Qed.

Lemma inline_triple iter rest : ∀ g,
  triple (At (λ l, Forall (ready l) rest) (g ++ rest)) (mapM (inline opts iter) rest)
    (λ group' r, safe (g ++ group') r) failed.
Proof.
  induction rest as [|c rest IH]; intros g; cbn.
  { apply triple_ret. by intros r [Hs _]. }
  eapply triple_bind with (R := λ c', At (λ l, Forall (ready l) rest) ((g ++ [c']) ++ rest)).
  - unfold inline. eapply triple_bind.
    { eapply triple_pre; [apply (executeCall_triple (λ l, Forall (ready l) rest) iter g c rest)|].
      - apply Forall_mono. intros x. apply ready_mono.
      - intros r [Hs Hf]. apply Forall_cons in Hf as [? ?]. by split. }
    intros [c'|v].
    + apply triple_ret. intros r. by rewrite <- app_assoc.
    + apply triple_fail. intros r [Hs _]. by eapply safe_drop.
  - intros c'. eapply triple_bind; [apply IH|]. intros group'. apply triple_ret.
    intros r. by rewrite <- app_assoc.
Qed.

Lemma runGroup_triple iter group : NoDup (order (length group)) →
  triple (At (λ l, Forall (ready l) group) group) (runGroup opts order iter group)
    (λ group' r, safe group' r) failed.
Proof.
  intros Ho. unfold runGroup. destruct (_ || _).
  - exact (inline_triple iter group []).
  - eapply triple_pre; [by apply runWorkers_triple|]. intros r [Hs Hf]. split; [done|].
    intros i c _ Hc. rewrite Forall_lookup in Hf. by eapply Hf.
Qed.

(** ** Groups *)

Lemma parseCalls_parsed toolCalls : Forall parsed (parseCalls opts toolCalls).
Proof.
  unfold parseCalls. apply Forall_map, Forall_forall. intros tc _. unfold parsed, parseCall.
  destruct (llm.TC_Arguments tc == ""); [done|]. by destruct (UnmarshalArgs _).
Qed.

Lemma commitCalls_calm group : ∀ count writes, steps calm (commitCalls opts group count writes).
Proof.
  induction group as [|c group IH]; intros count writes; cbn; [apply steps_ret, _|].
  apply steps_bind; [apply _|by apply (firePostHook_steps opts calm calmEntry ordinary_calm)|]. intros _.
  apply steps_bind; [apply _| |intros [u|e]; [apply IH|apply steps_ret, _]].
  unfold appendToolOutcome. apply steps_bind; [apply _|apply calm_host|]. intros [u|e]; [|apply steps_ret, _].
  apply steps_bind; [apply _|by apply calm_record|]. intros _. apply steps_ret, _.
Qed.

Lemma safe_steps {A} (m : Loop S A) : steps calm m → triple (safe []) m (λ _, safe []) failed.
Proof. intros Hm. eapply triple_steps; [exact Hm|]. intros r r' Hs Hc. by eapply safe_calm. Qed.

(** Every group is at most the batch, so its workers have one turn each. *)
Definition fair : Prop := ∀ n, order n ≡ₚ seq 0 n.

Lemma fair_NoDup n : fair → NoDup (order n).
Proof. intros Ho. rewrite (Ho n). apply NoDup_seq. Qed.

Lemma runGroups_triple iter groups : fair → Forall (Forall parsed) groups → ∀ count writes,
  triple (safe []) (runGroups opts order policy iter groups count writes) (λ _, safe []) failed.
Proof.
  intros Ho. induction 1 as [|group groups Hg Hgs IH]; intros count writes; cbn; [by apply triple_ret|].
  eapply triple_bind; [by apply gateAll_triple|]. intros group'.
  eapply triple_bind; [apply recordToolBoundary_triple|]. intros [u|e]; [|by apply triple_ret].
  eapply triple_bind; [apply runGroup_triple, fair_NoDup, Ho|]. intros group''.
  eapply triple_bind.
  { eapply triple_pre; [apply safe_steps, commitCalls_calm|]. intros r. apply safe_drop. }
  intros [[count' writes'] [e|]]; [by apply triple_ret|apply IH].
Qed.

Lemma executeToolCalls_triple iter toolCalls : fair →
  triple (safe []) (executeToolCalls opts order iter toolCalls) (λ _, safe []) failed.
Proof.
  intros Ho. apply runGroups_triple; [done|].
  pose proof (parseCalls_parsed toolCalls) as Hp.
  rewrite <- (groupCalls_concat (parseCalls opts toolCalls) (MaxParallelTools opts)) in Hp.
  by apply Forall_concat in Hp.
Qed.

(** ** The run *)

Local Tactic Notation "calm_part" uconstr(lemma) :=
  apply safe_steps; apply (lemma opts calm calmEntry); try exact calm_quiet; try exact ordinary_calm; try (intros; apply calm_host); try (intros; exact I).

Lemma finish_safe err : triple (safe []) (finish opts err) (λ _, safe []) failed.
Proof. apply safe_steps, (finish_steps opts calm calmEntry ordinary_calm). Qed.

Lemma gets_safe {A} (f : Run S → A) : triple (safe []) (gets f) (λ _, safe []) failed.
Proof. by apply triple_gets. Qed.

Lemma fail_safe {A} e : triple (safe []) (fail e : Loop S A) (λ _, safe []) failed.
Proof. by apply triple_fail. Qed.

Lemma record_safe e : calmEntry e → triple (safe []) (record e) (λ _, safe []) failed.
Proof. intros He. apply safe_steps. by apply calm_record. Qed.

Lemma ret_safe {A} (a : A) : triple (safe []) (mret a) (λ _, safe []) failed.
Proof. by apply triple_ret. Qed.

Lemma finish_then_safe {A} err (m : Loop S A) :
  triple (safe []) m (λ _, safe []) failed →
  triple (safe []) (_ ← finish opts err; m) (λ _, safe []) failed.
Proof. intros Hm. eapply triple_bind; [apply finish_safe|by intros ?]. Qed.

Lemma iteration_safe patience iter summary texts : fair →
  triple (safe []) (iteration opts order patience iter summary texts) (λ _, safe []) failed.
Proof.
  intros Ho. unfold iteration.
  eapply triple_bind; [by apply record_safe|]. intros ?.
  eapply triple_bind; [calm_part injectPendingInput_steps|]. intros ?.
  eapply triple_bind; [apply gets_safe|]. intros history.
  eapply triple_bind; [calm_part autoCompact_steps|]. intros compacted. cbn zeta.
  eapply triple_bind; [apply gets_safe|]. intros stats.
  eapply triple_bind; [calm_part callLLM_steps|]. intros [completion|e].
  - eapply triple_bind; [calm_part addStats_steps|]. intros cost. cbn zeta.
    eapply triple_bind with (R := λ _, safe []).
    { destruct (StreamSink opts); [|apply ret_safe]. destruct (_ && _); [by apply record_safe|apply ret_safe]. }
    intros ?. eapply triple_bind; [apply gets_safe|]. intros stats'.
    eapply triple_bind; [by apply record_safe|]. intros ?.
    eapply triple_bind; [calm_part mustAppend_steps|]. intros ?.
    destruct (0 <? _)%nat.
    + eapply triple_bind; [by apply executeToolCalls_triple|]. intros [[count writes] err].
      eapply triple_bind; [calm_part addToolCounts_steps|]. intros ?.
      destruct err as [e|]; [apply fail_safe|].
      eapply triple_bind; [apply gets_safe|]. intros [].
      * apply finish_then_safe, ret_safe.
      * apply ret_safe.
    + eapply triple_bind with (R := λ _, safe []).
      { destruct (Output opts); [|apply ret_safe]. eapply triple_bind; [|intros ?; apply ret_safe].
        calm_part extractStructured_steps. }
      intros structured. apply finish_then_safe, ret_safe.
  - eapply triple_bind; [apply gets_safe|]. intros [].
    + apply finish_then_safe, ret_safe.
    + apply finish_then_safe, fail_safe.
Qed.

Lemma iterations_safe patience turns : fair → ∀ iter summary texts,
  triple (safe []) (iterations opts order patience turns iter summary texts) (λ _, safe []) failed.
Proof.
  intros Ho. induction turns as [|turns IH]; intros iter summary texts; cbn.
  - apply finish_then_safe, fail_safe.
  - eapply triple_bind; [by apply iteration_safe|]. intros [reply structured|summary' texts'].
    + apply ret_safe.
    + apply IH.
Qed.

Lemma safe_run0 s : safe [] (Run0 grants0 s).
Proof.
  split.
  - intros l1 call args l2 E. by destruct l1.
  - intros scope Hg. by left.
  - intros fp. unfold executions, inflight. cbn. unfold count. by rewrite lookup_empty.
Qed.

Lemma RunLoop_safe patience s : fair → safe [] (RunLoop opts order patience (Run0 grants0 s)).2.
Proof.
  intros Ho.
  assert (triple (safe []) (RunLoop opts order patience) (λ _, safe []) failed) as Ht.
  { unfold RunLoop. eapply triple_bind; [calm_part priorSummary_steps|]. intros summary. by apply iterations_safe. }
  specialize (Ht _ (safe_run0 s)). by destruct (RunLoop _ _ _ _) as [[a|e] r].
Qed.

(** C5: no run executes a tool unless the call was let through: the tool is the
    registry's, the permission layers resolved the call to Allow, or to Ask and
    a grant of the session or an approval of this run covers it, a PreToolUse
    hook ran and did not block it when there are hooks, and the record that it
    was about to run was durable first when the history keeps one.  This holds
    of everything the run did, however it ended. *)
Theorem RunLoop_permitted patience s : fair →
  ∀ l1 call args l2,
    Rn_log (RunLoop opts order patience (Run0 grants0 s)).2 = l1 ++ Executed call args :: l2 →
    permitted l1 call args.
Proof. intros Ho. apply (safe_log _ _ (RunLoop_safe patience s Ho)). Qed.

(** C35: no run executes the same tool with the same arguments more than three
    times, however often the model asks for it. *)
Theorem RunLoop_loop_guard patience s : fair →
  ∀ fp, executions fp (Rn_log (RunLoop opts order patience (Run0 grants0 s)).2) ≤ 3.
Proof.
  intros Ho fp. pose proof (safe_guard _ _ (RunLoop_safe patience s Ho) fp) as Hg.
  unfold defaultMaxRepeatedCalls in Hg. pose proof (inflight_nonneg fp []). lia.
Qed.

(** A configured deny is never executed. *)
Lemma RunLoop_never_denied patience s l1 call args l2 : fair →
  Rn_log (RunLoop opts order patience (Run0 grants0 s)).2 = l1 ++ Executed call args :: l2 →
  ∀ scope_of, (∀ tool, Lookup (Registry opts) (name_of call) = Some tool →
                 scope_of = grantScope (name_of call) (grantTarget tool args)) →
  policy (name_of call) scope_of args ≠ (ToolActionDeny, true).
Proof.
  intros Ho E scope_of Hscope Hd. apply (safe_log _ _ (RunLoop_safe patience s Ho)) in E as [(tool & Hl & Ha & _) _].
  specialize (Hscope tool Hl). subst scope_of. unfold resolveAction in Ha. rewrite Hd in Ha. cbn in Ha.
  by destruct Ha as [?|[? _]].
Qed.
End Safety.
