(* ===== verification/AgentLoopHistory.v ===== *)
(** * AgentLoopHistory: a run keeps its history a conversation

    [HistoryLaws] is what the loop relies on: appending extends the messages by
    the one appended, storing a compaction drops what it covers, and nothing else
    of the host changes them.  Under these laws a run that answers leaves a
    conversation; a run that stops early leaves one and at most the beginning of
    one more group; and every request it sends carries a conversation (or a
    single message, see [TrimHistory_spec]). *)

From Stdlib Require Import Ascii String.
From S2P Require Import Prelude EffLogic Text Json SessionCore Pricing SessionMeta AgentContext AgentContextLaws AgentNotes AgentNotesLaws AgentCore AgentLoop AgentRunLogic AgentRunParts.
From stdpp Require Import gmap strings.
Import Prelude.
Import runstats llmapi tools hooks runloop.
Local Open Scope buildmax_scope.

(** ** The laws of a history *)

Section Laws.
Context {S : Type} `{Lib} {Hist : History S} (opts : RunLoopOpts S) (valid : S → Prop).

Definition keeps {A} (f : S → A * S) : Prop :=
  ∀ s, valid s → valid (f s).2 ∧ HistoryMessages (f s).2 = HistoryMessages s.

(** On success the messages become [g] of what they were; on an error they stay. *)
Definition commits (f : Eff string S unit) (g : list llm.Message → list llm.Message) : Prop :=
  ∀ s, valid s →
    valid (f s).2 ∧
    HistoryMessages (f s).2
    = match (f s).1 with Ok _ => g (HistoryMessages s) | Err _ => HistoryMessages s end.

Class HistoryLaws : Prop := {
  law_append m : commits (Append m) (λ msgs, msgs ++ [m]);
  law_result h out : toolBoundary = Some h →
    commits (AppendToolResult h out)
      (λ msgs, msgs ++ [session.toolMessage (agent.Out_ID out) (agent.Out_Result out) (agent.Out_Parts out)]);
  law_started h starts : toolBoundary = Some h → keeps (ToolExecutionStarted h starts);
  law_compaction ch summary n s : compactions = Some ch → valid s → n ≤ length (HistoryMessages s) →
    valid (AddCompaction ch summary n s).2 ∧
    HistoryMessages (AddCompaction ch summary n s).2
    = match (AddCompaction ch summary n s).1 with
      | Ok _ => drop n (HistoryMessages s)
      | Err _ => HistoryMessages s
      end
}.

(** The rest of the host leaves the messages alone. *)
Class HostKeeps : Prop := {
  keeps_hooks run input : Hooks opts = Some run → keeps (run input);
  keeps_ask ask qs : Questioner opts = Some ask → keeps (ask qs);
  keeps_dequeue dequeue : PendingInput opts = Some dequeue → keeps dequeue;
  keeps_approval ask name args target : ApprovalHandler opts = Some ask → keeps (ask name args target);
  keeps_compactor compact msgs : Compactor opts = Some compact → keeps (compact msgs);
  keeps_checkpoint checkpoint iter msgs :
    Checkpointer opts = Some checkpoint → keeps (checkpoint iter msgs);
  keeps_blocking client req : Client opts = Some client → keeps (ChatCompletionBlocking client req);
  keeps_streaming client req : Client opts = Some client → keeps (ChatCompletionStreaming client req);
  keeps_tools tool : tool ∈ Registry opts → toolHost (λ step, keeps (λ s, (tt, step s))) tool
}.
End Laws.

Section Conversation.
Context {S : Type} `{Lib} {Hist : History S} (opts : RunLoopOpts S) (order : nat → list nat).
Context (valid : S → Prop) {HL : HistoryLaws valid} {HK : HostKeeps opts valid}.

(** ** Requests *)

(** The lines a session keeps in front of the model: the invariants of its
    prompt, its notes, and the todos that are not done. *)
Definition notesOf (s : S) : list agent.Note := match durableNotes with Some nh => Notes nh s | None => [] end.
Definition todosOf (s : S) : list agent.Todo := match durableNotes with Some nh => Todos nh s | None => [] end.

Inductive stateLine (s : S) : string → Prop :=
| line_invariant line :
    line ∈ Split (ascii_of_nat 10) (TrimSpace (Invariants opts)) → TrimSpace line ≠ ""%string →
    stateLine s (context.trimRightBytes (λ a, is_byte 32 a || is_byte 9 a) line)
| line_note n : n ∈ notesOf s → stateLine s ("- " +:+ agent.Note_Text n)
| line_working td :
    td ∈ todosOf s → agent.Todo_Status td = "in_progress"%string →
    stateLine s ("- [in progress] " +:+ agent.Todo_Content td)
| line_pending td :
    td ∈ todosOf s → agent.Todo_Status td = "pending"%string →
    stateLine s ("- [pending] " +:+ agent.Todo_Content td).

Definition stateSize (s : S) : Z := AgentNotesLaws.total (notes.stateEntries (Invariants opts) (notesOf s) (todosOf s)).

Definition showing (state : list llm.Message) (line : string) : Prop :=
  ∃ m, m ∈ state ∧ shows (llm.Msg_Content m) line.

(** What follows the history: user messages that show the lines of the session
    and the memories of the index, each kind when it fits its budget. *)
Definition restated (s : S) (state : list llm.Message) : Prop :=
  Forall (λ m, llm.Msg_Role m = "user"%string) state
  ∧ ((stateSize s ≤ 3200)%Z → ∀ line, stateLine s line → showing state line)
  ∧ ∀ index e, Memory opts = Some index → (memorySize (memory.Ix_Entries (index s)) ≤ 3200)%Z →
      e ∈ memory.Ix_Entries (index s) → namedMemory e → showing state (memoryLine e).

(** What is left of the messages: their end, something of them when there are
    any, and all of them when nothing compacts. *)
Definition drawn (history msgs : list llm.Message) : Prop :=
  history `suffix_of` msgs ∧ (msgs ≠ [] → history ≠ []) ∧ (Compactor opts = None → history = msgs).

(** The tokens left for the history beside the reserve of a request. *)
Definition requestRoom (system : llm.Message) (state : list llm.Message) : Z :=
  window opts - 4096 - context.EstimateMessageTokens system - context.EstimateTokens state.

(** A request of a run in state [s]: the system prompt and the block of a
    summary, if there is one; then the end of the messages of [s], all of them if
    nothing compacts and they fit; then the state of [s]. *)
Definition requestOf (s : S) (req : Request) : Prop :=
  ∃ system summary history state,
    Req_Messages req = (system :: history) ++ state
    ∧ llm.Msg_Role system = "system"%string
    ∧ llm.Msg_Content system = SystemPrompt opts +:+ context.RenderCompactionBlock summary
    ∧ (conversation history ∨ length history = 1)
    ∧ history `suffix_of` HistoryMessages s ∧ (HistoryMessages s ≠ [] → history ≠ [])
    ∧ (Compactor opts = None → (window opts < 2 ^ 63)%Z →
       (context.EstimateTokens (HistoryMessages s) ≤ requestRoom system state)%Z → history = HistoryMessages s)
    ∧ restated s state.

Definition wellFormed (req : Request) : Prop := ∃ s, valid s ∧ requestOf s req.

Definition okEntry (e : entry) : Prop :=
  match e with Called req _ => wellFormed req | _ => True end.

Definition notCall (e : entry) : Prop := match e with Called _ _ => False | _ => True end.

(** ** The messages at a point of the run *)

Record Has (P : list llm.Message → Prop) (r : Run S) : Prop := {
  has_valid : valid (Rn_host r);
  has_messages : P (HistoryMessages (Rn_host r));
  has_requests : Forall okEntry (Rn_log r)
}.

Notation Conv := (Has conversation).

(** [whole], a message that made calls, and results for some of them. *)
Definition group (calls : list llm.ToolCall) (ids : list string) (msgs : list llm.Message) : Prop :=
  ∃ whole m results, msgs = whole ++ m :: results ∧ conversation whole ∧ ¬ isTool m ∧
    llm.Msg_ToolCalls m = calls ∧ Forall (λ m, isTool m) results ∧ map llm.Msg_ToolCallID results = ids.

(** A conversation, or one and the beginning of a group. *)
Definition cut (msgs : list llm.Message) : Prop :=
  conversation msgs ∨ ∃ calls ids, ids `prefix_of` map llm.TC_ID calls ∧ group calls ids msgs.

Notation stopped := (λ (_ : runError), Has cut).

Lemma Has_weaken (P Q : list llm.Message → Prop) r : Has P r → (∀ msgs, P msgs → Q msgs) → Has Q r.
Proof. intros [H1 H2 H3] HPQ. split; auto. Qed.

Lemma Conv_cut r : Conv r → Has cut r.
Proof. intros Hc. eapply Has_weaken; [exact Hc|]. by left. Qed.

Lemma group_whole calls msgs : group calls (map llm.TC_ID calls) msgs → conversation msgs.
Proof.
  intros (whole & m & results & -> & Hw & Hm & Hc & Hr & Hid). apply conversation_app; [done|].
  rewrite <- (app_nil_r results). apply conversation_group; [done| |constructor]. rewrite Hc. by split.
Qed.

(** ** Steps that leave the messages alone *)

Definition still : relation (Run S) := λ r r',
  (valid (Rn_host r) → valid (Rn_host r') ∧ HistoryMessages (Rn_host r') = HistoryMessages (Rn_host r)) ∧
  ∃ l, Rn_log r' = Rn_log r ++ l ∧ Forall notCall l.

#[local] Instance still_preorder : PreOrder still.
Proof.
  split.
  - intros r. split; [done|]. exists []. by rewrite app_nil_r.
  - intros r1 r2 r3 (V1 & l1 & E1 & F1) (V2 & l2 & E2 & F2). split.
    + intros Hv. destruct (V1 Hv) as [Hv1 M1]. destruct (V2 Hv1) as [Hv2 M2]. split; [done|congruence].
    + exists (l1 ++ l2). rewrite E2, E1, app_assoc. split; [done|]. by apply Forall_app.
Qed.

Lemma still_same r r' : Rn_host r' = Rn_host r → Rn_log r' = Rn_log r → still r r'.
Proof. intros Eh El. split; [by rewrite Eh|]. exists []. by rewrite El, app_nil_r. Qed.

Lemma still_host {A} (f : S → A * S) : keeps valid f → steps still (host f).
Proof.
  intros Hk r. unfold host. specialize (Hk (Rn_host r)). destruct (f (Rn_host r)) as [a s] eqn:E. cbn in *.
  split; [done|]. exists []. by rewrite app_nil_r.
Qed.

Lemma still_record e : notCall e → steps still (record (S := S) e).
Proof. intros He r. split; [done|]. exists [e]. split; [done|]. by constructor. Qed.

#[local] Instance still_quiet : Quiet opts still notCall.
Proof using HK.
  split; try (intros; intros r; by apply still_same).
  - apply _.
  - apply still_record.
  - intros. apply still_host. by apply (keeps_hooks opts valid).
  - intros. apply still_host. by apply (keeps_ask opts valid).
  - intros. apply still_host. by apply (keeps_dequeue opts valid).
  - intros. apply still_host. by apply (keeps_approval opts valid).
  - intros. apply still_host. by apply (keeps_compactor opts valid).
  - intros. apply still_host. by apply (keeps_checkpoint opts valid).
  - intros. apply still_host. by apply (keeps_blocking opts valid).
  - intros. apply still_host. by apply (keeps_streaming opts valid).
  - intros tool Ht. pose proof (keeps_tools opts valid tool Ht) as Hk. clear HK HL.
    assert (∀ A (p : toolProg S A), toolSteps (λ step, keeps valid (λ s, (tt, step s))) p →
      toolSteps (λ step, steps still (host (λ s, (tt, step s)))) p) as Hall.
    { intros A p. induction p as [r|v|step k IH|qs k IH|st k IH]; cbn; [done|done| | |done].
      - intros [Hs Hp]. split; [by apply still_host|]. intros s. by apply IH.
      - intros Hp a. by apply IH. }
    intros ctx args. destruct (Hk ctx args) as [H1 H2]. split; [by apply Hall|]. intros execute Hx. by apply Hall, H2.
Qed.

Lemma ordinary_notCall e : ordinary e → notCall e.
Proof. by destruct e. Qed.

Lemma Has_still P r r' : still r r' → Has P r → Has P r'.
Proof.
  intros (HV & l & E & Hl) [H1 H2 H3]. destruct (HV H1) as [Hv Hm]. split; [done|by rewrite Hm|].
  rewrite E. apply Forall_app. split; [done|]. eapply Forall_impl; [exact Hl|]. by intros [].
Qed.

Lemma still_triple {A} (m : Loop S A) P : steps still m → triple (Has P) m (λ _, Has P) (λ _, Has P).
Proof. intros Hm. eapply triple_steps; [exact Hm|]. intros r r' Hp Hs. by eapply Has_still. Qed.

Lemma still_conv {A} (m : Loop S A) : steps still m → triple Conv m (λ _, Conv) stopped.
Proof.
  intros Hm. eapply triple_conseq; [by apply (still_triple m conversation)|auto|auto|]. intros e r. apply Conv_cut.
Qed.

(** What the program looks at is what it continues with. *)
Lemma look_messages P : triple (Has P) (look HistoryMessages) (λ msgs r, P msgs ∧ Has (eq msgs) r) stopped.
Proof. apply triple_gets. intros r [H1 H2 H3]. split; [done|]. by split. Qed.

(** ** Commits *)

Lemma commit_triple (f : Eff string S unit) g P Q m : commits valid f g → (∀ msgs, P msgs → Q (g msgs)) →
  triple (Has P) (r ← host f; match r with
                             | Ok _ => _ ← record (Committed m); mret (Ok tt)
                             | Err e => mret (Err e)
                             end : Loop S (res string unit))
    (λ out, Has (match out with Ok _ => Q | Err _ => P end)) (λ _ _, False).
Proof.
  intros Hc HQ r [H1 H2 H3]. destruct (Hc _ H1) as [Hv Hm]. unfold mbind, eff_bind, host.
  destruct (f (Rn_host r)) as [[u|e] s]; cbn in *; split; cbn; try done.
  - rewrite Hm. by apply HQ.
  - apply Forall_app. split; [done|]. by constructor.
  - by rewrite Hm.
Qed.

Lemma appendMessage_triple m P Q : (∀ msgs, P msgs → Q (msgs ++ [m])) →
  triple (Has P) (appendMessage m) (λ out, Has (match out with Ok _ => Q | Err _ => P end)) (λ _ _, False).
Proof using HL. intros HQ. apply (commit_triple _ (λ msgs, msgs ++ [m])); [exact (law_append valid _)|done]. Qed.

Lemma conversation_snoc msgs m :
  conversation msgs → ¬ isTool m → llm.Msg_ToolCalls m = [] → conversation (msgs ++ [m]).
Proof. intros Hc Hm Ht. apply conversation_app; [done|]. apply conversation_plain; [done..|constructor]. Qed.

Lemma mustAppend_triple m P Q : (∀ msgs, P msgs → Q (msgs ++ [m])) → (∀ msgs, P msgs → cut msgs) →
  triple (Has P) (mustAppend m) (λ _, Has Q) stopped.
Proof using HL.
  intros HQ HP. unfold mustAppend. eapply triple_bind.
  { by apply triple_safe, (appendMessage_triple m P Q). }
  intros [u|e]; [by apply triple_ret|]. apply triple_fail. intros r Hr. by eapply Has_weaken.
Qed.

Lemma appendToolOutcome_triple c P Q : (∀ msgs, P msgs → Q (msgs ++ [resultMessage c])) →
  triple (Has P) (appendToolOutcome c) (λ out, Has (match out with Ok _ => Q | Err _ => P end)) (λ _ _, False).
Proof using HL.
  intros HQ. unfold appendToolOutcome. apply (commit_triple _ (λ msgs, msgs ++ [resultMessage c])); [|done].
  destruct toolBoundary as [h|] eqn:E; [|exact (law_append valid _)]. exact (law_result valid h (outcomeOf c) E).
Qed.

(** ** The stages *)

Lemma injectPendingInput_triple iter patience :
  triple Conv (injectPendingInput opts patience iter) (λ _, Conv) stopped.
Proof using HL HK.
  induction patience as [|patience IH]; cbn; destruct (PendingInput opts) as [dequeue|] eqn:E;
    try (by apply triple_ret); [by apply triple_fail; intros r Hr; apply Conv_cut|].
  eapply triple_bind; [by apply still_conv, (quiet_dequeue opts (R := still))|].
  intros [text|]; [|by apply triple_ret]. destruct (_ == _); [exact IH|].
  eapply triple_bind; [apply still_conv, (runHook_steps opts still notCall), ordinary_notCall|].
  intros out. destruct (Blocked out).
  - eapply triple_bind; [by apply still_conv, still_record|]. intros ?. exact IH.
  - eapply triple_bind.
    { apply triple_safe, (appendMessage_triple (context.userMessage text) conversation conversation).
      intros msgs Hc. by apply conversation_snoc. }
    intros [u|e].
    + eapply triple_bind; [by apply still_conv, still_record|]. intros ?. exact IH.
    + apply triple_fail. intros r Hr. by apply Conv_cut.
Qed.

Lemma addCompaction_triple history toSummarize toKeep summary :
  history = toSummarize ++ toKeep →
  triple (Has (eq history)) (addCompaction (S := S) summary (length toSummarize))
    (λ out, Has (match out with Ok _ => λ msgs, msgs = history ∨ msgs = toKeep | Err _ => eq history end))
    (λ _ _, False).
Proof using HL.
  intros E. unfold addCompaction. destruct compactions as [ch|] eqn:Ec.
  2: { apply triple_ret. intros r Hr. eapply Has_weaken; [exact Hr|]. intros msgs ->. by left. }
  intros r [H1 H2 H3].
  destruct (law_compaction valid ch summary (length toSummarize) (Rn_host r) Ec H1) as [Hv Hm].
  { rewrite <- H2, E, length_app. lia. }
  unfold host. destruct (AddCompaction ch summary (length toSummarize) (Rn_host r)) as [[u|e] s]; cbn in *;
    split; cbn; try done.
  - right. rewrite Hm, <- H2, E. by rewrite drop_app_length.
  - by rewrite Hm.
Qed.

(** The messages are a conversation, and [history] is what is left of them. *)
Definition settled (history msgs : list llm.Message) : Prop := conversation msgs ∧ drawn history msgs.

Lemma settled_self msgs : conversation msgs → settled msgs msgs.
Proof. intros Hc. by split_and!. Qed.

Lemma settled_conv history r : Has (settled history) r → Conv r.
Proof. intros Hr. eapply Has_weaken; [exact Hr|]. by intros msgs [? _]. Qed.

(** The pass leaves the history as it was or without what it summarized, and
    hands on a part of it that starts a group. *)
Lemma compactOnce_triple compact iter prior history reserve : Compactor opts = Some compact →
  conversation history →
  triple (Has (eq history)) (compactOnce opts compact iter prior history reserve)
    (λ out r, Has (settled out.1.1) r ∧ conversation out.1.1
      ∧ (out.1.1 = history ∨ out.2 = None ∧ Compacted out.1.2 = true)) (λ _ _, False).
Proof using HL HK.
  intros Hcomp Hc. unfold compactOnce.
  pose proof (splitForCompaction_spec history reserve) as Hsplit.
  destruct (context.splitForCompaction history reserve) as [toSummarize toKeep] eqn:Es. cbn zeta.
  destruct Hsplit as (E & Hrest & Hhalves & _). destruct (Hhalves Hc) as [_ Hkeep].
  assert (∀ result (err : option runError), triple (E := runError) (Has (eq history)) (mret (history, result, err))
    (λ out r, Has (settled out.1.1) r ∧ conversation out.1.1
      ∧ (out.1.1 = history ∨ out.2 = None ∧ Compacted out.1.2 = true)) (λ _ _, False)) as Hret.
  { intros result err. apply triple_ret. intros r Hr. split; [|by split; [|left]]. eapply Has_weaken; [exact Hr|].
    intros msgs <-. by apply settled_self. }
  destruct (Nat.eqb_spec (length toSummarize) 0) as [|Hsome]; [apply Hret|].
  destruct (Hrest ltac:(by intros ->)) as [Hne _].
  assert (settled toKeep history ∧ settled toKeep toKeep) as [Hs1 Hs2].
  { split; [|by apply settled_self]. split; [done|]. split_and!; [rewrite E; by exists toSummarize|done|congruence]. }
  assert (∀ A (m : Loop S A) P, steps still m → always m → triple (Has P) m (λ _, Has P) (λ _ _, False)) as Hst.
  { intros A m P Hm Ht r Hr. pose proof (still_triple m P Hm r Hr) as H'. specialize (Ht r).
    by destruct (m r) as [[a|e] r']. }
  eapply triple_bind; [apply Hst; [apply (runHook_steps opts still notCall), ordinary_notCall|apply runHook_always]|].
  intros out. destruct (Blocked out); [apply Hret|].
  eapply triple_bind; [apply Hst; [by apply (checkpointAndCompact_steps opts still notCall)|]|].
  { unfold checkpointAndCompact. apply always_bind; [|intros ?; apply host_always].
    destruct (Checkpointer opts); [|done]. by apply always_bind; [apply host_always|]. }
  intros [[summary usage]|e]; [|apply Hret].
  eapply triple_bind; [by apply (addCompaction_triple history toSummarize toKeep)|].
  intros [u|e]; [|apply Hret].
  eapply triple_pre with (P' := Has (settled toKeep)).
  2: { intros r Hr. eapply Has_weaken; [exact Hr|]. intros msgs [-> | ->]; done. }
  eapply triple_bind; [apply Hst; [apply (addStats_steps opts still notCall)|]|].
  { intros r. unfold addStats. by destruct (addCall _ _ _). }
  intros cost. eapply triple_bind; [apply Hst; [by apply still_record|done]|]. intros ?.
  eapply triple_bind; [apply Hst; [apply (runHook_steps opts still notCall), ordinary_notCall|apply runHook_always]|].
  intros ?. apply triple_ret. intros r Hr. split; [done|]. split; [done|]. right. split; [done|].
  apply Nat.ltb_lt. cbn [CR_Summarized fst snd]. lia.
Qed.

Lemma autoCompact_triple iter summary history :
  triple (λ r, conversation history ∧ Has (eq history) r) (autoCompact opts iter summary history)
    (λ out r, Has (settled out.1) r ∧ conversation out.1) stopped.
Proof using HL HK.
  apply triple_pure. intros Hc. unfold autoCompact.
  assert (∀ r, Has (eq history) r → Conv r) as Hconv.
  { intros r Hr. eapply Has_weaken; [exact Hr|]. by intros msgs <-. }
  assert (∀ r, Has (eq history) r → Has (settled history) r) as Hself.
  { intros r Hr. eapply Has_weaken; [exact Hr|]. intros msgs <-. by apply settled_self. }
  destruct (Compactor opts) as [compact|] eqn:Ecomp; [|apply triple_ret; auto].
  eapply triple_bind.
  { eapply triple_err; [apply (still_triple _ (eq history)), (theClient_steps opts still notCall)|].
    intros e r Hr. by apply Conv_cut, Hconv. }
  intros client. destruct (_ && _); [|apply triple_ret; auto].
  eapply triple_bind.
  { by apply triple_safe, compactOnce_triple. }
  intros [[kept result] err]. eapply triple_pre with (P' := λ r, (kept = history ∨ err = None ∧ Compacted result = true)
    ∧ Has (settled kept) r ∧ conversation kept); [|by intros r (Hr & Hk & Ho)].
  apply triple_pure. intros Ho. destruct err as [e|].
  - destruct Ho as [-> |[[=] _]].
    destruct e; try (apply triple_ret; intros r [Hr Hk]; by split); apply triple_fail; intros r [Hr _];
      by eapply Conv_cut, settled_conv.
  - destruct (Compacted result) eqn:E; [apply triple_ret; intros r [Hr Hk]; by split|].
    destruct Ho as [-> |[_ [=]]]. apply triple_ret. intros r [Hr Hk]. by split.
Qed.

(** ** Model calls *)

Lemma record_call req out : wellFormed req → triple Conv (record (Called req out)) (λ _, Conv) stopped.
Proof.
  intros Hw r [H1 H2 H3]. cbn. split; [done|done|]. apply Forall_app. split; [done|]. by constructor.
Qed.

Lemma state_block text m : m ∈ (if text == "" then [] else [context.userMessage text]) → llm.Msg_Role m = "user"%string.
Proof. destruct (_ == _); [by intros ?%not_elem_of_nil|]. by intros ->%list_elem_of_singleton. Qed.

Lemma block_shows text line :
  shows text line → showing (if text == "" then [] else [context.userMessage text]) line.
Proof.
  intros (before & after & E). destruct (text == "") eqn:Et.
  - apply bool_decide_eq_true in Et. subst. by destruct before.
  - exists (context.userMessage text). split; [by apply list_elem_of_singleton|]. by exists before, after.
Qed.

Lemma stateLine_entry s line : stateLine s line →
  ∃ e, e ∈ notes.stateEntries (Invariants opts) (notesOf s) (todosOf s) ∧ notes.An_text e = line
    ∧ notes.An_section e ∈ [notes.sectionInvariants; notes.sectionNotes; notes.sectionTodo].
Proof.
  intros Hl. unfold notes.stateEntries. cbn zeta.
  match goal with |- context [notes.number ?raw] =>
    enough (∃ x, x ∈ raw ∧ x.2 = line ∧ x.1.2 ∈ [notes.sectionInvariants; notes.sectionNotes; notes.sectionTodo])
      as (x & Hx & <- & Hs) end.
  { destruct (number_elem _ _ Hx) as (e & He & E1 & E2). exists e. by rewrite E1. }
  destruct Hl as [line Hin Hne|n Hn|td Htd Es|td Htd Es].
  - eexists (notes.prioInvariant, notes.sectionInvariants, _). split_and!; [|done|by left].
    rewrite elem_of_app. left. apply list_elem_of_fmap. exists line. split; [done|].
    apply list_elem_of_In, filter_In. split; [by apply list_elem_of_In|]. by case_bool_decide.
  - eexists (notes.prioNote, notes.sectionNotes, _). split_and!; [|done|by right; left].
    rewrite !elem_of_app. right; left. apply list_elem_of_fmap. by exists n.
  - eexists (notes.prioInProgress, notes.sectionTodo, _). split_and!; [|done|by right; right; left].
    rewrite !elem_of_app. do 2 right; left. apply list_elem_of_In, in_concat. eexists. split.
    + apply in_map. by apply list_elem_of_In.
    + unfold notes.todoEntry. rewrite Es. by left.
  - eexists (notes.prioPending, notes.sectionTodo, _). split_and!; [|done|by right; right; left].
    rewrite !elem_of_app. do 2 right; left. apply list_elem_of_In, in_concat. eexists. split.
    + apply in_map. by apply list_elem_of_In.
    + unfold notes.todoEntry. rewrite Es. by left.
Qed.

Lemma showing_app_l l k line : showing l line → showing (l ++ k) line.
Proof. intros (m & Hm & Hs). exists m. split; [|done]. apply elem_of_app. by left. Qed.

Lemma showing_app_r l k line : showing k line → showing (l ++ k) line.
Proof. intros (m & Hm & Hs). exists m. split; [|done]. apply elem_of_app. by right. Qed.

Lemma sessionStateMessages_restated s : restated s (sessionStateMessages opts s).
Proof.
  assert (sessionStateMessages opts s =
    (let block text := if text == "" then [] else [context.userMessage text] in
     match Memory opts with Some index => block (memory.RenderMemoryIndex (index s)) | None => [] end
     ++ block (notes.RenderSessionState (Invariants opts) (notesOf s) (todosOf s)))) as ->.
  { unfold sessionStateMessages, notesOf, todosOf. by destruct durableNotes. }
  cbn zeta. split_and!.
  - apply Forall_app. split; [destruct (Memory opts); [|by apply Forall_nil_2]|];
      apply Forall_forall; intros x Hx; by eapply state_block.
  - intros Hb line (e & He & <- & Hs)%stateLine_entry. apply showing_app_r, block_shows.
    by apply RenderSessionState_shows.
  - intros index e E Hb He Hn. rewrite E. apply showing_app_l, block_shows. by apply RenderMemoryIndex_shows.
Qed.

Lemma TrimHistory_drawn msgs systemTokens cw :
  let kept := context.TrimHistory msgs systemTokens cw 0 in
  kept `suffix_of` msgs ∧ (msgs ≠ [] → kept ≠ [])
  ∧ (conversation msgs → (context.EstimateTokens msgs ≤ context.trimBudget systemTokens cw 0)%Z → kept = msgs).
Proof.
  cbn zeta. destruct (Z.ltb_spec 0 (context.trimBudget systemTokens cw 0)) as [Hb|Hb].
  - destruct msgs as [|m msgs]; [by unfold context.TrimHistory; rewrite orb_true_r|].
    destruct (TrimHistory_spec (m :: msgs) systemTokens cw 0 Hb) as (H1 & H2 & _ & _ & H5); [done|].
    split_and!; [done..|]. intros Hc Hfit. apply (anti_symm suffix); [done|]. apply H5; [done| |done].
    by apply conversation_starts.
  - unfold context.TrimHistory. rewrite (proj2 (Z.leb_le _ _) Hb). by split_and!.
Qed.

Lemma trimBudget_room systemTokens cw : (0 ≤ systemTokens)%Z → (cw < 2 ^ 63)%Z → (0 ≤ cw - 4096 - systemTokens)%Z →
  context.trimBudget systemTokens cw 0 = (cw - 4096 - systemTokens)%Z.
Proof.
  intros H1 H2 H3. unfold context.trimBudget. change (if (0 == 0)%Z then _ else _) with 4096%Z.
  rewrite !wrap64_fits; unfold fits64; rewrite ?wrap64_fits; unfold fits64; lia.
Qed.

(** The messages a request is assembled from, at the state it is sent in. *)
Lemma request_wellFormed s summary history extra tools_ profile scope output :
  valid s → conversation history → drawn history (HistoryMessages s) →
  let system := systemMessage (SystemPrompt opts +:+ context.RenderCompactionBlock summary) in
  let state := sessionStateMessages opts s in
  (0 ≤ extra ≤ context.EstimateTokens state)%Z →
  wellFormed (mkRequest (assembleMessages (SystemPrompt opts +:+ context.RenderCompactionBlock summary)
    (if (0 <? window opts)%Z
     then context.TrimHistory history (context.EstimateMessageTokens system + extra) (window opts) 0 else history) state)
    tools_ profile scope output).
Proof.
  intros Hv Hc (Hd1 & Hd2 & Hd3) system state Hx. exists s. split; [done|].
  eexists system, summary, _, state. split; [done|]. split_and!; [done|done|..|apply sessionStateMessages_restated];
    (destruct (0 <? window opts)%Z eqn:Ew; [|by auto]).
  - by apply TrimHistory_conversation.
  - etransitivity; [|exact Hd1]. by apply TrimHistory_drawn.
  - intros Hne. apply TrimHistory_drawn. by apply Hd2.
  - intros Hcomp Hcw Hfit. specialize (Hd3 Hcomp). subst history. apply TrimHistory_drawn; [done|].
    pose proof (EstimateTokens_nonneg (HistoryMessages s)). pose proof (EstimateMessageTokens_pos system).
    unfold requestRoom in Hfit. fold system state in Hfit. rewrite trimBudget_room; lia.
Qed.

Lemma callLLM_triple history summary iter stats :
  triple (λ r, conversation history ∧ Has (settled history) r)
    (callLLM opts history (SystemPrompt opts +:+ context.RenderCompactionBlock summary) iter stats) (λ _, Conv) stopped.
Proof using HK.
  apply triple_pure. intros Hc. unfold callLLM.
  eapply triple_bind with (R := λ state r, (∃ s, valid s ∧ drawn history (HistoryMessages s)
    ∧ state = sessionStateMessages opts s) ∧ Conv r).
  { apply triple_gets. intros r Hr. split; [|by eapply settled_conv]. exists (Rn_host r).
    split_and!; [apply Hr|apply (has_messages _ _ Hr)|done]. }
  intros state. apply triple_pure. intros (s & Hv & Hd & ->). cbn zeta.
  destruct (Client opts) as [client|] eqn:Ecl.
  2: { unfold theClient. rewrite Ecl. eapply triple_bind with (R := λ _ _, False); [|by intros ? ? []].
       apply triple_fail. intros r. apply Conv_cut. }
  assert (ContextWindow client = window opts) as Ew by (unfold window; by rewrite Ecl).
  unfold theClient. rewrite Ecl. eapply triple_bind with (R := λ c r, c = client ∧ Conv r); [by apply triple_ret|].
  intros c. apply triple_pure. intros ->. rewrite Ew.
  eapply triple_bind; [by apply still_conv, still_record|]. intros ?.
  destruct (StreamSink opts) as [ender|].
  - eapply triple_bind; [by apply still_conv, (quiet_streaming opts (R := still))|]. intros out.
    eapply triple_bind; [apply still_conv, (streamAll_steps opts still notCall), ordinary_notCall|]. intros ?.
    eapply triple_bind with (R := λ _, Conv).
    { destruct ender; [by apply still_conv, still_record|by apply triple_ret]. }
    intros ?. eapply triple_bind; [apply record_call, request_wellFormed; [done..|]; split; [apply EstimateTokens_nonneg|done]|]. intros ?. by apply triple_ret.
  - eapply triple_bind; [by apply still_conv, (quiet_blocking opts (R := still))|]. intros out.
    eapply triple_bind; [apply record_call, request_wellFormed; [done..|]; split; [apply EstimateTokens_nonneg|done]|]. intros ?. by apply triple_ret.
Qed.

Lemma extractStructured_triple summary :
  triple Conv (extractStructured opts (SystemPrompt opts +:+ context.RenderCompactionBlock summary)) (λ _, Conv) stopped.
Proof using HK.
  unfold extractStructured. eapply triple_bind; [apply look_messages|]. intros history.
  apply triple_pure. intros Hc.
  assert (∀ r, Has (eq history) r → Conv r) as Hconv.
  { intros r Hr. eapply Has_weaken; [exact Hr|]. by intros msgs <-. }
  destruct (Client opts) as [client|] eqn:Ecl.
  2: { unfold theClient. rewrite Ecl. eapply triple_bind with (R := λ _ _, False); [|by intros ? ? []].
       apply triple_fail. intros r Hr. by apply Conv_cut, Hconv. }
  assert (ContextWindow client = window opts) as Ew by (unfold window; by rewrite Ecl).
  unfold theClient. rewrite Ecl.
  eapply triple_bind with (R := λ c r, c = client ∧ Has (eq history) r); [by apply triple_ret|].
  intros c. apply triple_pure. intros ->. cbn zeta. rewrite Ew.
  eapply triple_bind with (R := λ state r, (∃ s, valid s ∧ drawn history (HistoryMessages s)
    ∧ state = sessionStateMessages opts s) ∧ Conv r).
  { apply triple_gets. intros r Hr. split; [|by apply Hconv]. exists (Rn_host r).
    split_and!; [apply Hr|rewrite <- (has_messages _ _ Hr); apply settled_self, Hc|done]. }
  intros state. apply triple_pure. intros (s & Hv & Hd & ->).
  eapply triple_bind; [by apply still_conv, (quiet_blocking opts (R := still))|]. intros out.
  eapply triple_bind.
  { apply record_call. pose proof (request_wellFormed s summary history 0 [] ProfileProbe "" (Output opts) Hv Hc Hd
      (conj (Z.le_refl 0) (EstimateTokens_nonneg _))) as Hw. by rewrite Z.add_0_r in Hw. }
  intros ?. destruct out as [completion|e]; [|by apply triple_ret].
  eapply triple_bind; [by apply still_conv, (addStats_steps opts still notCall)|]. intros ?.
  destruct (Com_Structured completion); by apply triple_ret.
Qed.

(** ** The batch *)

Lemma group_snoc calls ids msgs (c : pendingCall S) :
  group calls ids msgs → group calls (ids ++ [llm.TC_ID (Pc_call c)]) (msgs ++ [resultMessage c]).
Proof.
  intros (whole & m & results & -> & Hw & Hm & Hc & Hr & Hid).
  exists whole, m, (results ++ [resultMessage c]). split_and!; try done.
  - by rewrite <- app_assoc.
  - apply Forall_app. split; [done|]. by constructor.
  - rewrite map_app, Hid. done.
Qed.

Lemma group_cut calls ids msgs : ids `prefix_of` map llm.TC_ID calls → group calls ids msgs → cut msgs.
Proof. intros Hp Hg. right. by exists calls, ids. Qed.

Lemma commitCalls_triple calls g : ∀ ids count writes, (ids ++ ids_of g) `prefix_of` map llm.TC_ID calls →
  triple (Has (group calls ids)) (commitCalls opts g count writes)
    (λ out, Has (match out.2 with None => group calls (ids ++ ids_of g) | Some _ => cut end)) stopped.
Proof using HL HK.
  induction g as [|c g IH]; intros ids count writes Hp.
  { apply triple_ret. intros r Hr. cbn. by rewrite app_nil_r. }
  assert (ids `prefix_of` map llm.TC_ID calls) as Hids.
  { etransitivity; [|exact Hp]. by apply prefix_app_r. }
  change (ids_of (c :: g)) with ([llm.TC_ID (Pc_call c)] ++ ids_of g) in *. rewrite app_assoc in Hp |- *.
  cbn [commitCalls].
  eapply triple_bind.
  { eapply triple_err; [apply (still_triple _ (group calls ids)), (firePostHook_steps opts still notCall), ordinary_notCall|].
    intros e r Hr. eapply Has_weaken; [exact Hr|]. intros msgs. by apply group_cut. }
  intros ?. eapply triple_bind.
  { apply triple_safe, (appendToolOutcome_triple c (group calls ids) (group calls (ids ++ [llm.TC_ID (Pc_call c)]))).
    intros msgs. apply group_snoc. }
  intros [u|e].
  - by apply IH.
  - apply triple_ret. intros r Hr. eapply Has_weaken; [exact Hr|]. intros msgs. by apply group_cut.
Qed.

Lemma still_modify f : (∀ r, Rn_host (f r) = Rn_host r ∧ Rn_log (f r) = Rn_log r) → steps still (modifyRun f).
Proof. intros Hf r. destruct (Hf r). by apply still_same. Qed.

Lemma runGroups_conv policy iter calls groups : Forall (Forall (known opts)) groups →
  ∀ ids count writes, ids ++ ids_of (concat groups) = map llm.TC_ID calls →
  triple (Has (group calls ids)) (runGroups opts order policy iter groups count writes)
    (λ out, Has (match out.2 with None => group calls (map llm.TC_ID calls) | Some _ => cut end)) stopped.
Proof using HL HK.
  induction 1 as [|g groups Hk Hks IH]; intros ids count writes E; cbn.
  { cbn in E. rewrite app_nil_r in E. apply triple_ret. intros r Hr. cbn. by rewrite <- E. }
  assert (ids `prefix_of` map llm.TC_ID calls) as Hids by (rewrite <- E; by apply prefix_app_r).
  assert (∀ A (m : Loop S A), steps still m →
    triple (Has (group calls ids)) m (λ _, Has (group calls ids)) stopped) as Hst.
  { intros A m Hm. eapply triple_err; [by apply still_triple|]. intros e r Hr.
    eapply Has_weaken; [exact Hr|]. intros msgs. by apply group_cut. }
  eapply triple_returns_bind.
  { apply Hst, steps_mapM; [apply _|]. intros c. apply (gateCall_steps opts still notCall); try done.
    - exact ordinary_notCall.
    - intros f. by apply still_modify.
    - intros f. by apply still_modify. }
  { apply (returns_mapM same). intros c _. apply gateCall_same. }
  intros g' Hg'. cbn beta.
  eapply triple_bind.
  { apply Hst, (recordToolBoundary_steps opts still notCall); [done|]. intros h starts Hb.
    apply still_host. exact (law_started valid h starts Hb). }
  intros [u|e].
  2: { apply triple_ret. intros r Hr. eapply Has_weaken; [exact Hr|]. intros msgs. by apply group_cut. }
  eapply triple_returns_bind.
  { apply Hst, (runGroup_steps opts order still notCall); [exact ordinary_notCall|done|].
    by eapply Forall2_same_known. }
  { apply runGroup_same. }
  intros g'' Hg''. cbn beta.
  assert (ids_of g'' = ids_of g) as Eids by (etransitivity; by eapply same_callIDs).
  unfold ids_of in E. rewrite concat_cons, map_app in E. fold (ids_of g) in E. fold (ids_of (concat groups)) in E.
  rewrite app_assoc in E.
  eapply triple_bind.
  { apply (commitCalls_triple calls g'' ids). rewrite Eids, <- E. by apply prefix_app_r. }
  rewrite Eids. intros [[count' writes'] [e|]]; [by apply triple_ret|]. by apply IH.
Qed.

(** ** The run *)

Lemma executeToolCalls_triple_ iter calls :
  triple (Has (group calls [])) (executeToolCalls opts order iter calls)
    (λ out, Has (match out.2 with None => conversation | Some _ => cut end)) stopped.
Proof using HL HK.
  eapply triple_conseq.
  - apply (runGroups_conv _ iter calls _ (groups_known opts calls) []). cbn [app].
    by rewrite groupCalls_concat, parseCalls_ids.
  - auto.
  - intros [[count writes] [e|]] r Hr; [done|]. eapply Has_weaken; [exact Hr|]. apply group_whole.
  - auto.
Qed.

Lemma finish_still err P : triple (Has P) (finish opts err) (λ _, Has P) (λ _, Has P).
Proof using HK. apply still_triple, (finish_steps opts still notCall), ordinary_notCall. Qed.

Lemma finish_then {A} err (m : Loop S A) Q :
  triple Conv m Q stopped → triple Conv (_ ← finish opts err; m) Q stopped.
Proof using HK.
  intros Hm. eapply triple_bind; [|intros ?; exact Hm]. eapply triple_err; [apply finish_still|].
  intros e r. apply Conv_cut.
Qed.

Lemma ret_conv {A} (a : A) : triple Conv (mret a) (λ _, Conv) stopped.
Proof. by apply triple_ret. Qed.

Lemma gets_conv {A} (f : Run S → A) : triple Conv (gets f) (λ _, Conv) stopped.
Proof. by apply triple_gets. Qed.

Lemma record_conv e : notCall e → triple Conv (record e) (λ _, Conv) stopped.
Proof. intros He. by apply still_conv, still_record. Qed.

Lemma fail_cut {A} e : triple (Has cut) (fail e : Loop S A) (λ _, Conv) stopped.
Proof. by apply triple_fail. Qed.

Lemma iteration_triple patience iter summary texts :
  triple Conv (iteration opts order patience iter summary texts) (λ _, Conv) stopped.
Proof using HL HK.
  unfold iteration.
  eapply triple_bind; [by apply record_conv|]. intros ?.
  eapply triple_bind; [apply injectPendingInput_triple|]. intros ?.
  eapply triple_bind; [apply look_messages|]. intros history.
  eapply triple_bind; [apply autoCompact_triple|]. intros compacted.
  cbn zeta.
  eapply triple_bind with (R := λ _ r, conversation compacted.1 ∧ Has (settled compacted.1) r).
  { apply triple_gets. by intros r [? ?]. }
  intros stats. eapply triple_bind; [apply callLLM_triple|]. intros [completion|e].
  2: { eapply triple_bind; [apply gets_conv|]. intros []; [apply finish_then, ret_conv|].
       apply finish_then. eapply triple_pre; [apply fail_cut|]. intros r. apply Conv_cut. }
  eapply triple_bind; [apply still_conv, (addStats_steps opts still notCall)|]. intros cost. cbn zeta.
  eapply triple_bind with (R := λ _, Conv).
  { destruct (StreamSink opts); [|apply ret_conv]. destruct (_ && _); [by apply record_conv|apply ret_conv]. }
  intros ?. eapply triple_bind; [apply gets_conv|]. intros stats'.
  eapply triple_bind; [by apply record_conv|]. intros ?.
  destruct (Nat.ltb_spec 0 (length (Com_ToolCalls completion))) as [Hlt|Hge].
  - eapply triple_bind.
    { apply (mustAppend_triple _ conversation (group (Com_ToolCalls completion) [])).
      - intros msgs Hm. exists msgs, (AssistantMessage completion), []. by split_and!.
      - by left. }
    intros ?. eapply triple_bind; [apply executeToolCalls_triple_|]. intros [[count writes] err].
    eapply triple_bind.
    { eapply triple_err; [apply (still_triple _ (match err with None => conversation | Some _ => cut end)),
        (addToolCounts_steps opts still notCall)|].
      intros e' r Hr. destruct err; [done|by apply Conv_cut]. }
    intros ?. destruct err as [e|]; [apply fail_cut|].
    eapply triple_bind; [apply gets_conv|]. intros []; [apply finish_then, ret_conv|apply ret_conv].
  - eapply triple_bind.
    { apply (mustAppend_triple _ conversation conversation); [|by left].
      intros msgs Hm. apply conversation_snoc; [done|done|]. destruct (Com_ToolCalls completion) eqn:E; cbn in *; [by rewrite E|lia]. }
    intros ?. eapply triple_bind with (R := λ _, Conv).
    { destruct (Output opts); [|apply ret_conv]. eapply triple_bind; [apply extractStructured_triple|].
      intros value. apply ret_conv. }
    intros structured. apply finish_then, ret_conv.
Qed.

Lemma iterations_triple patience turns : ∀ iter summary texts,
  triple Conv (iterations opts order patience turns iter summary texts) (λ _, Conv) stopped.
Proof using HL HK.
  induction turns as [|turns IH]; intros iter summary texts; cbn.
  - apply finish_then. eapply triple_pre; [apply fail_cut|]. intros r. apply Conv_cut.
  - eapply triple_bind; [apply iteration_triple|]. intros [reply structured|summary' texts'].
    + apply ret_conv.
    + apply IH.
Qed.

Lemma RunLoop_triple patience : triple Conv (RunLoop opts order patience) (λ _, Conv) stopped.
Proof using HL HK.
  unfold RunLoop. eapply triple_bind; [apply still_conv, (priorSummary_steps opts still notCall)|].
  intros summary. apply iterations_triple.
Qed.

(** C7: a run over a conversation leaves a conversation when it returns a
    reply; when it stops with an error or a panic, it leaves one, or one with
    the beginning of one more group, whose results answer its first calls in
    order. *)
Theorem RunLoop_conversation patience grants s :
  valid s → conversation (HistoryMessages s) →
  match RunLoop opts order patience (Run0 grants s) with
  | (Ok _, r) => conversation (HistoryMessages (Rn_host r))
  | (Err _, r) => cut (HistoryMessages (Rn_host r))
  end.
Proof using HL HK.
  intros Hv Hc. pose proof (RunLoop_triple patience (Run0 grants s)) as Ht.
  assert (Conv (Run0 grants s)) as Hs by by split.
  specialize (Ht Hs). destruct (RunLoop _ _ _ _) as [[a|e] r]; apply (has_messages _ _ Ht).
Qed.

(** C34: Every request a run sends is, at a state with whatever the run keeps true, the
    system prompt of its options (with the block of a summary, if there is one),
    then the end of the history, a conversation or a single message, nonempty if
    the history is, and all of it if nothing compacts and it fits the window; then
    user messages that show each invariant, note and unfinished todo of that state
    as a line of its own, and each memory of the index, when they fit the 3200 of
    their block. *)
Theorem RunLoop_requests patience grants s req out :
  valid s → conversation (HistoryMessages s) →
  Called req out ∈ Rn_log (RunLoop opts order patience (Run0 grants s)).2 → wellFormed req.
Proof using HL HK.
  intros Hv Hc Hin. pose proof (RunLoop_triple patience (Run0 grants s)) as Ht.
  assert (Conv (Run0 grants s)) as Hs by by split.
  specialize (Ht Hs). destruct (RunLoop _ _ _ _) as [[a|e] r]; cbn in Hin;
    pose proof (has_requests _ _ Ht) as Hr; rewrite Forall_forall in Hr; exact (Hr _ Hin).
Qed.
End Conversation.
