(* ===== verification/AgentLoopLiveness.v ===== *)
(** * AgentLoopLiveness: a run over a cooperating host answers

    A host cooperates when its history commits, its model replies and asks for
    tools only while a budget lasts, its tools return, and no more input arrives
    than was waiting.  Such a run returns a reply once its iterations exceed the
    budget and its patience the input waiting. *)

From Stdlib Require Import Ascii String.
From S2P Require Import Prelude EffLogic Text Json SessionCore Pricing SessionMeta AgentContext AgentNotes AgentCore AgentLoop AgentRunLogic AgentRunParts.
From stdpp Require Import gmap strings.
Import Prelude.
Import runstats llmapi tools hooks runloop.
Local Open Scope buildmax_scope.

Section Liveness.
Context {S : Type} `{Lib} {Hist : History S} (opts : RunLoopOpts S) (order : nat → list nat).
Context (budget waiting : S → nat).

(** Neither measure grows. *)
Definition shrinks {A} (f : S → A * S) : Prop := ∀ s, budget (f s).2 ≤ budget s ∧ waiting (f s).2 ≤ waiting s.

Definition commitsAll {A} (f : Eff string S A) : Prop := shrinks f ∧ ∀ s, is_ok (f s).1 = true.

(** The model replies, and spends budget when it asks for tools. *)
Definition replies {A} (completion : A → res string Completion) (chat : S → A * S) : Prop :=
  shrinks chat ∧ ∀ s, match completion (chat s).1 with
                      | Ok c => Com_ToolCalls c = [] ∨ budget (chat s).2 < budget s
                      | Err _ => False
                      end.

Fixpoint noPanic {A} (p : toolProg S A) : Prop :=
  match p with
  | Returns _ => True
  | Panics _ => False
  | Steps _ k => ∀ s, noPanic (k s)
  | Asks _ k => ∀ a, noPanic (k a)
  | Reports _ k => noPanic k
  end.

Class Cooperates : Prop := {
  coop_client : is_Some (Client opts);
  coop_blocking client req : Client opts = Some client →
    replies (λ out, out) (ChatCompletionBlocking client req);
  coop_streaming client req : Client opts = Some client →
    replies snd (ChatCompletionStreaming client req);
  coop_append m : commitsAll (Append m);
  coop_result h out : toolBoundary = Some h → commitsAll (AppendToolResult h out);
  coop_started h starts : toolBoundary = Some h → commitsAll (ToolExecutionStarted h starts);
  coop_compaction ch summary n : compactions = Some ch → commitsAll (AddCompaction ch summary n);
  coop_hooks run input : Hooks opts = Some run → shrinks (run input);
  coop_ask ask qs : Questioner opts = Some ask → shrinks (ask qs);
  coop_approval ask name args target : ApprovalHandler opts = Some ask → shrinks (ask name args target);
  coop_compactor compact msgs : Compactor opts = Some compact → shrinks (compact msgs);
  coop_checkpoint checkpoint iter msgs :
    Checkpointer opts = Some checkpoint → shrinks (checkpoint iter msgs);
  coop_dequeue dequeue : PendingInput opts = Some dequeue →
    shrinks dequeue ∧ ∀ s text, (dequeue s).1 = Some text → waiting (dequeue s).2 < waiting s;
  coop_tools tool : tool ∈ Registry opts →
    toolHost (λ step, shrinks (λ s, (tt, step s))) tool ∧
    ∀ ctx args, noPanic (executeTool ctx tool args)
}.

Context {HC : Cooperates}.

(** ** Steps that do not grow the measures *)

Definition down : relation (Run S) := λ r r',
  budget (Rn_host r') ≤ budget (Rn_host r) ∧ waiting (Rn_host r') ≤ waiting (Rn_host r).

#[local] Instance down_preorder : PreOrder down.
Proof. split; [done|]. intros r1 r2 r3 [] []. unfold down. lia. Qed.

Lemma down_same r r' : Rn_host r' = Rn_host r → down r r'.
Proof. intros E. unfold down. by rewrite E. Qed.

Lemma down_host {A} (f : S → A * S) : shrinks f → steps down (host f).
Proof. intros Hf r. unfold host. specialize (Hf (Rn_host r)). by destruct (f (Rn_host r)). Qed.

Definition anyEntry (_ : entry) : Prop := True.

#[local] Instance down_quiet : Quiet opts down anyEntry.
Proof using HC.
  split; try (intros; intros r; by apply down_same).
  - apply _.
  - intros. apply down_host. by apply coop_hooks.
  - intros. apply down_host. by apply coop_ask.
  - intros. apply down_host. by apply coop_dequeue.
  - intros. apply down_host. by apply coop_approval.
  - intros. apply down_host. by apply coop_compactor.
  - intros. apply down_host. by apply coop_checkpoint.
  - intros. apply down_host. by apply coop_blocking.
  - intros. apply down_host. by apply coop_streaming.
  - intros tool Ht. destruct (coop_tools tool Ht) as [Hk _]. clear HC.
    assert (∀ A (p : toolProg S A), toolSteps (λ step, shrinks (λ s, (tt, step s))) p →
      toolSteps (λ step, steps down (host (λ s, (tt, step s)))) p) as Hall.
    { intros A p. induction p as [r|v|step k IH|qs k IH|st k IH]; cbn; [done|done| | |done].
      - intros [Hs Hp]. split; [by apply down_host|]. intros s. by apply IH.
      - intros Hp a. by apply IH. }
    intros ctx args. destruct (Hk ctx args) as [H1 H2]. split; [by apply Hall|]. intros execute Hx. by apply Hall, H2.
Qed.

Lemma any_ordinary e : ordinary e → anyEntry e.
Proof. done. Qed.

(** ** Programs that return within the measures *)

Definition Within (n w : nat) (r : Run S) : Prop := budget (Rn_host r) ≤ n ∧ waiting (Rn_host r) ≤ w.

Notation never := (λ (_ : runError) (_ : Run S), False).

Lemma within {A} (m : Loop S A) n w : steps down m → always m → triple (Within n w) m (λ _, Within n w) never.
Proof.
  intros Hd Ha r [H1 H2]. specialize (Hd r). specialize (Ha r).
  destruct (m r) as [[a|e] r']; [|done]. destruct Hd as [H3 H4]. split; cbn in *; lia.
Qed.

(** With what it returns. *)
Lemma within_returns {A} (m : Loop S A) (φ : A → Prop) n w :
  steps down m → always m → returns m φ → triple (Within n w) m (λ a r, φ a ∧ Within n w r) never.
Proof.
  intros Hd Ha Hr r Hw. pose proof (within m n w Hd Ha r Hw) as Ht.
  destruct (m r) as [[a|e] r'] eqn:E; [|done]. split; [|done]. by eapply Hr.
Qed.

Lemma commitsAll_host {A} (f : Eff string S A) : commitsAll f → returns (host f) (λ out, is_ok out = true).
Proof.
  intros [_ Hok] r out r' E. unfold host in E. specialize (Hok (Rn_host r)).
  destruct (f (Rn_host r)). by injection E as <- _.
Qed.

Lemma appendMessage_ok m n w :
  triple (Within n w) (appendMessage m) (λ out r, is_ok out = true ∧ Within n w r) never.
Proof using HC.
  apply within_returns.
  - apply (appendMessage_steps opts down anyEntry); [|done]. intros m'. by apply down_host, coop_append.
  - unfold appendMessage. apply always_bind; [apply host_always|]. by intros [u|e].
  - unfold appendMessage. eapply returns_bind_of; [apply commitsAll_host, coop_append|].
    intros [u|e]; [|done]. intros _. apply returns_bind. intros _. by apply returns_ret.
Qed.

Lemma injectPendingInput_ok iter patience n : ∀ w, w < patience →
  triple (Within n w) (injectPendingInput opts patience iter) (λ _, Within n w) never.
Proof using HC.
  induction patience as [|patience IH]; intros w Hw; [lia|]. cbn.
  destruct (PendingInput opts) as [dequeue|] eqn:E; [|by apply triple_ret].
  destruct (coop_dequeue dequeue E) as [Hs Hd].
  eapply triple_bind with (R := λ text r, match text with
                                         | Some _ => 0 < w ∧ Within n (w - 1) r
                                         | None => Within n w r
                                         end).
  { intros r [H1 H2]. unfold host. specialize (Hs (Rn_host r)). specialize (Hd (Rn_host r)).
    destruct (dequeue (Rn_host r)) as [[text|] s]; cbn in *; destruct Hs.
    - specialize (Hd _ eq_refl). split; [|split]; cbn; lia.
    - split; cbn; lia. }
  intros [text|]; [|by apply triple_ret]. apply triple_pure. intros Hpos.
  assert (∀ r, Within n (w - 1) r → Within n w r) as Hmore by (intros r [? ?]; split; lia).
  eapply triple_post with (Q' := λ _, Within n (w - 1)); [|auto].
  assert (triple (Within n (w - 1)) (injectPendingInput opts patience iter) (λ _, Within n (w - 1)) never) as Hrest.
  { apply IH. lia. }
  destruct (_ == _); [exact Hrest|].
  eapply triple_bind; [apply within; [apply (runHook_steps opts down anyEntry), any_ordinary|apply runHook_always]|].
  intros out. destruct (Blocked out).
  - eapply triple_bind; [by apply within; [apply (emit_steps opts down anyEntry)|]|]. intros ?. exact Hrest.
  - eapply triple_bind; [apply appendMessage_ok|]. intros [u|e]; apply triple_pure; intros Hok; [|done].
    eapply triple_bind; [by apply within; [apply (emit_steps opts down anyEntry)|]|]. intros ?. exact Hrest.
Qed.

Lemma theClient_always : always (theClient opts).
Proof using HC. unfold theClient. destruct (coop_client) as [client E]. by rewrite E. Qed.

(** A store that does not fail compacts or falls back; either way it returns. *)
Lemma autoCompact_ok iter summary history n w :
  triple (Within n w) (autoCompact opts iter summary history) (λ _, Within n w) never.
Proof using HC.
  apply within.
  - apply (autoCompact_steps opts down anyEntry any_ordinary). intros ch s k E. by apply down_host, coop_compaction.
  - unfold autoCompact. destruct (Compactor opts) as [compact|]; [|done].
    apply always_bind; [apply theClient_always|]. intros client. destruct (_ && _); [|done].
    apply (always_bind_of _ _ (λ out, ∀ e, out.2 ≠ Some (ErrCompactionNotPersisted e))).
    + unfold compactOnce. destruct (context.splitForCompaction _ _). cbn zeta. destruct (_ =? 0); [done|].
      apply always_bind; [apply runHook_always|]. intros out. destruct (Blocked out); [done|].
      apply always_bind.
      { unfold checkpointAndCompact. apply always_bind; [|intros ?; apply host_always].
        destruct (Checkpointer opts); [|done]. by apply always_bind; [apply host_always|]. }
      intros [[text usage]|e]; [|done]. apply always_bind.
      { unfold addCompaction. destruct compactions; [apply host_always|done]. }
      intros [u|e]; [|done]. apply always_bind; [intros r; unfold addStats; by destruct (addCall _ _ _)|].
      intros cost. apply always_bind; [done|]. intros ?. by apply always_bind; [apply runHook_always|].
    + unfold compactOnce. destruct (context.splitForCompaction _ _). cbn zeta.
      destruct (_ =? 0); [by apply returns_ret|]. apply returns_bind. intros out.
      destruct (Blocked out); [by apply returns_ret|]. apply returns_bind.
      intros [[text usage]|e]; [|by apply returns_ret].
      eapply (returns_bind_of _ _ (λ out, is_ok out = true)).
      { unfold addCompaction. destruct compactions as [ch|] eqn:E; [|by apply returns_ret].
        by apply commitsAll_host, coop_compaction. }
      intros [u|e]; [|done]. intros _. apply returns_bind. intros cost. apply returns_bind. intros ?.
      apply returns_bind. intros ?. by apply returns_ret.
    + intros [[kept result] [e|]] Hne; [|by destruct (Compacted result)].
      destruct e; try done. by destruct (Hne e).
Qed.

(** ** The model call *)

Lemma replies_host {A} (completion : A → res string Completion) (chat : S → A * S) n w :
  replies completion chat →
  triple (Within n w) (host chat)
    (λ out r, ∃ c, completion out = Ok c ∧ Within n w r ∧ (Com_ToolCalls c = [] ∨ 0 < n ∧ Within (n - 1) w r))
    never.
Proof.
  intros [Hs Hc] r [H1 H2]. unfold host. specialize (Hs (Rn_host r)). specialize (Hc (Rn_host r)).
  destruct (chat (Rn_host r)) as [a s]. cbn in *. destruct (completion a) as [c|e]; [|done]. exists c.
  destruct Hs. split; [done|]. split; [split; cbn; lia|].
  destruct Hc as [?|Hlt]; [by left|]. right. split; [lia|]. split; cbn; lia.
Qed.

Definition Called_ (n w : nat) (c : Completion) (r : Run S) : Prop :=
  Within n w r ∧ (Com_ToolCalls c = [] ∨ 0 < n ∧ Within (n - 1) w r).

Lemma Called_down n w c r r' : down r r' → Called_ n w c r → Called_ n w c r'.
Proof.
  intros [D1 D2] [[H1 H2] Hd]. split; [split; lia|]. destruct Hd as [?|[? [? ?]]]; [by left|].
  right. split; [done|]. split; lia.
Qed.

Lemma called_steps {A} (m : Loop S A) n w c : steps down m → always m →
  triple (Called_ n w c) m (λ _, Called_ n w c) never.
Proof.
  intros Hd Ha r Hr. specialize (Hd r). specialize (Ha r).
  destruct (m r) as [[a|e] r']; [|done]. by eapply Called_down.
Qed.

Lemma callLLM_ok history prompt iter stats n w :
  triple (Within n w) (callLLM opts history prompt iter stats)
    (λ out r, ∃ c, out = Ok c ∧ Called_ n w c r) never.
Proof using HC.
  unfold callLLM. eapply triple_bind with (R := λ _, Within n w); [by apply triple_gets|].
  intros state. cbn zeta.
  eapply triple_bind with (R := λ client r, Client opts = Some client ∧ Within n w r).
  { unfold theClient. destruct coop_client as [client E]. rewrite E. by apply triple_ret. }
  intros client. apply triple_pure. intros Hclient.
  eapply triple_bind; [by apply within; [apply (emit_steps opts down anyEntry)|]|]. intros ?.
  assert (∀ (out : res string Completion) A (m : Loop S A), steps down m → always m →
    triple (λ r, ∃ c, out = Ok c ∧ Called_ n w c r) m (λ _ r, ∃ c, out = Ok c ∧ Called_ n w c r) never) as Hkeep.
  { intros out A m Hm Ha r (c & Hout & Hc). pose proof (called_steps m n w c Hm Ha r Hc) as Ht.
    destruct (m r) as [[?|?] r']; [|done]. by exists c. }
  destruct (StreamSink opts) as [ender|].
  - eapply triple_bind; [by apply replies_host, coop_streaming|]. intros out. cbn beta.
    eapply triple_bind.
    { apply (Hkeep out.2); [apply (streamAll_steps opts down anyEntry), any_ordinary|apply streamAll_always]. }
    intros ?. eapply triple_bind.
    { apply (Hkeep out.2); [|by destruct ender].
      destruct ender; [by apply (quiet_record opts (R := down))|apply steps_ret, _]. }
    intros ?. eapply triple_bind.
    { apply (Hkeep out.2); [by apply (quiet_record opts (R := down))|done]. }
    intros ?. by apply triple_ret.
  - eapply triple_bind; [by apply replies_host, coop_blocking|]. intros out. cbn beta.
    eapply triple_bind.
    { apply (Hkeep out); [by apply (quiet_record opts (R := down))|done]. }
    intros ?. by apply triple_ret.
Qed.

Lemma extractStructured_ok prompt n w :
  triple (Within n w) (extractStructured opts prompt) (λ _, Within n w) never.
Proof using HC.
  apply within; [by apply (extractStructured_steps opts down anyEntry)|].
  unfold extractStructured. apply always_bind; [done|]. intros history.
  apply always_bind; [apply theClient_always|]. intros client. cbn zeta.
  apply always_bind; [done|]. intros state. apply always_bind; [apply host_always|]. intros out.
  apply always_bind; [done|]. intros ?. destruct out as [c|e]; [|done].
  apply always_bind; [intros r; unfold addStats; by destruct (addCall _ _ _)|].
  intros ?. by destruct (Com_Structured c).
Qed.

(** ** The batch *)

Definition runnable (c : pendingCall S) : Prop := Pc_decided c = false → is_Some (Pc_tool c).

Lemma deny_runnable c reason result : returns (deny (S := S) c reason result) runnable.
Proof. unfold deny. apply returns_bind. intros _. by apply returns_ret. Qed.

Lemma gateCall_runnable policy c : returns (gateCall opts policy c) runnable.
Proof.
  unfold gateCall. destruct (Pc_decided c) eqn:Ed.
  { apply returns_bind. intros _. apply returns_ret. intros E. congruence. }
  apply returns_bind. intros _. destruct (Pc_tool c) as [tool|] eqn:Et; [|apply deny_runnable].
  assert (∀ c', same c c' → runnable c') as Hsame.
  { intros c' [_ E] _. rewrite E, Et. by exists tool. }
  apply returns_bind. intros over. destruct over; [apply deny_runnable|].
  apply returns_bind. intros grants. cbv zeta. destruct (if _ && _ then _ else _).
  - eapply returns_weaken; [apply hookGate_same|exact Hsame].
  - eapply returns_weaken; [apply approvalGate_same|exact Hsame].
  - apply deny_runnable.
  - by apply returns_ret.
Qed.

Lemma runTool_noPanic {A} id (p : toolProg S A) : noPanic p → returns (runTool opts id p) (λ out, is_ok out = true).
Proof.
  induction p as [r|v|step k IH|qs k IH|st k IH]; cbn; intros Hp; try done.
  - by apply returns_ret.
  - apply returns_bind. intros s. apply returns_bind. intros _. by apply IH.
  - apply returns_bind. intros a. by apply IH.
  - apply returns_bind. intros _. by apply IH.
Qed.

Lemma inline_always iter c : known opts c → runnable c → always (inline opts iter c).
Proof using HC.
  intros Hk Hr. unfold inline.
  apply (always_bind_of _ _ (λ out, is_ok out = true)); [apply executeCall_always| |by intros [c'|v]].
  unfold executeCall. destruct (Pc_decided c) eqn:Ed; [by apply returns_ret|].
  destruct (Hr Ed) as [tool Et]. rewrite Et. apply returns_bind. intros _.
  eapply returns_bind_of.
  { apply runTool_noPanic. by apply (coop_tools tool (Hk tool Et)). }
  intros [result|v]; [|done]. intros _. apply returns_bind. intros _. by apply returns_ret.
Qed.

Lemma runGroup_always iter group : Forall (known opts) group → Forall runnable group →
  always (runGroup opts order iter group).
Proof using HC.
  intros Hk Hr. unfold runGroup. destruct (_ || _); [|apply runWorkers_always].
  rewrite Forall_forall in Hk, Hr. apply always_mapM. intros c Hc. apply inline_always; auto.
Qed.

Lemma appendToolOutcome_ok c n w :
  triple (Within n w) (appendToolOutcome c) (λ out r, is_ok out = true ∧ Within n w r) never.
Proof using HC.
  assert (commitsAll (match toolBoundary with
                      | Some h => AppendToolResult h (outcomeOf c)
                      | None => Append (resultMessage c)
                      end)) as Hc.
  { destruct toolBoundary as [h|] eqn:E; [by apply coop_result|apply coop_append]. }
  apply within_returns.
  - unfold appendToolOutcome. apply steps_bind; [apply _|by apply down_host, Hc|].
    intros [u|e]; [|apply steps_ret, _].
    apply steps_bind; [apply _|by apply (quiet_record opts (R := down))|]. intros _. apply steps_ret, _.
  - apply appendToolOutcome_always.
  - unfold appendToolOutcome. eapply returns_bind_of; [by apply commitsAll_host|].
    intros [u|e]; [|done]. intros _. apply returns_bind. intros _. by apply returns_ret.
Qed.

Lemma commitCalls_ok group n w : ∀ count writes,
  triple (Within n w) (commitCalls opts group count writes) (λ out r, out.2 = None ∧ Within n w r) never.
Proof using HC.
  induction group as [|c group IH]; intros count writes; cbn; [by apply triple_ret|].
  eapply triple_bind.
  { apply within; [apply (firePostHook_steps opts down anyEntry), any_ordinary|apply firePostHook_always]. }
  intros ?. eapply triple_bind; [apply appendToolOutcome_ok|].
  intros [u|e]; apply triple_pure; intros Hok; [apply IH|done].
Qed.

Lemma runGroups_ok policy iter groups n w : Forall (Forall (known opts)) groups → ∀ count writes,
  triple (Within n w) (runGroups opts order policy iter groups count writes)
    (λ out r, out.2 = None ∧ Within n w r) never.
Proof using HC.
  induction 1 as [|g groups Hk Hks IH]; intros count writes; cbn; [by apply triple_ret|].
  eapply triple_returns_bind.
  { apply within.
    - apply steps_mapM; [apply _|]. intros c. by apply (gateCall_steps opts down anyEntry).
    - apply always_mapM. intros c _. apply gateCall_always. }
  { apply (returns_mapM (λ c c', same c c' ∧ runnable c')). intros c _ r c' r' E.
    split; [by eapply gateCall_same|by eapply gateCall_runnable]. }
  intros g' Hg'. cbn beta.
  assert (Forall (known opts) g' ∧ Forall runnable g') as [Hk' Hr'].
  { clear -Hk Hg'. induction Hg' as [|c c' g g' [Hs Hc] Hg IH]; [by split|].
    apply Forall_cons in Hk as [Hkc Hk]. destruct (IH Hk). split; constructor; try done. by eapply same_known. }
  eapply triple_bind.
  { apply (within_returns _ (λ out, is_ok out = true)).
    - apply (recordToolBoundary_steps opts down anyEntry); [done|]. intros h starts Hb.
      by apply down_host, coop_started.
    - apply recordToolBoundary_always.
    - unfold recordToolBoundary. destruct toolBoundary as [h|] eqn:E; [|by apply returns_ret]. cbv zeta.
      destruct (_ =? 0); [by apply returns_ret|].
      eapply returns_bind_of; [by apply commitsAll_host, coop_started|]. intros [u|e]; [|done]. intros _.
      apply returns_bind. intros _. by apply returns_ret. }
  intros [u|e]; apply triple_pure; intros Hok; [|done].
  eapply triple_bind.
  { apply within; [by apply (runGroup_steps opts order down anyEntry)|by apply runGroup_always]. }
  intros g''. eapply triple_bind; [apply commitCalls_ok|]. intros [[count' writes'] [e|]].
  - apply triple_pure. by intros [=].
  - apply triple_pure. intros _. apply IH.
Qed.

(** ** The run *)

Lemma finish_ok {A} err (m : Loop S A) n w Q :
  triple (Within n w) m Q never → triple (Within n w) (_ ← finish opts err; m) Q never.
Proof using HC.
  intros Hm. eapply triple_bind; [|intros ?; exact Hm].
  apply within; [apply (finish_steps opts down anyEntry), any_ordinary|apply finish_always].
Qed.

(** An iteration replies, or leaves less of the budget. *)
Definition Turn (n w : nat) (t : turn) (r : Run S) : Prop :=
  match t with Reply _ _ => True | Next _ _ => 0 < n ∧ Within (n - 1) w r end.

Lemma mustAppend_ok m n w : triple (Within n w) (mustAppend m) (λ _, Within n w) never.
Proof using HC.
  unfold mustAppend. eapply triple_bind; [apply appendMessage_ok|].
  intros [u|e]; apply triple_pure; intros Hok; [by apply triple_ret|done].
Qed.

Lemma batch_known toolCalls :
  Forall (Forall (known opts)) (groupCalls (parseCalls opts toolCalls) (MaxParallelTools opts)).
Proof. apply Forall_concat. rewrite groupCalls_concat. apply parseCalls_known. Qed.

(** The rest of an iteration once the model has replied with calls. *)
Lemma batch_ok iter calls texts summary n w : 0 < n →
  triple (Within (n - 1) w)
    (out ← executeToolCalls opts order iter calls;
     let '(count, writes, err) := out in
     _ ← addToolCounts count writes;
     match err with
     | Some e => fail e
     | None =>
         yielded ← gets Rn_yielded;
         if yielded : bool then _ ← finish opts None; mret (Reply (joined texts) None)
         else mret (Next summary texts)
     end) (Turn n w) never.
Proof using HC.
  intros Hn. eapply triple_bind; [apply runGroups_ok, batch_known|]. intros [[count writes] err].
  apply triple_pure. cbn. intros ->.
  eapply triple_bind; [apply within; [apply (addToolCounts_steps opts down anyEntry)|done]|]. intros ?.
  eapply triple_bind with (R := λ _, Within (n - 1) w); [by apply triple_gets|]. intros [].
  - apply finish_ok. by apply triple_ret.
  - apply triple_ret. intros r Hr. by split.
Qed.

Lemma iteration_ok patience iter summary texts n w : w < patience →
  triple (Within n w) (iteration opts order patience iter summary texts) (Turn n w) never.
Proof using HC.
  intros Hw. unfold iteration.
  eapply triple_bind; [by apply within; [apply (emit_steps opts down anyEntry)|]|]. intros ?.
  eapply triple_bind; [by apply injectPendingInput_ok|]. intros ?.
  eapply triple_bind with (R := λ _, Within n w); [by apply triple_gets|]. intros history.
  eapply triple_bind; [apply autoCompact_ok|]. intros compacted. cbn zeta.
  eapply triple_bind with (R := λ _, Within n w); [by apply triple_gets|]. intros stats.
  eapply triple_bind; [apply callLLM_ok|]. intros out.
  destruct out as [c|e]; [|intros r (? & ? & ?); congruence].
  eapply triple_pre with (P' := Called_ n w c); [|by intros r (c' & [= <-] & Hr)].
  eapply triple_bind.
  { apply called_steps; [apply (addStats_steps opts down anyEntry)|].
    intros r. unfold addStats. by destruct (addCall _ _ _). }
  intros cost. cbn zeta. eapply triple_bind with (R := λ _, Called_ n w c).
  { apply called_steps; [|by destruct (StreamSink opts); [destruct (_ && _)|]].
    destruct (StreamSink opts); [|apply steps_ret, _]. destruct (_ && _); [|apply steps_ret, _].
    by apply (quiet_record opts (R := down)). }
  intros ?. eapply triple_bind with (R := λ _, Called_ n w c); [by apply triple_gets|]. intros stats'.
  eapply triple_bind; [by apply called_steps; [apply (emit_steps opts down anyEntry)|]|]. intros ?.
  destruct (Nat.ltb_spec 0 (length (Com_ToolCalls c))) as [Hlt|Hge].
  - eapply triple_pre with (P' := λ r, 0 < n ∧ Within (n - 1) w r).
    2: { intros r [_ [E|?]]; [rewrite E in Hlt; cbn in Hlt; lia|done]. }
    apply triple_pure. intros Hn. eapply triple_bind; [apply mustAppend_ok|]. intros ?. by apply batch_ok.
  - eapply triple_pre with (P' := Within n w); [|by intros r [? _]].
    eapply triple_bind; [apply mustAppend_ok|]. intros ?.
    eapply triple_bind with (R := λ _, Within n w).
    { destruct (Output opts); [|by apply triple_ret].
      eapply triple_bind; [apply extractStructured_ok|]. intros value. by apply triple_ret. }
    intros structured. apply finish_ok. by apply triple_ret.
Qed.

Lemma iterations_ok patience turns w : w < patience → ∀ n iter summary texts, n < turns →
  triple (Within n w) (iterations opts order patience turns iter summary texts) (λ _ _, True) never.
Proof using HC.
  intros Hw. induction turns as [|turns IH]; intros n iter summary texts Hn; [lia|]. cbn.
  eapply triple_bind; [by apply iteration_ok|]. intros [reply structured|summary' texts'].
  - by apply triple_ret.
  - apply triple_pure. intros Hpos. apply IH. lia.
Qed.

(** C6: a run over a cooperating host answers: when its iterations exceed the
    turns the model will spend on tools and its patience the input that is
    waiting, it returns a reply, neither an error nor a panic. *)
Theorem RunLoop_answers patience grants s :
  budget s < Z.to_nat (MaxIter opts) → waiting s < patience →
  ∃ reply structured r, RunLoop opts order patience (Run0 grants s) = (Ok (reply, structured), r).
Proof using HC.
  intros Hb Hw.
  assert (triple (Within (budget s) (waiting s)) (RunLoop opts order patience) (λ _ _, True) never) as Ht.
  { unfold RunLoop. eapply triple_bind with (R := λ _, Within (budget s) (waiting s)).
    - apply within; [apply (priorSummary_steps opts down anyEntry)|].
      unfold priorSummary. by destruct compactions.
    - intros summary. by apply iterations_ok. }
  specialize (Ht (Run0 grants s) ltac:(by split)).
  destruct (RunLoop opts order patience (Run0 grants s)) as [[[reply structured]|e] r]; [|done]. eauto.
Qed.
End Liveness.
