(* ===== verification/AgentSession.v ===== *)
(** * AgentSession: a run over an open session

    The history an agent run is given is an open session
    ([SessionContext.agentapp]) beside the rest of its host.  Every commit of a
    session either leaves its messages as they were or extends them by what was
    committed, so the session satisfies the laws the loop relies on. *)

From Stdlib Require Import Ascii String.
From S2P Require Import Prelude EffLogic Text Json SessionCore Pricing SessionMeta SessionJournal SessionStore SessionContext AgentContext AgentContextLaws AgentNotes AgentCore AgentLoop AgentRunLogic AgentRunParts AgentLoopHistory.
From stdpp Require Import gmap strings.
Import Prelude.
Import runloop.
Local Open Scope buildmax_scope.

#[local] Existing Instance session.State_updatable.

Section SessionHistory.
Context `{journal.Codec} (NewID : nat → string).
Context (errorText : session.error → string) (T : Type).

Notation Live := agentapp.Live.
Notation state l := (agentapp.SC_state (agentapp.Lv_ctx l)).
Notation messageIDs l := (agentapp.SC_messageIDs (agentapp.Lv_ctx l)).

(** A method of the session, on a host that holds it. *)
Definition onSession {A} (m : agentapp.Ctx A) : Eff string (Live * T) A := λ s,
  match m s.1 with
  | (Ok a, l) => (Ok a, (l, s.2))
  | (Err e, l) => (Err (errorText e), (l, s.2))
  end.

#[export] Instance sessionHistory : History (Live * T) := {|
  HistoryMessages s := session.HistoryMessages (state s.1);
  Append m := onSession (agentapp.Append NewID m);
  compactions := Some (mkCompactionHistory (Live * T)
    (λ s, session.St_CompactionSummary (state s.1))
    (λ summary n, onSession (agentapp.AddCompaction NewID summary n)));
  durableNotes := Some (mkNotesHistory (Live * T)
    (λ s, session.St_Notes (state s.1)) (λ s, session.St_Todos (state s.1)));
  toolBoundary := Some (mkToolBoundaryHistory (Live * T)
    (λ calls, onSession (agentapp.ToolExecutionStarted NewID calls))
    (λ out, onSession (agentapp.AppendToolResult NewID out)))
|}.

(** ** Committing leaves the read model to the method *)

Definition sameState : relation Live := λ l l', state l' = state l ∧ messageIDs l' = messageIDs l.

#[local] Instance sameState_preorder : PreOrder sameState.
Proof. split; [done|]. intros l1 l2 l3 [] []. unfold sameState. by split; etransitivity. Qed.

Lemma onDisk_same {A} (m : sessionstore.FS A) : steps sameState (agentapp.onDisk m).
Proof. intros l. unfold agentapp.onDisk. by destruct (m (agentapp.Lv_disk l)). Qed.

Lemma modifyCtx_same f :
  (∀ s, agentapp.SC_state (f s) = agentapp.SC_state s ∧ agentapp.SC_messageIDs (f s) = agentapp.SC_messageIDs s) →
  steps sameState (agentapp.modifyCtx f).
Proof. intros Hf l. exact (Hf (agentapp.Lv_ctx l)). Qed.

Lemma chainItems_same turnID payloads : ∀ parent seq,
  steps sameState (agentapp.chainItems NewID turnID parent seq payloads).
Proof.
  induction payloads as [|p payloads IH]; intros parent seq; cbn; [apply steps_ret, _|].
  apply steps_bind; [apply _|apply onDisk_same|]. intros id.
  apply steps_bind; [apply _|apply steps_gets, _|]. intros now.
  apply steps_bind; [apply _|apply IH|]. intros items. apply steps_ret, _.
Qed.

Lemma commitAll_same payloads : steps sameState (agentapp.commitAll NewID payloads).
Proof.
  unfold agentapp.commitAll. apply steps_bind; [apply _|apply steps_gets, _|]. intros s.
  destruct payloads as [|p payloads]; [apply steps_ret, _|].
  destruct (agentapp.SC_writer s) as [w|]; [|apply steps_ret, _].
  apply steps_bind; [apply _|apply chainItems_same|]. intros items.
  apply steps_bind; [apply _| |].
  { unfold agentapp.appendItems. apply steps_bind; [apply _|apply onDisk_same|]. intros w'. by apply modifyCtx_same. }
  intros _. cbn zeta. apply steps_bind; [apply _|by apply modifyCtx_same|]. intros _. apply steps_ret, _.
Qed.

Lemma commit_same payloads : steps sameState (agentapp.commit NewID payloads).
Proof.
  unfold agentapp.commit. apply steps_bind; [apply _|apply commitAll_same|]. intros _. apply steps_ret, _.
Qed.

Lemma commitItem_same payload : steps sameState (agentapp.commitItem NewID payload).
Proof.
  unfold agentapp.commitItem. apply steps_bind; [apply _|apply commitAll_same|].
  intros [|id ids]; [apply onDisk_same|apply steps_ret, _].
Qed.

(** ** The laws *)

(** The compaction boundary is within the messages, and every message has its
    id: [SessionRefines.live] sessions are such. *)
Definition wellKept (s : Live * T) : Prop :=
  session.St_CompactionIdx (state s.1) ≤ length (session.St_Messages (state s.1)) ∧
  length (messageIDs s.1) = length (session.St_Messages (state s.1)).

Lemma HistoryMessages_drop st : session.St_CompactionIdx st ≤ length (session.St_Messages st) →
  session.HistoryMessages st = drop (session.St_CompactionIdx st) (session.St_Messages st).
Proof.
  intros Hle. unfold session.HistoryMessages. rewrite (proj2 (Nat.leb_le _ _) Hle), andb_true_r.
  destruct (Nat.ltb_spec 0 (session.St_CompactionIdx st)) as [|Hz]; [done|].
  assert (session.St_CompactionIdx st = 0) as -> by lia. by rewrite drop_0.
Qed.

Lemma kept_same s l : wellKept s → sameState s.1 l →
  wellKept (l, s.2) ∧ session.HistoryMessages (state l) = session.HistoryMessages (state s.1).
Proof. intros Hk [E1 E2]. unfold wellKept. cbn. by rewrite E1, E2. Qed.

(** Commit a record, then show its message. *)
Lemma committed_message payload m :
  commits wellKept (onSession (id ← agentapp.commitItem NewID payload; agentapp.pushMessage id m))
    (λ msgs, msgs ++ [m]).
Proof.
  intros [l t] Hk. unfold onSession. cbn [fst snd]. unfold mbind, eff_bind.
  pose proof (commitItem_same payload l) as Hs.
  destruct (agentapp.commitItem NewID payload l) as [[id|e] l1]; cbn [fst snd] in *.
  2: { destruct (kept_same (l, t) l1 Hk Hs) as [H1 H2]. by split. }
  destruct Hs as [E1 E2]. destruct Hk as [Hi Hl]. cbn [fst snd] in *. cbn.
  assert (session.St_CompactionIdx (state l1) ≤ length (session.St_Messages (state l1))) as Hi1 by by rewrite E1.
  split.
  - split; cbn; rewrite E1, ?E2, !length_app; cbn; lia.
  - rewrite HistoryMessages_drop by (cbn; rewrite length_app; lia). cbn.
    rewrite drop_app_le by done. rewrite <- HistoryMessages_drop by done. by rewrite E1.
Qed.

Lemma AddCompaction_eq summary n l :
  let idx := Nat.min (session.St_CompactionIdx (state l) + n) (length (messageIDs l)) in
  agentapp.AddCompaction NewID summary n l =
  if idx =? 0 then (Err (session.Other "compaction covers no messages"), l)
  else match agentapp.commit NewID
               [session.Compaction (default ""%string (messageIDs l !! (idx - 1))) summary] l with
       | (Ok _, l1) =>
           agentapp.setState (λ st, st <| session.St_CompactionIdx := idx |>
                                       <| session.St_CompactionSummary := summary |>) l1
       | (Err e, l1) => (Err e, l1)
       end.
Proof.
  cbn zeta. unfold agentapp.AddCompaction, agentapp.here. unfold mbind at 1, eff_bind at 1, gets at 1.
  by destruct (_ =? 0).
Qed.

#[export] Instance session_laws : HistoryLaws wellKept.
Proof.
  split.
  - intros m. apply committed_message.
  - intros h out [= <-]. apply committed_message.
  - intros h starts [= <-] s Hk. cbn. unfold onSession.
    pose proof (commit_same (map (λ c, session.ToolExecutionStarted (agent.Start_ID c) (agent.Start_Name c)) starts) s.1) as Hs.
    unfold agentapp.ToolExecutionStarted. destruct (agentapp.commit _ _ _) as [[u|e] l]; by apply kept_same.
  - intros ch summary n [l t] [= <-] Hk Hn. cbn [AddCompaction]. unfold onSession.
    cbn [fst snd HistoryMessages sessionHistory] in *. pose proof Hk as [Hi Hl]. cbn [fst] in *.
    rewrite HistoryMessages_drop, length_drop in Hn by done.
    rewrite (AddCompaction_eq summary n l), Nat.min_l by lia.
    destruct (Nat.eqb_spec (session.St_CompactionIdx (state l) + n) 0) as [Hz|Hnz].
    { cbn. split; [by split|done]. }
    set (payloads := [_]). pose proof (commit_same payloads l) as Hs.
    destruct (agentapp.commit NewID payloads l) as [[u|e] l1]; cbn [fst snd] in *.
    2: { by apply (kept_same (l, t)). }
    destruct Hs as [E1 E2]. cbn. rewrite E1. split.
    + split; cbn; rewrite ?E1, ?E2; lia.
    + rewrite HistoryMessages_drop by (cbn; rewrite ?E1; lia). cbn. rewrite HistoryMessages_drop by done.
      by rewrite drop_drop.
Qed.
End SessionHistory.
