(* ===== verification/AgentSessionRun.v ===== *)
(** * AgentSessionRun: a run over a session is a sequence of its methods

    The loop commits to a session through five methods and its tools through two
    more.  Under a provider whose call identifiers are new to the session, every
    method a run calls is one the session admits, however the run ends, so what
    [SessionResume] shows of sessions holds of agent runs. *)

From Stdlib Require Import Ascii String.
From S2P Require Import Prelude EffLogic Text Json SessionCore SessionBranch Pricing SessionMeta SessionJournal SessionStore SessionContext JournalText SessionCommit SessionRefines SessionOpen SessionResume AgentContext AgentNotes AgentCore AgentLoop AgentRunLogic AgentRunParts AgentSession.
From stdpp Require Import gmap strings.
Import Prelude.
Import llmapi tools hooks runloop.
Local Open Scope buildmax_scope.

#[local] Existing Instance sessionstore.Disk_updatable.

Notation Live := agentapp.Live.
Notation itemsOf l := (agentapp.SC_items (agentapp.Lv_ctx l)).

(** ** The calls a session has recorded results for, on any of its branches *)

Definition recorded (l : Live) : gset string := list_to_set (omap resultID (itemsOf l)).

(** Records are only added, and only such as satisfy [P]. *)
Definition grows (P : session.Item → Prop) : relation Live := λ l l',
  ∃ new, itemsOf l' = itemsOf l ++ new ∧ Forall P new.

#[export] Instance grows_preorder P : PreOrder (grows P).
Proof.
  split.
  - intros l. exists []. by rewrite app_nil_r.
  - intros l1 l2 l3 (n1 & E1 & F1) (n2 & E2 & F2). exists (n1 ++ n2).
    rewrite E2, E1, app_assoc. split; [done|]. by apply Forall_app.
Qed.

Lemma grows_same P l l' : itemsOf l' = itemsOf l → grows P l l'.
Proof. intros E. exists []. by rewrite E, app_nil_r. Qed.

Lemma grows_recorded calls l l' :
  grows (λ it, ∀ id, resultID it = Some id → id ∈ calls) l l' → recorded l' ⊆ recorded l ∪ calls.
Proof.
  intros (new & E & F) id. unfold recorded. rewrite E, omap_app, list_to_set_app_L, elem_of_union.
  intros [Hl|Hn]; [set_solver|]. apply elem_of_list_to_set, list_elem_of_omap in Hn as (it & Hit & Hid).
  rewrite Forall_forall in F. specialize (F _ Hit _ Hid). set_solver.
Qed.

Section Growth.
Context `{journal.Codec} (NewID : nat → string).

Lemma onDisk_grows P {A} (m : sessionstore.FS A) : steps (grows P) (agentapp.onDisk m).
Proof. intros l. unfold agentapp.onDisk. destruct (m (agentapp.Lv_disk l)). by apply grows_same. Qed.

Lemma modifyCtx_grows P f : (∀ s, agentapp.SC_items (f s) = agentapp.SC_items s) → steps (grows P) (agentapp.modifyCtx f).
Proof. intros Hf l. apply grows_same, Hf. Qed.

Lemma chainItems_grows P turnID payloads : ∀ parent seq,
  steps (grows P) (agentapp.chainItems NewID turnID parent seq payloads).
Proof.
  induction payloads as [|p payloads IH]; intros parent seq; cbn; [apply steps_ret, _|].
  apply steps_bind; [apply _|apply onDisk_grows|]. intros id.
  apply steps_bind; [apply _|apply steps_gets, _|]. intros now.
  apply steps_bind; [apply _|apply IH|]. intros items. apply steps_ret, _.
Qed.

Lemma chainItems_payloads turnID payloads : ∀ parent seq,
  returns (agentapp.chainItems NewID turnID parent seq payloads)
    (λ new, map session.It_Payload new = map Some payloads).
Proof.
  induction payloads as [|p payloads IH]; intros parent seq; cbn; [by apply returns_ret|].
  apply returns_bind. intros id. apply returns_bind. intros now.
  eapply returns_bind_of; [apply IH|]. intros new Hn. apply returns_ret. cbn. by rewrite Hn.
Qed.

(** The results of a batch. *)
Definition resultsIn (calls : gset string) (payloads : list session.Payload) : Prop :=
  Forall (λ p, match p with session.ToolResult id _ _ _ => id ∈ calls | _ => True end) payloads.

Notation within calls := (grows (λ it, ∀ id, resultID it = Some id → id ∈ calls)).

Lemma commitAll_grows calls payloads : resultsIn calls payloads →
  steps (within calls) (agentapp.commitAll NewID payloads).
Proof.
  intros Hp. unfold agentapp.commitAll. apply steps_bind; [apply _|apply steps_gets, _|]. intros s.
  destruct payloads as [|p payloads]; [apply steps_ret, _|].
  destruct (agentapp.SC_writer s) as [w|]; [|apply steps_ret, _].
  eapply steps_returns_bind; [apply _|apply chainItems_grows|apply chainItems_payloads|].
  intros new Hn. apply steps_bind; [apply _| |intros _].
  { unfold agentapp.appendItems. apply steps_bind; [apply _|apply onDisk_grows|]. intros w'. by apply modifyCtx_grows. }
  apply steps_bind; [apply _| |intros _; apply steps_ret, _].
  intros l. exists new. split; [done|]. apply Forall_forall. intros it Hit id. unfold resultID.
  destruct (session.It_Payload it) as [q|] eqn:Eq; [|done].
  assert (Some q ∈ map session.It_Payload new) as Hq by (rewrite <- Eq; by apply list_elem_of_fmap_2).
  rewrite Hn in Hq. apply list_elem_of_fmap in Hq as (q' & [= <-] & Hin).
  unfold resultsIn in Hp. rewrite Forall_forall in Hp. specialize (Hp _ Hin). destruct q; naive_solver.
Qed.

Lemma commit_grows calls payloads : resultsIn calls payloads → steps (within calls) (agentapp.commit NewID payloads).
Proof.
  intros Hp. unfold agentapp.commit. apply steps_bind; [apply _|by apply commitAll_grows|]. intros ?. apply steps_ret, _.
Qed.

Lemma commitItem_grows calls p : resultsIn calls [p] → steps (within calls) (agentapp.commitItem NewID p).
Proof.
  intros Hp. unfold agentapp.commitItem. apply steps_bind; [apply _|by apply commitAll_grows|].
  intros [|id ids]; [apply onDisk_grows|apply steps_ret, _].
Qed.

(** The methods a run or its tools call, without the results. *)
Definition plainCommand (c : command) : Prop :=
  match c with
  | DoAppend _ | DoToolExecutionStarted _ | DoAddCompaction _ _ | DoSetNotes _ _ | DoSetTodos _ _ => True
  | _ => False
  end.

(** The results a command records. *)
Definition resultsOf (c : command) : gset string :=
  match c with DoAppendToolResult out => {[agent.Out_ID out]} | _ => ∅ end.

Definition runCommand (c : command) : Prop :=
  plainCommand c ∨ ∃ out, c = DoAppendToolResult out.

Lemma perform_grows c : runCommand c → steps (within (resultsOf c)) (perform NewID c).
Proof.
  intros Hc. assert (∀ (calls : gset string) f, (∀ s, agentapp.SC_items (f s) = agentapp.SC_items s) → steps (within calls) (agentapp.modifyCtx f))
    as Hmod by (intros; by apply modifyCtx_grows).
  assert (∀ (calls : gset string) p, match p with session.ToolResult id _ _ _ => id ∈ calls | _ => True end → resultsIn calls [p])
    as Hone by (intros calls p Hp; by constructor).
  destruct c; cbn [perform resultsOf]; try (by destruct Hc as [[]|(? & [=])]).
  - apply steps_bind; [apply _|by apply commitItem_grows, Hone|]. intros id. by apply Hmod.
  - apply commit_grows. apply Forall_map. by apply Forall_true.
  - apply steps_bind; [apply _|apply commitItem_grows, Hone; set_solver|]. intros id. by apply Hmod.
  - apply steps_bind; [apply _|apply steps_gets, _|]. intros s. cbv zeta.
    destruct (_ =? 0); [apply steps_fail, _|].
    apply steps_bind; [apply _|by apply commit_grows, Hone|]. intros ?. by apply Hmod.
  - apply steps_bind; [apply _|apply steps_gets, _|]. intros s. cbv zeta.
    apply steps_bind; [apply _|by apply commit_grows, Hone|]. intros ?. by apply Hmod.
  - apply steps_bind; [apply _|apply steps_gets, _|]. intros s. cbv zeta.
    apply steps_bind; [apply _|by apply commit_grows, Hone|]. intros ?. by apply Hmod.
Qed.

Lemma perform_recorded c l : runCommand c → recorded (perform NewID c l).2 ⊆ recorded l ∪ resultsOf c.
Proof. intros Hc. apply grows_recorded, perform_grows, Hc. Qed.

Lemma performAll_app cs1 cs2 : ∀ l,
  performAll NewID (cs1 ++ cs2) l = performAll NewID cs2 (performAll NewID cs1 l).
Proof. induction cs1 as [|c cs1 IH]; intros l; [done|]. apply IH. Qed.

Lemma admissibleAll_app cs1 cs2 : ∀ l,
  admissibleAll NewID (cs1 ++ cs2) l ↔ admissibleAll NewID cs1 l ∧ admissibleAll NewID cs2 (performAll NewID cs1 l).
Proof. induction cs1 as [|c cs1 IH]; intros l; cbn; [naive_solver|]. rewrite IH. naive_solver. Qed.

Lemma plain_recorded cs : ∀ l, Forall plainCommand cs → recorded (performAll NewID cs l) ⊆ recorded l.
Proof.
  induction cs as [|c cs IH]; intros l; [done|]. intros [Hc Hcs]%Forall_cons. cbn.
  etransitivity; [by apply IH|]. etransitivity; [by apply perform_recorded; left|].
  destruct c; cbn in *; try done; set_solver.
Qed.

Lemma plain_admissible cs : ∀ l, Forall plainCommand cs → admissibleAll NewID cs l.
Proof.
  induction cs as [|c cs IH]; intros l; [done|]. intros [Hc Hcs]%Forall_cons. split; [|by apply IH].
  by destruct c.
Qed.

(** What the branch answers is recorded. *)
Lemma answered_recorded l w branch : live NewID l w branch →
  answeredCalls (agentapp.Lv_ctx l) ⊆ recorded l.
Proof.
  intros [Ht _]. unfold answeredCalls. rewrite (tr_branch _ _ _ Ht). intros id.
  unfold answered, recorded. rewrite !elem_of_list_to_set, !list_elem_of_omap. intros (it & Hit & Hid).
  exists it. split; [|done]. pose proof (tr_branch _ _ _ Ht) as Hb. apply (Branch_Ok _ _ _ (tr_journal _ _ _ Ht)) in Hb.
  eapply elem_of_sublist; [done|]. by eapply path_sublist; [apply Ht|].
Qed.
End Growth.

(** ** Runs *)

Section Runs.
Context `{journal.Codec} `{Lib} (NewID : nat → string).
Context (NewID_inj : Inj eq eq NewID) (NewID_ne : ∀ k, NewID k ≠ ""%string).
Context (errorText : session.error → string) (T : Type).

#[local] Instance theSession : History (Live * T) := sessionHistory NewID errorText T.

Context (opts : RunLoopOpts (Live * T)) (order : nat → list nat).

(** What the rest of the host may do to the session: write notes, todos and the
    like, never a result. *)
Definition aside {A} (f : Live * T → A * (Live * T)) : Prop :=
  ∀ s, ∃ cs, Forall plainCommand cs ∧ (f s).2.1 = performAll NewID cs s.1.

Class HostAside : Prop := {
  aside_hooks run input : Hooks opts = Some run → aside (run input);
  aside_ask ask qs : Questioner opts = Some ask → aside (ask qs);
  aside_dequeue dequeue : PendingInput opts = Some dequeue → aside dequeue;
  aside_approval ask name args target : ApprovalHandler opts = Some ask → aside (ask name args target);
  aside_compactor compact msgs : Compactor opts = Some compact → aside (compact msgs);
  aside_checkpoint checkpoint iter msgs :
    Checkpointer opts = Some checkpoint → aside (checkpoint iter msgs);
  aside_blocking client req : Client opts = Some client → aside (ChatCompletionBlocking client req);
  aside_streaming client req : Client opts = Some client → aside (ChatCompletionStreaming client req);
  aside_tools tool : tool ∈ Registry opts → toolHost (λ step, aside (λ s, (tt, step s))) tool
}.

Definition callIDs (out : res string Completion) : list string :=
  match out with Ok c => map llm.TC_ID (Com_ToolCalls c) | Err _ => [] end.

(** A reply names its calls by identifiers that are distinct and new to the
    session. *)
Definition newCalls (out : res string Completion) (l : Live) : Prop :=
  NoDup (callIDs out) ∧ ∀ id, id ∈ callIDs out → id ∉ recorded l.

Class FreshCalls : Prop := {
  fresh_blocking client req s : Client opts = Some client →
    newCalls (ChatCompletionBlocking client req s).1 s.1;
  fresh_streaming client req s : Client opts = Some client →
    newCalls (ChatCompletionStreaming client req s).1.2 s.1
}.

Context {HA : HostAside} {HF : FreshCalls}.

(** *** Steps that record no result *)

Definition moves : relation (Run (Live * T)) := λ r r',
  ∃ cs, Forall plainCommand cs ∧ (Rn_host r').1 = performAll NewID cs (Rn_host r).1.

#[local] Instance moves_preorder : PreOrder moves.
Proof.
  split; [by exists []|]. intros r1 r2 r3 (c1 & F1 & E1) (c2 & F2 & E2). exists (c1 ++ c2).
  rewrite performAll_app, <- E1. split; [by apply Forall_app|done].
Qed.

Lemma moves_same r r' : Rn_host r' = Rn_host r → moves r r'.
Proof. intros E. exists []. by rewrite E. Qed.

Lemma moves_host {A} (f : Live * T → A * (Live * T)) : aside f → steps moves (host f).
Proof.
  intros Hf r. unfold host. destruct (Hf (Rn_host r)) as (cs & Hcs & E).
  destruct (f (Rn_host r)) as [a s]. by exists cs.
Qed.

Lemma moves_modify f : (∀ r, Rn_host (f r) = Rn_host r) → steps moves (modifyRun f).
Proof. intros Hf r. apply moves_same, Hf. Qed.

Definition anyEntry (e : entry) : Prop := True.

#[local] Instance moves_quiet : Quiet opts moves anyEntry.
Proof using HA.
  split; try apply _.
  - intros e _ r. by apply moves_same.
  - intros f. by apply moves_modify.
  - intros f. by apply moves_modify.
  - by apply moves_modify.
  - intros. by apply moves_host, aside_hooks.
  - intros. by apply moves_host, aside_ask.
  - intros. by apply moves_host, aside_dequeue.
  - intros. by apply moves_host, aside_approval.
  - intros. by apply moves_host, aside_compactor.
  - intros. by apply moves_host, aside_checkpoint.
  - intros. by apply moves_host, aside_blocking.
  - intros. by apply moves_host, aside_streaming.
  - intros tool Ht ctx args. destruct (aside_tools tool Ht ctx args) as [H1 H2].
    assert (∀ A (p : toolProg (Live * T) A), toolSteps (λ step, aside (λ s, (tt, step s))) p →
      toolSteps (λ step, steps moves (host (λ s, (tt, step s)))) p) as Hm.
    { intros A p. induction p as [r|v|step k IH|qs k IH|st k IH]; cbn; [done|done| | |done].
      - intros [Hs Hk]. split; [by apply moves_host|]. intros s. by apply IH.
      - intros Hk a. by apply IH. }
    split; [by apply Hm|]. intros execute E. by apply Hm, H2.
Qed.

Lemma onSession_aside {A} (m : agentapp.Ctx A) c : plainCommand c → (∀ l, (m l).2 = (perform NewID c l).2) →
  aside (onSession errorText T m).
Proof.
  intros Hc Hm s. exists [c]. split; [by constructor|]. cbn. rewrite <- Hm.
  unfold onSession. by destruct (m s.1) as [[a|e] l].
Qed.

Lemma Append_moves m : steps moves (host (Append m)).
Proof. by apply moves_host, (onSession_aside _ (DoAppend m)). Qed.

Lemma started_moves h starts : toolBoundary = Some h → steps moves (host (ToolExecutionStarted h starts)).
Proof. intros [= <-]. by apply moves_host, (onSession_aside _ (DoToolExecutionStarted starts)). Qed.

Lemma compaction_moves ch summary n : compactions = Some ch → steps moves (host (AddCompaction ch summary n)).
Proof. intros [= <-]. by apply moves_host, (onSession_aside _ (DoAddCompaction summary n)). Qed.

(** *** What holds between two commits *)

Context (l0 : Live) (w0 : sessionstore.fileWriter) (b0 : list session.Item) (Hl0 : live NewID l0 w0 b0).

(** The session is where a sequence of its methods took it, and [ids] are the
    calls still to be answered. *)
Record At (ids : list string) (r : Run (Live * T)) : Prop := {
  at_reached : ∃ cs, Forall runCommand cs ∧ admissibleAll NewID cs l0 ∧ (Rn_host r).1 = performAll NewID cs l0;
  at_distinct : NoDup ids;
  at_new : ∀ id, id ∈ ids → id ∉ recorded (Rn_host r).1
}.

Notation stopped := (λ (_ : runError), At []).

Lemma At_fewer ids ids' r : At ids r → NoDup ids' → ids' ⊆ ids → At ids' r.
Proof. intros [H1 H2 H3] Hd Hs. split; [done|done|]. intros id Hid. apply H3, Hs, Hid. Qed.

Lemma At_none ids r : At ids r → At [] r.
Proof. intros Ha. eapply At_fewer; [exact Ha|constructor|]. intros id Hid. by apply not_elem_of_nil in Hid. Qed.

Lemma At_moves ids r r' : At ids r → moves r r' → At ids r'.
Proof.
  intros [(cs & Hr & Hc & E) H2 H3] (more & Hm & E'). split; [|done|].
  - exists (cs ++ more). rewrite Forall_app, admissibleAll_app, performAll_app, E', E. split_and!; [done| |done| |done].
    + eapply Forall_impl; [exact Hm|]. by left.
    + by apply plain_admissible.
  - intros id Hid Hin. apply (H3 id Hid). rewrite E' in Hin. by eapply plain_recorded.
Qed.

Lemma moves_triple {A} ids (m : Loop (Live * T) A) : steps moves m → triple (At ids) m (λ _, At ids) stopped.
Proof.
  intros Hm. eapply triple_err; [eapply triple_steps; [exact Hm|apply At_moves]|]. intros e. apply At_none.
Qed.

Ltac moving := apply moves_triple.

Lemma any_entry e : ordinary e → anyEntry e.
Proof. done. Qed.

Lemma reply_triple {A} (f : Live * T → A * (Live * T)) (out : A → res string Completion) :
  aside f → (∀ s, newCalls (out (f s).1) s.1) → triple (At []) (host f) (λ a, At (callIDs (out a))) stopped.
Proof.
  intros Hf Hn r Hr. pose proof (moves_host f Hf r) as Hm. unfold host in *.
  destruct (Hn (Rn_host r)) as [Hd Hnew]. destruct (Hf (Rn_host r)) as (cs & Hcs & E).
  destruct (f (Rn_host r)) as [a s]. cbn in *.
  pose proof (At_moves _ _ _ Hr Hm) as [H1 _ _]. split; [done|done|]. intros id Hid Hin.
  apply (Hnew id Hid). cbn in Hin. rewrite E in Hin. by eapply plain_recorded.
Qed.

Lemma callLLM_admitted history prompt iter stats :
  triple (At []) (callLLM opts history prompt iter stats) (λ out, At (callIDs out)) stopped.
Proof using HA HF.
  unfold callLLM. eapply triple_bind; [by moving; apply steps_gets, _|]. intros state. cbn zeta.
  destruct (Client opts) as [client|] eqn:Ecl; unfold theClient; rewrite Ecl.
  2: { eapply triple_bind with (R := λ _ _, False); [by apply triple_fail|by intros ? ? []]. }
  eapply triple_bind with (R := λ c r, c = client ∧ At [] r); [by apply triple_ret|].
  intros c. apply triple_pure. intros ->.
  eapply triple_bind; [by moving; apply (emit_steps opts moves anyEntry)|]. intros ?.
  destruct (StreamSink opts) as [ender|].
  - eapply triple_bind.
    { apply (reply_triple _ snd); [by apply aside_streaming|]. intros s. by apply fresh_streaming. }
    intros out. cbn beta.
    eapply triple_bind; [by moving; apply (streamAll_steps opts moves anyEntry)|]. intros ?.
    eapply triple_bind; [moving; destruct ender; [by apply (quiet_record opts)|apply steps_ret, _]|]. intros ?.
    eapply triple_bind; [by moving; apply (quiet_record opts)|]. intros ?. by apply triple_ret.
  - eapply triple_bind.
    { apply (reply_triple _ id); [by apply aside_blocking|]. intros s. by apply fresh_blocking. }
    intros out. cbn beta. eapply triple_bind; [by moving; apply (quiet_record opts)|]. intros ?. by apply triple_ret.
Qed.

(** *** Recording a batch *)

Notation idOf c := (llm.TC_ID (Pc_call c)).

Lemma At_result id ids r r' out : At (id :: ids) r → agent.Out_ID out = id →
  (Rn_host r').1 = (perform NewID (DoAppendToolResult out) (Rn_host r).1).2 → At ids r'.
Proof using NewID_inj NewID_ne Hl0.
  intros [(cs & Hr & Hc & E) [Hd1 Hd2]%NoDup_cons H3] <- E'. split; [|done|].
  - exists (cs ++ [DoAppendToolResult out]). rewrite Forall_app, admissibleAll_app, performAll_app, <- E, E'. cbn.
    split_and!; [done| |done| |done|done]; [apply Forall_singleton; right; by eexists|].
    destruct (performAll_live NewID NewID_inj NewID_ne cs _ _ _ Hl0 Hc) as (w & branch & Hl). rewrite <- E in Hl.
    intros Hin. apply (H3 (agent.Out_ID out)); [by left|]. by eapply answered_recorded.
  - intros id Hid Hin. rewrite E' in Hin. apply perform_recorded in Hin; [|right; by eexists].
    apply elem_of_union in Hin as [Hin|Hin].
    + apply (H3 id); [by right|done].
    + cbn in Hin. apply elem_of_singleton in Hin as ->. done.
Qed.

Lemma appendToolOutcome_admitted c ids :
  triple (At (idOf c :: ids)) (appendToolOutcome c) (λ _, At ids) stopped.
Proof using NewID_inj NewID_ne Hl0.
  intros r Hr. pose proof (At_result (idOf c) ids r) as Hat. unfold appendToolOutcome, mbind, eff_bind, host.
  cbn [toolBoundary theSession sessionHistory AppendToolResult].
  assert (∀ r', (Rn_host r').1 = (agentapp.AppendToolResult NewID (outcomeOf c) (Rn_host r).1).2 → At ids r') as Hafter.
  { intros r' E. by apply (Hat r' (outcomeOf c)). }
  unfold onSession. destruct (agentapp.AppendToolResult NewID (outcomeOf c) (Rn_host r).1) as [[u|e] l]; cbn; by apply Hafter.
Qed.

Lemma commitCalls_admitted g : ∀ ids count writes,
  triple (At (ids_of g ++ ids)) (commitCalls opts g count writes)
    (λ out, At (if out.2 is Some _ then [] else ids)) stopped.
Proof using NewID_inj NewID_ne Hl0 HA.
  induction g as [|c g IH]; intros ids count writes; [by apply triple_ret|]. cbn [commitCalls].
  change (ids_of (c :: g) ++ ids) with (idOf c :: (ids_of g ++ ids)).
  eapply triple_bind; [by moving; apply (firePostHook_steps opts moves anyEntry)|]. intros ?.
  eapply triple_bind; [apply appendToolOutcome_admitted|]. intros [u|e]; [apply IH|].
  apply triple_ret. intros r. apply At_none.
Qed.

Lemma runGroups_admitted policy iter groups : Forall (Forall (known opts)) groups → ∀ count writes,
  triple (At (ids_of (concat groups))) (runGroups opts order policy iter groups count writes) (λ _, At []) stopped.
Proof using NewID_inj NewID_ne Hl0 HA.
  induction 1 as [|g groups Hk Hks IH]; intros count writes; cbn [runGroups concat]; [by apply triple_ret|].
  eapply triple_returns_bind.
  { moving. apply steps_mapM; [apply _|]. intros c.
    by apply (gateCall_steps opts moves anyEntry); try done; intros f; apply moves_modify. }
  { apply (returns_mapM same). intros c _. apply gateCall_same. }
  intros g' Hg'. cbn beta.
  eapply triple_bind.
  { moving. apply (recordToolBoundary_steps opts moves anyEntry); [done|]. intros h starts Hb. by apply started_moves. }
  intros [u|e]; [|apply triple_ret; intros r; apply At_none].
  eapply triple_returns_bind.
  { moving. apply (runGroup_steps opts order moves anyEntry); [done..|]. by eapply Forall2_same_known. }
  { apply runGroup_same. }
  intros g'' Hg''. cbn beta.
  assert (ids_of (g ++ concat groups) = ids_of g'' ++ ids_of (concat groups)) as ->.
  { unfold ids_of at 1. rewrite map_app. f_equal. symmetry. etransitivity; by eapply same_callIDs. }
  eapply triple_bind; [apply commitCalls_admitted|]. intros [[count' writes'] [e|]]; [by apply triple_ret|]. apply IH.
Qed.

Lemma executeToolCalls_admitted iter calls :
  triple (At (map llm.TC_ID calls)) (executeToolCalls opts order iter calls) (λ _, At []) stopped.
Proof using NewID_inj NewID_ne Hl0 HA.
  unfold executeToolCalls. cbn zeta. rewrite <- (parseCalls_ids opts calls).
  rewrite <- (groupCalls_concat (parseCalls opts calls) (MaxParallelTools opts)) at 1. apply runGroups_admitted, groups_known.
Qed.

(** *** The run *)

Lemma any_committed m : anyEntry (Committed m).
Proof. done. Qed.

Lemma appending_admitted ids m : triple (At ids) (mustAppend m) (λ _, At ids) stopped.
Proof using HA.
  moving. apply (mustAppend_steps opts moves anyEntry); [|done]. intros ?. apply Append_moves.
Qed.

Lemma finish_admitted {A} err (m : Loop (Live * T) A) :
  triple (At []) m (λ _, At []) stopped → triple (At []) (_ ← finish opts err; m) (λ _, At []) stopped.
Proof using HA.
  intros Hm. eapply triple_bind; [by moving; apply (finish_steps opts moves anyEntry)|]. by intros ?.
Qed.

Lemma iteration_admitted patience iter summary texts :
  triple (At []) (iteration opts order patience iter summary texts) (λ _, At []) stopped.
Proof using NewID_inj NewID_ne Hl0 HA HF.
  unfold iteration.
  eapply triple_bind; [by moving; apply (emit_steps opts moves anyEntry)|]. intros ?.
  eapply triple_bind.
  { moving. apply (injectPendingInput_steps opts moves anyEntry); [done| |done]. intros ?. apply Append_moves. }
  intros ?. eapply triple_bind; [by moving; apply steps_gets, _|]. intros history.
  eapply triple_bind.
  { moving. apply (autoCompact_steps opts moves anyEntry); [done|]. intros. by apply compaction_moves. }
  intros compacted. cbn zeta. eapply triple_bind; [by moving; apply steps_gets, _|]. intros stats.
  eapply triple_bind; [by apply callLLM_admitted|]. intros [completion|e].
  2: { eapply triple_bind; [by moving; apply steps_gets, _|]. intros []; apply finish_admitted; [by apply triple_ret|by apply triple_fail]. }
  eapply triple_bind; [by moving; apply (addStats_steps opts moves anyEntry)|]. intros cost. cbn zeta.
  eapply triple_bind.
  { moving. destruct (StreamSink opts); [|apply steps_ret, _]. destruct (_ && _); [by apply (quiet_record opts)|apply steps_ret, _]. }
  intros ?. eapply triple_bind; [by moving; apply steps_gets, _|]. intros stats'.
  eapply triple_bind; [by moving; apply (emit_steps opts moves anyEntry)|]. intros ?.
  eapply triple_bind; [apply appending_admitted|]. intros ?. destruct (0 <? _).
  - eapply triple_bind; [apply executeToolCalls_admitted|]. intros [[count writes] err].
    eapply triple_bind; [by moving; apply (addToolCounts_steps opts moves anyEntry)|]. intros ?.
    destruct err as [e|]; [by apply triple_fail|].
    eapply triple_bind; [by moving; apply steps_gets, _|]. intros []; [apply finish_admitted|]; by apply triple_ret.
  - eapply triple_pre; [|intros r; apply At_none].
    eapply triple_bind.
    { moving. destruct (Output opts); [|apply steps_ret, _]. apply steps_bind; [apply _| |intros ?; apply steps_ret, _].
      by apply (extractStructured_steps opts moves anyEntry). }
    intros structured. apply finish_admitted. by apply triple_ret.
Qed.

Lemma iterations_admitted patience turns : ∀ iter summary texts,
  triple (At []) (iterations opts order patience turns iter summary texts) (λ _, At []) stopped.
Proof using NewID_inj NewID_ne Hl0 HA HF.
  induction turns as [|turns IH]; intros iter summary texts; cbn; [apply finish_admitted; by apply triple_fail|].
  eapply triple_bind; [apply iteration_admitted|]. intros [reply structured|summary' texts']; [by apply triple_ret|apply IH].
Qed.

(** However the run ends, the session is where methods it admits took it. *)
Lemma RunLoop_reached patience grants s : s.1 = l0 →
  let r := (RunLoop opts order patience (Run0 grants s)).2 in
  ∃ cs, Forall runCommand cs ∧ admissibleAll NewID cs l0 ∧ (Rn_host r).1 = performAll NewID cs l0.
Proof using NewID_inj NewID_ne Hl0 HA HF.
  intros E. assert (triple (At []) (RunLoop opts order patience) (λ _, At []) stopped) as Ht.
  { unfold RunLoop. eapply triple_bind; [by moving; apply (priorSummary_steps opts moves anyEntry)|].
    intros summary. apply iterations_admitted. }
  assert (At [] (Run0 grants s)) as Hs.
  { split; [by exists []|constructor|]. intros id Hid. by apply not_elem_of_nil in Hid. }
  specialize (Ht _ Hs). by destruct (RunLoop opts order patience (Run0 grants s)) as [[a|e] r]; apply Ht.
Qed.
End Runs.

(** ** The property *)

Section Session.
Context `{CodecLaws} `{Lib} (range : gmap string string → list (string * string)) (NewID : nat → string).
Context (NewID_inj : Inj eq eq NewID) (NewID_ne : ∀ k, NewID k ≠ ""%string).
Context (errorText : session.error → string) (T : Type).
#[local] Instance runSession : History (Live * T) := sessionHistory NewID errorText T.
Context (opts : RunLoopOpts (Live * T)) (order : nat → list nat).

(** C9: An agent run over an open session, whichever journal writes succeed
    and however the run ends (a reply, an error or a panic), is a sequence of the
    session's methods that the session admits: no call is answered twice.  So its
    history validates, reduces to the state the session shows up to the turn
    fields, and its messages are aligned with their records.  This is for a
    provider that names calls by distinct identifiers new to the session
    ([FreshCalls]; Ollama's client does not, [ModelCalls.reused_call_id]), and a
    host whose hooks, tools and handlers record no results ([HostAside]). *)
Theorem RunLoop_session projectID id model d s d1 writes prior patience grants t :
  opens range NewID projectID id model d s d1 → HostAside NewID T opts → FreshCalls T opts →
  let l := agentapp.mkLive (d1 <| sessionstore.D_writes := writes |>) s in
  admissibleAll NewID prior l →
  let l' := (Rn_host (RunLoop opts order patience (Run0 grants (performAll NewID prior l, t))).2).1 in
  let s' := agentapp.Lv_ctx l' in
  (∃ cs, Forall runCommand cs ∧ admissibleAll NewID (prior ++ cs) l ∧ l' = performAll NewID (prior ++ cs) l)
  ∧ session.Validate (agentapp.SC_items s') = Ok tt
  ∧ (∃ st, session.Reduce (agentapp.SC_items s') (agentapp.SC_head s') = Ok st ∧ st ≡ agentapp.SC_state s')
  ∧ agentapp.SC_messageIDs s' = agentapp.messageIDsOnBranch (agentapp.SC_items s') (agentapp.SC_head s')
  ∧ length (agentapp.SC_messageIDs s') = length (session.St_Messages (agentapp.SC_state s')).
Proof using NewID_inj NewID_ne.
  intros Ho HA HF l Hp l' s'. destruct (opens_live _ _ _ _ _ _ _ _ Ho) as (w & Hl & _).
  apply (live_writes _ _ _ _ _ writes) in Hl. fold l in Hl.
  destruct (performAll_live NewID NewID_inj NewID_ne prior _ _ _ Hl Hp) as (w1 & b1 & Hl1).
  destruct (RunLoop_reached NewID NewID_inj NewID_ne errorText T opts order _ _ _ Hl1 patience grants
    (performAll NewID prior l, t) eq_refl) as (cs & Hr & Hcs & E). fold l' in E.
  split.
  - exists cs. by rewrite admissibleAll_app, performAll_app.
  - destruct (performAll_live NewID NewID_inj NewID_ne cs _ _ _ Hl1 Hcs) as (w2 & b2 & Hl2).
    rewrite <- E in Hl2. by eapply live_history.
Qed.
End Session.
