(* ===== verification/ModelCalls.v ===== *)
(** * ModelCalls: the call identifiers a provider mints

    [Module ollama] mirrors the reply conversion of internal/infra/llm/ollama.go:
    the protocol sends no identifiers, so calls are numbered past those the
    request carries.  An identifier is new to the request; it need not be new to
    the session the request was cut from. *)

From Stdlib Require Import Ascii String.
From S2P Require Import Prelude Text Json SessionCore Pricing SessionMeta AgentContext AgentNotes.
From stdpp Require Import strings pretty.
Import Prelude.
Local Open Scope Z_scope.
Local Open Scope buildmax_scope.

Module ollama.

(** One call of a reply: a name and its raw arguments. *)
Record ollamaToolCall : Type := mkOllamaToolCall {
  Otc_Name : string;
  Otc_Arguments : string
}.

Definition mintedID (n : Z) : string := "call_" +:+ Itoa n.

Definition toolCallsFrom (calls : list ollamaToolCall) (offset : Z) : list llm.ToolCall :=
  imap (λ i call,
    llm.mkToolCall (mintedID (offset + Z.of_nat i + 1)) (Otc_Name call)
      (if Otc_Arguments call == "" then "{}" else Otc_Arguments call)) calls.

Definition mintedToolCallNumber (id : string) : option Z :=
  if String.prefix "call_" id then
    match Atoi (from 5 id) with
    | Some n => if n <=? 0 then None else Some n
    | None => None
    end
  else None.

(** The loop of [priorToolCalls]: the calls seen and the highest number. *)
Definition countCall (acc : Z * Z) (tc : llm.ToolCall) : Z * Z :=
  (acc.1 + 1, match mintedToolCallNumber (llm.TC_ID tc) with
              | Some n => Z.max acc.2 n
              | None => acc.2
              end).

Definition priorToolCalls (messages : list llm.Message) : Z :=
  let '(total, highest) := foldl countCall (0, 0) (List.concat (map llm.Msg_ToolCalls messages)) in
  Z.max total highest.

End ollama.

Import ollama.

(** ** Reading an identifier back *)

Lemma digits_value_valueOf l : Forall isDigit l → ∀ acc,
  digits_value acc (string_of_list_ascii l) = Some (valueOf acc l).
Proof. induction 1 as [|c l [d Hc] _ IH]; intros acc; cbn; [done|]. by rewrite Hc, IH. Qed.

Lemma digit_not_sign c : isDigit c → (c == "-"%char) = false ∧ (c == "+"%char) = false.
Proof. intros [d Hd]. split; apply bool_decide_eq_false; intros ->; done. Qed.

Lemma Atoi_Itoa n : 0 ≤ n ≤ max_int → Atoi (Itoa n) = Some n.
Proof.
  intros Hn. unfold Itoa. pose proof (pretty_digits n ltac:(lia)) as H. cbv zeta in H.
  rewrite <- (string_of_list_ascii_of_string (pretty n)).
  destruct H as (Hd & Hne & Hv & _). destruct (list_ascii_of_string (pretty n)) as [|c l]; [done|].
  pose proof (digits_value_valueOf (c :: l) Hd 0) as E. rewrite Hv in E.
  apply Forall_cons in Hd as [Hc _]. apply digit_not_sign in Hc as [H1 H2].
  cbn [string_of_list_ascii] in *. unfold Atoi. rewrite H1, H2. unfold unsigned_value. rewrite E.
  unfold min_int, max_int in *.
  rewrite (proj2 (Z.leb_le _ _)) by lia. rewrite (proj2 (Z.leb_le n _)) by lia. done.
Qed.

Lemma minted_number n : 0 < n ≤ max_int → mintedToolCallNumber (mintedID n) = Some n.
Proof.
  intros Hn. unfold mintedToolCallNumber, mintedID, from. cbn [String.prefix append].
  assert (∀ s, String.substring 5 (String.length ("call_" +:+ s) - 5) ("call_" +:+ s) = s) as Hs.
  { intros s. replace (String.length ("call_" +:+ s) - 5)%nat with (String.length s) by (change (String.length ("call_" +:+ s)) with (5 + String.length s)%nat; lia).
    change (String.substring 5 (String.length s) ("call_" +:+ s)) with (String.substring 0 (String.length s) s).
    induction s as [|c s IH]; [done|]. exact (f_equal (String c) IH). }
  rewrite Hs, Atoi_Itoa by lia. destruct (Z.leb_spec n 0); [lia|]. by destruct (Itoa n).
Qed.

Lemma foldl_countCall_high calls : ∀ acc,
  acc.2 ≤ (foldl countCall acc calls).2 ∧
  ∀ tc n, tc ∈ calls → mintedToolCallNumber (llm.TC_ID tc) = Some n → n ≤ (foldl countCall acc calls).2.
Proof.
  induction calls as [|c calls IH]; intros acc; cbn.
  { split; [lia|]. by intros tc n ?%not_elem_of_nil. }
  destruct (IH (countCall acc c)) as [H1 H2].
  assert (acc.2 ≤ (countCall acc c).2) as H0.
  { unfold countCall. cbn. destruct (mintedToolCallNumber (llm.TC_ID c)); lia. }
  split; [lia|]. intros tc n [-> |Hin]%elem_of_cons Hm; [|by eapply H2].
  unfold countCall in H1 at 1. cbn in H1. rewrite Hm in H1. lia.
Qed.

Lemma foldl_countCall_total calls : ∀ acc, acc.1 ≤ (foldl countCall acc calls).1.
Proof. induction calls as [|c calls IH]; intros acc; cbn; [lia|]. specialize (IH (countCall acc c)). cbn in IH. lia. Qed.

(** the identifiers a reply is given are distinct and new to the request it
    answers, whatever identifiers other protocols left there, as long as the
    numbers fit a 64-bit int. *)
Lemma toolCallsFrom_fresh messages calls :
  priorToolCalls messages + Z.of_nat (length calls) ≤ max_int →
  let ids := map llm.TC_ID (toolCallsFrom calls (priorToolCalls messages)) in
  NoDup ids ∧ length ids = length calls ∧
  ∀ tc, tc ∈ List.concat (map llm.Msg_ToolCalls messages) → llm.TC_ID tc ∉ ids.
Proof.
  intros Hfit. cbn zeta. unfold toolCallsFrom, priorToolCalls in *.
  pose proof (foldl_countCall_high (List.concat (map llm.Msg_ToolCalls messages)) (0, 0)) as [H0 Hhigh].
  pose proof (foldl_countCall_total (List.concat (map llm.Msg_ToolCalls messages)) (0, 0)) as Htot.
  destruct (foldl countCall _ _) as [tot highest]. cbn [fst snd] in *.
  set (offset := Z.max tot highest) in *.
  assert (∀ i id, map llm.TC_ID (imap (λ i call, llm.mkToolCall (mintedID (offset + Z.of_nat i + 1)) (Otc_Name call)
      (if Otc_Arguments call == "" then "{}" else Otc_Arguments call)) calls) !! i = Some id →
    (i < length calls)%nat ∧ id = mintedID (offset + Z.of_nat i + 1)) as Hids.
  { intros i id Hi. rewrite list_lookup_fmap, list_lookup_imap in Hi.
    destruct (calls !! i) as [c|] eqn:Ec; cbn in Hi; [|done]. injection Hi as <-.
    split; [by eapply lookup_lt_Some|done]. }
  split_and!.
  - apply NoDup_alt. intros i j id Hi Hj. apply Hids in Hi as [Hi ->], Hj as [Hj E].
    apply (f_equal mintedToolCallNumber) in E. rewrite !minted_number in E by lia. injection E. lia.
  - by rewrite length_map, length_imap.
  - intros tc Htc Hin. apply list_elem_of_lookup in Hin as [i Hi]. apply Hids in Hi as [Hi E].
    apply (Hhigh _ (offset + Z.of_nat i + 1)) in Htc; [lia|]. rewrite E. apply minted_number. lia.
Qed.

Lemma toolCallsFrom_fresh_witness :
  let messages := [llm.mkMessage "assistant" "" "" [llm.mkToolCall "call_7" "Read" "{}"] "" None []] in
  let calls := [mkOllamaToolCall "Read" ""; mkOllamaToolCall "Write" "{}"] in
  priorToolCalls messages + Z.of_nat (length calls) ≤ max_int ∧
  let ids := map llm.TC_ID (toolCallsFrom calls (priorToolCalls messages)) in
  NoDup ids ∧ length ids = length calls ∧
  ∀ tc, tc ∈ List.concat (map llm.Msg_ToolCalls messages) → llm.TC_ID tc ∉ ids.
Proof.
  intros messages calls.
  assert (priorToolCalls messages + Z.of_nat (length calls) ≤ max_int) as Hfit by (vm_compute; discriminate).
  split; [exact Hfit|exact (toolCallsFrom_fresh messages calls Hfit)].
Defined.

(** ** Not new to the session

    Once a compaction leaves no call in the view, numbering starts again at one,
    and a branch that answers that identifier twice does not reduce. *)

Definition firstTurn : list llm.Message :=
  [ context.userMessage "a";
    llm.mkMessage "assistant" "" "" (toolCallsFrom [mkOllamaToolCall "Read" ""] 0) "" None [];
    session.toolMessage "call_1" "text" [];
    llm.mkMessage "assistant" "done" "" [] "" None [] ].

Definition secondTurn : list llm.Message := [context.userMessage "b"].

Definition answer (seq : Z) (id parent call : string) : session.Item :=
  session.NewItem seq id parent 0 "run" (Some (session.ToolResult call "completed" "text" [])).

Lemma reused_call_id :
  let view := drop (length firstTurn) (firstTurn ++ secondTurn) in
  let again := toolCallsFrom [mkOllamaToolCall "Read" ""] (priorToolCalls view) in
  map llm.TC_ID again = ["call_1"] ∧
  session.Reduce [answer 1 "i1" "" "call_1"; answer 2 "i2" "i1" "call_1"] "i2" = Err session.ErrHistoryCorrupt.
Proof. vm_compute. done. Qed.
