(* ===== verification/AgentExample.v ===== *)
(** * AgentExample: a run of two turns

    A host whose history is a list and whose model asks for one read and then
    answers; the theorems about runs are applied to it. *)

From Stdlib Require Import Ascii String.
From S2P Require Import Prelude EffLogic Text Json SessionCore Pricing SessionMeta AgentContext AgentContextLaws AgentNotes AgentCore AgentLoop AgentRunLogic AgentRunParts AgentLoopSafety AgentLoopHistory AgentLoopLiveness.
From stdpp Require Import gmap strings.
Import Prelude.
Import runstats llmapi tools hooks runloop.
Local Open Scope buildmax_scope.

(** ** The host: the messages and the turns the model has left for tools *)

Definition Ex : Type := list llm.Message * nat.

#[local] Instance ex_lib : Lib := {|
  UnmarshalArgs _ := Ok (Some []);
  MarshalArgs _ := "{}";
  quote s := s
|}.

#[local] Instance ex_history : History Ex := {|
  HistoryMessages := fst;
  Append m := λ s, (Ok tt, (s.1 ++ [m], s.2));
  compactions := None;
  durableNotes := Some (mkNotesHistory Ex (λ _, [agent.mkNote "the tests are slow" 1]) (λ _, []));
  toolBoundary := None
|}.

Definition readCall : llm.ToolCall := llm.mkToolCall "call_1" "Read" "{}".

Definition usage0 : pricing.Usage := pricing.mkUsage 10 5 15 0 0.

Definition ex_reply (s : Ex) : Completion * Ex :=
  match s.2 with
  | O => (mkCompletion "done" [] usage0 None None, s)
  | Datatypes.S n => (mkCompletion "reading" [readCall] usage0 None None, (s.1, n))
  end.

Definition ex_client : LLMClient Ex := mkLLMClient Ex
  (λ _ s, let '(c, s) := ex_reply s in (Ok c, s))
  (λ _ s, let '(c, s) := ex_reply s in (([], Ok c), s)) 200000.

Definition readTool : Tool Ex := mkTool Ex "Read" "reads" JNull
  (λ _ _, Returns (Ok "text"%string)) None (Some (λ _, AccessReadOnly)) None None None.

Definition ex_opts : RunLoopOpts Ex := mkRunLoopOpts Ex (Some ex_client) "prompt"
  (pricing.mkPricing "" 0 0 0 0) [readTool] 5 None None None None None 4 None None "be brief" None None
  "s1" "/w" false "" None None (λ _, false).

Definition ex_start : Ex := ([context.userMessage "hello"], 1).

Definition ex_order (n : nat) : list nat := seq 0 n.

Notation ex_run := (RunLoop ex_opts ex_order 1 (Run0 None ex_start)).

Lemma ex_fair : fair ex_order.
Proof. by intros n. Qed.

Example ex_answer : ex_run.1 = Ok ("reading" +:+ context.blankLine +:+ "done", None).
Proof. vm_compute. reflexivity. Qed.

Example ex_messages : map llm.Msg_Role (Rn_host ex_run.2).1 = ["user"; "assistant"; "tool"; "assistant"]%string.
Proof. vm_compute. reflexivity. Qed.

(** ** The laws *)

#[local] Instance ex_laws : HistoryLaws (λ _ : Ex, True).
Proof. by split. Qed.

#[local] Instance ex_keeps : HostKeeps ex_opts (λ _ : Ex, True).
Proof.
  split; try done.
  - intros client req [= <-] [msgs n] _. by destruct n.
  - intros client req [= <-] [msgs n] _. by destruct n.
  - intros tool [->|H]%elem_of_cons; [|by apply not_elem_of_nil in H]. by intros ctx args.
Qed.

#[local] Instance ex_cooperates : Cooperates ex_opts snd (λ _, 0).
Proof.
  split; try done.
  - intros client req [= <-]. split; intros [msgs [|n]]; cbn; auto with lia.
  - intros client req [= <-]. split; intros [msgs [|n]]; cbn; auto with lia.
  - intros tool [->|H]%elem_of_cons; [|by apply not_elem_of_nil in H]. by split; intros ctx args.
Qed.

(** ** The theorems at this run *)

Lemma RunLoop_permitted_witness :
  let log := Rn_log ex_run.2 in
  fair ex_order ∧ log = take 6 log ++ Executed readCall [] :: drop 7 log ∧
  permitted ex_opts None (take 6 log) readCall [].
Proof.
  intros log.
  assert (log = take 6 log ++ Executed readCall [] :: drop 7 log) as E by (vm_compute; reflexivity).
  split; [exact ex_fair|]. split; [exact E|].
  exact (RunLoop_permitted ex_opts ex_order None 1 ex_start ex_fair _ _ _ _ E).
Defined.

Lemma RunLoop_loop_guard_witness :
  fair ex_order ∧ (executions "Read:{}" (Rn_log ex_run.2) ≤ 3)%Z.
Proof. split; [exact ex_fair|exact (RunLoop_loop_guard ex_opts ex_order None 1 ex_start ex_fair "Read:{}")]. Defined.

Lemma ex_conversation : conversation [context.userMessage "hello"].
Proof. apply conversation_plain; [done|done|constructor]. Qed.

Lemma RunLoop_conversation_witness :
  True ∧ conversation (HistoryMessages ex_start) ∧
  match ex_run with
  | (Ok _, r) => conversation (HistoryMessages (Rn_host r))
  | (Err _, r) => cut (HistoryMessages (Rn_host r))
  end.
Proof.
  split; [exact I|]. split; [exact ex_conversation|].
  exact (RunLoop_conversation ex_opts ex_order (λ _, True) 1 None ex_start I ex_conversation).
Defined.

Definition ex_state : string :=
  "<session-state>" +:+ context.blankLine +:+ "## Invariants" +:+ context.newline +:+ "be brief"
  +:+ context.blankLine +:+ "## Notes" +:+ context.newline +:+ "- the tests are slow"
  +:+ context.newline +:+ "</session-state>".

Definition ex_request : Request :=
  mkRequest [systemMessage "prompt"; context.userMessage "hello"; context.userMessage ex_state]
    (GetDefs [readTool]) ProfileAgentTurn "" None.

Lemma RunLoop_requests_witness :
  Called ex_request (Ok (ex_reply ex_start).1) ∈ Rn_log ex_run.2
  ∧ ∃ s, True ∧ requestOf ex_opts s ex_request.
Proof.
  assert (Called ex_request (Ok (ex_reply ex_start).1) ∈ Rn_log ex_run.2) as Hin.
  { apply list_elem_of_lookup. exists 2. vm_compute. reflexivity. }
  split; [exact Hin|].
  exact (RunLoop_requests ex_opts ex_order (λ _, True) 1 None ex_start _ _ I ex_conversation Hin).
Defined.

Lemma RunLoop_answers_witness :
  1 < Z.to_nat 5 ∧ 0 < 1 ∧ ∃ reply structured r, ex_run = (Ok (reply, structured), r).
Proof.
  assert (1 < Z.to_nat 5) as H1 by (cbn; lia). assert (0 < 1) as H2 by lia.
  split; [exact H1|]. split; [exact H2|].
  exact (RunLoop_answers ex_opts ex_order snd (λ _, 0) 1 None ex_start H1 H2).
Defined.
