(* ===== verification/AgentSessionExample.v ===== *)
(** * AgentSessionExample: a run over a session

    The conversation of [SessionExample], a model that asks for one read while
    the session has no result and then answers, and the run of it. *)

From Stdlib Require Import Ascii String.
From S2P Require Import Prelude EffLogic Text Json SessionCore SessionBranch SessionRewind Pricing SessionMeta SessionJournal SessionStore SessionContext JournalText SessionCommit SessionRefines SessionOpen SessionResume SessionFork SessionExample AgentContext AgentNotes AgentCore AgentLoop AgentRunLogic AgentRunParts AgentSession AgentSessionRun.
From stdpp Require Import gmap strings pretty.
Import Prelude.
Import llmapi tools hooks runloop.
Local Open Scope buildmax_scope.

#[local] Existing Instance sessionstore.Disk_updatable.

Notation Host := (agentapp.Live * unit)%type.

#[local] Instance sx_lib : Lib := {|
  UnmarshalArgs _ := Ok (Some []);
  MarshalArgs _ := "{}";
  quote s := s
|}.

#[local] Instance sx_history : History Host := sessionHistory countedID (λ _, "error"%string) unit.

Definition sx_call : llm.ToolCall := llm.mkToolCall "call_1" "Read" "{}".

Definition sx_usage : pricing.Usage := pricing.mkUsage 10 5 15 0 0.

Definition sx_reply (l : agentapp.Live) : res string Completion :=
  if decide (recorded l = ∅) then Ok (mkCompletion "reading" [sx_call] sx_usage None None)
  else Ok (mkCompletion "done" [] sx_usage None None).

Definition sx_client : LLMClient Host := mkLLMClient Host
  (λ _ s, (sx_reply s.1, s)) (λ _ s, (([], sx_reply s.1), s)) 200000.

Definition sx_tool : Tool Host := mkTool Host "Read" "reads" JNull
  (λ _ _, Returns (Ok "text"%string)) None (Some (λ _, AccessReadOnly)) None None None.

Definition sx_opts : RunLoopOpts Host := mkRunLoopOpts Host (Some sx_client) "prompt"
  (pricing.mkPricing "" 0 0 0 0) [sx_tool] 5 None None None None None 4 None None "" None None
  "s" "w" false "" None None (λ _, false).

Definition sx_prior : list command :=
  [DoBeginTurn "r" "m" "w" 0 "user"; DoAppend (context.userMessage "hello")].

Notation sx_start writes :=
  (performAll countedID sx_prior
     (agentapp.mkLive (conversation.2 <| sessionstore.D_writes := writes |>) conversationContext)).

Notation sx_run writes := (RunLoop sx_opts (λ n, seq 0 n) 1 (Run0 None (sx_start writes, tt))).

Example sx_answer : (sx_run []).1 = Ok ("reading" +:+ context.blankLine +:+ "done", None).
Proof. vm_compute. reflexivity. Qed.

(** The record of the result does not reach the disk. *)
Example sx_torn : ∃ e, (sx_run [None; None; None; None; Some 9]).1 = Err (ErrHistory e).
Proof. eexists. vm_compute. reflexivity. Qed.

Lemma sx_quiet (f : Host → res string Completion * Host) : (∀ s, (f s).2 = s) → aside countedID unit f.
Proof. intros Hf s. exists []. by rewrite Hf. Qed.

Lemma sx_aside : HostAside countedID unit sx_opts.
Proof.
  split; try done.
  - intros client req [= <-] s. by exists [].
  - intros client req [= <-] s. by exists [].
  - intros tool [->|H]%elem_of_cons; [|by apply not_elem_of_nil in H]. by intros ctx args.
Qed.

Lemma sx_new l : newCalls (sx_reply l) l.
Proof.
  unfold sx_reply. destruct (decide _) as [E|E]; split; cbn.
  - apply NoDup_singleton.
  - intros id _. rewrite E. set_solver.
  - constructor.
  - intros id Hid. by apply not_elem_of_nil in Hid.
Qed.

Lemma sx_fresh : FreshCalls unit sx_opts.
Proof. split; intros client req s [= <-]; apply sx_new. Qed.

(** The run that the disk cuts short is a sequence of methods all the same. *)
Lemma RunLoop_session_witness :
  let l' := (Rn_host (sx_run [None; None; None; None; Some 9]).2).1 in
  List.length (agentapp.SC_items (agentapp.Lv_ctx l')) = 4
  ∧ session.Validate (agentapp.SC_items (agentapp.Lv_ctx l')) = Ok tt.
Proof.
  split; [vm_compute; reflexivity|].
  destruct (RunLoop_session map_to_list countedID _ countedID_ne (λ _, "error"%string) unit sx_opts (λ n, seq 0 n)
    "p" "s" "m" emptyDisk conversationContext conversation.2 [None; None; None; None; Some 9] sx_prior 1 None tt
    conversation_opens sx_aside sx_fresh) as (_ & H & _).
  - vm_compute. exact (conj I (conj I I)).
  - exact H.
Defined.
