(* ===== verification/AgentLoopLimits.v ===== *)
(** * AgentLoopLimits: edges of the agent loop

    Concrete runs and cuts at which the code behaves differently from what a
    comment or a document says, and the accounting of delegated runs. *)

From Stdlib Require Import Ascii String.
From S2P Require Import Prelude EffLogic Text Json SessionCore Pricing SessionMeta AgentContext AgentContextLaws AgentNotes AgentCore AgentLoop AgentRunLogic AgentRunParts AgentExample.
From stdpp Require Import gmap strings.
Import Prelude.
Import runstats llmapi tools hooks runloop.
Local Open Scope Z_scope.
Local Open Scope buildmax_scope.

#[local] Existing Instances ex_lib ex_history.

(** ** Cuts *)

Definition asking : llm.Message := llm.mkMessage "assistant" "" "" [readCall] "" None [].
Definition answered : llm.Message := session.toolMessage "call_1" "0123456789abcdefghij" [].

(** A group too large for the budget: its last result is kept alone. *)
Lemma trim_splits_a_group :
  conversation [asking; answered] ∧
  context.TrimHistory [asking; answered] 0 4110 0 = [answered] ∧
  ¬ conversation [answered].
Proof.
  split_and!.
  - apply (conversation_group asking [answered] []); [done| |constructor]. split; [done|]. by constructor.
  - vm_compute. reflexivity.
  - intros H. apply conversation_starts in H. by apply H.
Qed.

(** No room at all: nothing is dropped. *)
Lemma trim_keeps_all_without_room :
  context.TrimHistory [context.userMessage "a"; context.userMessage "b"] 5000 4096 0
  = [context.userMessage "a"; context.userMessage "b"].
Proof. vm_compute. reflexivity. Qed.

(** What a compaction keeps may exceed the reserve, by the message it starts at;
    and a first message over the reserve means nothing is summarized. *)
Definition said : llm.Message := llm.mkMessage "assistant" "0123456789abcdefghij" "" [] "" None [].

Lemma split_keeps_more_than_the_reserve :
  context.splitForCompaction [context.userMessage "a"; said; context.userMessage "b"] 9
  = ([context.userMessage "a"], [said; context.userMessage "b"]) ∧
  context.EstimateTokens [said; context.userMessage "b"] = 16 ∧
  context.splitForCompaction [context.userMessage "0123456789"] 6 = ([], [context.userMessage "0123456789"]) ∧
  context.EstimateTokens [context.userMessage "0123456789"] = 7.
Proof. vm_compute. done. Qed.

(** ** Runs *)

Definition panicking : Tool Ex := mkTool Ex "Read" "panics" JNull
  (λ _ _, Panics "secret") None (Some (λ _, AccessReadOnly)) None None None.

(** A panic in a group of one leaves the run, in a larger group it does not, and
    then its text is not redacted. *)
Definition twoCalls : LLMClient Ex := mkLLMClient Ex
  (λ _ s, match s.2 with
          | O => (Ok (mkCompletion "done" [] usage0 None None), s)
          | Datatypes.S n =>
              (Ok (mkCompletion "" [readCall; llm.mkToolCall "call_2" "Read" "{}"] usage0 None None), (s.1, n))
          end)
  (λ _ s, (([], Err "blocking"), s)) 200000.

Definition two_opts (parallel : Z) : RunLoopOpts Ex :=
  mkRunLoopOpts Ex (Some twoCalls) "prompt" (pricing.mkPricing "" 0 0 0 0) [panicking] 5 None None None None None
    parallel None None "" None None "s1" "/w" false "" (Some (λ _, "[redacted]")) None (λ _, false).

Lemma panic_leaves_the_run :
  (RunLoop (two_opts 1) ex_order 1 (Run0 None ex_start)).1 = Err (RunPanicked "secret").
Proof. vm_compute. reflexivity. Qed.

Lemma panic_is_not_redacted :
  let out := RunLoop (two_opts 4) ex_order 1 (Run0 None ex_start) in
  out.1 = Ok ("done", None) ∧
  map llm.Msg_Content (filter (λ m, llm.Msg_Role m = "tool") (Rn_host out.2).1)
  = ["error: tool Read panicked: secret"; "error: tool Read panicked: secret"].
Proof. vm_compute. done. Qed.

(** The text of a panic reaches no EventToolEnd. *)
Definition isToolEnd (e : entry) : bool := match e with Emitted (EventToolEnd _ _ _ _) => true | _ => false end.

Lemma panic_emits_no_end :
  List.filter isToolEnd (Rn_log (RunLoop (two_opts 4) ex_order 1 (Run0 None ex_start)).2) = [].
Proof. vm_compute. reflexivity. Qed.

(** A history that refuses a message ends the run without EventRunEnd. *)
Definition refusing : History Ex := {|
  HistoryMessages := fst;
  Append _ := λ s, (Err "disk full"%string, s);
  compactions := None;
  durableNotes := None;
  toolBoundary := None
|}.

Definition isRunEnd (e : entry) : bool := match e with Emitted (EventRunEnd _ _) => true | _ => false end.

Lemma refused_append_reports_no_end :
  let out := @RunLoop Ex ex_lib refusing ex_opts ex_order 1 (Run0 None ex_start) in
  out.1 = Err (ErrHistory "disk full") ∧ List.filter isRunEnd (Rn_log out.2) = [].
Proof. vm_compute. done. Qed.

(** ** A compaction that replaced nothing reports no spend *)

Section Spend.
Context {S : Type} {Hist : History S} (opts : RunLoopOpts S).

Definition sameSpend : relation (Run S) := λ r r', Rn_stats r' = Rn_stats r.

#[local] Instance sameSpend_preorder : PreOrder sameSpend.
Proof. split; [done|]. unfold sameSpend. intros r1 r2 r3 ? ?. congruence. Qed.

Lemma host_sameSpend {A} (f : S → A * S) : steps sameSpend (host f).
Proof. intros r. unfold host. by destruct (f (Rn_host r)). Qed.

Lemma runHook_sameSpend input : steps sameSpend (runHook opts input).
Proof.
  unfold runHook. destruct (Hooks opts); [|by apply steps_ret, _].
  apply steps_bind; [apply _|apply host_sameSpend|]. intros out.
  by apply steps_bind; [apply _| |].
Qed.

Lemma compactOnce_unpaid compact iter prior history reserve r out r' :
  compactOnce opts compact iter prior history reserve r = (Ok out, r') →
  Compacted out.1.2 = false → Rn_stats r' = Rn_stats r.
Proof.
  unfold compactOnce. destruct (context.splitForCompaction history reserve) as [toSummarize toKeep]. cbn zeta.
  destruct (Nat.eqb_spec (length toSummarize) 0) as [E|Hne]; [by intros [= <- <-]|].
  intros H Hc. apply eff_bind_ok in H as (preOut & r1 & H1 & H).
  pose proof (runHook_sameSpend (baseHookInput opts HookPreCompact
    <| In_Summarized := length toSummarize |> <| In_Kept := length toKeep |>) r) as S1.
  rewrite H1 in S1. unfold sameSpend in S1. cbn in S1.
  destruct (Blocked preOut); [by injection H as <- <-|].
  apply eff_bind_ok in H as (res & r2 & H2 & H).
  assert (Rn_stats r2 = Rn_stats r1) as S2.
  { assert (steps sameSpend (checkpointAndCompact opts compact iter prior toSummarize)) as Hs.
    { unfold checkpointAndCompact. apply steps_bind; [apply _| |intros _; apply host_sameSpend].
      destruct (Checkpointer opts); [|by apply steps_ret, _].
      by apply steps_bind; [apply _|apply host_sameSpend|]. }
    specialize (Hs r1). by rewrite H2 in Hs. }
  destruct res as [[summary usage]|e]; [|injection H as <- <-; congruence].
  apply eff_bind_ok in H as (stored & r3 & H3 & H).
  assert (Rn_stats r3 = Rn_stats r2) as S3.
  { assert (∀ text, steps sameSpend (addCompaction (S := S) text (length toSummarize))) as Hs.
    { intros text. unfold addCompaction. destruct compactions; [apply host_sameSpend|by apply steps_ret, _]. }
    specialize (Hs (context.clampSummary summary (context.maxSummaryChars (window opts))) r2). by rewrite H3 in Hs. }
  destruct stored as [u|e]; [|injection H as <- <-; congruence].
  exfalso. apply eff_bind_ok in H as (cost & r4 & _ & H). apply eff_bind_ok in H as (? & r5 & _ & H).
  apply eff_bind_ok in H as (? & r6 & _ & H). injection H as <- _. cbn in Hc.
  by destruct (length toSummarize).
Qed.
End Spend.

(** ** Delegated runs *)

(** What happens to the accumulator: runs report, the loop drains. *)
Inductive delegation : Type := Reported (stats : RunStats) | Drained.

Definition delegate (acc : DelegatedStats * RunStats) (d : delegation) : DelegatedStats * RunStats :=
  match d with
  | Reported stats => (Report stats acc.1, acc.2)
  | Drained => let '(out, rest) := Drain acc.1 in (rest, absorb out acc.2)
  end.

Definition spent (f : RunStats → Z) (ds : list delegation) : Z :=
  context.sum (map (λ d, match d with Reported stats => f stats | Drained => 0 end) ds).

Definition runs (ds : list delegation) : Z := spent (λ _, 1) ds.

Lemma spent_snoc f ds d : spent f (ds ++ [d]) = spent f ds + match d with Reported stats => f stats | Drained => 0 end.
Proof. unfold spent, context.sum. rewrite map_app. induction ds as [|x ds IH]; cbn in *; lia. Qed.

Lemma wrap64_idemp z : wrap64 (wrap64 z) = wrap64 z.
Proof. apply wrap64_fits, wrap64_range. Qed.

(** The state of the accounting after [ds]. *)
Record accounted (s0 : RunStats) (ds : list delegation) (acc : DelegatedStats * RunStats) : Prop := {
  acc_runs : Del_Runs acc.1 ≤ runs ds ∧ 0 ≤ Del_Runs acc.1;
  acc_empty : Del_Runs acc.1 = 0 → acc.1 = DelegatedStats0;
  acc_prompt : wrap64 (Sta_PromptTokens acc.2 + Del_PromptTokens acc.1)
               = wrap64 (Sta_PromptTokens s0 + spent Sta_PromptTokens ds);
  acc_completion : wrap64 (Sta_CompletionTokens acc.2 + Del_CompletionTokens acc.1)
                   = wrap64 (Sta_CompletionTokens s0 + spent Sta_CompletionTokens ds);
  acc_calls : Sta_ToolCalls acc.2 = Sta_ToolCalls s0
}.

Lemma absorb_fields d s : Del_Runs d ≠ 0 →
  Sta_PromptTokens (absorb d s) = wrap64 (Sta_PromptTokens s + Del_PromptTokens d) ∧
  Sta_CompletionTokens (absorb d s) = wrap64 (Sta_CompletionTokens s + Del_CompletionTokens d) ∧
  Sta_ToolCalls (absorb d s) = Sta_ToolCalls s.
Proof.
  intros Hr. unfold absorb. rewrite bool_decide_eq_false_2 by done.
  destruct (mergeCost (Sta_Cost s) _ _ _). by destruct (mergeCost _ _ _ _).
Qed.

Lemma Report_fields stats acc :
  Del_Runs (Report stats acc) = wrap64 (Del_Runs acc + 1) ∧
  Del_PromptTokens (Report stats acc) = wrap64 (Del_PromptTokens acc + Sta_PromptTokens stats) ∧
  Del_CompletionTokens (Report stats acc) = wrap64 (Del_CompletionTokens acc + Sta_CompletionTokens stats).
Proof. unfold Report. by destruct (mergeCost _ _ _ _). Qed.

Lemma delegate_accounted s0 ds : runs ds < 2 ^ 63 - 1 →
  accounted s0 ds (foldl delegate (DelegatedStats0, s0) ds).
Proof.
  induction ds as [|d ds IH] using rev_ind; intros Hn.
  { by split. }
  assert (runs ds ≤ runs (ds ++ [d])) as Hmono by (unfold runs; rewrite spent_snoc; destruct d; lia).
  destruct (IH ltac:(lia)) as [[H1 H1'] H2 H3 H4 H5]. rewrite foldl_snoc.
  destruct (foldl delegate _ ds) as [acc s]. cbn [fst snd] in *. destruct d as [stats|].
  - cbn [delegate fst snd]. destruct (Report_fields stats acc) as (R1 & R2 & R3).
    unfold runs in *. rewrite spent_snoc in Hn, Hmono. cbn beta iota in Hn, Hmono.
    assert (Del_Runs (Report stats acc) = Del_Runs acc + 1) as R1'.
    { rewrite R1. apply wrap64_fits. unfold fits64. lia. }
    split; cbn [fst snd]; rewrite ?R1', ?R2, ?R3, ?spent_snoc, ?wrap64_add_r;
      [unfold runs; rewrite spent_snoc; lia|lia| | |done].
    + rewrite !Z.add_assoc, <- (wrap64_add_l (_ + Del_PromptTokens acc)), H3, wrap64_add_l. done.
    + rewrite !Z.add_assoc, <- (wrap64_add_l (_ + Del_CompletionTokens acc)), H4, wrap64_add_l. done.
  - cbn [delegate Drain fst snd]. unfold runs in *. rewrite spent_snoc in Hn, Hmono. cbn beta iota in Hn, Hmono.
    destruct (decide (Del_Runs acc = 0)) as [E|E].
    + rewrite (H2 E) in *. split; cbn [fst snd]; unfold runs; rewrite ?spent_snoc, ?Z.add_0_r in *; cbn; try done; lia.
    + destruct (absorb_fields acc s E) as (A1 & A2 & A3).
      split; cbn [fst snd]; unfold runs; rewrite ?A1, ?A2, ?A3, ?spent_snoc, ?Z.add_0_r; try done.
      * cbn. lia.
      * by rewrite wrap64_idemp.
      * by rewrite wrap64_idemp.
Qed.

(** delegated runs are counted once: however reports and drains interleave,
    after a final drain the totals of the run are what it spent itself plus what
    every delegated run reported, modulo 2^64, and its own tool calls are
    untouched. *)
Lemma delegated_once s0 ds : runs ds < 2 ^ 63 - 1 →
  let s := (foldl delegate (DelegatedStats0, s0) (ds ++ [Drained])).2 in
  wrap64 (Sta_PromptTokens s) = wrap64 (Sta_PromptTokens s0 + spent Sta_PromptTokens ds) ∧
  wrap64 (Sta_CompletionTokens s) = wrap64 (Sta_CompletionTokens s0 + spent Sta_CompletionTokens ds) ∧
  Sta_ToolCalls s = Sta_ToolCalls s0.
Proof.
  intros Hn. cbn zeta. destruct (delegate_accounted s0 ds Hn) as [[H1 H1'] H2 H3 H4 H5].
  rewrite foldl_snoc. destruct (foldl delegate _ ds) as [acc s]. cbn [delegate Drain fst snd] in *.
  destruct (decide (Del_Runs acc = 0)) as [E|E].
  - rewrite (H2 E) in *. cbn in *. by rewrite !Z.add_0_r in *.
  - destruct (absorb_fields acc s E) as (-> & -> & ->).
    by rewrite !wrap64_idemp.
Qed.

Lemma delegated_once_witness :
  let stats := RunStats0 <| Sta_PromptTokens := 7 |> in
  let ds := [Reported stats; Drained; Reported stats] in
  runs ds < 2 ^ 63 - 1 ∧
  let s := (foldl delegate (DelegatedStats0, RunStats0) (ds ++ [Drained])).2 in
  wrap64 (Sta_PromptTokens s) = wrap64 (Sta_PromptTokens RunStats0 + spent Sta_PromptTokens ds) ∧
  wrap64 (Sta_CompletionTokens s) = wrap64 (Sta_CompletionTokens RunStats0 + spent Sta_CompletionTokens ds) ∧
  Sta_ToolCalls s = Sta_ToolCalls RunStats0.
Proof.
  intros stats ds. assert (runs ds < 2 ^ 63 - 1) as Hn by (vm_compute; reflexivity).
  split; [exact Hn|exact (delegated_once RunStats0 ds Hn)].
Defined.
